(* ===== verification/_CoqProject ===== *)
-Q . S2P
Prelude.v
Bitmap.v
Iovec.v
MsgQueue.v
Kernel.v
Channel.v
Handle.v
Uctx.v
Ipc.v
IpcMsg.v
IpcInv.v
IpcSafe.v
IpcCalls.v
IpcSys.v
IpcPort.v
IpcWait.v
IpcEnv.v
IpcSystem.v
IpcProps.v
IpcFindings.v
IpcFrame.v
Shm.v
Vqueue.v
Sm.v
Memlog.v
Uthread.v
App.v
AppSpace.v
AppBoot.v
AppCalls.v
Tipc.v
TipcInv.v
TipcSafe.v
TipcMsg.v
TipcRx.v
TipcTx.v
TipcSystem.v
TipcProps.v
Virtio.v
VirtioTipc.v
Rpmb.v
Super.v
BlockDev.v
TipcNs.v
Client.v
ClientProps.v
BlockSet.v
Alloc.v
Commit.v
