(* ===== verification/Prelude.v ===== *)
(** * The Trusty kernel and its storage app: a verification of their core

    Trusty is a small operating system that runs beside Android in the secure
    world of an ARM processor.  This library models the parts of its kernel that
    stand between mutually distrusting parties (the non-secure side, the trusted
    apps and the kernel), and the parts of its storage app that decide what is on
    the disk after a crash or an attack, and proves what makes them correct.
    Paths below are relative to src/.

    ** The program and its parts

    The non-secure side enters the kernel by SMC instructions (lk/trusty/lib/sm).
    Standard calls are dispatched to entities; the entity of the logger
    (lk/trusty/lib/memlog) hands the kernel buffers to print to, the one of the
    trusted OS drives the virtio bus (trusty_virtio.c in lk/trusty/lib/trusty) and
    its queues (vqueue.c), rings in memory both sides share.  At start-up the
    kernel loads the trusted apps that are linked to it (trusty_app.c).  They are
    user threads (lk/trusty/lib/uthread) with an address space, descriptors
    (syscall.c) and a handle table each (uctx.c).  They talk to each other over
    channels: one app publishes a port under a path, another connects to the path,
    the first accepts, and each then writes to the message queue of the other's
    channel (ipc.c, ipc_msg.c, handle.c, iovec.c); the TIPC device (tipc_dev.c)
    does the same for the non-secure side.

    The storage app (app/storage) serves files to other apps (client_tipc.c).  A
    session works in a transaction (transaction.c), which takes free blocks from
    sets of ranges (block_set.c, block_allocator.c) and commits by writing one
    root block (super.c).  The root blocks are in a replay-protected partition
    (rpmb.c, block_device_tipc.c), which is reached through a proxy on the
    non-secure side (tipc_ns.c, ipc.c).

    ** Which file models what

    - Prelude.v: machine integers and rounding (stdlib.h), error codes, the monad
      [M S A] of stateful code that may fault, weakest preconditions ([wp]: no
      fault and the postcondition; [wlp]: the postcondition unless it faults),
      byte memories and copies from and to user space (arch usercopy).
    - Bitmap.v: the bitmaps of lk's bits.h.
    - Iovec.v: iovec.c, the four scatter/gather copies.
    - MsgQueue.v: the message queue of ipc_msg.c as descriptors on intrusive lists
      over one flat buffer, and its refinement of a FIFO of byte strings.
    - Kernel.v: the objects of handle.h, ipc.h and uctx.c, the heap they live in,
      reference counts (reflist.h) and the primitives on them.
    - Channel.v: shutdown, destruction and polling of channels and ports (ipc.c).
    - Handle.v: handle.c, waiting on one handle and on a list of handles.
    - Uctx.v: uctx.c, handle tables and the calls wait, wait_any, close and
      set_cookie.
    - Ipc.v: the rest of ipc.c: ports, connecting, accepting, publishing, and the
      calls port_create, connect and accept.
    - IpcMsg.v: the rest of ipc_msg.c: sending, fetching, reading and retiring
      messages by apps and by the kernel.
    - IpcInv.v, IpcSafe.v, IpcCalls.v, IpcSys.v, IpcPort.v, IpcWait.v, IpcEnv.v:
      the invariant of the IPC objects and, routine by routine, that it is kept.
    - IpcSystem.v: the system calls as transitions of one state machine;
      IpcProps.v: what every reachable state and every call satisfies;
      IpcFindings.v: concrete runs in which the code goes wrong; IpcFrame.v: what
      the calls of an app leave to the other clients of the kernel interface, as
      a class ([SysKeeper], over [Keeper] of IpcEnv) the clients instantiate.
    - Shm.v: memory shared with the non-secure side, which may change it before
      every single access; the kernel mappings made by lk's vmm.c.
    - Vqueue.v: vqueue.c and virtio_ring.h over that memory.
    - Sm.v: sm.c, smcall.c and ns_mem.c of lib/sm.
    - Memlog.v: memlog.c and the console loop that calls it.
    - Uthread.v: uthread.c with the 32-bit ARM page tables of arch/arm.
    - App.v: trusty_app.c and syscall.c: images, manifests, the calls on memory
      and descriptors.  AppSpace.v: the mappings of an app; AppBoot.v: the start of
      all apps; AppCalls.v: the calls on descriptors and time.
    - Tipc.v: tipc_dev.c, the device that connects the non-secure side to ports,
      over two queues (Vqueue.v) and the IPC objects.  TipcInv.v: its invariant;
      TipcSafe.v, TipcMsg.v: opening, closing and forwarding keep it; TipcRx.v,
      TipcTx.v: a round of the receiving and of the sending thread end to end;
      TipcSystem.v: the apps and the device as one state machine; TipcProps.v: the
      properties.
    - Virtio.v: trusty_virtio.c over a class of devices ([Vdev_laws]);
      VirtioTipc.v: the TIPC device on that bus and the calls of the trusted OS
      (trusty.c).
    - Rpmb.v: rpmb.c, the protocol of the partition.  BlockDev.v: the two block
      devices on it (block_device_tipc.c).  TipcNs.v: the requests to the proxy
      (tipc_ns.c, and the synchronous part of ipc.c).
    - Super.v: super.c, block_mac.c, block_range.h and crypt.c.
    - Client.v: client_tipc.c over an interface to the files ([file_layer]);
      ClientProps.v: what a session reads and writes.
    - BlockSet.v: block_set.c over an interface to the trees ([block_tree],
      [block_tree_laws]).  Alloc.v: block_allocator.c, and the free set of a commit
      (transaction.c).  Commit.v: transactions next to each other and
      [transaction_complete].

    C functions keep their names.  A structure is a [Record], an enumeration an
    [Inductive], an intrusive list the list of the addresses linked on it, a
    pointer to a kernel object the key of a map from which [free] removes it, so
    a use after free is a fault of the model.  Failing allocations and failing
    accesses to the disk are taken from a list in the state: every theorem holds
    for every such list.

    ** What the theorems show

    - IPC (IpcProps, MsgQueue, Iovec).  From boot, no sequence of system calls
      makes the kernel fail an assertion, dereference NULL or touch freed memory
      ([ipc_calls_safe], [blocking_calls_safe]); the calls of an app leave the
      tables of the others alone ([ipc_calls_isolated]); no channel leaks
      ([channels_reclaimable]); ports are found by the clients they admit and both
      ends of an accepted connection are connected ([connect_admits],
      [accept_connects]); a message sent is the message received
      ([message_delivered], over [msg_queue_fifo] and the copies of Iovec).
    - Virtio queues.  Whatever the other side stores in the rings at whatever
      time, no access leaves the mapped rings and no descriptor array overflows
      ([vqueue_get_avail_buf_safe]); against an idle other side the chain read is
      the chain stored, and what is mapped is unmapped.
    - Virtio bus.  Whatever is asked of it the bus moves as the machine [bus_step]
      says and asks its devices only for what they expect then
      ([virtio_bus_safe]); the description of the TIPC device is what the other
      side reads ([tipc_device_announced]).
    - Secure monitor.  Over all interleavings of the cpus a standard call is run
      and answered exactly once ([stdcall_exactly_once]); restarts, the api
      version, dispatch tables and the boot arguments behave as documented.
    - Shared log.  Registered buffers stay disjoint and mapped, writes stay in the
      ring whatever the other side does to it ([memlog_calls_safe]), and printing
      is appending to a ring ([memlog_write_appends]).
    - User threads.  Mapping and unmapping change exactly the translations they
      should, keep the lists of mappings sorted and disjoint, and the search for
      address space is first fit.
    - Trusted apps.  The apps that are started have a thread of their own and the
      heap their manifests ask for ([apps_start_with_heap]), and may map the device memory their manifests name and no other
      ([manifest_decides_mmio]); AppCalls holds the calls on descriptors.
    - TIPC device.  Apps and device are safe together under every interleaving
      ([tipc_system_safe]); a reset gives everything back; a message of the
      non-secure side goes through ring, mapping, dispatch and channel to the
      app, and the answer comes back in the used ring ([tipc_rx_delivers]); a
      message of an app arrives in a buffer of the non-secure side with its header
      ([tipc_tx_delivers]).
    - Secure device.  What is read is what the device has, or an error
      ([rpmb_read_authentic]); the search for its size ends
      ([rpmb_search_size_finds]); what is written through a working proxy is read
      back ([rpmb_over_proxy]), and blocks of the non-secure files are whole
      answers whatever the proxy does ([ns_block_answered]); the devices on the
      partition keep their blocks apart ([rpmb_devices_apart]).
    - File system roots.  A commit is atomic: after a start in whatever state a
      crash left the root blocks, the roots are those before or after it
      ([super_block_atomic]).
    - Storage clients.  A session keeps its table of files, fails no assertion and
      leaves no file open ([client_session_safe]), reaches only the files of its
      own app ([client_confined]), and reads what it has written
      ([client_write_read]).
    - Free blocks.  A block set is a set of blocks ([block_set_refines]) and the
      test for overlap is right ([block_set_overlap_decides]); no block is given
      out twice ([block_allocate_fresh]); transactions next to each other stay
      apart and away from the blocks of the committed state
      ([transactions_isolated]); and a commit changes the free set by what its
      transaction has taken and given up, or not at all ([commit_all_or_nothing]).

    ** Bounds and fuel

    The kernel is modelled as built for 32-bit ARM.  Loops over lists are
    structural.  Fuel appears where the source loop is not: the descriptor chain
    of vqueue.c (at most one entry per free slot of the two iovec arrays; the
    safety theorem is proved for that fuel, so it never runs out), the scan for
    the end of a user string (one step per mapped byte, proved enough in
    [strncpy_from_user_ends]), the walk over the app images (one step per app that
    there may be, and one), the search for the size of the partition (2^16 + 1,
    one per size), the loops over a request for data (one per byte that is left,
    and one), the loops over block sets (one per range, and a few), the search for
    a free block (one per block, and two) and the queue of the allocator (its
    length, and one).  Where these loops need not end of themselves the theorems
    show that the fuel is enough.  The waiting loops of handle.c wait for other
    threads and need not end; there the theorems are about every run.  Everything
    else terminates by construction.

    ** What is assumed

    [block_ok] (IpcWait): the threads that run while a call is blocked keep the
    invariant.  [allowed] (IpcSystem) and [sane_buf] (Memlog) exclude the calls in
    which the code itself goes wrong; each exclusion has its concrete run in
    IpcFindings or at the end of Memlog.  The region allocator and [malloc]
    return memory that is not in use ([vmm_ok], [vmm_fresh], [malloc_fresh]).
    The start-up hooks of other modules leave what the loader relies on alone
    ([hooks_ok]).  [unforgeable] (Rpmb): an answer with a valid code over a nonce
    was made by the device for that nonce; [rpmb_device], [serves] and [relays]
    say what a device and a proxy do that work, for the theorems about such.
    [session_ok] (Super): a write that stops in the middle does not decrypt to a
    valid root by accident.  The interfaces of the storage app: [blocks_ok] and [keeps_contents] for its file
    layer, [block_tree_laws] for its trees, and for the file layer at a commit
    [work] (Commit).  That the probe and reset of the TIPC device meet [Vdev_laws]
    is not shown.

    ** What is not modelled

    Locks (every routine under a lock is one transition), assembly (context
    switch, monitor entry) and timers.  handle_set.c and tipc_dev_ql.c are in no
    build.  Of the storage app: the block cache, the nodes of the B+ trees, the
    block maps and the file layer, which sit behind the interfaces above, with
    them the blocks that a tree takes for itself while it changes, and the event
    loop of ipc.c.  The other apps (keymaster, gatekeeper), the platform drivers
    and the rest of lk are outside the scope of this library.

    ** The prelude

    The rest of this file holds what all components share. *)

From stdpp Require Import base tactics list gmap sets.
From Stdlib Require Import ZArith Lia.

#[global] Open Scope Z_scope.

(** ** Machine integers

    The kernel is modelled as it is built for 32-bit ARM: [unsigned long],
    [size_t], [vaddr_t] and pointers are 32 bits wide.  An integer is a [Z];
    the operations that can wrap say so. *)

Definition u8 (z : Z) : Z := z mod 2 ^ 8.
Definition u16 (z : Z) : Z := z mod 2 ^ 16.
Definition u32 (z : Z) : Z := z mod 2 ^ 32.
Definition u64 (z : Z) : Z := z mod 2 ^ 64.
Definition s32 (z : Z) : Z := (z + 2 ^ 31) mod 2 ^ 32 - 2 ^ 31.

(** [stdlib.h]: rounding to a power-of-two boundary, at 32 bits. *)
Definition ROUNDDOWN (a b : Z) : Z := Z.land (u32 a) (u32 (Z.lnot (b - 1))).
Definition ROUNDUP (a b : Z) : Z :=
  Z.land (u32 (a + (b - 1))) (u32 (Z.lnot (b - 1))).

Lemma land_le x y : 0 <= x -> 0 <= y -> Z.land x y <= x.
Proof.
  intros Hx Hy. rewrite <- (Z2N.id x), <- (Z2N.id y), <- N2Z.inj_land by lia.
  apply N2Z.inj_le, N.land_le_l.
Qed.

(** Masking with the complement of [2^k - 1] rounds down to a multiple of [2^k]. *)
Lemma land_round x k :
  0 <= k <= 32 -> 0 <= x < 2 ^ 32 -> Z.land x (u32 (Z.lnot (2 ^ k - 1))) = x - x mod 2 ^ k.
Proof.
  intros Hk Hx. unfold u32. rewrite <- Z.land_ones by lia.
  replace (2 ^ k - 1) with (Z.ones k) by (rewrite Z.ones_equiv; lia).
  rewrite (Z.land_comm (Z.lnot _)), Z.land_assoc, Z.land_ones, Z.mod_small by lia.
  rewrite <- Z.ldiff_land, Z.ldiff_ones_r, Z.shiftl_mul_pow2, Z.shiftr_div_pow2 by lia.
  pose proof (Z.div_mod x (2 ^ k) ltac:(lia)). lia.
Qed.

Lemma ROUNDDOWN_spec a k : 0 <= k <= 32 -> 0 <= a < 2 ^ 32 -> ROUNDDOWN a (2 ^ k) = a / 2 ^ k * 2 ^ k.
Proof.
  intros Hk Ha. unfold ROUNDDOWN. rewrite land_round by (try done; apply Z.mod_pos_bound; lia).
  assert (u32 a = a) as -> by (by apply Z.mod_small). assert (2 ^ k <> 0) by lia.
  rewrite Z.mod_eq by done. lia.
Qed.

Lemma ROUNDUP_spec a k :
  0 <= k <= 32 -> 0 <= a -> a + 2 ^ k - 1 < 2 ^ 32 ->
  a <= ROUNDUP a (2 ^ k) < a + 2 ^ k /\ ROUNDUP a (2 ^ k) mod 2 ^ k = 0.
Proof.
  intros Hk Ha Hb. assert (0 < 2 ^ k) by lia. unfold ROUNDUP.
  assert (u32 (a + (2 ^ k - 1)) = a + (2 ^ k - 1)) as -> by (unfold u32; apply Z.mod_small; lia).
  rewrite land_round by lia.
  pose proof (Z.mod_pos_bound (a + (2 ^ k - 1)) (2 ^ k) ltac:(lia)).
  split; [lia|]. rewrite Zminus_mod_idemp_r, Z.sub_diag. apply Z.mod_0_l. lia.
Qed.

(** Past the end of the address space rounding up wraps to 0. *)
Lemma ROUNDUP_wraps a k :
  0 < k <= 32 -> 2 ^ 32 - 2 ^ k < a < 2 ^ 32 -> ROUNDUP a (2 ^ k) = 0.
Proof.
  intros Hk Ha. assert (0 < 2 ^ k <= 2 ^ 32) by (split; [lia|apply Z.pow_le_mono_r; lia]). unfold ROUNDUP.
  assert (u32 (a + (2 ^ k - 1)) = a + (2 ^ k - 1) - 2 ^ 32) as ->.
  { unfold u32. symmetry. apply (Z.mod_unique_pos _ _ 1); lia. }
  rewrite land_round by lia. rewrite Z.mod_small by lia. lia.
Qed.

(** Flag words. *)
Definition has_flag (w m : Z) : bool := negb (Z.land w m =? 0).
Definition set_flag (w m : Z) : Z := Z.lor w m.
Definition clear_flag (w m : Z) : Z := Z.ldiff w m.

Lemma land_pow2 w n : 0 <= n -> Z.land w (2 ^ n) = if Z.testbit w n then 2 ^ n else 0.
Proof.
  intros Hn. apply Z.bits_inj'. intros i Hi. rewrite Z.land_spec, Z.pow2_bits_eqb by lia.
  destruct (Z.eqb_spec n i) as [->|Hne].
  - destruct (Z.testbit w i) eqn:E; cbn; [by rewrite Z.pow2_bits_true by lia|by rewrite Z.bits_0].
  - rewrite andb_false_r. destruct (Z.testbit w n); [by rewrite Z.pow2_bits_false by lia|by rewrite Z.bits_0].
Qed.

Lemma has_flag_pow2 w n : 0 <= n -> has_flag w (2 ^ n) = Z.testbit w n.
Proof.
  intros Hn. unfold has_flag. rewrite land_pow2 by lia. destruct (Z.testbit w n); [|done].
  destruct (Z.eqb_spec (2 ^ n) 0); [|done]. lia.
Qed.

(** A shifted word or'ed with what fits below it. *)
Lemma lor_shift x y k : 0 <= k -> 0 <= y < 2 ^ k -> Z.lor (Z.shiftl x k) y = x * 2 ^ k + y.
Proof.
  intros Hk Hy. rewrite <- Z.shiftl_mul_pow2 by lia. symmetry.
  assert (Z.land (Z.shiftl x k) y = 0) as H0.
  { apply Z.bits_inj'. intros i Hi. rewrite Z.land_spec, Z.bits_0, Z.shiftl_spec by lia.
    destruct (decide (i < k)); [by rewrite Z.testbit_neg_r by lia|].
    rewrite <- (Z.mod_small y (2 ^ k)) by lia. rewrite Z.mod_pow2_bits_high by lia. apply andb_false_r. }
  rewrite Z.add_nocarry_lxor by done. by apply Z.lxor_lor.
Qed.

(** ** Status codes ([err.h]) *)

Definition NO_ERROR : Z := 0.
Definition ERR_GENERIC : Z := -1.
Definition ERR_NOT_FOUND : Z := -2.
Definition ERR_NOT_READY : Z := -3.
Definition ERR_NO_MSG : Z := -4.
Definition ERR_NO_MEMORY : Z := -5.
Definition ERR_ALREADY_STARTED : Z := -6.
Definition ERR_NOT_VALID : Z := -7.
Definition ERR_INVALID_ARGS : Z := -8.
Definition ERR_NOT_ENOUGH_BUFFER : Z := -9.
Definition ERR_TIMED_OUT : Z := -13.
Definition ERR_ALREADY_EXISTS : Z := -14.
Definition ERR_CHANNEL_CLOSED : Z := -15.
Definition ERR_NOT_ALLOWED : Z := -17.
Definition ERR_NOT_SUPPORTED : Z := -24.
Definition ERR_TOO_BIG : Z := -25.
Definition ERR_BAD_STATE : Z := -31.
Definition ERR_NOT_CONFIGURED : Z := -38.
Definition ERR_FAULT : Z := -40.
Definition ERR_NO_RESOURCES : Z := -41.
Definition ERR_BAD_HANDLE : Z := -42.
Definition ERR_ACCESS_DENIED : Z := -43.

(** ** Stateful code that can fault

    A kernel routine maps a state to a result and a state, or to a [fault]:
    a failed [ASSERT], a [panic], or a pointer that is NULL or refers to freed
    memory.  [DEBUG_ASSERT] is compiled in ([LK_DEBUGLEVEL] is 2 in every
    MediaTek project file), so it faults like [ASSERT]. *)

Inductive fault :=
| AssertFailed
| Panicked
| NullDeref
| BadPointer
| UninitRead
| Undefined
| OutOfFuel.

#[export] Instance fault_eq_dec : EqDecision fault.
Proof. solve_decision. Defined.

Inductive outcome (S A : Type) :=
| Ret (a : A) (s : S)
| Fault (f : fault).

Arguments Ret {S A} a s.
Arguments Fault {S A} f.

Definition M (S A : Type) : Type := S -> outcome S A.

#[export] Instance M_ret S : MRet (M S) := fun A a s => Ret a s.
#[export] Instance M_bind S : MBind (M S) := fun A B k m s =>
  match m s with
  | Ret a s' => k a s'
  | Fault f => Fault f
  end.

#[export] Instance M_fmap S : FMap (M S) := fun A B f m s =>
  match m s with
  | Ret a s' => Ret (f a) s'
  | Fault e => Fault e
  end.

Definition get {S} : M S S := fun s => Ret s s.
Definition gets {S A} (f : S -> A) : M S A := fun s => Ret (f s) s.
Definition modify {S} (f : S -> S) : M S unit := fun s => Ret tt (f s).
Definition raise {S A} (f : fault) : M S A := fun _ => Fault f.

(** [ASSERT(b)] *)
Definition assert_ {S} (b : bool) : M S unit :=
  if b then mret tt else raise AssertFailed.

(** Dereference of a looked-up object. *)
Definition deref {S A} (f : fault) (o : option A) : M S A :=
  match o with Some a => mret a | None => raise f end.

(** [list_for_every_entry_safe]: the body may unlink the current entry. *)
Fixpoint mfor {S A} (f : A -> M S unit) (l : list A) : M S unit :=
  match l with
  | [] => mret tt
  | x :: l' => f x;; mfor f l'
  end.

Definition when {S} (b : bool) (m : M S unit) : M S unit :=
  if b then m else mret tt.

(** ** Weakest preconditions

    [wp m Q s]: from [s] the routine [m] does not fault and ends in [Q].
    [wlp m Q s]: if [m] does not fault from [s] it ends in [Q]. *)

Definition wp {S A} (m : M S A) (Q : A -> S -> Prop) (s : S) : Prop :=
  match m s with Ret a s' => Q a s' | Fault _ => False end.

Definition wlp {S A} (m : M S A) (Q : A -> S -> Prop) (s : S) : Prop :=
  match m s with Ret a s' => Q a s' | Fault _ => True end.

(** Running a bind whose first part is known. *)
Lemma run_bind {S A B} (m : M S A) (k : A -> M S B) s a s' :
  m s = Ret a s' -> (m ≫= k) s = k a s'.
Proof. intros E. unfold mbind, M_bind. by rewrite E. Qed.

Section wp_rules.
Context {S : Type}.
Implicit Types (s : S).

Lemma wp_ret {A} (a : A) (Q : A -> S -> Prop) s : Q a s -> wp (mret a) Q s.
Proof. done. Qed.

Lemma wp_bind {A B} (m : M S A) (k : A -> M S B) Q s :
  wp m (fun a s' => wp (k a) Q s') s -> wp (m ≫= k) Q s.
Proof. unfold wp, mbind, M_bind. by destruct (m s). Qed.

Lemma wp_fmap {A B} (m : M S A) (f : A -> B) Q s :
  wp m (fun a s' => Q (f a) s') s -> wp (f <$> m) Q s.
Proof. unfold wp, fmap, M_fmap. by destruct (m s). Qed.

Lemma wp_mono {A} (m : M S A) (P Q : A -> S -> Prop) s :
  wp m P s -> (forall a s', P a s' -> Q a s') -> wp m Q s.
Proof. unfold wp. destruct (m s); eauto. Qed.

Lemma wp_gets {A} (f : S -> A) (Q : A -> S -> Prop) s : Q (f s) s -> wp (gets f) Q s.
Proof. done. Qed.

Lemma wp_get (Q : S -> S -> Prop) s : Q s s -> wp get Q s.
Proof. done. Qed.

Lemma wp_modify (f : S -> S) (Q : unit -> S -> Prop) s : Q tt (f s) -> wp (modify f) Q s.
Proof. done. Qed.

Lemma wp_assert b (Q : unit -> S -> Prop) s : b = true -> Q tt s -> wp (assert_ b) Q s.
Proof. by intros ->. Qed.

Lemma wp_deref {A} f (o : option A) a (Q : A -> S -> Prop) s :
  o = Some a -> Q a s -> wp (deref f o) Q s.
Proof. by intros ->. Qed.

Lemma wp_when b m (Q : unit -> S -> Prop) s :
  (b = true -> wp m Q s) -> (b = false -> Q tt s) -> wp (when b m) Q s.
Proof. destruct b; cbn; auto. Qed.

(** A loop invariant indexed by the entries still to visit. *)
Lemma wp_mfor {A} (f : A -> M S unit) (l : list A) (I : list A -> S -> Prop) s :
  I l s ->
  (forall x l' s', I (x :: l') s' -> wp (f x) (fun _ => I l') s') ->
  wp (mfor f l) (fun _ => I []) s.
Proof.
  intros Hi Hstep. revert s Hi. induction l as [|x l IH]; intros s Hi; cbn.
  - by apply wp_ret.
  - apply wp_bind. eapply wp_mono; [by apply Hstep|]. intros [] s' Hs'. by apply IH.
Qed.

Lemma wp_run {A} (m : M S A) (Q : A -> S -> Prop) s a s' : m s = Ret a s' -> Q a s' -> wp m Q s.
Proof. unfold wp. by intros ->. Qed.

Lemma wp_wlp {A} (m : M S A) Q s : wp m Q s -> wlp m Q s.
Proof. unfold wp, wlp. by destruct (m s). Qed.
End wp_rules.

(** Symbolic execution: strip the monad off a [wp] goal. *)
Ltac wp_step :=
  lazymatch goal with
  | |- wp (mbind _ _) _ _ => apply wp_bind
  | |- wp (mret _) _ _ => apply wp_ret
  | |- wp (fmap _ _) _ _ => apply wp_fmap
  | |- wp (gets _) _ _ => apply wp_gets
  | |- wp get _ _ => apply wp_get
  | |- wp (modify _) _ _ => apply wp_modify
  end.
Ltac wp_steps := repeat (wp_step; cbn beta).

(** Run the first command of a bind by an equation [m s = Ret a s']. *)
Tactic Notation "wp_with" tactic3(t) := apply wp_bind; eapply wp_run; [solve [t]|].

Create HintDb trusty discriminated.

(** Membership in explicit lists. *)
Ltac list_mem :=
  repeat rewrite ?elem_of_app, ?elem_of_cons, ?elem_of_nil in *; intuition congruence.

(** ** Byte memories

    A memory maps the mapped 32-bit addresses to bytes. *)

Abbreviation mem := (gmap Z Z).

Fixpoint mem_read (m : mem) (a : Z) (n : nat) : option (list Z) :=
  match n with
  | O => Some []
  | S n' => b ← m !! a; bs ← mem_read m (u32 (a + 1)) n'; Some (b :: bs)
  end.

(** Byte-wise store; stops at the first unmapped address. *)
Fixpoint mem_write (m : mem) (a : Z) (bs : list Z) : bool * mem :=
  match bs with
  | [] => (true, m)
  | b :: bs' =>
      match m !! a with
      | Some _ => mem_write (<[a := b]> m) (u32 (a + 1)) bs'
      | None => (false, m)
      end
  end.

(** Little-endian words. *)
Fixpoint le_bytes (n : nat) (z : Z) : list Z :=
  match n with
  | O => []
  | S n' => z mod 256 :: le_bytes n' (z / 256)
  end.

Fixpoint le_val (bs : list Z) : Z :=
  match bs with
  | [] => 0
  | b :: bs' => b + 256 * le_val bs'
  end.

Lemma le_bytes_length n z : length (le_bytes n z) = n.
Proof. revert z. induction n; intros z; cbn; auto. Qed.

Lemma le_val_bytes n z : le_val (le_bytes n z) = z mod 256 ^ Z.of_nat n.
Proof.
  revert z. induction n as [|n IH]; intros z; cbn [le_bytes le_val].
  - by rewrite Z.mod_1_r.
  - rewrite IH, Nat2Z.inj_succ, Z.pow_succ_r by lia.
    rewrite Z.rem_mul_r by (try lia; apply Z.pow_nonzero; lia). lia.
Qed.

(** [copy_to_user] / [copy_from_user] of usercopy.S: byte loops that stop at
    the first address that is not mapped for the user; [copy_from_user] then
    zero-fills what is left of the kernel buffer. *)
Definition copy_to_user (um : mem) (udest : Z) (src : list Z) : Z * mem :=
  let '(ok, um') := mem_write um udest src in
  (if ok then NO_ERROR else ERR_FAULT, um').

Fixpoint copy_from_user_loop (um : mem) (a : Z) (n : nat) : bool * list Z :=
  match n with
  | O => (true, [])
  | S n' =>
      match um !! a with
      | Some b => let '(ok, bs) := copy_from_user_loop um (u32 (a + 1)) n' in (ok, b :: bs)
      | None => (false, replicate (S n') 0)
      end
  end.

Definition copy_from_user (um : mem) (usrc : Z) (n : nat) : Z * list Z :=
  let '(ok, bs) := copy_from_user_loop um usrc n in
  (if ok then NO_ERROR else ERR_FAULT, bs).

Lemma copy_from_user_length um a n : length (copy_from_user um a n).2 = n.
Proof.
  unfold copy_from_user. destruct (copy_from_user_loop um a n) as [ok bs] eqn:E.
  cbn. revert a ok bs E. induction n as [|n IH]; intros a ok bs E; cbn in E.
  - by simplify_eq.
  - destruct (um !! a).
    + destruct (copy_from_user_loop _ _ n) as [ok' bs'] eqn:E'. simplify_eq.
      cbn. f_equal. eauto.
    + simplify_eq. cbn. by rewrite length_replicate.
Qed.

Lemma copy_from_user_ok um a n bs :
  copy_from_user um a n = (NO_ERROR, bs) <-> mem_read um a n = Some bs.
Proof.
  unfold copy_from_user. revert a bs. induction n as [|n IH]; intros a bs; cbn.
  - split; intros; simplify_eq; done.
  - destruct (um !! a) as [b|]; cbn; [|by split].
    specialize (IH (u32 (a + 1))).
    destruct (copy_from_user_loop um (u32 (a + 1)) n) as [[] bs'].
    + rewrite (proj1 (IH bs') eq_refl). cbn. split; intros; by simplify_eq.
    + destruct (mem_read um (u32 (a + 1)) n) as [bs2|].
      * by pose proof (proj2 (IH bs2) eq_refl).
      * by split.
Qed.

Lemma copy_from_user_status um a n st bs :
  copy_from_user um a n = (st, bs) -> st = NO_ERROR \/ st = ERR_FAULT.
Proof.
  unfold copy_from_user. destruct (copy_from_user_loop _ _ _) as [[] ?]; intros; simplify_eq; auto.
Qed.

Lemma mem_read_length m a n bs : mem_read m a n = Some bs -> length bs = n.
Proof.
  revert a bs. induction n as [|n IH]; intros a bs; cbn; intros; simplify_option_eq; cbn; eauto.
Qed.

Lemma mem_read_take m a n k bs :
  mem_read m a n = Some bs -> (k <= n)%nat -> mem_read m a k = Some (take k bs).
Proof.
  revert a k bs. induction n as [|n IH]; intros a k bs; cbn; intros H Hk.
  - simplify_eq. by replace k with 0%nat by lia.
  - destruct k as [|k]; [done|]. simplify_option_eq. cbn. erewrite IH by (eauto; lia). done.
Qed.

(** Every mapped byte is a byte. *)
Definition mem_ok (m : mem) : Prop := map_Forall (fun _ b => 0 <= b < 256) m.

Definition bytes_ok (bs : list Z) : Prop := Forall (fun b => 0 <= b < 256) bs.

Lemma mem_read_bytes_ok m a n bs : mem_ok m -> mem_read m a n = Some bs -> bytes_ok bs.
Proof.
  intros Hm. revert a bs. induction n as [|n IH]; intros a bs; cbn; intros H; simplify_option_eq.
  - constructor.
  - constructor; [by eapply Hm|]. by eapply IH.
Qed.

Lemma le_val_bounds bs : bytes_ok bs -> 0 <= le_val bs < 256 ^ Z.of_nat (length bs).
Proof.
  induction 1 as [|b bs Hb _ IH]; cbn [le_val length]; [done|].
  rewrite Nat2Z.inj_succ, Z.pow_succ_r by lia. lia.
Qed.

Lemma bytes_ok_take n bs : bytes_ok bs -> bytes_ok (take n bs).
Proof. apply Forall_take. Qed.
Lemma bytes_ok_drop n bs : bytes_ok bs -> bytes_ok (drop n bs).
Proof. apply Forall_drop. Qed.

#[export] Hint Resolve mem_read_bytes_ok bytes_ok_take bytes_ok_drop : trusty.

(** Reads after a store. *)
Lemma mem_write_frame m a bs ok m' x :
  mem_write m a bs = (ok, m') ->
  0 <= a -> a + Z.of_nat (length bs) <= 2 ^ 32 ->
  x < a \/ a + Z.of_nat (length bs) <= x ->
  m' !! x = m !! x.
Proof.
  revert m a. induction bs as [|b bs IH]; intros m a; cbn [mem_write length]; intros H Ha Hl Hx.
  - by simplify_eq.
  - rewrite Nat2Z.inj_succ in *. destruct (m !! a) eqn:E; [|by simplify_eq].
    destruct bs as [|b' bs']; [cbn in H; simplify_eq; by rewrite lookup_insert_ne by lia|].
    assert (u32 (a + 1) = a + 1) as Hu by (unfold u32; apply Z.mod_small; cbn [length] in *; lia).
    rewrite Hu in H. apply IH in H; [|lia..].
    rewrite H. apply lookup_insert_ne. lia.
Qed.

Lemma mem_write_read m a bs m' :
  mem_write m a bs = (true, m') ->
  0 <= a -> a + Z.of_nat (length bs) <= 2 ^ 32 ->
  mem_read m' a (length bs) = Some bs.
Proof.
  revert m a. induction bs as [|b bs IH]; intros m a; cbn [mem_write mem_read length]; intros H Ha Hl.
  - done.
  - rewrite Nat2Z.inj_succ in *. destruct (m !! a) eqn:E; [|by simplify_eq].
    destruct bs as [|b' bs']; [cbn in H; simplify_eq; cbn; by rewrite lookup_insert_eq|].
    assert (u32 (a + 1) = a + 1) as Hu by (unfold u32; apply Z.mod_small; cbn [length] in *; lia).
    rewrite Hu in *. rewrite (IH _ _ H) by lia.
    rewrite (mem_write_frame _ _ _ _ _ a H) by lia. by rewrite lookup_insert_eq.
Qed.

Lemma mem_read_frame m m' a n :
  0 <= a -> a + Z.of_nat n <= 2 ^ 32 ->
  (forall x, a <= x < a + Z.of_nat n -> m' !! x = m !! x) ->
  mem_read m' a n = mem_read m a n.
Proof.
  revert a. induction n as [|n IH]; intros a Ha Hl Hx; cbn [mem_read]; [done|].
  rewrite Nat2Z.inj_succ in *. rewrite (Hx a) by lia.
  destruct n as [|n]; [done|].
  assert (u32 (a + 1) = a + 1) as Hu by (unfold u32; apply Z.mod_small; lia).
  rewrite Hu, IH by (intros; try apply Hx; lia). done.
Qed.

Lemma mem_write_mapped m a bs old :
  mem_read m a (length bs) = Some old -> (mem_write m a bs).1 = true.
Proof.
  revert m a old. induction bs as [|b bs IH]; intros m a old; cbn [mem_write mem_read length]; [done|].
  destruct (m !! a) as [o|] eqn:E; cbn; [|done]. intros H.
  destruct (mem_read m (u32 (a + 1)) (length bs)) as [o'|] eqn:E'; [|done].
  assert (exists o2, mem_read (<[a:=b]> m) (u32 (a + 1)) (length bs) = Some o2) as [o2 H2].
  { clear -E'. revert o' E'. generalize (u32 (a + 1)). generalize (length bs) as n.
    induction n as [|n IHn]; intros a' o' H; cbn in *; [by eauto|].
    destruct (m !! a') eqn:E; [|done]. cbn in H.
    destruct (mem_read m (u32 (a' + 1)) n) eqn:E2; [|done].
    destruct (IHn _ _ E2) as [? ->].
    destruct (decide (a = a')) as [->|]; [rewrite lookup_insert_eq|rewrite lookup_insert_ne, E by done]; cbn; eauto. }
  by eapply IH.
Qed.

(** A memory from [(address, contents)] segments. *)
Fixpoint mem_seg (a : Z) (bs : list Z) : mem :=
  match bs with
  | [] => ∅
  | b :: bs' => <[a := b]> (mem_seg (a + 1) bs')
  end.

Definition mem_of (segs : list (Z * list Z)) : mem :=
  foldr (fun seg m => mem_seg seg.1 seg.2 ∪ m) ∅ segs.
