(* ===== verification/Bitmap.v ===== *)
(** * Bitmaps: external/lk/include/bits.h

    The bitmaps of used slots of handle tables (uctx.c) and of endpoints
    (tipc_dev.c), and that setting, clearing and searching them does what the
    names say. *)

From stdpp Require Import base tactics list.
From Stdlib Require Import ZArith Lia.
From S2P Require Import Prelude.

(** ** bits.h, with 32-bit words *)

Definition BITMAP_BITS_PER_WORD : Z := 32.
Definition BITMAP_NUM_WORDS (n : Z) : Z := (n + BITMAP_BITS_PER_WORD - 1) / BITMAP_BITS_PER_WORD.
Definition BITMAP_WORD (bit : Z) : nat := Z.to_nat (bit / BITMAP_BITS_PER_WORD).
Definition BITMAP_BIT_IN_WORD (bit : Z) : Z := Z.land bit (BITMAP_BITS_PER_WORD - 1).

Definition bitmap_set (bm : list Z) (bit : Z) : list Z :=
  alter (fun w => Z.lor w (Z.shiftl 1 (BITMAP_BIT_IN_WORD bit))) (BITMAP_WORD bit) bm.

Definition bitmap_clear (bm : list Z) (bit : Z) : list Z :=
  alter (fun w => Z.ldiff w (Z.shiftl 1 (BITMAP_BIT_IN_WORD bit))) (BITMAP_WORD bit) bm.

Definition bitmap_test (bm : list Z) (bit : Z) : bool :=
  match bm !! BITMAP_WORD bit with
  | Some w => negb (Z.land w (Z.shiftl 1 (BITMAP_BIT_IN_WORD bit)) =? 0)
  | None => false
  end.

(** Lowest clear bit: [__builtin_ffsl(~x) - 1]. *)
Definition ffz (x : Z) : Z :=
  match list_find (fun k => Z.testbit x k = false) (seqZ 0 BITMAP_BITS_PER_WORD) with
  | Some (_, k) => k
  | None => -1
  end.

Fixpoint bitmap_ffz_loop (bm : list Z) (i numbits : Z) : Z :=
  match bm with
  | [] => -1
  | w :: bm' =>
      if w =? 2 ^ BITMAP_BITS_PER_WORD - 1 then bitmap_ffz_loop bm' (i + 1) numbits
      else
        let bit := i * BITMAP_BITS_PER_WORD + ffz w in
        if bit <? numbits then bit else -1
  end.

Definition bitmap_ffz (bm : list Z) (numbits : Z) : Z :=
  bitmap_ffz_loop (take (Z.to_nat (BITMAP_NUM_WORDS numbits)) bm) 0 numbits.

(** ** The bitmap *)

(** [n] words of 32 bits. *)
Definition bm_ok (n : nat) (bm : list Z) : Prop := length bm = n /\ Forall (fun w => 0 <= w < 2 ^ 32) bm.

Lemma bit_in_word i : 0 <= i -> BITMAP_BIT_IN_WORD i = i mod 32.
Proof. intros. unfold BITMAP_BIT_IN_WORD, BITMAP_BITS_PER_WORD. change (32 - 1) with (Z.ones 5). by rewrite Z.land_ones. Qed.

Lemma bitmap_test_spec bm i w :
  0 <= i -> bm !! Z.to_nat (i / 32) = Some w -> bitmap_test bm i = Z.testbit w (i mod 32).
Proof.
  intros Hi Hw. unfold bitmap_test, BITMAP_WORD, BITMAP_BITS_PER_WORD. rewrite Hw, bit_in_word by done.
  rewrite Z.shiftl_1_l. apply has_flag_pow2. by apply Z.mod_pos_bound.
Qed.

Lemma bm_word n bm i : bm_ok n bm -> 0 <= i < 32 * Z.of_nat n -> exists w, bm !! Z.to_nat (i / 32) = Some w /\ 0 <= w < 2 ^ 32.
Proof.
  intros [Hl Hf] Hi. destruct (lookup_lt_is_Some_2 bm (Z.to_nat (i / 32))) as [w Hw].
  { rewrite Hl. assert (0 <= i / 32 < Z.of_nat n) by (split; [by apply Z.div_pos; lia|apply Z.div_lt_upper_bound; lia]). lia. }
  exists w. split; [done|]. by apply (Forall_lookup_1 _ _ _ _ Hf Hw).
Qed.

Lemma div_mod_eq i j : 0 <= i -> 0 <= j -> i / 32 = j / 32 -> i mod 32 = j mod 32 -> i = j.
Proof. intros. rewrite (Z.div_mod i 32), (Z.div_mod j 32) by lia. lia. Qed.

Lemma u32_testbit w : 0 <= w < 2 ^ 32 <-> 0 <= w /\ forall i, 32 <= i -> Z.testbit w i = false.
Proof.
  split.
  - intros Hw. split; [lia|]. intros i Hi. rewrite <- (Z.mod_small w (2 ^ 32)) by done. apply Z.mod_pow2_bits_high. lia.
  - intros [H0 Hb]. split; [done|]. destruct (Z.eq_dec w 0) as [->|Hn]; [done|].
    apply Z.log2_lt_pow2; [lia|]. destruct (Z.lt_ge_cases (Z.log2 w) 32) as [|Hge]; [done|].
    specialize (Hb _ Hge). rewrite Z.bit_log2 in Hb by lia. done.
Qed.

Lemma bm_alter_ok n bm i f : bm_ok n bm -> (forall w, 0 <= w < 2 ^ 32 -> 0 <= f w < 2 ^ 32) -> bm_ok n (alter f i bm).
Proof.
  intros [Hl Hf] Hw. split; [by rewrite length_alter|]. apply Forall_alter; [done|]. intros x Hx _. apply Hw.
  by apply (Forall_lookup_1 _ _ _ _ Hf Hx).
Qed.

Lemma set_word_ok w k : 0 <= k < 32 -> 0 <= w < 2 ^ 32 -> 0 <= Z.lor w (Z.shiftl 1 k) < 2 ^ 32.
Proof.
  intros Hk Hw. apply u32_testbit in Hw as [H0 Hb]. apply u32_testbit. rewrite Z.shiftl_1_l. split.
  - apply Z.lor_nonneg. split; [done|]. lia.
  - intros i Hi. rewrite Z.lor_spec, Hb by done. cbn. apply Z.pow2_bits_false. lia.
Qed.

Lemma clear_word_ok w k : 0 <= w < 2 ^ 32 -> 0 <= Z.ldiff w (Z.shiftl 1 k) < 2 ^ 32.
Proof.
  intros Hw. apply u32_testbit in Hw as [H0 Hb]. apply u32_testbit. split.
  - apply Z.ldiff_nonneg. by left.
  - intros i Hi. by rewrite Z.ldiff_spec, Hb.
Qed.

Lemma bitmap_set_ok n bm i : 0 <= i -> bm_ok n bm -> bm_ok n (bitmap_set bm i).
Proof.
  intros Hi Hbm. apply bm_alter_ok; [done|]. intros w Hw. apply set_word_ok; [|done].
  rewrite bit_in_word by done. by apply Z.mod_pos_bound.
Qed.

Lemma bitmap_clear_ok n bm i : bm_ok n bm -> bm_ok n (bitmap_clear bm i).
Proof. intros Hbm. apply bm_alter_ok; [done|]. intros w Hw. by apply clear_word_ok. Qed.

(** What an update of one word does to every bit. *)
Lemma bitmap_test_alter n bm b i f (g : bool -> bool) :
  bm_ok n bm -> 0 <= b < 32 * Z.of_nat n -> 0 <= i < 32 * Z.of_nat n ->
  (forall w k, 0 <= k < 32 -> Z.testbit (f w) k = if k =? b mod 32 then g (Z.testbit w k) else Z.testbit w k) ->
  bitmap_test (alter f (BITMAP_WORD b) bm) i = if i =? b then g (bitmap_test bm i) else bitmap_test bm i.
Proof.
  intros Hbm Hb Hi Hf. destruct (bm_word n bm i Hbm Hi) as (w & Hw & _).
  rewrite (bitmap_test_spec bm i w) by (lia || done). unfold BITMAP_WORD, BITMAP_BITS_PER_WORD.
  pose proof (Z.mod_pos_bound i 32 ltac:(lia)). destruct (decide (b / 32 = i / 32)) as [E|Hne].
  - erewrite (bitmap_test_spec _ i (f w)); [|lia|by rewrite E, list_lookup_alter_eq, Hw]. rewrite Hf by done.
    destruct (Z.eqb_spec i b) as [->|]; [by rewrite Z.eqb_refl|].
    destruct (Z.eqb_spec (i mod 32) (b mod 32)); [|done]. exfalso. apply n0, div_mod_eq; lia.
  - rewrite (bitmap_test_spec _ i w); [|lia|].
    + destruct (Z.eqb_spec i b) as [->|]; done.
    + rewrite list_lookup_alter_ne; [done|]. intros E. apply Hne. apply Z2Nat.inj; [apply Z.div_pos; lia..|done].
Qed.

Lemma bitmap_test_set n bm b i : bm_ok n bm -> 0 <= b < 32 * Z.of_nat n -> 0 <= i < 32 * Z.of_nat n ->
  bitmap_test (bitmap_set bm b) i = if i =? b then true else bitmap_test bm i.
Proof.
  intros Hbm Hb Hi. unfold bitmap_set. rewrite (bitmap_test_alter n bm b i _ (fun _ => true)); try done.
  intros w k Hk. rewrite bit_in_word by lia. rewrite Z.lor_spec, Z.shiftl_1_l.
  pose proof (Z.mod_pos_bound b 32 ltac:(lia)). rewrite Z.pow2_bits_eqb by lia. rewrite Z.eqb_sym.
  destruct (k =? b mod 32); [apply orb_true_r|apply orb_false_r].
Qed.

Lemma bitmap_test_clear n bm b i : bm_ok n bm -> 0 <= b < 32 * Z.of_nat n -> 0 <= i < 32 * Z.of_nat n ->
  bitmap_test (bitmap_clear bm b) i = if i =? b then false else bitmap_test bm i.
Proof.
  intros Hbm Hb Hi. unfold bitmap_clear. rewrite (bitmap_test_alter n bm b i _ (fun _ => false)); try done.
  intros w k Hk. rewrite bit_in_word by lia. rewrite Z.ldiff_spec, Z.shiftl_1_l.
  pose proof (Z.mod_pos_bound b 32 ltac:(lia)). rewrite Z.pow2_bits_eqb by lia. rewrite Z.eqb_sym.
  destruct (k =? b mod 32); cbn; [apply andb_false_r|apply andb_true_r].
Qed.

(** [_ffz] finds the lowest clear bit of a word that has one. *)
Lemma ffz_spec w : 0 <= w < 2 ^ 32 -> w <> 2 ^ 32 - 1 ->
  0 <= ffz w < 32 /\ Z.testbit w (ffz w) = false /\ forall k, 0 <= k < ffz w -> Z.testbit w k = true.
Proof.
  intros Hw Hn. unfold ffz, BITMAP_BITS_PER_WORD.
  destruct (list_find (fun k => Z.testbit w k = false) (seqZ 0 32)) as [[j k]|] eqn:E.
  - apply list_find_Some in E as (Hj & Ht & Hlow). apply lookup_seqZ in Hj as [-> Hlt]. split; [lia|]. split; [done|].
    intros k Hk. destruct (Z.testbit w k) eqn:Et; [done|]. exfalso. apply (Hlow (Z.to_nat k) k); [|lia|done].
    apply lookup_seqZ. lia.
  - exfalso. apply Hn. apply list_find_None in E. change (2 ^ 32 - 1) with (Z.ones 32).
    apply Z.bits_inj'. intros i Hi. destruct (Z.lt_ge_cases i 32).
    + rewrite Z.ones_spec_low by lia. destruct (Z.testbit w i) eqn:Et; [done|]. exfalso.
      rewrite Forall_forall in E. apply (E i); [|done]. apply list_elem_of_lookup. exists (Z.to_nat i). apply lookup_seqZ. lia.
    + rewrite Z.ones_spec_high by lia. by apply u32_testbit.
Qed.

Lemma bitmap_test_cons w ws k : 0 <= k ->
  bitmap_test (w :: ws) k = if k <? 32 then Z.testbit w k else bitmap_test ws (k - 32).
Proof.
  intros Hk. destruct (Z.ltb_spec k 32).
  - rewrite (bitmap_test_spec _ k w); [by rewrite Z.mod_small by lia|lia|]. by rewrite Z.div_small by lia.
  - unfold bitmap_test, BITMAP_WORD. rewrite !bit_in_word by lia. unfold BITMAP_BITS_PER_WORD.
    assert (0 <= (k - 32) / 32) by (apply Z.div_pos; lia).
    assert (k / 32 = (k - 32) / 32 + 1) as -> by (rewrite <- Z.div_add by lia; f_equal; lia).
    assert (k mod 32 = (k - 32) mod 32) as -> by (rewrite <- (Z_mod_plus_full (k - 32) 1); f_equal; lia).
    by replace (Z.to_nat ((k - 32) / 32 + 1)) with (S (Z.to_nat ((k - 32) / 32))) by lia.
Qed.

Lemma all_ones w k : w = 2 ^ 32 - 1 -> 0 <= k < 32 -> Z.testbit w k = true.
Proof. intros -> Hk. change (2 ^ 32 - 1) with (Z.ones 32). by apply Z.ones_spec_low. Qed.

(** The words from the [i]th on. *)
Lemma bitmap_ffz_loop_spec ws : Forall (fun w => 0 <= w < 2 ^ 32) ws -> forall i nb,
  nb = 32 * (i + Z.of_nat (length ws)) ->
  let r := bitmap_ffz_loop ws i nb in
  (r = -1 /\ forall k, 0 <= k < 32 * Z.of_nat (length ws) -> bitmap_test ws k = true) \/
  (exists j, r = 32 * i + j /\ 0 <= j < 32 * Z.of_nat (length ws) /\ bitmap_test ws j = false /\
     forall k, 0 <= k < j -> bitmap_test ws k = true).
Proof.
  induction 1 as [|w ws Hw Hws IH]; intros i nb Hnb; cbn [bitmap_ffz_loop].
  { left. split; [done|]. cbn. lia. }
  cbn [length] in *. change (2 ^ BITMAP_BITS_PER_WORD - 1) with (2 ^ 32 - 1). change BITMAP_BITS_PER_WORD with 32.
  destruct (Z.eqb_spec w (2 ^ 32 - 1)) as [E|Hn].
  - destruct (IH (i + 1) nb) as [(-> & Hall)|(j & -> & Hj & Hc & Hlow)]; [lia|left|right].
    + split; [done|]. intros k Hk. rewrite bitmap_test_cons by lia.
      destruct (Z.ltb_spec k 32); [apply all_ones; [done|lia]|apply Hall; lia].
    + exists (j + 32). split; [lia|]. split; [lia|]. rewrite bitmap_test_cons by lia.
      destruct (Z.ltb_spec (j + 32) 32); [lia|]. replace (j + 32 - 32) with j by lia. split; [done|].
      intros k Hk. rewrite bitmap_test_cons by lia. destruct (Z.ltb_spec k 32); [apply all_ones; [done|lia]|apply Hlow; lia].
  - destruct (ffz_spec w Hw Hn) as (Hr & Hc & Hlow). right. destruct (Z.ltb_spec (i * 32 + ffz w) nb); [|lia].
    exists (ffz w). split; [lia|]. split; [lia|]. rewrite bitmap_test_cons by lia.
    destruct (Z.ltb_spec (ffz w) 32); [|lia]. split; [done|].
    intros k Hk. rewrite bitmap_test_cons by lia. destruct (Z.ltb_spec k 32); [apply Hlow; lia|lia].
Qed.

(** [bitmap_ffz] over all the bits: the lowest clear one, or none when all are
    set. *)
Lemma bitmap_ffz_spec n bm : bm_ok n bm ->
  let r := bitmap_ffz bm (32 * Z.of_nat n) in
  (r = -1 /\ forall i, 0 <= i < 32 * Z.of_nat n -> bitmap_test bm i = true) \/
  (0 <= r < 32 * Z.of_nat n /\ bitmap_test bm r = false /\ forall i, 0 <= i < r -> bitmap_test bm i = true).
Proof.
  intros [Hl Hf]. unfold bitmap_ffz, BITMAP_NUM_WORDS, BITMAP_BITS_PER_WORD.
  replace ((32 * Z.of_nat n + 32 - 1) / 32) with (Z.of_nat n) by (apply (Z.div_unique_pos _ _ _ 31); lia).
  rewrite Nat2Z.id, take_ge by lia.
  destruct (bitmap_ffz_loop_spec bm Hf 0 (32 * Z.of_nat n)) as [(-> & H)|(j & -> & Hj & H)]; [by rewrite Hl|left|right].
  - split; [done|]. intros i Hi. apply H. by rewrite Hl.
  - by rewrite Hl in Hj.
Qed.

Lemma alter_alter_id (f g : Z -> Z) (i : nat) (l : list Z) w :
  l !! i = Some w -> g (f w) = w -> alter g i (alter f i l) = l.
Proof.
  intros Hw E. apply list_eq. intros j. destruct (decide (i = j)) as [<-|Hne].
  - rewrite !list_lookup_alter_eq, Hw. cbn. by rewrite E.
  - by rewrite !list_lookup_alter_ne.
Qed.

Lemma bitmap_clear_set n bm i : bm_ok n bm -> 0 <= i < 32 * Z.of_nat n -> bitmap_test bm i = false -> bitmap_clear (bitmap_set bm i) i = bm.
Proof.
  intros Hbm Hi Ht. destruct (bm_word n bm i Hbm Hi) as (w & Hw & Hr). unfold bitmap_clear, bitmap_set, BITMAP_WORD.
  eapply alter_alter_id; [exact Hw|]. rewrite bit_in_word by lia. rewrite (bitmap_test_spec bm i w) in Ht by (done || lia).
  apply Z.bits_inj'. intros k Hk. rewrite Z.ldiff_spec, Z.lor_spec, Z.shiftl_spec by done.
  assert (Z.testbit 1 (k - i mod 32) = (k =? i mod 32)) as ->.
  { destruct (Z.eqb_spec k (i mod 32)) as [->|]; [by rewrite Z.sub_diag|]. destruct (Z.lt_ge_cases k (i mod 32)); [by apply Z.testbit_neg_r; lia|].
    by apply (Z.bits_above_log2 1); cbn; lia. }
  destruct (Z.eqb_spec k (i mod 32)) as [->|]; cbn; [by rewrite Ht, orb_true_r|by rewrite orb_false_r, andb_true_r].
Qed.
