(* ===== verification/Iovec.v ===== *)
(** * Scatter/gather copies: lk/trusty/lib/trusty/iovec.c

    The four routines that move a message between a flat kernel buffer and an
    I/O vector, in kernel or in user memory.  A kernel buffer is the list of
    its bytes from the pointer the routine is given ([None] is a NULL pointer);
    memories are the byte maps of [Prelude].  The kernel variants return [None]
    where the C code would dereference a pointer outside mapped kernel memory;
    the user variants cannot, they return [ERR_FAULT]. *)

From stdpp Require Import base tactics list gmap.
From Stdlib Require Import ZArith Lia.
From S2P Require Import Prelude.

Record iovec_kern := Iov { iov_base : Z; iov_len : Z }.

(** The 32-bit little-endian word at byte [off] of a structure copied in. *)
Definition field32 (off : nat) (bs : list Z) : Z := u32 (le_val (take 4 (drop off bs))).

(** [iovec_user_t], eight bytes in user memory. *)
Definition sizeof_iovec_user : nat := 8.
Definition decode_iovec_user (bs : list Z) : iovec_kern :=
  Iov (field32 0 bs) (field32 4 bs).

#[global] Arguments decode_iovec_user : simpl never.
#[global] Arguments copy_from_user : simpl never.
#[global] Arguments copy_to_user : simpl never.

(** [memcpy(buf + pos, bs, length bs)] *)
Definition splice (buf : list Z) (pos : nat) (bs : list Z) : list Z :=
  take pos buf ++ bs ++ drop (pos + length bs) buf.

(** [to_copy = len; if (to_copy > iov->len) to_copy = iov->len;] *)
Definition clamp (len iovlen : Z) : Z := if len >? iovlen then iovlen else len.

Fixpoint membuf_to_kern_loop (km : mem) (iov : list iovec_kern) (cnt : nat)
    (buf : list Z) (len copied : Z) : option (Z * mem) :=
  match cnt with
  | O => Some (copied, km)
  | S cnt' =>
      v ← head iov;
      let to_copy := clamp len (iov_len v) in
      if to_copy =? 0 then membuf_to_kern_loop km (tail iov) cnt' buf len copied
      else if iov_base v =? 0 then Some (ERR_INVALID_ARGS, km)
      else
        match mem_write km (iov_base v) (take (Z.to_nat to_copy) buf) with
        | (false, _) => None
        | (true, km') =>
            let copied' := copied + to_copy in
            let buf' := drop (Z.to_nat to_copy) buf in
            let len' := len - to_copy in
            if len' =? 0 then Some (copied', km')
            else membuf_to_kern_loop km' (tail iov) cnt' buf' len' copied'
        end
  end.

Definition membuf_to_kern_iovec (km : mem) (iov : option (list iovec_kern)) (iov_cnt : Z)
    (buf : option (list Z)) (len : Z) : option (Z * mem) :=
  if (iov_cnt =? 0) || (len =? 0) then Some (0, km)
  else
    match iov, buf with
    | Some iov, Some buf => membuf_to_kern_loop km iov (Z.to_nat iov_cnt) buf len 0
    | _, _ => Some (ERR_INVALID_ARGS, km)
    end.

Fixpoint kern_to_membuf_loop (km : mem) (iov : list iovec_kern) (cnt : nat)
    (buf : list Z) (pos : nat) (len copied : Z) : option (Z * list Z) :=
  match cnt with
  | O => Some (copied, buf)
  | S cnt' =>
      v ← head iov;
      let to_copy := clamp len (iov_len v) in
      if to_copy =? 0 then kern_to_membuf_loop km (tail iov) cnt' buf pos len copied
      else if iov_base v =? 0 then Some (ERR_INVALID_ARGS, buf)
      else
        bs ← mem_read km (iov_base v) (Z.to_nat to_copy);
        let buf' := splice buf pos bs in
        let copied' := copied + to_copy in
        let pos' := (pos + Z.to_nat to_copy)%nat in
        let len' := len - to_copy in
        if len' =? 0 then Some (copied', buf')
        else kern_to_membuf_loop km (tail iov) cnt' buf' pos' len' copied'
  end.

Definition kern_iovec_to_membuf (km : mem) (buf : option (list Z)) (len : Z)
    (iov : option (list iovec_kern)) (iov_cnt : Z) : option (Z * list Z) :=
  if (iov_cnt =? 0) || (len =? 0) then Some (0, default [] buf)
  else
    match buf, iov with
    | Some buf, Some iov => kern_to_membuf_loop km iov (Z.to_nat iov_cnt) buf 0 len 0
    | _, _ => Some (ERR_INVALID_ARGS, default [] buf)
    end.

(** The user variants fetch entry [i] of the vector from user memory each time
    round; [i] counts up from [0] while [cnt] counts down. *)
Fixpoint membuf_to_user_loop (um : mem) (iov_uaddr : Z) (i : Z) (cnt : nat)
    (buf : list Z) (len copied : Z) : Z * mem :=
  match cnt with
  | O => (copied, um)
  | S cnt' =>
      let '(ret, raw) := copy_from_user um (u32 (iov_uaddr + i * 8)) sizeof_iovec_user in
      if negb (ret =? NO_ERROR) then (ret, um)
      else
        let uiov := decode_iovec_user raw in
        let to_copy := clamp len (iov_len uiov) in
        let '(ret, um') := copy_to_user um (iov_base uiov) (take (Z.to_nat to_copy) buf) in
        if negb (ret =? NO_ERROR) then (ret, um')
        else
          let copied' := copied + to_copy in
          let buf' := drop (Z.to_nat to_copy) buf in
          let len' := len - to_copy in
          if len' =? 0 then (copied', um')
          else membuf_to_user_loop um' iov_uaddr (i + 1) cnt' buf' len' copied'
  end.

Definition membuf_to_user_iovec (um : mem) (iov_uaddr : Z) (iov_cnt : Z)
    (buf : option (list Z)) (len : Z) : Z * mem :=
  if (iov_cnt =? 0) || (len =? 0) then (0, um)
  else
    match buf with
    | Some buf => membuf_to_user_loop um iov_uaddr 0 (Z.to_nat iov_cnt) buf len 0
    | None => (ERR_INVALID_ARGS, um)
    end.

Fixpoint user_to_membuf_loop (um : mem) (iov_uaddr : Z) (i : Z) (cnt : nat)
    (buf : list Z) (pos : nat) (len copied : Z) : Z * list Z :=
  match cnt with
  | O => (copied, buf)
  | S cnt' =>
      let '(ret, raw) := copy_from_user um (u32 (iov_uaddr + i * 8)) sizeof_iovec_user in
      if negb (ret =? NO_ERROR) then (ret, buf)
      else
        let uiov := decode_iovec_user raw in
        let to_copy := clamp len (iov_len uiov) in
        let '(ret, bs) := copy_from_user um (iov_base uiov) (Z.to_nat to_copy) in
        let buf' := splice buf pos bs in
        if negb (ret =? NO_ERROR) then (ret, buf')
        else
          let copied' := copied + to_copy in
          let pos' := (pos + Z.to_nat to_copy)%nat in
          let len' := len - to_copy in
          if len' =? 0 then (copied', buf')
          else user_to_membuf_loop um iov_uaddr (i + 1) cnt' buf' pos' len' copied'
  end.

Definition user_iovec_to_membuf (um : mem) (buf : option (list Z)) (len : Z)
    (iov_uaddr : Z) (iov_cnt : Z) : Z * list Z :=
  if (iov_cnt =? 0) || (len =? 0) then (0, default [] buf)
  else
    match buf with
    | Some buf => user_to_membuf_loop um iov_uaddr 0 (Z.to_nat iov_cnt) buf 0 len 0
    | None => (ERR_INVALID_ARGS, [])
    end.

(** ** Shared lemmas *)

Lemma splice_length buf pos bs :
  (pos + length bs <= length buf)%nat -> length (splice buf pos bs) = length buf.
Proof. intros H. unfold splice. rewrite !length_app, length_take, length_drop. lia. Qed.

Lemma splice_nil buf pos : splice buf pos [] = buf.
Proof. unfold splice. cbn. rewrite Nat.add_0_r. apply take_drop. Qed.

Lemma splice_app p m r bs n :
  n = length p -> length m = length bs -> splice (p ++ m ++ r) n bs = p ++ bs ++ r.
Proof.
  intros -> H. unfold splice. rewrite take_app_length, drop_app_add.
  by rewrite drop_app_length'.
Qed.

Lemma splice_splice buf pos b1 b2 :
  (pos + length b1 + length b2 <= length buf)%nat ->
  splice (splice buf pos b1) (pos + length b1) b2 = splice buf pos (b1 ++ b2).
Proof.
  intros H.
  rewrite <- (take_drop pos buf). set (p := take pos buf).
  assert (length p = pos) as Hp by (subst p; rewrite length_take; lia).
  assert (length (drop pos buf) = (length buf - pos)%nat) as Hd by apply length_drop.
  revert Hd. generalize (drop pos buf) as d. intros d Hd.
  rewrite <- (take_drop (length b1) d).
  rewrite <- (take_drop (length b2) (drop (length b1) d)).
  rewrite splice_app by (rewrite ?length_take; lia).
  rewrite (app_assoc p b1), splice_app by (rewrite ?length_app, ?length_take, ?length_drop; lia).
  rewrite (app_assoc (take _ d)), splice_app
    by (rewrite ?length_app, ?length_take, ?length_drop; lia).
  by rewrite <- !app_assoc.
Qed.

Lemma splice_drop buf pos bs n :
  (pos + length bs <= n)%nat -> (pos <= length buf)%nat ->
  drop n (splice buf pos bs) = drop n buf.
Proof.
  intros H Hp. unfold splice.
  rewrite drop_app_ge, drop_app_ge, drop_drop, !length_take by (rewrite length_take; lia).
  f_equal. lia.
Qed.

Lemma clamp_min len l : clamp len l = Z.min len l.
Proof. unfold clamp. destruct (Z.gtb_spec len l); lia. Qed.

Lemma decode_iovec_user_len bs : 0 <= iov_len (decode_iovec_user bs).
Proof. unfold decode_iovec_user, field32, u32. cbn [iov_len]. by apply Z.mod_pos_bound. Qed.

(** ** Gathering a message *)

(** Buffer [v] of kernel memory holds [bs]. *)
Definition readable (km : mem) (v : iovec_kern) (bs : list Z) : Prop :=
  0 <= iov_len v /\ (iov_len v <> 0 -> iov_base v <> 0) /\
  mem_read km (iov_base v) (Z.to_nat (iov_len v)) = Some bs.

Lemma take_min_app {A} (len : nat) (b1 b2 : list A) :
  take len (b1 ++ b2) = take (min len (length b1)) b1 ++ take (len - length b1) b2.
Proof. rewrite take_app. f_equal. rewrite <- take_take. by rewrite (take_ge b1 (length b1)). Qed.

Lemma kern_to_membuf_loop_spec km iov bss cnt buf pos len copied :
  Forall2 (readable km) (take cnt iov) bss -> (cnt <= length iov)%nat ->
  0 <= len -> (pos + Z.to_nat len <= length buf)%nat ->
  let bs := take (Z.to_nat len) (concat bss) in
  kern_to_membuf_loop km iov cnt buf pos len copied
  = Some (copied + Z.of_nat (length bs), splice buf pos bs).
Proof.
  revert iov bss buf pos len copied.
  induction cnt as [|cnt IH]; intros iov bss buf pos len copied Hr Hc Hl Hb; cbn.
  - inv Hr. cbn. by rewrite take_nil, splice_nil, Z.add_0_r.
  - destruct iov as [|v iov]; [cbn in Hc; lia|]. cbn in Hr, Hc |- *.
    inv Hr as [|? b0 ? bss' [H0 [Hnn Hrd]] Hrest]. rewrite clamp_min.
    pose proof (mem_read_length _ _ _ _ Hrd) as Hlen. cbn [concat].
    rewrite take_min_app.
    destruct (Z.eqb_spec (Z.min len (iov_len v)) 0) as [Hz|Hz].
    + rewrite (IH _ bss') by (auto; lia).
      replace (min (Z.to_nat len) (length b0)) with 0%nat by lia. cbn.
      destruct (Z.to_nat len) eqn:El; [by rewrite !take_0|]. by replace (length b0) with 0%nat by lia.
    + destruct (Z.eqb_spec (iov_base v) 0) as [Hb0|Hb0]; [lia|].
      rewrite (mem_read_take _ _ _ (Z.to_nat (Z.min len (iov_len v))) _ Hrd) by lia. cbn.
      replace (min (Z.to_nat len) (length b0)) with (Z.to_nat (Z.min len (iov_len v))) by lia.
      set (b1 := take (Z.to_nat (Z.min len (iov_len v))) b0).
      assert (Z.of_nat (length b1) = Z.min len (iov_len v)) as Hb1
        by (subst b1; rewrite length_take; lia).
      destruct (Z.eqb_spec (len - Z.min len (iov_len v)) 0) as [He|He].
      * replace (Z.to_nat len - length b0)%nat with 0%nat by lia.
        rewrite take_0, app_nil_r. do 2 f_equal. lia.
      * replace (Z.to_nat len - length b0)%nat with (Z.to_nat (len - Z.min len (iov_len v))) by lia.
        rewrite (IH _ bss') by (try rewrite splice_length; auto; lia).
        replace (pos + Z.to_nat (Z.min len (iov_len v)))%nat with (pos + length b1)%nat by lia.
        rewrite splice_splice by (rewrite length_take; lia).
        rewrite length_app. do 2 f_equal. lia.
Qed.

(** Entry [i] of the user vector at [uaddr] is [v] and its buffer holds [bs]. *)
Definition uentry (um : mem) (uaddr i : Z) (v : iovec_kern) : Prop :=
  exists raw, mem_read um (u32 (uaddr + i * 8)) sizeof_iovec_user = Some raw /\ decode_iovec_user raw = v.

Fixpoint uvector (um : mem) (uaddr i : Z) (vs : list iovec_kern) : Prop :=
  match vs with
  | [] => True
  | v :: vs' => uentry um uaddr i v /\ uvector um uaddr (i + 1) vs'
  end.

Definition ureadable (um : mem) (v : iovec_kern) (bs : list Z) : Prop :=
  0 <= iov_len v /\ mem_read um (iov_base v) (Z.to_nat (iov_len v)) = Some bs.

Lemma user_to_membuf_loop_spec um uaddr i vs bss buf pos len copied :
  uvector um uaddr i vs -> Forall2 (ureadable um) vs bss ->
  0 <= len -> (pos + Z.to_nat len <= length buf)%nat ->
  let bs := take (Z.to_nat len) (concat bss) in
  user_to_membuf_loop um uaddr i (length vs) buf pos len copied
  = (copied + Z.of_nat (length bs), splice buf pos bs).
Proof.
  intros Hv Hr. revert i buf pos len copied Hv.
  induction Hr as [|v b0 vs bss [H0 Hrd] Hrest IH]; intros i buf pos len copied Hv Hl Hb; cbn.
  - by rewrite take_nil, splice_nil, Z.add_0_r.
  - destruct Hv as [[raw [Hraw Hdec]] Hv].
    apply copy_from_user_ok in Hraw as ->. cbn. rewrite Hdec, clamp_min.
    pose proof (mem_read_length _ _ _ _ Hrd) as Hlen. rewrite take_min_app.
    set (n := Z.to_nat (Z.min len (iov_len v))).
    pose proof (mem_read_take _ _ _ n _ Hrd ltac:(lia)) as Hrd'.
    apply copy_from_user_ok in Hrd' as ->. cbn.
    replace (min (Z.to_nat len) (length b0)) with n by lia.
    assert (length (take n b0) = n) as Hn by (rewrite length_take; lia).
    destruct (Z.eqb_spec (len - Z.min len (iov_len v)) 0) as [He|He].
    + replace (Z.to_nat len - length b0)%nat with 0%nat by lia.
      rewrite take_0, app_nil_r. f_equal. lia.
    + replace (Z.to_nat len - length b0)%nat with (Z.to_nat (len - Z.min len (iov_len v))) by lia.
      rewrite IH by (try rewrite splice_length; auto; lia).
      rewrite length_app. f_equal; [lia|].
      rewrite <- Hn at 2. rewrite splice_splice; [done|]. rewrite (length_take (concat bss)). lia.
Qed.

(** What a gather may touch, whatever the user vector says. *)
Lemma user_to_membuf_loop_bounds um uaddr i cnt buf pos len copied r buf' :
  0 <= len -> 0 <= copied -> (pos + Z.to_nat len <= length buf)%nat ->
  user_to_membuf_loop um uaddr i cnt buf pos len copied = (r, buf') ->
  length buf' = length buf /\
  drop (pos + Z.to_nat len) buf' = drop (pos + Z.to_nat len) buf /\
  (r = ERR_FAULT \/ copied <= r <= copied + len).
Proof.
  revert i buf pos len copied.
  induction cnt as [|cnt IH]; intros i buf pos len copied Hl Hc Hb; cbn; intros E.
  - simplify_eq. repeat split; auto. lia.
  - destruct (copy_from_user um (u32 (uaddr + i * 8)) sizeof_iovec_user) as [st raw] eqn:Eraw.
    destruct (copy_from_user_status _ _ _ _ _ Eraw) as [->| ->]; cbn in E; [|simplify_eq; auto].
    apply copy_from_user_ok in Eraw.
    pose proof (decode_iovec_user_len raw) as Hlen.
    rewrite clamp_min in E. set (t := Z.min len (iov_len (decode_iovec_user raw))) in *.
    pose proof (copy_from_user_length um (iov_base (decode_iovec_user raw)) (Z.to_nat t)) as Hbl.
    destruct (copy_from_user um (iov_base (decode_iovec_user raw)) (Z.to_nat t)) as [st bs] eqn:Ebs.
    cbn in Hbl. assert (t <= len /\ 0 <= t) as Ht by lia.
    destruct (copy_from_user_status _ _ _ _ _ Ebs) as [->| ->]; cbn in E.
    + destruct (Z.eqb_spec (len - t) 0) as [He|He].
      * simplify_eq. rewrite splice_length, splice_drop by lia. repeat split; auto. lia.
      * apply IH in E as (H1 & H2 & H3); [|try rewrite splice_length; lia..].
        rewrite splice_length in H1 by lia.
        replace (pos + Z.to_nat t + Z.to_nat (len - t))%nat with (pos + Z.to_nat len)%nat in H2 by lia.
        rewrite splice_drop in H2 by lia. repeat split; auto. lia.
    + simplify_eq. rewrite splice_length, splice_drop by lia. auto.
Qed.

Lemma kern_to_membuf_loop_bounds km iov cnt buf pos len copied r buf' :
  Forall (fun v => 0 <= iov_len v) iov ->
  0 <= len -> 0 <= copied -> (pos + Z.to_nat len <= length buf)%nat ->
  kern_to_membuf_loop km iov cnt buf pos len copied = Some (r, buf') ->
  length buf' = length buf /\
  drop (pos + Z.to_nat len) buf' = drop (pos + Z.to_nat len) buf /\
  (r = ERR_INVALID_ARGS \/ copied <= r <= copied + len).
Proof.
  intros Hv. revert iov Hv buf pos len copied.
  induction cnt as [|cnt IH]; intros iov Hv buf pos len copied Hl Hc Hb; cbn; intros E.
  - simplify_eq. repeat split; auto. lia.
  - destruct iov as [|v iov]; [done|]. cbn in E. inv Hv. rewrite clamp_min in E.
    set (t := Z.min len (iov_len v)) in *. assert (0 <= t <= len) as Ht by lia.
    destruct (Z.eqb_spec t 0) as [Hz|Hz]; [by eapply IH in E|].
    destruct (Z.eqb_spec (iov_base v) 0) as [Hb0|Hb0]; [simplify_eq; auto|].
    destruct (mem_read km (iov_base v) (Z.to_nat t)) as [bs|] eqn:Er; [|done]. cbn in E.
    pose proof (mem_read_length _ _ _ _ Er) as Hbl.
    destruct (Z.eqb_spec (len - t) 0) as [He|He].
    + simplify_eq. rewrite splice_length, splice_drop by lia. repeat split; auto. lia.
    + apply IH in E as (H1' & H2' & H3'); [|done|try rewrite splice_length; lia..].
      rewrite splice_length in H1' by lia.
      replace (pos + Z.to_nat t + Z.to_nat (len - t))%nat with (pos + Z.to_nat len)%nat in H2' by lia.
      rewrite splice_drop in H2' by lia. repeat split; auto. lia.
Qed.

(** ** Scattering a message *)

(** The message cut at the lengths of the buffers. *)
Fixpoint chunks (vs : list iovec_kern) (bs : list Z) : list (list Z) :=
  match vs with
  | [] => []
  | v :: vs' => take (Z.to_nat (iov_len v)) bs :: chunks vs' (drop (Z.to_nat (iov_len v)) bs)
  end.

Definition in_buf (v : iovec_kern) (x : Z) : Prop := iov_base v <= x < iov_base v + iov_len v.

Definition disjoint_buf (v w : iovec_kern) : Prop :=
  iov_base v + iov_len v <= iov_base w \/ iov_base w + iov_len w <= iov_base v.

(** A user buffer that lies inside the address space and is mapped. *)
Definition uwritable (um : mem) (v : iovec_kern) : Prop :=
  0 <= iov_base v /\ 0 <= iov_len v /\ iov_base v + iov_len v <= 2 ^ 32 /\
  is_Some (mem_read um (iov_base v) (Z.to_nat (iov_len v))).

(** Buffer [v] does not overlap the entries of the vector from [i] on. *)
Fixpoint off_table (uaddr i : Z) (n : nat) (v : iovec_kern) : Prop :=
  match n with
  | O => True
  | S n' => 0 <= uaddr + i * 8 /\ uaddr + i * 8 + 8 <= 2 ^ 32 /\
            disjoint_buf v (Iov (uaddr + i * 8) 8) /\ off_table uaddr (i + 1) n' v
  end.

(** A vector of user buffers that neither overlap each other nor the vector. *)
Fixpoint scatter_ok (um : mem) (uaddr i : Z) (vs : list iovec_kern) : Prop :=
  match vs with
  | [] => True
  | v :: vs' =>
      uentry um uaddr i v /\ uwritable um v /\ Forall (disjoint_buf v) vs' /\
      off_table uaddr (i + 1) (length vs') v /\ scatter_ok um uaddr (i + 1) vs'
  end.

Lemma uwritable_frame um um' v w :
  uwritable um w -> disjoint_buf v w -> (forall x, ~ in_buf v x -> um' !! x = um !! x) ->
  uwritable um' w.
Proof.
  intros (H1 & H2 & H3 & H4) Hd Hf. split_and!; auto.
  rewrite (mem_read_frame um) by (intros; try apply Hf; unfold in_buf, disjoint_buf in *; lia). done.
Qed.

Lemma scatter_ok_frame um um' uaddr i v vs :
  scatter_ok um uaddr i vs -> off_table uaddr i (length vs) v -> Forall (disjoint_buf v) vs ->
  (forall x, ~ in_buf v x -> um' !! x = um !! x) ->
  scatter_ok um' uaddr i vs.
Proof.
  intros Hs Ho Hd Hf. revert i Hs Ho. induction Hd as [|w vs Hw Hd IH]; intros i Hs Ho; [done|].
  destruct Hs as ((raw & Hraw & Hdec) & Hwr & Hdis & Hoff & Hs). cbn [length off_table] in Ho.
  destruct Ho as (Ha & Hb & Hc & Ho). cbn.
  split_and!; eauto using uwritable_frame.
  exists raw. split; [|done]. rewrite <- Hraw.
  unfold u32, sizeof_iovec_user. rewrite Z.mod_small by lia. apply mem_read_frame; [lia..|].
  intros x Hx. apply Hf. unfold in_buf, disjoint_buf in *; cbn in *. lia.
Qed.

Lemma off_table_clamp uaddr i n v v' :
  iov_base v' = iov_base v -> iov_len v' <= iov_len v -> off_table uaddr i n v -> off_table uaddr i n v'.
Proof.
  intros Hb Hl. revert i. induction n as [|n IH]; intros i; cbn; [done|].
  intros (H1 & H2 & H3 & H4). split_and!; auto. unfold disjoint_buf in *. lia.
Qed.

Lemma membuf_to_user_loop_spec um uaddr i vs buf len copied :
  scatter_ok um uaddr i vs -> 0 <= len -> (Z.to_nat len <= length buf)%nat ->
  let bs := chunks vs (take (Z.to_nat len) buf) in
  exists um', membuf_to_user_loop um uaddr i (length vs) buf len copied
    = (copied + Z.of_nat (length (concat bs)), um') /\
    Forall2 (fun v b => mem_read um' (iov_base v) (length b) = Some b) vs bs /\
    (forall x, (forall v, v ∈ vs -> ~ in_buf v x) -> um' !! x = um !! x).
Proof.
  revert um i buf len copied.
  induction vs as [|v vs IH]; intros um i buf len copied Hs Hl Hb; cbn.
  - exists um. rewrite Z.add_0_r. auto.
  - destruct Hs as ((raw & Hraw & Hdec) & (Hv1 & Hv2 & Hv3 & [old Hold]) & Hdis & Hoff & Hs).
    pose proof (proj2 (copy_from_user_ok _ _ _ _) Hraw) as ->. cbn. rewrite Hdec, clamp_min.
    set (t := Z.min len (iov_len v)).
    set (b := take (Z.to_nat t) buf).
    assert (length b = Z.to_nat t) as Hbl by (subst b; rewrite length_take; lia).
    assert (take (Z.to_nat (iov_len v)) (take (Z.to_nat len) buf) = b) as Hb1
      by (subst b; rewrite take_take; f_equal; lia).
    assert (mem_read um (iov_base v) (length b) = Some (take (length b) old)) as Hmap
      by (eapply mem_read_take; [exact Hold|lia]).
    apply mem_write_mapped in Hmap as Hok.
    unfold copy_to_user. destruct (mem_write um (iov_base v) b) as [ok um1] eqn:Ew. cbn in Hok. subst ok.
    cbn. rewrite Hb1.
    pose proof (mem_write_read _ _ _ _ Ew ltac:(lia) ltac:(lia)) as Hrd.
    assert (forall x, ~ in_buf v x -> um1 !! x = um !! x) as Hf.
    { intros x Hx. eapply mem_write_frame; [exact Ew|lia..|]. unfold in_buf in Hx. lia. }
    destruct (Z.eqb_spec (len - t) 0) as [He|He].
    + exists um1.
      assert (drop (Z.to_nat (iov_len v)) (take (Z.to_nat len) buf) = []) as ->
        by (apply drop_ge; rewrite length_take; lia).
      assert (forall ws, Forall2 (fun v b => mem_read um1 (iov_base v) (length b) = Some b) ws (chunks ws [])
        /\ concat (chunks ws []) = []) as Hnil.
      { induction ws as [|w ws [IHa IHb]]; cbn; [by split|]. rewrite take_nil, drop_nil. by split; [constructor|]. }
      rewrite length_app, (proj2 (Hnil vs)). cbn.
      split; [f_equal; lia|]. split; [constructor; [done|apply Hnil]|].
      intros x Hx. apply Hf, Hx. left.
    + destruct (IH um1 (i + 1) (drop (Z.to_nat t) buf) (len - t) (copied + t)) as (um2 & E2 & H2 & H3).
      * eapply scatter_ok_frame; eauto.
      * lia.
      * rewrite length_drop. lia.
      * replace (Z.to_nat (len - t)) with (Z.to_nat len - Z.to_nat t)%nat in * by lia.
        rewrite E2. exists um2.
        replace (take (Z.to_nat len - Z.to_nat t) (drop (Z.to_nat t) buf))
          with (drop (Z.to_nat (iov_len v)) (take (Z.to_nat len) buf)) in *.
        2: { rewrite take_drop_commute. f_equal; [lia|]. f_equal. lia. }
        split; [f_equal; rewrite length_app; lia|]. split.
        -- constructor; [|done]. rewrite <- Hrd. apply mem_read_frame; [lia..|].
           intros x Hx. apply H3. intros w Hw Hin.
           pose proof (proj1 (Forall_forall _ _) Hdis w Hw) as Hd. unfold disjoint_buf, in_buf in *. lia.
        -- intros x Hx. rewrite H3; [apply Hf, Hx; left|]. intros w Hw. apply Hx. by right.
Qed.

(** ** Properties *)

(** C35: [user_iovec_to_membuf] gathers: when the vector and its buffers can be
    read, it returns the number of bytes copied and leaves in the kernel buffer
    the first [len] bytes of the concatenation of the user buffers; nothing of
    the kernel buffer behind them changes. *)
Theorem user_iovec_to_membuf_gathers um buf len uaddr vs bss :
  uvector um uaddr 0 vs -> Forall2 (ureadable um) vs bss ->
  0 <= len <= Z.of_nat (length buf) ->
  let bs := take (Z.to_nat len) (concat bss) in
  user_iovec_to_membuf um (Some buf) len uaddr (Z.of_nat (length vs))
  = (Z.of_nat (length bs), splice buf 0 bs).
Proof.
  intros Hv Hr Hl bs. unfold user_iovec_to_membuf. destruct (Z.eqb_spec (Z.of_nat (length vs)) 0) as [H0|H0].
  - destruct vs; [|done]. inv Hr. cbn in bs. subst bs. by rewrite take_nil, splice_nil.
  - destruct (Z.eqb_spec len 0) as [->|Hn]; cbn.
    + by rewrite splice_nil.
    + rewrite Nat2Z.id, (user_to_membuf_loop_spec _ _ _ _ bss) by (auto; lia). done.
Qed.

Definition demo_um : mem :=
  mem_of [(100, le_bytes 4 200 ++ le_bytes 4 3 ++ le_bytes 4 300 ++ le_bytes 4 2);
          (200, [11; 12; 13]); (300, [21; 22])].

Lemma user_iovec_to_membuf_gathers_witness :
  user_iovec_to_membuf demo_um (Some [0; 0; 0; 0; 9; 9]) 4 100 2 = (4, [11; 12; 13; 21; 9; 9]).
Proof.
  apply (user_iovec_to_membuf_gathers demo_um [0; 0; 0; 0; 9; 9] 4 100 [Iov 200 3; Iov 300 2]
           [[11; 12; 13]; [21; 22]]).
  - split; [|split; [|done]]; (eexists; split; [vm_compute; reflexivity|vm_compute; reflexivity]).
  - repeat (constructor; [split; [cbn; lia|vm_compute; reflexivity]|]). constructor.
  - cbn; lia.
Defined.

(** C36: Whatever a user program passes as the vector, [user_iovec_to_membuf]
    writes only the first [len] bytes of the kernel buffer, and returns either
    [ERR_FAULT] or a count between [0] and [len]. *)
Theorem user_iovec_to_membuf_bounded um buf len uaddr cnt r buf' :
  0 <= len <= Z.of_nat (length buf) ->
  user_iovec_to_membuf um (Some buf) len uaddr cnt = (r, buf') ->
  length buf' = length buf /\ drop (Z.to_nat len) buf' = drop (Z.to_nat len) buf /\
  (r = ERR_FAULT \/ 0 <= r <= len).
Proof.
  intros Hl. unfold user_iovec_to_membuf. destruct (_ || _); intros E.
  - simplify_eq. repeat split. lia.
  - apply user_to_membuf_loop_bounds in E; auto; lia.
Qed.

Lemma user_iovec_to_membuf_bounded_witness :
  length ([11; 12; 7] : list Z) = length ([0; 0; 7] : list Z) /\
  drop (Z.to_nat 2) ([11; 12; 7] : list Z) = drop (Z.to_nat 2) ([0; 0; 7] : list Z) /\
  (2 = ERR_FAULT \/ 0 <= 2 <= 2).
Proof.
  apply (user_iovec_to_membuf_bounded demo_um [0; 0; 7] 2 100 2 2 [11; 12; 7]).
  - cbn; lia.
  - vm_compute. reflexivity.
Defined.

(** [membuf_to_user_iovec] scatters: over mapped user buffers that overlap
    neither each other nor the vector, it returns the number of bytes copied,
    buffer [k] ends up holding the [k]-th chunk of the message, and user memory
    outside the buffers is unchanged. *)
Theorem membuf_to_user_iovec_scatters um uaddr vs buf len :
  scatter_ok um uaddr 0 vs -> 0 <= len <= Z.of_nat (length buf) ->
  let bs := chunks vs (take (Z.to_nat len) buf) in
  exists um', membuf_to_user_iovec um uaddr (Z.of_nat (length vs)) (Some buf) len
    = (Z.of_nat (length (concat bs)), um') /\
    Forall2 (fun v b => mem_read um' (iov_base v) (length b) = Some b) vs bs /\
    (forall x, (forall v, v ∈ vs -> ~ in_buf v x) -> um' !! x = um !! x).
Proof.
  intros Hs Hl bs. unfold membuf_to_user_iovec. destruct (Z.eqb_spec (Z.of_nat (length vs)) 0) as [H0|H0].
  - destruct vs; [|done]. exists um. cbn. auto.
  - destruct (Z.eqb_spec len 0) as [->|Hn]; cbn [orb].
    + exists um. subst bs. rewrite Z2Nat.inj_0, take_0. split; [|split; [|done]].
      * f_equal. clear. by induction vs as [|v vs IH]; cbn; rewrite ?take_nil, ?drop_nil.
      * clear. induction vs as [|v vs IH]; cbn; rewrite ?take_nil, ?drop_nil; constructor; auto.
    + rewrite Nat2Z.id. apply membuf_to_user_loop_spec; auto; lia.
Qed.

Lemma membuf_to_user_iovec_scatters_witness :
  exists um', membuf_to_user_iovec demo_um 100 2 (Some [1; 2; 3; 4; 5; 6]) 4 = (4, um') /\
    Forall2 (fun v b => mem_read um' (iov_base v) (length b) = Some b)
      [Iov 200 3; Iov 300 2] [[1; 2; 3]; [4]] /\
    (forall x, (forall v, v ∈ [Iov 200 3; Iov 300 2] -> ~ in_buf v x) -> um' !! x = demo_um !! x).
Proof.
  apply (membuf_to_user_iovec_scatters demo_um 100 [Iov 200 3; Iov 300 2] [1; 2; 3; 4; 5; 6] 4).
  - cbn [scatter_ok length off_table].
    split_and!; try exact I;
      try (eexists; split; [vm_compute; reflexivity|vm_compute; reflexivity]);
      try (split_and!; cbn; try lia; vm_compute; eexists; reflexivity);
      repeat constructor; unfold disjoint_buf; cbn; lia.
  - cbn; lia.
Defined.
