(* ===== verification/MsgQueue.v ===== *)
(** * Message queues: lk/trusty/lib/trusty/ipc_msg.c, the queue itself

    A queue owns [num_items] message descriptors and one flat buffer, item [i]
    using the bytes from [i * item_sz] on.  A descriptor sits on one of three
    intrusive lists (free, filled, read); a list is the list of the indices of
    the descriptors linked on it, head first.  [list_delete] unlinks a node from
    whichever list it is on. *)

From stdpp Require Import base tactics list gmap.
From Stdlib Require Import ZArith Lia.
From S2P Require Import Prelude Iovec.

Inductive item_state := MSG_ITEM_STATE_FREE | MSG_ITEM_STATE_FILLED | MSG_ITEM_STATE_READ.

#[export] Instance item_state_eq_dec : EqDecision item_state.
Proof. solve_decision. Defined.

Record msg_item := MsgItem {
  mi_id : Z;
  mi_state : item_state;
  mi_num_handles : Z;
  mi_len : Z;
}.

Record msg_queue := MsgQueue {
  mq_free : list nat;
  mq_filled : list nat;
  mq_read : list nat;
  mq_num_items : Z;
  mq_item_sz : Z;
  mq_buf : list Z;
  mq_items : list msg_item;
}.

Definition mq_set_items (its : list msg_item) (q : msg_queue) : msg_queue :=
  MsgQueue (mq_free q) (mq_filled q) (mq_read q) (mq_num_items q) (mq_item_sz q) (mq_buf q) its.
Definition mq_set_buf (b : list Z) (q : msg_queue) : msg_queue :=
  MsgQueue (mq_free q) (mq_filled q) (mq_read q) (mq_num_items q) (mq_item_sz q) b (mq_items q).
Definition mq_set_lists (fr fi re : list nat) (q : msg_queue) : msg_queue :=
  MsgQueue fr fi re (mq_num_items q) (mq_item_sz q) (mq_buf q) (mq_items q).

Definition mq_alter_item (i : nat) (f : msg_item -> msg_item) (q : msg_queue) : msg_queue :=
  mq_set_items (alter f i (mq_items q)) q.

Definition mi_set_state (st : item_state) (it : msg_item) : msg_item :=
  MsgItem (mi_id it) st (mi_num_handles it) (mi_len it).
Definition mi_set_len (n : Z) (it : msg_item) : msg_item :=
  MsgItem (mi_id it) (mi_state it) (mi_num_handles it) n.
(** [item->num_handles = 0; item->len = 0;] *)
Definition mi_reset (it : msg_item) : msg_item :=
  MsgItem (mi_id it) (mi_state it) 0 0.

(** [list_delete(&item->node)] *)
Definition unlink (i : nat) (l : list nat) : list nat := filter (fun j => j <> i) l.
Definition mq_unlink (i : nat) (q : msg_queue) : msg_queue :=
  mq_set_lists (unlink i (mq_free q)) (unlink i (mq_filled q)) (unlink i (mq_read q)) q.

#[global] Arguments mq_unlink : simpl never.

(** The queue [ipc_msg_queue_create] builds once its two allocations succeeded.
    The descriptors are zeroed by [calloc]; [id] is a [uint8_t]. *)
Definition msg_queue_init (num_items item_sz : Z) (junk : Z) : msg_queue :=
  let n := Z.to_nat num_items in
  MsgQueue (seq 0 n) [] [] num_items item_sz
    (replicate (Z.to_nat (num_items * item_sz)) junk)
    ((fun i => MsgItem (u8 (Z.of_nat i)) MSG_ITEM_STATE_FREE 0 0) <$> seq 0 n).

Definition ipc_msg_queue_is_empty (q : msg_queue) : bool :=
  match mq_filled q with [] => true | _ => false end.

Definition ipc_msg_queue_is_full (q : msg_queue) : bool :=
  match mq_free q with [] => true | _ => false end.

(** [msg_queue_get_buf]: the item's area is the queue's buffer from here on. *)
Definition msg_queue_get_buf (q : msg_queue) (it : msg_item) : nat :=
  Z.to_nat (mi_id it * mq_item_sz q).

Definition msg_queue_get_item (q : msg_queue) (id : Z) : option (nat * msg_item) :=
  if id <? mq_num_items q then
    it ← mq_items q !! Z.to_nat id; Some (Z.to_nat id, it)
  else None.

(** [msg_peek_next_filled_locked]: the head of the filled list as [(len, id)]. *)
Definition msg_peek_next_filled (q : msg_queue) : option (Z * Z) :=
  i ← head (mq_filled q); it ← mq_items q !! i; Some (mi_len it, mi_id it).

(** [msg_get_filled_locked]; [None] is the failed [DEBUG_ASSERT(item)]. *)
Definition msg_get_filled (q : msg_queue) : option msg_queue :=
  i ← head (mq_filled q);
  let q1 := mq_unlink i q in
  let q2 := mq_set_lists (mq_free q1) (mq_filled q1) (mq_read q1 ++ [i]) q1 in
  Some (mq_alter_item i (mi_set_state MSG_ITEM_STATE_READ) q2).

(** Tail of [msg_write_locked], once the bytes are in the item's area. *)
Definition msg_commit (i : nat) (len : Z) (q : msg_queue) : msg_queue :=
  let q0 := mq_alter_item i (mi_set_len len) q in
  let q1 := mq_unlink i q0 in
  let q2 := mq_set_lists (mq_free q1) (mq_filled q1 ++ [i]) (mq_read q1) q1 in
  mq_alter_item i (mi_set_state MSG_ITEM_STATE_FILLED) q2.

(** The queue part of [msg_put_read_locked]. *)
Definition msg_put_read (q : msg_queue) (msg_id : Z) : option msg_queue :=
  '(i, it) ← msg_queue_get_item q msg_id;
  if decide (mi_state it = MSG_ITEM_STATE_READ) then
    let q1 := mq_unlink i q in
    let q2 := mq_set_lists (i :: mq_free q1) (mq_filled q1) (mq_read q1) q1 in
    Some (mq_alter_item i (mi_set_state MSG_ITEM_STATE_FREE) q2)
  else None.

(** ** Message descriptors *)

Inductive msg_desc :=
| MsgKern (iov : option (list iovec_kern)) (num_iov num_handles : Z)
| MsgUser (iov num_iov num_handles : Z).

(** Where a message's bytes live: kernel memory and the caller's. *)
Record mems := Mems { m_kern : mem; m_user : mem }.

(** The two branches of [msg_write_locked] that fill the item's area [buf];
    [inl] is an error returned before anything is copied. *)
Definition msg_gather (ms : mems) (msg : msg_desc) (buf : list Z) (len : Z) :
    option (Z + Z * list Z) :=
  match msg with
  | MsgKern iov num_iov num_handles =>
      if negb (num_handles =? 0) then Some (inl ERR_NOT_SUPPORTED)
      else inr <$> kern_iovec_to_membuf (m_kern ms) (Some buf) len iov num_iov
  | MsgUser iov num_iov num_handles =>
      if negb (num_handles =? 0) then Some (inl ERR_NOT_SUPPORTED)
      else Some (inr (user_iovec_to_membuf (m_user ms) (Some buf) len iov num_iov))
  end.

(** The two branches of [msg_read_locked] that copy a message out. *)
Definition msg_scatter (ms : mems) (msg : msg_desc) (buf : list Z) (len : Z) :
    option (Z * mems) :=
  match msg with
  | MsgKern iov num_iov num_handles =>
      if negb (num_handles =? 0) then Some (ERR_NOT_SUPPORTED, ms)
      else '(r, km) ← membuf_to_kern_iovec (m_kern ms) iov num_iov (Some buf) len;
           Some (r, Mems km (m_user ms))
  | MsgUser iov num_iov num_handles =>
      if negb (num_handles =? 0) then Some (ERR_NOT_SUPPORTED, ms)
      else let '(r, um) := membuf_to_user_iovec (m_user ms) iov num_iov (Some buf) len in
           Some (r, Mems (m_kern ms) um)
  end.

(** [msg_write_locked] on the peer's queue [q]: the result and the queue after;
    [ERR_NOT_ENOUGH_BUFFER] stands for the full queue, where the caller records
    that it is send-blocked. *)
Inductive write_res :=
| WriteFault
| WriteFull
| WriteDone (ret : Z) (q : msg_queue).

Definition msg_write (ms : mems) (q : msg_queue) (msg : msg_desc) : write_res :=
  match mq_free q with
  | [] => WriteFull
  | i :: _ =>
      match mq_items q !! i with
      | None => WriteFault
      | Some it =>
          if decide (mi_state it = MSG_ITEM_STATE_FREE) then
            let q1 := mq_alter_item i mi_reset q in
            let off := msg_queue_get_buf q it in
            match msg_gather ms msg (drop off (mq_buf q)) (mq_item_sz q) with
            | None => WriteFault
            | Some (inl e) => WriteDone e q1
            | Some (inr (ret, area)) =>
                let q2 := mq_set_buf (take off (mq_buf q) ++ area) q1 in
                if ret <? 0 then WriteDone ret q2
                else WriteDone ret (msg_commit i ret q2)
            end
          else WriteFault
      end
  end.

(** [msg_read_locked]; [None] is a fault while copying. *)
Definition msg_read (ms : mems) (q : msg_queue) (msg_id offset : Z) (msg : msg_desc) :
    option (Z * mems) :=
  match msg_queue_get_item q msg_id with
  | None => Some (ERR_INVALID_ARGS, ms)
  | Some (i, it) =>
      if negb (bool_decide (mi_state it = MSG_ITEM_STATE_READ)) then Some (ERR_INVALID_ARGS, ms)
      else if negb (mi_num_handles it =? 0) then Some (ERR_NOT_SUPPORTED, ms)
      else if offset >? mi_len it then Some (ERR_INVALID_ARGS, ms)
      else
        let buf := drop (msg_queue_get_buf q it + Z.to_nat offset) (mq_buf q) in
        msg_scatter ms msg buf (mi_len it - offset)
  end.

(** ** Well-formed queues *)

Definition item_bytes (q : msg_queue) (it : msg_item) : list Z :=
  take (Z.to_nat (mi_len it)) (drop (msg_queue_get_buf q it) (mq_buf q)).

(** The lists partition the items, each item's state names its list, the ids
    are the indices, and the buffer holds one area per item. *)
Record mq_wf (q : msg_queue) : Prop := {
  wf_num : mq_num_items q = Z.of_nat (length (mq_items q));
  wf_sz : 0 <= mq_item_sz q;
  wf_buf : Z.of_nat (length (mq_buf q)) = mq_num_items q * mq_item_sz q;
  wf_nodup : NoDup (mq_free q ++ mq_filled q ++ mq_read q);
  wf_dom : forall i, i ∈ mq_free q ++ mq_filled q ++ mq_read q <-> (i < length (mq_items q))%nat;
  wf_item : forall i it, mq_items q !! i = Some it ->
    mi_id it = Z.of_nat i /\
    (i ∈ mq_free q <-> mi_state it = MSG_ITEM_STATE_FREE) /\
    (i ∈ mq_filled q <-> mi_state it = MSG_ITEM_STATE_FILLED) /\
    (i ∈ mq_read q <-> mi_state it = MSG_ITEM_STATE_READ) /\
    (mi_state it <> MSG_ITEM_STATE_FREE -> mi_num_handles it = 0 /\ 0 <= mi_len it <= mq_item_sz q);
}.

(** ** What a queue promises

    The abstract queue: a bounded FIFO of messages not fetched yet and the
    messages fetched and not retired. *)
Record aqueue := AQueue {
  aq_cap : nat;
  aq_filled : list (nat * list Z);
  aq_read : list (nat * list Z);
}.

Definition mq_msg (q : msg_queue) (i : nat) : nat * list Z :=
  (i, match mq_items q !! i with Some it => item_bytes q it | None => [] end).

Definition mq_abs (q : msg_queue) : aqueue :=
  AQueue (length (mq_items q)) (mq_msg q <$> mq_filled q) (mq_msg q <$> mq_read q).

Definition aq_full (a : aqueue) : Prop := (length (aq_filled a) + length (aq_read a) = aq_cap a)%nat.

Definition aq_put (i : nat) (a : aqueue) : aqueue :=
  AQueue (aq_cap a) (aq_filled a) (filter (fun m => m.1 <> i) (aq_read a)).

(** *** Lists of indices *)

Lemma unlink_notin i l : i ∉ l -> unlink i l = l.
Proof.
  intros H. unfold unlink. induction l as [|j l IH]; [done|].
  rewrite not_elem_of_cons in H. destruct H. rewrite filter_cons_True by done. f_equal; auto.
Qed.

Lemma unlink_cons i l : i ∉ l -> unlink i (i :: l) = l.
Proof. intros H. unfold unlink. rewrite filter_cons_False by (intros ?; congruence). by apply unlink_notin. Qed.

Lemma elem_of_unlink i j l : j ∈ unlink i l <-> j <> i /\ j ∈ l.
Proof. unfold unlink. by rewrite list_elem_of_filter. Qed.

Lemma unlink_middle i l1 l2 : i ∉ l1 -> i ∉ l2 -> unlink i (l1 ++ i :: l2) = l1 ++ l2.
Proof. intros. unfold unlink. rewrite filter_app. fold (unlink i l1) (unlink i (i :: l2)). by rewrite unlink_notin, unlink_cons. Qed.

(** *** Areas of different items do not overlap *)

Lemma area_frame (buf area : list Z) (i j sz : nat) len :
  i <> j -> (len <= sz)%nat -> (S j * sz <= length buf)%nat -> (i * sz <= length buf)%nat ->
  length area = length (drop (i * sz) buf) -> drop sz area = drop sz (drop (i * sz) buf) ->
  take len (drop (j * sz) (take (i * sz) buf ++ area)) = take len (drop (j * sz) buf).
Proof.
  intros Hij Hlen Hj Hi Hla Hd. destruct (decide (j < i)%nat) as [Hlt|Hge].
  - rewrite drop_app_le by (rewrite length_take; nia).
    rewrite take_app_le by (rewrite length_drop, length_take; nia).
    rewrite <- (take_drop (i * sz) buf) at 2.
    rewrite drop_app_le by (rewrite length_take; nia).
    by rewrite take_app_le by (rewrite length_drop, length_take; nia).
  - rewrite drop_app_ge by (rewrite length_take; nia). rewrite length_take_le by nia.
    replace (j * sz - i * sz)%nat with (sz + (j - i - 1) * sz)%nat by nia.
    rewrite <- drop_drop, Hd, !drop_drop. do 2 f_equal. nia.
Qed.

(** *** Moving one item between lists *)

Definition mq_lists (q : msg_queue) : list nat := mq_free q ++ mq_filled q ++ mq_read q.

(** [q'] is [q] with item [i] replaced by [it'] and moved to the list that the
    state of [it'] names. *)
Record mq_moved (q q' : msg_queue) (i : nat) (it' : msg_item) : Prop := {
  mv_item : mq_items q' !! i = Some it';
  mv_other : forall j, j <> i -> mq_items q' !! j = mq_items q !! j;
  mv_len : length (mq_items q') = length (mq_items q);
  mv_num : mq_num_items q' = mq_num_items q;
  mv_sz : mq_item_sz q' = mq_item_sz q;
  mv_buf : length (mq_buf q') = length (mq_buf q);
  mv_perm : mq_lists q' ≡ₚ mq_lists q;
  mv_free : forall j, j <> i -> (j ∈ mq_free q' <-> j ∈ mq_free q);
  mv_filled : forall j, j <> i -> (j ∈ mq_filled q' <-> j ∈ mq_filled q);
  mv_read : forall j, j <> i -> (j ∈ mq_read q' <-> j ∈ mq_read q);
  mv_here : match mi_state it' with
            | MSG_ITEM_STATE_FREE => i ∈ mq_free q'
            | MSG_ITEM_STATE_FILLED => i ∈ mq_filled q'
            | MSG_ITEM_STATE_READ => i ∈ mq_read q'
            end;
}.

Lemma mq_lists_excl q i :
  NoDup (mq_lists q) ->
  (i ∈ mq_free q -> i ∉ mq_filled q /\ i ∉ mq_read q) /\
  (i ∈ mq_filled q -> i ∉ mq_free q /\ i ∉ mq_read q) /\
  (i ∈ mq_read q -> i ∉ mq_free q /\ i ∉ mq_filled q).
Proof.
  unfold mq_lists. rewrite !NoDup_app. setoid_rewrite elem_of_app.
  intros (_ & H1 & _ & H2 & _).
  split_and!; intros Hi; split; intros Hj; first [by eapply H1; eauto | by eapply H2; eauto].
Qed.

Lemma mq_wf_moved q q' i it it' :
  mq_wf q -> mq_moved q q' i it' -> mq_items q !! i = Some it -> mi_id it' = mi_id it ->
  (mi_state it' <> MSG_ITEM_STATE_FREE -> mi_num_handles it' = 0 /\ 0 <= mi_len it' <= mq_item_sz q) ->
  mq_wf q'.
Proof.
  intros Hwf Hm Hit Hid Hc. destruct Hwf as [Hn Hs Hb Hnd Hd Hi]. destruct Hm as [M1 M2 M3 M4 M5 M6 M7 M8 M9 M10 M11].
  fold (mq_lists q) in Hnd. assert (NoDup (mq_lists q')) as Hnd' by (by rewrite M7).
  split; auto; try congruence.
  - fold (mq_lists q'). intros j. rewrite M3, M7. apply Hd.
  - intros j jt Hj. destruct (decide (j = i)) as [->|Hne].
    + rewrite M1 in Hj. injection Hj as <-. destruct (Hi _ _ Hit) as (Hid0 & _).
      pose proof (mq_lists_excl q' i Hnd') as (E1 & E2 & E3).
      rewrite M5. split_and!; try congruence; try done;
        destruct (mi_state it') eqn:Est; split; intros ?; try congruence; tauto.
    + rewrite M2 in Hj by done. rewrite M5, M8, M9, M10 by done. by apply Hi.
Qed.

(** Messages of the other items are untouched when their areas are. *)
Lemma mq_msg_moved q q' i it' j :
  mq_moved q q' i it' -> j <> i ->
  (forall jt, mq_items q !! j = Some jt -> item_bytes q' jt = item_bytes q jt) ->
  mq_msg q' j = mq_msg q j.
Proof.
  intros Hm Hne Hb. unfold mq_msg. rewrite (mv_other _ _ _ _ Hm j Hne).
  destruct (mq_items q !! j) as [jt|] eqn:E; [|done]. by rewrite (Hb jt).
Qed.

Lemma item_bytes_same_buf q q' it :
  mq_buf q' = mq_buf q -> mq_item_sz q' = mq_item_sz q -> item_bytes q' it = item_bytes q it.
Proof. unfold item_bytes, msg_queue_get_buf. by intros -> ->. Qed.

Lemma mq_msgs_moved q q' i it' (l : list nat) :
  mq_moved q q' i it' -> i ∉ l ->
  (forall j jt, j <> i -> j ∈ l -> mq_items q !! j = Some jt -> item_bytes q' jt = item_bytes q jt) ->
  mq_msg q' <$> l = mq_msg q <$> l.
Proof.
  intros Hm Hi Hb. apply list_fmap_ext. intros k j Hk.
  apply list_elem_of_lookup_2 in Hk as Hin.
  assert (j <> i) by (intros ->; done). eapply mq_msg_moved; eauto.
Qed.

Lemma list_lookup_alter_same {A} (f : A -> A) i (l : list A) x :
  l !! i = Some x -> alter f i l !! i = Some (f x).
Proof. intros H. by rewrite list_lookup_alter_eq, H. Qed.

Lemma mq_unlink_free q i l :
  NoDup (mq_lists q) -> mq_free q = i :: l -> mq_unlink i q = mq_set_lists l (mq_filled q) (mq_read q) q.
Proof.
  intros Hnd E. pose proof (mq_lists_excl q i Hnd) as (H1 & _ & _).
  destruct H1 as [Hf Hr]; [rewrite E; left|]. unfold mq_unlink. rewrite E, (unlink_notin i (mq_filled q)), (unlink_notin i (mq_read q)) by done.
  rewrite unlink_cons; [done|]. unfold mq_lists in Hnd. rewrite E in Hnd. cbn in Hnd.
  apply NoDup_cons in Hnd as [Hn _]. rewrite elem_of_app in Hn. tauto.
Qed.

Lemma mq_unlink_filled q i l :
  NoDup (mq_lists q) -> mq_filled q = i :: l -> mq_unlink i q = mq_set_lists (mq_free q) l (mq_read q) q.
Proof.
  intros Hnd E. pose proof (mq_lists_excl q i Hnd) as (_ & H1 & _).
  destruct H1 as [Hf Hr]; [rewrite E; left|]. unfold mq_unlink. rewrite E, (unlink_notin i (mq_free q)), (unlink_notin i (mq_read q)) by done.
  rewrite unlink_cons; [done|]. unfold mq_lists in Hnd. rewrite E in Hnd.
  apply NoDup_app in Hnd as (_ & _ & Hnd). cbn in Hnd.
  apply NoDup_cons in Hnd as [Hn _]. rewrite elem_of_app in Hn. tauto.
Qed.

Lemma mq_unlink_read q i l1 l2 :
  NoDup (mq_lists q) -> mq_read q = l1 ++ i :: l2 ->
  mq_unlink i q = mq_set_lists (mq_free q) (mq_filled q) (l1 ++ l2) q.
Proof.
  intros Hnd E. pose proof (mq_lists_excl q i Hnd) as (_ & _ & H1).
  destruct H1 as [Hf Hr]; [rewrite E; list_mem|].
  unfold mq_unlink. rewrite E, (unlink_notin i (mq_free q)), (unlink_notin i (mq_filled q)) by done.
  unfold mq_lists in Hnd. rewrite E in Hnd.
  apply NoDup_app in Hnd as (_ & _ & Hnd). apply NoDup_app in Hnd as (_ & _ & Hnd).
  apply NoDup_app in Hnd as (_ & H1 & H2). apply NoDup_cons in H2 as [H2 _].
  rewrite unlink_middle; [done| |done]. intros Hin. by apply (H1 i); [|left].
Qed.

(** *** Fetching the next message *)

Lemma msg_get_filled_spec q i l :
  mq_wf q -> mq_filled q = i :: l ->
  exists q', msg_get_filled q = Some q' /\ mq_wf q' /\
    mq_abs q' = AQueue (length (mq_items q)) (mq_msg q <$> l) ((mq_msg q <$> mq_read q) ++ [mq_msg q i]).
Proof.
  intros Hwf E. pose proof (wf_nodup q Hwf) as Hnd. fold (mq_lists q) in Hnd.
  assert (i < length (mq_items q))%nat as Hi
    by (apply (wf_dom q Hwf); rewrite E; list_mem).
  destruct (lookup_lt_is_Some_2 _ _ Hi) as [it Hit].
  destruct (wf_item q Hwf i it Hit) as (Hid & Hfr & Hfi & Hre & Hc).
  assert (mi_state it = MSG_ITEM_STATE_FILLED) as Hst by (apply Hfi; rewrite E; left).
  unfold msg_get_filled. rewrite E. cbn. eexists; split; [reflexivity|].
  rewrite (mq_unlink_filled q i l) by done.
  set (q' := mq_alter_item _ _ _).
  assert (mq_moved q q' i (mi_set_state MSG_ITEM_STATE_READ it)) as Hm.
  { pose proof (mq_lists_excl q i Hnd) as (_ & X & _). destruct X; [rewrite E; left|].
    split; cbn; try done.
    - by apply list_lookup_alter_same.
    - intros j Hj. by rewrite list_lookup_alter_ne.
    - by rewrite length_alter.
    - unfold mq_lists; cbn. rewrite E. cbn. apply Permutation_app_head.
      by rewrite app_assoc, <- Permutation_cons_append.
    - intros j Hj. rewrite E. list_mem.
    - intros j Hj. list_mem.
    - list_mem. }
  split.
  - eapply mq_wf_moved; eauto. intros _. cbn. apply Hc. by rewrite Hst.
  - unfold mq_abs. rewrite (mv_len _ _ _ _ Hm).
    assert (forall jt, item_bytes q' jt = item_bytes q jt) as Hb by (intros; by apply item_bytes_same_buf).
    unfold mq_lists in Hnd. rewrite E in Hnd. apply NoDup_app in Hnd as (_ & _ & Hnd).
    cbn in Hnd. apply NoDup_cons in Hnd as [Hn _]. rewrite elem_of_app in Hn.
    cbn. f_equal.
    + by apply (mq_msgs_moved q q' i _ l Hm); [tauto|].
    + rewrite fmap_app. cbn. f_equal; [by apply (mq_msgs_moved q q' i _ _ Hm); [tauto|]|].
      f_equal. unfold mq_msg. rewrite Hit, (mv_item _ _ _ _ Hm). f_equal.
Qed.

(** *** Writing a message *)

(** Lengths of kernel vectors are unsigned. *)
Definition desc_ok (msg : msg_desc) : Prop :=
  match msg with
  | MsgKern iov _ _ => Forall (fun v => 0 <= iov_len v) (default [] iov)
  | MsgUser _ _ _ => True
  end.

Lemma msg_gather_bounds ms msg buf len r area :
  desc_ok msg -> 0 <= len <= Z.of_nat (length buf) ->
  msg_gather ms msg buf len = Some (inr (r, area)) ->
  length area = length buf /\ drop (Z.to_nat len) area = drop (Z.to_nat len) buf /\ r <= len.
Proof.
  intros Hok Hl. unfold msg_gather. destruct msg as [iov n h|iov n h]; destruct (h =? 0); cbn; try done.
  - unfold kern_iovec_to_membuf. destruct (_ || _); cbn.
    + intros [= <- <-]. repeat split; lia.
    + destruct iov as [iov|]; cbn.
      * destruct (kern_to_membuf_loop _ _ _ _ _ _ _) as [[r' b']|] eqn:E; cbn; [|done].
        intros [= <- <-]. apply kern_to_membuf_loop_bounds in E as (? & ? & Hr); auto; try lia.
        repeat split; auto. unfold ERR_INVALID_ARGS in *. lia.
      * intros [= <- <-]. repeat split. unfold ERR_INVALID_ARGS. lia.
  - unfold user_iovec_to_membuf. destruct (_ || _); cbn.
    + intros [= <- <-]. repeat split; lia.
    + destruct (user_to_membuf_loop _ _ _ _ _ _ _ _) as [r' b'] eqn:E; cbn.
      intros [= <- <-]. apply user_to_membuf_loop_bounds in E as (? & ? & Hr); auto; try lia.
      repeat split; auto. unfold ERR_FAULT in *. lia.
Qed.

(** The buffers a kernel vector names are mapped. *)
Definition desc_readable (ms : mems) (msg : msg_desc) : Prop :=
  match msg with
  | MsgKern (Some iov) n _ =>
      0 <= n <= Z.of_nat (length iov) /\
      exists bss, Forall2 (readable (m_kern ms)) (take (Z.to_nat n) iov) bss
  | _ => True
  end.

Lemma msg_gather_total ms msg buf len :
  desc_readable ms msg -> 0 <= len <= Z.of_nat (length buf) -> is_Some (msg_gather ms msg buf len).
Proof.
  intros Hr Hl. unfold msg_gather. destruct msg as [[iov|] n h|iov n h]; destruct (negb _); try by eexists.
  - destruct Hr as (Hn & bss & Hr). unfold kern_iovec_to_membuf. destruct (_ || _); cbn; [by eexists|].
    rewrite (kern_to_membuf_loop_spec _ _ bss) by (auto; lia). by eexists.
  - unfold kern_iovec_to_membuf. destruct (_ || _); by eexists.
Qed.

Lemma msg_gather_err ms msg buf len e :
  msg_gather ms msg buf len = Some (inl e) -> e = ERR_NOT_SUPPORTED.
Proof.
  unfold msg_gather. destruct msg; destruct (negb _); try (by intros; simplify_eq).
  by destruct (kern_iovec_to_membuf _ _ _ _ _).
Qed.

(** The queue with the area of item [i] overwritten and the item reset. *)
Definition mq_filled_area (q : msg_queue) (i off : nat) (area : list Z) : msg_queue :=
  mq_set_buf (take off (mq_buf q) ++ area) (mq_alter_item i mi_reset q).

Lemma write_off q i it :
  mq_wf q -> mq_items q !! i = Some it ->
  msg_queue_get_buf q it = (i * Z.to_nat (mq_item_sz q))%nat.
Proof.
  intros Hwf Hit. unfold msg_queue_get_buf. destruct (wf_item q Hwf i it Hit) as (-> & _).
  pose proof (wf_sz q Hwf). rewrite Z2Nat.inj_mul, Nat2Z.id by lia. done.
Qed.

Lemma area_fits q j jt :
  mq_wf q -> mq_items q !! j = Some jt ->
  (S j * Z.to_nat (mq_item_sz q) <= length (mq_buf q))%nat.
Proof.
  intros Hwf Hj. apply lookup_lt_Some in Hj. pose proof (wf_buf q Hwf). pose proof (wf_num q Hwf).
  pose proof (wf_sz q Hwf). nia.
Qed.

Section write.
Context (q : msg_queue) (i : nat) (it : msg_item) (l : list nat) (area : list Z).
Hypothesis Hwf : mq_wf q.
Hypothesis Hfree : mq_free q = i :: l.
Hypothesis Hit : mq_items q !! i = Some it.
Hypothesis Hla : length area = length (drop (msg_queue_get_buf q it) (mq_buf q)).
Hypothesis Hda : drop (Z.to_nat (mq_item_sz q)) area
  = drop (Z.to_nat (mq_item_sz q)) (drop (msg_queue_get_buf q it) (mq_buf q)).

Let off := msg_queue_get_buf q it.
Let sz := Z.to_nat (mq_item_sz q).

Lemma write_other_bytes j jt :
  j <> i -> mq_items q !! j = Some jt -> mi_state jt <> MSG_ITEM_STATE_FREE ->
  item_bytes (mq_filled_area q i off area) jt = item_bytes q jt.
Proof.
  intros Hne Hj Hst. destruct (wf_item q Hwf j jt Hj) as (Hid & _ & _ & _ & Hc).
  destruct (Hc Hst) as [_ Hl]. pose proof (wf_sz q Hwf).
  unfold item_bytes, msg_queue_get_buf. cbn. rewrite Hid, Z2Nat.inj_mul, Nat2Z.id by lia.
  fold sz. rewrite (write_off q i it Hwf Hit : off = _). pose proof (area_fits q j jt Hwf Hj). pose proof (area_fits q i it Hwf Hit).
  apply area_frame; try lia; try nia.
  - rewrite Hla. fold off. by rewrite (write_off q i it Hwf Hit : off = _).
  - unfold sz at 1 2. rewrite Hda. fold off. by rewrite (write_off q i it Hwf Hit : off = _).
Qed.

Lemma write_area_length : length (mq_buf (mq_filled_area q i off area)) = length (mq_buf q).
Proof.
  cbn. rewrite length_app, Hla, length_take, length_drop. fold off. rewrite (write_off q i it Hwf Hit : off = _).
  pose proof (area_fits q i it Hwf Hit). nia.
Qed.

Lemma write_area_bytes n : item_bytes (mq_filled_area q i off area) (MsgItem (mi_id it) MSG_ITEM_STATE_FILLED 0 n)
  = take (Z.to_nat n) area.
Proof.
  unfold item_bytes. cbn. f_equal.
  change (msg_queue_get_buf _ _) with off. rewrite drop_app_ge by (rewrite length_take; lia).
  rewrite length_take_le; [by rewrite Nat.sub_diag|].
  rewrite (write_off q i it Hwf Hit : off = _). pose proof (area_fits q i it Hwf Hit). nia.
Qed.

(** Membership of the item on the other lists. *)
Lemma write_free : i ∉ l /\ i ∉ mq_filled q /\ i ∉ mq_read q.
Proof.
  pose proof (wf_nodup q Hwf) as Hnd. rewrite Hfree in Hnd. cbn in Hnd.
  apply NoDup_cons in Hnd as [Hn _]. list_mem.
Qed.

Lemma listed_not_free j jt :
  j ∈ mq_filled q \/ j ∈ mq_read q -> mq_items q !! j = Some jt -> mi_state jt <> MSG_ITEM_STATE_FREE.
Proof.
  intros Hj Hjt Hs. destruct (wf_item q Hwf j jt Hjt) as (_ & _ & Hfi & Hre & _).
  destruct Hj as [Hj|Hj]; [apply Hfi in Hj|apply Hre in Hj]; congruence.
Qed.
End write.

(** A descriptor on the free list can be rewritten, and its area with it,
    without any message of the queue noticing. *)
Lemma mq_abs_free_item q q' i it' :
  mq_wf q -> mq_moved q q' i it' -> i ∈ mq_free q ->
  mq_filled q' = mq_filled q -> mq_read q' = mq_read q ->
  (forall j jt, j <> i -> mq_items q !! j = Some jt -> mi_state jt <> MSG_ITEM_STATE_FREE ->
    item_bytes q' jt = item_bytes q jt) ->
  mq_abs q' = mq_abs q.
Proof.
  intros Hwf Hm Hi Hfi Hre Hb. unfold mq_abs. rewrite (mv_len _ _ _ _ Hm), Hfi, Hre.
  destruct (proj1 (mq_lists_excl q i (wf_nodup q Hwf)) Hi) as [? ?].
  f_equal; apply (mq_msgs_moved q q' i it'); auto; intros j jt Hne Hj Hjt; apply (Hb j); auto;
    eapply (listed_not_free q Hwf j); eauto.
Qed.

Lemma mq_reset_moved q i it q' :
  mq_items q !! i = Some it -> mi_state it = MSG_ITEM_STATE_FREE -> i ∈ mq_free q ->
  mq_items q' = alter mi_reset i (mq_items q) -> length (mq_buf q') = length (mq_buf q) ->
  mq_num_items q' = mq_num_items q -> mq_item_sz q' = mq_item_sz q ->
  mq_free q' = mq_free q -> mq_filled q' = mq_filled q -> mq_read q' = mq_read q ->
  mq_moved q q' i (mi_reset it).
Proof.
  intros Hit Hst Hi Hits Hb Hn Hs Hf Hfi Hr. split; rewrite ?Hits, ?Hf, ?Hfi, ?Hr; auto.
  - by apply list_lookup_alter_same.
  - intros j Hj. by rewrite list_lookup_alter_ne.
  - by rewrite length_alter.
  - unfold mq_lists. by rewrite Hf, Hfi, Hr.
  - cbn. by rewrite Hst.
Qed.

Lemma msg_write_spec ms q msg i l :
  mq_wf q -> mq_free q = i :: l -> desc_ok msg ->
  match msg_gather ms msg (drop (i * Z.to_nat (mq_item_sz q)) (mq_buf q)) (mq_item_sz q) with
  | None => msg_write ms q msg = WriteFault
  | Some (inl e) => exists q', msg_write ms q msg = WriteDone e q' /\ mq_wf q' /\ mq_abs q' = mq_abs q
  | Some (inr (r, area)) =>
      exists q', msg_write ms q msg = WriteDone r q' /\ mq_wf q' /\
        if r <? 0 then mq_abs q' = mq_abs q
        else mq_abs q' = AQueue (length (mq_items q))
               ((mq_msg q <$> mq_filled q) ++ [(i, take (Z.to_nat r) area)]) (mq_msg q <$> mq_read q)
  end.
Proof.
  intros Hwf Hfree Hok.
  assert (i < length (mq_items q))%nat as Hi
    by (apply (wf_dom q Hwf); rewrite Hfree; list_mem).
  destruct (lookup_lt_is_Some_2 _ _ Hi) as [it Hit].
  destruct (wf_item q Hwf i it Hit) as (Hid & Hfr & _).
  assert (i ∈ mq_free q) as Hin by (rewrite Hfree; left).
  pose proof (proj1 Hfr Hin) as Hst. pose proof (write_off q i it Hwf Hit) as Hoff.
  pose proof (area_fits q i it Hwf Hit) as Hfit. pose proof (wf_sz q Hwf) as Hsz.
  unfold msg_write. rewrite Hfree, Hit, decide_True, <- Hoff by done.
  destruct (msg_gather ms msg _ _) as [[e|[r area]]|] eqn:Eg; [| |done].
  - eexists; split; [done|].
    assert (mq_moved q (mq_alter_item i mi_reset q) i (mi_reset it)) as Hm by (by apply mq_reset_moved).
    split.
    + eapply mq_wf_moved; eauto. cbn. by rewrite Hst.
    + by apply (mq_abs_free_item q _ i (mi_reset it)).
  - apply msg_gather_bounds in Eg as (Hla & Hda & Hr); [|done|rewrite length_drop, Hoff; nia].
    pose proof (write_other_bytes q i it area Hwf Hit Hla Hda) as Hbytes.
    pose proof (write_area_length q i it area Hwf Hit Hla) as Hbl.
    set (q2 := mq_set_buf _ _).
    change (mq_filled_area q i (msg_queue_get_buf q it) area) with q2 in *.
    destruct (Z.ltb_spec r 0) as [Hneg|Hpos].
    + eexists; split; [done|].
      assert (mq_moved q q2 i (mi_reset it)) as Hm by (by apply mq_reset_moved). split.
      * eapply mq_wf_moved; eauto. cbn. by rewrite Hst.
      * by apply (mq_abs_free_item q _ i (mi_reset it)).
    + eexists; split; [done|].
      set (it' := MsgItem (mi_id it) MSG_ITEM_STATE_FILLED 0 r).
      destruct (write_free q i l Hwf Hfree) as (Hn1 & Hn2 & Hn3).
      pose proof (wf_nodup q Hwf) as Hnd. fold (mq_lists q) in Hnd.
      unfold msg_commit. rewrite (mq_unlink_free _ i l) by done.
      set (q3 := mq_alter_item _ _ (mq_set_lists _ _ _ _)).
      assert (mq_moved q q3 i it') as Hm.
      { split; cbn; auto.
        - rewrite (list_lookup_alter_same _ _ _ (mi_set_len r (mi_reset it))); [done|].
          by apply list_lookup_alter_same, list_lookup_alter_same.
        - intros j Hj. by rewrite !list_lookup_alter_ne.
        - by rewrite !length_alter.
        - unfold mq_lists; cbn. rewrite Hfree. cbn. rewrite <- app_assoc. cbn.
          by rewrite (Permutation_middle l), (Permutation_middle (mq_filled q)).
        - intros j Hj. rewrite Hfree. list_mem.
        - intros j Hj. list_mem.
        - list_mem. }
      assert (forall jt, item_bytes q3 jt = item_bytes q2 jt) as Hb3 by (intros; by apply item_bytes_same_buf).
      split; [eapply mq_wf_moved; eauto; cbn; lia|].
      assert (forall l' : list nat, i ∉ l' -> (forall j, j ∈ l' -> j ∈ mq_filled q \/ j ∈ mq_read q) ->
                mq_msg q3 <$> l' = mq_msg q <$> l') as Hmsgs.
      { intros l' Hl' Hsub. apply (mq_msgs_moved q q3 i it' l' Hm Hl').
        intros j jt Hne Hj Hjt. rewrite Hb3. apply (Hbytes j); auto.
        apply (listed_not_free q Hwf j); auto. }
      unfold mq_abs. rewrite (mv_len _ _ _ _ Hm). cbn. rewrite fmap_app. cbn. f_equal; [|by apply Hmsgs; auto].
      f_equal; [by apply Hmsgs; auto|]. unfold mq_msg. rewrite (mv_item _ _ _ _ Hm), Hb3.
      unfold it'. by rewrite (write_area_bytes q i it area Hwf Hit).
Qed.

(** *** Retiring a message *)

Lemma msg_queue_get_item_spec q i it :
  mq_wf q -> mq_items q !! i = Some it -> msg_queue_get_item q (Z.of_nat i) = Some (i, it).
Proof.
  intros Hwf Hit. apply lookup_lt_Some in Hit as Hl. unfold msg_queue_get_item.
  pose proof (wf_num q Hwf). destruct (Z.ltb_spec (Z.of_nat i) (mq_num_items q)); [|lia].
  by rewrite Nat2Z.id, Hit.
Qed.

Lemma mq_msgs_filter q i (l : list nat) :
  i ∉ l -> filter (fun m : nat * list Z => m.1 <> i) (mq_msg q <$> l) = mq_msg q <$> l.
Proof.
  intros Hl. induction l as [|j l IH]; [done|]. rewrite not_elem_of_cons in Hl. destruct Hl.
  rewrite fmap_cons, filter_cons_True by (cbn; congruence). f_equal. by apply IH.
Qed.

Lemma msg_put_read_spec q i it :
  mq_wf q -> mq_items q !! i = Some it -> mi_state it = MSG_ITEM_STATE_READ ->
  exists q', msg_put_read q (Z.of_nat i) = Some q' /\ mq_wf q' /\ mq_abs q' = aq_put i (mq_abs q).
Proof.
  intros Hwf Hit Hst. pose proof (wf_nodup q Hwf) as Hnd. fold (mq_lists q) in Hnd.
  destruct (wf_item q Hwf i it Hit) as (Hid & _ & _ & Hre & _).
  pose proof (proj2 Hre Hst) as Hin. apply list_elem_of_split in Hin as (l1 & l2 & E).
  unfold msg_put_read. rewrite (msg_queue_get_item_spec q i it) by done. cbn.
  rewrite decide_True by done. eexists; split; [reflexivity|].
  rewrite (mq_unlink_read q i l1 l2) by done. set (q' := mq_alter_item _ _ _).
  pose proof (mq_lists_excl q i Hnd) as (_ & _ & X). destruct X as [Hnf Hnr]; [rewrite E; list_mem|].
  assert (mq_moved q q' i (mi_set_state MSG_ITEM_STATE_FREE it)) as Hm.
  { split; cbn; auto.
    - by apply list_lookup_alter_same.
    - intros j Hj. by rewrite list_lookup_alter_ne.
    - by rewrite length_alter.
    - unfold mq_lists; cbn. rewrite E, !app_assoc. by rewrite <- Permutation_middle.
    - intros j Hj. list_mem.
    - intros j Hj. rewrite E. list_mem.
    - list_mem. }
  split; [by eapply mq_wf_moved; eauto|].
  assert (i ∉ l1 /\ i ∉ l2) as [H1 H2].
  { unfold mq_lists in Hnd. rewrite E in Hnd. apply NoDup_app in Hnd as (_ & _ & Hnd).
    apply NoDup_app in Hnd as (_ & _ & Hnd). apply NoDup_app in Hnd as (_ & Ha & Hb).
    apply NoDup_cons in Hb as [Hb _]. split; [|done]. intros Hx. apply (Ha i Hx). left. }
  assert (forall jt, item_bytes q' jt = item_bytes q jt) as Hb by (intros; by apply item_bytes_same_buf).
  unfold mq_abs, aq_put. rewrite (mv_len _ _ _ _ Hm). cbn. f_equal.
  - by apply (mq_msgs_moved q q' i _ _ Hm).
  - rewrite E, !fmap_app, fmap_cons, filter_app, filter_cons_False by (cbn; intros F; by apply F).
    rewrite !(mq_msgs_moved q q' i _ _ Hm) by auto.
    by rewrite !mq_msgs_filter.
Qed.

(** *** Reading a message *)

Lemma msg_read_spec ms q i b off msg :
  mq_wf q -> (i, b) ∈ aq_read (mq_abs q) -> 0 <= off <= Z.of_nat (length b) ->
  exists buf, take (length b - Z.to_nat off) buf = drop (Z.to_nat off) b /\
    (length b - Z.to_nat off <= length buf)%nat /\
    msg_read ms q (Z.of_nat i) off msg = msg_scatter ms msg buf (Z.of_nat (length b) - off).
Proof.
  intros Hwf Hin Ho. cbn in Hin. apply list_elem_of_fmap in Hin as (j & Hj & Hin).
  unfold mq_msg in Hj. simplify_eq.
  assert (j < length (mq_items q))%nat as Hl by (apply (wf_dom q Hwf); list_mem).
  destruct (lookup_lt_is_Some_2 _ _ Hl) as [it Hit]. rewrite Hit in *.
  destruct (wf_item q Hwf j it Hit) as (Hid & _ & _ & Hre & Hc).
  pose proof (proj1 Hre Hin) as Hst. destruct Hc as [Hh Hlen]; [by rewrite Hst|].
  pose proof (write_off q j it Hwf Hit) as Hoff. pose proof (area_fits q j it Hwf Hit) as Hfit.
  assert (Z.of_nat (length (item_bytes q it)) = mi_len it) as Hbl.
  { unfold item_bytes. rewrite length_take, length_drop, Hoff. nia. }
  unfold msg_read. rewrite (msg_queue_get_item_spec q j it) by done.
  rewrite bool_decide_true, Hh by done. cbn [negb Z.eqb].
  destruct (Z.gtb_spec off (mi_len it)) as [?|_]; [lia|].
  eexists; split; [|split; [|by rewrite Hbl]].
  - unfold item_bytes. rewrite <- drop_drop, take_drop_commute. f_equal. f_equal.
    fold (item_bytes q it). lia.
  - rewrite length_drop, Hoff. nia.
Qed.

(** *** New queues *)

Lemma msg_queue_init_wf num sz junk :
  0 <= num <= 256 -> 0 <= sz -> mq_wf (msg_queue_init num sz junk).
Proof.
  intros Hn Hs. unfold msg_queue_init. split; cbn.
  - rewrite length_fmap, length_seq. lia.
  - done.
  - rewrite length_replicate. nia.
  - rewrite app_nil_r. apply NoDup_seq.
  - intros i. rewrite app_nil_r, length_fmap, length_seq, elem_of_seq. lia.
  - intros i it Hi. apply list_lookup_fmap_Some in Hi as (j & -> & Hj).
    apply lookup_seq in Hj as [-> Hj]. cbn. rewrite elem_of_seq, !elem_of_nil.
    unfold u8. rewrite Z.mod_small by lia. repeat split; try done; lia.
Qed.

(** ** First in, first out

    A history of a queue: senders write, the receiver fetches and retires. *)

Inductive qop :=
| QWrite (ms : mems) (msg : msg_desc)
| QGet
| QPut (msg_id : Z).

Record qhist := QHist { qh_queue : msg_queue; qh_sent : list (list Z); qh_got : list (list Z) }.

(** The bytes of the message a successful write appended. *)
Definition last_filled (q : msg_queue) : list Z :=
  match last (mq_filled q) with Some i => (mq_msg q i).2 | None => [] end.

Definition qstep (h : qhist) (op : qop) : option qhist :=
  let q := qh_queue h in
  match op with
  | QWrite ms msg =>
      match msg_write ms q msg with
      | WriteFault => None
      | WriteFull => Some h
      | WriteDone ret q' =>
          if ret <? 0 then Some (QHist q' (qh_sent h) (qh_got h))
          else Some (QHist q' (qh_sent h ++ [last_filled q']) (qh_got h))
      end
  | QGet =>
      match mq_filled q with
      | [] => Some h
      | i :: _ => q' ← msg_get_filled q; Some (QHist q' (qh_sent h) (qh_got h ++ [(mq_msg q i).2]))
      end
  | QPut msg_id =>
      match msg_put_read q msg_id with
      | Some q' => Some (QHist q' (qh_sent h) (qh_got h))
      | None => Some h
      end
  end.

Fixpoint qrun (h : qhist) (ops : list qop) : option qhist :=
  match ops with
  | [] => Some h
  | op :: ops' => h' ← qstep h op; qrun h' ops'
  end.

Definition qop_ok (op : qop) : Prop :=
  match op with
  | QWrite ms msg => desc_ok msg /\ desc_readable ms msg
  | QPut msg_id => 0 <= msg_id
  | QGet => True
  end.

Definition qhist_ok (cap : nat) (h : qhist) : Prop :=
  mq_wf (qh_queue h) /\ length (mq_items (qh_queue h)) = cap /\
  qh_sent h = qh_got h ++ (snd <$> aq_filled (mq_abs (qh_queue h))).

Lemma last_filled_snoc q fs m :
  aq_filled (mq_abs q) = fs ++ [m] -> last_filled q = m.2.
Proof.
  cbn. intros H. unfold last_filled.
  assert (last (mq_msg q <$> mq_filled q) = Some m) as Hl by (rewrite H; by rewrite last_snoc).
  rewrite fmap_last in Hl. destruct (last (mq_filled q)); cbn in Hl; by simplify_eq.
Qed.

Lemma msg_write_hist ms q msg ret q' :
  mq_wf q -> desc_ok msg -> msg_write ms q msg = WriteDone ret q' ->
  mq_wf q' /\ length (mq_items q') = length (mq_items q) /\
  (if ret <? 0 then mq_abs q' = mq_abs q
   else aq_filled (mq_abs q') = aq_filled (mq_abs q) ++ [(default 0%nat (last (mq_filled q')), last_filled q')]).
Proof.
  intros Hwf Hok E. destruct (mq_free q) as [|i l] eqn:Hfree.
  { unfold msg_write in E. by rewrite Hfree in E. }
  pose proof (msg_write_spec ms q msg i l Hwf Hfree Hok) as H.
  destruct (msg_gather ms msg _ _) as [[e|[r area]]|] eqn:Eg.
  - destruct H as (q2 & E2 & Hwf2 & Ha). rewrite E in E2. injection E2 as -> ->.
    pose proof (f_equal aq_cap Ha). apply msg_gather_err in Eg as ->. split_and!; auto.
  - destruct H as (q2 & E2 & Hwf2 & Ha). rewrite E in E2. injection E2 as -> ->.
    split; [done|]. destruct (r <? 0).
    + pose proof (f_equal aq_cap Ha). auto.
    + pose proof (f_equal aq_cap Ha). split; [done|].
      pose proof (f_equal aq_filled Ha) as Hf. cbn [aq_filled] in Hf.
      rewrite Hf. f_equal. f_equal. rewrite (last_filled_snoc _ _ _ Hf). cbn. f_equal.
      cbn in Hf. assert (last (mq_msg q2 <$> mq_filled q2) = Some (i, take (Z.to_nat r) area)) as Hl
        by (rewrite Hf; by rewrite last_snoc).
      rewrite fmap_last in Hl. destruct (last (mq_filled q2)) eqn:El; cbn in *; [|done].
      unfold mq_msg in Hl. by simplify_eq.
  - rewrite H in E. done.
Qed.

Lemma msg_put_read_hist q msg_id q' :
  mq_wf q -> 0 <= msg_id -> msg_put_read q msg_id = Some q' ->
  exists i, mq_wf q' /\ mq_abs q' = aq_put i (mq_abs q).
Proof.
  intros Hwf Hid E. assert (exists it, mq_items q !! Z.to_nat msg_id = Some it /\
    mi_state it = MSG_ITEM_STATE_READ) as (it & Hit & Hst).
  { unfold msg_put_read, msg_queue_get_item in E. destruct (msg_id <? _); [|done].
    destruct (mq_items q !! Z.to_nat msg_id) as [it|]; [|done]. cbn in E. case_decide; [|done]. eauto. }
  destruct (msg_put_read_spec q _ it Hwf Hit Hst) as (q2 & E2 & Hwf2 & Ha).
  rewrite Z2Nat.id, E in E2 by done. injection E2 as ->. eauto.
Qed.

Lemma qstep_ok cap h op h' :
  qhist_ok cap h -> qop_ok op -> qstep h op = Some h' -> qhist_ok cap h'.
Proof.
  intros (Hwf & Hcap & Hs) Hok. destruct op as [ms msg| |msg_id]; cbn.
  - destruct (msg_write ms (qh_queue h) msg) as [| |ret q'] eqn:E; [done|by intros [= <-]|].
    apply msg_write_hist in E as (Hwf' & Hc' & Hf); auto; [|apply Hok].
    destruct (ret <? 0); intros [= <-]; (split; [done|]); cbn [qh_queue qh_sent qh_got].
    + split; [congruence|]. by rewrite Hs, Hf.
    + split; [congruence|]. by rewrite Hs, Hf, fmap_app, app_assoc.
  - destruct (mq_filled (qh_queue h)) as [|i l] eqn:E; [by intros; simplify_eq|].
    destruct (msg_get_filled_spec _ _ _ Hwf E) as (q' & -> & Hwf' & Ha). cbn. intros [= <-].
    pose proof (f_equal aq_cap Ha) as Hc. pose proof (f_equal aq_filled Ha) as Hf. cbn in Hc, Hf.
    split; [done|]. cbn. split; [congruence|]. rewrite Hs, Hf. cbn. rewrite E. cbn.
    by rewrite <- app_assoc.
  - destruct (msg_put_read (qh_queue h) msg_id) as [q'|] eqn:E; intros [= <-]; [|done].
    apply msg_put_read_hist in E as (i & Hwf' & Ha); auto.
    pose proof (f_equal aq_cap Ha) as Hc. pose proof (f_equal aq_filled Ha) as Hf.
    split; [done|]. cbn in *. split; [congruence|]. by rewrite Hs, Hf.
Qed.

Lemma qstep_total cap h op : qhist_ok cap h -> qop_ok op -> is_Some (qstep h op).
Proof.
  intros (Hwf & _ & _) Hok. destruct op as [ms msg| |msg_id]; cbn.
  - destruct Hok as [Hok Hrd]. destruct (mq_free (qh_queue h)) as [|i l] eqn:Hfree.
    { unfold msg_write. rewrite Hfree. by eexists. }
    pose proof (msg_write_spec ms _ msg i l Hwf Hfree Hok) as H.
    assert (i < length (mq_items (qh_queue h)))%nat as Hi
      by (apply (wf_dom _ Hwf); rewrite Hfree; list_mem).
    destruct (lookup_lt_is_Some_2 _ _ Hi) as [it Hit].
    pose proof (area_fits _ i it Hwf Hit). pose proof (wf_sz _ Hwf).
    destruct (msg_gather_total ms msg (drop (i * Z.to_nat (mq_item_sz (qh_queue h))) (mq_buf (qh_queue h)))
      (mq_item_sz (qh_queue h)) Hrd) as [r Er]; [rewrite length_drop; nia|].
    rewrite Er in H. destruct r as [e|[r area]]; destruct H as (q' & -> & _).
    + destruct (e <? 0); by eexists.
    + destruct (r <? 0); by eexists.
  - destruct (mq_filled (qh_queue h)) as [|i l] eqn:E; [by eexists|].
    destruct (msg_get_filled_spec _ _ _ Hwf E) as (q' & -> & _). by eexists.
  - destruct (msg_put_read _ _); by eexists.
Qed.

Lemma qrun_ok cap h ops :
  qhist_ok cap h -> Forall qop_ok ops -> exists h', qrun h ops = Some h' /\ qhist_ok cap h'.
Proof.
  intros Hh Hops. revert h Hh. induction Hops as [|op ops Hop Hops IH]; cbn; intros h Hh; [by eauto|].
  destruct (qstep_total cap h op Hh Hop) as [h1 E1]. rewrite E1. cbn. apply IH. by eapply qstep_ok.
Qed.

(** C8: The message queue is a bounded FIFO.  Any history of writes, fetches and
    retirements on a new queue runs to the end; after it the descriptor lists
    and states are consistent, the messages sent are exactly the messages
    fetched so far, in order, followed by those still queued, and at most
    [num_items] messages are held. *)
Theorem msg_queue_fifo num sz junk ops :
  0 <= num <= 256 -> 0 <= sz -> Forall qop_ok ops ->
  exists h, qrun (QHist (msg_queue_init num sz junk) [] []) ops = Some h /\
  mq_wf (qh_queue h) /\
  qh_sent h = qh_got h ++ (snd <$> aq_filled (mq_abs (qh_queue h))) /\
  Z.of_nat (length (mq_filled (qh_queue h)) + length (mq_read (qh_queue h))) <= num.
Proof.
  intros Hn Hs Hops.
  destruct (qrun_ok (Z.to_nat num) (QHist (msg_queue_init num sz junk) [] []) ops) as (h & E & Hwf & Hc & He); auto.
  - split; [by apply msg_queue_init_wf|]. cbn. split; [|done]. by rewrite length_fmap, length_seq.
  - exists h. split_and!; auto. pose proof (wf_nodup _ Hwf) as Hnd.
    assert (length (mq_lists (qh_queue h)) <= Z.to_nat num)%nat as Hlen.
    { rewrite <- Hc, <- (length_seq (length (mq_items (qh_queue h))) 0).
      apply submseteq_length, NoDup_submseteq; [done|].
      intros i Hi. apply elem_of_seq. apply (wf_dom _ Hwf) in Hi. lia. }
    unfold mq_lists in Hlen. rewrite !length_app in Hlen. lia.
Qed.

Definition demo_ops : list qop :=
  [QWrite (Mems ∅ demo_um) (MsgUser 100 2 0); QGet; QWrite (Mems ∅ demo_um) (MsgUser 100 1 0); QPut 0].

Lemma msg_queue_fifo_witness :
  exists h, qrun (QHist (msg_queue_init 2 8 0) [] []) demo_ops = Some h /\
  mq_wf (qh_queue h) /\
  qh_sent h = qh_got h ++ (snd <$> aq_filled (mq_abs (qh_queue h))) /\
  Z.of_nat (length (mq_filled (qh_queue h)) + length (mq_read (qh_queue h))) <= 2.
Proof.
  apply (msg_queue_fifo 2 8 0 demo_ops); [lia|lia|].
  repeat (apply Forall_cons_2); try apply Forall_nil_2; cbn; auto; lia.
Defined.

(** The history of the witness, computed: both messages were sent, the first
    was fetched. *)
Example demo_ops_run :
  (fun h => (qh_sent h, qh_got h)) <$> qrun (QHist (msg_queue_init 2 8 0) [] []) demo_ops
  = Some ([[11; 12; 13; 21; 22]; [11; 12; 13]], [[11; 12; 13; 21; 22]]).
Proof. vm_compute. reflexivity. Qed.
