(* ===== verification/Kernel.v ===== *)
(** * Kernel objects: handles, ports, channels, user contexts

    The state the trusty IPC code works on (lib/trusty/include/lib/trusty/
    handle.h, ipc.h, uctx.c) and the primitives on it.

    A [handle_t] is embedded in a port or in a channel; a pointer to it names
    the containing object ([href]), so [containerof] is the identity.  Objects
    live in maps from addresses; [free] removes the entry, and reading an absent
    address is a [BadPointer] fault.  [malloc] takes its answers from the list
    [k_allocs] (an empty list always succeeds), so that every failure path of
    the code can be taken; [k_junk] fills the bytes [malloc] leaves unset.

    [struct obj] keeps the list of the [obj_ref] nodes linked to it; each node
    is named by the field it is, and [k_refs] maps every node that is linked to
    the channel on whose list it is. *)

From stdpp Require Import base tactics list gmap countable.
From Stdlib Require Import ZArith Lia.
From S2P Require Import Prelude Iovec MsgQueue.

(** [const uuid_t *]: the identity of a client or server is the address of its
    uuid; [zero_uuid] is the one that stands for the non-secure world. *)
Inductive uuid_ptr := zero_uuid | app_uuid (app : Z).

#[export] Instance uuid_ptr_eq_dec : EqDecision uuid_ptr.
Proof. solve_decision. Defined.

Inductive handle_ops := ipc_port_handle_ops | ipc_chan_handle_ops.

Inductive href := HPort (p : Z) | HChan (c : Z).

#[export] Instance handle_ops_eq_dec : EqDecision handle_ops.
Proof. solve_decision. Defined.
#[export] Instance href_eq_dec : EqDecision href.
Proof. solve_decision. Defined.

(** Event bits of [handle.h]. *)
Definition IPC_HANDLE_POLL_NONE : Z := 0.
Definition IPC_HANDLE_POLL_READY : Z := 1.
Definition IPC_HANDLE_POLL_ERROR : Z := 2.
Definition IPC_HANDLE_POLL_HUP : Z := 4.
Definition IPC_HANDLE_POLL_MSG : Z := 8.
Definition IPC_HANDLE_POLL_SEND_UNBLOCKED : Z := 16.

(** [handle_t]: [h_hlist] says on which handle list [hlist_node] is. *)
Record handle := Handle {
  h_refcnt : Z;
  h_ops : option handle_ops;
  h_wait_event : option Z;
  h_hlist : option Z;
  h_cookie : Z;
}.

Definition set_h_refcnt (v : Z) (r : handle) : handle := Handle v (h_ops r) (h_wait_event r) (h_hlist r) (h_cookie r).
Definition set_h_ops (v : option handle_ops) (r : handle) : handle := Handle (h_refcnt r) v (h_wait_event r) (h_hlist r) (h_cookie r).
Definition set_h_wait_event (v : option Z) (r : handle) : handle := Handle (h_refcnt r) (h_ops r) v (h_hlist r) (h_cookie r).
Definition set_h_hlist (v : option Z) (r : handle) : handle := Handle (h_refcnt r) (h_ops r) (h_wait_event r) v (h_cookie r).
Definition set_h_cookie (v : Z) (r : handle) : handle := Handle (h_refcnt r) (h_ops r) (h_wait_event r) (h_hlist r) v.

Inductive port_state := IPC_PORT_STATE_INVALID | IPC_PORT_STATE_LISTENING | IPC_PORT_STATE_CLOSING.

Inductive chan_state :=
| IPC_CHAN_STATE_INVALID
| IPC_CHAN_STATE_ACCEPTING
| IPC_CHAN_STATE_CONNECTING
| IPC_CHAN_STATE_CONNECTED
| IPC_CHAN_STATE_DISCONNECTING
| IPC_CHAN_STATE_WAITING_FOR_PORT.

#[export] Instance port_state_eq_dec : EqDecision port_state.
Proof. solve_decision. Defined.
#[export] Instance chan_state_eq_dec : EqDecision chan_state.
Proof. solve_decision. Defined.

Definition IPC_PORT_ALLOW_TA_CONNECT : Z := 1.
Definition IPC_PORT_ALLOW_NS_CONNECT : Z := 2.
Definition IPC_PORT_PATH_MAX : Z := 64.
Definition IPC_CHAN_FLAG_SERVER : Z := 1.
Definition IPC_CHAN_AUX_STATE_SEND_BLOCKED : Z := 1.
Definition IPC_CHAN_AUX_STATE_SEND_UNBLOCKED : Z := 2.
Definition IPC_CHAN_AUX_STATE_CONNECTED : Z := 4.
Definition IPC_CHAN_MAX_BUFS : Z := 32.
Definition IPC_CHAN_MAX_BUF_SIZE : Z := 4096.
Definition IPC_CONNECT_WAIT_FOR_PORT : Z := 1.
Definition IPC_CONNECT_ASYNC : Z := 2.
Definition IPC_CONNECT_MASK : Z := 3.

(** A C string is the list of its bytes before the terminator. *)
Abbreviation cstring := (list Z).

(** [ipc_port_t]: [p_pending] is the list of server channels on
    [pending_list]; [p_node]: [node] is on [ipc_port_list]. *)
Record port := Port {
  p_path : cstring;
  p_uuid : uuid_ptr;
  p_state : port_state;
  p_flags : Z;
  p_num_recv_bufs : Z;
  p_recv_buf_size : Z;
  p_handle : handle;
  p_pending : list Z;
  p_node : bool;
}.

Definition set_p_path (v : cstring) (r : port) : port := Port v (p_uuid r) (p_state r) (p_flags r) (p_num_recv_bufs r) (p_recv_buf_size r) (p_handle r) (p_pending r) (p_node r).
Definition set_p_uuid (v : uuid_ptr) (r : port) : port := Port (p_path r) v (p_state r) (p_flags r) (p_num_recv_bufs r) (p_recv_buf_size r) (p_handle r) (p_pending r) (p_node r).
Definition set_p_state (v : port_state) (r : port) : port := Port (p_path r) (p_uuid r) v (p_flags r) (p_num_recv_bufs r) (p_recv_buf_size r) (p_handle r) (p_pending r) (p_node r).
Definition set_p_flags (v : Z) (r : port) : port := Port (p_path r) (p_uuid r) (p_state r) v (p_num_recv_bufs r) (p_recv_buf_size r) (p_handle r) (p_pending r) (p_node r).
Definition set_p_num_recv_bufs (v : Z) (r : port) : port := Port (p_path r) (p_uuid r) (p_state r) (p_flags r) v (p_recv_buf_size r) (p_handle r) (p_pending r) (p_node r).
Definition set_p_recv_buf_size (v : Z) (r : port) : port := Port (p_path r) (p_uuid r) (p_state r) (p_flags r) (p_num_recv_bufs r) v (p_handle r) (p_pending r) (p_node r).
Definition set_p_handle (v : handle) (r : port) : port := Port (p_path r) (p_uuid r) (p_state r) (p_flags r) (p_num_recv_bufs r) (p_recv_buf_size r) v (p_pending r) (p_node r).
Definition set_p_pending (v : list Z) (r : port) : port := Port (p_path r) (p_uuid r) (p_state r) (p_flags r) (p_num_recv_bufs r) (p_recv_buf_size r) (p_handle r) v (p_node r).
Definition set_p_node (v : bool) (r : port) : port := Port (p_path r) (p_uuid r) (p_state r) (p_flags r) (p_num_recv_bufs r) (p_recv_buf_size r) (p_handle r) (p_pending r) v.

(** The list a channel's [node] is linked on. *)
Inductive chan_list := WaitingForPort | PendingOn (p : Z).

#[export] Instance chan_list_eq_dec : EqDecision chan_list.
Proof. solve_decision. Defined.

(** [ipc_chan_t] *)
Record chan := Chan {
  c_peer : option Z;
  c_uuid : option uuid_ptr;
  c_state : chan_state;
  c_flags : Z;
  c_aux_state : Z;
  c_handle : handle;
  c_node : option chan_list;
  c_msg_queue : option msg_queue;
  c_path : option cstring;
}.

Definition set_c_peer (v : option Z) (r : chan) : chan := Chan v (c_uuid r) (c_state r) (c_flags r) (c_aux_state r) (c_handle r) (c_node r) (c_msg_queue r) (c_path r).
Definition set_c_uuid (v : option uuid_ptr) (r : chan) : chan := Chan (c_peer r) v (c_state r) (c_flags r) (c_aux_state r) (c_handle r) (c_node r) (c_msg_queue r) (c_path r).
Definition set_c_state (v : chan_state) (r : chan) : chan := Chan (c_peer r) (c_uuid r) v (c_flags r) (c_aux_state r) (c_handle r) (c_node r) (c_msg_queue r) (c_path r).
Definition set_c_flags (v : Z) (r : chan) : chan := Chan (c_peer r) (c_uuid r) (c_state r) v (c_aux_state r) (c_handle r) (c_node r) (c_msg_queue r) (c_path r).
Definition set_c_aux_state (v : Z) (r : chan) : chan := Chan (c_peer r) (c_uuid r) (c_state r) (c_flags r) v (c_handle r) (c_node r) (c_msg_queue r) (c_path r).
Definition set_c_handle (v : handle) (r : chan) : chan := Chan (c_peer r) (c_uuid r) (c_state r) (c_flags r) (c_aux_state r) v (c_node r) (c_msg_queue r) (c_path r).
Definition set_c_node (v : option chan_list) (r : chan) : chan := Chan (c_peer r) (c_uuid r) (c_state r) (c_flags r) (c_aux_state r) (c_handle r) v (c_msg_queue r) (c_path r).
Definition set_c_msg_queue (v : option msg_queue) (r : chan) : chan := Chan (c_peer r) (c_uuid r) (c_state r) (c_flags r) (c_aux_state r) (c_handle r) (c_node r) v (c_path r).
Definition set_c_path (v : option cstring) (r : chan) : chan := Chan (c_peer r) (c_uuid r) (c_state r) (c_flags r) (c_aux_state r) (c_handle r) (c_node r) (c_msg_queue r) v.

(** The [obj_ref_t] nodes: the three fields of a channel and the two locals. *)
Inductive obj_ref := node_ref (c : Z) | handle_ref (c : Z) | peer_ref (c : Z) | tmp_client_ref | tmp_server_ref.

#[export] Instance obj_ref_eq_dec : EqDecision obj_ref.
Proof. solve_decision. Defined.

#[export] Instance obj_ref_countable : Countable obj_ref.
Proof.
  refine (inj_countable'
    (fun r => match r with
              | node_ref c => (0%nat, c) | handle_ref c => (1%nat, c) | peer_ref c => (2%nat, c)
              | tmp_client_ref => (3%nat, 0) | tmp_server_ref => (4%nat, 0)
              end)
    (fun x => match x with
              | (0%nat, c) => node_ref c | (1%nat, c) => handle_ref c | (2%nat, c) => peer_ref c
              | (3%nat, _) => tmp_client_ref | _ => tmp_server_ref
              end) _).
  by intros [].
Defined.

(** [handle_list_t] *)
Record handle_list := HandleList {
  hl_handles : list href;
  hl_wait_event : option Z;
}.

Definition set_hl_handles (v : list href) (r : handle_list) : handle_list := HandleList v (hl_wait_event r).
Definition set_hl_wait_event (v : option Z) (r : handle_list) : handle_list := HandleList (hl_handles r) v.

(** [struct uctx]: the handle table of an app.  The handle list embedded in it
    is the one [k_hlists] holds under the app's id. *)
Record uctx := Uctx {
  u_inuse : list Z;
  u_handles : list (option href);
  u_priv : Z;
}.

Definition set_u_inuse (v : list Z) (r : uctx) : uctx := Uctx v (u_handles r) (u_priv r).
Definition set_u_handles (v : list (option href)) (r : uctx) : uctx := Uctx (u_inuse r) v (u_priv r).
Definition set_u_priv (v : Z) (r : uctx) : uctx := Uctx (u_inuse r) (u_handles r) v.

(** A trusted app: its user context, once created, its user memory and the bytes
    of its uuid. *)
Record app := App {
  a_uctx : option uctx;
  a_umem : mem;
  a_uuid : list Z;
}.

Definition set_a_uctx (v : option uctx) (r : app) : app := App v (a_umem r) (a_uuid r).
Definition set_a_umem (v : mem) (r : app) : app := App (a_uctx r) v (a_uuid r).
Definition set_a_uuid (v : list Z) (r : app) : app := App (a_uctx r) (a_umem r) v.

Record kstate := KState {
  k_ports : gmap Z port;
  k_chans : gmap Z chan;
  k_refs : gmap obj_ref Z;
  ipc_port_list : list Z;
  waiting_for_port_chan_list : list Z;
  k_apps : gmap Z app;
  k_hlists : gmap Z handle_list;
  k_events : gset Z;
  k_kmem : mem;
  k_next : Z;
  k_allocs : list bool;
  k_junk : Z;
}.

Definition set_k_ports (v : gmap Z port) (r : kstate) : kstate := KState v (k_chans r) (k_refs r) (ipc_port_list r) (waiting_for_port_chan_list r) (k_apps r) (k_hlists r) (k_events r) (k_kmem r) (k_next r) (k_allocs r) (k_junk r).
Definition set_k_chans (v : gmap Z chan) (r : kstate) : kstate := KState (k_ports r) v (k_refs r) (ipc_port_list r) (waiting_for_port_chan_list r) (k_apps r) (k_hlists r) (k_events r) (k_kmem r) (k_next r) (k_allocs r) (k_junk r).
Definition set_k_refs (v : gmap obj_ref Z) (r : kstate) : kstate := KState (k_ports r) (k_chans r) v (ipc_port_list r) (waiting_for_port_chan_list r) (k_apps r) (k_hlists r) (k_events r) (k_kmem r) (k_next r) (k_allocs r) (k_junk r).
Definition set_ipc_port_list (v : list Z) (r : kstate) : kstate := KState (k_ports r) (k_chans r) (k_refs r) v (waiting_for_port_chan_list r) (k_apps r) (k_hlists r) (k_events r) (k_kmem r) (k_next r) (k_allocs r) (k_junk r).
Definition set_waiting_for_port_chan_list (v : list Z) (r : kstate) : kstate := KState (k_ports r) (k_chans r) (k_refs r) (ipc_port_list r) v (k_apps r) (k_hlists r) (k_events r) (k_kmem r) (k_next r) (k_allocs r) (k_junk r).
Definition set_k_apps (v : gmap Z app) (r : kstate) : kstate := KState (k_ports r) (k_chans r) (k_refs r) (ipc_port_list r) (waiting_for_port_chan_list r) v (k_hlists r) (k_events r) (k_kmem r) (k_next r) (k_allocs r) (k_junk r).
Definition set_k_hlists (v : gmap Z handle_list) (r : kstate) : kstate := KState (k_ports r) (k_chans r) (k_refs r) (ipc_port_list r) (waiting_for_port_chan_list r) (k_apps r) v (k_events r) (k_kmem r) (k_next r) (k_allocs r) (k_junk r).
Definition set_k_events (v : gset Z) (r : kstate) : kstate := KState (k_ports r) (k_chans r) (k_refs r) (ipc_port_list r) (waiting_for_port_chan_list r) (k_apps r) (k_hlists r) v (k_kmem r) (k_next r) (k_allocs r) (k_junk r).
Definition set_k_kmem (v : mem) (r : kstate) : kstate := KState (k_ports r) (k_chans r) (k_refs r) (ipc_port_list r) (waiting_for_port_chan_list r) (k_apps r) (k_hlists r) (k_events r) v (k_next r) (k_allocs r) (k_junk r).
Definition set_k_next (v : Z) (r : kstate) : kstate := KState (k_ports r) (k_chans r) (k_refs r) (ipc_port_list r) (waiting_for_port_chan_list r) (k_apps r) (k_hlists r) (k_events r) (k_kmem r) v (k_allocs r) (k_junk r).
Definition set_k_allocs (v : list bool) (r : kstate) : kstate := KState (k_ports r) (k_chans r) (k_refs r) (ipc_port_list r) (waiting_for_port_chan_list r) (k_apps r) (k_hlists r) (k_events r) (k_kmem r) (k_next r) v (k_junk r).
Definition set_k_junk (v : Z) (r : kstate) : kstate := KState (k_ports r) (k_chans r) (k_refs r) (ipc_port_list r) (waiting_for_port_chan_list r) (k_apps r) (k_hlists r) (k_events r) (k_kmem r) (k_next r) (k_allocs r) v.

(** ** Access *)

Abbreviation K := (M kstate).

Definition get_port (p : Z) : K port := s ← get; deref BadPointer (k_ports s !! p).
Definition get_chan (c : Z) : K chan := s ← get; deref BadPointer (k_chans s !! c).
Definition get_app (a : Z) : K app := s ← get; deref BadPointer (k_apps s !! a).

Definition get_hlist (l : Z) : K handle_list := s ← get; deref BadPointer (k_hlists s !! l).

Definition put_port (p : Z) (x : port) (s : kstate) : kstate := set_k_ports (<[p := x]> (k_ports s)) s.
Definition put_chan (c : Z) (x : chan) (s : kstate) : kstate := set_k_chans (<[c := x]> (k_chans s)) s.
Definition put_app (a : Z) (x : app) (s : kstate) : kstate := set_k_apps (<[a := x]> (k_apps s)) s.

Definition put_hlist (l : Z) (x : handle_list) (s : kstate) : kstate := set_k_hlists (<[l := x]> (k_hlists s)) s.

Definition upd_port (p : Z) (f : port -> port) : K unit := x ← get_port p; modify (put_port p (f x)).
Definition upd_chan (c : Z) (f : chan -> chan) : K unit := x ← get_chan c; modify (put_chan c (f x)).
Definition upd_app (a : Z) (f : app -> app) : K unit := x ← get_app a; modify (put_app a (f x)).

Definition upd_hlist (l : Z) (f : handle_list -> handle_list) : K unit := x ← get_hlist l; modify (put_hlist l (f x)).

Definition get_uctx (a : Z) : K uctx := x ← get_app a; deref BadPointer (a_uctx x).
Definition upd_uctx (a : Z) (f : uctx -> uctx) : K unit :=
  u ← get_uctx a; upd_app a (set_a_uctx (Some (f u))).

(** Copies between the kernel and the memory of app [a]. *)
Definition user_write (a addr : Z) (bs : list Z) : K Z :=
  x ← get_app a;
  let '(ret, um) := copy_to_user (a_umem x) addr bs in
  upd_app a (set_a_umem um);; mret ret.

Definition user_read (a addr : Z) (n : nat) : K (Z * list Z) :=
  x ← get_app a; mret (copy_from_user (a_umem x) addr n).

Definition get_handle (h : href) : K handle :=
  match h with
  | HPort p => x ← get_port p; mret (p_handle x)
  | HChan c => x ← get_chan c; mret (c_handle x)
  end.

Definition upd_handle (h : href) (f : handle -> handle) : K unit :=
  match h with
  | HPort p => upd_port p (fun x => set_p_handle (f (p_handle x)) x)
  | HChan c => upd_chan c (fun x => set_c_handle (f (c_handle x)) x)
  end.

(** [malloc]/[calloc]/[strdup]: does this allocation succeed? *)
Definition kmalloc : K bool :=
  s ← get;
  match k_allocs s with
  | [] => mret true
  | b :: l => modify (set_k_allocs l);; mret b
  end.

(** The address of a new object. *)
Definition fresh_addr : K Z :=
  s ← get; modify (set_k_next (k_next s + 1));; mret (k_next s).

(** [event_signal]: the event stays signalled until its waiter consumes it. *)
Definition event_signal (ev : Z) : K unit := modify (fun s => set_k_events ({[ev]} ∪ k_events s) s).

(** [list_delete] on a list of addresses. *)
Definition unlink_addr (x : Z) (l : list Z) : list Z := filter (fun y => y <> x) l.

(** ** handle.c: the part that needs no [handle_ops] *)

(** A handle inside a zeroed object. *)
Definition zeroed_handle : handle := Handle 0 None None None 0.

Definition handle_init (h : href) (ops : handle_ops) : K unit :=
  upd_handle h (fun _ => Handle 1 (Some ops) None None 0).

Definition handle_incref (h : href) : K unit :=
  upd_handle h (fun x => set_h_refcnt (h_refcnt x + 1) x).

Definition handle_set_cookie (h : href) (cookie : Z) : K unit := upd_handle h (set_h_cookie cookie).
Definition handle_get_cookie (h : href) : K Z := x ← get_handle h; mret (h_cookie x).

Definition prepare_wait_handle (ev : Z) (h : href) : K Z :=
  x ← get_handle h;
  match h_wait_event x with
  | Some _ => mret ERR_ALREADY_STARTED
  | None => upd_handle h (set_h_wait_event (Some ev));; mret 0
  end.

Definition finish_wait_handle (h : href) : K unit := upd_handle h (set_h_wait_event None).

Definition handle_notify (h : href) : K unit :=
  x ← get_handle h;
  match h_wait_event x with
  | Some ev => event_signal ev
  | None => mret tt
  end.
