(* ===== verification/Channel.v ===== *)
(** * Channel and port objects: lk/trusty/lib/trusty/ipc.c, lifetime and polling

    References to channels, shutting channels and ports down, destroying them,
    and the [poll] and [finalize_event] operations of their handles, with the
    [handle_ops] dispatch of handle.c ([handle_decref], [handle_close]).  All of
    it runs under [ipc_lock], so each routine is one atomic transition. *)

From stdpp Require Import base tactics list gmap.
From Stdlib Require Import ZArith Lia.
From S2P Require Import Prelude Iovec MsgQueue Kernel.

Definition ipc_is_channel (x : handle) : bool := bool_decide (h_ops x = Some ipc_chan_handle_ops).
Definition ipc_is_port (x : handle) : bool := bool_decide (h_ops x = Some ipc_port_handle_ops).

(** ** Channel references (reflist.h and ipc.c) *)

Definition no_refs (s : kstate) (c : Z) : bool := bool_decide (map_Forall (fun _ o => o <> c) (k_refs s)).

Definition chan_destroy_refobj (c : Z) : K unit :=
  ch ← get_chan c;
  (* should not point to peer *)
  assert_ (bool_decide (c_peer ch = None));;
  (* should not be in a list *)
  assert_ (bool_decide (c_node ch = None));;
  (* path and message queue are freed with the channel *)
  modify (fun s => set_k_chans (delete c (k_chans s)) s).

Definition chan_add_ref (c : Z) (r : obj_ref) : K unit :=
  _ ← get_chan c;
  s ← get;
  assert_ (bool_decide (k_refs s !! r = None));;
  modify (fun s => set_k_refs (<[r := c]> (k_refs s)) s).

Definition chan_del_ref (c : Z) (r : obj_ref) : K unit :=
  _ ← get_chan c;
  s ← get;
  assert_ (bool_decide (is_Some (k_refs s !! r)));;
  modify (fun s => set_k_refs (delete r (k_refs s)) s);;
  s ← get;
  when (no_refs s c) (chan_destroy_refobj c).

Definition chan_handle_init (c : Z) : K href :=
  handle_init (HChan c) ipc_chan_handle_ops;;
  chan_add_ref c (handle_ref c);;
  mret (HChan c).

Definition new_chan (flags : Z) (uuid : option uuid_ptr) : chan :=
  Chan None uuid IPC_CHAN_STATE_INVALID flags 0 zeroed_handle None None None.

Definition chan_alloc (flags : Z) (uuid : option uuid_ptr) (r : obj_ref) : K (option Z) :=
  ok ← kmalloc;
  if (ok : bool) then
    c ← fresh_addr;
    modify (put_chan c (new_chan flags uuid));;
    modify (fun s => set_k_refs (<[r := c]> (k_refs s)) s);;
    mret (Some c)
  else mret None.

(** [list_delete(&chan->node)] *)
Definition chan_node_delete (c : Z) : K unit :=
  ch ← get_chan c;
  match c_node ch with
  | None => raise NullDeref
  | Some WaitingForPort =>
      modify (fun s => set_waiting_for_port_chan_list (unlink_addr c (waiting_for_port_chan_list s)) s);;
      upd_chan c (set_c_node None)
  | Some (PendingOn p) =>
      upd_port p (fun x => set_p_pending (unlink_addr c (p_pending x)) x);;
      upd_chan c (set_c_node None)
  end.

(** ** Shutting down *)

Definition chan_shutdown_locked1 (c : Z) : K unit :=
  ch ← get_chan c;
  match c_state ch with
  | IPC_CHAN_STATE_CONNECTED | IPC_CHAN_STATE_CONNECTING =>
      upd_chan c (set_c_state IPC_CHAN_STATE_DISCONNECTING);;
      handle_notify (HChan c)
  | IPC_CHAN_STATE_WAITING_FOR_PORT =>
      assert_ (bool_decide (is_Some (c_node ch)));;
      chan_node_delete c;;
      chan_del_ref c (node_ref c);;
      upd_chan c (set_c_state IPC_CHAN_STATE_DISCONNECTING)
  | IPC_CHAN_STATE_ACCEPTING =>
      upd_chan c (set_c_state IPC_CHAN_STATE_DISCONNECTING)
  | _ => mret tt
  end.

Definition chan_shutdown_locked (c : Z) : K unit :=
  chan_shutdown_locked1 c;;
  ch ← get_chan c;
  match c_peer ch with
  | Some pc =>
      chan_shutdown_locked1 pc;;
      chan_del_ref pc (peer_ref c);;
      upd_chan c (set_c_peer None)
  | None => mret tt
  end.

Definition chan_shutdown (c : Z) : K unit :=
  ch ← get_chan c;
  assert_ (ipc_is_channel (c_handle ch));;
  chan_shutdown_locked c.

(** ** Destroying *)

Definition chan_handle_destroy (c : Z) : K unit :=
  ch ← get_chan c;
  assert_ (ipc_is_channel (c_handle ch));;
  chan_del_ref c (handle_ref c).

Definition port_handle_destroy (p : Z) : K unit :=
  pt ← get_port p;
  assert_ (ipc_is_port (p_handle pt));;
  assert_ (bool_decide (p_pending pt = []));;
  assert_ (negb (p_node pt));;
  modify (fun s => set_k_ports (delete p (k_ports s)) s).

(** [handle->ops->destroy(handle)] *)
Definition handle_destroy (h : href) : K unit :=
  x ← get_handle h;
  match h_ops x, h with
  | Some ipc_port_handle_ops, HPort p => port_handle_destroy p
  | Some ipc_chan_handle_ops, HChan c => chan_handle_destroy c
  | _, _ => raise NullDeref
  end.

Definition handle_decref (h : href) : K unit :=
  x ← get_handle h;
  upd_handle h (set_h_refcnt (h_refcnt x - 1));;
  when (h_refcnt x =? 1) (handle_destroy h).

(** ** Ports *)

(** Body of the loop of [port_shutdown] over the pending connections. *)
Definition port_drop_pending (p server : Z) : K unit :=
  chan_shutdown_locked server;;
  chan_node_delete server;;
  chan_del_ref server (node_ref server);;
  handle_decref (HPort p).

Definition port_shutdown (p : Z) : K unit :=
  pt ← get_port p;
  assert_ (ipc_is_port (p_handle pt));;
  upd_port p (set_p_state IPC_PORT_STATE_CLOSING);;
  when (p_node pt)
    (modify (fun s => set_ipc_port_list (unlink_addr p (ipc_port_list s)) s);;
     upd_port p (set_p_node false);;
     handle_decref (HPort p));;
  pt ← get_port p;
  mfor (port_drop_pending p) (p_pending pt).

Definition handle_shutdown (h : href) : K unit :=
  x ← get_handle h;
  match h_ops x, h with
  | Some ipc_port_handle_ops, HPort p => port_shutdown p
  | Some ipc_chan_handle_ops, HChan c => chan_shutdown c
  | _, _ => raise NullDeref
  end.

Definition handle_close (h : href) : K unit :=
  handle_shutdown h;;
  handle_decref h.

(** ** Polling *)

Definition port_poll (p : Z) : K Z :=
  pt ← get_port p;
  assert_ (ipc_is_port (p_handle pt));;
  mret (if bool_decide (p_state pt = IPC_PORT_STATE_LISTENING) then
          if bool_decide (p_pending pt = []) then 0 else IPC_HANDLE_POLL_READY
        else IPC_HANDLE_POLL_ERROR).

Definition chan_events (ch : chan) : Z :=
  if bool_decide (c_state ch = IPC_CHAN_STATE_INVALID) then IPC_HANDLE_POLL_ERROR
  else
    let e0 := if bool_decide (c_state ch = IPC_CHAN_STATE_DISCONNECTING)
              then IPC_HANDLE_POLL_HUP else 0 in
    let e1 := if has_flag (c_aux_state ch) IPC_CHAN_AUX_STATE_CONNECTED
              then set_flag e0 IPC_HANDLE_POLL_READY else e0 in
    let e2 := match c_msg_queue ch with
              | Some q => if ipc_msg_queue_is_empty q then e1 else set_flag e1 IPC_HANDLE_POLL_MSG
              | None => e1
              end in
    if has_flag (c_aux_state ch) IPC_CHAN_AUX_STATE_SEND_UNBLOCKED
    then set_flag e2 IPC_HANDLE_POLL_SEND_UNBLOCKED else e2.

Definition chan_poll (c : Z) : K Z :=
  ch ← get_chan c;
  assert_ (ipc_is_channel (c_handle ch));;
  mret (chan_events ch).

Definition chan_finalize_event (c : Z) (event : Z) : K unit :=
  ch ← get_chan c;
  assert_ (ipc_is_channel (c_handle ch));;
  when (has_flag event (Z.lor IPC_HANDLE_POLL_SEND_UNBLOCKED IPC_HANDLE_POLL_READY))
    (when (has_flag event IPC_HANDLE_POLL_SEND_UNBLOCKED)
       (upd_chan c (fun x => set_c_aux_state (clear_flag (c_aux_state x) IPC_CHAN_AUX_STATE_SEND_UNBLOCKED) x));;
     when (has_flag event IPC_HANDLE_POLL_READY)
       (upd_chan c (fun x => set_c_aux_state (clear_flag (c_aux_state x) IPC_CHAN_AUX_STATE_CONNECTED) x))).

(** [handle->ops->poll(handle)] *)
Definition handle_poll (h : href) : K Z :=
  x ← get_handle h;
  match h_ops x, h with
  | Some ipc_port_handle_ops, HPort p => port_poll p
  | Some ipc_chan_handle_ops, HChan c => chan_poll c
  | _, _ => raise NullDeref
  end.

(** [if (handle->ops->finalize_event) handle->ops->finalize_event(...)] *)
Definition handle_finalize_event (h : href) (event : Z) : K unit :=
  match h with
  | HPort _ => mret tt
  | HChan c => chan_finalize_event c event
  end.
