(* ===== verification/Handle.v ===== *)
(** * Handles and handle lists: lk/trusty/lib/trusty/handle.c

    Waiting on one handle and on a list of handles.  A waiting thread installs
    its stack-allocated event in the handle, polls, and blocks until somebody
    signals the event; what the rest of the system does while it is blocked is
    the parameter [block]: it maps the event, the timeout and the state to the
    status [event_wait_timeout] returns and the state then. *)

From stdpp Require Import base tactics list gmap.
From Stdlib Require Import ZArith Lia.
From S2P Require Import Prelude Iovec MsgQueue Kernel Channel.

(** ** Lists *)

Definition hlist_unlink (h : href) (l : list href) : list href := filter (fun y => y <> h) l.

Definition handle_list_init (l : Z) : K unit := modify (put_hlist l (HandleList [] None)).

Definition handle_list_add (l : Z) (h : href) : K unit :=
  x ← get_handle h;
  assert_ (bool_decide (h_hlist x = None));;
  handle_incref h;;
  upd_hlist l (fun hl => set_hl_handles (hl_handles hl ++ [h]) hl);;
  upd_handle h (set_h_hlist (Some l));;
  hl ← get_hlist l;
  match hl_wait_event hl with
  | Some ev =>
      (* somebody is waiting on list *)
      _ ← prepare_wait_handle ev h;
      (* call poll to check if it is already signaled *)
      event ← handle_poll h;
      when (negb (event =? 0)) (handle_notify h)
  | None => mret tt
  end.

Definition handle_list_del_locked (l : Z) (h : href) : K unit :=
  x ← get_handle h;
  assert_ (bool_decide (is_Some (h_hlist x)));;
  (* remove item from list *)
  upd_hlist l (fun hl => set_hl_handles (hlist_unlink h (hl_handles hl)) hl);;
  upd_handle h (set_h_hlist None);;
  (* check if somebody is waiting on this handle list *)
  hl ← get_hlist l;
  match hl_wait_event hl with
  | Some ev =>
      finish_wait_handle h;;
      (* wakeup waiter if list is now empty *)
      when (bool_decide (hl_handles hl = [])) (event_signal ev)
  | None => mret tt
  end;;
  handle_decref h.

Definition handle_list_del (l : Z) (h : href) : K unit := handle_list_del_locked l h.

(** [while (!list_is_empty(..)) _handle_list_del_locked(head)]; each round
    removes the head, so the length of the list is enough fuel. *)
Fixpoint handle_list_delete_all_loop (n : nat) (l : Z) : K unit :=
  hl ← get_hlist l;
  match hl_handles hl with
  | [] => mret tt
  | h :: _ =>
      match n with
      | O => raise OutOfFuel
      | S n' => handle_list_del_locked l h;; handle_list_delete_all_loop n' l
      end
  end.

Definition handle_list_delete_all (l : Z) : K unit :=
  hl ← get_hlist l; handle_list_delete_all_loop (length (hl_handles hl)) l.

(** [_hlist_finish_wait_locked(hlist, last)]; [None] walks the whole list. *)
Fixpoint hlist_finish_wait (hs : list href) (last : option href) : K unit :=
  match hs with
  | [] => mret tt
  | h :: hs' =>
      finish_wait_handle h;;
      if bool_decide (last = Some h) then mret tt else hlist_finish_wait hs' last
  end.

(** The scan of [_hlist_do_poll_locked].  [ret] starts out uninitialised, which
    is [None] here; the result is [ret], the last handle prepared and the
    handle found with its event. *)
Fixpoint hlist_scan (ev : Z) (prepare : bool) (hs : list href) (ret : option Z) (last_prep : option href) :
    K (option Z * option href * option (href * Z)) :=
  match hs with
  | [] => mret (ret, last_prep, None)
  | h :: hs' =>
      r ← (if prepare then Some <$> prepare_wait_handle ev h else mret None : K (option Z));
      let ret' := if prepare then r else ret in
      if prepare && negb (bool_decide (r = Some 0)) then mret (ret', last_prep, None)
      else
        let last_prep' := if prepare then Some h else last_prep in
        event ← handle_poll h;
        if negb (event =? 0) then mret (Some 1, last_prep', Some (h, event))
        else hlist_scan ev prepare hs' ret' last_prep'
  end.

Definition hlist_do_poll_locked (l : Z) (prepare : bool) : K (Z * option (href * Z)) :=
  hl ← get_hlist l;
  ev ← deref AssertFailed (hl_wait_event hl);
  match hl_handles hl with
  | [] => mret (ERR_NOT_FOUND, None)
  | hs =>
      '(ret, last_prep, found) ← hlist_scan ev prepare hs None None;
      (* if (ret && prepare && last_prep): reads ret *)
      ret ← deref UninitRead ret;
      when (negb (ret =? 0) && prepare && bool_decide (is_Some last_prep))
        (hlist_finish_wait hs last_prep);;
      mret (ret, found)
  end.

(** ** Waiting *)

Section wait.
(** [wait_queue_block]: the other threads run until the event is signalled or
    the timeout expires. *)
Variable block : Z -> Z -> kstate -> Z * kstate.

(** [event_wait_timeout] on an auto-unsignal event. *)
Definition event_wait_timeout (ev timeout : Z) : K Z :=
  s ← get;
  if bool_decide (ev ∈ k_events s) then
    modify (set_k_events (k_events s ∖ {[ev]}));; mret NO_ERROR
  else
    fun s => let '(ret, s') := block ev timeout s in Ret ret s'.

Definition event_init (ev : Z) : K unit := modify (fun s => set_k_events (k_events s ∖ {[ev]}) s).
Definition event_destroy (ev : Z) : K unit := modify (fun s => set_k_events (k_events s ∖ {[ev]}) s).

(** The loop of [handle_wait]: [inl] is the negative status of a wait. *)
Fixpoint handle_wait_loop (fuel : nat) (ev : Z) (h : href) (timeout : Z) : K (Z + Z) :=
  match fuel with
  | O => raise OutOfFuel
  | S fuel' =>
      event ← handle_poll h;
      if negb (event =? 0) then mret (inr event)
      else
        ret ← event_wait_timeout ev timeout;
        if ret <? 0 then mret (inl ret) else handle_wait_loop fuel' ev h timeout
  end.

(** [handle_wait]: status and event; the event of the waiter is [ev]. *)
Definition handle_wait (fuel : nat) (ev : Z) (h : href) (timeout : Z) : K (Z * Z) :=
  event_init ev;;
  ret ← prepare_wait_handle ev h;
  if negb (ret =? 0) then event_destroy ev;; mret (ret, 0)
  else
    r ← handle_wait_loop fuel ev h timeout;
    match r with
    | inl e =>
        finish_wait_handle h;; event_destroy ev;; mret (e, 0)
    | inr event =>
        handle_finalize_event h event;;
        finish_wait_handle h;;
        event_destroy ev;;
        mret (NO_ERROR, event)
    end.

(** The [do .. while (!ret)] loop of [handle_list_wait]. *)
Fixpoint handle_list_wait_loop (fuel : nat) (ev l timeout : Z) : K (Z * option (href * Z)) :=
  match fuel with
  | O => raise OutOfFuel
  | S fuel' =>
      ret ← event_wait_timeout ev timeout;
      if ret <? 0 then mret (ret, None)
      else
        '(ret, found) ← hlist_do_poll_locked l false;
        if ret =? 0 then handle_list_wait_loop fuel' ev l timeout else mret (ret, found)
  end.

(** [list_delete(&hlist->handles); list_add_head(&handle->hlist_node, &hlist->handles)]:
    the list head moves behind the handle found, so the next scan starts with
    its successor. *)
Definition rotate_after (h : href) (hs : list href) : list href :=
  match list_find (fun y => y = h) hs with
  | Some (i, _) => drop (S i) hs ++ take (S i) hs
  | None => hs
  end.

Definition handle_list_wait (fuel : nat) (ev l timeout : Z) : K (Z * option (href * Z)) :=
  event_init ev;;
  hl ← get_hlist l;
  assert_ (bool_decide (hl_wait_event hl = None));;
  upd_hlist l (set_hl_wait_event (Some ev));;
  '(ret, found) ← hlist_do_poll_locked l true;
  res ← (if ret <? 0 then mret (ret, None)
         else
           '(ret, found) ←
             (if ret =? 0 then
                r ← handle_list_wait_loop fuel ev l timeout;
                hl ← get_hlist l;
                hlist_finish_wait (hl_handles hl) None;;
                mret r
              else mret (ret, found));
           if ret =? 1 then
             '(h, event) ← deref NullDeref found;
             handle_finalize_event h event;;
             handle_incref h;;
             upd_hlist l (fun hl => set_hl_handles (rotate_after h (hl_handles hl)) hl);;
             mret (NO_ERROR, Some (h, event))
           else mret (ret, None) : K (Z * option (href * Z)));
  upd_hlist l (set_hl_wait_event None);;
  event_destroy ev;;
  mret res.
End wait.
