(* ===== verification/Uctx.v ===== *)
(** * User contexts: lk/trusty/lib/trusty/uctx.c

    The handle table of an app (a bitmap of used slots and the slots), the
    operations the rest of the kernel uses on it, and the system calls that wait
    on handles, close them and set their cookies.  App [a] is the current one. *)

From stdpp Require Import base tactics list gmap.
From Stdlib Require Import ZArith Lia.
From S2P Require Import Prelude Bitmap Iovec MsgQueue Kernel Channel Handle.

Definition IPC_MAX_HANDLES : Z := 64.
Definition INVALID_HANDLE_ID : Z := 2 ^ 32 - 1.

(** ** The handle table *)

Definition check_handle_id (u : uctx) (handle_id : Z) : K Z :=
  if handle_id >=? IPC_MAX_HANDLES then mret ERR_BAD_HANDLE
  else if negb (bitmap_test (u_inuse u) handle_id) then mret ERR_NOT_FOUND
  else
    assert_ (bool_decide (is_Some (mjoin (u_handles u !! Z.to_nat handle_id))));;
    mret NO_ERROR.

Definition handle_to_id_locked (u : uctx) (h : href) : Z :=
  match list_find (fun o => o = Some h) (u_handles u) with
  | Some (i, _) => Z.of_nat i
  | None => INVALID_HANDLE_ID
  end.

Definition new_uctx (priv : Z) : uctx :=
  Uctx (replicate (Z.to_nat (BITMAP_NUM_WORDS IPC_MAX_HANDLES)) 0)
       (replicate (Z.to_nat IPC_MAX_HANDLES) None) priv.

Definition uctx_create (a priv : Z) : K Z :=
  ok ← kmalloc;
  if (ok : bool) then
    upd_app a (set_a_uctx (Some (new_uctx priv)));;
    handle_list_init a;;
    mret NO_ERROR
  else mret ERR_NO_MEMORY.

(** [_uctx_startup]: an app gets its context when it starts. *)
Definition uctx_startup (a : Z) : K Z :=
  err ← uctx_create a a;
  if negb (err =? 0) then mret err else mret NO_ERROR.

Definition uctx_destroy_slot (a : Z) (i : nat) : K unit :=
  u ← get_uctx a;
  match mjoin (u_handles u !! i) with
  | Some h =>
      handle_list_del a h;;
      handle_close h;;
      upd_uctx a (fun u => set_u_handles (<[i := None]> (u_handles u)) u)
  | None => mret tt
  end.

Definition uctx_destroy (a : Z) : K unit :=
  mfor (uctx_destroy_slot a) (seq 0 (Z.to_nat IPC_MAX_HANDLES));;
  upd_app a (set_a_uctx None).

Definition uctx_get_priv (a : Z) : K Z := u ← get_uctx a; mret (u_priv u).

Definition mt_uctx_get_inuse (a slot : Z) : K Z :=
  u ← get_uctx a;
  assert_ (slot <? BITMAP_NUM_WORDS IPC_MAX_HANDLES);;
  deref BadPointer (u_inuse u !! Z.to_nat slot).

(** The caller's reference to the handle is handed to the table: status and
    handle id. *)
Definition uctx_handle_install (a : Z) (h : href) : K (Z * Z) :=
  u ← get_uctx a;
  let new_id := bitmap_ffz (u_inuse u) IPC_MAX_HANDLES in
  if new_id <? 0 then mret (ERR_NO_RESOURCES, 0)
  else
    assert_ (bool_decide (mjoin (u_handles u !! Z.to_nat new_id) = None));;
    upd_uctx a (fun u => set_u_inuse (bitmap_set (u_inuse u) new_id) u);;
    upd_uctx a (fun u => set_u_handles (<[Z.to_nat new_id := Some h]> (u_handles u)) u);;
    handle_list_add a h;;
    mret (NO_ERROR, new_id).

Definition uctx_handle_get (a handle_id : Z) : K (Z * option href) :=
  u ← get_uctx a;
  ret ← check_handle_id u handle_id;
  if ret =? NO_ERROR then
    h ← deref NullDeref (mjoin (u_handles u !! Z.to_nat handle_id));
    handle_incref h;;
    mret (ret, Some h)
  else mret (ret, None).

Definition uctx_handle_remove (a handle_id : Z) : K (Z * option href) :=
  u ← get_uctx a;
  ret ← check_handle_id u handle_id;
  if ret =? NO_ERROR then
    h ← deref NullDeref (mjoin (u_handles u !! Z.to_nat handle_id));
    upd_uctx a (fun u => set_u_inuse (bitmap_clear (u_inuse u) handle_id) u);;
    upd_uctx a (fun u => set_u_handles (<[Z.to_nat handle_id := None]> (u_handles u)) u);;
    handle_list_del a h;;
    mret (ret, Some h)
  else mret (ret, None).

(** ** System calls *)

(** [uevent_t] as user space sees it. *)
Definition encode_uevent (handle event cookie : Z) : list Z :=
  le_bytes 4 handle ++ le_bytes 4 event ++ le_bytes 4 cookie.

Section syscalls.
Variable block : Z -> Z -> kstate -> Z * kstate.

Definition sys_wait (fuel : nat) (ev a handle_id user_event timeout_msecs : Z) : K Z :=
  '(ret, oh) ← uctx_handle_get a handle_id;
  if negb (ret =? NO_ERROR) then mret ret
  else
    h ← deref AssertFailed oh;
    '(ret, event) ← handle_wait block fuel ev h timeout_msecs;
    ret ← (if ret <? 0 then mret ret
           else
             (* got an event *)
             cookie ← handle_get_cookie h;
             status ← user_write a user_event (encode_uevent handle_id event cookie);
             mret (if status =? 0 then ret else status) : K Z);
    (* drop handle_ref grabed by uctx_handle_get *)
    handle_decref h;;
    mret ret.

Definition sys_wait_any (fuel : nat) (ev a user_event timeout_msecs : Z) : K Z :=
  '(ret, found) ← handle_list_wait block fuel ev a timeout_msecs;
  if ret <? 0 then mret ret
  else
    '(h, event) ← deref AssertFailed found;
    u ← get_uctx a;
    let id := handle_to_id_locked u h in
    cookie ← handle_get_cookie h;
    (* drop the reference that was taken by wait_any *)
    handle_decref h;;
    (* there should be a handle id *)
    assert_ (id <? IPC_MAX_HANDLES);;
    status ← user_write a user_event (encode_uevent id event cookie);
    mret (if status =? 0 then ret else status).

Definition sys_close (a handle_id : Z) : K Z :=
  '(ret, oh) ← uctx_handle_remove a handle_id;
  if negb (ret =? NO_ERROR) then mret ret
  else
    h ← deref NullDeref oh;
    handle_close h;;
    mret NO_ERROR.

Definition sys_set_cookie (a handle_id cookie : Z) : K Z :=
  '(ret, oh) ← uctx_handle_get a handle_id;
  if negb (ret =? NO_ERROR) then mret ret
  else
    h ← deref NullDeref oh;
    handle_set_cookie h cookie;;
    handle_decref h;;
    mret NO_ERROR.
End syscalls.
