(* ===== verification/Ipc.v ===== *)
(** * Ports and connections: lk/trusty/lib/trusty/ipc.c

    Creating and publishing ports, connecting to a path, accepting a pending
    connection, and the system calls [sys_port_create], [sys_connect] and
    [sys_accept].  A connection is a pair of channels, each the other's peer;
    the server side waits on the port's pending list until it is accepted, a
    client without a port waits on [waiting_for_port_chan_list]. *)

From stdpp Require Import base tactics list gmap.
From Stdlib Require Import ZArith Lia.
From S2P Require Import Prelude Iovec MsgQueue Kernel Channel Handle Uctx.

(** ** Strings *)

(** [arch_strlcpy_from_user] (usercopy.S) walks to the terminator, also past the
    end of the kernel buffer; a NUL or an unmapped address is met within as many
    steps as there are mapped bytes. *)
Fixpoint user_strlen_bytes (fuel : nat) (um : mem) (a : Z) : option (option cstring) :=
  match fuel with
  | O => None
  | S fuel' =>
      match um !! a with
      | None => Some None
      | Some b =>
          if b =? 0 then Some (Some [])
          else fmap (M := option) (fmap (M := option) (cons b)) (user_strlen_bytes fuel' um (u32 (a + 1)))
      end
  end.

(** Status or length, and the string the kernel buffer of [n] bytes holds. *)
Definition strncpy_from_user (a : Z) (usrc : Z) (n : Z) : K (Z * cstring) :=
  x ← get_app a;
  match user_strlen_bytes (S (size (a_umem x))) (a_umem x) usrc with
  | None => raise OutOfFuel
  | Some None => mret (ERR_FAULT, [])
  | Some (Some str) => mret (Z.of_nat (length str), take (Z.to_nat (n - 1)) str)
  end.

(** [strlcpy]: the length of the source, and the copy. *)
Definition strlcpy (src : cstring) (n : Z) : Z * cstring :=
  (Z.of_nat (length src), take (Z.to_nat (n - 1)) src).

(** ** Message queues of a connection *)

(** [ipc_msg_queue_create]: two allocations. *)
Definition ipc_msg_queue_create (num_items item_sz : Z) : K (Z * option msg_queue) :=
  ok ← kmalloc;
  if (ok : bool) then
    ok ← kmalloc;
    if (ok : bool) then
      junk ← gets k_junk;
      mret (NO_ERROR, Some (msg_queue_init num_items item_sz junk))
    else mret (ERR_NO_MEMORY, None)
  else mret (ERR_NO_MEMORY, None).

(** ** Ports *)

Definition ipc_port_create (sid : option uuid_ptr) (path : cstring)
    (num_recv_bufs recv_buf_size flags : Z) : K (Z * option href) :=
  match sid with
  | None => mret (ERR_INVALID_ARGS, None)
  | Some sid =>
      if (num_recv_bufs =? 0) || (num_recv_bufs >? IPC_CHAN_MAX_BUFS) ||
         (recv_buf_size =? 0) || (recv_buf_size >? IPC_CHAN_MAX_BUF_SIZE)
      then mret (ERR_INVALID_ARGS, None)
      else
        ok ← kmalloc;
        if (ok : bool) then
          let '(ret, copy) := strlcpy path IPC_PORT_PATH_MAX in
          if ret =? 0 then mret (ERR_INVALID_ARGS, None)
          else if ret >=? IPC_PORT_PATH_MAX then mret (ERR_TOO_BIG, None)
          else
            p ← fresh_addr;
            modify (put_port p (Port copy sid IPC_PORT_STATE_INVALID flags num_recv_bufs recv_buf_size
                                     zeroed_handle [] false));;
            handle_init (HPort p) ipc_port_handle_ops;;
            mret (NO_ERROR, Some (HPort p))
        else mret (ERR_NO_MEMORY, None)
  end.

Fixpoint port_find_loop (path : cstring) (l : list Z) : K (option Z) :=
  match l with
  | [] => mret None
  | p :: l' =>
      pt ← get_port p;
      if bool_decide (path = p_path pt) then mret (Some p) else port_find_loop path l'
  end.

Definition port_find_locked (path : cstring) : K (option Z) :=
  l ← gets ipc_port_list; port_find_loop path l.

Definition is_ns_client (uuid : uuid_ptr) : bool := bool_decide (uuid = zero_uuid).

Definition check_access (pt : port) (uuid : option uuid_ptr) : Z :=
  match uuid with
  | None => ERR_ACCESS_DENIED
  | Some uuid =>
      if is_ns_client uuid then
        if has_flag (p_flags pt) IPC_PORT_ALLOW_NS_CONNECT then NO_ERROR else ERR_ACCESS_DENIED
      else
        if has_flag (p_flags pt) IPC_PORT_ALLOW_TA_CONNECT then NO_ERROR else ERR_ACCESS_DENIED
  end.

(** The part of [port_attach_client] after both message queues exist. *)
Definition port_link_client (p client server : Z) : K unit :=
  upd_chan server (set_c_state IPC_CHAN_STATE_ACCEPTING);;
  upd_chan client (set_c_state IPC_CHAN_STATE_CONNECTING);;
  (* setup peer refs *)
  chan_add_ref server (peer_ref client);;
  upd_chan client (set_c_peer (Some server));;
  chan_add_ref client (peer_ref server);;
  upd_chan server (set_c_peer (Some client));;
  (* and add server channel to pending connection list *)
  chan_add_ref server (node_ref server);;
  upd_port p (fun x => set_p_pending (p_pending x ++ [server]) x);;
  upd_chan server (set_c_node (Some (PendingOn p)));;
  (* bump a ref to the port while there's a pending connection *)
  handle_incref (HPort p);;
  handle_notify (HPort p);;
  chan_del_ref server tmp_server_ref.

Definition port_attach_client (p client : Z) : K Z :=
  pt ← get_port p;
  if negb (bool_decide (p_state pt = IPC_PORT_STATE_LISTENING)) then mret ERR_NOT_READY
  else
    cl ← get_chan client;
    let ret := check_access pt (c_uuid cl) in
    if negb (ret =? NO_ERROR) then mret ret
    else
      os ← chan_alloc IPC_CHAN_FLAG_SERVER (Some (p_uuid pt)) tmp_server_ref;
      match os with
      | None => mret ERR_NO_MEMORY
      | Some server =>
          '(ret, mq) ← ipc_msg_queue_create (p_num_recv_bufs pt) (p_recv_buf_size pt);
          if negb (ret =? NO_ERROR) then
            chan_del_ref server tmp_server_ref;;
            mret ERR_NO_MEMORY
          else
            upd_chan client (set_c_msg_queue mq);;
            '(ret, mq) ← ipc_msg_queue_create (p_num_recv_bufs pt) (p_recv_buf_size pt);
            if negb (ret =? NO_ERROR) then
              upd_chan client (set_c_msg_queue None);;
              chan_del_ref server tmp_server_ref;;
              mret ERR_NO_MEMORY
            else
              upd_chan server (set_c_msg_queue mq);;
              port_link_client p client server;;
              mret NO_ERROR
      end.

(** Body of the loop of [ipc_port_publish] over the waiting clients. *)
Definition port_adopt_waiting (p client : Z) : K unit :=
  cl ← get_chan client;
  pt ← get_port p;
  path ← deref NullDeref (c_path cl);
  if negb (bool_decide (path = p_path pt)) then mret tt
  else
    upd_chan client (set_c_path None);;
    (* take it out of global pending list *)
    chan_add_ref client tmp_client_ref;;
    chan_node_delete client;;
    chan_del_ref client (node_ref client);;
    (* try to attach port *)
    err ← port_attach_client p client;
    when (negb (err =? 0)) (chan_shutdown_locked client);;
    chan_del_ref client tmp_client_ref.

Definition ipc_port_publish (h : href) : K Z :=
  x ← get_handle h;
  assert_ (ipc_is_port x);;
  match h with
  | HChan _ => raise BadPointer
  | HPort p =>
      pt ← get_port p;
      assert_ (negb (p_node pt));;
      dup ← port_find_locked (p_path pt);
      match dup with
      | Some _ => mret ERR_ALREADY_EXISTS
      | None =>
          upd_port p (set_p_state IPC_PORT_STATE_LISTENING);;
          modify (fun s => set_ipc_port_list (ipc_port_list s ++ [p]) s);;
          upd_port p (set_p_node true);;
          handle_incref (HPort p);;
          l ← gets waiting_for_port_chan_list;
          mfor (port_adopt_waiting p) l;;
          mret NO_ERROR
      end
  end.

Definition sys_port_create (a path num_recv_bufs recv_buf_size flags : Z) : K Z :=
  '(ret, tmp_path) ← strncpy_from_user a path IPC_PORT_PATH_MAX;
  if ret <? 0 then mret ret
  else if ret >=? IPC_PORT_PATH_MAX then mret ERR_INVALID_ARGS
  else
    '(ret, ph) ← ipc_port_create (Some (app_uuid a)) tmp_path num_recv_bufs recv_buf_size flags;
    if negb (ret =? NO_ERROR) then mret ret
    else
      h ← deref NullDeref ph;
      '(ret, handle_id) ← uctx_handle_install a h;
      if negb (ret =? NO_ERROR) then handle_decref h;; mret ret
      else
        ret ← ipc_port_publish h;
        if negb (ret =? NO_ERROR) then
          (* err_publish falls through to err_install *)
          '(_, oh) ← uctx_handle_remove a handle_id;
          handle_decref (default h oh);;
          mret ret
        else mret handle_id.

(** ** Connecting *)

Definition strnlen (path : cstring) (n : Z) : Z := Z.min (Z.of_nat (length path)) n.

Definition ipc_port_connect_async (cid : option uuid_ptr) (path : cstring) (max_path flags : Z) :
    K (Z * option href) :=
  match cid with
  | None => mret (ERR_INVALID_ARGS, None)
  | Some cid =>
      let len := strnlen path max_path in
      if (len =? 0) || (len >=? max_path) then mret (ERR_INVALID_ARGS, None)
      else
        oc ← chan_alloc 0 (Some cid) tmp_client_ref;
        match oc with
        | None => mret (ERR_NO_MEMORY, None)
        | Some client =>
            op ← port_find_locked path;
            ret ← (match op with
                   | Some p => port_attach_client p client
                   | None =>
                       if negb (has_flag flags IPC_CONNECT_WAIT_FOR_PORT) then mret ERR_NOT_FOUND
                       else
                         ok ← kmalloc;
                         if (ok : bool) then
                           upd_chan client (set_c_path (Some path));;
                           upd_chan client (set_c_state IPC_CHAN_STATE_WAITING_FOR_PORT);;
                           modify (fun s => set_waiting_for_port_chan_list
                                              (waiting_for_port_chan_list s ++ [client]) s);;
                           upd_chan client (set_c_node (Some WaitingForPort));;
                           chan_add_ref client (node_ref client);;
                           mret NO_ERROR
                         else mret ERR_NO_MEMORY
                   end : K Z);
            if negb (ret =? NO_ERROR) then
              chan_del_ref client tmp_client_ref;; mret (ret, None)
            else
              h ← chan_handle_init client;
              chan_del_ref client tmp_client_ref;;
              mret (NO_ERROR, Some h)
        end
  end.

(** ** Accepting *)

(** [list_remove_head_type(&port->pending_list, ipc_chan_t, node)] *)
Definition port_pop_pending (p : Z) : K (option Z) :=
  pt ← get_port p;
  match p_pending pt with
  | [] => mret None
  | server :: rest =>
      upd_port p (set_p_pending rest);;
      upd_chan server (set_c_node None);;
      mret (Some server)
  end.

Definition ipc_port_accept (h : href) : K (Z * option (href * option uuid_ptr)) :=
  x ← get_handle h;
  match h with
  | HChan _ => mret (ERR_INVALID_ARGS, None)
  | HPort p =>
      if negb (ipc_is_port x) then mret (ERR_INVALID_ARGS, None)
      else
        pt ← get_port p;
        if negb (bool_decide (p_state pt = IPC_PORT_STATE_LISTENING)) then mret (ERR_CHANNEL_CLOSED, None)
        else
          os ← port_pop_pending p;
          match os with
          | None => mret (ERR_NO_MSG, None)
          | Some server =>
              sv ← get_chan server;
              assert_ (has_flag (c_flags sv) IPC_CHAN_FLAG_SERVER);;
              chan_add_ref server tmp_server_ref;;
              chan_del_ref server (node_ref server);;
              (* drop the ref to port we took in connect() *)
              handle_decref (HPort p);;
              sv ← get_chan server;
              ready ← (match c_peer sv with
                       | None => mret None
                       | Some client =>
                           if negb (bool_decide (c_state sv = IPC_CHAN_STATE_ACCEPTING)) then mret None
                           else
                             cl ← get_chan client;
                             if negb (bool_decide (c_state cl = IPC_CHAN_STATE_CONNECTING)) then mret None
                             else mret (Some client)
                       end : K (option Z));
              match ready with
              | None =>
                  chan_shutdown_locked server;;
                  chan_del_ref server tmp_server_ref;;
                  mret (ERR_CHANNEL_CLOSED, None)
              | Some client =>
                  upd_chan server (set_c_state IPC_CHAN_STATE_CONNECTED);;
                  upd_chan client (set_c_state IPC_CHAN_STATE_CONNECTED);;
                  upd_chan client (fun c => set_c_aux_state (set_flag (c_aux_state c) IPC_CHAN_AUX_STATE_CONNECTED) c);;
                  ch ← chan_handle_init server;
                  cl ← get_chan client;
                  handle_notify (HChan client);;
                  chan_del_ref server tmp_server_ref;;
                  mret (NO_ERROR, Some (ch, c_uuid cl))
              end
          end
  end.

(** The 16 bytes a [uuid_t *] points to. *)
Definition uuid_bytes (u : option uuid_ptr) : K (list Z) :=
  match u with
  | None => raise NullDeref
  | Some zero_uuid => mret (replicate 16 0)
  | Some (app_uuid b) => x ← get_app b; mret (a_uuid x)
  end.

Definition sys_accept (a handle_id user_uuid : Z) : K Z :=
  '(ret, oh) ← uctx_handle_get a handle_id;
  if negb (ret =? NO_ERROR) then mret ret
  else
    ph ← deref NullDeref oh;
    '(ret, acc) ← ipc_port_accept ph;
    if negb (ret =? NO_ERROR) then handle_decref ph;; mret ret
    else
      '(ch, peer_uuid) ← deref NullDeref acc;
      '(ret, new_id) ← uctx_handle_install a ch;
      if negb (ret =? NO_ERROR) then
        handle_close ch;; handle_decref ph;; mret ret
      else
        bs ← uuid_bytes peer_uuid;
        ret ← user_write a user_uuid bs;
        if negb (ret =? NO_ERROR) then
          '(_, och) ← uctx_handle_remove a new_id;
          handle_close (default ch och);;
          handle_decref ph;;
          mret ret
        else
          handle_decref ph;;
          mret new_id.

Section connect.
Variable block : Z -> Z -> kstate -> Z * kstate.

Definition INFINITE_TIME : Z := 2 ^ 32 - 1.
Definition DEFAULT_IPC_CONNECT_WARN_TIMEOUT : Z := INFINITE_TIME.

Definition sys_connect (fuel : nat) (ev a path flags : Z) : K Z :=
  if negb (Z.ldiff flags IPC_CONNECT_MASK =? 0) then mret ERR_INVALID_ARGS
  else
    '(ret, tmp_path) ← strncpy_from_user a path IPC_PORT_PATH_MAX;
    if ret <? 0 then mret ret
    else if ret >=? IPC_PORT_PATH_MAX then mret ERR_INVALID_ARGS
    else
      '(ret, och) ← ipc_port_connect_async (Some (app_uuid a)) tmp_path IPC_PORT_PATH_MAX flags;
      if negb (ret =? NO_ERROR) then mret ret
      else
        ch ← deref NullDeref och;
        (* [Some e]: the channel is closed and [e] returned *)
        fail ← (if has_flag flags IPC_CONNECT_ASYNC then mret None
                else
                  r ← handle_wait block fuel ev ch DEFAULT_IPC_CONNECT_WARN_TIMEOUT;
                  '(ret, event) ← (if r.1 =? ERR_TIMED_OUT
                                   then handle_wait block fuel ev ch INFINITE_TIME
                                   else mret r);
                  mret (if ret <? 0 then Some ret
                        else if has_flag event IPC_HANDLE_POLL_HUP && negb (has_flag event IPC_HANDLE_POLL_MSG)
                             then Some ERR_CHANNEL_CLOSED
                        else if negb (has_flag event IPC_HANDLE_POLL_READY) then Some ERR_NOT_READY
                        else None) : K (option Z));
        match fail with
        | Some e => handle_close ch;; mret e
        | None =>
            '(ret, handle_id) ← uctx_handle_install a ch;
            if negb (ret =? NO_ERROR) then handle_close ch;; mret ret
            else mret handle_id
        end.
End connect.
