(* ===== verification/IpcMsg.v ===== *)
(** * Messages over channels: lk/trusty/lib/trusty/ipc_msg.c

    Sending to the peer's queue, fetching, reading and retiring messages of the
    own queue, for a user caller (the [sys_*] calls of app [a]) and for a kernel
    caller (the [ipc_*] routines), with the send-blocked handshake between the
    two ends.  Each runs under [ipc_lock]. *)

From stdpp Require Import base tactics list gmap.
From Stdlib Require Import ZArith Lia.
From S2P Require Import Prelude Iovec MsgQueue Kernel Channel Handle Uctx Ipc.

Definition check_channel_locked (h : href) : K Z :=
  x ← get_handle h;
  mret (if ipc_is_channel x then NO_ERROR else ERR_INVALID_ARGS).

(** [containerof(chandle, ipc_chan_t, handle)] *)
Definition chan_of (h : href) : K Z :=
  match h with HChan c => mret c | HPort _ => raise BadPointer end.

Definition check_channel_connected_locked (h : href) : K Z :=
  ret ← check_channel_locked h;
  if negb (ret =? NO_ERROR) then mret ret
  else
    c ← chan_of h;
    ch ← get_chan c;
    if bool_decide (c_state ch = IPC_CHAN_STATE_CONNECTED) then
      assert_ (bool_decide (is_Some (c_peer ch)));; mret NO_ERROR
    else if bool_decide (c_state ch = IPC_CHAN_STATE_DISCONNECTING) then mret ERR_CHANNEL_CLOSED
    else mret ERR_NOT_READY.

(** The memories a message of app [a] or of the kernel is copied from and to. *)
Definition get_mems (a : option Z) : K mems :=
  km ← gets k_kmem;
  match a with
  | None => mret (Mems km ∅)
  | Some a => x ← get_app a; mret (Mems km (a_umem x))
  end.

Definition put_mems (a : option Z) (ms : mems) : K unit :=
  modify (set_k_kmem (m_kern ms));;
  match a with
  | None => mret tt
  | Some a => upd_app a (set_a_umem (m_user ms))
  end.

Definition get_queue (c : Z) : K msg_queue := ch ← get_chan c; deref NullDeref (c_msg_queue ch).
Definition put_queue (c : Z) (q : msg_queue) : K unit := upd_chan c (set_c_msg_queue (Some q)).

Definition msg_write_locked (a : option Z) (c : Z) (msg : msg_desc) : K Z :=
  ch ← get_chan c;
  peer ← deref NullDeref (c_peer ch);
  q ← get_queue peer;
  ms ← get_mems a;
  match msg_write ms q msg with
  | WriteFault => raise BadPointer
  | WriteFull =>
      upd_chan c (fun x => set_c_aux_state (set_flag (c_aux_state x) IPC_CHAN_AUX_STATE_SEND_BLOCKED) x);;
      mret ERR_NOT_ENOUGH_BUFFER
  | WriteDone ret q' => put_queue peer q';; mret ret
  end.

Definition msg_read_locked (a : option Z) (c msg_id offset : Z) (msg : msg_desc) : K Z :=
  q ← get_queue c;
  ms ← get_mems a;
  '(ret, ms') ← deref BadPointer (msg_read ms q msg_id offset msg);
  put_mems a ms';;
  mret ret.

Definition msg_get_filled_locked (c : Z) : K unit :=
  q ← get_queue c;
  q' ← deref AssertFailed (msg_get_filled q);
  put_queue c q'.

Definition msg_put_read_locked (c msg_id : Z) : K Z :=
  ch ← get_chan c;
  q ← deref AssertFailed (c_msg_queue ch);
  match msg_put_read q msg_id with
  | None => mret ERR_INVALID_ARGS
  | Some q' =>
      put_queue c q';;
      match c_peer ch with
      | None => mret NO_ERROR
      | Some peer =>
          pc ← get_chan peer;
          when (has_flag (c_aux_state pc) IPC_CHAN_AUX_STATE_SEND_BLOCKED)
            (upd_chan peer (fun x => set_c_aux_state (clear_flag (c_aux_state x) IPC_CHAN_AUX_STATE_SEND_BLOCKED) x);;
             upd_chan peer (fun x => set_c_aux_state (set_flag (c_aux_state x) IPC_CHAN_AUX_STATE_SEND_UNBLOCKED) x);;
             handle_notify (HChan peer));;
          mret NO_ERROR
      end
  end.

(** ** Sending *)

(** The part of [sys_send_msg] and [ipc_send_msg] under the lock. *)
Definition send_msg_locked (a : option Z) (h : href) (msg : msg_desc) : K Z :=
  ret ← check_channel_connected_locked h;
  if negb (ret =? NO_ERROR) then mret ret
  else
    c ← chan_of h;
    ret ← msg_write_locked a c msg;
    (if ret >=? 0 then
       ch ← get_chan c;
       peer ← deref NullDeref (c_peer ch);
       handle_notify (HChan peer)
     else mret tt);;
    mret ret.

(** [ipc_msg_user_t]: [num_iov], [iov], [num_handles], [handles], 32 bits each. *)
Definition sizeof_ipc_msg_user : nat := 16.
Definition decode_msg_user (bs : list Z) : msg_desc :=
  MsgUser (field32 4 bs) (field32 0 bs) (field32 8 bs).

Definition sys_send_msg (a handle_id user_msg : Z) : K Z :=
  '(ret, bs) ← user_read a user_msg sizeof_ipc_msg_user;
  if negb (ret =? NO_ERROR) then mret ret
  else
    '(ret, oh) ← uctx_handle_get a handle_id;
    if negb (ret =? NO_ERROR) then mret ret
    else
      h ← deref NullDeref oh;
      ret ← send_msg_locked (Some a) h (decode_msg_user bs);
      handle_decref h;;
      mret ret.

(** [ipc_msg_kern_t]: the vector, its length and the number of handles. *)
Record ipc_msg_kern := IpcMsgKern {
  km_num_iov : Z;
  km_iov : option (list iovec_kern);
  km_num_handles : Z;
}.

Definition kern_desc (m : ipc_msg_kern) : msg_desc := MsgKern (km_iov m) (km_num_iov m) (km_num_handles m).

Definition ipc_send_msg (h : href) (msg : option ipc_msg_kern) : K Z :=
  match msg with
  | None => mret ERR_INVALID_ARGS
  | Some m => send_msg_locked None h (kern_desc m)
  end.

(** ** Fetching *)

Definition encode_msg_info (len id : Z) : list Z := le_bytes 4 len ++ le_bytes 4 id.

(** Fetch for a user: the message stays queued when its description cannot be
    copied out. *)
Definition sys_get_msg (a handle_id user_msg_info : Z) : K Z :=
  '(ret, oh) ← uctx_handle_get a handle_id;
  if negb (ret =? NO_ERROR) then mret ret
  else
    h ← deref NullDeref oh;
    ret ← check_channel_locked h;
    ret ← (if negb (ret =? NO_ERROR) then mret ret
           else
             c ← chan_of h;
             q ← get_queue c;
             match msg_peek_next_filled q with
             | None => mret ERR_NO_MSG
             | Some (len, id) =>
                 ret ← user_write a user_msg_info (encode_msg_info len id);
                 if ret =? NO_ERROR then msg_get_filled_locked c;; mret ret else mret ret
             end : K Z);
    handle_decref h;;
    mret ret.

Definition ipc_get_msg (h : href) : K (Z * option (Z * Z)) :=
  ret ← check_channel_locked h;
  if negb (ret =? NO_ERROR) then mret (ret, None)
  else
    c ← chan_of h;
    q ← get_queue c;
    match msg_peek_next_filled q with
    | None => mret (ERR_NO_MSG, None)
    | Some info => msg_get_filled_locked c;; mret (NO_ERROR, Some info)
    end.

(** ** Retiring *)

Definition ipc_put_msg (h : href) (msg_id : Z) : K Z :=
  ret ← check_channel_locked h;
  if negb (ret =? NO_ERROR) then mret ret
  else c ← chan_of h; msg_put_read_locked c msg_id.

Definition sys_put_msg (a handle_id msg_id : Z) : K Z :=
  '(ret, oh) ← uctx_handle_get a handle_id;
  if negb (ret =? NO_ERROR) then mret ret
  else
    h ← deref NullDeref oh;
    ret ← ipc_put_msg h msg_id;
    handle_decref h;;
    mret ret.

(** ** Reading *)

Definition read_msg_locked (a : option Z) (h : href) (msg_id offset : Z) (msg : msg_desc) : K Z :=
  ret ← check_channel_locked h;
  if negb (ret =? NO_ERROR) then mret ret
  else c ← chan_of h; msg_read_locked a c msg_id offset msg.

Definition sys_read_msg (a handle_id msg_id offset user_msg : Z) : K Z :=
  '(ret, bs) ← user_read a user_msg sizeof_ipc_msg_user;
  if negb (ret =? NO_ERROR) then mret ret
  else
    '(ret, oh) ← uctx_handle_get a handle_id;
    if negb (ret =? NO_ERROR) then mret ret
    else
      h ← deref NullDeref oh;
      ret ← read_msg_locked (Some a) h msg_id offset (decode_msg_user bs);
      handle_decref h;;
      mret ret.

Definition ipc_read_msg (h : href) (msg_id offset : Z) (msg : option ipc_msg_kern) : K Z :=
  match msg with
  | None => mret ERR_INVALID_ARGS
  | Some m => read_msg_locked None h msg_id offset (kern_desc m)
  end.
