(* ===== verification/IpcInv.v ===== *)
(** * The invariant of the IPC objects

    What makes ports, channels, handles and handle tables consistent: every
    reference count equals the references that exist, the nodes on a channel's
    reference list are exactly those its fields and its peer account for, the
    intrusive lists and the fields that name them agree, and a channel that has
    a peer is owned by somebody who will shut it down.  From it follow the absence
    of failed assertions, NULL dereferences and uses of freed objects in every
    routine below (the [wp] of a routine excludes all of them).

    A routine in the middle of its work holds references of its own; the ghost
    state names them: [g_ov] the [obj_ref] nodes on its stack, [g_own] the handle
    references it must eventually close or hand over, [g_bor] the ones it will
    only drop. *)

From stdpp Require Import base tactics list gmap.
From Stdlib Require Import ZArith Lia.
From S2P Require Import Prelude Bitmap Iovec MsgQueue Kernel Channel Handle Uctx Ipc IpcMsg.

Record ghost := Ghost {
  g_ov : gmap obj_ref Z;
  g_own : list href;
  g_bor : list href;
}.

Definition g_idle : ghost := Ghost ∅ [] [].

(** ** Views of the state *)

Definition hview (s : kstate) (h : href) : option handle :=
  match h with
  | HPort p => p_handle <$> k_ports s !! p
  | HChan c => c_handle <$> k_chans s !! c
  end.

(** The list a live handle is on. *)
Definition hl_of (s : kstate) (h : href) : option Z := hview s h ≫= h_hlist.

(** Is [l] the handle list of an app's context? *)
Definition has_uctx (s : kstate) (l : Z) : bool :=
  bool_decide (is_Some (k_apps s !! l ≫= a_uctx)).

(** How often [h] occurs among the references [l]. *)
Fixpoint cnt (h : href) (l : list href) : Z :=
  match l with
  | [] => 0
  | x :: l' => (if decide (x = h) then 1 else 0) + cnt h l'
  end.

(** A handle list holds one reference; a table slot holds another. *)
Definition list_refs (hu : Z -> bool) (o : option Z) : Z :=
  match o with
  | None => 0
  | Some l => if hu l then 2 else 1
  end.

(** The node that the fields say is linked, and on whose list. *)
Definition field_ref (s : kstate) (r : obj_ref) : option Z :=
  match r with
  | node_ref c => ch ← k_chans s !! c; (fun _ => c) <$> c_node ch
  | handle_ref c => ch ← k_chans s !! c; if 0 <? h_refcnt (c_handle ch) then Some c else None
  | peer_ref c => ch ← k_chans s !! c; c_peer ch
  | tmp_client_ref | tmp_server_ref => None
  end.

Definition ref_of (s : kstate) (g : ghost) (r : obj_ref) : option Z :=
  match g_ov g !! r with
  | Some c => Some c
  | None => field_ref s r
  end.

(** A routine has a node of its own on the channel's list. *)
Definition pinned (g : ghost) (c : Z) : Prop := exists r, g_ov g !! r = Some c.

(** Somebody will shut the channel down: a port it is pending on, the holder of
    its handle, or the running routine. *)
Definition owned (hu : Z -> bool) (g : ghost) (c : Z) (ch : chan) : Prop :=
  (exists p, c_node ch = Some (PendingOn p)) \/
  HChan c ∈ g_own g \/
  (exists l, h_hlist (c_handle ch) = Some l /\ hu l = true) \/
  pinned g c.

(** ** One channel, one port *)

Definition state_ok (g : ghost) (c : Z) (ch : chan) : Prop :=
  match c_state ch with
  | IPC_CHAN_STATE_INVALID => c_peer ch = None /\ c_node ch = None
  | IPC_CHAN_STATE_ACCEPTING | IPC_CHAN_STATE_CONNECTING | IPC_CHAN_STATE_CONNECTED => is_Some (c_peer ch)
  | IPC_CHAN_STATE_DISCONNECTING => True
  | IPC_CHAN_STATE_WAITING_FOR_PORT =>
      (c_peer ch = None /\ c_msg_queue ch = None) /\ (c_node ch = Some WaitingForPort \/ pinned g c)
  end.

Definition node_ok (ch : chan) : Prop :=
  match c_node ch with
  | None => True
  | Some WaitingForPort => c_state ch = IPC_CHAN_STATE_WAITING_FOR_PORT /\ is_Some (c_path ch)
  | Some (PendingOn p) =>
      has_flag (c_flags ch) IPC_CHAN_FLAG_SERVER = true /\ h_refcnt (c_handle ch) = 0 /\
      (c_state ch = IPC_CHAN_STATE_ACCEPTING \/ c_state ch = IPC_CHAN_STATE_DISCONNECTING)
  end.

Record chan_ok (hu : Z -> bool) (g : ghost) (c : Z) (ch : chan) : Prop := {
  co_refcnt : h_refcnt (c_handle ch) =
    cnt (HChan c) (g_own g) + cnt (HChan c) (g_bor g) + list_refs hu (h_hlist (c_handle ch));
  co_ops : 0 < h_refcnt (c_handle ch) -> h_ops (c_handle ch) = Some ipc_chan_handle_ops;
  co_peer : is_Some (c_peer ch) -> is_Some (c_msg_queue ch) /\ owned hu g c ch;
  co_state : state_ok g c ch;
  co_node : node_ok ch;
  co_queue : forall q, c_msg_queue ch = Some q -> mq_wf q;
  co_wait : c_state ch = IPC_CHAN_STATE_WAITING_FOR_PORT -> owned hu g c ch;
}.

Record port_ok (hu : Z -> bool) (g : ghost) (p : Z) (pt : port) : Prop := {
  po_refcnt : h_refcnt (p_handle pt) =
    cnt (HPort p) (g_own g) + cnt (HPort p) (g_bor g) + list_refs hu (h_hlist (p_handle pt)) +
    (if p_node pt then 1 else 0) + Z.of_nat (length (p_pending pt));
  po_live : 0 < h_refcnt (p_handle pt);
  po_ops : h_ops (p_handle pt) = Some ipc_port_handle_ops;
  po_nodup : NoDup (p_pending pt);
  po_bufs : 0 < p_num_recv_bufs pt <= IPC_CHAN_MAX_BUFS /\ 0 < p_recv_buf_size pt <= IPC_CHAN_MAX_BUF_SIZE;
}.

(** ** Handle tables *)

Record table_ok (u : uctx) : Prop := {
  tb_inuse_len : length (u_inuse u) = 2%nat;
  tb_words : Forall (fun w => 0 <= w < 2 ^ 32) (u_inuse u);
  tb_len : length (u_handles u) = 64%nat;
  tb_inuse : forall i, 0 <= i < 64 ->
    bitmap_test (u_inuse u) i = true <-> exists h, u_handles u !! Z.to_nat i = Some (Some h);
  tb_inj : forall i j h, u_handles u !! i = Some (Some h) -> u_handles u !! j = Some (Some h) -> i = j;
}.

(** [hl] says on which list each live handle is. *)
Record tabs_ok (hl : href -> option Z) (apps : gmap Z app) (hlists : gmap Z handle_list) : Prop := {
  ta_nodup : forall l x, hlists !! l = Some x -> NoDup (hl_handles x);
  ta_list : forall l x h, hlists !! l = Some x -> h ∈ hl_handles x <-> hl h = Some l;
  ta_some : forall h l, hl h = Some l -> is_Some (hlists !! l);
  ta_table : forall a x u, apps !! a = Some x -> a_uctx x = Some u ->
    table_ok u /\ is_Some (hlists !! a) /\
    forall h, hl h = Some a <-> exists i, u_handles u !! i = Some (Some h);
}.

(** ** The invariant *)

Record Inv (g : ghost) (s : kstate) : Prop := {
  i_chan : forall c ch, k_chans s !! c = Some ch -> chan_ok (has_uctx s) g c ch;
  i_port : forall p pt, k_ports s !! p = Some pt -> port_ok (has_uctx s) g p pt;
  i_refs : forall r, k_refs s !! r = ref_of s g r;
  i_ov : forall r c, g_ov g !! r = Some c -> field_ref s r = None /\ is_Some (k_chans s !! c);
  i_held : forall c, is_Some (k_chans s !! c) -> exists r, k_refs s !! r = Some c;
  i_peer : forall c ch pc, k_chans s !! c = Some ch -> c_peer ch = Some pc ->
    pc <> c /\ exists pch, k_chans s !! pc = Some pch /\ is_Some (c_msg_queue pch) /\
    (c_peer pch = None \/ c_peer pch = Some c);
  i_pend : forall p c, (exists pt, k_ports s !! p = Some pt /\ c ∈ p_pending pt) <->
                  (exists ch, k_chans s !! c = Some ch /\ c_node ch = Some (PendingOn p));
  i_wait : NoDup (waiting_for_port_chan_list s) /\
    forall c, c ∈ waiting_for_port_chan_list s <-> exists ch, k_chans s !! c = Some ch /\ c_node ch = Some WaitingForPort;
  i_plist : NoDup (ipc_port_list s) /\
    forall p, p ∈ ipc_port_list s <-> exists pt, k_ports s !! p = Some pt /\ p_node pt = true;
  i_ext : forall h, h ∈ g_own g ++ g_bor g -> is_Some (hview s h);
  i_fresh : (forall c, is_Some (k_chans s !! c) -> c < k_next s) /\ (forall p, is_Some (k_ports s !! p) -> p < k_next s);
  i_tabs : tabs_ok (hl_of s) (k_apps s) (k_hlists s);
}.

(** ** Counting references *)

Lemma cnt_nonneg h l : 0 <= cnt h l.
Proof. induction l; cbn; [done|]. destruct (decide _); lia. Qed.

Lemma cnt_elem h l : h ∈ l <-> 0 < cnt h l.
Proof.
  induction l as [|x l IH]; cbn; [by rewrite elem_of_nil|].
  rewrite elem_of_cons, IH. pose proof (cnt_nonneg h l). destruct (decide (x = h)) as [->|]; [intuition lia|].
  intuition congruence || (intuition (subst; congruence || lia)).
Qed.

Lemma cnt_app h l1 l2 : cnt h (l1 ++ l2) = cnt h l1 + cnt h l2.
Proof. induction l1; cbn; [done|]. lia. Qed.

(** [g'] holds the same references as [g], except to [h]. *)
Definition g_but (h : href) (g g' : ghost) : Prop :=
  g_ov g' = g_ov g /\
  forall h', h' <> h -> cnt h' (g_own g') = cnt h' (g_own g) /\ cnt h' (g_bor g') = cnt h' (g_bor g).

Lemma g_but_refl h g : g_but h g g.
Proof. by split. Qed.

Lemma g_but_ext h g g' h' : g_but h g g' -> h' ∈ g_own g' ++ g_bor g' -> h' <> h -> h' ∈ g_own g ++ g_bor g.
Proof. intros [_ Hb] Hin Hne. destruct (Hb h' Hne) as [E1 E2]. rewrite elem_of_app, !cnt_elem in *. lia. Qed.

Lemma g_but_owned h hu g g' c ch : g_but h g g' -> h <> HChan c -> owned hu g c ch -> owned hu g' c ch.
Proof.
  intros [Ho Hb] Hne [?|[?|[?|[r ?]]]]; unfold owned; [by left| |by right; right; left|].
  - right; left. apply cnt_elem. destruct (Hb (HChan c)) as [-> _]; [done|]. by apply cnt_elem.
  - right; right; right. exists r. by rewrite Ho.
Qed.

Lemma chan_ok_but hu g g' h c ch : g_but h g g' -> h <> HChan c -> chan_ok hu g c ch -> chan_ok hu g' c ch.
Proof.
  intros Hb Hne [H1 H2 H3 H4 H5 H6 H7]. split; try done.
  - destruct Hb as [_ Hb]. destruct (Hb (HChan c)) as [-> ->]; [done|]. done.
  - intros Hp. destruct (H3 Hp). split; [done|]. by eapply g_but_owned.
  - unfold state_ok in *. destruct (c_state ch); try done. destruct H4 as [? [?|[r ?]]]; split; auto.
    right. exists r. destruct Hb as [-> _]. done.
  - intros E. eapply g_but_owned; eauto.
Qed.

Lemma port_ok_but hu g g' h p pt : g_but h g g' -> h <> HPort p -> port_ok hu g p pt -> port_ok hu g' p pt.
Proof.
  intros [_ Hb] Hne [H1 H2 H3 H4 H5]. split; try done. destruct (Hb (HPort p)) as [-> ->]; done.
Qed.

(** ** Updates that leave the links alone *)

(** The fields other objects depend on are unchanged. *)
Definition chan_same_links (ch ch' : chan) : Prop :=
  c_peer ch' = c_peer ch /\ c_node ch' = c_node ch /\
  (0 <? h_refcnt (c_handle ch')) = (0 <? h_refcnt (c_handle ch)) /\
  h_hlist (c_handle ch') = h_hlist (c_handle ch) /\
  (is_Some (c_msg_queue ch) -> is_Some (c_msg_queue ch')).

Lemma hview_put_chan s c ch h :
  hview (put_chan c ch s) h = if decide (h = HChan c) then Some (c_handle ch) else hview s h.
Proof.
  destruct h as [p|c']; cbn; [done|]. destruct (decide (HChan c' = HChan c)) as [[= ->]|Hne].
  - by rewrite lookup_insert_eq.
  - rewrite lookup_insert_ne by congruence. done.
Qed.

Lemma hview_put_port s p pt h :
  hview (put_port p pt s) h = if decide (h = HPort p) then Some (p_handle pt) else hview s h.
Proof.
  destruct h as [p'|c]; cbn; [|done]. destruct (decide (HPort p' = HPort p)) as [[= ->]|Hne].
  - by rewrite lookup_insert_eq.
  - rewrite lookup_insert_ne by congruence. done.
Qed.

Lemma field_ref_put_chan s c ch ch' r :
  k_chans s !! c = Some ch -> chan_same_links ch ch' -> field_ref (put_chan c ch' s) r = field_ref s r.
Proof.
  intros Hc (Hp & Hn & Hr & _ & _). destruct r as [c'|c'|c'| |]; cbn; try done;
    (destruct (decide (c' = c)) as [->|]; [rewrite lookup_insert_eq, Hc; cbn|by rewrite lookup_insert_ne by done]).
  - by rewrite Hn.
  - by rewrite Hr.
  - done.
Qed.

Lemma tabs_ok_ext hl hl' apps hlists :
  (forall h, hl' h = hl h) -> tabs_ok hl apps hlists -> tabs_ok hl' apps hlists.
Proof.
  intros E [H1 H2 H3 H4]. split; [done| | |].
  - intros. rewrite E. eauto.
  - intros h l. rewrite E. eauto.
  - intros a x u Ha Hu. destruct (H4 a x u Ha Hu) as (? & ? & H). split; [done|]. split; [done|].
    intros h. by rewrite E.
Qed.

(** Look up in an updated map. *)
Ltac map_cases H c c' :=
  destruct (decide (c' = c)) as [->|?];
  [rewrite lookup_insert_eq in H; simplify_eq|rewrite lookup_insert_ne in H by done].

(** What an update of a channel's other fields leaves of the lists. *)
Definition lists_ok (s : kstate) : Prop :=
  (forall p c, (exists pt, k_ports s !! p = Some pt /\ c ∈ p_pending pt) <->
          (exists ch, k_chans s !! c = Some ch /\ c_node ch = Some (PendingOn p))) /\
  (NoDup (waiting_for_port_chan_list s) /\
   forall c, c ∈ waiting_for_port_chan_list s <-> exists ch, k_chans s !! c = Some ch /\ c_node ch = Some WaitingForPort) /\
  (NoDup (ipc_port_list s) /\
   forall p, p ∈ ipc_port_list s <-> exists pt, k_ports s !! p = Some pt /\ p_node pt = true) /\
  ((forall c, is_Some (k_chans s !! c) -> c < k_next s) /\ (forall p, is_Some (k_ports s !! p) -> p < k_next s)) /\
  tabs_ok (hl_of s) (k_apps s) (k_hlists s).

Lemma Inv_lists g s : Inv g s -> lists_ok s.
Proof. intros []. unfold lists_ok. auto 10. Qed.

Lemma put_chan_lists s c ch ch' :
  lists_ok s -> k_chans s !! c = Some ch -> c_node ch' = c_node ch ->
  h_hlist (c_handle ch') = h_hlist (c_handle ch) -> lists_ok (put_chan c ch' s).
Proof.
  intros (Hpd & [Hwn Hw] & Hpl & [Hf1 Hf2] & Ht) Hc Hn Hh.
  assert (forall c' n, (exists x, k_chans (put_chan c ch' s) !! c' = Some x /\ c_node x = n) <->
                  (exists x, k_chans s !! c' = Some x /\ c_node x = n)) as Hiff.
  { intros c' n. cbn. destruct (decide (c' = c)) as [->|]; [|by rewrite lookup_insert_ne by done].
    rewrite lookup_insert_eq, Hc. split; intros (x & ? & ?); simplify_eq; eexists; split; try done; congruence. }
  split; [|split; [|split; [|split]]].
  - intros p c'. rewrite Hiff. apply Hpd.
  - split; [done|]. intros c'. rewrite Hiff. apply Hw.
  - done.
  - split; [|done]. cbn. intros c'. rewrite lookup_insert_is_Some. intros [<-|[_ ?]]; eauto.
  - eapply tabs_ok_ext; [|done]. intros h. unfold hl_of. rewrite hview_put_chan. destruct (decide _) as [->|]; [|done].
    cbn. by rewrite Hc, Hh.
Qed.

Lemma Inv_put_chan g g' s c ch ch' :
  Inv g s -> k_chans s !! c = Some ch -> chan_same_links ch ch' -> g_but (HChan c) g g' ->
  chan_ok (has_uctx s) g' c ch' -> Inv g' (put_chan c ch' s).
Proof.
  intros HI Hc Hl Hg Hok. pose proof (field_ref_put_chan s c ch ch') as Hf.
  pose proof Hl as (Hp & Hn & Hr & Hh & Hq).
  pose proof (put_chan_lists s c ch ch' (Inv_lists g s HI) Hc Hn Hh) as HL. destruct HI. split; cbn.
  - intros c' x Hx. map_cases Hx c c'; [done|]. eapply chan_ok_but; [done| |by apply i_chan0]. congruence.
  - intros p pt Hpt. eapply port_ok_but; [done|done|by apply i_port0].
  - intros r. rewrite i_refs0. unfold ref_of. destruct Hg as [-> _]. destruct (g_ov g !! r); [done|]. by rewrite Hf.
  - intros r c'. destruct Hg as [-> _]. intros Ho. destruct (i_ov0 r c' Ho) as [? ?]. rewrite Hf by done. split; [done|].
    rewrite lookup_insert_is_Some. destruct (decide (c = c')); auto.
  - intros c'. rewrite lookup_insert_is_Some. intros [<-|[_ ?]]; eauto.
  - intros c1 x pc Hx Hpc.
    assert (exists x0, k_chans s !! c1 = Some x0 /\ c_peer x0 = Some pc) as (x0 & Hx0 & Hpc0).
    { map_cases Hx c c1; [|eauto]. exists ch. split; [done|]. congruence. }
    destruct (i_peer0 _ _ _ Hx0 Hpc0) as (Hne & pch & Hpch & Hq' & Hpp). split; [done|].
    destruct (decide (pc = c)) as [->|].
    + exists ch'. rewrite lookup_insert_eq. simplify_eq. rewrite Hp. auto.
    + exists pch. by rewrite lookup_insert_ne by done.
  - apply HL.
  - apply HL.
  - apply HL.
  - intros h Hin. rewrite hview_put_chan. destruct (decide _) as [|Hne]; [done|]. apply i_ext0. by eapply g_but_ext.
  - apply HL.
  - apply HL.
Qed.

Definition port_same_links (pt pt' : port) : Prop :=
  p_pending pt' = p_pending pt /\ p_node pt' = p_node pt /\ h_hlist (p_handle pt') = h_hlist (p_handle pt).

Lemma Inv_put_port g g' s p pt pt' :
  Inv g s -> k_ports s !! p = Some pt -> port_same_links pt pt' -> g_but (HPort p) g g' ->
  port_ok (has_uctx s) g' p pt' -> Inv g' (put_port p pt' s).
Proof.
  intros HI Hp (Hpd & Hn & Hh) Hg Hok. destruct HI. split; cbn; try done.
  - intros c x Hx. eapply chan_ok_but; [done| |by apply i_chan0]. congruence.
  - intros p' x Hx. map_cases Hx p p'; [done|]. eapply port_ok_but; [done| |by apply i_port0]. congruence.
  - intros r. rewrite i_refs0. unfold ref_of. destruct Hg as [-> _]. by destruct (g_ov g !! r).
  - intros r c. destruct Hg as [-> _]. apply i_ov0.
  - intros p' c. rewrite <- i_pend0. destruct (decide (p' = p)) as [->|].
    + rewrite lookup_insert_eq, Hp. split; intros (x & ? & ?); simplify_eq; eexists; split; try done; congruence.
    + by rewrite lookup_insert_ne by done.
  - destruct i_plist0 as [? Hw]. split; [done|]. intros p'. rewrite Hw. destruct (decide (p' = p)) as [->|].
    + rewrite lookup_insert_eq, Hp. split; intros (x & ? & ?); simplify_eq; eexists; split; try done; congruence.
    + by rewrite lookup_insert_ne by done.
  - intros h Hin. rewrite hview_put_port. destruct (decide _) as [|Hne]; [done|]. apply i_ext0. by eapply g_but_ext.
  - destruct i_fresh0 as [Hf1 Hf2]. split; [done|]. intros p'. rewrite lookup_insert_is_Some. intros [<-|[_ ?]]; eauto.
  - eapply tabs_ok_ext; [|done]. intros h. unfold hl_of. rewrite hview_put_port. destruct (decide _) as [->|]; [|done].
    cbn. by rewrite Hp, Hh.
Qed.

(** ** Dropping a reference to a channel *)

Definition g_unpin (r : obj_ref) (g : ghost) : ghost := Ghost (delete r (g_ov g)) (g_own g) (g_bor g).
Definition g_pin (r : obj_ref) (c : Z) (g : ghost) : ghost := Ghost (<[r := c]> (g_ov g)) (g_own g) (g_bor g).

Lemma pinned_unpin g r c c' : g_ov g !! r = Some c -> c' <> c -> pinned g c' -> pinned (g_unpin r g) c'.
Proof. intros Hr Hne [r' Hr']. exists r'. cbn. rewrite lookup_delete_ne; [done|]. intros ->. congruence. Qed.

Lemma chan_ok_unpin hu g r c c' ch :
  g_ov g !! r = Some c -> c' <> c -> chan_ok hu g c' ch -> chan_ok hu (g_unpin r g) c' ch.
Proof.
  intros Hr Hne [H1 H2 H3 H4 H5 H6 H7]. split; try done.
  - intros Hp. destruct (H3 Hp) as [? [?|[?|[?|?]]]]; (split; [done|]); unfold owned; auto.
    right; right; right. by eapply pinned_unpin.
  - unfold state_ok in *. destruct (c_state ch); try done. destruct H4 as [? [?|?]]; split; auto.
    right. by eapply pinned_unpin.
  - intros E. destruct (H7 E) as [?|[?|[?|?]]]; unfold owned; auto. right; right; right. by eapply pinned_unpin.
Qed.

Lemma ref_of_unpin s g r c r' :
  Inv g s -> g_ov g !! r = Some c -> delete r (k_refs s) !! r' = ref_of s (g_unpin r g) r'.
Proof.
  intros HI Hr. unfold ref_of, g_unpin. cbn. destruct (decide (r' = r)) as [->|].
  - rewrite !lookup_delete_eq. symmetry. by eapply i_ov.
  - rewrite !lookup_delete_ne by done. by rewrite (i_refs g s HI).
Qed.

Lemma Inv_unpin g s r c ch r' :
  Inv g s -> g_ov g !! r = Some c -> k_chans s !! c = Some ch ->
  chan_ok (has_uctx s) (g_unpin r g) c ch -> r' <> r -> k_refs s !! r' = Some c ->
  Inv (g_unpin r g) (set_k_refs (delete r (k_refs s)) s).
Proof.
  intros HI Hr Hc Hok Hne Hr'. pose proof (ref_of_unpin s g r c) as Hro.
  pose proof (chan_ok_unpin (has_uctx s) g r c) as Hun. destruct (HI). split; cbn; try done.
  - intros c' x Hx. destruct (decide (c' = c)) as [->|]; [by simplify_eq|]. auto.
  - intros p pt Hp. destruct (i_port0 p pt Hp). by split.
  - intros r1. exact (Hro r1 HI Hr).
  - intros r1 c1 [_ Ho]%lookup_delete_Some. by eapply i_ov0.
  - intros c1 Hc1. destruct (i_held0 c1 Hc1) as [r1 Hr1]. destruct (decide (r1 = r)) as [->|].
    + exists r'. rewrite lookup_delete_ne by done.
      rewrite i_refs0 in Hr1. unfold ref_of in Hr1. rewrite Hr in Hr1. by simplify_eq.
    + exists r1. by rewrite lookup_delete_ne.
Qed.

(** Nobody refers to the channel: its fields hold no reference either. *)
Lemma unreferenced s g r c ch :
  Inv g s -> g_ov g !! r = Some c -> k_chans s !! c = Some ch ->
  chan_ok (has_uctx s) (g_unpin r g) c ch -> (forall r', r' <> r -> k_refs s !! r' <> Some c) ->
  c_peer ch = None /\ c_node ch = None /\ h_refcnt (c_handle ch) = 0 /\ h_hlist (c_handle ch) = None /\
  cnt (HChan c) (g_own g) = 0 /\ cnt (HChan c) (g_bor g) = 0 /\
  (forall r', r' <> r -> g_ov g !! r' <> Some c) /\
  (forall c' x, k_chans s !! c' = Some x -> c_peer x <> Some c).
Proof.
  intros HI Hr Hc Hok Hno.
  assert (forall r', field_ref s r' <> Some c) as Hfr.
  { intros r' E. destruct (decide (r' = r)) as [->|].
    - destruct (i_ov g s HI r c Hr). congruence.
    - apply (Hno r'); [done|]. rewrite (i_refs g s HI). unfold ref_of.
      destruct (g_ov g !! r') eqn:Eo; [|done]. destruct (i_ov g s HI r' _ Eo). congruence. }
  assert (c_node ch = None) as Hnode.
  { specialize (Hfr (node_ref c)). cbn in Hfr. rewrite Hc in Hfr. cbn in Hfr. by destruct (c_node ch). }
  pose proof (cnt_nonneg (HChan c) (g_own g)). pose proof (cnt_nonneg (HChan c) (g_bor g)).
  assert (h_refcnt (c_handle ch) <= 0) as Hrc.
  { specialize (Hfr (handle_ref c)). cbn in Hfr. rewrite Hc in Hfr. cbn in Hfr.
    destruct (Z.ltb_spec 0 (h_refcnt (c_handle ch))); [done|lia]. }
  pose proof (co_refcnt _ _ _ _ Hok) as E. cbn in E.
  assert (0 <= list_refs (has_uctx s) (h_hlist (c_handle ch))) as Hl.
  { unfold list_refs. destruct (h_hlist _); [|done]. destruct (has_uctx s z); lia. }
  assert (h_hlist (c_handle ch) = None) as Hhl.
  { unfold list_refs in E. destruct (h_hlist _) as [l|] eqn:El; [|done]. destruct (has_uctx s l); lia. }
  rewrite Hhl in *. cbn in E, Hl.
  assert (forall r', r' <> r -> g_ov g !! r' <> Some c) as Hov.
  { intros r' Hne Ho. apply (Hno r' Hne). rewrite (i_refs g s HI). unfold ref_of. by rewrite Ho. }
  repeat split; try done; try lia.
  - destruct (c_peer ch) eqn:Ep; [|done].
    destruct (co_peer _ _ _ _ Hok) as [_ [[p ?]|[Hin|[(l & ? & ?)|[r' Hp]]]]]; [by rewrite Ep|congruence| |congruence|].
    + apply cnt_elem in Hin. cbn in Hin. lia.
    + cbn in Hp. apply lookup_delete_Some in Hp as [? ?]. by destruct (Hov r').
  - intros c' x Hx Hp. specialize (Hfr (peer_ref c')). cbn in Hfr. by rewrite Hx in Hfr.
Qed.

Lemma Inv_free g s r c ch :
  Inv g s -> g_ov g !! r = Some c -> k_chans s !! c = Some ch ->
  chan_ok (has_uctx s) (g_unpin r g) c ch -> (forall r', r' <> r -> k_refs s !! r' <> Some c) ->
  Inv (g_unpin r g) (set_k_chans (delete c (k_chans s)) (set_k_refs (delete r (k_refs s)) s)).
Proof.
  intros HI Hr Hc Hok Hno.
  destruct (unreferenced s g r c ch HI Hr Hc Hok Hno) as (Hp & Hn & Hrc & Hhl & Ho & Hb & Hov & Hpe).
  pose proof (ref_of_unpin s g r c) as Hro. pose proof (chan_ok_unpin (has_uctx s) g r c) as Hun.
  set (s' := set_k_chans _ _).
  assert (forall r', field_ref s' r' = field_ref s r') as Hf.
  { intros [c'|c'|c'| |]; cbn; try done;
      (destruct (decide (c' = c)) as [->|]; [rewrite lookup_delete_eq, Hc; cbn|by rewrite lookup_delete_ne by done]).
    - by rewrite Hn. - by rewrite Hrc. - done. }
  assert (forall h, hview s' h = if decide (h = HChan c) then None else hview s h) as Hv.
  { intros [p|c']; cbn; [done|]. destruct (decide (HChan c' = HChan c)) as [[= ->]|Hne].
    - by rewrite lookup_delete_eq. - rewrite lookup_delete_ne by congruence. done. }
  destruct (HI). split; cbn; try done.
  - intros c' x [? Hx]%lookup_delete_Some. apply Hun; auto.
  - intros p pt Hpt. destruct (i_port0 p pt Hpt). by split.
  - intros r1. etransitivity; [exact (Hro r1 HI Hr)|]. unfold ref_of. by rewrite Hf.
  - intros r1 c1 [? Hov1]%lookup_delete_Some. rewrite Hf. destruct (i_ov0 r1 c1 Hov1) as [? ?]. split; [done|].
    rewrite lookup_delete_ne; [done|]. intros ->. by eapply Hov.
  - intros c1 [x [Hne Hc1]%lookup_delete_Some]. destruct (i_held0 c1) as [r1 Hr1]; [done|].
    exists r1. rewrite lookup_delete_ne; [done|]. intros <-. rewrite i_refs0 in Hr1. unfold ref_of in Hr1.
    rewrite Hr in Hr1. congruence.
  - intros c1 x pc [Hne Hx]%lookup_delete_Some Hpc. destruct (i_peer0 _ _ _ Hx Hpc) as (? & pch & ? & ? & ?).
    split; [done|]. exists pch. rewrite lookup_delete_ne; [done|]. intros <-. exact (Hpe _ _ Hx Hpc).
  - intros p c1. rewrite i_pend0. destruct (decide (c1 = c)) as [->|].
    + rewrite lookup_delete_eq. split; intros (x & ? & ?); simplify_eq; congruence.
    + by rewrite lookup_delete_ne by done.
  - destruct i_wait0 as [? Hw]. split; [done|]. intros c1. rewrite Hw. destruct (decide (c1 = c)) as [->|].
    + rewrite lookup_delete_eq. split; intros (x & ? & ?); simplify_eq; congruence.
    + by rewrite lookup_delete_ne by done.
  - intros h Hin. rewrite Hv. destruct (decide (h = HChan c)) as [->|]; [|by apply i_ext0].
    rewrite elem_of_app, !cnt_elem in Hin. lia.
  - destruct i_fresh0 as [Hf1 Hf2]. split; [|done]. intros c1 [x [_ ?]%lookup_delete_Some]. eauto.
  - eapply tabs_ok_ext; [|done]. intros h. unfold hl_of. rewrite Hv. destruct (decide (h = HChan c)) as [->|]; [|done].
    cbn. by rewrite Hc.
Qed.

(** [chan_del_ref] of a node the running routine holds: the channel stays as it
    is when somebody else refers to it and is freed otherwise. *)
Definition del_post (r : obj_ref) (c : Z) (s s' : kstate) : Prop :=
  (exists r', r' <> r /\ k_refs s !! r' = Some c /\ s' = set_k_refs (delete r (k_refs s)) s) \/
  ((forall r', r' <> r -> k_refs s !! r' <> Some c) /\
   s' = set_k_chans (delete c (k_chans s)) (set_k_refs (delete r (k_refs s)) s)).

Lemma no_refs_false s c r : k_refs s !! r = Some c -> no_refs s c = false.
Proof. intros H. unfold no_refs. apply bool_decide_eq_false. intros Hf. by apply (Hf r c H). Qed.

Lemma no_refs_cases r c (m : gmap obj_ref Z) :
  (exists r', r' <> r /\ m !! r' = Some c) \/ map_Forall (fun (_ : obj_ref) (o : Z) => o <> c) (delete r m).
Proof.
  destruct (decide (map_Forall (fun _ o => o <> c) (delete r m))) as [|Hn]; [by right|]. left.
  apply map_not_Forall in Hn as (r' & o & Hl & Ho); [|apply _]. apply lookup_delete_Some in Hl as [? ?].
  exists r'. split; [done|]. destruct (decide (o = c)) as [<-|]; [done|]. by destruct Ho.
Qed.

Lemma chan_del_ref_spec g s r c ch :
  Inv g s -> g_ov g !! r = Some c -> k_chans s !! c = Some ch -> chan_ok (has_uctx s) (g_unpin r g) c ch ->
  exists s', chan_del_ref c r s = Ret tt s' /\ Inv (g_unpin r g) s' /\ del_post r c s s'.
Proof.
  intros HI Hr Hc Hok. assert (k_refs s !! r = Some c) as Hrs by (rewrite (i_refs g s HI); unfold ref_of; by rewrite Hr).
  unfold chan_del_ref, get_chan. unfold mbind, M_bind, get, deref. rewrite Hc. cbn.
  unfold assert_. rewrite Hrs, bool_decide_eq_true_2 by done. cbn.
  destruct (no_refs_cases r c (k_refs s)) as [(r' & Hne & Hr')|Hno].
  - erewrite no_refs_false by (cbn; by rewrite lookup_delete_ne). cbn. eexists. split; [done|]. split.
    + by eapply Inv_unpin.
    + left. eauto.
  - unfold no_refs. cbn. rewrite bool_decide_eq_true_2 by done. cbn.
    assert (forall r', r' <> r -> k_refs s !! r' <> Some c) as Hno'.
    { intros r' Hne E. apply (Hno r' c); [|done]. by rewrite lookup_delete_ne. }
    destruct (unreferenced s g r c ch HI Hr Hc Hok Hno') as (Hp & Hn & _).
    unfold chan_destroy_refobj, get_chan. unfold mbind, M_bind, get, deref. cbn. rewrite Hc. cbn.
    unfold assert_. rewrite Hp, Hn. cbn.
    eexists (set_k_chans (delete c (k_chans s)) (set_k_refs (delete r (k_refs s)) s)). split; [done|].
    split; [by eapply Inv_free|]. by right.
Qed.

(** ** Taking links off a channel *)

Lemma chan_ok_pin hu g r c c' ch : g_ov g !! r = None -> chan_ok hu g c' ch -> chan_ok hu (g_pin r c g) c' ch.
Proof.
  intros Hr [H1 H2 H3 H4 H5 H6 H7].
  assert (forall c1, pinned g c1 -> pinned (g_pin r c g) c1) as Hp.
  { intros c1 [r1 Hr1]. exists r1. cbn. rewrite lookup_insert_ne; [done|]. congruence. }
  split; try done.
  - intros Hs. destruct (H3 Hs) as [? [?|[?|[?|?]]]]; (split; [done|]); unfold owned; auto.
  - unfold state_ok in *. destruct (c_state ch); try done. destruct H4 as [? [?|?]]; split; auto.
  - intros E. destruct (H7 E) as [?|[?|[?|?]]]; unfold owned; auto.
Qed.

Lemma pinned_pin r c g : pinned (g_pin r c g) c.
Proof. exists r. cbn. by rewrite lookup_insert_eq. Qed.

(** ** State the invariant does not look at *)

Definition same_objects (s s' : kstate) : Prop :=
  k_ports s' = k_ports s /\ k_chans s' = k_chans s /\ k_refs s' = k_refs s /\
  ipc_port_list s' = ipc_port_list s /\ waiting_for_port_chan_list s' = waiting_for_port_chan_list s /\
  k_hlists s' = k_hlists s /\ k_next s' = k_next s /\
  forall a, k_apps s' !! a ≫= a_uctx = k_apps s !! a ≫= a_uctx.

Lemma Inv_same g s s' : same_objects s s' -> Inv g s -> Inv g s'.
Proof.
  intros (Ep & Ec & Er & El & Ew & Eh & En & Ea) HI.
  assert (forall l, has_uctx s' l = has_uctx s l) as Hu by (intros l; unfold has_uctx; by rewrite Ea).
  assert (forall r, field_ref s' r = field_ref s r) as Hf by (intros []; cbn; by rewrite ?Ec).
  assert (forall h, hview s' h = hview s h) as Hv by (intros []; cbn; by rewrite ?Ec, ?Ep).
  assert (forall o, list_refs (has_uctx s') o = list_refs (has_uctx s) o) as Hlr.
  { intros [l|]; cbn; [|done]. by rewrite Hu. }
  destruct HI. split; rewrite ?Ep, ?Ec, ?Er, ?El, ?Ew, ?Eh, ?En in *; try done.
  - intros c ch Hc. destruct (i_chan0 c ch Hc) as [H1 H2 H3 H4 H5 H6 H7]. split; try done; [by rewrite Hlr| |].
    + intros Hp. destruct (H3 Hp) as [? [?|[?|[(l & ? & ?)|?]]]]; (split; [done|]); unfold owned; auto.
      right; right; left. exists l. by rewrite Hu.
    + intros E. destruct (H7 E) as [?|[?|[(l & ? & ?)|?]]]; unfold owned; auto. right; right; left. exists l. by rewrite Hu.
  - intros p pt Hp. destruct (i_port0 p pt Hp). split; try done. by rewrite Hlr.
  - intros r. rewrite i_refs0. unfold ref_of. destruct (g_ov g !! r); [done|]. by rewrite Hf.
  - intros r c. rewrite Hf. apply i_ov0.
  - intros h. rewrite Hv. apply i_ext0.
  - destruct i_tabs0 as [T1 T2 T3 T4]. split; [done| | |].
    + intros l x h. unfold hl_of. rewrite Hv. apply T2.
    + intros h l. unfold hl_of. rewrite Hv. apply T3.
    + intros a x u Ha Hx. specialize (Ea a). rewrite Ha in Ea. cbn in Ea. rewrite Hx in Ea.
      destruct (k_apps s !! a) as [x0|] eqn:E0; [|done]. cbn in Ea.
      destruct (T4 a x0 u E0 (eq_sym Ea)) as (? & ? & T). split; [done|]. split; [done|].
      intros h. unfold hl_of. rewrite Hv. apply T.
Qed.

Lemma handle_notify_run s h x :
  hview s h = Some x -> exists e, handle_notify h s = Ret tt (set_k_events e s).
Proof.
  intros Hx. unfold handle_notify, get_handle, get_port, get_chan.
  assert (s = set_k_events (k_events s) s) as Es by (by destruct s).
  destruct h as [p|c]; cbn in Hx; unfold mbind, M_bind, get, deref; cbn.
  all: destruct (_ !! _) as [y|]; cbn in Hx; simplify_eq; cbn.
  all: destruct (h_wait_event _); cbn; eexists; [done|]; by f_equal.
Qed.

Lemma Inv_events g s e : Inv g s -> Inv g (set_k_events e s).
Proof. apply Inv_same. by repeat split. Qed.

(** ** Shutting a channel down *)

Lemma get_chan_run s c ch : k_chans s !! c = Some ch -> get_chan c s = Ret ch s.
Proof. intros H. unfold get_chan, mbind, M_bind, get, deref. by rewrite H. Qed.

Lemma upd_chan_run s c ch f : k_chans s !! c = Some ch -> upd_chan c f s = Ret tt (put_chan c (f ch) s).
Proof. intros H. unfold upd_chan. rewrite (run_bind _ _ _ _ _ (get_chan_run _ _ _ H)). done. Qed.

Lemma get_port_run s p pt : k_ports s !! p = Some pt -> get_port p s = Ret pt s.
Proof. intros H. unfold get_port, mbind, M_bind, get, deref. by rewrite H. Qed.

Lemma upd_port_run s p pt f : k_ports s !! p = Some pt -> upd_port p f s = Ret tt (put_port p (f pt) s).
Proof. intros H. unfold upd_port. rewrite (run_bind _ _ _ _ _ (get_port_run _ _ _ H)). done. Qed.

(** The order of [chan_del_ref] and the update of another channel is immaterial. *)
Lemma del_then_upd c pc r f s ch s' :
  c <> pc -> k_chans s !! c = Some ch -> chan_del_ref pc r (put_chan c (f ch) s) = Ret tt s' ->
  (chan_del_ref pc r;; upd_chan c f) s = Ret tt s'.
Proof.
  intros Hne Hc. unfold chan_del_ref, chan_destroy_refobj, get_chan. unfold mbind, M_bind, get, deref. cbn.
  rewrite lookup_insert_ne by done. destruct (k_chans s !! pc) as [pch|] eqn:Hp; [|done]. cbn.
  unfold assert_. destruct (bool_decide (is_Some (k_refs s !! r))); [|done]. cbn.
  unfold no_refs. cbn. destruct (bool_decide (map_Forall _ _)); cbn.
  - rewrite lookup_insert_ne, Hp by done. cbn. destruct (bool_decide _); [|done]. cbn.
    destruct (bool_decide _); [|done]. cbn. intros [= <-].
    erewrite upd_chan_run by (cbn; by rewrite lookup_delete_ne). f_equal. unfold put_chan, set_k_chans. cbn.
    f_equal. by rewrite delete_insert_ne.
  - intros [= <-]. by erewrite upd_chan_run.
Qed.

(** A field of channel [c] gives its reference [r0] up while the node is still
    linked: the running routine takes it over. *)
Lemma Inv_release g g' s s' r0 tgt c ch ch' :
  Inv g s -> k_chans s !! c = Some ch ->
  field_ref s r0 = Some tgt -> field_ref s' r0 = None -> is_Some (k_chans s !! tgt) ->
  (forall r, r <> r0 -> field_ref s' r = field_ref s r) ->
  c_peer ch' = c_peer ch \/ c_peer ch' = None -> (is_Some (c_msg_queue ch) -> is_Some (c_msg_queue ch')) ->
  chan_ok (has_uctx s) g' c ch' ->
  k_chans s' = <[c := ch']> (k_chans s) -> k_refs s' = k_refs s -> k_apps s' = k_apps s ->
  g_ov g' = <[r0 := tgt]> (g_ov g) ->
  (forall c', c' <> c -> cnt (HChan c') (g_own g') = cnt (HChan c') (g_own g) /\ cnt (HChan c') (g_bor g') = cnt (HChan c') (g_bor g)) ->
  (forall p pt, k_ports s' !! p = Some pt -> port_ok (has_uctx s) g' p pt) ->
  (forall h, h ∈ g_own g' ++ g_bor g' -> is_Some (hview s' h)) ->
  lists_ok s' -> Inv g' s'.
Proof.
  intros HI Hc Hr0 Hf0 Htgt Hf Hp' Hq' Hok Ec Er Ea Eov Ecnt Hports Hext HL.
  assert (g_ov g !! r0 = None) as Hov.
  { destruct (g_ov g !! r0) eqn:E; [|done]. destruct (i_ov g s HI _ _ E) as [Hf1 _]. congruence. }
  assert (forall c' x, c' <> c -> chan_ok (has_uctx s) g c' x -> chan_ok (has_uctx s) g' c' x) as Hgg.
  { intros c' x Hne Hx. apply (chan_ok_pin _ _ r0 tgt _ _ Hov) in Hx as [H1 H2 H3 H4 H5 H6 H7].
    destruct (Ecnt c' Hne) as [Eo Eb]. split; try done.
    - by rewrite Eo, Eb.
    - intros Hs. destruct (H3 Hs) as [? Ho]. split; [done|]. unfold owned, pinned in *. rewrite Eov.
      rewrite cnt_elem, Eo, <- cnt_elem. done.
    - unfold state_ok, pinned in *. rewrite Eov. done.
    - intros E. specialize (H7 E). unfold owned, pinned in *. rewrite Eov. rewrite cnt_elem, Eo, <- cnt_elem. done. }
  destruct (HI). destruct HL as (L1 & L2 & L3 & L4 & L5). split; try done; unfold has_uctx in *; rewrite ?Ea.
  - rewrite Ec. intros c' x Hx. map_cases Hx c c'; [done|]. by apply Hgg, i_chan0.
  - done.
  - intros r. rewrite Er, i_refs0. unfold ref_of. rewrite Eov. destruct (decide (r = r0)) as [->|].
    + by rewrite lookup_insert_eq, Hov.
    + rewrite lookup_insert_ne by done. destruct (g_ov g !! r); [done|]. by rewrite Hf.
  - intros r c1. rewrite Eov, Ec, lookup_insert_is_Some. destruct (decide (r = r0)) as [->|].
    + rewrite lookup_insert_eq. intros [= <-]. split; [done|]. destruct (decide (c = tgt)); auto.
    + rewrite lookup_insert_ne by done. intros Ho. destruct (i_ov0 r c1 Ho). rewrite Hf by done. split; [done|].
      destruct (decide (c = c1)); auto.
  - intros c1. rewrite Ec, Er, lookup_insert_is_Some. intros [<-|[_ ?]]; eauto.
  - rewrite Ec. intros c1 x pc Hx Hpc.
    assert (exists x0, k_chans s !! c1 = Some x0 /\ c_peer x0 = Some pc) as (x0 & Hx0 & Hpc0).
    { map_cases Hx c c1; [|eauto]. exists ch. split; [done|]. destruct Hp'; congruence. }
    destruct (i_peer0 _ _ _ Hx0 Hpc0) as (Hne & pch & Hpch & Hq & Hpp). split; [done|].
    destruct (decide (pc = c)) as [->|].
    + exists ch'. rewrite lookup_insert_eq. simplify_eq. split; [done|]. split; [by apply Hq'|].
      destruct Hp' as [-> | ->]; auto.
    + exists pch. by rewrite lookup_insert_ne by done.
Qed.

(** Updates of one channel leave the fields of the others alone. *)
Lemma field_ref_other s s' c ch ch' r0 :
  k_chans s' = <[c := ch']> (k_chans s) -> k_chans s !! c = Some ch ->
  (r0 <> node_ref c -> c_node ch' = c_node ch) -> (r0 <> peer_ref c -> c_peer ch' = c_peer ch) ->
  (r0 <> handle_ref c -> (0 <? h_refcnt (c_handle ch')) = (0 <? h_refcnt (c_handle ch))) ->
  forall r, r <> r0 -> field_ref s' r = field_ref s r.
Proof.
  intros Ec Hc H1 H2 H3 [c'|c'|c'| |] Hne; cbn; rewrite ?Ec; try done;
    (destruct (decide (c' = c)) as [->|]; [rewrite lookup_insert_eq, Hc; cbn|by rewrite lookup_insert_ne by done]).
  - by rewrite H1 by congruence. - by rewrite H3 by congruence. - by apply H2.
Qed.

(** The peer pointer is cleared while its node is still linked. *)
Lemma Inv_clear_peer g s c ch pc :
  Inv g s -> k_chans s !! c = Some ch -> c_peer ch = Some pc -> c_state ch = IPC_CHAN_STATE_DISCONNECTING ->
  Inv (g_pin (peer_ref c) pc g) (put_chan c (set_c_peer None ch) s).
Proof.
  intros HI Hc Hp Hst. destruct (i_peer g s HI c ch pc Hc Hp) as (Hpc & pch & Hpch & _).
  assert (g_ov g !! peer_ref c = None) as Hov.
  { destruct (g_ov g !! peer_ref c) eqn:E; [|done]. destruct (i_ov g s HI _ _ E) as [Hf _]. cbn in Hf.
    rewrite Hc in Hf. cbn in Hf. congruence. }
  eapply (Inv_release g _ s _ (peer_ref c) pc c ch (set_c_peer None ch)); try done.
  - cbn. by rewrite Hc.
  - cbn. by rewrite lookup_insert_eq.
  - by eapply field_ref_other.
  - by right.
  - destruct (chan_ok_pin _ _ _ pc _ _ Hov (i_chan g s HI c ch Hc)) as [H1 H2 H3 H4 H5 H6 H7]. split; try done.
    + cbn. by intros [].
    + unfold state_ok. cbn. by rewrite Hst.
  - intros p pt Hpt. destruct (i_port g s HI p pt Hpt). by split.
  - intros h Hin. rewrite hview_put_chan. destruct (decide _); [done|]. by apply (i_ext g s HI).
  - by apply (put_chan_lists s c ch); [by eapply Inv_lists|..].
Qed.

Lemma elem_of_unlink_addr x y l : y ∈ unlink_addr x l <-> y <> x /\ y ∈ l.
Proof. unfold unlink_addr. by rewrite list_elem_of_filter. Qed.

Lemma NoDup_unlink_addr x l : NoDup l -> NoDup (unlink_addr x l).
Proof. intros. by apply NoDup_filter. Qed.

Lemma unlink_addr_notin x l : x ∉ l -> unlink_addr x l = l.
Proof.
  unfold unlink_addr. induction l as [|y l IH]; [done|]. rewrite not_elem_of_cons. intros [? ?].
  rewrite filter_cons_True by done. f_equal. auto.
Qed.

Lemma length_unlink_addr x l : NoDup l -> x ∈ l -> S (length (unlink_addr x l)) = length l.
Proof.
  induction 1 as [|y l Hy Hl IH]; [by rewrite elem_of_nil|]. rewrite elem_of_cons. unfold unlink_addr in *. intros Hin.
  destruct (decide (y = x)) as [->|Hne].
  - rewrite filter_cons_False by (intros H; by apply H). fold (unlink_addr x l). by rewrite unlink_addr_notin.
  - rewrite filter_cons_True by done. destruct Hin as [->|Hin]; [done|]. cbn. by rewrite IH.
Qed.

(** The routines on channels leave these parts alone. *)
Definition frame (s s' : kstate) : Prop :=
  k_ports s' = k_ports s /\ ipc_port_list s' = ipc_port_list s /\ k_apps s' = k_apps s /\
  k_hlists s' = k_hlists s /\ k_next s' = k_next s /\ k_kmem s' = k_kmem s /\ k_allocs s' = k_allocs s /\
  k_junk s' = k_junk s.

#[export] Instance frame_refl : Reflexive frame.
Proof. done. Qed.
#[export] Instance frame_trans : Transitive frame.
Proof.
  intros s1 s2 s3 (A1&A2&A3&A4&A5&A6&A7&A8) (B1&B2&B3&B4&B5&B6&B7&B8). unfold frame.
  by rewrite B1, B2, B3, B4, B5, B6, B7, B8.
Qed.

Lemma Inv_unwait g s c ch :
  Inv g s -> k_chans s !! c = Some ch -> c_node ch = Some WaitingForPort ->
  Inv (g_pin (node_ref c) c g)
      (put_chan c (set_c_node None ch)
         (set_waiting_for_port_chan_list (unlink_addr c (waiting_for_port_chan_list s)) s)).
Proof.
  intros HI Hc Hn. pose proof (i_chan g s HI c ch Hc) as Hok.
  assert (c_state ch = IPC_CHAN_STATE_WAITING_FOR_PORT) as Hst.
  { pose proof (co_node _ _ _ _ Hok) as H. unfold node_ok in H. rewrite Hn in H. by destruct H. }
  assert (c_peer ch = None) as Hp.
  { pose proof (co_state _ _ _ _ Hok) as H. unfold state_ok in H. rewrite Hst in H. by destruct H as [[] _]. }
  eapply (Inv_release g _ s _ (node_ref c) c c ch (set_c_node None ch)); try done.
  - cbn. rewrite Hc. cbn. by rewrite Hn.
  - cbn. by rewrite lookup_insert_eq.
  - by eapply field_ref_other.
  - by left.
  - destruct Hok as [H1 H2 H3 H4 H5 H6 H7]. split; try done; cbn.
    + rewrite Hp. by intros [].
    + unfold state_ok. cbn. rewrite Hst. split; [|right; apply pinned_pin].
      unfold state_ok in H4. rewrite Hst in H4. by destruct H4.
    + intros _. right; right; right. apply pinned_pin.
  - intros p pt Hpt. cbn in Hpt. destruct (i_port g s HI p pt Hpt). by split.
  - intros h Hin. rewrite hview_put_chan. destruct (decide _); [done|]. by apply (i_ext g s HI).
  - destruct (HI). split; [|split; [|split; [|split]]]; cbn; try done.
    + intros p c1. rewrite i_pend0. destruct (decide (c1 = c)) as [->|]; [|by rewrite lookup_insert_ne by done].
      rewrite lookup_insert_eq, Hc. split; intros (x & ? & ?); simplify_eq; congruence.
    + destruct i_wait0 as [Hnd Hw]. split; [by apply NoDup_unlink_addr|]. intros c1. rewrite elem_of_unlink_addr, Hw.
      destruct (decide (c1 = c)) as [->|].
      * rewrite lookup_insert_eq. split; [by intros []|]. intros (x & ? & ?). by simplify_eq.
      * rewrite lookup_insert_ne by done. by intuition.
    + destruct i_fresh0 as [Hf1 Hf2]. split; [|done]. intros c1. rewrite lookup_insert_is_Some. intros [<-|[_ ?]]; eauto.
    + eapply tabs_ok_ext; [|done]. intros h. unfold hl_of. rewrite hview_put_chan. destruct (decide _) as [->|]; [|done].
      cbn. by rewrite Hc.
Qed.

(** The channel after [_chan_shutdown_locked]. *)
Definition shut1 (ch : chan) : chan :=
  match c_state ch with
  | IPC_CHAN_STATE_CONNECTED | IPC_CHAN_STATE_CONNECTING | IPC_CHAN_STATE_ACCEPTING =>
      set_c_state IPC_CHAN_STATE_DISCONNECTING ch
  | IPC_CHAN_STATE_WAITING_FOR_PORT => set_c_state IPC_CHAN_STATE_DISCONNECTING (set_c_node None ch)
  | _ => ch
  end.

(** Somebody other than the list of waiting clients refers to the channel. *)
Definition kept (g : ghost) (c : Z) (ch : chan) : Prop := 0 < h_refcnt (c_handle ch) \/ pinned g c.

(** A waiting client is on the list of waiting clients and has another holder. *)
Definition can_shut (g : ghost) (c : Z) (ch : chan) : Prop :=
  c_state ch = IPC_CHAN_STATE_WAITING_FOR_PORT -> c_node ch = Some WaitingForPort /\ kept g c ch.

Lemma disconnect_ok hu g c ch :
  chan_ok hu g c ch -> c_node ch <> Some WaitingForPort ->
  chan_ok hu g c (set_c_state IPC_CHAN_STATE_DISCONNECTING ch).
Proof.
  intros [H1 H2 H3 H4 H5 H6 H7] Hn. split; try done. unfold node_ok in *. cbn.
  destruct (c_node ch) as [[]|]; [done| |done]. destruct H5 as (? & ? & ?). auto.
Qed.

Lemma node_not_waiting hu g c ch :
  chan_ok hu g c ch -> c_state ch <> IPC_CHAN_STATE_WAITING_FOR_PORT -> c_node ch <> Some WaitingForPort.
Proof. intros [_ _ _ _ H5 _ _] Hst E. unfold node_ok in H5. rewrite E in H5. by destruct H5. Qed.

Lemma Inv_disconnect g s c ch :
  Inv g s -> k_chans s !! c = Some ch -> c_node ch <> Some WaitingForPort ->
  Inv g (put_chan c (set_c_state IPC_CHAN_STATE_DISCONNECTING ch) s).
Proof.
  intros HI Hc Hn. eapply Inv_put_chan; try done. apply disconnect_ok; [|done]. by eapply i_chan.
Qed.

Lemma chan_del_ref_kept s r r' c ch :
  k_chans s !! c = Some ch -> is_Some (k_refs s !! r) -> r' <> r -> k_refs s !! r' = Some c ->
  chan_del_ref c r s = Ret tt (set_k_refs (delete r (k_refs s)) s).
Proof.
  intros Hc Hr Hne Hr'. unfold chan_del_ref. rewrite (run_bind _ _ _ _ _ (get_chan_run _ _ _ Hc)).
  unfold mbind, M_bind, get, assert_. rewrite bool_decide_eq_true_2 by done. cbn.
  erewrite no_refs_false; [done|]. cbn. by rewrite lookup_delete_ne by done.
Qed.

(** The node that keeps a channel alive. *)
Lemma kept_ref g s c ch : Inv g s -> k_chans s !! c = Some ch -> is_Some (c_node ch) -> kept g c ch ->
  exists r, r <> node_ref c /\ k_refs s !! r = Some c.
Proof.
  intros HI Hc [n Hn] [Hrc|[r Hr]].
  - exists (handle_ref c). split; [done|]. rewrite (i_refs g s HI). unfold ref_of.
    destruct (g_ov g !! handle_ref c) eqn:E.
    + destruct (i_ov g s HI _ _ E) as [Hf _]. cbn in Hf. rewrite Hc in Hf. cbn in Hf.
      destruct (Z.ltb_spec 0 (h_refcnt (c_handle ch))); [done|lia].
    + cbn. rewrite Hc. cbn. destruct (Z.ltb_spec 0 (h_refcnt (c_handle ch))); [done|lia].
  - exists r. split.
    + intros ->. destruct (i_ov g s HI _ _ Hr) as [Hf _]. cbn in Hf. rewrite Hc in Hf. cbn in Hf. by rewrite Hn in Hf.
    + rewrite (i_refs g s HI). unfold ref_of. by rewrite Hr.
Qed.

Lemma unpin_pin r c g : g_ov g !! r = None -> g_unpin r (g_pin r c g) = g.
Proof. intros H. unfold g_unpin, g_pin. destruct g as [ov own bor]. cbn in *. f_equal. by rewrite delete_insert_id. Qed.

Lemma ov_node_none g s c ch : Inv g s -> k_chans s !! c = Some ch -> is_Some (c_node ch) -> g_ov g !! node_ref c = None.
Proof.
  intros HI Hc [n Hn]. destruct (g_ov g !! node_ref c) eqn:E; [|done]. destruct (i_ov g s HI _ _ E) as [Hf _].
  cbn in Hf. rewrite Hc in Hf. cbn in Hf. by rewrite Hn in Hf.
Qed.

Lemma shutdown_waiting g s c ch :
  Inv g s -> k_chans s !! c = Some ch -> c_node ch = Some WaitingForPort -> kept g c ch ->
  exists s', (chan_node_delete c;; chan_del_ref c (node_ref c);; upd_chan c (set_c_state IPC_CHAN_STATE_DISCONNECTING)) s
         = Ret tt s' /\ Inv g s' /\
    k_chans s' = <[c := set_c_state IPC_CHAN_STATE_DISCONNECTING (set_c_node None ch)]> (k_chans s) /\ frame s s'.
Proof.
  intros HI Hc Hn Hk. destruct (kept_ref g s c ch) as (r' & Hne & Hr'); [done|done|by rewrite Hn|done|].
  pose proof (ov_node_none g s c ch HI Hc ltac:(by rewrite Hn)) as Hov.
  set (s1 := put_chan c (set_c_node None ch) (set_waiting_for_port_chan_list (unlink_addr c (waiting_for_port_chan_list s)) s)).
  assert (k_chans s1 !! c = Some (set_c_node None ch)) as Hc1 by (cbn; by rewrite lookup_insert_eq).
  pose proof (Inv_unwait g s c ch HI Hc Hn) as HI1. fold s1 in HI1.
  pose proof (Inv_disconnect _ s1 c _ HI1 Hc1 ltac:(done)) as HI2.
  set (s2 := put_chan c (set_c_state IPC_CHAN_STATE_DISCONNECTING (set_c_node None ch)) s1) in *.
  assert (k_chans s2 !! c = Some (set_c_state IPC_CHAN_STATE_DISCONNECTING (set_c_node None ch))) as Hc2
      by (cbn; by rewrite lookup_insert_eq).
  assert (Inv g (set_k_refs (delete (node_ref c) (k_refs s2)) s2)) as HI3.
  { rewrite <- (unpin_pin (node_ref c) c g Hov). eapply Inv_unpin; try done; [cbn; by rewrite lookup_insert_eq|].
    rewrite unpin_pin by done. destruct (i_chan g s HI c ch Hc) as [H1 H2 H3 H4 H5 H6 H7]. split; try done.
    cbn. unfold state_ok in H4. unfold node_ok in H5. rewrite Hn in H5. destruct H5 as [H5 _]. rewrite H5 in H4.
    destruct H4 as [[-> _] _]. by intros []. }
  eexists. split; [|split; [exact HI3|split]]; [|cbn; by rewrite insert_insert_eq|done].
  unfold chan_node_delete. rewrite (run_bind _ _ s tt s1).
  2:{ rewrite (run_bind _ _ _ _ _ (get_chan_run _ _ _ Hc)), Hn.
      unfold mbind at 1, M_bind, modify. by erewrite upd_chan_run. }
  assert (is_Some (k_refs s1 !! node_ref c)) as Hr1.
  { change (is_Some (k_refs s !! node_ref c)). rewrite (i_refs g s HI). unfold ref_of. rewrite Hov. cbn. rewrite Hc. cbn.
    by rewrite Hn. }
  rewrite (run_bind _ _ _ _ _ (chan_del_ref_kept s1 (node_ref c) r' c _ Hc1 Hr1 Hne Hr')).
  by erewrite upd_chan_run.
Qed.

Lemma chan_shutdown_locked1_spec g s c ch :
  Inv g s -> k_chans s !! c = Some ch -> can_shut g c ch ->
  exists s', chan_shutdown_locked1 c s = Ret tt s' /\ Inv g s' /\ k_chans s' = <[c := shut1 ch]> (k_chans s) /\ frame s s'.
Proof.
  intros HI Hc Hs. pose proof (i_chan g s HI c ch Hc) as Hok. unfold chan_shutdown_locked1, shut1.
  rewrite (run_bind _ _ _ _ _ (get_chan_run _ _ _ Hc)).
  pose proof (Inv_disconnect g s c ch HI Hc) as Hd.
  pose proof (node_not_waiting _ _ _ _ Hok) as Hnw.
  assert (k_chans (put_chan c (set_c_state IPC_CHAN_STATE_DISCONNECTING ch) s) !! c
          = Some (set_c_state IPC_CHAN_STATE_DISCONNECTING ch)) as Hc1 by (cbn; by rewrite lookup_insert_eq).
  destruct (handle_notify_run (put_chan c (set_c_state IPC_CHAN_STATE_DISCONNECTING ch) s) (HChan c) (c_handle ch)) as [e He].
  { cbn. by rewrite lookup_insert_eq. }
  destruct (c_state ch) eqn:Est.
  - exists s. by rewrite insert_id.
  - erewrite upd_chan_run by done. eexists. split; [done|]. split; [by apply Hd, Hnw|]. done.
  - erewrite run_bind by (by apply upd_chan_run). rewrite He. eexists. split; [done|].
    split; [by apply Inv_events, Hd, Hnw|]. done.
  - erewrite run_bind by (by apply upd_chan_run). rewrite He. eexists. split; [done|].
    split; [by apply Inv_events, Hd, Hnw|]. done.
  - exists s. by rewrite insert_id.
  - destruct (Hs Est) as [Hn Hk]. unfold assert_. rewrite Hn, bool_decide_eq_true_2 by done.
    change (_ ≫= _) with (fun x : kstate => (chan_node_delete c;; chan_del_ref c (node_ref c);; upd_chan c (set_c_state IPC_CHAN_STATE_DISCONNECTING)) x).
    by eapply shutdown_waiting.
Qed.

Lemma shut1_keeps ch :
  c_peer (shut1 ch) = c_peer ch /\ c_handle (shut1 ch) = c_handle ch /\ c_msg_queue (shut1 ch) = c_msg_queue ch /\
  c_uuid (shut1 ch) = c_uuid ch /\ c_flags (shut1 ch) = c_flags ch /\ c_aux_state (shut1 ch) = c_aux_state ch.
Proof. unfold shut1. by destruct (c_state ch). Qed.

Lemma shut1_state ch :
  c_state (shut1 ch) = IPC_CHAN_STATE_DISCONNECTING \/ (c_state (shut1 ch) = IPC_CHAN_STATE_INVALID /\ shut1 ch = ch).
Proof. unfold shut1. destruct (c_state ch) eqn:E; cbn; auto. Qed.

(** What [chan_shutdown_locked c] does to the other channels: the peer is shut
    down, and freed when nobody else refers to it. *)
Definition shut_others (c : Z) (ch : chan) (s s' : kstate) : Prop :=
  forall c', c' <> c ->
    (c_peer ch <> Some c' -> k_chans s' !! c' = k_chans s !! c') /\
    (forall x, k_chans s' !! c' = Some x -> exists y, k_chans s !! c' = Some y /\ (x = y \/ x = shut1 y)).

Lemma chan_ok_peerless hu g g' c ch :
  c_peer ch = None -> c_state ch <> IPC_CHAN_STATE_WAITING_FOR_PORT -> g_own g' = g_own g -> g_bor g' = g_bor g ->
  chan_ok hu g c ch -> chan_ok hu g' c ch.
Proof.
  intros Hp Hst E1 E2 [H1 H2 H3 H4 H5 H6 H7]. split; try done.
  - by rewrite E1, E2.
  - rewrite Hp. by intros [].
  - unfold state_ok in *. by destruct (c_state ch).
Qed.

Lemma peer_ok hu g c ch : chan_ok hu g c ch -> is_Some (c_peer ch) ->
  c_state ch <> IPC_CHAN_STATE_WAITING_FOR_PORT /\ c_state ch <> IPC_CHAN_STATE_INVALID.
Proof.
  intros [_ _ _ H4 _ _ _] [pc Hp]. unfold state_ok in H4. rewrite Hp in H4.
  destruct (c_state ch); try done; [by destruct H4|by destruct H4 as [[] _]].
Qed.

Lemma chan_shutdown_locked_spec g s c ch :
  Inv g s -> k_chans s !! c = Some ch -> can_shut g c ch ->
  exists s', chan_shutdown_locked c s = Ret tt s' /\ Inv g s' /\ frame s s' /\
    k_chans s' !! c = Some (set_c_peer None (shut1 ch)) /\ shut_others c ch s s'.
Proof.
  intros HI Hc Hs. destruct (chan_shutdown_locked1_spec g s c ch HI Hc Hs) as (s1 & R1 & HI1 & E1 & F1).
  assert (k_chans s1 !! c = Some (shut1 ch)) as Hc1 by (by rewrite E1, lookup_insert_eq).
  unfold chan_shutdown_locked. rewrite (run_bind _ _ _ _ _ R1), (run_bind _ _ _ _ _ (get_chan_run _ _ _ Hc1)).
  destruct (shut1_keeps ch) as (Hp1 & _). rewrite Hp1.
  destruct (c_peer ch) as [pc|] eqn:Hp.
  2:{ exists s1. split_and!; [done|done|done| |intros c' Hc'; rewrite E1, lookup_insert_ne by done; eauto].
      rewrite Hc1. f_equal. by destruct (shut1 ch); cbn in *; subst. }
  destruct (i_peer g s1 HI1 c (shut1 ch) pc Hc1 Hp1) as (Hne & pch & Hpc & Hq & _).
  assert (c_state pch <> IPC_CHAN_STATE_WAITING_FOR_PORT) as Hw.
  { intros E. pose proof (co_state _ _ _ _ (i_chan g s1 HI1 pc pch Hpc)) as Hst. unfold state_ok in Hst. rewrite E in Hst.
    destruct Hst as [[_ Hst] _]. rewrite Hst in Hq. by destruct Hq. }
  destruct (chan_shutdown_locked1_spec g s1 pc pch HI1 Hpc) as (s2 & R2 & HI2 & E2 & F2); [done|].
  rewrite (run_bind _ _ _ _ _ R2).
  assert (k_chans s2 !! c = Some (shut1 ch)) as Hc2 by (by rewrite E2, lookup_insert_ne by done).
  assert (k_chans s2 !! pc = Some (shut1 pch)) as Hpc2 by (by rewrite E2, lookup_insert_eq).
  assert (c_state (shut1 ch) = IPC_CHAN_STATE_DISCONNECTING) as Hst1.
  { destruct (shut1_state ch) as [|[Hi Hi2]]; [done|]. rewrite Hi2 in Hi.
    by destruct (peer_ok _ _ _ _ (i_chan g s HI c ch Hc)); rewrite ?Hp. }
  pose proof (Inv_clear_peer g s2 c (shut1 ch) pc HI2 Hc2 Hp1 Hst1) as HI3.
  assert (g_ov g !! peer_ref c = None) as Hov.
  { destruct (g_ov g !! peer_ref c) eqn:E; [|done]. destruct (i_ov g s HI _ _ E) as [Hf _]. cbn in Hf.
    rewrite Hc in Hf. cbn in Hf. congruence. }
  destruct (chan_del_ref_spec _ _ (peer_ref c) pc (shut1 pch) HI3) as (s4 & R4 & HI4 & D4).
  { cbn. by rewrite lookup_insert_eq. }
  { cbn. by rewrite lookup_insert_ne. }
  { rewrite unpin_pin by done. by apply (i_chan g s2 HI2). }
  rewrite unpin_pin in HI4 by done. exists s4. split; [|split; [done|]].
  { by eapply (del_then_upd c pc (peer_ref c) (set_c_peer None) s2 (shut1 ch)). }
  assert (frame s s4) as F4.
  { transitivity s2; [by transitivity s1|]. destruct D4 as [(? & _ & _ & ->)|(_ & ->)]; done. }
  split; [done|].
  assert (k_chans s4 !! c = Some (set_c_peer None (shut1 ch)) /\
          (forall c', c' <> c -> c' <> pc -> k_chans s4 !! c' = k_chans s2 !! c') /\
          (k_chans s4 !! pc = k_chans s2 !! pc \/ k_chans s4 !! pc = None)) as (G1 & G2 & G3).
  { destruct D4 as [(? & _ & _ & ->)|(_ & ->)]; cbn.
    - split_and!; [by rewrite lookup_insert_eq|intros; by rewrite lookup_insert_ne by done|]. left. by rewrite lookup_insert_ne by done.
    - split_and!; [by rewrite lookup_delete_ne, lookup_insert_eq by done| |right; by rewrite lookup_delete_eq].
      intros. by rewrite lookup_delete_ne, lookup_insert_ne by done. }
  split; [done|]. intros c' Hc'. split.
  - intros Hne'. rewrite G2 by congruence. rewrite E2, lookup_insert_ne, E1, lookup_insert_ne by congruence. done.
  - intros x Hx. destruct (decide (c' = pc)) as [->|].
    + destruct G3 as [G3|G3]; rewrite G3 in Hx; [|done]. exists pch. rewrite E1, lookup_insert_ne in Hpc by done. split; [done|]. right. congruence.
    + rewrite G2 in Hx by done. rewrite E2, lookup_insert_ne, E1, lookup_insert_ne in Hx by done. eauto.
Qed.

(** ** Dropping handle references *)

(** [g'] holds one reference to [h] less than [g]. *)
Definition g_less (h : href) (g g' : ghost) : Prop :=
  g_but h g g' /\ cnt h (g_own g') + cnt h (g_bor g') = cnt h (g_own g) + cnt h (g_bor g) - 1.

Definition set_refcnt_c (n : Z) (ch : chan) : chan := set_c_handle (set_h_refcnt n (c_handle ch)) ch.
Definition set_refcnt_p (n : Z) (pt : port) : port := set_p_handle (set_h_refcnt n (p_handle pt)) pt.

Lemma list_refs_nonneg hu o : 0 <= list_refs hu o.
Proof. unfold list_refs. destruct o as [l|]; [|done]. destruct (hu l); lia. Qed.

Lemma less_refcnt hu g g' c ch : chan_ok hu g c ch -> g_less (HChan c) g g' -> 0 < h_refcnt (c_handle ch).
Proof.
  intros Hok [_ Hl]. rewrite (co_refcnt _ _ _ _ Hok). pose proof (list_refs_nonneg hu (h_hlist (c_handle ch))).
  pose proof (cnt_nonneg (HChan c) (g_own g')). pose proof (cnt_nonneg (HChan c) (g_bor g')). lia.
Qed.

Lemma dec_ok hu g g' c ch :
  chan_ok hu g c ch -> g_less (HChan c) g g' -> (is_Some (c_peer ch) \/ c_state ch = IPC_CHAN_STATE_WAITING_FOR_PORT -> owned hu g' c ch) ->
  chan_ok hu g' c (set_refcnt_c (h_refcnt (c_handle ch) - 1) ch).
Proof.
  intros Hok Hl Ho. pose proof (less_refcnt _ _ _ _ _ Hok Hl) as Hpos. destruct Hok as [H1 H2 H3 H4 H5 H6 H7].
  destruct Hl as [[Eov _] Hl]. split; try done; cbn.
  - lia.
  - intros _. by apply H2.
  - intros Hp. split; [by apply H3|]. apply Ho. by left.
  - unfold state_ok, pinned in *. cbn. by rewrite Eov.
  - unfold node_ok in *. cbn. destruct (c_node ch) as [[]|]; [done| |done]. destruct H5 as (_ & E & _). lia.
  - intros E. apply Ho. by right.
Qed.

Lemma handle_decref_chan_run s c ch :
  k_chans s !! c = Some ch ->
  handle_decref (HChan c) s =
  when (h_refcnt (c_handle ch) =? 1) (handle_destroy (HChan c)) (put_chan c (set_refcnt_c (h_refcnt (c_handle ch) - 1) ch) s).
Proof.
  intros Hc. unfold handle_decref, get_handle, upd_handle.
  erewrite run_bind by (erewrite run_bind by (by apply get_chan_run); done).
  erewrite run_bind by (by apply upd_chan_run). done.
Qed.

Lemma handle_decref_chan_spec g g' s c ch :
  Inv g s -> k_chans s !! c = Some ch -> g_less (HChan c) g g' ->
  (is_Some (c_peer ch) \/ c_state ch = IPC_CHAN_STATE_WAITING_FOR_PORT -> owned (has_uctx s) g' c ch) ->
  exists s', handle_decref (HChan c) s = Ret tt s' /\ Inv g' s' /\ frame s s' /\
    waiting_for_port_chan_list s' = waiting_for_port_chan_list s /\
    (forall c', c' <> c -> k_chans s' !! c' = k_chans s !! c') /\
    (k_chans s' !! c = Some (set_refcnt_c (h_refcnt (c_handle ch) - 1) ch) \/
     h_refcnt (c_handle ch) = 1 /\ k_chans s' !! c = None).
Proof.
  intros HI Hc Hl Ho. pose proof (i_chan g s HI c ch Hc) as Hok. pose proof (dec_ok _ _ _ _ _ Hok Hl Ho) as Hok'.
  pose proof (less_refcnt _ _ _ _ _ Hok Hl) as Hpos. rewrite handle_decref_chan_run with (ch := ch) by done.
  destruct (Z.eqb_spec (h_refcnt (c_handle ch)) 1) as [E1|Hn1]; cbn [when].
  2:{ eexists. split; [done|]. split.
      - eapply Inv_put_chan; try done; [|apply Hl]. repeat split; auto. cbn.
        destruct (Z.ltb_spec 0 (h_refcnt (c_handle ch) - 1)), (Z.ltb_spec 0 (h_refcnt (c_handle ch))); lia || done.
      - cbn. split; [done|]. split; [done|]. split; [intros; by rewrite lookup_insert_ne|]. left. by rewrite lookup_insert_eq. }
  rewrite E1 in *. change (1 - 1) with 0 in *. set (ch0 := set_refcnt_c 0 ch) in *. set (s1 := put_chan c ch0 s).
  assert (g_ov g !! handle_ref c = None) as Hov.
  { destruct (g_ov g !! handle_ref c) eqn:E; [|done]. destruct (i_ov g s HI _ _ E) as [Hf _]. cbn in Hf.
    rewrite Hc in Hf. cbn in Hf. by rewrite E1 in Hf. }
  assert (g_ov g' !! handle_ref c = None) as Hov' by (destruct Hl as [[-> _] _]; done).
  assert (Inv (g_pin (handle_ref c) c g') s1) as HI1.
  { eapply (Inv_release g _ s _ (handle_ref c) c c ch ch0); try done.
    - cbn. rewrite Hc. cbn. by rewrite E1.
    - cbn. by rewrite lookup_insert_eq.
    - by eapply field_ref_other.
    - by left.
    - by apply chan_ok_pin.
    - cbn. by destruct Hl as [[-> _] _].
    - intros c' Hne. apply Hl. congruence.
    - intros p pt Hpt. cbn in Hpt. destruct (port_ok_but (has_uctx s) g g' (HChan c) p pt) as [P1 P2 P3 P4 P5];
        [apply Hl|done|by apply (i_port g s HI)|]. by split.
    - intros h Hin. unfold s1. rewrite hview_put_chan. destruct (decide _); [done|]. apply (i_ext g s HI).
      eapply (g_but_ext (HChan c)); [apply Hl|exact Hin|done].
    - by apply (put_chan_lists s c ch); [by eapply Inv_lists|..]. }
  assert (k_chans s1 !! c = Some ch0) as Hc1 by (cbn; by rewrite lookup_insert_eq).
  destruct (chan_del_ref_spec _ s1 (handle_ref c) c ch0 HI1) as (s2 & R2 & HI2 & D2); [cbn; by rewrite lookup_insert_eq|done| |].
  { by rewrite unpin_pin. }
  rewrite unpin_pin in HI2 by done. exists s2. split_and!; [|done|..].
  - unfold handle_destroy, get_handle. erewrite run_bind by (erewrite run_bind by (by apply get_chan_run); done).
    cbn [c_handle ch0 set_refcnt_c set_c_handle h_ops set_h_refcnt]. rewrite (co_ops _ _ _ _ Hok) by lia. cbn.
    unfold chan_handle_destroy. rewrite (run_bind _ _ _ _ _ (get_chan_run _ _ _ Hc1)).
    unfold ipc_is_channel. cbn. rewrite (co_ops _ _ _ _ Hok) by lia. cbn. done.
  - destruct D2 as [(? & _ & _ & ->)|(_ & ->)]; done.
  - destruct D2 as [(? & _ & _ & ->)|(_ & ->)]; done.
  - intros c' Hne. destruct D2 as [(? & _ & _ & ->)|(_ & ->)]; cbn.
    + by rewrite lookup_insert_ne. + by rewrite lookup_delete_ne, lookup_insert_ne.
  - destruct D2 as [(? & _ & _ & ->)|(_ & ->)]; cbn.
    + left. by rewrite lookup_insert_eq. + right. by rewrite lookup_delete_eq.
Qed.

Lemma Inv_free_port g g' s p pt :
  Inv g s -> k_ports s !! p = Some pt -> g_but (HPort p) g g' ->
  p_pending pt = [] -> p_node pt = false -> h_hlist (p_handle pt) = None ->
  cnt (HPort p) (g_own g') = 0 -> cnt (HPort p) (g_bor g') = 0 ->
  Inv g' (set_k_ports (delete p (k_ports s)) s).
Proof.
  intros HI Hp Hg Hpd Hn Hh Ho Hb. set (s' := set_k_ports _ _).
  assert (forall h, hview s' h = if decide (h = HPort p) then None else hview s h) as Hv.
  { intros [p'|c']; cbn; [|done]. destruct (decide (HPort p' = HPort p)) as [[= ->]|Hne].
    - by rewrite lookup_delete_eq. - rewrite lookup_delete_ne by congruence. done. }
  destruct HI. split; cbn; try done.
  - intros c x Hx. eapply chan_ok_but; [done| |by apply i_chan0]. congruence.
  - intros p' x [Hne Hx]%lookup_delete_Some. eapply port_ok_but; [done| |by apply i_port0]. congruence.
  - intros r. rewrite i_refs0. unfold ref_of. destruct Hg as [-> _]. by destruct (g_ov g !! r).
  - intros r c. destruct Hg as [-> _]. apply i_ov0.
  - intros p' c. rewrite <- i_pend0. destruct (decide (p' = p)) as [->|]; [|by rewrite lookup_delete_ne by done].
    rewrite lookup_delete_eq, Hp. split; intros (x & ? & Hin); simplify_eq. rewrite Hpd in Hin. by apply elem_of_nil in Hin.
  - destruct i_plist0 as [? Hw]. split; [done|]. intros p'. rewrite Hw.
    destruct (decide (p' = p)) as [->|]; [|by rewrite lookup_delete_ne by done].
    rewrite lookup_delete_eq, Hp. split; intros (x & ? & ?); simplify_eq. congruence.
  - intros h Hin. rewrite Hv. destruct (decide (h = HPort p)) as [->|Hne].
    + rewrite elem_of_app, !cnt_elem in Hin. lia.
    + apply i_ext0. by eapply g_but_ext.
  - destruct i_fresh0 as [Hf1 Hf2]. split; [done|]. intros p' [x [_ ?]%lookup_delete_Some]. eauto.
  - eapply tabs_ok_ext; [|done]. intros h. unfold hl_of. rewrite Hv. destruct (decide (h = HPort p)) as [->|]; [|done].
    cbn. by rewrite Hp.
Qed.

Lemma handle_decref_port_run s p pt :
  k_ports s !! p = Some pt ->
  handle_decref (HPort p) s =
  when (h_refcnt (p_handle pt) =? 1) (handle_destroy (HPort p)) (put_port p (set_refcnt_p (h_refcnt (p_handle pt) - 1) pt) s).
Proof.
  intros Hc. unfold handle_decref, get_handle, upd_handle.
  erewrite run_bind by (erewrite run_bind by (by apply get_port_run); done).
  erewrite run_bind by (by apply upd_port_run). done.
Qed.

(** The last reference frees the port, any other only decrements the count. *)
Definition port_less (p : Z) (pt : port) (s : kstate) : kstate :=
  if h_refcnt (p_handle pt) =? 1 then set_k_ports (delete p (k_ports s)) s
  else put_port p (set_refcnt_p (h_refcnt (p_handle pt) - 1) pt) s.

Lemma handle_decref_port_spec g g' s p pt :
  Inv g s -> k_ports s !! p = Some pt -> g_less (HPort p) g g' ->
  handle_decref (HPort p) s = Ret tt (port_less p pt s) /\ Inv g' (port_less p pt s).
Proof.
  intros HI Hp Hl. pose proof (i_port g s HI p pt Hp) as [P1 P2 P3 P4 P5]. unfold port_less.
  rewrite handle_decref_port_run with (pt := pt) by done. destruct Hl as [Hb Hc].
  pose proof (list_refs_nonneg (has_uctx s) (h_hlist (p_handle pt))).
  pose proof (cnt_nonneg (HPort p) (g_own g')). pose proof (cnt_nonneg (HPort p) (g_bor g')).
  destruct (Z.eqb_spec (h_refcnt (p_handle pt)) 1) as [E1|Hn1]; cbn [when].
  - assert (p_node pt = false /\ p_pending pt = [] /\ h_hlist (p_handle pt) = None) as (En & Ep & Eh).
    { destruct (p_node pt), (p_pending pt); cbn [length] in P1; try lia. split_and!; try done.
      destruct (h_hlist (p_handle pt)) as [l|] eqn:El; [|done]. cbn in P1. destruct (has_uctx s l); lia. }
    split.
    + unfold handle_destroy, get_handle. erewrite run_bind by (erewrite run_bind by (apply get_port_run; cbn; by rewrite lookup_insert_eq); done).
      cbn [p_handle set_refcnt_p set_p_handle h_ops set_h_refcnt]. rewrite P3. unfold port_handle_destroy.
      erewrite run_bind by (apply get_port_run; cbn; by rewrite lookup_insert_eq). unfold ipc_is_port. cbn.
      rewrite P3, Ep, En. cbn. unfold mbind, M_bind, modify. cbn. f_equal. unfold set_k_ports, put_port, set_k_ports. cbn.
      f_equal. apply delete_insert_eq.
    + eapply Inv_free_port; try done; rewrite En, Ep, Eh in P1; cbn in P1; lia.
  - split; [done|]. eapply Inv_put_port; try done. split; try done; cbn; lia.
Qed.

(** ** Shutting a port down *)

(** A pending server channel leaves the port's list; its node and the port
    reference that came with it are now the routine's. *)
Definition g_popped (p c : Z) (g : ghost) : ghost := Ghost (<[node_ref c := c]> (g_ov g)) (g_own g) (HPort p :: g_bor g).

Lemma pending_server g s p c ch :
  Inv g s -> k_chans s !! c = Some ch -> c_node ch = Some (PendingOn p) ->
  h_refcnt (c_handle ch) = 0 /\ has_flag (c_flags ch) IPC_CHAN_FLAG_SERVER = true /\
  (c_state ch = IPC_CHAN_STATE_ACCEPTING \/ c_state ch = IPC_CHAN_STATE_DISCONNECTING) /\
  exists pt, k_ports s !! p = Some pt /\ c ∈ p_pending pt.
Proof.
  intros HI Hc Hn. pose proof (co_node _ _ _ _ (i_chan g s HI c ch Hc)) as H. unfold node_ok in H. rewrite Hn in H.
  destruct H as (? & ? & ?). split_and!; [done..|]. apply (i_pend g s HI). eauto.
Qed.

Lemma Inv_unpend g s p pt c ch :
  Inv g s -> k_ports s !! p = Some pt -> k_chans s !! c = Some ch -> c_node ch = Some (PendingOn p) ->
  Inv (g_popped p c g)
      (put_chan c (set_c_node None ch) (put_port p (set_p_pending (unlink_addr c (p_pending pt)) pt) s)).
Proof.
  intros HI Hp Hc Hn. destruct (pending_server g s p c ch HI Hc Hn) as (Hrc & Hfl & Hst & pt' & Hp' & Hin). simplify_eq.
  pose proof (i_chan g s HI c ch Hc) as Hok. pose proof (i_port g s HI p pt Hp) as [P1 P2 P3 P4 P5].
  pose proof (length_unlink_addr c (p_pending pt) P4 Hin) as Hlen.
  eapply (Inv_release g _ s _ (node_ref c) c c ch (set_c_node None ch)); try done.
  - cbn. rewrite Hc. cbn. by rewrite Hn.
  - cbn. by rewrite lookup_insert_eq.
  - by eapply field_ref_other.
  - by left.
  - destruct Hok as [H1 H2 H3 H4 H5 H6 H7]. split; try done; cbn.
    + intros Hs. split; [by apply H3|]. right; right; right. exists (node_ref c). cbn. by rewrite lookup_insert_eq.
    + unfold state_ok in *. cbn. destruct Hst as [E|E]; by rewrite E in *.
    + intros E. destruct Hst; congruence.
  - cbn. intros p1 x Hx. map_cases Hx p p1.
    + split; try done; [|by apply NoDup_unlink_addr]. cbn. rewrite P1. destruct (decide _); [|done]. lia.
    + destruct (i_port g s HI p1 x Hx) as [Q1 Q2 Q3 Q4 Q5]. split; try done. cbn. destruct (decide _); [congruence|lia].
  - intros h. rewrite hview_put_chan, hview_put_port. destruct (decide _); [done|]. destruct (decide _); [done|].
    intros Hh. apply (i_ext g s HI). cbn in Hh. rewrite elem_of_app, elem_of_cons in Hh. rewrite elem_of_app.
    destruct Hh as [?|[?|?]]; [by left|congruence|by right].
  - destruct (HI). split_and!; cbn; try done.
    + intros p1 c1. specialize (i_pend0 p1 c1). destruct (decide (c1 = c)) as [->|Hc1].
      * rewrite lookup_insert_eq. split; [|intros (x & ? & ?); by simplify_eq]. intros (x & Hx & Hin1). exfalso.
        map_cases Hx p p1; [by apply elem_of_unlink_addr in Hin1 as []|].
        destruct (proj1 i_pend0) as (y & Hy & Hny); [eauto|]. congruence.
      * rewrite (lookup_insert_ne (k_chans s)), <- i_pend0 by done. destruct (decide (p1 = p)) as [->|].
        -- rewrite lookup_insert_eq, Hp. split; intros (x & ? & Hin1); simplify_eq; eexists; (split; [done|]).
           ++ by apply elem_of_unlink_addr in Hin1 as []. ++ by apply elem_of_unlink_addr.
        -- by rewrite lookup_insert_ne by done.
    + apply i_wait0.
    + intros c1. rewrite (proj2 i_wait0 c1). destruct (decide (c1 = c)) as [->|]; [|by rewrite lookup_insert_ne by done].
      rewrite lookup_insert_eq, Hc. split; intros (x & ? & ?); simplify_eq; congruence.
    + apply i_plist0.
    + intros p1. rewrite (proj2 i_plist0 p1). destruct (decide (p1 = p)) as [->|]; [|by rewrite lookup_insert_ne by done].
      rewrite lookup_insert_eq, Hp. split; intros (x & ? & ?); simplify_eq; by eexists.
    + intros c1. destruct i_fresh0 as [F1 F2]. rewrite lookup_insert_is_Some. intros [<-|[_ ?]]; eauto.
    + intros p1. destruct i_fresh0 as [F1 F2]. rewrite lookup_insert_is_Some. intros [<-|[_ ?]]; eauto.
    + eapply tabs_ok_ext; [|done]. intros h. unfold hl_of. rewrite hview_put_chan, hview_put_port.
      destruct (decide _) as [->|]; [cbn; by rewrite Hc|]. destruct (decide _) as [->|]; [cbn; by rewrite Hp|done].
Qed.

(** The parts that neither ports nor channels are in. *)
Definition frame_k (s s' : kstate) : Prop :=
  k_apps s' = k_apps s /\ k_hlists s' = k_hlists s /\ k_next s' = k_next s /\ k_kmem s' = k_kmem s /\
  k_allocs s' = k_allocs s /\ k_junk s' = k_junk s.

#[export] Instance frame_k_refl : Reflexive frame_k.
Proof. done. Qed.
#[export] Instance frame_k_trans : Transitive frame_k.
Proof.
  intros s1 s2 s3 (A1&A2&A3&A4&A5&A6) (B1&B2&B3&B4&B5&B6). unfold frame_k. by rewrite B1, B2, B3, B4, B5, B6.
Qed.

Lemma frame_frame_k s s' : frame s s' -> frame_k s s'.
Proof. intros (A1&A2&A3&A4&A5&A6&A7&A8). done. Qed.

Lemma chan_node_delete_pend s c ch p pt :
  k_chans s !! c = Some ch -> c_node ch = Some (PendingOn p) -> k_ports s !! p = Some pt ->
  chan_node_delete c s =
  Ret tt (put_chan c (set_c_node None ch) (put_port p (set_p_pending (unlink_addr c (p_pending pt)) pt) s)).
Proof.
  intros Hc Hn Hp. unfold chan_node_delete. rewrite (run_bind _ _ _ _ _ (get_chan_run _ _ _ Hc)), Hn.
  rewrite (run_bind _ _ _ _ _ (upd_port_run _ _ _ _ Hp)). by erewrite upd_chan_run.
Qed.

Lemma shut1_pending ch :
  c_state ch = IPC_CHAN_STATE_ACCEPTING \/ c_state ch = IPC_CHAN_STATE_DISCONNECTING ->
  c_node (shut1 ch) = c_node ch /\ c_state (shut1 ch) = IPC_CHAN_STATE_DISCONNECTING.
Proof. unfold shut1. by intros [E|E]; rewrite E. Qed.

Definition drop_pending (c : Z) (pt : port) : port :=
  set_refcnt_p (h_refcnt (p_handle pt) - 1) (set_p_pending (unlink_addr c (p_pending pt)) pt).

Lemma port_drop_pending_spec g s p pt c :
  Inv g s -> k_ports s !! p = Some pt -> c ∈ p_pending pt -> HPort p ∈ g_own g ->
  exists s', port_drop_pending p c s = Ret tt s' /\ Inv g s' /\
    k_ports s' = <[p := drop_pending c pt]> (k_ports s) /\ ipc_port_list s' = ipc_port_list s /\ frame_k s s'.
Proof.
  intros HI Hp Hin Hown. destruct (proj1 (i_pend g s HI p c)) as (ch & Hc & Hn); [eauto|].
  destruct (pending_server g s p c ch HI Hc Hn) as (Hrc & _ & Hst & _).
  destruct (chan_shutdown_locked_spec g s c ch HI Hc) as (s1 & R1 & HI1 & F1 & Hc1 & _).
  { intros E. destruct Hst; congruence. }
  destruct (shut1_pending ch Hst) as (Hn1 & Hst1). set (ch1 := set_c_peer None (shut1 ch)) in *.
  assert (k_ports s1 !! p = Some pt) as Hp1 by (destruct F1 as (-> & _); done).
  assert (c_node ch1 = Some (PendingOn p)) as Hn1' by (cbn; by rewrite Hn1).
  unfold port_drop_pending. rewrite (run_bind _ _ _ _ _ R1).
  rewrite (run_bind _ _ _ _ _ (chan_node_delete_pend s1 c ch1 p pt Hc1 Hn1' Hp1)).
  pose proof (Inv_unpend g s1 p pt c ch1 HI1 Hp1 Hc1 Hn1') as HI2.
  set (pt2 := set_p_pending _ pt) in *. set (s2 := put_chan c _ _) in *. set (g2 := g_popped p c g) in *.
  assert (k_chans s2 !! c = Some (set_c_node None ch1)) as Hc2 by (cbn; by rewrite lookup_insert_eq).
  pose proof (ov_node_none g s1 c ch1 HI1 Hc1 ltac:(by rewrite Hn1')) as Hov.
  destruct (chan_del_ref_spec g2 s2 (node_ref c) c _ HI2 ltac:(cbn; by rewrite lookup_insert_eq) Hc2) as (s3 & R3 & HI3 & D3).
  { apply (chan_ok_peerless _ g2); [done|cbn; congruence|done|done|]. by apply (i_chan g2 s2 HI2). }
  rewrite (run_bind _ _ _ _ _ R3).
  assert (k_ports s3 = <[p := pt2]> (k_ports s) /\ ipc_port_list s3 = ipc_port_list s /\ frame_k s s3) as (Ep3 & El3 & F3).
  { destruct F1 as (E1 & E2 & E3 & E4 & E5 & E6 & E7 & E8).
    destruct D3 as [(? & _ & _ & ->)|(_ & ->)]; cbn; rewrite E1; (split_and!; [done..|]); unfold frame_k; cbn; by rewrite E3, E4, E5, E6, E7, E8. }
  assert (k_ports s3 !! p = Some pt2) as Hp3 by (by rewrite Ep3, lookup_insert_eq).
  pose proof (i_port _ s3 HI3 p pt2 Hp3) as [P1 _ _ _ _].
  destruct (handle_decref_port_spec (g_unpin (node_ref c) g2) g s3 p pt2 HI3 Hp3) as (R4 & HI4).
  { split; [split|]; cbn.
    - by rewrite delete_insert_id.
    - intros h Hne. split; [done|]. destruct (decide _); [congruence|lia].
    - destruct (decide _); [|done]. lia. }
  assert (h_refcnt (p_handle pt2) =? 1 = false) as Hne1.
  { apply cnt_elem in Hown. rewrite P1. cbn [g_own g_bor g_unpin g2 g_popped cnt]. destruct (decide _); [|done].
    pose proof (cnt_nonneg (HPort p) (g_bor g)). pose proof (list_refs_nonneg (has_uctx s3) (h_hlist (p_handle pt2))).
    destruct (p_node pt2); lia. }
  unfold port_less in *. rewrite Hne1 in *. eexists. split; [exact R4|]. split; [done|].
  cbn. rewrite Ep3, insert_insert_eq, El3. done.
Qed.

(** Unlinking the port from [ipc_port_list]: the reference the list held becomes
    the routine's. *)
Lemma Inv_unpublish g s p pt :
  Inv g s -> k_ports s !! p = Some pt -> p_node pt = true ->
  Inv (Ghost (g_ov g) (g_own g) (HPort p :: g_bor g))
      (put_port p (set_p_node false pt) (set_ipc_port_list (unlink_addr p (ipc_port_list s)) s)).
Proof.
  intros HI Hp Hn. set (s' := put_port _ _ _). assert (has_uctx s' = has_uctx s) as Eu by done.
  destruct (HI). split; rewrite ?Eu; cbn; try done.
  - intros c x Hx. destruct (i_chan0 c x Hx) as [H1 H2 H3 H4 H5 H6 H7]. by split.
  - intros p1 x Hx. map_cases Hx p p1.
    + destruct (i_port0 p pt Hp) as [P1 P2 P3 P4 P5]. split; try done. cbn. rewrite P1, Hn. destruct (decide _); [lia|done].
    + destruct (i_port0 p1 x Hx) as [P1 P2 P3 P4 P5]. split; try done. cbn. destruct (decide _); [congruence|lia].
  - intros p1 c1. rewrite <- i_pend0. destruct (decide (p1 = p)) as [->|]; [|by rewrite lookup_insert_ne by done].
    rewrite lookup_insert_eq, Hp. split; intros (x & ? & ?); simplify_eq; by eexists.
  - destruct i_plist0 as [Hnd Hpl]. split; [by apply NoDup_unlink_addr|]. intros p1. rewrite elem_of_unlink_addr, Hpl.
    destruct (decide (p1 = p)) as [->|].
    + rewrite lookup_insert_eq. split; [by intros []|]. intros (x & ? & ?). by simplify_eq.
    + rewrite lookup_insert_ne by done. by intuition.
  - intros h Hh. unfold s'. rewrite hview_put_port. destruct (decide _); [done|]. apply i_ext0. cbn in Hh.
    rewrite elem_of_app, elem_of_cons in Hh. rewrite elem_of_app. destruct Hh as [?|[?|?]]; [by left|congruence|by right].
  - destruct i_fresh0 as [Hf1 Hf2]. split; [done|]. intros p'. rewrite lookup_insert_is_Some. intros [<-|[_ ?]]; eauto.
  - eapply tabs_ok_ext; [|done]. intros h. unfold hl_of, s'. rewrite hview_put_port. destruct (decide _) as [->|]; [|done].
    cbn. by rewrite Hp.
Qed.

Lemma port_drop_all_spec g p l : HPort p ∈ g_own g -> forall s pt,
  Inv g s -> k_ports s !! p = Some pt -> p_pending pt = l ->
  exists s' pt', mfor (port_drop_pending p) l s = Ret tt s' /\ Inv g s' /\ frame_k s s' /\
    k_ports s' = <[p := pt']> (k_ports s) /\ p_pending pt' = [] /\ p_node pt' = p_node pt /\
    h_hlist (p_handle pt') = h_hlist (p_handle pt) /\ ipc_port_list s' = ipc_port_list s.
Proof.
  intros Hown. induction l as [|c l IH]; intros s pt HI Hp Hl.
  - exists s, pt. by rewrite insert_id.
  - destruct (port_drop_pending_spec g s p pt c HI Hp) as (s1 & R1 & HI1 & Ep1 & El1 & F1); [rewrite Hl; by left|done|].
    pose proof (po_nodup _ _ _ _ (i_port g s HI p pt Hp)) as Hnd. rewrite Hl in Hnd. apply NoDup_cons in Hnd as [Hc Hnd].
    assert (unlink_addr c (c :: l) = l) as Eu.
    { unfold unlink_addr. rewrite filter_cons_False by (intros H; by apply H). by apply unlink_addr_notin. }
    destruct (IH s1 (drop_pending c pt) HI1) as (s2 & pt' & R2 & HI2 & F2 & Ep2 & E1 & E2 & E3 & El2).
    { by rewrite Ep1, lookup_insert_eq. }
    { cbn. by rewrite Hl. }
    exists s2, pt'. cbn. rewrite (run_bind _ _ _ _ _ R1). split_and!; try done.
    + by transitivity s1. + by rewrite Ep2, Ep1, insert_insert_eq. + congruence.
Qed.

Lemma port_shutdown_spec g s p pt :
  Inv g s -> k_ports s !! p = Some pt -> HPort p ∈ g_own g ->
  exists s' pt', port_shutdown p s = Ret tt s' /\ Inv g s' /\ frame_k s s' /\
    k_ports s' = <[p := pt']> (k_ports s) /\ p_pending pt' = [] /\ p_node pt' = false /\
    h_hlist (p_handle pt') = h_hlist (p_handle pt).
Proof.
  intros HI Hp Hown. pose proof (i_port g s HI p pt Hp) as [P1 P2 P3 P4 P5].
  unfold port_shutdown. rewrite (run_bind _ _ _ _ _ (get_port_run _ _ _ Hp)).
  unfold assert_, ipc_is_port. rewrite bool_decide_eq_true_2 by done. cbn [mret M_ret].
  set (pt1 := set_p_state IPC_PORT_STATE_CLOSING pt). set (s1 := put_port p pt1 s).
  assert (Inv g s1) as HI1 by (by eapply Inv_put_port).
  assert (k_ports s1 !! p = Some pt1) as Hp1 by (cbn; by rewrite lookup_insert_eq).
  rewrite (run_bind _ _ s tt s) by done. rewrite (run_bind _ _ _ _ _ (upd_port_run _ _ _ _ Hp)). fold s1.
  assert (exists s2 pt2, when (p_node pt)
      (modify (fun s => set_ipc_port_list (unlink_addr p (ipc_port_list s)) s);;
       upd_port p (set_p_node false);; handle_decref (HPort p)) s1 = Ret tt s2 /\ Inv g s2 /\ frame_k s s2 /\
      k_ports s2 = <[p := pt2]> (k_ports s) /\ p_pending pt2 = p_pending pt /\ p_node pt2 = false /\
      h_hlist (p_handle pt2) = h_hlist (p_handle pt)) as (s2 & pt2 & R2 & HI2 & F2 & Ep2 & Epd2 & En2 & Eh2).
  { destruct (p_node pt) eqn:En; cbn [when].
    2:{ exists s1, pt1. done. }
    pose proof (Inv_unpublish g s1 p pt1 HI1 Hp1 En) as HI2. set (s2 := put_port p (set_p_node false pt1) _) in HI2.
    assert (k_ports s2 !! p = Some (set_p_node false pt1)) as Hp2 by (cbn; by rewrite lookup_insert_eq).
    destruct (handle_decref_port_spec _ g s2 p _ HI2 Hp2) as (R3 & HI3).
    { split; [split|]; cbn; [done| |]; [intros h Hne; split; [done|]; destruct (decide _); [congruence|lia]|].
      destruct (decide _); [lia|done]. }
    assert (h_refcnt (p_handle (set_p_node false pt1)) =? 1 = false) as Hne1.
    { apply Z.eqb_neq. cbn. rewrite P1. apply cnt_elem in Hown. pose proof (cnt_nonneg (HPort p) (g_bor g)).
      pose proof (list_refs_nonneg (has_uctx s) (h_hlist (p_handle pt))). lia. }
    unfold port_less in *. rewrite Hne1 in *. eexists _, _. split; [|split; [exact HI3|]].
    - unfold mbind at 1, M_bind, modify. rewrite (run_bind _ _ _ tt s2); [done|]. by erewrite upd_port_run.
    - split; [done|]. split; [cbn; by rewrite !insert_insert_eq|]. done. }
  rewrite (run_bind _ _ _ _ _ R2). assert (k_ports s2 !! p = Some pt2) as Hp2 by (by rewrite Ep2, lookup_insert_eq).
  rewrite (run_bind _ _ _ _ _ (get_port_run _ _ _ Hp2)).
  destruct (port_drop_all_spec g p (p_pending pt2) Hown s2 pt2 HI2 Hp2 eq_refl)
    as (s3 & pt3 & R3 & HI3 & F3 & Ep3 & E1 & E2 & E3 & _).
  exists s3, pt3. split_and!; try done.
  - by transitivity s2. - by rewrite Ep3, Ep2, insert_insert_eq. - congruence. - congruence.
Qed.

(** A reference of the running routine that is not in any table. *)
Definition g_own1 (h : href) (g : ghost) : ghost := Ghost (g_ov g) (h :: g_own g) (g_bor g).
Definition g_bor1 (h : href) (g : ghost) : ghost := Ghost (g_ov g) (g_own g) (h :: g_bor g).

Lemma g_own1_less h g : g_less h (g_own1 h g) g.
Proof.
  split; [split; [done|]|]; cbn; [intros h' Hne; split; [|done]|]; destruct (decide _); congruence || lia.
Qed.
Lemma g_bor1_less h g : g_less h (g_bor1 h g) g.
Proof.
  split; [split; [done|]|]; cbn; [intros h' Hne; split; [done|]|]; destruct (decide _); congruence || lia.
Qed.

Lemma own1_elem h g : h ∈ g_own (g_own1 h g) ++ g_bor (g_own1 h g).
Proof. rewrite elem_of_app. left. by left. Qed.
Lemma bor1_elem h g : h ∈ g_own (g_bor1 h g) ++ g_bor (g_bor1 h g).
Proof. rewrite elem_of_app. right. by left. Qed.

(** [handle_close] of an owned handle shuts the object down and gives the
    reference back. *)
Lemma handle_close_spec g s h :
  Inv (g_own1 h g) s -> (forall c, ~ pinned g c) ->
  exists s', handle_close h s = Ret tt s' /\ Inv g s' /\ frame_k s s'.
Proof.
  intros HI Hnp. destruct (i_ext _ s HI h (own1_elem h g)) as [x Hx]. unfold handle_close, handle_shutdown, get_handle.
  assert (h ∈ g_own (g_own1 h g)) as Hown by (by left).
  destruct h as [p|c]; cbn in Hx.
  - destruct (k_ports s !! p) as [pt|] eqn:Hp; [|done]. pose proof (i_port _ s HI p pt Hp) as [P1 P2 P3 P4 P5].
    destruct (port_shutdown_spec _ s p pt HI Hp Hown) as (s1 & pt1 & R1 & HI1 & F1 & Ep1 & _).
    erewrite run_bind.
    2:{ erewrite run_bind by (erewrite run_bind by (by apply get_port_run); done). rewrite P3. exact R1. }
    assert (k_ports s1 !! p = Some pt1) as Hp1 by (by rewrite Ep1, lookup_insert_eq).
    destruct (handle_decref_port_spec _ g s1 p pt1 HI1 Hp1 (g_own1_less _ g)) as (R2 & HI2).
    eexists. split; [exact R2|]. split; [done|]. transitivity s1; [done|]. unfold port_less. by destruct (_ =? _).
  - destruct (k_chans s !! c) as [ch|] eqn:Hc; [|done]. pose proof (i_chan _ s HI c ch Hc) as Hok.
    pose proof (less_refcnt _ _ _ _ _ Hok (g_own1_less _ g)) as Hpos.
    assert (can_shut (g_own1 (HChan c) g) c ch) as Hcs.
    { intros E. pose proof (co_state _ _ _ _ Hok) as Hst. unfold state_ok in Hst. rewrite E in Hst.
      split; [|by left]. destruct Hst as [_ [?|Hpin]]; [done|]. by destruct (Hnp c). }
    destruct (chan_shutdown_locked_spec _ s c ch HI Hc Hcs) as (s1 & R1 & HI1 & F1 & Hc1 & _).
    erewrite run_bind.
    2:{ erewrite run_bind by (erewrite run_bind by (by apply get_chan_run); done). rewrite (co_ops _ _ _ _ Hok Hpos).
        unfold chan_shutdown. erewrite run_bind by (by apply get_chan_run). unfold assert_, ipc_is_channel.
        rewrite bool_decide_eq_true_2 by (by apply (co_ops _ _ _ _ Hok)). rewrite (run_bind _ _ s tt s) by done. exact R1. }
    destruct (handle_decref_chan_spec _ g s1 c _ HI1 Hc1 (g_own1_less _ g)) as (s2 & R2 & HI2 & F2 & _).
    { intros [[]|E]; [done|]. cbn in E. destruct (shut1_state ch) as [|[? _]]; congruence. }
    exists s2. split; [done|]. split; [done|]. apply frame_frame_k. by transitivity s1.
Qed.
