(* ===== verification/IpcSafe.v ===== *)
(** * The IPC routines preserve the invariant

    Creating, connecting, accepting, publishing and closing; the handle tables;
    messages.  Each routine, started in a state that satisfies the invariant,
    runs to its end and leaves the invariant. *)

From stdpp Require Import base tactics list gmap.
From Stdlib Require Import ZArith Lia.
From S2P Require Import Prelude Iovec MsgQueue Kernel Channel Handle Uctx Ipc IpcMsg IpcInv.

(** ** Linking *)

Definition peers_ok (s : kstate) : Prop :=
  forall c ch pc, k_chans s !! c = Some ch -> c_peer ch = Some pc ->
    pc <> c /\ exists pch, k_chans s !! pc = Some pch /\ is_Some (c_msg_queue pch) /\
    (c_peer pch = None \/ c_peer pch = Some c).

Lemma peers_keep s s' c ch ch' :
  peers_ok s -> k_chans s !! c = Some ch -> k_chans s' = <[c := ch']> (k_chans s) ->
  c_peer ch' = c_peer ch -> (is_Some (c_msg_queue ch) -> is_Some (c_msg_queue ch')) -> peers_ok s'.
Proof.
  intros Hpe Hc Ec Hp Hq c1 x pc. rewrite Ec. intros Hx Hpc.
  assert (exists x0, k_chans s !! c1 = Some x0 /\ c_peer x0 = Some pc) as (x0 & Hx0 & Hpc0).
  { map_cases Hx c c1; [|eauto]. exists ch. split; [done|]. congruence. }
  destruct (Hpe _ _ _ Hx0 Hpc0) as (Hne & pch & Hpch & Hq1 & Hpp). split; [done|].
  destruct (decide (pc = c)) as [->|].
  - exists ch'. rewrite lookup_insert_eq. simplify_eq. rewrite Hp. auto.
  - exists pch. by rewrite lookup_insert_ne by done.
Qed.

(** A field of channel [c] takes a reference and its node [r0] is linked. *)
Lemma Inv_acquire g g' s s' r0 tgt c ch ch' :
  Inv g s -> k_chans s !! c = Some ch ->
  g_ov g !! r0 = None -> field_ref s r0 = None -> field_ref s' r0 = Some tgt ->
  (forall r, r <> r0 -> field_ref s' r = field_ref s r) ->
  chan_ok (has_uctx s) g' c ch' ->
  k_chans s' = <[c := ch']> (k_chans s) -> k_refs s' = <[r0 := tgt]> (k_refs s) -> k_apps s' = k_apps s ->
  g_ov g' = g_ov g ->
  (forall c', c' <> c -> cnt (HChan c') (g_own g') = cnt (HChan c') (g_own g) /\ cnt (HChan c') (g_bor g') = cnt (HChan c') (g_bor g)) ->
  (forall p pt, k_ports s' !! p = Some pt -> port_ok (has_uctx s) g' p pt) ->
  (forall h, h ∈ g_own g' ++ g_bor g' -> is_Some (hview s' h)) ->
  peers_ok s' -> lists_ok s' -> Inv g' s'.
Proof.
  intros HI Hc Hov Hf0 Hr0 Hf Hok Ec Er Ea Eov Ecnt Hports Hext Hpe HL.
  assert (forall c' x, c' <> c -> chan_ok (has_uctx s) g c' x -> chan_ok (has_uctx s) g' c' x) as Hgg.
  { intros c' x Hne [H1 H2 H3 H4 H5 H6 H7]. destruct (Ecnt c' Hne) as [Eo Eb]. split; try done.
    - by rewrite Eo, Eb.
    - intros Hs. destruct (H3 Hs) as [? Ho]. split; [done|]. unfold owned, pinned in *. rewrite Eov.
      rewrite cnt_elem, Eo, <- cnt_elem. done.
    - unfold state_ok, pinned in *. rewrite Eov. done.
    - intros E. specialize (H7 E). unfold owned, pinned in *. rewrite Eov. rewrite cnt_elem, Eo, <- cnt_elem. done. }
  destruct (HI). destruct HL as (L1 & L2 & L3 & L4 & L5). split; try done; unfold has_uctx in *; rewrite ?Ea.
  - rewrite Ec. intros c' x Hx. map_cases Hx c c'; [done|]. by apply Hgg, i_chan.
  - done.
  - intros r. rewrite Er. unfold ref_of. rewrite Eov. destruct (decide (r = r0)) as [->|].
    + by rewrite lookup_insert_eq, Hov.
    + rewrite lookup_insert_ne, i_refs by done. unfold ref_of. destruct (g_ov g !! r); [done|]. by rewrite Hf.
  - intros r c1. rewrite Eov, Ec, lookup_insert_is_Some. intros Ho. destruct (i_ov r c1 Ho).
    rewrite Hf by congruence. split; [done|]. destruct (decide (c = c1)); auto.
  - intros c1. rewrite Ec, Er, lookup_insert_is_Some. intros Hc1.
    destruct (i_held c1) as [r Hr]; [destruct Hc1 as [<-|[_ ?]]; eauto|]. exists r.
    rewrite lookup_insert_ne; [done|]. intros <-. rewrite i_refs in Hr. unfold ref_of in Hr. rewrite Hov in Hr. congruence.
Qed.

(** ** New channels *)

(** Allocations fail only as the list of answers says. *)
Lemma kmalloc_run s :
  exists b l, kmalloc s = Ret b (set_k_allocs l s) /\ (k_allocs s = [] -> b = true /\ l = []).
Proof.
  unfold kmalloc, mbind, M_bind, get, modify. destruct (k_allocs s) as [|b l] eqn:E.
  - exists true, []. rewrite <- E. by destruct s.
  - by exists b, l.
Qed.

Lemma Inv_allocs g s l : Inv g s -> Inv g (set_k_allocs l s).
Proof. apply Inv_same. by repeat split. Qed.

Definition tmp_ref (r : obj_ref) : Prop := r = tmp_client_ref \/ r = tmp_server_ref.

Lemma tmp_field s r : tmp_ref r -> field_ref s r = None.
Proof. by intros [-> | ->]. Qed.

(** The state with a new channel that only [r] refers to. *)
Definition alloc_state (c : Z) (ch : chan) (r : obj_ref) (s : kstate) : kstate :=
  set_k_refs (<[r := c]> (k_refs s)) (put_chan c ch (set_k_next (k_next s + 1) s)).

Lemma Inv_alloc g s r fl u :
  Inv g s -> tmp_ref r -> g_ov g !! r = None ->
  Inv (g_pin r (k_next s) g) (alloc_state (k_next s) (new_chan fl u) r s).
Proof.
  intros HI Hr Hov. set (c := k_next s). set (ch := new_chan fl u). set (s' := alloc_state _ _ _ _).
  assert (k_chans s !! c = None) as Hc.
  { destruct (k_chans s !! c) eqn:E; [|done]. assert (c < k_next s) by (apply (proj1 (i_fresh g s HI)); by rewrite E). unfold c in *. lia. }
  assert (cnt (HChan c) (g_own g) = 0 /\ cnt (HChan c) (g_bor g) = 0) as [Ho Hb].
  { assert (HChan c ∉ g_own g ++ g_bor g) as Hn.
    { intros Hin. destruct (i_ext g s HI _ Hin) as [x Hx]. cbn in Hx. by rewrite Hc in Hx. }
    rewrite elem_of_app, !cnt_elem in Hn. pose proof (cnt_nonneg (HChan c) (g_own g)).
    pose proof (cnt_nonneg (HChan c) (g_bor g)). lia. }
  assert (forall r', field_ref s' r' = field_ref s r') as Hf.
  { intros [c'|c'|c'| |]; cbn; try done;
      (destruct (decide (c' = c)) as [->|]; [by rewrite lookup_insert_eq, Hc|by rewrite lookup_insert_ne by done]). }
  assert (forall h, hview s' h = if decide (h = HChan c) then Some zeroed_handle else hview s h) as Hv.
  { intros [p'|c']; cbn; [done|]. destruct (decide (HChan c' = HChan c)) as [[= ->]|Hne].
    - by rewrite lookup_insert_eq. - rewrite lookup_insert_ne by congruence. done. }
  destruct (HI). split; cbn; try done.
  - intros c' x Hx. map_cases Hx c c'; [|by apply chan_ok_pin, i_chan].
    split; try done; cbn; [lia|by intros []].
  - intros p pt Hp. destruct (i_port p pt Hp) as [P1 P2 P3 P4 P5]. by split.
  - intros r'. unfold ref_of. cbn. destruct (decide (r' = r)) as [->|]; [by rewrite !lookup_insert_eq|].
    rewrite !lookup_insert_ne, i_refs by done. unfold ref_of. destruct (g_ov g !! r'); [done|]. by rewrite Hf.
  - intros r' c'. rewrite Hf. destruct (decide (r' = r)) as [->|].
    + rewrite lookup_insert_eq. intros [= <-]. split; [by apply tmp_field|]. by rewrite lookup_insert_eq.
    + rewrite lookup_insert_ne by done. intros Ho'. destruct (i_ov r' c' Ho') as [? ?]. split; [done|].
      rewrite lookup_insert_is_Some. destruct (decide (c = c')); auto.
  - intros c'. destruct (decide (c' = c)) as [->|]; [intros _; exists r; by rewrite lookup_insert_eq|].
    rewrite lookup_insert_ne by done. intros Hc'. destruct (i_held c' Hc') as [r' Hr']. exists r'.
    rewrite lookup_insert_ne; [done|]. intros <-. rewrite i_refs in Hr'. unfold ref_of in Hr'. rewrite Hov in Hr'.
    by rewrite tmp_field in Hr'.
  - intros c1 x pc Hx Hpc. map_cases Hx c c1. destruct (i_peer c1 x pc Hx Hpc) as (? & pch & ? & ? & ?). split; [done|].
    exists pch. rewrite lookup_insert_ne; [done|]. congruence.
  - intros p c1. rewrite i_pend. destruct (decide (c1 = c)) as [->|]; [|by rewrite lookup_insert_ne by done].
    rewrite lookup_insert_eq, Hc. split; intros (x & ? & ?); by simplify_eq.
  - destruct i_wait as [? Hw]. split; [done|]. intros c1. rewrite Hw.
    destruct (decide (c1 = c)) as [->|]; [|by rewrite lookup_insert_ne by done].
    rewrite lookup_insert_eq, Hc. split; intros (x & ? & ?); by simplify_eq.
  - intros h Hin. rewrite Hv. destruct (decide _); [done|]. by apply i_ext.
  - destruct i_fresh as [F1 F2]. split; [|intros p Hp; specialize (F2 p Hp); lia]. intros c1.
    rewrite lookup_insert_is_Some. unfold c. intros [<-|[_ H1]]; [lia|]. specialize (F1 c1 H1). lia.
  - eapply tabs_ok_ext; [|done]. intros h. unfold hl_of. rewrite Hv. destruct (decide _) as [->|]; [|done]. cbn. by rewrite Hc.
Qed.

Lemma chan_alloc_spec g s fl u r :
  Inv g s -> tmp_ref r -> g_ov g !! r = None ->
  (exists l, chan_alloc fl u r s = Ret None (set_k_allocs l s) /\ k_allocs s <> []) \/
  (exists l, chan_alloc fl u r s = Ret (Some (k_next s)) (set_k_allocs l (alloc_state (k_next s) (new_chan fl u) r s)) /\
        (k_allocs s = [] -> l = []) /\
        Inv (g_pin r (k_next s) g) (set_k_allocs l (alloc_state (k_next s) (new_chan fl u) r s))).
Proof.
  intros HI Hr Hov. unfold chan_alloc. destruct (kmalloc_run s) as (b & l & Hk & Ha). rewrite (run_bind _ _ _ _ _ Hk).
  destruct b; [right|left]; exists l; (split; [done|]).
  - split; [by intros []%Ha|]. apply Inv_allocs. by apply Inv_alloc.
  - by intros []%Ha.
Qed.

Lemma chan_add_ref_run s c ch r :
  k_chans s !! c = Some ch -> k_refs s !! r = None -> chan_add_ref c r s = Ret tt (set_k_refs (<[r := c]> (k_refs s)) s).
Proof.
  intros Hc Hr. unfold chan_add_ref. rewrite (run_bind _ _ _ _ _ (get_chan_run _ _ _ Hc)).
  unfold mbind, M_bind, get, assert_. rewrite Hr. done.
Qed.

(** [chan_handle_init]: the caller owns the new handle. *)
Definition init_handle_c (ch : chan) : chan := set_c_handle (Handle 1 (Some ipc_chan_handle_ops) None None 0) ch.

Lemma chan_handle_init_spec g s c ch :
  Inv g s -> k_chans s !! c = Some ch -> h_refcnt (c_handle ch) = 0 -> g_ov g !! handle_ref c = None ->
  (forall p, c_node ch <> Some (PendingOn p)) ->
  exists s', chan_handle_init c s = Ret (HChan c) s' /\ Inv (g_own1 (HChan c) g) s' /\ frame s s' /\
    k_chans s' = <[c := init_handle_c ch]> (k_chans s) /\ waiting_for_port_chan_list s' = waiting_for_port_chan_list s /\
    k_events s' = k_events s.
Proof.
  intros HI Hc Hrc Hov Hn. set (ch' := init_handle_c ch). set (s1 := put_chan c ch' s).
  set (s' := set_k_refs (<[handle_ref c := c]> (k_refs s)) s1).
  pose proof (i_chan g s HI c ch Hc) as Hok. pose proof (co_refcnt _ _ _ _ Hok) as Er. rewrite Hrc in Er.
  pose proof (cnt_nonneg (HChan c) (g_own g)). pose proof (cnt_nonneg (HChan c) (g_bor g)).
  pose proof (list_refs_nonneg (has_uctx s) (h_hlist (c_handle ch))).
  assert (h_hlist (c_handle ch) = None) as Eh.
  { destruct (h_hlist (c_handle ch)) as [l|] eqn:E; [|done]. cbn in Er. destruct (has_uctx s l); lia. }
  assert (field_ref s (handle_ref c) = None) as Hf0 by (cbn; rewrite Hc; cbn; by rewrite Hrc).
  exists s'. split; [|split; [|done]].
  - unfold chan_handle_init, handle_init, upd_handle. erewrite run_bind by (by apply upd_chan_run).
    erewrite run_bind; [done|]. apply (chan_add_ref_run s1 c ch'); cbn; [by rewrite lookup_insert_eq|].
    rewrite (i_refs g s HI). unfold ref_of. by rewrite Hov.
  - eapply (Inv_acquire g _ s s' (handle_ref c) c c ch ch'); try done.
    + cbn. by rewrite lookup_insert_eq.
    + by eapply field_ref_other.
    + destruct Hok as [A1 A2 A3 A4 A5 A6 A7]. split; try done; cbn.
      * rewrite Eh in *. cbn in *. destruct (decide _); [|done]. lia.
      * intros Hp. destruct (A3 Hp) as [? _]. split; [done|]. right; left. by left.
      * unfold node_ok in *. cbn. destruct (c_node ch) as [[|p]|]; [done| |done]. by destruct (Hn p).
      * intros _. right; left. by left.
    + intros c' Hne. cbn. destruct (decide _); [congruence|]. split; lia.
    + intros p pt Hp. cbn in Hp. destruct (i_port g s HI p pt Hp) as [P1 P2 P3 P4 P5]. by split.
    + intros h Hin. change (hview s' h) with (hview s1 h). unfold s1. rewrite hview_put_chan. destruct (decide _) as [|Hne]; [done|].
      apply (i_ext g s HI). cbn in Hin. apply elem_of_cons in Hin as [?|?]; done.
    + eapply (peers_keep s); [exact (i_peer g s HI)|done|done|done|done].
    + apply (put_chan_lists s c ch); [by eapply Inv_lists|done|done|done].
Qed.

(** A client starts to wait for a port. *)
Definition wait_chan (path : cstring) (ch : chan) : chan :=
  set_c_node (Some WaitingForPort) (set_c_state IPC_CHAN_STATE_WAITING_FOR_PORT (set_c_path (Some path) ch)).

Definition wait_state (c : Z) (ch : chan) (s : kstate) : kstate :=
  set_k_refs (<[node_ref c := c]> (k_refs s))
    (put_chan c ch (set_waiting_for_port_chan_list (waiting_for_port_chan_list s ++ [c]) s)).

Lemma Inv_wait g s c ch path :
  Inv g s -> k_chans s !! c = Some ch -> c_state ch = IPC_CHAN_STATE_INVALID -> c_msg_queue ch = None ->
  g_ov g !! node_ref c = None -> pinned g c -> Inv g (wait_state c (wait_chan path ch) s).
Proof.
  intros HI Hc Hst Hq Hov Hpin. pose proof (i_chan g s HI c ch Hc) as Hok.
  assert (c_peer ch = None /\ c_node ch = None) as [Hp Hn].
  { pose proof (co_state _ _ _ _ Hok) as H. unfold state_ok in H. by rewrite Hst in H. }
  eapply (Inv_acquire g g s _ (node_ref c) c c ch (wait_chan path ch)); try done.
  - cbn. rewrite Hc. cbn. by rewrite Hn.
  - cbn. by rewrite lookup_insert_eq.
  - by eapply field_ref_other.
  - destruct Hok as [H1 H2 H3 H4 H5 H6 H7]. split; try done; cbn.
    + rewrite Hp. by intros [].
    + unfold state_ok. cbn. rewrite Hp. auto.
    + intros _. right; right; right. done.
  - intros p pt Hpt. cbn in Hpt. by apply (i_port g s HI).
  - intros h Hin. change (is_Some (hview (put_chan c (wait_chan path ch) s) h)). rewrite hview_put_chan.
    destruct (decide _); [done|]. by apply (i_ext g s HI).
  - eapply (peers_keep s); [exact (i_peer g s HI)|done|done|done|done].
  - destruct (HI). split_and!; cbn; try done.
    + intros p c1. rewrite i_pend. destruct (decide (c1 = c)) as [->|]; [|by rewrite lookup_insert_ne by done].
      rewrite lookup_insert_eq, Hc. split; intros (x & ? & ?); simplify_eq; congruence.
    + apply NoDup_app. split_and!; [apply i_wait| |apply NoDup_singleton].
      intros x Hx Hx1. apply list_elem_of_singleton in Hx1 as ->. apply i_wait in Hx as (y & ? & ?). congruence.
    + intros c1. rewrite elem_of_app, list_elem_of_singleton, (proj2 i_wait c1).
      destruct (decide (c1 = c)) as [->|]; [rewrite lookup_insert_eq; split; [|by right]; by eexists|].
      rewrite lookup_insert_ne by done. intuition congruence.
    + apply i_plist.
    + apply i_plist.
    + intros c1. destruct i_fresh as [F1 F2]. rewrite lookup_insert_is_Some. intros [<-|[_ ?]]; eauto.
    + apply i_fresh.
    + eapply tabs_ok_ext; [|done]. intros h. unfold hl_of.
      change (hview (put_chan c (wait_chan path ch) s) h ≫= h_hlist = hview s h ≫= h_hlist).
      rewrite hview_put_chan. destruct (decide _) as [->|]; [|done]. cbn. by rewrite Hc.
Qed.

(** ** Connecting a client to a port *)

Definition accepting (client : Z) (sv : chan) : chan := set_c_peer (Some client) (set_c_state IPC_CHAN_STATE_ACCEPTING sv).
Definition connecting (server : Z) (cl : chan) : chan := set_c_peer (Some server) (set_c_state IPC_CHAN_STATE_CONNECTING cl).
Definition pend_on (p : Z) (sv : chan) : chan := set_c_node (Some (PendingOn p)) sv.
Definition add_pending (server : Z) (pt : port) : port :=
  set_refcnt_p (h_refcnt (p_handle pt) + 1) (set_p_pending (p_pending pt ++ [server]) pt).

Definition with_queue (q : msg_queue) (ch : chan) : chan := set_c_msg_queue (Some q) ch.

(** What [port_attach_client] finds when both queues exist; the client's own is
    [q]. *)
Record linkable (g : ghost) (s : kstate) (p client server : Z) (pt : port) (cl : chan) (q : msg_queue) (sv : chan) : Prop := {
  lk_inv : Inv g s;
  lk_port : k_ports s !! p = Some pt;
  lk_client : k_chans s !! client = Some cl;
  lk_server : k_chans s !! server = Some sv;
  lk_ne : server <> client;
  lk_ov : g_ov g = <[tmp_server_ref := server]> {[tmp_client_ref := client]};
  lk_cl : c_peer cl = None /\ c_node cl = None /\ mq_wf q;
  lk_sv : c_peer sv = None /\ c_node sv = None /\ is_Some (c_msg_queue sv) /\
          has_flag (c_flags sv) IPC_CHAN_FLAG_SERVER = true /\ h_refcnt (c_handle sv) = 0;
  lk_lone : forall c x, k_chans s !! c = Some x -> c_peer x <> Some client /\ c_peer x <> Some server;
}.

Lemma link_ov (g : ghost) client server r :
  g_ov g = <[tmp_server_ref := server]> {[tmp_client_ref := client]} -> ~ tmp_ref r -> g_ov g !! r = None.
Proof.
  intros -> Hr. rewrite lookup_insert_ne, lookup_singleton_ne; [done|intros <-; apply Hr; by left|intros <-; apply Hr; by right].
Qed.

Lemma peer_not_tmp c : ~ tmp_ref (peer_ref c). Proof. by intros [|]. Qed.
Lemma node_not_tmp c : ~ tmp_ref (node_ref c). Proof. by intros [|]. Qed.
Lemma handle_not_tmp c : ~ tmp_ref (handle_ref c). Proof. by intros [|]. Qed.
#[export] Hint Resolve peer_not_tmp node_not_tmp handle_not_tmp link_ov : trusty.

Definition link_peer (r c : Z) (ch : chan) (s : kstate) : kstate := set_k_refs (<[peer_ref c := r]> (k_refs s)) (put_chan c ch s).

Lemma Inv_link_client g s p client server pt cl q sv :
  linkable g s p client server pt cl q sv -> Inv g (link_peer server client (connecting server (with_queue q cl)) s).
Proof.
  intros [HI Hp Hcl Hsv Hne Hov (C1 & C2 & C3) (S1 & S2 & S3 & S4 & S5) Hlone].
  pose proof (i_chan g s HI client cl Hcl) as Hok. set (cl' := connecting server (with_queue q cl)).
  eapply (Inv_acquire g g s _ (peer_ref client) server client cl cl'); try done.
  - by eauto with trusty.
  - cbn. by rewrite Hcl.
  - cbn. by rewrite lookup_insert_eq.
  - by eapply field_ref_other.
  - destruct Hok as [H1 H2 H3 H4 H5 H6 H7]. split; try done; cbn.
    + intros _. split; [by eexists|]. right; right; right. exists tmp_client_ref. by rewrite Hov.
    + by eexists.
    + unfold node_ok. cbn. by rewrite C2.
    + intros q' [= <-]. done.
  - intros p1 pt1 Hp1. cbn in Hp1. by apply (i_port g s HI).
  - intros h Hin. change (is_Some (hview (put_chan client cl' s) h)). rewrite hview_put_chan.
    destruct (decide _); [done|]. by apply (i_ext g s HI).
  - intros c x pc Hx Hpc1. cbn in *. map_cases Hx client c.
    + cbn in Hpc1. simplify_eq. split; [done|]. exists sv. rewrite lookup_insert_ne by done. auto.
    + destruct (i_peer g s HI c x pc Hx Hpc1) as (? & pch & ? & ? & ?). split; [done|]. exists pch.
      rewrite lookup_insert_ne; [done|]. intros <-. by destruct (Hlone c x Hx).
  - apply (put_chan_lists s client cl); [by eapply Inv_lists|done|done|done].
Qed.

Lemma Inv_link_server g s p client server pt cl q sv :
  linkable g s p client server pt cl q sv ->
  Inv g (link_peer client server (accepting client sv) (link_peer server client (connecting server (with_queue q cl)) s)).
Proof.
  intros Hlk. pose proof (Inv_link_client _ _ _ _ _ _ _ _ _ Hlk) as HI1.
  destruct Hlk as [HI Hp Hcl Hsv Hne Hov (C1 & C2 & C3) (S1 & S2 & S3 & S4 & S5) Hlone].
  set (cl' := connecting server (with_queue q cl)) in *. set (s1 := link_peer server client cl' s) in *.
  assert (k_chans s1 !! server = Some sv) as Hsv1 by (cbn; by rewrite lookup_insert_ne).
  pose proof (i_chan g s1 HI1 server sv Hsv1) as Hok.
  eapply (Inv_acquire g g s1 _ (peer_ref server) client server sv (accepting client sv)); try done.
  - by eauto with trusty.
  - cbn -[s1]. by rewrite Hsv1.
  - cbn -[s1]. by rewrite lookup_insert_eq.
  - by eapply field_ref_other.
  - destruct Hok as [H1 H2 H3 H4 H5 H6 H7]. split; try done; cbn -[s1].
    + intros _. split; [done|]. right; right; right. exists tmp_server_ref. by rewrite Hov.
    + by eexists.
    + unfold node_ok. cbn. by rewrite S2.
  - intros p1 pt1 Hp1. cbn in Hp1. by apply (i_port g s1 HI1).
  - intros h Hin. change (is_Some (hview (put_chan server (accepting client sv) s1) h)). rewrite hview_put_chan.
    destruct (decide _); [done|]. by apply (i_ext g s1 HI1).
  - intros c x pc Hx Hpc1. cbn -[s1] in *. map_cases Hx server c.
    + cbn in Hpc1. simplify_eq. split; [done|]. exists cl'. rewrite lookup_insert_ne by done.
      unfold s1. cbn. rewrite lookup_insert_eq. split_and!; [done|by eexists|by right].
    + destruct (i_peer g s1 HI1 c x pc Hx Hpc1) as (? & pch & ? & ? & ?). split; [done|].
      destruct (decide (pc = server)) as [->|]; [|exists pch; by rewrite lookup_insert_ne].
      exists (accepting client sv). rewrite lookup_insert_eq. split_and!; [done|done|]. right. cbn.
      unfold s1 in Hx. cbn in Hx. map_cases Hx client c; [done|]. by destruct (Hlone c x Hx).
  - apply (put_chan_lists s1 server sv); [by eapply Inv_lists|done|done|done].
Qed.

Definition pend_state (p : Z) (pt : port) (server : Z) (sv : chan) (s : kstate) : kstate :=
  set_k_refs (<[node_ref server := server]> (k_refs s)) (put_chan server sv (put_port p pt s)).

Lemma Inv_pend g s p pt server sv :
  Inv g s -> k_ports s !! p = Some pt -> k_chans s !! server = Some sv -> c_node sv = None ->
  c_state sv = IPC_CHAN_STATE_ACCEPTING -> has_flag (c_flags sv) IPC_CHAN_FLAG_SERVER = true ->
  h_refcnt (c_handle sv) = 0 -> g_ov g !! node_ref server = None ->
  Inv g (pend_state p (add_pending server pt) server (pend_on p sv) s).
Proof.
  intros HI Hp Hsv Hn Hst Hfl Hrc Hov. pose proof (i_chan g s HI server sv Hsv) as Hok.
  assert (server ∉ p_pending pt) as Hnin.
  { intros Hin. destruct (proj1 (i_pend g s HI p server)) as (x & ? & ?); [eauto|]. congruence. }
  eapply (Inv_acquire g g s _ (node_ref server) server server sv (pend_on p sv)); try done.
  - cbn. rewrite Hsv. cbn. by rewrite Hn.
  - cbn. by rewrite lookup_insert_eq.
  - by eapply field_ref_other.
  - destruct Hok as [H1 H2 H3 H4 H5 H6 H7]. split; try done; cbn.
    + intros Hs. split; [by apply H3|]. left. by eexists.
    + unfold state_ok in *. cbn. by rewrite Hst in *.
    + unfold node_ok. cbn. auto.
    + intros E. congruence.
  - intros p1 x Hx. cbn in Hx. map_cases Hx p p1; [|by apply (i_port g s HI)].
    destruct (i_port g s HI p pt Hp) as [P1 P2 P3 P4 P5]. split; try done; cbn.
    + rewrite length_app. cbn. lia.
    + lia.
    + apply NoDup_app. split_and!; [done| |apply NoDup_singleton]. intros x Hx1 ->%list_elem_of_singleton. done.
  - intros h Hin. change (is_Some (hview (put_chan server (pend_on p sv) (put_port p (add_pending server pt) s)) h)).
    rewrite hview_put_chan, hview_put_port. repeat (destruct (decide _); [done|]). by apply (i_ext g s HI).
  - eapply (peers_keep s); [exact (i_peer g s HI)|done|done|done|done].
  - destruct (HI). split_and!; cbn; try done.
    + intros p1 c1. specialize (i_pend p1 c1). destruct (decide (c1 = server)) as [->|Hc1].
      * rewrite lookup_insert_eq. split; intros (x & Hx & Hin).
        -- eexists. split; [done|]. cbn. destruct (decide (p1 = p)) as [->|]; [done|]. rewrite lookup_insert_ne in Hx by done.
           destruct (proj1 i_pend) as (y & ? & ?); [eauto|]. congruence.
        -- simplify_eq. cbn in Hin. simplify_eq. eexists. rewrite lookup_insert_eq. split; [done|]. cbn.
           apply elem_of_app. right. by left.
      * rewrite (lookup_insert_ne (k_chans s)), <- i_pend by done. destruct (decide (p1 = p)) as [->|]; [|by rewrite lookup_insert_ne by done].
        rewrite lookup_insert_eq, Hp. split; intros (x & ? & Hin); simplify_eq; eexists; (split; [done|]); cbn in *.
        -- apply elem_of_app in Hin as [?|?%list_elem_of_singleton]; [done|congruence].
        -- apply elem_of_app. by left.
    + apply i_wait.
    + intros c1. rewrite (proj2 i_wait c1). destruct (decide (c1 = server)) as [->|]; [|by rewrite lookup_insert_ne by done].
      rewrite lookup_insert_eq, Hsv. split; intros (x & ? & Hx); simplify_eq; cbn in Hx; congruence.
    + apply i_plist.
    + intros p1. rewrite (proj2 i_plist p1). destruct (decide (p1 = p)) as [->|]; [|by rewrite lookup_insert_ne by done].
      rewrite lookup_insert_eq, Hp. split; intros (x & ? & ?); simplify_eq; by eexists.
    + intros c1. destruct i_fresh as [F1 F2]. rewrite lookup_insert_is_Some. intros [<-|[_ ?]]; eauto.
    + intros p1. destruct i_fresh as [F1 F2]. rewrite lookup_insert_is_Some. intros [<-|[_ ?]]; eauto.
    + eapply tabs_ok_ext; [|done]. intros h. unfold hl_of.
      change (hview (put_chan server (pend_on p sv) (put_port p (add_pending server pt) s)) h ≫= h_hlist = hview s h ≫= h_hlist).
      rewrite hview_put_chan, hview_put_port. destruct (decide _) as [->|]; [cbn; by rewrite Hsv|].
      destruct (decide _) as [->|]; [cbn; by rewrite Hp|done].
Qed.

(** Everything but ports, channels, their references and events. *)
Definition frame_l (s s' : kstate) : Prop :=
  ipc_port_list s' = ipc_port_list s /\ waiting_for_port_chan_list s' = waiting_for_port_chan_list s /\ frame_k s s'.

Lemma port_link_client_run g s p client server pt cl q sv :
  linkable g s p client server pt cl q sv ->
  exists s', port_link_client p client server (put_chan client (with_queue q cl) s) = Ret tt s' /\
    k_chans s' = <[server := pend_on p (accepting client sv)]> (<[client := connecting server (with_queue q cl)]> (k_chans s)) /\
    k_ports s' = <[p := add_pending server pt]> (k_ports s) /\
    k_refs s' = delete tmp_server_ref (<[node_ref server := server]> (<[peer_ref server := client]> (<[peer_ref client := server]> (k_refs s)))) /\
    frame_l s s'.
Proof.
  intros [HI Hp Hcl Hsv Hne Hov (C1 & C2 & C3) (S1 & S2 & S3 & S4 & S5) Hlone].
  assert (forall r, g_ov g !! r = None -> field_ref s r = None -> k_refs s !! r = None) as Hr0.
  { intros r Hr Hf. rewrite (i_refs g s HI). unfold ref_of. by rewrite Hr. }
  assert (k_refs s !! peer_ref client = None) as R1 by (apply Hr0; [by eauto with trusty|]; cbn; by rewrite Hcl).
  assert (k_refs s !! peer_ref server = None) as R2 by (apply Hr0; [by eauto with trusty|]; cbn; by rewrite Hsv).
  assert (k_refs s !! node_ref server = None) as R3 by (apply Hr0; [by eauto with trusty|]; cbn; rewrite Hsv; cbn; by rewrite S2).
  assert (k_refs s !! tmp_server_ref = Some server) as R4 by (rewrite (i_refs g s HI); unfold ref_of; by rewrite Hov, lookup_insert_eq).
  unfold port_link_client.
  erewrite run_bind by (apply upd_chan_run; cbn; by rewrite lookup_insert_ne by done).
  erewrite run_bind by (apply upd_chan_run; cbn; by rewrite lookup_insert_ne, lookup_insert_eq by done).
  erewrite run_bind by (eapply chan_add_ref_run; cbn; [by rewrite lookup_insert_ne, lookup_insert_eq by done|done]).
  erewrite run_bind by (apply upd_chan_run; cbn; by rewrite lookup_insert_eq).
  erewrite run_bind by (eapply chan_add_ref_run; cbn; [by rewrite lookup_insert_eq|by rewrite lookup_insert_ne by congruence]).
  erewrite run_bind by (apply upd_chan_run; cbn; by rewrite !lookup_insert_ne, lookup_insert_eq by done).
  erewrite run_bind by (eapply chan_add_ref_run; cbn; [by rewrite lookup_insert_eq|by rewrite !lookup_insert_ne by congruence]).
  erewrite run_bind by (apply upd_port_run; cbn; exact Hp).
  erewrite run_bind by (apply upd_chan_run; cbn; by rewrite lookup_insert_eq).
  unfold handle_incref, upd_handle.
  erewrite run_bind by (apply upd_port_run; cbn; by rewrite lookup_insert_eq).
  set (s1 := put_port p _ _).
  destruct (handle_notify_run s1 (HPort p) (p_handle (add_pending server pt))) as [e He].
  { cbn. by rewrite lookup_insert_eq. }
  rewrite (run_bind _ _ _ _ _ He).
  eexists. split; [eapply (chan_del_ref_kept _ _ (node_ref server))|].
  - cbn. by rewrite lookup_insert_eq.
  - cbn. rewrite !lookup_insert_ne by done. by rewrite R4.
  - done.
  - cbn. by rewrite lookup_insert_eq.
  - cbn. split_and!; [| |done|done].
    + apply map_eq. intros i. destruct (decide (i = server)) as [->|]; [by rewrite !lookup_insert_eq|].
      destruct (decide (i = client)) as [->|]; repeat (rewrite lookup_insert_eq || rewrite lookup_insert_ne by done); done.
    + by rewrite insert_insert_eq.
Qed.

Lemma port_link_client_spec g s p client server pt cl q sv :
  linkable g s p client server pt cl q sv ->
  exists s', port_link_client p client server (put_chan client (with_queue q cl) s) = Ret tt s' /\
    Inv (g_unpin tmp_server_ref g) s' /\
    k_chans s' = <[server := pend_on p (accepting client sv)]> (<[client := connecting server (with_queue q cl)]> (k_chans s)) /\
    k_ports s' = <[p := add_pending server pt]> (k_ports s) /\ frame_l s s'.
Proof.
  intros Hlk. destruct (port_link_client_run _ _ _ _ _ _ _ _ _ Hlk) as (s' & R & Ec & Ep & Er & F).
  exists s'. split; [done|]. split; [|done].
  pose proof (Inv_link_server _ _ _ _ _ _ _ _ _ Hlk) as HI2. set (s2 := link_peer client server _ _) in HI2.
  destruct Hlk as [HI Hp Hcl Hsv Hne Hov (C1 & C2 & C3) (S1 & S2 & S3 & S4 & S5) Hlone].
  assert (k_chans s2 !! server = Some (accepting client sv)) as Hsv2 by (cbn; by rewrite lookup_insert_eq).
  pose proof (Inv_pend g s2 p pt server (accepting client sv) HI2 Hp Hsv2 S2 eq_refl S4 S5 ltac:(by eauto with trusty)) as HI3.
  set (s3 := pend_state _ _ _ _ s2) in HI3.
  assert (k_chans s3 !! server = Some (pend_on p (accepting client sv))) as Hsv3 by (cbn; by rewrite lookup_insert_eq).
  assert (Inv (g_unpin tmp_server_ref g) (set_k_refs (delete tmp_server_ref (k_refs s3)) s3)) as HI4.
  { eapply (Inv_unpin g s3 tmp_server_ref server _ (node_ref server)); try done.
    - by rewrite Hov, lookup_insert_eq.
    - destruct (i_chan g s3 HI3 server _ Hsv3) as [H1 H2 H3 H4 H5 H6 H7]. split; try done.
      intros Hs. split; [by apply H3|]. left. by eexists.
    - cbn. by rewrite lookup_insert_eq. }
  eapply Inv_same; [|exact HI4]. destruct F as (F1 & F2 & F3 & F4 & F5 & F6 & F7 & F8). unfold same_objects.
  rewrite Ec, Ep, Er, F1, F2, F4, F5. split_and!; try done; [|intros; by rewrite F3]. cbn.
  apply map_eq. intros i. destruct (decide (i = server)) as [->|]; [by rewrite !lookup_insert_eq|].
  by rewrite !(lookup_insert_ne _ server) by done.
Qed.

Lemma ipc_msg_queue_create_run n sz s :
  exists l, (ipc_msg_queue_create n sz s = Ret (NO_ERROR, Some (msg_queue_init n sz (k_junk s))) (set_k_allocs l s) /\
        (k_allocs s = [] -> l = [])) \/
       (ipc_msg_queue_create n sz s = Ret (ERR_NO_MEMORY, None) (set_k_allocs l s) /\ k_allocs s <> []).
Proof.
  unfold ipc_msg_queue_create. destruct (kmalloc_run s) as (b & l & Hk & Ha). rewrite (run_bind _ _ _ _ _ Hk).
  destruct b; [|exists l; right; split; [done|]; by intros []%Ha].
  destruct (kmalloc_run (set_k_allocs l s)) as (b & l' & Hk' & Ha').
  rewrite (run_bind _ _ _ _ _ Hk'). exists l'. destruct b; [left|right]; (split; [done|]).
  - intros [_ ->]%Ha. by apply Ha'.
  - intros [_ ->]%Ha. by destruct Ha'.
Qed.

(** The lists, the tables and the memories. *)
Definition frame_a (s s' : kstate) : Prop :=
  ipc_port_list s' = ipc_port_list s /\ waiting_for_port_chan_list s' = waiting_for_port_chan_list s /\
  k_apps s' = k_apps s /\ k_hlists s' = k_hlists s /\ k_kmem s' = k_kmem s /\ k_junk s' = k_junk s.

(** The two ends of a connection right after [port_attach_client]. *)
Definition new_server (p client : Z) (pt : port) (junk : Z) : chan :=
  pend_on p (accepting client (with_queue (msg_queue_init (p_num_recv_bufs pt) (p_recv_buf_size pt) junk)
    (new_chan IPC_CHAN_FLAG_SERVER (Some (p_uuid pt))))).
Definition new_client (server : Z) (pt : port) (junk : Z) (cl : chan) : chan :=
  connecting server (with_queue (msg_queue_init (p_num_recv_bufs pt) (p_recv_buf_size pt) junk) cl).

Definition attached (s s' : kstate) (p client server : Z) (pt : port) (cl : chan) : Prop :=
  p_state pt = IPC_PORT_STATE_LISTENING /\ check_access pt (c_uuid cl) = NO_ERROR /\ server <> client /\
  k_chans s !! server = None /\
  k_chans s' = <[server := new_server p client pt (k_junk s)]> (<[client := new_client server pt (k_junk s) cl]> (k_chans s)) /\
  k_ports s' = <[p := add_pending server pt]> (k_ports s).

(** The server channel is given back. *)
Lemma drop_server g s l client cl fl u x :
  Inv (g_pin tmp_server_ref (k_next s) g) (set_k_allocs l (alloc_state (k_next s) (new_chan fl u) tmp_server_ref s)) ->
  k_chans s !! client = Some cl -> g_ov g !! tmp_server_ref = None -> k_chans s !! k_next s = None ->
  exists s', chan_del_ref (k_next s) tmp_server_ref
            (set_k_allocs x (alloc_state (k_next s) (new_chan fl u) tmp_server_ref s)) = Ret tt s' /\
    Inv g s' /\ frame_a s s' /\ k_chans s' !! client = Some cl /\ k_ports s' = k_ports s.
Proof.
  intros HI Hcl Hov Hfr. set (s1 := alloc_state _ _ _ _) in *. apply (Inv_allocs _ _ x) in HI.
  change (Inv (g_pin tmp_server_ref (k_next s) g) (set_k_allocs x s1)) in HI.
  assert (k_chans (set_k_allocs x s1) !! k_next s = Some (new_chan fl u)) as Hc1 by (cbn; by rewrite lookup_insert_eq).
  destruct (chan_del_ref_spec _ (set_k_allocs x s1) tmp_server_ref (k_next s) (new_chan fl u) HI) as (s2 & R2 & HI2 & D2);
    [cbn; by rewrite lookup_insert_eq|done| |].
  { apply (chan_ok_peerless _ (g_pin tmp_server_ref (k_next s) g)); try done. by apply (i_chan _ _ HI). }
  rewrite unpin_pin in HI2 by done. exists s2. split; [done|]. split; [done|].
  assert (client <> k_next s) by congruence.
  destruct D2 as [(? & _ & _ & ->)|(_ & ->)]; cbn.
  - split; [done|]. by rewrite lookup_insert_ne.
  - split; [done|]. by rewrite lookup_delete_ne, lookup_insert_ne.
Qed.

Lemma chan_fresh g s : Inv g s -> k_chans s !! k_next s = None.
Proof.
  intros HI. destruct (k_chans s !! k_next s) eqn:E; [|done].
  assert (k_next s < k_next s); [|lia]. apply (proj1 (i_fresh g s HI)). by rewrite E.
Qed.

Lemma nobody_points g s c : Inv g s -> (forall ch, k_chans s !! c = Some ch -> c_msg_queue ch = None) ->
  forall c' x, k_chans s !! c' = Some x -> c_peer x <> Some c.
Proof.
  intros HI Hc c' x Hx Hp. destruct (i_peer g s HI c' x c Hx Hp) as (_ & pch & Hpch & Hq & _).
  rewrite (Hc pch Hpch) in Hq. by destruct Hq.
Qed.

Lemma put_chan_swap c1 c2 x1 x2 s : c1 <> c2 -> put_chan c1 x1 (put_chan c2 x2 s) = put_chan c2 x2 (put_chan c1 x1 s).
Proof. intros. unfold put_chan, set_k_chans. cbn. f_equal. by apply insert_insert_ne. Qed.

Lemma put_chan_back c x y s : k_chans s !! c = Some y -> put_chan c y (put_chan c x s) = s.
Proof.
  intros H. unfold put_chan, set_k_chans. destruct s. cbn in *. f_equal. rewrite insert_insert_eq. by apply insert_id.
Qed.

(** With both queues made, the rest of [port_attach_client] cannot fail. *)
Lemma attach_link g s l p client pt cl :
  Inv g s -> k_ports s !! p = Some pt -> k_chans s !! client = Some cl -> g_ov g = {[tmp_client_ref := client]} ->
  c_peer cl = None -> c_node cl = None -> c_msg_queue cl = None ->
  let server := k_next s in
  let q := msg_queue_init (p_num_recv_bufs pt) (p_recv_buf_size pt) (k_junk s) in
  let sv := new_chan IPC_CHAN_FLAG_SERVER (Some (p_uuid pt)) in
  exists s', port_link_client p client server
          (put_chan client (with_queue q cl) (put_chan server (with_queue q sv) (set_k_allocs l (alloc_state server sv tmp_server_ref s))))
        = Ret tt s' /\ Inv g s' /\ frame_a s s' /\ k_allocs s' = l /\
    k_chans s' = <[server := new_server p client pt (k_junk s)]> (<[client := new_client server pt (k_junk s) cl]> (k_chans s)) /\
    k_ports s' = <[p := add_pending server pt]> (k_ports s).
Proof.
  intros HI Hp Hcl Hov C1 C2 C3 server q sv. pose proof (chan_fresh g s HI) as Hfr. fold server in Hfr.
  assert (server <> client) as Hne by congruence.
  assert (g_ov g !! tmp_server_ref = None) as Hts by (by rewrite Hov).
  pose proof (Inv_allocs _ _ l (Inv_alloc g s tmp_server_ref IPC_CHAN_FLAG_SERVER (Some (p_uuid pt)) HI (or_intror eq_refl) Hts)) as HI1.
  fold server sv in HI1. set (s1 := set_k_allocs l (alloc_state server sv tmp_server_ref s)) in *.
  assert (mq_wf q) as Hq.
  { destruct (po_bufs _ _ _ _ (i_port g s HI p pt Hp)) as [H1 H2]. unfold IPC_CHAN_MAX_BUFS, IPC_CHAN_MAX_BUF_SIZE in *.
    apply msg_queue_init_wf; lia. }
  assert (k_chans s1 !! server = Some sv) as Hsv1 by (cbn; by rewrite lookup_insert_eq).
  assert (Inv (g_pin tmp_server_ref server g) (put_chan server (with_queue q sv) s1)) as HI2.
  { eapply Inv_put_chan; try done.
    destruct (i_chan _ s1 HI1 server sv Hsv1) as [A1 A2 A3 A4 A5 A6 A7]. split; try done; cbn; [by intros []|by intros q' [= <-]]. }
  set (s2 := put_chan server (with_queue q sv) s1) in *.
  destruct (port_link_client_spec (g_pin tmp_server_ref server g) s2 p client server pt cl q (with_queue q sv)) as (s3 & R3 & HI3 & Ec3 & Ep3 & F3).
  { split; try done.
    - cbn. by rewrite !lookup_insert_ne.
    - cbn. by rewrite lookup_insert_eq.
    - cbn. by rewrite Hov.
    - intros c x Hx. assert (c_peer x <> None -> k_chans s !! c = Some x) as Hx0.
      { cbn in Hx. intros Hpx. destruct (decide (c = server)) as [->|].
        - rewrite lookup_insert_eq in Hx. injection Hx as <-. by destruct Hpx.
        - by rewrite !lookup_insert_ne in Hx by done. }
      split; intros E; (eapply (nobody_points g s); [done| |apply Hx0; congruence|exact E]); congruence. }
  exists s3. split; [done|]. rewrite unpin_pin in HI3 by done. split; [done|].
  destruct F3 as (F1 & F2 & F4 & F5 & F6 & F7 & F8 & F9). split_and!; [done|done| |].
  - rewrite Ec3. cbn. apply map_eq. intros i. destruct (decide (i = server)) as [->|]; [by rewrite !lookup_insert_eq|].
    rewrite !(lookup_insert_ne _ server) by done. destruct (decide (i = client)) as [->|]; [by rewrite !lookup_insert_eq|].
    by rewrite !lookup_insert_ne.
  - done.
Qed.

Lemma check_access_neg pt u : check_access pt u <> NO_ERROR -> check_access pt u < 0.
Proof. unfold check_access. destruct u as [u|]; [|done]. destruct (is_ns_client u); by destruct (has_flag _ _). Qed.

Lemma port_attach_client_spec g s p client pt cl :
  Inv g s -> k_ports s !! p = Some pt -> k_chans s !! client = Some cl -> g_ov g = {[tmp_client_ref := client]} ->
  c_peer cl = None -> c_node cl = None -> c_msg_queue cl = None ->
  exists ret s', port_attach_client p client s = Ret ret s' /\ Inv g s' /\ frame_a s s' /\
    (ret < 0 /\ k_chans s' !! client = Some cl /\ k_ports s' = k_ports s /\
       ~ (p_state pt = IPC_PORT_STATE_LISTENING /\ check_access pt (c_uuid cl) = NO_ERROR /\ k_allocs s = []) \/
     ret = NO_ERROR /\ attached s s' p client (k_next s) pt cl /\ (k_allocs s = [] -> k_allocs s' = [])).
Proof.
  intros HI Hp Hcl Hov C1 C2 C3. pose proof (chan_fresh g s HI) as Hfr.
  assert (g_ov g !! tmp_server_ref = None) as Hts by (by rewrite Hov).
  unfold port_attach_client. rewrite (run_bind _ _ _ _ _ (get_port_run _ _ _ Hp)).
  destruct (bool_decide_reflect (p_state pt = IPC_PORT_STATE_LISTENING)) as [Hls|]; cbn [negb].
  2:{ exists ERR_NOT_READY, s. split_and!; try done. left. split_and!; try done. by intros (? & ? & ?). }
  rewrite (run_bind _ _ _ _ _ (get_chan_run _ _ _ Hcl)).
  destruct (Z.eqb_spec (check_access pt (c_uuid cl)) NO_ERROR) as [Hacc|Hacc]; cbn [negb].
  2:{ eexists _, s. split_and!; try done. left. split_and!; try done; [by apply check_access_neg|by intros (? & ? & ?)]. }
  destruct (chan_alloc_spec g s IPC_CHAN_FLAG_SERVER (Some (p_uuid pt)) tmp_server_ref HI (or_intror eq_refl) Hts)
    as [(l & R1 & Ha1)|(l & R1 & Ha1 & HI1)]; rewrite (run_bind _ _ _ _ _ R1).
  { eexists _, _. split; [done|]. split; [by apply Inv_allocs|]. split; [done|]. left.
    split_and!; try done. by intros (? & ? & ?). }
  pose proof (drop_server g s l client cl IPC_CHAN_FLAG_SERVER (Some (p_uuid pt))) as Hdrop. set (s1 := alloc_state _ _ _ _) in *.
  destruct (ipc_msg_queue_create_run (p_num_recv_bufs pt) (p_recv_buf_size pt) (set_k_allocs l s1)) as (l1 & [[R2 Ha2]|[R2 Ha2]]);
    rewrite (run_bind _ _ _ _ _ R2); cbn -[s1 chan_del_ref].
  2:{ destruct (Hdrop l1 HI1 Hcl Hts Hfr) as (s2 & R3 & HI3 & F3 & E1 & E2).
      rewrite (run_bind _ _ _ _ _ R3). eexists _, s2. split; [done|]. split; [done|]. split; [done|]. left.
      split_and!; try done. intros (_ & _ & E). apply Ha1 in E as ->; auto. }
  assert (k_chans s1 !! client = Some cl) as Hcl1 by (cbn; by rewrite lookup_insert_ne by congruence).
  erewrite run_bind by (apply upd_chan_run; exact Hcl1).
  set (q := msg_queue_init _ _ _). change (set_c_msg_queue (Some q) cl) with (with_queue q cl).
  set (s2 := put_chan client (with_queue q cl) (set_k_allocs l1 s1)).
  destruct (ipc_msg_queue_create_run (p_num_recv_bufs pt) (p_recv_buf_size pt) s2) as (l2 & [[R3 Ha3]|[R3 Ha3]]);
    rewrite (run_bind _ _ _ _ _ R3); cbn -[s2 s1 chan_del_ref put_chan port_link_client q].
  2:{ erewrite run_bind by (apply upd_chan_run; cbn; by rewrite lookup_insert_eq).
      destruct (Hdrop l2 HI1 Hcl Hts Hfr) as (s4 & R4 & HI4 & F4 & E1 & E2).
      assert (put_chan client (set_c_msg_queue None (with_queue q cl)) (set_k_allocs l2 s2) = set_k_allocs l2 s1) as ->.
      { replace (set_c_msg_queue None (with_queue q cl)) with cl by (destruct cl; cbn in *; by subst).
        change (set_k_allocs l2 s2) with (put_chan client (with_queue q cl) (set_k_allocs l2 s1)). by apply put_chan_back. }
      rewrite (run_bind _ _ _ _ _ R4). eexists _, s4. split; [done|]. split; [done|]. split; [done|]. left.
      split_and!; try done. intros (_ & _ & E). apply Ha1 in E as ->; auto. }
  set (sv := new_chan IPC_CHAN_FLAG_SERVER (Some (p_uuid pt))) in *.
  erewrite run_bind by (apply (upd_chan_run _ _ sv); cbn; by rewrite lookup_insert_ne, lookup_insert_eq by congruence).
  destruct (attach_link g s l2 p client pt cl HI Hp Hcl Hov C1 C2 C3) as (s5 & R5 & HI5 & F5 & Ea5 & Ec5 & Ep5).
  fold sv s1 q in R5. change (set_k_allocs l2 s2) with (put_chan client (with_queue q cl) (set_k_allocs l2 s1)).
  rewrite put_chan_swap by congruence. rewrite (run_bind _ _ _ _ _ R5).
  eexists _, s5. split; [done|]. split; [done|]. split; [done|]. right. split; [done|].
  split; [split_and!; try done; congruence|]. intros E. rewrite Ea5. auto.
Qed.

(** ** Looking a port up *)

Lemma port_find_loop_run s path l :
  (forall p, p ∈ l -> is_Some (k_ports s !! p)) ->
  exists o, port_find_loop path l s = Ret o s /\
    match o with
    | Some p => exists pt, p ∈ l /\ k_ports s !! p = Some pt /\ p_path pt = path
    | None => forall p pt, p ∈ l -> k_ports s !! p = Some pt -> p_path pt <> path
    end.
Proof.
  induction l as [|p l IH]; intros Hl; cbn.
  - exists None. split; [done|]. intros p pt Hp. by apply elem_of_nil in Hp.
  - destruct (Hl p) as [pt Hp]; [by left|]. rewrite (run_bind _ _ _ _ _ (get_port_run _ _ _ Hp)).
    destruct (bool_decide_reflect (path = p_path pt)) as [->|Hne].
    + exists (Some p). split; [done|]. exists pt. split; [by left|done].
    + destruct IH as (o & R & Ho); [intros p1 Hp1; apply Hl; by right|]. exists o. split; [done|]. destruct o as [p1|].
      * destruct Ho as (pt1 & ? & ?). exists pt1. split; [by right|done].
      * intros p1 pt1 Hp1 Hpt1. apply elem_of_cons in Hp1 as [->|?]; [congruence|by eapply Ho].
Qed.

Lemma port_find_locked_run g s path :
  Inv g s -> exists o, port_find_locked path s = Ret o s /\
    match o with
    | Some p => exists pt, k_ports s !! p = Some pt /\ p_path pt = path /\ p_node pt = true
    | None => forall p pt, k_ports s !! p = Some pt -> p_node pt = true -> p_path pt <> path
    end.
Proof.
  intros HI. destruct (i_plist g s HI) as [_ Hpl].
  destruct (port_find_loop_run s path (ipc_port_list s)) as (o & R & Ho).
  { intros p (pt & -> & _)%Hpl. by eexists. }
  exists o. split; [exact R|]. destruct o as [p|].
  - destruct Ho as (pt & (x & Hx & Hn)%Hpl & Hp & Hpath). simplify_eq. eauto.
  - intros p pt Hp Hn. eapply Ho; [|done]. apply Hpl. eauto.
Qed.

(** ** Connecting *)

Definition frame_t (s s' : kstate) : Prop :=
  k_apps s' = k_apps s /\ k_hlists s' = k_hlists s /\ k_kmem s' = k_kmem s /\ k_junk s' = k_junk s.

#[export] Instance frame_t_refl : Reflexive frame_t.
Proof. done. Qed.
#[export] Instance frame_t_trans : Transitive frame_t.
Proof. intros s1 s2 s3 (A1&A2&A3&A4) (B1&B2&B3&B4). unfold frame_t. by rewrite B1, B2, B3, B4. Qed.

Lemma frame_a_t s s' : frame_a s s' -> frame_t s s'.
Proof. by intros (?&?&?&?&?&?). Qed.
Lemma frame_k_t s s' : frame_k s s' -> frame_t s s'.
Proof. by intros (?&?&?&?&?&?). Qed.
Lemma frame_f_t s s' : frame s s' -> frame_t s s'.
Proof. by intros (?&?&?&?&?&?&?&?). Qed.
#[export] Hint Resolve frame_a_t frame_k_t frame_f_t : trusty.

Lemma del_post_frame r c s s' : del_post r c s s' -> frame_t s s' /\ k_ports s' = k_ports s /\
  (forall c', c' <> c -> k_chans s' !! c' = k_chans s !! c').
Proof.
  intros [(? & _ & _ & ->)|(_ & ->)]; cbn; (split; [done|]); (split; [done|]); [done|]. intros. by rewrite lookup_delete_ne.
Qed.

(** The routine's own node is dropped from a channel whose handle it owns. *)
Lemma chan_ok_own_unpin hu g r c ch :
  chan_ok hu (g_own1 (HChan c) g) c ch -> (c_state ch = IPC_CHAN_STATE_WAITING_FOR_PORT -> c_node ch = Some WaitingForPort) ->
  chan_ok hu (g_unpin r (g_own1 (HChan c) g)) c ch.
Proof.
  intros [H1 H2 H3 H4 H5 H6 H7] Hw. split; try done.
  - intros Hs. split; [by apply H3|]. right; left. by left.
  - unfold state_ok in *. destruct (c_state ch); try done. split; [apply H4|]. left. by apply Hw.
  - intros _. right; left. by left.
Qed.

Lemma finish_connect g s c ch :
  Inv (g_pin tmp_client_ref c g) s -> g_ov g = ∅ -> k_chans s !! c = Some ch ->
  h_refcnt (c_handle ch) = 0 -> (forall p, c_node ch <> Some (PendingOn p)) ->
  (c_state ch = IPC_CHAN_STATE_WAITING_FOR_PORT -> c_node ch = Some WaitingForPort) ->
  exists s', (h ← chan_handle_init c; chan_del_ref c tmp_client_ref;; mret (NO_ERROR, Some h)) s
         = Ret (NO_ERROR, Some (HChan c)) s' /\
    Inv (g_own1 (HChan c) g) s' /\ frame_t s s' /\ k_ports s' = k_ports s /\
    k_chans s' = <[c := init_handle_c ch]> (k_chans s).
Proof.
  intros HI Hov Hc Hrc Hn Hw.
  destruct (chan_handle_init_spec _ s c ch HI Hc Hrc) as (s1 & R1 & HI1 & F1 & Ec1 & _).
  { cbn. rewrite Hov, lookup_insert_ne, lookup_empty by done. done. }
  { done. }
  assert (k_chans s1 !! c = Some (init_handle_c ch)) as Hc1 by (by rewrite Ec1, lookup_insert_eq).
  destruct (chan_del_ref_spec _ s1 tmp_client_ref c _ HI1 ltac:(cbn; by rewrite lookup_insert_eq) Hc1) as (s2 & R2 & HI2 & D2).
  { apply chan_ok_own_unpin; [|done]. by apply (i_chan _ s1 HI1). }
  exists s2. rewrite (run_bind _ _ _ _ _ R1), (run_bind _ _ _ _ _ R2). split; [done|].
  replace (g_unpin tmp_client_ref (g_own1 (HChan c) (g_pin tmp_client_ref c g))) with (g_own1 (HChan c) g) in HI2.
  2:{ unfold g_unpin, g_own1, g_pin. cbn. by rewrite Hov. }
  destruct (del_post_frame _ _ _ _ D2) as (F2 & Ep2 & _). split; [done|]. split; [transitivity s1; auto with trusty|].
  split; [rewrite Ep2; apply F1|]. rewrite <- Ec1.
  destruct D2 as [(? & _ & _ & ->)|(Hno & _)]; [done|]. exfalso. apply (Hno (handle_ref c)); [done|].
  rewrite (i_refs _ s1 HI1). unfold ref_of. cbn. rewrite Hov, lookup_insert_ne, lookup_empty by done. cbn. by rewrite Hc1.
Qed.

(** A client channel that could not be connected is freed. *)
Lemma abandon_client g s c ch :
  Inv (g_pin tmp_client_ref c g) s -> g_ov g = ∅ -> k_chans s !! c = Some ch -> c_peer ch = None ->
  c_state ch = IPC_CHAN_STATE_INVALID ->
  exists s', chan_del_ref c tmp_client_ref s = Ret tt s' /\ Inv g s' /\ frame_t s s' /\ k_ports s' = k_ports s.
Proof.
  intros HI Hov Hc Hp Hst.
  destruct (chan_del_ref_spec _ s tmp_client_ref c ch HI ltac:(cbn; by rewrite lookup_insert_eq) Hc) as (s2 & R2 & HI2 & D2).
  { apply (chan_ok_peerless _ (g_pin tmp_client_ref c g)); try done; [congruence|]. by apply (i_chan _ s HI). }
  rewrite unpin_pin in HI2 by (by rewrite Hov). destruct (del_post_frame _ _ _ _ D2) as (F2 & Ep2 & _). eauto.
Qed.

(** A new client: waiting for its port to appear, or pending on a published port
    of that path which admits it. *)
Definition client_of (s s' : kstate) (cid : uuid_ptr) (path : cstring) (c : Z) : Prop :=
  exists ch, k_chans s' !! c = Some ch /\ c_uuid ch = Some cid /\ c_flags ch = 0 /\
    h_hlist (c_handle ch) = None /\ h_refcnt (c_handle ch) = 1 /\
    ((c_state ch = IPC_CHAN_STATE_WAITING_FOR_PORT /\ c_path ch = Some path /\ k_ports s' = k_ports s) \/
     (exists p server pt, k_ports s !! p = Some pt /\ p_path pt = path /\ p_node pt = true /\
        p_state pt = IPC_PORT_STATE_LISTENING /\ check_access pt (Some cid) = NO_ERROR /\
        c_state ch = IPC_CHAN_STATE_CONNECTING /\ c_peer ch = Some server /\
        k_chans s' !! server = Some (new_server p c pt (k_junk s)) /\
        k_ports s' = <[p := add_pending server pt]> (k_ports s))).

Lemma ipc_port_connect_async_spec g s cid path maxp flags :
  Inv g s -> g_ov g = ∅ ->
  exists ret o s', ipc_port_connect_async (Some cid) path maxp flags s = Ret (ret, o) s' /\ frame_t s s' /\
    (ret < 0 /\ o = None /\ Inv g s' \/
     ret = NO_ERROR /\ exists c, o = Some (HChan c) /\ Inv (g_own1 (HChan c) g) s' /\ client_of s s' cid path c).
Proof.
  intros HI Hov. unfold ipc_port_connect_async. destruct (_ || _).
  { eexists _, _, s. split; [done|]. split; [done|]. by left. }
  destruct (chan_alloc_spec g s 0 (Some cid) tmp_client_ref HI (or_introl eq_refl) ltac:(by rewrite Hov)) as [(l & R1 & _)|(l & R1 & _ & HI1)];
    rewrite (run_bind _ _ _ _ _ R1).
  { eexists _, _, _. split; [done|]. split; [done|]. left. split; [done|]. split; [done|]. by apply Inv_allocs. }
  set (c := k_next s) in *. set (s1 := set_k_allocs l _) in *. set (ch := new_chan 0 (Some cid)) in *.
  assert (k_chans s1 !! c = Some ch) as Hc1 by (cbn; by rewrite lookup_insert_eq).
  assert (g_ov (g_pin tmp_client_ref c g) = {[tmp_client_ref := c]}) as Hov1 by (cbn; by rewrite Hov, insert_empty).
  destruct (port_find_locked_run _ s1 path HI1) as (op & R2 & Hop). rewrite (run_bind _ _ _ _ _ R2).
  destruct op as [p|].
  - destruct Hop as (pt & Hp & Hpath & Hpn).
    destruct (port_attach_client_spec _ s1 p c pt ch HI1 Hp Hc1 Hov1 eq_refl eq_refl eq_refl)
      as (ret & s2 & R3 & HI3 & F3 & [(Hr & Hc3 & _)|(-> & (Hls & Hacc & Hne & _ & Ec3 & Ep3) & _)]); rewrite (run_bind _ _ _ _ _ R3).
    + destruct (Z.eqb_spec ret NO_ERROR) as [->|]; [done|]. cbn [negb].
      destruct (abandon_client g s2 c ch HI3 Hov Hc3 eq_refl eq_refl) as (s3 & R4 & HI4 & F4 & _). rewrite (run_bind _ _ _ _ _ R4).
      eexists _, _, s3. split; [done|]. split; [transitivity s2; eauto with trusty|]. by left.
    + cbn [negb Z.eqb NO_ERROR]. set (server := k_next s1) in *.
      assert (k_chans s2 !! c = Some (new_client server pt (k_junk s1) ch)) as Hc3
        by (by rewrite Ec3, lookup_insert_ne, lookup_insert_eq by done).
      destruct (finish_connect g s2 c _ HI3 Hov Hc3 eq_refl) as (s3 & R4 & HI4 & F4 & Ep4 & Ec4); [done|done|].
      rewrite R4. eexists _, _, s3. split; [done|]. split; [transitivity s2; eauto with trusty|]. right. split; [done|].
      exists c. split; [done|]. split; [done|]. eexists. split; [by rewrite Ec4, lookup_insert_eq|]. split_and!; try done.
      right. exists p, server, pt. split_and!; try done.
      * by rewrite Ec4, lookup_insert_ne, Ec3, lookup_insert_eq by congruence.
      * by rewrite Ep4, Ep3.
  - destruct (has_flag flags IPC_CONNECT_WAIT_FOR_PORT); cbn [negb].
    2:{ rewrite (run_bind _ _ s1 ERR_NOT_FOUND s1) by done. cbn [negb Z.eqb NO_ERROR ERR_NOT_FOUND].
        destruct (abandon_client g s1 c ch HI1 Hov Hc1 eq_refl eq_refl) as (s3 & R4 & HI4 & F4 & _). rewrite (run_bind _ _ _ _ _ R4).
        eexists _, _, s3. split; [done|]. split; [by transitivity s1|]. by left. }
    destruct (kmalloc_run s1) as (b & l2 & Hk & _). destruct b.
    2:{ rewrite (run_bind _ _ s1 ERR_NO_MEMORY (set_k_allocs l2 s1)) by (by rewrite (run_bind _ _ _ _ _ Hk)).
        cbn [negb Z.eqb NO_ERROR ERR_NO_MEMORY].
        destruct (abandon_client g (set_k_allocs l2 s1) c ch (Inv_allocs _ _ _ HI1) Hov Hc1 eq_refl eq_refl) as (s3 & R4 & HI4 & F4 & _).
        rewrite (run_bind _ _ _ _ _ R4). eexists _, _, s3. split; [done|]. split; [by transitivity (set_k_allocs l2 s1)|]. by left. }
    pose proof (Inv_wait _ _ c ch path (Inv_allocs _ _ l2 HI1) Hc1 eq_refl eq_refl) as HI2.
    rewrite (run_bind _ _ s1 NO_ERROR (wait_state c (wait_chan path ch) (set_k_allocs l2 s1))).
    2:{ rewrite (run_bind _ _ _ _ _ Hk).
        erewrite run_bind by (apply upd_chan_run; exact Hc1).
        erewrite run_bind by (apply upd_chan_run; cbn; by rewrite lookup_insert_eq).
        erewrite run_bind by reflexivity.
        erewrite run_bind by (apply upd_chan_run; cbn; by rewrite lookup_insert_eq).
        erewrite run_bind; [|eapply chan_add_ref_run; cbn; [by rewrite lookup_insert_eq|]].
        - unfold wait_state, put_chan, set_k_chans, set_k_refs, set_waiting_for_port_chan_list. cbn. by rewrite !insert_insert_eq.
        - rewrite lookup_insert_ne by done. rewrite (i_refs g s HI). unfold ref_of. rewrite Hov, lookup_empty. cbn.
          pose proof (chan_fresh g s HI) as Hfr. fold c in Hfr. by rewrite Hfr. }
    cbn [negb Z.eqb NO_ERROR]. set (s2 := wait_state _ _ _) in *.
    assert (k_chans s2 !! c = Some (wait_chan path ch)) as Hc2 by (cbn; by rewrite lookup_insert_eq).
    destruct (finish_connect g s2 c (wait_chan path ch)) as (s3 & R4 & HI4 & F4 & Ep4 & Ec4); try done.
    { apply HI2; [rewrite Hov1; by rewrite lookup_singleton_ne|apply pinned_pin]. }
    rewrite R4. eexists _, _, s3. split; [done|]. split; [by transitivity s2|]. right. split; [done|].
    exists c. split; [done|]. split; [done|]. eexists. split; [by rewrite Ec4, lookup_insert_eq|]. split_and!; try done.
    left. split; [done|]. split; [done|]. by rewrite Ep4.
Qed.

(** ** Publishing a port *)

(** A routine puts a node of its own on a live channel's list. *)
Lemma Inv_addpin g s r c ch :
  Inv g s -> tmp_ref r -> g_ov g !! r = None -> k_chans s !! c = Some ch ->
  Inv (g_pin r c g) (set_k_refs (<[r := c]> (k_refs s)) s).
Proof.
  intros HI Hr Hov Hc. destruct (HI). split; cbn; try done.
  - intros c' x Hx. by apply chan_ok_pin, i_chan.
  - intros p pt Hp. destruct (i_port p pt Hp) as [P1 P2 P3 P4 P5]. by split.
  - intros r'. unfold ref_of. cbn. destruct (decide (r' = r)) as [->|]; [by rewrite !lookup_insert_eq|].
    rewrite !lookup_insert_ne, i_refs by done. done.
  - intros r' c'. destruct (decide (r' = r)) as [->|].
    + rewrite lookup_insert_eq. intros [= <-]. split; [by apply tmp_field|by eexists].
    + rewrite lookup_insert_ne by done. apply i_ov.
  - intros c' Hc'. destruct (i_held c' Hc') as [r' Hr']. exists r'. rewrite lookup_insert_ne; [done|]. intros <-.
    rewrite i_refs in Hr'. unfold ref_of in Hr'. rewrite Hov in Hr'. by rewrite tmp_field in Hr'.
Qed.

(** A waiting client taken off the list, held by the routine's own node only. *)
Definition unwaited (ch : chan) : chan := set_c_node None (set_c_path None ch).

Definition taken_state (c : Z) (ch : chan) (s : kstate) : kstate :=
  set_k_refs (delete (node_ref c) (<[tmp_client_ref := c]> (k_refs s)))
    (put_chan c (unwaited ch) (set_waiting_for_port_chan_list (unlink_addr c (waiting_for_port_chan_list s)) s)).

Lemma Inv_take g s c ch :
  Inv g s -> g_ov g = ∅ -> k_chans s !! c = Some ch -> c_node ch = Some WaitingForPort ->
  Inv (g_pin tmp_client_ref c g) (taken_state c ch s).
Proof.
  intros HI Hov Hc Hn. pose proof (Inv_unwait g s c ch HI Hc Hn) as HI1. set (s1 := put_chan _ _ _) in HI1.
  assert (k_chans s1 !! c = Some (set_c_node None ch)) as Hc1 by (cbn; by rewrite lookup_insert_eq).
  assert (Inv (g_pin (node_ref c) c g) (put_chan c (unwaited ch) s1)) as HI2.
  { eapply Inv_put_chan; try done. destruct (i_chan _ s1 HI1 c _ Hc1) as [H1 H2 H3 H4 H5 H6 H7]. by split. }
  set (s2 := put_chan c (unwaited ch) s1) in HI2.
  assert (k_chans s2 !! c = Some (unwaited ch)) as Hc2 by (cbn; by rewrite lookup_insert_eq).
  pose proof (Inv_addpin _ s2 tmp_client_ref c (unwaited ch) HI2 (or_introl eq_refl)) as HI3.
  specialize (HI3 ltac:(cbn; by rewrite lookup_insert_ne, Hov by done) Hc2).
  set (s3 := set_k_refs _ s2) in HI3.
  assert (Inv (g_unpin (node_ref c) (g_pin tmp_client_ref c (g_pin (node_ref c) c g))) (set_k_refs (delete (node_ref c) (k_refs s3)) s3)) as HI4.
  { eapply (Inv_unpin _ s3 (node_ref c) c (unwaited ch) tmp_client_ref); try done.
    - cbn. by rewrite lookup_insert_ne, lookup_insert_eq by done.
    - destruct (i_chan _ s3 HI3 c _ Hc2) as [H1 H2 H3 H4 H5 H6 H7]. split; try done.
      + intros Hs. split; [by apply H3|]. right; right; right. exists tmp_client_ref. cbn.
        by rewrite lookup_delete_ne, lookup_insert_eq by done.
      + unfold state_ok in *. cbn in *. destruct (c_state ch); try done. split; [apply H4|]. right. exists tmp_client_ref. cbn.
        by rewrite lookup_delete_ne, lookup_insert_eq by done.
      + intros _. right; right; right. exists tmp_client_ref. cbn. by rewrite lookup_delete_ne, lookup_insert_eq by done.
    - cbn. by rewrite lookup_insert_eq. }
  replace (g_unpin (node_ref c) (g_pin tmp_client_ref c (g_pin (node_ref c) c g))) with (g_pin tmp_client_ref c g) in HI4.
  2:{ unfold g_pin, g_unpin. cbn. f_equal. rewrite insert_insert_ne by done. rewrite delete_insert_id; [done|].
      by rewrite lookup_insert_ne, Hov by done. }
  eapply Inv_same; [|exact HI4]. split_and!; try done. cbn. by rewrite insert_insert_eq.
Qed.

(** The first steps of the loop body of [ipc_port_publish]. *)
Lemma take_waiting_run {A} g s c ch (k : K A) :
  Inv g s -> g_ov g = ∅ -> k_chans s !! c = Some ch -> c_node ch = Some WaitingForPort ->
  (upd_chan c (set_c_path None);; chan_add_ref c tmp_client_ref;; chan_node_delete c;; chan_del_ref c (node_ref c);; k) s
  = k (taken_state c ch s).
Proof.
  intros HI Hov Hc Hn.
  assert (k_refs s !! node_ref c = Some c) as Hr1.
  { rewrite (i_refs g s HI). unfold ref_of. rewrite Hov, lookup_empty. cbn. rewrite Hc. cbn. by rewrite Hn. }
  assert (k_refs s !! tmp_client_ref = None) as Hr2.
  { rewrite (i_refs g s HI). unfold ref_of. by rewrite Hov, lookup_empty. }
  erewrite run_bind by (by apply upd_chan_run).
  erewrite run_bind by (eapply chan_add_ref_run; cbn; [by rewrite lookup_insert_eq|done]).
  erewrite run_bind.
  2:{ unfold chan_node_delete. erewrite run_bind by (apply get_chan_run; cbn; by rewrite lookup_insert_eq).
      cbn [c_node set_c_path]. rewrite Hn. erewrite run_bind by reflexivity. apply upd_chan_run. cbn. by rewrite lookup_insert_eq. }
  erewrite run_bind.
  2:{ eapply (chan_del_ref_kept _ _ tmp_client_ref); [cbn; by rewrite lookup_insert_eq| |done|cbn; by rewrite lookup_insert_eq].
      cbn. rewrite lookup_insert_ne, Hr1 by done. by eexists. }
  f_equal. unfold taken_state, put_chan, set_k_chans, set_k_refs, set_waiting_for_port_chan_list. cbn. by rewrite insert_insert_eq.
Qed.

(** The waiting client may connect to the port that appears. *)
Definition admits (pt : port) (cl : chan) : Prop :=
  c_path cl = Some (p_path pt) -> check_access pt (c_uuid cl) = NO_ERROR.

Definition same_port (pt pt' : port) : Prop :=
  p_path pt' = p_path pt /\ p_state pt' = p_state pt /\ p_flags pt' = p_flags pt /\ p_node pt' = p_node pt /\
  h_hlist (p_handle pt') = h_hlist (p_handle pt).

Lemma port_adopt_waiting_spec g s p pt client cl :
  Inv g s -> g_ov g = ∅ -> k_ports s !! p = Some pt -> p_state pt = IPC_PORT_STATE_LISTENING -> k_allocs s = [] ->
  k_chans s !! client = Some cl -> c_node cl = Some WaitingForPort -> admits pt cl ->
  exists s' pt', port_adopt_waiting p client s = Ret tt s' /\ Inv g s' /\ frame_t s s' /\ k_allocs s' = [] /\
    k_ports s' !! p = Some pt' /\ same_port pt pt' /\
    (forall c x, c <> client -> k_chans s !! c = Some x -> k_chans s' !! c = Some x).
Proof.
  intros HI Hov Hp Hls Ha Hc Hn Hadm. pose proof (i_chan g s HI client cl Hc) as Hok.
  assert (c_state cl = IPC_CHAN_STATE_WAITING_FOR_PORT /\ is_Some (c_path cl)) as [Hst [path Hpath]].
  { pose proof (co_node _ _ _ _ Hok) as H. unfold node_ok in H. by rewrite Hn in H. }
  assert (c_peer cl = None /\ c_msg_queue cl = None) as [Hpe Hq].
  { pose proof (co_state _ _ _ _ Hok) as H. unfold state_ok in H. rewrite Hst in H. by destruct H. }
  unfold port_adopt_waiting. rewrite (run_bind _ _ _ _ _ (get_chan_run _ _ _ Hc)), (run_bind _ _ _ _ _ (get_port_run _ _ _ Hp)).
  rewrite Hpath. cbn [deref]. rewrite (run_bind _ _ s path s) by done.
  destruct (bool_decide_reflect (path = p_path pt)) as [->|]; cbn [negb].
  2:{ exists s, pt. split_and!; done. }
  rewrite (take_waiting_run g s client cl) by done.
  pose proof (Inv_take g s client cl HI Hov Hc Hn) as HI1. set (s1 := taken_state client cl s) in *.
  assert (k_chans s1 !! client = Some (unwaited cl)) as Hc1 by (cbn; by rewrite lookup_insert_eq).
  destruct (port_attach_client_spec _ s1 p client pt (unwaited cl) HI1 Hp Hc1) as (ret & s2 & R2 & HI2 & F2 & Hres);
    [cbn; by rewrite Hov, insert_empty|done..|].
  destruct Hres as [(_ & _ & _ & Hno)|(-> & (_ & _ & Hne & Hfr & Ec2 & Ep2) & Ha2)].
  { destruct Hno. split; [done|]. split; [by apply Hadm|done]. }
  rewrite (run_bind _ _ _ _ _ R2). cbn [negb Z.eqb NO_ERROR when]. rewrite (run_bind _ _ s2 tt s2) by done.
  set (server := k_next s1) in *. set (cl' := new_client server pt (k_junk s1) (unwaited cl)) in *.
  assert (k_chans s2 !! client = Some cl') as Hc2 by (by rewrite Ec2, lookup_insert_ne, lookup_insert_eq by done).
  destruct (chan_del_ref_spec _ s2 tmp_client_ref client cl' HI2 ltac:(cbn; by rewrite lookup_insert_eq) Hc2) as (s3 & R3 & HI3 & D3).
  { rewrite unpin_pin by (by rewrite Hov). destruct (i_chan _ s2 HI2 client cl' Hc2) as [H1 H2 H3 H4 H5 H6 H7].
    split; try done. intros Hs. split; [by apply H3|].
    assert (has_uctx s2 = has_uctx s) as Hu by (unfold has_uctx; destruct F2 as (_ & _ & -> & _); done). rewrite Hu.
    destruct (co_wait _ _ _ _ Hok Hst) as [[p1 Hp1]|[?|[?|[r Hr]]]]; unfold owned; [congruence|auto|auto|].
    by rewrite Hov, lookup_empty in Hr. }
  rewrite unpin_pin in HI3 by (by rewrite Hov). destruct (del_post_frame _ _ _ _ D3) as (F3 & Ep3 & Hoth).
  exists s3, (add_pending server pt). split; [done|]. split; [done|].
  split; [transitivity s2; [exact (frame_a_t _ _ F2)|done]|].
  assert (k_allocs s3 = k_allocs s2) as -> by (destruct D3 as [(? & _ & _ & ->)|(_ & ->)]; done).
  split; [by apply Ha2|]. split; [by rewrite Ep3, Ep2, lookup_insert_eq|]. split; [done|].
  intros c x Hcc Hx. assert (server <> c) as Hsc.
  { intros <-. change (<[client := unwaited cl]> (k_chans s) !! server = None) in Hfr. rewrite lookup_insert_ne in Hfr by congruence. congruence. }
  rewrite Hoth, Ec2 by done. change (k_chans s1) with (<[client := unwaited cl]> (k_chans s)). by rewrite !lookup_insert_ne by congruence.
Qed.

Definition published (pt : port) : port :=
  set_refcnt_p (h_refcnt (p_handle pt) + 1) (set_p_node true (set_p_state IPC_PORT_STATE_LISTENING pt)).

Definition publish_state (p : Z) (pt : port) (s : kstate) : kstate :=
  put_port p (published pt) (set_ipc_port_list (ipc_port_list s ++ [p]) s).

Lemma Inv_publish g s p pt :
  Inv g s -> k_ports s !! p = Some pt -> p_node pt = false -> Inv g (publish_state p pt s).
Proof.
  intros HI Hp Hn. set (s' := publish_state p pt s). assert (has_uctx s' = has_uctx s) as Eu by done.
  destruct (HI). split; rewrite ?Eu; cbn; try done.
  - intros p1 x Hx. map_cases Hx p p1; [|by apply i_port].
    destruct (i_port p pt Hp) as [P1 P2 P3 P4 P5]. split; try done; cbn; [rewrite P1, Hn|]; lia.
  - intros p1 c1. rewrite <- i_pend. destruct (decide (p1 = p)) as [->|]; [|by rewrite lookup_insert_ne by done].
    rewrite lookup_insert_eq, Hp. split; intros (x & ? & ?); simplify_eq; by eexists.
  - destruct i_plist as [Hnd Hpl]. split.
    + apply NoDup_app. split_and!; [done| |apply NoDup_singleton].
      intros x Hx Hx1. apply list_elem_of_singleton in Hx1 as ->. apply Hpl in Hx as (y & ? & ?). congruence.
    + intros p1. rewrite elem_of_app, list_elem_of_singleton, Hpl.
      destruct (decide (p1 = p)) as [->|]; [rewrite lookup_insert_eq; split; [|by right]; by eexists|].
      rewrite lookup_insert_ne by done. intuition congruence.
  - intros h Hh. unfold s', publish_state. rewrite hview_put_port. destruct (decide _); [done|]. by apply i_ext.
  - destruct i_fresh as [F1 F2]. split; [done|]. intros p1. rewrite lookup_insert_is_Some. intros [<-|[_ ?]]; eauto.
  - eapply tabs_ok_ext; [|done]. intros h. unfold hl_of, s', publish_state. rewrite hview_put_port.
    destruct (decide _) as [->|]; [|done]. cbn. by rewrite Hp.
Qed.

Lemma adopt_all_spec g p l : g_ov g = ∅ -> NoDup l -> forall s pt,
  Inv g s -> k_ports s !! p = Some pt -> p_state pt = IPC_PORT_STATE_LISTENING -> k_allocs s = [] ->
  (forall c, c ∈ l -> exists cl, k_chans s !! c = Some cl /\ c_node cl = Some WaitingForPort /\ admits pt cl) ->
  exists s' pt', mfor (port_adopt_waiting p) l s = Ret tt s' /\ Inv g s' /\ frame_t s s' /\
    k_ports s' !! p = Some pt' /\ same_port pt pt'.
Proof.
  intros Hov Hnd. induction Hnd as [|c l Hc Hnd IH]; intros s pt HI Hp Hls Ha Hl; cbn.
  - exists s, pt. split_and!; done.
  - destruct (Hl c) as (cl & Hcl & Hn & Hadm); [by left|].
    destruct (port_adopt_waiting_spec g s p pt c cl HI Hov Hp Hls Ha Hcl Hn Hadm)
      as (s1 & pt1 & R1 & HI1 & F1 & Ha1 & Hp1 & (E1 & E2 & E3 & E4 & E5) & Hoth).
    destruct (IH s1 pt1 HI1 Hp1) as (s2 & pt2 & R2 & HI2 & F2 & Hp2 & (G1 & G2 & G3 & G4 & G5)); [congruence|done| |].
    { intros c1 Hc1. destruct (Hl c1) as (x & Hx & Hnx & Hax); [by right|]. exists x.
      split; [apply Hoth; [congruence|done]|]. split; [done|]. unfold admits, check_access in *. by rewrite E1, E3. }
    exists s2, pt2. rewrite (run_bind _ _ _ _ _ R1). split; [done|]. split; [done|]. split; [by transitivity s1|].
    split; [done|]. split_and!; congruence.
Qed.

(** Nobody waits for a port, or memory is available and every client that waits
    for this port may connect to it. *)
Definition publishable (s : kstate) (pt : port) : Prop :=
  waiting_for_port_chan_list s = [] \/
  k_allocs s = [] /\ forall c cl, k_chans s !! c = Some cl -> c_node cl = Some WaitingForPort -> admits pt cl.

Lemma adopt_waiting_spec g s p pt :
  Inv g s -> g_ov g = ∅ -> k_ports s !! p = Some pt -> p_state pt = IPC_PORT_STATE_LISTENING -> publishable s pt ->
  exists s' pt', mfor (port_adopt_waiting p) (waiting_for_port_chan_list s) s = Ret tt s' /\ Inv g s' /\ frame_t s s' /\
    k_ports s' !! p = Some pt' /\ same_port pt pt'.
Proof.
  intros HI Hov Hp Hls [E|[Ha Hadm]]; [rewrite E; by exists s, pt|].
  destruct (adopt_all_spec g p (waiting_for_port_chan_list s) Hov (proj1 (i_wait g s HI)) s pt HI Hp) as (s2 & pt2 & R2 & HI2 & F2 & Hp2 & G);
    [done|done| |by exists s2, pt2].
  intros c (cl & Hcl & Hncl)%(i_wait g s HI). exists cl. split; [done|]. split; [done|]. by apply (Hadm c).
Qed.

Lemma ipc_port_publish_spec g s p pt :
  Inv g s -> g_ov g = ∅ -> k_ports s !! p = Some pt -> p_node pt = false -> publishable s pt ->
  exists ret s' pt', ipc_port_publish (HPort p) s = Ret ret s' /\ Inv g s' /\ frame_t s s' /\
    k_ports s' !! p = Some pt' /\ h_hlist (p_handle pt') = h_hlist (p_handle pt) /\
    (ret = ERR_ALREADY_EXISTS /\ s' = s /\ (exists p' x, k_ports s !! p' = Some x /\ p_node x = true /\ p_path x = p_path pt) \/
     ret = NO_ERROR /\ p_node pt' = true /\ p_state pt' = IPC_PORT_STATE_LISTENING /\ p_path pt' = p_path pt).
Proof.
  intros HI Hov Hp Hn Hadm. pose proof (i_port g s HI p pt Hp) as [P1 P2 P3 P4 P5]. unfold ipc_port_publish.
  erewrite run_bind by (unfold get_handle; erewrite run_bind by (by apply get_port_run); done).
  unfold ipc_is_port, assert_ at 1. rewrite bool_decide_eq_true_2 by done. rewrite (run_bind _ _ s tt s) by done.
  rewrite (run_bind _ _ _ _ _ (get_port_run _ _ _ Hp)). rewrite Hn. cbn [negb]. rewrite (run_bind _ _ s tt s) by done.
  destruct (port_find_locked_run g s (p_path pt) HI) as (o & R & Ho). rewrite (run_bind _ _ _ _ _ R).
  destruct o as [p'|].
  { destruct Ho as (x & ? & ? & ?). exists ERR_ALREADY_EXISTS, s, pt. split_and!; try done. left. eauto 10. }
  erewrite run_bind by (by apply upd_port_run). erewrite run_bind by reflexivity.
  erewrite run_bind by (apply upd_port_run; cbn; by rewrite lookup_insert_eq).
  unfold handle_incref, upd_handle. erewrite run_bind by (apply upd_port_run; cbn; by rewrite lookup_insert_eq).
  set (s1 := put_port p _ _).
  assert (s1 = publish_state p pt s) as E1.
  { unfold s1, publish_state, put_port, set_k_ports, set_ipc_port_list. cbn. f_equal. by rewrite !insert_insert_eq. }
  rewrite E1. clear s1 E1. pose proof (Inv_publish g s p pt HI Hp Hn) as HI1. set (s1 := publish_state p pt s) in *.
  erewrite run_bind by reflexivity. change (waiting_for_port_chan_list s1) with (waiting_for_port_chan_list s).
  assert (k_ports s1 !! p = Some (published pt)) as Hp1 by (cbn; by rewrite lookup_insert_eq).
  destruct (adopt_waiting_spec g s1 p (published pt) HI1 Hov Hp1 eq_refl) as (s2 & pt2 & R2 & HI2 & F2 & Hp2 & (G1 & G2 & G3 & G4 & G5)).
  { destruct Hadm as [E|[? ?]]; [by left|by right]. }
  change (waiting_for_port_chan_list s1) with (waiting_for_port_chan_list s) in R2.
  rewrite (run_bind _ _ _ _ _ R2). exists NO_ERROR, s2, pt2. split_and!; try done. by right.
Qed.

(** ** Accepting a connection *)

(** The server channel taken off the pending list, held by the routine's node. *)
Definition popped_state (p : Z) (pt : port) (c : Z) (ch : chan) (s : kstate) : kstate :=
  set_k_refs (delete (node_ref c) (<[tmp_server_ref := c]> (k_refs s)))
    (put_chan c (set_c_node None ch) (put_port p (set_p_pending (unlink_addr c (p_pending pt)) pt) s)).

Lemma Inv_pop g s p pt c ch :
  Inv g s -> g_ov g = ∅ -> k_ports s !! p = Some pt -> k_chans s !! c = Some ch -> c_node ch = Some (PendingOn p) ->
  Inv (g_bor1 (HPort p) (g_pin tmp_server_ref c g)) (popped_state p pt c ch s).
Proof.
  intros HI Hov Hp Hc Hn. pose proof (Inv_unpend g s p pt c ch HI Hp Hc Hn) as HI1. set (s1 := put_chan _ _ _) in HI1.
  assert (k_chans s1 !! c = Some (set_c_node None ch)) as Hc1 by (cbn; by rewrite lookup_insert_eq).
  pose proof (Inv_addpin _ s1 tmp_server_ref c (set_c_node None ch) HI1 (or_intror eq_refl)) as HI3.
  specialize (HI3 ltac:(cbn; by rewrite lookup_insert_ne, Hov by done) Hc1). set (s3 := set_k_refs _ s1) in HI3.
  set (g3 := g_pin tmp_server_ref c (g_popped p c g)) in HI3.
  destruct (pending_server g s p c ch HI Hc Hn) as (_ & _ & Hst & _).
  assert (Inv (g_unpin (node_ref c) g3) (set_k_refs (delete (node_ref c) (k_refs s3)) s3)) as HI4.
  { eapply (Inv_unpin _ s3 (node_ref c) c (set_c_node None ch) tmp_server_ref); try done.
    - cbn. by rewrite lookup_insert_ne, lookup_insert_eq by done.
    - destruct (i_chan _ s3 HI3 c _ Hc1) as [H1 H2 H3 H4 H5 H6 H7]. split; try done.
      + intros Hs. split; [by apply H3|]. right; right; right. exists tmp_server_ref. cbn.
        by rewrite lookup_delete_ne, lookup_insert_eq by done.
      + unfold state_ok in *. cbn in *. by destruct Hst as [E|E]; rewrite E in *.
      + cbn. intros E. destruct Hst; congruence.
    - cbn. by rewrite lookup_insert_eq. }
  replace (g_unpin (node_ref c) g3) with (g_bor1 (HPort p) (g_pin tmp_server_ref c g)) in HI4; [exact HI4|].
  unfold g3, g_bor1, g_popped, g_pin, g_unpin. cbn. f_equal. rewrite insert_insert_ne by done. rewrite delete_insert_id; [done|].
  by rewrite lookup_insert_ne, Hov by done.
Qed.

(** Both ends of an accepted connection. *)
Definition accepted (ch : chan) : chan := set_c_state IPC_CHAN_STATE_CONNECTED ch.
Definition answered (ch : chan) : chan :=
  set_c_aux_state (set_flag (c_aux_state ch) IPC_CHAN_AUX_STATE_CONNECTED) (set_c_state IPC_CHAN_STATE_CONNECTED ch).

Lemma Inv_put_state g s c ch ch' :
  Inv g s -> k_chans s !! c = Some ch -> chan_same_links ch ch' -> c_handle ch' = c_handle ch -> c_flags ch' = c_flags ch ->
  c_node ch = None -> c_state ch' <> IPC_CHAN_STATE_WAITING_FOR_PORT -> state_ok g c ch' ->
  c_msg_queue ch' = c_msg_queue ch -> Inv g (put_chan c ch' s).
Proof.
  intros HI Hc Hl Hh Hfl Hn Hst Hok Hq. eapply Inv_put_chan; try done.
  destruct (i_chan g s HI c ch Hc) as [H1 H2 H3 H4 H5 H6 H7]. destruct Hl as (E1 & E2 & E3 & E4 & E5).
  split; rewrite ?Hh, ?Hq; try done.
  - intros Hs. rewrite E1 in Hs. destruct (H3 Hs) as [? Ho]. split; [done|]. unfold owned in *. by rewrite E2, Hh.
  - unfold node_ok. by rewrite E2, Hn.
Qed.

Lemma accept_ready g s server sv client cl :
  Inv (g_pin tmp_server_ref server g) s -> g_ov g = ∅ ->
  k_chans s !! server = Some sv -> k_chans s !! client = Some cl -> server <> client ->
  c_peer sv = Some client -> c_node sv = None -> h_refcnt (c_handle sv) = 0 -> is_Some (c_peer cl) ->
  c_state cl = IPC_CHAN_STATE_CONNECTING ->
  exists s', (upd_chan server (set_c_state IPC_CHAN_STATE_CONNECTED);;
         upd_chan client (set_c_state IPC_CHAN_STATE_CONNECTED);;
         upd_chan client (fun c => set_c_aux_state (set_flag (c_aux_state c) IPC_CHAN_AUX_STATE_CONNECTED) c);;
         ch ← chan_handle_init server;
         cl ← get_chan client;
         handle_notify (HChan client);;
         chan_del_ref server tmp_server_ref;;
         mret (NO_ERROR, Some (ch, c_uuid cl))) s = Ret (NO_ERROR, Some (HChan server, c_uuid cl)) s' /\
    Inv (g_own1 (HChan server) g) s' /\ frame_t s s' /\
    k_chans s' = <[server := init_handle_c (accepted sv)]> (<[client := answered cl]> (k_chans s)).
Proof.
  intros HI Hov Hsv Hcl Hne Hps Hns Hrs [pp Hpp] Hstc.
  assert (c_node cl = None) as Hnc.
  { pose proof (co_node _ _ _ _ (i_chan _ s HI client cl Hcl)) as H. unfold node_ok in H.
    destruct (c_node cl) as [[|p]|]; [destruct H as [H _]; congruence|destruct H as (_ & _ & [H|H]); congruence|done]. }
  assert (Inv (g_pin tmp_server_ref server g) (put_chan server (accepted sv) s)) as HI1.
  { eapply Inv_put_state; try done. by eexists. }
  set (s1 := put_chan server (accepted sv) s) in *.
  assert (k_chans s1 !! client = Some cl) as Hcl1 by (cbn; by rewrite lookup_insert_ne).
  assert (Inv (g_pin tmp_server_ref server g) (put_chan client (answered cl) s1)) as HI2.
  { eapply Inv_put_state; try done. unfold state_ok. cbn. by rewrite Hpp. }
  set (s2 := put_chan client (answered cl) s1) in *.
  assert (k_chans s2 !! server = Some (accepted sv)) as Hsv2 by (cbn; by rewrite lookup_insert_ne, lookup_insert_eq by done).
  destruct (chan_handle_init_spec _ s2 server (accepted sv) HI2 Hsv2 Hrs) as (s3 & R3 & HI3 & F3 & Ec3 & _).
  { cbn. by rewrite Hov, insert_empty, lookup_singleton_ne. }
  { cbn. by rewrite Hns. }
  assert (k_chans s3 !! client = Some (answered cl)) as Hcl3 by (by rewrite Ec3, lookup_insert_ne; cbn; rewrite ?lookup_insert_eq).
  destruct (handle_notify_run s3 (HChan client) (c_handle (answered cl))) as [e He]; [cbn; by rewrite Hcl3|].
  apply (Inv_events _ _ e) in HI3. set (s4 := set_k_events e s3) in *.
  assert (k_chans s4 !! server = Some (init_handle_c (accepted sv))) as Hsv4 by (change (k_chans s4) with (k_chans s3); by rewrite Ec3, lookup_insert_eq).
  destruct (chan_del_ref_spec _ s4 tmp_server_ref server _ HI3 ltac:(cbn; by rewrite lookup_insert_eq) Hsv4) as (s5 & R5 & HI5 & D5).
  { apply chan_ok_own_unpin; [|done]. by apply (i_chan _ s4 HI3). }
  exists s5. split.
  { erewrite run_bind by (by apply upd_chan_run). change (put_chan server (set_c_state IPC_CHAN_STATE_CONNECTED sv) s) with s1.
    erewrite run_bind by (by apply upd_chan_run). erewrite run_bind by (apply upd_chan_run; cbn; by rewrite lookup_insert_eq).
    set (sx := put_chan client _ (put_chan client _ s1)).
    assert (sx = s2) as -> by (unfold sx, s2, put_chan, set_k_chans; cbn; f_equal; by rewrite insert_insert_eq).
    rewrite (run_bind _ _ _ _ _ R3), (run_bind _ _ _ _ _ (get_chan_run _ _ _ Hcl3)), (run_bind _ _ _ _ _ He). fold s4.
    rewrite (run_bind _ _ _ _ _ R5). done. }
  replace (g_unpin tmp_server_ref (g_own1 (HChan server) (g_pin tmp_server_ref server g))) with (g_own1 (HChan server) g) in HI5.
  2:{ unfold g_unpin, g_own1, g_pin. cbn. by rewrite Hov. }
  destruct (del_post_frame _ _ _ _ D5) as (F5 & _ & _). split; [done|]. split; [transitivity s4; [exact (frame_f_t _ _ F3)|done]|].
  assert (k_chans s5 = k_chans s3) as ->.
  { destruct D5 as [(? & _ & _ & ->)|(Hno & _)]; [done|]. exfalso. apply (Hno (handle_ref server)); [done|].
    rewrite (i_refs _ s4 HI3). unfold ref_of. cbn -[s4]. rewrite Hov, insert_empty, lookup_singleton_ne by done. cbn -[s4]. by rewrite Hsv4. }
  rewrite Ec3. cbn. apply map_eq. intros i. destruct (decide (i = server)) as [->|]; [by rewrite !lookup_insert_eq|].
  rewrite !(lookup_insert_ne _ server) by done. destruct (decide (i = client)) as [->|]; [by rewrite !lookup_insert_eq|].
  by rewrite !lookup_insert_ne.
Qed.

(** Taking the next pending server channel off a listening port. *)
Lemma accept_pop_run {A} g s p pt server sv rest (k : K A) :
  Inv g s -> g_ov g = ∅ -> k_ports s !! p = Some pt -> p_pending pt = server :: rest -> k_chans s !! server = Some sv ->
  c_node sv = Some (PendingOn p) ->
  (sv ← get_chan server;
   assert_ (has_flag (c_flags sv) IPC_CHAN_FLAG_SERVER);;
   chan_add_ref server tmp_server_ref;;
   chan_del_ref server (node_ref server);; k)
    (put_chan server (set_c_node None sv) (put_port p (set_p_pending rest pt) s))
  = k (popped_state p pt server sv s).
Proof.
  intros HI Hov Hp Hpd Hsv Hn. destruct (pending_server g s p server sv HI Hsv Hn) as (_ & Hfl & _ & _).
  assert (unlink_addr server (p_pending pt) = rest) as Hrest.
  { pose proof (po_nodup _ _ _ _ (i_port g s HI p pt Hp)) as Hnd. rewrite Hpd in *. apply NoDup_cons in Hnd as [Hni _].
    unfold unlink_addr. rewrite filter_cons_False by (intros H; by apply H). by apply unlink_addr_notin. }
  assert (k_refs s !! node_ref server = Some server) as Hr1.
  { rewrite (i_refs g s HI). unfold ref_of. rewrite Hov, lookup_empty. cbn. rewrite Hsv. cbn. by rewrite Hn. }
  erewrite run_bind by (apply get_chan_run; cbn; by rewrite lookup_insert_eq).
  cbn [c_flags set_c_node]. rewrite Hfl. cbn [assert_]. erewrite run_bind by reflexivity.
  erewrite run_bind; [|eapply chan_add_ref_run; cbn; [by rewrite lookup_insert_eq|]].
  2:{ rewrite (i_refs g s HI). unfold ref_of. by rewrite Hov, lookup_empty. }
  erewrite run_bind; [|eapply (chan_del_ref_kept _ _ tmp_server_ref); [cbn; by rewrite lookup_insert_eq| |done|cbn; by rewrite lookup_insert_eq]].
  2:{ cbn. rewrite lookup_insert_ne, Hr1 by done. by eexists. }
  unfold popped_state. by rewrite Hrest.
Qed.

(** What [ipc_port_accept] hands out: the server end of a connection whose two
    ends are now connected to each other, and who the client is. *)
Definition accepts (s s' : kstate) (p server : Z) (uuid : option uuid_ptr) : Prop :=
  exists pt rest sv client cl, k_ports s !! p = Some pt /\ p_state pt = IPC_PORT_STATE_LISTENING /\
    p_pending pt = server :: rest /\ k_chans s !! server = Some sv /\ c_peer sv = Some client /\
    k_chans s !! client = Some cl /\ c_peer cl = Some server /\ uuid = c_uuid cl /\
    k_chans s' = <[server := init_handle_c (accepted (set_c_node None sv))]> (<[client := answered cl]> (k_chans s)).

(** The port reference that came with the pending channel is dropped as well. *)
Lemma accept_pop g s p pt server sv :
  Inv g s -> g_ov g = ∅ -> k_ports s !! p = Some pt -> k_chans s !! server = Some sv -> c_node sv = Some (PendingOn p) ->
  exists s', handle_decref (HPort p) (popped_state p pt server sv s) = Ret tt s' /\ Inv (g_pin tmp_server_ref server g) s' /\
    k_chans s' = <[server := set_c_node None sv]> (k_chans s) /\ frame_t s s'.
Proof.
  intros HI Hov Hp Hsv Hn. pose proof (Inv_pop g s p pt server sv HI Hov Hp Hsv Hn) as HI1.
  set (s1 := popped_state p pt server sv s) in *.
  assert (k_ports s1 !! p = Some (set_p_pending (unlink_addr server (p_pending pt)) pt)) as Hp1 by (cbn; by rewrite lookup_insert_eq).
  destruct (handle_decref_port_spec _ _ s1 p _ HI1 Hp1 (g_bor1_less _ _)) as (R2 & HI2).
  eexists. split; [exact R2|]. split; [exact HI2|]. unfold port_less. by destruct (_ =? _).
Qed.

(** The client went away: the server end is closed. *)
Lemma accept_closed g s server sv :
  Inv (g_pin tmp_server_ref server g) s -> g_ov g = ∅ -> k_chans s !! server = Some sv ->
  c_state sv = IPC_CHAN_STATE_ACCEPTING \/ c_state sv = IPC_CHAN_STATE_DISCONNECTING ->
  exists s', (chan_shutdown_locked server;; chan_del_ref server tmp_server_ref;; mret (ERR_CHANNEL_CLOSED, None)) s
        = Ret (ERR_CHANNEL_CLOSED, @None (href * option uuid_ptr)) s' /\ frame_t s s' /\ Inv g s'.
Proof.
  intros HI Hov Hsv Hst.
  destruct (chan_shutdown_locked_spec _ s server _ HI Hsv) as (s3 & R3 & HI3 & F3 & Hc3 & _); [intros E; destruct Hst; congruence|].
  rewrite (run_bind _ _ _ _ _ R3). destruct (shut1_pending sv Hst) as [_ Hst1].
  destruct (chan_del_ref_spec _ s3 tmp_server_ref server _ HI3 ltac:(cbn; by rewrite lookup_insert_eq) Hc3) as (s4 & R4 & HI4 & D4).
  { apply (chan_ok_peerless _ (g_pin tmp_server_ref server g)); try done; [cbn; congruence|by apply (i_chan _ s3 HI3)]. }
  rewrite (run_bind _ _ _ _ _ R4). rewrite unpin_pin in HI4 by (by rewrite Hov). exists s4. split; [done|]. split; [|done].
  transitivity s3; [by apply frame_f_t|]. apply (del_post_frame _ _ _ _ D4).
Qed.

Lemma ipc_port_accept_spec g s h :
  Inv g s -> g_ov g = ∅ -> is_Some (hview s h) ->
  exists ret o s', ipc_port_accept h s = Ret (ret, o) s' /\ frame_t s s' /\
    (ret < 0 /\ o = None /\ Inv g s' \/
     ret = NO_ERROR /\ exists p server uuid, h = HPort p /\ o = Some (HChan server, uuid) /\
       Inv (g_own1 (HChan server) g) s' /\ accepts s s' p server uuid).
Proof.
  intros HI Hov [x Hx]. unfold ipc_port_accept, get_handle. destruct h as [p|c]; cbn in Hx.
  2:{ destruct (k_chans s !! c) as [ch|] eqn:Hc; [|done]. erewrite run_bind by (erewrite run_bind by (by apply get_chan_run); done).
      eexists _, _, s. split; [done|]. split; [done|]. by left. }
  destruct (k_ports s !! p) as [pt|] eqn:Hp; [|done]. erewrite run_bind by (erewrite run_bind by (by apply get_port_run); done).
  unfold ipc_is_port. rewrite bool_decide_eq_true_2 by (by apply (i_port g s HI p pt Hp)). cbn [negb].
  rewrite (run_bind _ _ _ _ _ (get_port_run _ _ _ Hp)).
  destruct (bool_decide_reflect (p_state pt = IPC_PORT_STATE_LISTENING)) as [Hls|]; cbn [negb].
  2:{ eexists _, _, s. split; [done|]. split; [done|]. by left. }
  unfold port_pop_pending. destruct (p_pending pt) as [|server rest] eqn:Hpd.
  { erewrite run_bind by (erewrite run_bind by (by apply get_port_run); by rewrite Hpd).
    eexists _, _, s. split; [done|]. split; [done|]. by left. }
  destruct (proj1 (i_pend g s HI p server)) as (sv & Hsv & Hn); [exists pt; split; [done|]; rewrite Hpd; by left|].
  erewrite run_bind.
  2:{ erewrite run_bind by (by apply get_port_run). rewrite Hpd. erewrite run_bind by (by apply upd_port_run).
      erewrite run_bind by (apply upd_chan_run; exact Hsv). done. }
  cbn beta iota. rewrite (accept_pop_run g s p pt server sv rest) by done.
  destruct (accept_pop g s p pt server sv HI Hov Hp Hsv Hn) as (s2 & R2 & HI2 & Ec2 & F2). rewrite (run_bind _ _ _ _ _ R2).
  assert (k_chans s2 !! server = Some (set_c_node None sv)) as Hsv2 by (by rewrite Ec2, lookup_insert_eq).
  rewrite (run_bind _ _ _ _ _ (get_chan_run _ _ _ Hsv2)). cbn [c_peer set_c_node].
  destruct (pending_server g s p server sv HI Hsv Hn) as (Hrc & _ & Hst & _).
  destruct (accept_closed g s2 server _ HI2 Hov Hsv2 Hst) as (s3 & R3 & F3 & HI3).
  assert (exists ret (o : option (href * option uuid_ptr)) s', Ret (ERR_CHANNEL_CLOSED, None) s3 = Ret (ret, o) s' /\ frame_t s s' /\
    (ret < 0 /\ o = None /\ Inv g s' \/ ret = NO_ERROR /\ exists p0 server uuid, HPort p = HPort p0 /\
      o = Some (HChan server, uuid) /\ Inv (g_own1 (HChan server) g) s' /\ accepts s s' p0 server uuid)) as Hcl3.
  { eexists _, _, s3. split; [done|]. split; [by transitivity s2|]. by left. }
  destruct (c_peer sv) as [client|] eqn:Hpe; [|erewrite run_bind by reflexivity; cbn beta iota; by rewrite R3].
  destruct (i_peer _ s2 HI2 server _ client Hsv2 Hpe) as (Hne & cl & Hcl & _ & Hpcl).
  cbn [c_state set_c_node]. destruct (bool_decide_reflect (c_state sv = IPC_CHAN_STATE_ACCEPTING)) as [Hsa|]; cbn [negb];
    [|erewrite run_bind by reflexivity; cbn beta iota; by rewrite R3].
  destruct (bool_decide_reflect (c_state cl = IPC_CHAN_STATE_CONNECTING)) as [Hcs|Hcs].
  2:{ rewrite (run_bind _ _ s2 None s2); [cbn beta iota; by rewrite R3|]. rewrite (run_bind _ _ _ _ _ (get_chan_run _ _ _ Hcl)).
      by rewrite bool_decide_eq_false_2. }
  assert (c_peer cl = Some server) as Hps.
  { pose proof (co_state _ _ _ _ (i_chan _ s2 HI2 client cl Hcl)) as H. unfold state_ok in H. rewrite Hcs in H.
    destruct Hpcl as [E|E]; [rewrite E in H; by destruct H|done]. }
  destruct (accept_ready g s2 server _ client cl HI2 Hov Hsv2 Hcl) as (s4 & R4 & HI4 & F4 & Ec4); try done.
  rewrite (run_bind _ _ s2 (Some client) s2).
  2:{ rewrite (run_bind _ _ _ _ _ (get_chan_run _ _ _ Hcl)). by rewrite bool_decide_eq_true_2. }
  cbn beta iota. rewrite R4. eexists _, _, s4. split; [done|]. split; [by transitivity s2|]. right. split; [done|].
  exists p, server, (c_uuid cl). split_and!; try done. exists pt, rest, sv, client, cl.
  rewrite Ec2, lookup_insert_ne in Hcl by done. split_and!; try done.
  rewrite Ec4, Ec2. apply map_eq. intros i. destruct (decide (i = server)) as [->|]; [by rewrite !lookup_insert_eq|].
  rewrite !(lookup_insert_ne _ server) by done. destruct (decide (i = client)) as [->|]; [by rewrite !lookup_insert_eq|].
  by rewrite !lookup_insert_ne.
Qed.
