(* ===== verification/IpcCalls.v ===== *)
(** * Handle tables, messages and system calls

    The bitmap of used slots, the operations on a handle table, and the system
    calls on top of the routines of [IpcSafe]. *)

From stdpp Require Import base tactics list gmap.
From Stdlib Require Import ZArith Lia.
From S2P Require Import Prelude Bitmap Iovec MsgQueue Kernel Channel Handle Uctx Ipc IpcMsg IpcInv IpcSafe.

(** ** Handles of either kind *)

Definition set_handle (h : href) (x : handle) (s : kstate) : kstate :=
  match h with
  | HPort p => match k_ports s !! p with Some pt => put_port p (set_p_handle x pt) s | None => s end
  | HChan c => match k_chans s !! c with Some ch => put_chan c (set_c_handle x ch) s | None => s end
  end.

Lemma get_handle_run s h x : hview s h = Some x -> get_handle h s = Ret x s.
Proof.
  destruct h as [p|c]; cbn; intros Hx.
  - destruct (k_ports s !! p) as [pt|] eqn:E; cbn in Hx; simplify_eq. unfold get_handle. by erewrite run_bind by (by apply get_port_run).
  - destruct (k_chans s !! c) as [ch|] eqn:E; cbn in Hx; simplify_eq. unfold get_handle. by erewrite run_bind by (by apply get_chan_run).
Qed.

Lemma upd_handle_run s h x f : hview s h = Some x -> upd_handle h f s = Ret tt (set_handle h (f x) s).
Proof.
  destruct h as [p|c]; cbn; intros Hx.
  - destruct (k_ports s !! p) as [pt|] eqn:E; cbn in Hx; simplify_eq. unfold upd_handle. by erewrite upd_port_run.
  - destruct (k_chans s !! c) as [ch|] eqn:E; cbn in Hx; simplify_eq. unfold upd_handle. by erewrite upd_chan_run.
Qed.

Lemma hview_set_handle s h x x0 h' :
  hview s h = Some x0 -> hview (set_handle h x s) h' = if decide (h' = h) then Some x else hview s h'.
Proof.
  intros Hx. destruct h as [p|c]; cbn in *.
  - destruct (k_ports s !! p) as [pt|]; [|done]. by rewrite hview_put_port.
  - destruct (k_chans s !! c) as [ch|]; [|done]. by rewrite hview_put_chan.
Qed.

Lemma set_handle_twice s h x y : set_handle h y (set_handle h x s) = set_handle h y s.
Proof.
  destruct h as [p|c]; cbn.
  - destruct (k_ports s !! p) as [pt|] eqn:E; cbn; [|by rewrite E]. rewrite lookup_insert_eq.
    unfold put_port, set_k_ports. cbn. f_equal. by rewrite insert_insert_eq.
  - destruct (k_chans s !! c) as [ch|] eqn:E; cbn; [|by rewrite E]. rewrite lookup_insert_eq.
    unfold put_chan, set_k_chans. cbn. f_equal. by rewrite insert_insert_eq.
Qed.

Lemma set_handle_rest s h x :
  k_apps (set_handle h x s) = k_apps s /\ k_hlists (set_handle h x s) = k_hlists s /\ k_kmem (set_handle h x s) = k_kmem s /\
  k_junk (set_handle h x s) = k_junk s /\ k_allocs (set_handle h x s) = k_allocs s /\ k_events (set_handle h x s) = k_events s /\
  ipc_port_list (set_handle h x s) = ipc_port_list s /\
  waiting_for_port_chan_list (set_handle h x s) = waiting_for_port_chan_list s /\ k_next (set_handle h x s) = k_next s /\
  k_refs (set_handle h x s) = k_refs s.
Proof. destruct h as [p|c]; cbn; [destruct (k_ports s !! p)|destruct (k_chans s !! c)]; done. Qed.

(** The tables and lists change together with what one handle says about them. *)
Section retable.
Context (g g' : ghost) (s : kstate) (A : gmap Z app) (H : gmap Z handle_list).
Hypothesis HI : Inv g s.
Hypothesis HA : forall l, is_Some (A !! l ≫= a_uctx) <-> is_Some (k_apps s !! l ≫= a_uctx).

Definition retabled : kstate := set_k_hlists H (set_k_apps A s).

Lemma retabled_uctx l : has_uctx retabled l = has_uctx s l.
Proof using HA. unfold has_uctx. by apply bool_decide_ext. Qed.

Lemma retabled_refs o : list_refs (has_uctx retabled) o = list_refs (has_uctx s) o.
Proof using HA. destruct o as [l|]; cbn; [by rewrite retabled_uctx|done]. Qed.

Lemma retabled_owned c ch : owned (has_uctx s) g' c ch -> owned (has_uctx retabled) g' c ch.
Proof using HA.
  intros [?|[?|[(l & ? & ?)|?]]]; unfold owned; auto. right; right; left. exists l. by rewrite retabled_uctx.
Qed.

Lemma retabled_chan c ch : chan_ok (has_uctx s) g' c ch -> chan_ok (has_uctx retabled) g' c ch.
Proof using HA.
  intros [H1 H2 H3 H4 H5 H6 H7]. split; try done; [by rewrite retabled_refs| |].
  - intros Hp. split; [by apply H3|]. by apply retabled_owned, H3.
  - intros E. by apply retabled_owned, H7.
Qed.

Lemma retabled_port p pt : port_ok (has_uctx s) g' p pt -> port_ok (has_uctx retabled) g' p pt.
Proof using HA. intros [H1 H2 H3 H4 H5]. split; try done. by rewrite retabled_refs. Qed.

Lemma Inv_retable_chan c ch x :
  k_chans s !! c = Some ch -> g_but (HChan c) g g' -> 0 < h_refcnt (c_handle ch) -> 0 < h_refcnt x ->
  chan_ok (has_uctx s) g' c (set_c_handle x ch) ->
  tabs_ok (hl_of (put_chan c (set_c_handle x ch) s)) A H -> Inv g' (put_chan c (set_c_handle x ch) retabled).
Proof using HI HA.
  intros Hc Hg Hr Hr' Hok HT. set (ch' := set_c_handle x ch) in *.
  assert (forall r, field_ref (put_chan c ch' s) r = field_ref s r) as Hf.
  { intros [c'|c'|c'| |]; cbn; try done;
      (destruct (decide (c' = c)) as [->|]; [rewrite lookup_insert_eq, Hc; cbn|by rewrite lookup_insert_ne by done]); try done.
    by destruct (Z.ltb_spec 0 (h_refcnt x)), (Z.ltb_spec 0 (h_refcnt (c_handle ch))); lia || done. }
  assert (forall c' n, (exists y, <[c := ch']> (k_chans s) !! c' = Some y /\ c_node y = n) <->
                  (exists y, k_chans s !! c' = Some y /\ c_node y = n)) as Hiff.
  { intros c' n. destruct (decide (c' = c)) as [->|]; [|by rewrite lookup_insert_ne by done].
    rewrite lookup_insert_eq, Hc. split; intros (y & ? & ?); simplify_eq; by eexists. }
  destruct (HI). split; cbn; try done.
  - intros c' y Hy. apply retabled_chan. map_cases Hy c c'; [done|]. eapply chan_ok_but; [done| |by apply i_chan]. congruence.
  - intros p pt Hpt. apply retabled_port. eapply port_ok_but; [done|done|by apply i_port].
  - intros r. rewrite i_refs. unfold ref_of. destruct Hg as [-> _]. destruct (g_ov g !! r); [done|]. by rewrite <- Hf.
  - intros r c'. destruct Hg as [-> _]. intros Ho. destruct (i_ov r c' Ho) as [? ?].
    split; [by rewrite <- (Hf r) in *|]. rewrite lookup_insert_is_Some. destruct (decide (c = c')); auto.
  - intros c'. rewrite lookup_insert_is_Some. intros [<-|[_ ?]]; eauto.
  - exact (peers_keep s (put_chan c ch' s) c ch ch' i_peer Hc eq_refl eq_refl (fun q => q)).
  - intros p c'. rewrite Hiff. apply i_pend.
  - destruct i_wait as [? Hw]. split; [done|]. intros c'. rewrite Hiff. apply Hw.
  - intros h Hin. change (is_Some (hview (put_chan c ch' s) h)). rewrite hview_put_chan.
    destruct (decide _) as [|Hne]; [done|]. apply i_ext. by eapply g_but_ext.
  - destruct i_fresh as [F1 F2]. split; [|done]. intros c'. rewrite lookup_insert_is_Some. intros [<-|[_ ?]]; eauto.
Qed.

Lemma Inv_retable_port p pt x :
  k_ports s !! p = Some pt -> g_but (HPort p) g g' -> port_ok (has_uctx s) g' p (set_p_handle x pt) ->
  tabs_ok (hl_of (put_port p (set_p_handle x pt) s)) A H -> Inv g' (put_port p (set_p_handle x pt) retabled).
Proof using HI HA.
  intros Hp Hg Hok HT. set (pt' := set_p_handle x pt) in *. destruct (HI). split; cbn; try done.
  - intros c y Hy. apply retabled_chan. eapply chan_ok_but; [done| |by apply i_chan]. congruence.
  - intros p' y Hy. apply retabled_port. map_cases Hy p p'; [done|]. eapply port_ok_but; [done| |by apply i_port]. congruence.
  - intros r. rewrite i_refs. unfold ref_of. destruct Hg as [-> _]. by destruct (g_ov g !! r).
  - intros r c. destruct Hg as [-> _]. apply i_ov.
  - intros p' c. rewrite <- i_pend. destruct (decide (p' = p)) as [->|]; [|by rewrite lookup_insert_ne by done].
    rewrite lookup_insert_eq, Hp. split; intros (y & ? & ?); simplify_eq; by eexists.
  - destruct i_plist as [? Hw]. split; [done|]. intros p'. rewrite Hw.
    destruct (decide (p' = p)) as [->|]; [|by rewrite lookup_insert_ne by done].
    rewrite lookup_insert_eq, Hp. split; intros (y & ? & ?); simplify_eq; by eexists.
  - intros h Hin. change (is_Some (hview (put_port p pt' s) h)). rewrite hview_put_port.
    destruct (decide _) as [|Hne]; [done|]. apply i_ext. by eapply g_but_ext.
  - destruct i_fresh as [F1 F2]. split; [done|]. intros p'. rewrite lookup_insert_is_Some. intros [<-|[_ ?]]; eauto.
Qed.
End retable.

(** The references to [h] that are neither lists nor tables nor the routine's. *)
Definition other_refs (g : ghost) (s : kstate) (h : href) (x : handle) : Z :=
  h_refcnt x - (cnt h (g_own g) + cnt h (g_bor g) + list_refs (has_uctx s) (h_hlist x)).

Definition owned_as (s : kstate) (g : ghost) (h : href) (x : handle) : Prop :=
  forall c ch, h = HChan c -> k_chans s !! c = Some ch ->
    is_Some (c_peer ch) \/ c_state ch = IPC_CHAN_STATE_WAITING_FOR_PORT -> owned (has_uctx s) g c (set_c_handle x ch).

Lemma Inv_rehandle g g' s h x x' A H :
  Inv g s -> hview s h = Some x -> g_but h g g' -> h_ops x' = h_ops x -> 0 < h_refcnt x -> 0 < h_refcnt x' ->
  (forall l, is_Some (A !! l ≫= a_uctx) <-> is_Some (k_apps s !! l ≫= a_uctx)) ->
  other_refs g' s h x' = other_refs g s h x -> owned_as s g' h x' ->
  tabs_ok (fun h' => if decide (h' = h) then h_hlist x' else hl_of s h') A H ->
  Inv g' (set_handle h x' (set_k_hlists H (set_k_apps A s))).
Proof.
  intros HI Hx Hg Hops Hr Hr' HA Ho Hown HT. unfold other_refs in Ho.
  assert (tabs_ok (hl_of (set_handle h x' s)) A H) as HT'.
  { eapply tabs_ok_ext; [|exact HT]. intros h'. unfold hl_of. rewrite (hview_set_handle s h x' x) by done. by destruct (decide _). }
  destruct h as [p|c]; cbn in *.
  - destruct (k_ports s !! p) as [pt|] eqn:Hp; [|done]. cbn in Hx. simplify_eq.
    apply (Inv_retable_port g g' s A H HI HA p pt x' Hp Hg); [|done].
    destruct (i_port g s HI p pt Hp) as [P1 P2 P3 P4 P5]. split; try done; cbn; [lia|congruence].
  - destruct (k_chans s !! c) as [ch|] eqn:Hc; [|done]. cbn in Hx. simplify_eq.
    apply (Inv_retable_chan g g' s A H HI HA c ch x' Hc Hg Hr Hr'); [|done].
    destruct (i_chan g s HI c ch Hc) as [H1 H2 H3 H4 H5 H6 H7]. split; try done; cbn.
    + lia.
    + intros _. rewrite Hops. by apply H2.
    + intros Hs. split; [by apply H3|]. apply (Hown c ch eq_refl Hc). by left.
    + unfold state_ok, pinned in *. destruct Hg as [-> _]. done.
    + unfold node_ok in *. cbn. destruct (c_node ch) as [[|p]|]; [done| |done]. destruct H5 as (_ & E & _). lia.
    + intros E. apply (Hown c ch eq_refl Hc). by right.
Qed.

(** A handle changes without its list: [A] and [H] stay. *)
Lemma Inv_set_handle g g' s h x x' :
  Inv g s -> hview s h = Some x -> g_but h g g' -> h_ops x' = h_ops x -> h_hlist x' = h_hlist x ->
  0 < h_refcnt x -> 0 < h_refcnt x' -> other_refs g' s h x' = other_refs g s h x -> owned_as s g' h x' ->
  Inv g' (set_handle h x' s).
Proof.
  intros HI Hx Hg Hops Hhl Hr Hr' Ho Hown.
  assert (Inv g' (set_handle h x' (set_k_hlists (k_hlists s) (set_k_apps (k_apps s) s)))) as HI'.
  { eapply Inv_rehandle; try done. eapply tabs_ok_ext; [|by apply (i_tabs g s HI)]. intros h'. destruct (decide _) as [->|]; [|done].
    unfold hl_of. by rewrite Hx. }
  by destruct s.
Qed.

Lemma owned_kept g g' s h x x' :
  Inv g s -> hview s h = Some x -> h_hlist x' = h_hlist x -> g_ov g' = g_ov g ->
  (forall h', h' ∈ g_own g -> h' ∈ g_own g') -> owned_as s g' h x'.
Proof.
  intros HI Hx Hhl Hov Hin c ch -> Hc Hs. cbn in Hx. rewrite Hc in Hx. cbn in Hx. simplify_eq.
  destruct (i_chan g s HI c ch Hc) as [H1 H2 H3 H4 H5 H6 H7].
  assert (owned (has_uctx s) g c ch) as Ho by (destruct Hs as [Hs|Hs]; [by apply H3|by apply H7]).
  unfold owned, pinned in *. cbn. rewrite Hhl, Hov. destruct Ho as [?|[?|?]]; auto.
Qed.

Lemma live_refcnt g s h x : Inv g s -> hview s h = Some x -> h ∈ g_own g ++ g_bor g \/ is_Some (h_hlist x) -> 0 < h_refcnt x.
Proof.
  intros HI Hx Hin.
  assert (0 < cnt h (g_own g) + cnt h (g_bor g) + list_refs (has_uctx s) (h_hlist x)) as Hpos.
  { pose proof (list_refs_nonneg (has_uctx s) (h_hlist x)). pose proof (cnt_nonneg h (g_own g)). pose proof (cnt_nonneg h (g_bor g)).
    destruct Hin as [Hin|[l Hl]].
    - rewrite elem_of_app, !cnt_elem in Hin. lia.
    - rewrite Hl in *. cbn in *. destruct (has_uctx s l); lia. }
  destruct h as [p|c]; cbn in Hx.
  - destruct (k_ports s !! p) as [pt|] eqn:Hp; cbn in Hx; simplify_eq. by apply (i_port g s HI p pt Hp).
  - destruct (k_chans s !! c) as [ch|] eqn:Hc; cbn in Hx; simplify_eq. rewrite (co_refcnt _ _ _ _ (i_chan g s HI c ch Hc)). done.
Qed.

(** ** Taking and dropping references *)

Lemma handle_incref_spec g s h x :
  Inv g s -> hview s h = Some x -> 0 < h_refcnt x ->
  handle_incref h s = Ret tt (set_handle h (set_h_refcnt (h_refcnt x + 1) x) s) /\
  Inv (g_bor1 h g) (set_handle h (set_h_refcnt (h_refcnt x + 1) x) s).
Proof.
  intros HI Hx Hr. split; [exact (upd_handle_run s h x (fun y => set_h_refcnt (h_refcnt y + 1) y) Hx)|].
  eapply Inv_set_handle; try done; cbn.
  - split; [done|]. cbn. intros h' Hne. destruct (decide _); [congruence|]. lia.
  - lia.
  - unfold other_refs. cbn. destruct (decide _); [lia|done].
  - eapply owned_kept; try done.
Qed.

Lemma handle_decref_spec g s h :
  Inv (g_bor1 h g) s -> exists s', handle_decref h s = Ret tt s' /\ Inv g s' /\ frame_t s s'.
Proof.
  intros HI. destruct (i_ext _ s HI h (bor1_elem h g)) as [x Hx]. destruct h as [p|c]; cbn in Hx.
  - destruct (k_ports s !! p) as [pt|] eqn:Hp; [|done].
    destruct (handle_decref_port_spec _ g s p pt HI Hp (g_bor1_less _ g)) as (R & HI').
    eexists. split; [exact R|]. split; [done|]. unfold port_less. by destruct (_ =? _).
  - destruct (k_chans s !! c) as [ch|] eqn:Hc; [|done].
    destruct (handle_decref_chan_spec _ g s c ch HI Hc (g_bor1_less _ g)) as (s' & R & HI' & F & _).
    { destruct (i_chan _ s HI c ch Hc) as [H1 H2 H3 H4 H5 H6 H7]. intros [Hs|Hs]; [by apply H3|by apply H7]. }
    exists s'. split; [done|]. split; [done|]. by apply frame_f_t.
Qed.

(** ** Running on tables and lists *)

Lemma get_app_run s a x : k_apps s !! a = Some x -> get_app a s = Ret x s.
Proof. intros H. unfold get_app, mbind, M_bind, get, deref. by rewrite H. Qed.

Lemma upd_app_run s a x f : k_apps s !! a = Some x -> upd_app a f s = Ret tt (put_app a (f x) s).
Proof. intros H. unfold upd_app. by rewrite (run_bind _ _ _ _ _ (get_app_run _ _ _ H)). Qed.

Lemma get_uctx_run s a x u : k_apps s !! a = Some x -> a_uctx x = Some u -> get_uctx a s = Ret u s.
Proof. intros H Hu. unfold get_uctx. rewrite (run_bind _ _ _ _ _ (get_app_run _ _ _ H)), Hu. done. Qed.

Lemma upd_uctx_run s a x u f :
  k_apps s !! a = Some x -> a_uctx x = Some u -> upd_uctx a f s = Ret tt (put_app a (set_a_uctx (Some (f u)) x) s).
Proof.
  intros H Hu. unfold upd_uctx. rewrite (run_bind _ _ _ _ _ (get_uctx_run _ _ _ _ H Hu)). by apply upd_app_run.
Qed.

Lemma get_hlist_run s l hl : k_hlists s !! l = Some hl -> get_hlist l s = Ret hl s.
Proof. intros H. unfold get_hlist, mbind, M_bind, get, deref. by rewrite H. Qed.

Lemma upd_hlist_run s l hl f : k_hlists s !! l = Some hl -> upd_hlist l f s = Ret tt (put_hlist l (f hl) s).
Proof. intros H. unfold upd_hlist. by rewrite (run_bind _ _ _ _ _ (get_hlist_run _ _ _ H)). Qed.

(** Polling a live handle changes nothing. *)
Lemma handle_poll_run g s h x : Inv g s -> hview s h = Some x -> 0 < h_refcnt x -> exists e, handle_poll h s = Ret e s.
Proof.
  intros HI Hx Hr. unfold handle_poll. rewrite (run_bind _ _ _ _ _ (get_handle_run _ _ _ Hx)). destruct h as [p|c]; cbn in Hx.
  - destruct (k_ports s !! p) as [pt|] eqn:Hp; cbn in Hx; simplify_eq.
    assert (h_ops (p_handle pt) = Some ipc_port_handle_ops) as Ho by (by apply (i_port g s HI p pt Hp)). rewrite Ho.
    unfold port_poll. rewrite (run_bind _ _ _ _ _ (get_port_run _ _ _ Hp)). unfold ipc_is_port. rewrite Ho. by eexists.
  - destruct (k_chans s !! c) as [ch|] eqn:Hc; cbn in Hx; simplify_eq.
    assert (h_ops (c_handle ch) = Some ipc_chan_handle_ops) as Ho by (by apply (i_chan g s HI c ch Hc)). rewrite Ho.
    unfold chan_poll. rewrite (run_bind _ _ _ _ _ (get_chan_run _ _ _ Hc)). unfold ipc_is_channel. rewrite Ho. by eexists.
Qed.

(** A field the invariant does not look at. *)
Lemma Inv_handle_field g s h x x' :
  Inv g s -> hview s h = Some x -> h_refcnt x' = h_refcnt x -> h_ops x' = h_ops x -> h_hlist x' = h_hlist x ->
  0 < h_refcnt x -> Inv g (set_handle h x' s).
Proof.
  intros HI Hx Hr Ho Hh Hpos. eapply Inv_set_handle; try done; [congruence|unfold other_refs; by rewrite Hr, Hh|].
  by eapply owned_kept.
Qed.

Lemma set_k_events_same s : set_k_events (k_events s) s = s.
Proof. by destruct s. Qed.

Lemma set_handle_same s h x : hview s h = Some x -> set_handle h x s = s.
Proof.
  destruct s. destruct h as [p|c]; cbn; intros Hx; [destruct (k_ports !! p) as [pt|] eqn:E|destruct (k_chans !! c) as [ch|] eqn:E]; try done;
    cbn in *; simplify_eq; unfold put_port, put_chan, set_k_ports, set_k_chans; cbn; f_equal; apply insert_id; rewrite E; f_equal.
  - by destruct pt.
  - by destruct ch.
Qed.

(** The tail of [handle_list_add] when somebody waits on the list. *)
Lemma list_add_waiter g s h x ev :
  Inv g s -> hview s h = Some x -> 0 < h_refcnt x ->
  exists s' x' e, (_ ← prepare_wait_handle ev h; event ← handle_poll h; when (negb (event =? 0)) (handle_notify h)) s = Ret tt s' /\
    Inv g s' /\ s' = set_k_events e (set_handle h x' s).
Proof.
  intros HI Hx Hr. unfold prepare_wait_handle.
  assert (exists r x1, (x ← get_handle h; match h_wait_event x with Some _ => mret ERR_ALREADY_STARTED
      | None => upd_handle h (set_h_wait_event (Some ev));; mret 0 end) s = Ret r (set_handle h x1 s) /\ Inv g (set_handle h x1 s) /\
      h_refcnt x1 = h_refcnt x) as (r & x1 & R1 & HI1 & E1).
  { rewrite (run_bind _ _ _ _ _ (get_handle_run _ _ _ Hx)). destruct (h_wait_event x).
    - exists ERR_ALREADY_STARTED, x. by rewrite set_handle_same.
    - rewrite (run_bind _ _ _ _ _ (upd_handle_run _ _ _ _ Hx)). eexists _, (set_h_wait_event (Some ev) x). split; [done|].
      split; [by eapply Inv_handle_field|done]. }
  set (s1 := set_handle h x1 s) in *.
  assert (hview s1 h = Some x1) as Hx1 by (unfold s1; by rewrite (hview_set_handle _ _ _ x), decide_True).
  rewrite (run_bind _ _ _ _ _ R1). destruct (handle_poll_run g s1 h x1 HI1 Hx1 ltac:(lia)) as [e Re]. rewrite (run_bind _ _ _ _ _ Re).
  destruct (handle_notify_run s1 h x1 Hx1) as [evs Hn].
  destruct (negb _); cbn [when]; [rewrite Hn; exists (set_k_events evs s1), x1, evs|exists s1, x1, (k_events s1)]; (split; [done|]).
  - split; [by apply Inv_events|done].
  - split; [done|]. symmetry. apply set_k_events_same.
Qed.

Lemma deref_run {A} e (o : option A) x (s : kstate) : o = Some x -> deref e o s = Ret x s.
Proof. by intros ->. Qed.

(** ** The handle table *)

(** App [a] has the table [u]. *)
Definition has_table (s : kstate) (a : Z) (x : app) (u : uctx) : Prop := k_apps s !! a = Some x /\ a_uctx x = Some u.

Definition slot_of (u : uctx) (id : Z) : option href := mjoin (u_handles u !! Z.to_nat id).

Lemma slot_of_Some u id h : slot_of u id = Some h <-> u_handles u !! Z.to_nat id = Some (Some h).
Proof. unfold slot_of. destruct (_ !! _) as [[]|]; cbn; naive_solver. Qed.

Lemma table_slots u id : table_ok u -> 0 <= id -> (bitmap_test (u_inuse u) id = true /\ id < 64) <-> is_Some (slot_of u id).
Proof.
  intros HT Hid. split.
  - intros [Hb Hlt]. apply (tb_inuse u HT) in Hb as [h Hh]; [|lia]. exists h. by apply slot_of_Some.
  - intros [h Hh%slot_of_Some]. assert (id < 64) as Hlt.
    { apply lookup_lt_Some in Hh. rewrite (tb_len u HT) in Hh. lia. }
    split; [|done]. apply (tb_inuse u HT); [lia|]. by exists h.
Qed.

Lemma check_handle_id_run u id s : table_ok u -> 0 <= id ->
  match slot_of u id with
  | Some _ => check_handle_id u id s = Ret NO_ERROR s
  | None => exists e, e <> NO_ERROR /\ e < 0 /\ check_handle_id u id s = Ret e s
  end.
Proof.
  intros HT Hid. pose proof (table_slots u id HT Hid) as Hs. unfold check_handle_id, IPC_MAX_HANDLES. destruct (slot_of u id) as [h|] eqn:E.
  - destruct (proj2 Hs) as [Hb Hlt]; [done|]. rewrite Hb. destruct (Z.geb_spec id 64); [lia|]. cbn [negb]. unfold assert_, slot_of in *.
    rewrite E. by rewrite bool_decide_eq_true_2 by done.
  - destruct (Z.geb_spec id 64); [eexists; split_and!; [| |reflexivity]; done|]. destruct (bitmap_test (u_inuse u) id) eqn:Hb; cbn [negb]; [|eexists; split_and!; [| |reflexivity]; done].
    destruct (proj1 Hs); [|done]. split; [done|lia].
Qed.

Lemma slot_handle g s a x u id h : Inv g s -> has_table s a x u -> slot_of u id = Some h ->
  exists y, hview s h = Some y /\ h_hlist y = Some a /\ 0 < h_refcnt y.
Proof.
  intros HI [Ha Hu] Hh%slot_of_Some. destruct (ta_table _ _ _ (i_tabs g s HI) a x u Ha Hu) as (_ & _ & Ht).
  assert (hl_of s h = Some a) as E by (apply Ht; by eexists). unfold hl_of in E. destruct (hview s h) as [y|] eqn:Hy; [|done]. cbn in E.
  exists y. split_and!; try done. eapply live_refcnt; eauto.
Qed.

Lemma uctx_table g s a x u : Inv g s -> has_table s a x u -> table_ok u /\ exists hl, k_hlists s !! a = Some hl.
Proof. intros HI [Ha Hu]. by destruct (ta_table _ _ _ (i_tabs g s HI) a x u Ha Hu) as (? & ? & _). Qed.

(** [uctx_handle_get] hands out a reference to the handle in the slot. *)
Lemma uctx_handle_get_spec g s a x u id : Inv g s -> has_table s a x u -> 0 <= id ->
  exists ret o s', uctx_handle_get a id s = Ret (ret, o) s' /\ o = slot_of u id /\ frame_t s s' /\
    match o with
    | None => ret < 0 /\ s' = s
    | Some h => ret = NO_ERROR /\ Inv (g_bor1 h g) s' /\ exists y, hview s h = Some y /\ s' = set_handle h (set_h_refcnt (h_refcnt y + 1) y) s
    end.
Proof.
  intros HI Ht Hid. destruct (uctx_table _ _ _ _ _ HI Ht) as [HT _]. pose proof Ht as [Ha Hu]. unfold uctx_handle_get.
  rewrite (run_bind _ _ _ _ _ (get_uctx_run _ _ _ _ Ha Hu)). pose proof (check_handle_id_run u id s HT Hid) as Hc.
  destruct (slot_of u id) as [h|] eqn:Es.
  - rewrite (run_bind _ _ _ _ _ Hc). rewrite Z.eqb_refl. unfold slot_of in Es. rewrite (run_bind _ _ _ _ _ (deref_run _ _ _ s Es)). destruct (slot_handle g s a x u id h HI Ht Es) as (y & Hy & Hhl & Hr).
    destruct (handle_incref_spec g s h y HI Hy Hr) as [R HI']. rewrite (run_bind _ _ _ _ _ R).
    eexists _, _, _. split; [done|]. split; [done|]. split.
    + destruct (set_handle_rest s h (set_h_refcnt (h_refcnt y + 1) y)) as (? & ? & ? & ? & _). done.
    + split; [done|]. split; [done|]. by exists y.
  - destruct Hc as (e & Hne & Hneg & R). rewrite (run_bind _ _ _ _ _ R). destruct (Z.eqb_spec e NO_ERROR); [done|].
    by eexists _, _, s.
Qed.

(** *** Filling and emptying a slot *)

Definition fill_slot (i : Z) (h : href) (u : uctx) : uctx :=
  set_u_handles (<[Z.to_nat i := Some h]> (u_handles u)) (set_u_inuse (bitmap_set (u_inuse u) i) u).
Definition clear_slot (i : Z) (u : uctx) : uctx :=
  set_u_handles (<[Z.to_nat i := None]> (u_handles u)) (set_u_inuse (bitmap_clear (u_inuse u) i) u).

Lemma fill_slot_ok u i h : table_ok u -> 0 <= i < 64 -> (forall j, u_handles u !! j <> Some (Some h)) -> table_ok (fill_slot i h u).
Proof.
  intros [T1 T2 T3 T4 T5] Hi Hn. assert (bm_ok 2 (bitmap_set (u_inuse u) i)) as [? ?] by (apply bitmap_set_ok; [lia|done]).
  split; cbn; try done.
  - by rewrite length_insert.
  - intros j Hj. rewrite (bitmap_test_set 2 (u_inuse u) i j) by done. destruct (Z.eqb_spec j i) as [->|Hne]; cbn.
    + split; [|done]. intros _. exists h. apply list_lookup_insert_eq. lia.
    + rewrite list_lookup_insert_ne by lia. by apply T4.
  - intros j k h'. rewrite !list_lookup_insert_Some. intros [(<- & E1 & _)|(_ & E1)] [(<- & E2 & _)|(_ & E2)]; simplify_eq; try done.
    + by destruct (Hn k).
    + by destruct (Hn j).
    + by eapply T5.
Qed.

Lemma clear_slot_ok u i : table_ok u -> 0 <= i < 64 -> table_ok (clear_slot i u).
Proof.
  intros [T1 T2 T3 T4 T5] Hi. assert (bm_ok 2 (bitmap_clear (u_inuse u) i)) as [? ?] by (by apply bitmap_clear_ok).
  split; cbn; try done.
  - by rewrite length_insert.
  - intros j Hj. rewrite (bitmap_test_clear 2 (u_inuse u) i j) by done. destruct (Z.eqb_spec j i) as [->|Hne]; cbn.
    + rewrite list_lookup_insert_eq by lia. split; [done|]. by intros [? ?].
    + rewrite list_lookup_insert_ne by lia. by apply T4.
  - intros j k h'. rewrite !list_lookup_insert_Some. intros [(<- & ? & ?)|(? & E1)] [(<- & ? & ?)|(? & E2)]; try done. by eapply T5.
Qed.

(** Tables and lists after the table of app [a] and its list changed together. *)
Lemma tabs_retable hl hl' A H a x u' hs :
  tabs_ok hl A H -> A !! a = Some x -> table_ok u' -> NoDup (hl_handles hs) ->
  (forall h b, b <> a -> hl' h = Some b <-> hl h = Some b) ->
  (forall h, h ∈ hl_handles hs <-> hl' h = Some a) ->
  (forall h, hl' h = Some a <-> exists i, u_handles u' !! i = Some (Some h)) ->
  tabs_ok hl' (<[a := set_a_uctx (Some u') x]> A) (<[a := hs]> H).
Proof.
  intros [T1 T2 T3 T4] Ha Hu' Hnd Hsame Hhs Htab.
  split.
  - intros l y Hy. map_cases Hy a l; [done|]. eauto.
  - intros l y h Hy. map_cases Hy a l; [done|]. rewrite Hsame by done. eauto.
  - intros h l Hl. destruct (decide (l = a)) as [->|Hne]; [by rewrite lookup_insert_eq|]. rewrite lookup_insert_ne by done.
    apply (T3 h). by apply Hsame.
  - intros b y u Hy Hu. map_cases Hy a b.
    + cbn in Hu. simplify_eq. rewrite lookup_insert_eq. done.
    + rewrite lookup_insert_ne by done. destruct (T4 b y u Hy Hu) as (? & ? & T). split; [done|]. split; [done|].
      intros h. rewrite Hsame by done. apply T.
Qed.

Lemma tabs_install hl A H a x u i h hs :
  tabs_ok hl A H -> A !! a = Some x -> a_uctx x = Some u -> H !! a = Some hs -> hl h = None -> 0 <= i < 64 ->
  slot_of u i = None ->
  tabs_ok (fun h' => if decide (h' = h) then Some a else hl h') (<[a := set_a_uctx (Some (fill_slot i h u)) x]> A)
    (<[a := set_hl_handles (hl_handles hs ++ [h]) hs]> H).
Proof.
  intros HT Ha Hu Hs Hh Hi Hslot. pose proof HT as [T1 T2 T3 T4]. destruct (T4 a x u Ha Hu) as (Ht & _ & Htab).
  assert (forall j, u_handles u !! j <> Some (Some h)) as Hn.
  { intros j Hj. assert (hl h = Some a) by (apply Htab; eauto). congruence. }
  eapply tabs_retable; try done.
  - by apply fill_slot_ok.
  - cbn. apply NoDup_app. split; [eauto|]. split; [|by apply NoDup_singleton].
    intros y Hy ->%list_elem_of_singleton. apply (T2 a) in Hy; [|done]. congruence.
  - intros h' b Hb. destruct (decide (h' = h)) as [->|]; [|done]. split; congruence.
  - intros h'. cbn. rewrite elem_of_app, list_elem_of_singleton, (T2 a) by done. destruct (decide _); naive_solver.
  - intros h'. cbn. destruct (decide (h' = h)) as [->|Hne].
    + split; [|done]. intros _. exists (Z.to_nat i). apply list_lookup_insert_eq. rewrite (tb_len u Ht). lia.
    + rewrite Htab. split; intros [j Hj]; exists j.
      * rewrite list_lookup_insert_ne; [done|]. intros <-. apply slot_of_Some in Hj. congruence.
      * apply list_lookup_insert_Some in Hj as [(_ & [= <-] & _)|[_ ?]]; done.
Qed.

Lemma hlist_unlink_elem h l y : y ∈ hlist_unlink h l <-> y <> h /\ y ∈ l.
Proof. unfold hlist_unlink. by rewrite list_elem_of_filter. Qed.

Lemma tabs_remove hl A H a x u i h hs :
  tabs_ok hl A H -> A !! a = Some x -> a_uctx x = Some u -> H !! a = Some hs -> 0 <= i < 64 -> slot_of u i = Some h ->
  tabs_ok (fun h' => if decide (h' = h) then None else hl h') (<[a := set_a_uctx (Some (clear_slot i u)) x]> A)
    (<[a := set_hl_handles (hlist_unlink h (hl_handles hs)) hs]> H).
Proof.
  intros HT Ha Hu Hs Hi Hslot%slot_of_Some. pose proof HT as [T1 T2 T3 T4]. destruct (T4 a x u Ha Hu) as (Ht & _ & Htab).
  assert (hl h = Some a) as Hh by (apply Htab; eauto).
  eapply tabs_retable; try done.
  - by apply clear_slot_ok.
  - cbn. apply NoDup_filter. eauto.
  - intros h' b Hb. destruct (decide (h' = h)) as [->|]; [|done]. split; congruence.
  - intros h'. cbn. rewrite hlist_unlink_elem, (T2 a) by done. destruct (decide _); naive_solver.
  - intros h'. cbn. destruct (decide (h' = h)) as [->|Hne].
    + split; [done|]. intros [j Hj]. apply list_lookup_insert_Some in Hj as [(_ & ? & _)|[Hne Hj]]; [done|].
      destruct Hne. by eapply (tb_inj u Ht).
    + rewrite Htab. split; intros [j Hj]; exists j.
      * rewrite list_lookup_insert_ne; [done|]. intros <-. congruence.
      * by apply list_lookup_insert_Some in Hj as [(_ & ? & _)|[_ ?]].
Qed.

(** *** Installing and removing handles *)

(** The handle [x], linked on list [a] with one more reference. *)
Definition linked (a : Z) (x : handle) : handle := set_h_hlist (Some a) (set_h_refcnt (h_refcnt x + 1) x).

Lemma handle_list_add_run s l h x hl :
  hview s h = Some x -> h_hlist x = None -> k_hlists s !! l = Some hl ->
  let s' := set_handle h (linked l x) (put_hlist l (set_hl_handles (hl_handles hl ++ [h]) hl) s) in
  handle_list_add l h s =
    match hl_wait_event hl with
    | Some ev => (_ ← prepare_wait_handle ev h; event ← handle_poll h; when (negb (event =? 0)) (handle_notify h)) s'
    | None => Ret tt s'
    end.
Proof.
  intros Hx Hn Hl s'. unfold handle_list_add. rewrite (run_bind _ _ _ _ _ (get_handle_run _ _ _ Hx)).
  unfold assert_. rewrite bool_decide_eq_true_2 by done. rewrite (run_bind _ _ s tt s) by done.
  unfold handle_incref. rewrite (run_bind _ _ _ _ _ (upd_handle_run _ _ _ _ Hx)). set (s1 := set_handle h _ s).
  destruct (set_handle_rest s h (set_h_refcnt (h_refcnt x + 1) x)) as (_ & Eh & _). fold s1 in Eh.
  assert (k_hlists s1 !! l = Some hl) as Hl1 by (by rewrite Eh).
  rewrite (run_bind _ _ _ _ _ (upd_hlist_run _ _ _ _ Hl1)). set (s2 := put_hlist l _ s1).
  assert (hview s2 h = Some (set_h_refcnt (h_refcnt x + 1) x)) as Hx2.
  { assert (hview s2 h = hview s1 h) as -> by (by destruct h). unfold s1. by rewrite (hview_set_handle _ _ _ x), decide_True. }
  rewrite (run_bind _ _ _ _ _ (upd_handle_run _ _ _ _ Hx2)).
  assert (set_handle h (set_h_hlist (Some l) (set_h_refcnt (h_refcnt x + 1) x)) s2 = s') as ->.
  { unfold s2, s1, s'. destruct h as [p|c]; cbn in Hx |- *; [destruct (k_ports s !! p) eqn:E|destruct (k_chans s !! c) eqn:E]; try done; cbn;
      rewrite lookup_insert_eq; unfold put_port, put_chan, put_hlist; cbn; by rewrite insert_insert_eq. }
  assert (k_hlists s' !! l = Some (set_hl_handles (hl_handles hl ++ [h]) hl)) as Hl2.
  { destruct (set_handle_rest (put_hlist l (set_hl_handles (hl_handles hl ++ [h]) hl) s) h (linked l x)) as (_ & E & _).
    unfold s'. rewrite E. cbn. by rewrite lookup_insert_eq. }
  rewrite (run_bind _ _ _ _ _ (get_hlist_run _ _ _ Hl2)). cbn. by destruct (hl_wait_event hl).
Qed.

Definition with_app (a : Z) (x : app) (hs : handle_list) (s : kstate) : kstate :=
  set_k_hlists (<[a := hs]> (k_hlists s)) (set_k_apps (<[a := x]> (k_apps s)) s).

Lemma same_tables s a x u u' l : has_table s a x u ->
  is_Some (<[a := set_a_uctx (Some u') x]> (k_apps s) !! l ≫= a_uctx) <-> is_Some (k_apps s !! l ≫= a_uctx).
Proof.
  intros [Ha Hu]. destruct (decide (l = a)) as [->|]; [|by rewrite lookup_insert_ne]. rewrite lookup_insert_eq, Ha. cbn. by rewrite Hu.
Qed.

Lemma Inv_install g s a x u i h y hs :
  Inv (g_own1 h g) s -> has_table s a x u -> k_hlists s !! a = Some hs -> hview s h = Some y -> h_hlist y = None ->
  0 <= i < 64 -> slot_of u i = None ->
  Inv g (set_handle h (linked a y) (with_app a (set_a_uctx (Some (fill_slot i h u)) x)
           (set_hl_handles (hl_handles hs ++ [h]) hs) s)).
Proof.
  intros HI Ht Hl Hy Hn Hi Hs. pose proof Ht as [Ha Hu].
  assert (has_uctx s a = true) as Hua by (unfold has_uctx; rewrite Ha; cbn; rewrite Hu; by apply bool_decide_eq_true_2).
  assert (0 < h_refcnt y) as Hr by (eapply live_refcnt; [done|done|]; left; apply own1_elem).
  eapply Inv_rehandle; try done.
  - apply g_own1_less.
  - cbn. lia.
  - intros l. by eapply same_tables.
  - unfold other_refs, linked. cbn. rewrite Hua, Hn. cbn. destruct (decide _); [lia|done].
  - intros c ch -> Hc _. right; right; left. cbn. by exists a.
  - apply (tabs_install (hl_of s)); try done; [apply (i_tabs _ s HI)|]. unfold hl_of. by rewrite Hy.
Qed.

(** Only the table and the list of app [a], and the handle, change. *)
Definition installed (a : Z) (x' : app) (h : href) (s s' : kstate) : Prop :=
  exists y hs e, s' = set_k_events e (set_handle h y (with_app a x' hs s)).

Lemma installed_apps a x' h s s' : installed a x' h s s' -> k_apps s' = <[a := x']> (k_apps s).
Proof. intros (y & hs & e & ->). cbn. by destruct (set_handle_rest (with_app a x' hs s) h y) as (-> & _). Qed.

Lemma list_add_installed g s a x u i h y hs :
  Inv (g_own1 h g) s -> has_table s a x u -> k_hlists s !! a = Some hs -> hview s h = Some y -> h_hlist y = None ->
  0 <= i < 64 -> slot_of u i = None ->
  let x' := set_a_uctx (Some (fill_slot i h u)) x in
  exists s', handle_list_add a h (put_app a x' s) = Ret tt s' /\ Inv g s' /\ installed a x' h s s'.
Proof.
  intros HI Ht Hl Hy Hn Hi Hs x'. pose proof (Inv_install g s a x u i h y hs HI Ht Hl Hy Hn Hi Hs) as HI2. fold x' in HI2.
  assert (hview (put_app a x' s) h = Some y) as Hy1 by (by destruct h).
  assert (k_hlists (put_app a x' s) !! a = Some hs) as Hl1 by done.
  rewrite (handle_list_add_run _ a h y hs Hy1 Hn Hl1). set (s2 := set_handle h _ _). change (Inv g s2) in HI2.
  assert (hview s2 h = Some (linked a y)) as Hy2.
  { unfold s2. rewrite (hview_set_handle _ _ _ y), decide_True by (by destruct h). done. }
  destruct (hl_wait_event hs) as [ev|].
  - destruct (list_add_waiter g s2 h (linked a y) ev HI2 Hy2) as (s3 & y3 & e & R & HI3 & E3).
    { eapply live_refcnt; [exact HI2|done|]. right. by eexists. }
    exists s3. split; [done|]. split; [done|]. exists y3, (set_hl_handles (hl_handles hs ++ [h]) hs), e. rewrite E3. unfold s2.
    by rewrite set_handle_twice.
  - exists s2. split; [done|]. split; [done|]. exists (linked a y), (set_hl_handles (hl_handles hs ++ [h]) hs), (k_events s2).
    symmetry. apply set_k_events_same.
Qed.

(** [uctx_handle_install]: the lowest free slot receives the handle and the
    caller's reference with it; a full table leaves the caller its reference. *)
Lemma uctx_handle_install_spec g s a x u h y :
  Inv (g_own1 h g) s -> has_table s a x u -> hview s h = Some y -> h_hlist y = None ->
  exists ret id s', uctx_handle_install a h s = Ret (ret, id) s' /\
    (ret < 0 /\ s' = s /\ (forall i, 0 <= i < 64 -> is_Some (slot_of u i)) \/
     ret = NO_ERROR /\ 0 <= id < 64 /\ slot_of u id = None /\ (forall i, 0 <= i < id -> is_Some (slot_of u i)) /\
       Inv g s' /\ has_table s' a (set_a_uctx (Some (fill_slot id h u)) x) (fill_slot id h u) /\
       installed a (set_a_uctx (Some (fill_slot id h u)) x) h s s').
Proof.
  intros HI Ht Hy Hn. destruct (uctx_table _ _ _ _ _ HI Ht) as [HT [hs Hl]]. pose proof Ht as [Ha Hu]. unfold uctx_handle_install.
  rewrite (run_bind _ _ _ _ _ (get_uctx_run _ _ _ _ Ha Hu)). set (id := bitmap_ffz (u_inuse u) IPC_MAX_HANDLES).
  assert (bm_ok 2 (u_inuse u)) as Hbm by (split; [apply HT|apply HT]).
  assert (forall i, 0 <= i < 64 -> bitmap_test (u_inuse u) i = true -> is_Some (slot_of u i)) as Hused.
  { intros i Hi Hb. apply table_slots; [done|lia|]. split; [done|lia]. }
  destruct (bitmap_ffz_spec 2 (u_inuse u) Hbm) as [[E Hall]|(Hr & Hfree & Hlow)].
  { change (bitmap_ffz _ _) with id in E. rewrite E. eexists _, _, s. split; [done|]. left. split; [done|]. split; [done|]. eauto. }
  change (bitmap_ffz _ _) with id in Hr, Hfree, Hlow. destruct (Z.ltb_spec id 0); [lia|].
  assert (slot_of u id = None) as Hs.
  { destruct (slot_of u id) eqn:E; [|done]. exfalso. destruct (proj2 (table_slots u id HT ltac:(lia))); [by rewrite E|congruence]. }
  unfold assert_. unfold slot_of in Hs. rewrite bool_decide_eq_true_2 by done. rewrite (run_bind _ _ s tt s) by done.
  rewrite (run_bind _ _ _ _ _ (upd_uctx_run _ _ _ _ _ Ha Hu)).
  erewrite run_bind by (eapply upd_uctx_run; cbn; [by rewrite lookup_insert_eq|done]). set (s1 := put_app a _ _).
  assert (s1 = put_app a (set_a_uctx (Some (fill_slot id h u)) x) s) as E1.
  { unfold s1, put_app. cbn. by rewrite insert_insert_eq. }
  rewrite E1. clear s1 E1. set (s1 := put_app a _ s).
  assert (hview s1 h = Some y) as Hy1 by (by destruct h).
  destruct (list_add_installed g s a x u id h y hs HI Ht Hl Hy Hn Hr Hs) as (s2 & R & HI2 & E2). rewrite (run_bind _ _ _ _ _ R).
  eexists _, _, s2. split; [done|]. right. split_and!; try done; try lia.
  - intros i Hi. apply Hused; [lia|]. by apply Hlow.
  - split; [|done]. by rewrite (installed_apps _ _ _ _ _ E2), lookup_insert_eq.
Qed.

(** The handle taken off its list, the list's reference still counted. *)
Definition unlinked (x : handle) : handle := set_h_hlist None x.

Lemma Inv_remove g s a x u i h y hs :
  Inv g s -> has_table s a x u -> k_hlists s !! a = Some hs -> hview s h = Some y ->
  0 <= i < 64 -> slot_of u i = Some h ->
  Inv (g_bor1 h (g_own1 h g)) (set_handle h (unlinked y) (with_app a (set_a_uctx (Some (clear_slot i u)) x)
           (set_hl_handles (hlist_unlink h (hl_handles hs)) hs) s)).
Proof.
  intros HI Ht Hl Hy Hi Hs. pose proof Ht as [Ha Hu]. destruct (slot_handle g s a x u i h HI Ht Hs) as (y' & Hy' & Hn & Hr). simplify_eq.
  assert (has_uctx s a = true) as Hua by (unfold has_uctx; rewrite Ha; cbn; rewrite Hu; by apply bool_decide_eq_true_2).
  eapply Inv_rehandle; try done.
  - split; [done|]. cbn. intros h' Hne. destruct (decide _); [congruence|lia].
  - intros l. by eapply same_tables.
  - unfold other_refs, unlinked. cbn. rewrite Hn. cbn. rewrite Hua. destruct (decide _); [lia|done].
  - intros c ch -> Hc _. right; left. by left.
  - by apply (tabs_remove (hl_of s)); [apply (i_tabs _ s HI)|..].
Qed.

(** What the lists say decides where a handle is. *)
Lemma hl_of_lists g g' s s' h :
  Inv g s -> Inv g' s' -> k_hlists s' = k_hlists s -> hl_of s' h = hl_of s h.
Proof.
  intros HI HI' E. apply option_eq. intros l. pose proof (i_tabs g s HI) as [_ L1 S1 _]. pose proof (i_tabs g' s' HI') as [_ L2 S2 _].
  split; intros Hl.
  - destruct (S2 h l Hl) as [z Hz]. pose proof Hz as Hz'. rewrite E in Hz'. apply (L1 l z h Hz'). by apply (L2 l z h Hz).
  - destruct (S1 h l Hl) as [z Hz]. pose proof Hz as Hz'. rewrite <- E in Hz'. apply (L2 l z h Hz'). by apply (L1 l z h Hz).
Qed.

(** The tail of [_handle_list_del_locked] when somebody waits on the list. *)
Definition list_del_tail (o : option Z) (h : href) (hs : list href) : K unit :=
  match o with
  | Some ev => finish_wait_handle h;; when (bool_decide (hs = [])) (event_signal ev)
  | None => mret tt
  end.

Lemma list_del_waiter g s h x o hs :
  Inv g s -> hview s h = Some x -> 0 < h_refcnt x ->
  exists s', list_del_tail o h hs s = Ret tt s' /\ Inv g s' /\ frame_t s s' /\ hl_of s' h = hl_of s h.
Proof.
  intros HI Hx Hr. destruct o as [ev|]; cbn [list_del_tail]; [|by exists s].
  unfold finish_wait_handle. rewrite (run_bind _ _ _ _ _ (upd_handle_run _ _ _ _ Hx)).
  set (s1 := set_handle h _ s). assert (Inv g s1) as HI1 by (by eapply Inv_handle_field).
  destruct (set_handle_rest s h (set_h_wait_event None x)) as (? & ? & ? & ? & _).
  assert (forall s', Inv g s' -> k_hlists s' = k_hlists s -> hl_of s' h = hl_of s h) as Hhl by (intros; by eapply hl_of_lists).
  destruct (bool_decide _); cbn [when]; (eexists; split; [done|]).
  - assert (Inv g (set_k_events ({[ev]} ∪ k_events s1) s1)) as HI2 by (by apply Inv_events).
    split; [done|]. split; [done|]. by apply Hhl.
  - split; [done|]. split; [done|]. by apply Hhl.
Qed.

(** [handle_list_del] of a table's handle, the slot already empty. *)
Lemma list_del_removed g s a x u i h y hs :
  Inv g s -> has_table s a x u -> k_hlists s !! a = Some hs -> hview s h = Some y ->
  0 <= i < 64 -> slot_of u i = Some h ->
  let x' := set_a_uctx (Some (clear_slot i u)) x in
  exists s' y', handle_list_del a h (put_app a x' s) = Ret tt s' /\ Inv (g_own1 h g) s' /\ k_apps s' = <[a := x']> (k_apps s) /\
    hview s' h = Some y' /\ h_hlist y' = None.
Proof.
  intros HI Ht Hl Hy Hi Hs x'. pose proof (Inv_remove g s a x u i h y hs HI Ht Hl Hy Hi Hs) as HI2. fold x' in HI2.
  destruct (slot_handle g s a x u i h HI Ht Hs) as (y' & Hy' & Hn & Hr). simplify_eq.
  unfold handle_list_del, handle_list_del_locked.
  assert (hview (put_app a x' s) h = Some y) as Hy1 by (by destruct h). rewrite (run_bind _ _ _ _ _ (get_handle_run _ _ _ Hy1)).
  unfold assert_ at 1. rewrite Hn. rewrite bool_decide_eq_true_2 by done. rewrite (run_bind _ _ _ tt (put_app a x' s)) by done.
  assert (k_hlists (put_app a x' s) !! a = Some hs) as Hl1 by done.
  rewrite (run_bind _ _ _ _ _ (upd_hlist_run _ _ _ _ Hl1)). set (s1 := put_hlist a _ _).
  assert (hview s1 h = Some y) as Hy2 by (by destruct h). rewrite (run_bind _ _ _ _ _ (upd_handle_run _ _ _ _ Hy2)).
  set (s2 := set_handle h _ s1). change (Inv (g_bor1 h (g_own1 h g)) s2) in HI2.
  assert (hview s2 h = Some (unlinked y)) as Hv2 by (unfold s2; by rewrite (hview_set_handle _ _ _ y), decide_True by done).
  destruct (set_handle_rest s1 h (unlinked y)) as (Ea & Eh & _).
  assert (k_hlists s2 !! a = Some (set_hl_handles (hlist_unlink h (hl_handles hs)) hs)) as Hl2.
  { unfold s2. unfold unlinked in Eh. rewrite Eh. cbn. by rewrite lookup_insert_eq. }
  rewrite (run_bind _ _ _ _ _ (get_hlist_run _ _ _ Hl2)). cbn [hl_wait_event set_hl_handles hl_handles].
  destruct (list_del_waiter _ s2 h (unlinked y) (hl_wait_event hs) (hlist_unlink h (hl_handles hs)) HI2 Hv2 Hr) as (s3 & R3 & HI3 & F3 & Hn3).
  assert (hl_of s3 h = None) as Hn3' by (rewrite Hn3; unfold hl_of; by rewrite Hv2). unfold list_del_tail in R3.
  rewrite (run_bind _ _ _ _ _ R3). destruct (handle_decref_spec _ s3 h HI3) as (s4 & R4 & HI4 & F4).
  destruct (i_ext _ s4 HI4 h (own1_elem h g)) as [y4 Hy4]. exists s4, y4. split_and!; try done.
  - destruct F4 as (-> & _). destruct F3 as (-> & _). unfold s2. unfold unlinked in Ea. by rewrite Ea.
  - assert (hl_of s4 h = hl_of s3 h) as E4 by (eapply hl_of_lists; [done|done|apply F4]). unfold hl_of in E4 at 1. rewrite Hy4, Hn3' in E4. done.
Qed.

(** [uctx_handle_remove]: the slot is freed and its reference handed to the
    caller; the handle is on no list any more. *)
Lemma uctx_handle_remove_spec g s a x u id : Inv g s -> has_table s a x u -> 0 <= id ->
  exists ret o s', uctx_handle_remove a id s = Ret (ret, o) s' /\ o = slot_of u id /\
    match o with
    | None => ret < 0 /\ s' = s
    | Some h => ret = NO_ERROR /\ id < 64 /\ Inv (g_own1 h g) s' /\
        k_apps s' = <[a := set_a_uctx (Some (clear_slot id u)) x]> (k_apps s) /\ exists y, hview s' h = Some y /\ h_hlist y = None
    end.
Proof.
  intros HI Ht Hid. destruct (uctx_table _ _ _ _ _ HI Ht) as [HT [hs Hl]]. pose proof Ht as [Ha Hu]. unfold uctx_handle_remove.
  rewrite (run_bind _ _ _ _ _ (get_uctx_run _ _ _ _ Ha Hu)). pose proof (check_handle_id_run u id s HT Hid) as Hc.
  destruct (slot_of u id) as [h|] eqn:Es.
  - rewrite (run_bind _ _ _ _ _ Hc). rewrite Z.eqb_refl. unfold slot_of in Es. rewrite (run_bind _ _ _ _ _ (deref_run _ _ _ s Es)).
    destruct (slot_handle g s a x u id h HI Ht Es) as (y & Hy & Hhl & Hr).
    assert (id < 64) as Hlt by (apply (table_slots u id HT Hid); unfold slot_of; by rewrite Es).
    rewrite (run_bind _ _ _ _ _ (upd_uctx_run _ _ _ _ _ Ha Hu)).
    erewrite run_bind by (eapply upd_uctx_run; cbn; [by rewrite lookup_insert_eq|done]). set (s1 := put_app a _ _).
    assert (s1 = put_app a (set_a_uctx (Some (clear_slot id u)) x) s) as ->.
    { unfold s1, put_app. cbn. by rewrite insert_insert_eq. }
    destruct (list_del_removed g s a x u id h y hs HI Ht Hl Hy (conj Hid Hlt) Es) as (s2 & y2 & R & HI2 & Ea & Hy2 & Hn2).
    rewrite (run_bind _ _ _ _ _ R). eexists _, _, s2. split; [done|]. split; [done|]. split_and!; try done. by exists y2.
  - destruct Hc as (e & Hne & Hneg & R). rewrite (run_bind _ _ _ _ _ R). destruct (Z.eqb_spec e NO_ERROR); [done|].
    by eexists _, _, s.
Qed.

(** *** Round trip *)

(** Freeing a slot that was just filled gives the table back. *)
Lemma clear_fill u i h : table_ok u -> 0 <= i < 64 -> slot_of u i = None -> clear_slot i (fill_slot i h u) = u.
Proof.
  intros HT Hi Hs. destruct u as [bm hs pr]. pose proof HT as [T1 T2 T3 T4 T5]. cbn in *. unfold clear_slot, fill_slot, set_u_handles, set_u_inuse. cbn.
  f_equal.
  - apply (bitmap_clear_set 2); [done|done|]. destruct (bitmap_test bm i) eqn:E; [|done]. exfalso.
    destruct (proj1 (table_slots (Uctx bm hs pr) i HT ltac:(lia))) as [h' Hh']; [split; [done|lia]|]. congruence.
  - rewrite list_insert_insert_eq. apply list_insert_id. destruct (lookup_lt_is_Some_2 hs (Z.to_nat i)) as [o Ho]; [lia|].
    unfold slot_of in Hs. cbn in Hs. rewrite Ho in *. destruct o; cbn in Hs; [done|done].
Qed.

Lemma slot_of_fill u i h j : table_ok u -> 0 <= i < 64 -> 0 <= j -> slot_of (fill_slot i h u) j = if j =? i then Some h else slot_of u j.
Proof.
  intros HT Hi Hj. unfold slot_of. cbn. destruct (Z.eqb_spec j i) as [->|].
  - rewrite list_lookup_insert_eq by (rewrite (tb_len u HT); lia). done.
  - by rewrite list_lookup_insert_ne by lia.
Qed.
