(* ===== verification/IpcSys.v ===== *)
(** * The system calls keep the invariant

    Messages over channels (ipc_msg.c) and the system calls of uctx.c, ipc.c and
    ipc_msg.c on top of the routines of the files before.  Every call, from any
    state that satisfies the invariant, runs to its end (no failed assertion, no
    dereference of freed or absent objects) and leaves the invariant; the
    references [g] held by blocked threads are arbitrary. *)

From stdpp Require Import base tactics list gmap.
From Stdlib Require Import ZArith Lia.
From S2P Require Import Prelude Iovec MsgQueue Kernel Channel Handle Uctx Ipc IpcMsg IpcInv IpcSafe IpcCalls.


Lemma wp_ex {S A} (m : M S A) (Q : A -> S -> Prop) s : (exists a s', m s = Ret a s' /\ Q a s') <-> wp m Q s.
Proof. unfold wp. split; [intros (a & s' & -> & H); done|]. destruct (m s); [eauto|done]. Qed.

(** The handle table of an app. *)
Definition utable (s : kstate) (a : Z) : option uctx := k_apps s !! a ≫= a_uctx.

Lemma utable_has s a u : utable s a = Some u <-> exists x, has_table s a x u.
Proof.
  unfold utable, has_table. split; [|by intros (x & -> & ?)]. destruct (k_apps s !! a) as [x|]; [|done]. cbn. eauto.
Qed.

(** No table changes. *)
Definition tables_kept (s s' : kstate) : Prop := forall b, utable s' b = utable s b.

#[export] Instance tables_kept_refl : Reflexive tables_kept.
Proof. by intros s b. Qed.
#[export] Instance tables_kept_trans : Transitive tables_kept.
Proof. intros s1 s2 s3 H1 H2 b. by rewrite H2. Qed.

Lemma tables_kept_t s s' : frame_t s s' -> tables_kept s s'.
Proof. intros (E & _) b. unfold utable. by rewrite E. Qed.
Lemma tables_kept_apps s s' : k_apps s' = k_apps s -> tables_kept s s'.
Proof. intros E b. unfold utable. by rewrite E. Qed.
#[export] Hint Resolve tables_kept_t tables_kept_apps : trusty.

(** ** Copies to user memory *)

Lemma Inv_umem g s a x um : Inv g s -> k_apps s !! a = Some x ->
  Inv g (put_app a (set_a_umem um x) s) /\ tables_kept s (put_app a (set_a_umem um x) s).
Proof.
  intros HI Ha. assert (tables_kept s (put_app a (set_a_umem um x) s)) as Ht.
  { intros b. unfold utable. cbn. destruct (decide (b = a)) as [->|]; [by rewrite lookup_insert_eq, Ha|by rewrite lookup_insert_ne]. }
  split; [|done]. eapply Inv_same; [|done]. by split_and!.
Qed.

Lemma user_write_spec g s a x addr bs : Inv g s -> k_apps s !! a = Some x ->
  wp (user_write a addr bs) (fun ret s' => Inv g s' /\ tables_kept s s' /\ k_chans s' = k_chans s /\ k_ports s' = k_ports s /\
    k_hlists s' = k_hlists s /\ (forall b, b <> a -> k_apps s' !! b = k_apps s !! b) /\
    exists x', k_apps s' !! a = Some x' /\ copy_to_user (a_umem x) addr bs = (ret, a_umem x')) s.
Proof.
  intros HI Ha. unfold user_write. wp_with (by apply get_app_run).
  destruct (copy_to_user (a_umem x) addr bs) as [ret um]. wp_with (by apply upd_app_run).
  destruct (Inv_umem g s a x um HI Ha). apply wp_ret. split_and!; try done; [intros b Hb; cbn; by rewrite lookup_insert_ne|]. exists (set_a_umem um x).
  split; [cbn; by rewrite lookup_insert_eq|done].
Qed.

(** ** Queues and flags of a channel *)

Lemma chan_ok_queue hu g c ch q :
  chan_ok hu g c ch -> is_Some (c_msg_queue ch) -> mq_wf q -> chan_ok hu g c (set_c_msg_queue (Some q) ch).
Proof.
  intros [H1 H2 H3 H4 H5 H6 H7] Hq Hwf. split; try done; cbn.
  - intros Hp. split; [done|]. by apply H3.
  - unfold state_ok in *. cbn. destruct (c_state ch); try done. destruct H4 as [[_ E] _]. rewrite E in Hq. by destruct Hq.
  - intros q' [= <-]. done.
Qed.

Lemma Inv_queue g s c ch q : Inv g s -> k_chans s !! c = Some ch -> is_Some (c_msg_queue ch) -> mq_wf q ->
  Inv g (put_chan c (set_c_msg_queue (Some q) ch) s).
Proof.
  intros HI Hc Hq Hwf. apply (Inv_put_chan g g s c ch); [done|done|by split_and!|apply g_but_refl|].
  apply chan_ok_queue; [|done|done]. by apply (i_chan g s HI).
Qed.

Lemma Inv_aux g s c ch v : Inv g s -> k_chans s !! c = Some ch -> Inv g (put_chan c (set_c_aux_state v ch) s).
Proof.
  intros HI Hc. apply (Inv_put_chan g g s c ch); [done|done|by split_and!|apply g_but_refl|].
  destruct (i_chan g s HI c ch Hc) as [H1 H2 H3 H4 H5 H6 H7]. by split.
Qed.

Lemma check_channel_run s h x : hview s h = Some x ->
  check_channel_locked h s = Ret (if ipc_is_channel x then NO_ERROR else ERR_INVALID_ARGS) s.
Proof. intros Hx. unfold check_channel_locked. by rewrite (run_bind _ _ _ _ _ (get_handle_run _ _ _ Hx)). Qed.

(** A live handle is a channel exactly when its operations say so. *)
Lemma live_kind g s h x : Inv g s -> hview s h = Some x -> 0 < h_refcnt x ->
  match h with
  | HPort _ => ipc_is_channel x = false
  | HChan c => ipc_is_channel x = true /\ exists ch, k_chans s !! c = Some ch /\ c_handle ch = x
  end.
Proof.
  intros HI Hx Hr. destruct h as [p|c]; cbn in Hx.
  - destruct (k_ports s !! p) as [pt|] eqn:Hp; cbn in Hx; simplify_eq. unfold ipc_is_channel.
    rewrite (po_ops _ _ _ _ (i_port g s HI p pt Hp)). done.
  - destruct (k_chans s !! c) as [ch|] eqn:Hc; cbn in Hx; simplify_eq. split; [|eauto]. unfold ipc_is_channel.
    apply bool_decide_eq_true_2. by apply (co_ops _ _ _ _ (i_chan g s HI c ch Hc)).
Qed.

(** ** Sending *)

Definition caller_ok (s : kstate) (a : option Z) : Prop :=
  match a with None => True | Some a => is_Some (k_apps s !! a) end.

Definition mems_of (s : kstate) (a : option Z) : mems :=
  Mems (k_kmem s) (match a with None => ∅ | Some a => from_option a_umem ∅ (k_apps s !! a) end).

Lemma get_mems_run s a : caller_ok s a -> get_mems a s = Ret (mems_of s a) s.
Proof.
  unfold get_mems, mems_of. intros H. erewrite run_bind by reflexivity. destruct a as [a|]; [|done].
  destruct H as [x Hx]. rewrite (run_bind _ _ _ _ _ (get_app_run _ _ _ Hx)). by rewrite Hx.
Qed.

Lemma get_queue_run s c ch q : k_chans s !! c = Some ch -> c_msg_queue ch = Some q -> get_queue c s = Ret q s.
Proof. intros Hc Hq. unfold get_queue. rewrite (run_bind _ _ _ _ _ (get_chan_run _ _ _ Hc)). by rewrite Hq. Qed.

(** Writing never faults on a well-formed queue, whatever a user passes. *)
Lemma msg_write_total ms q msg : mq_wf q -> desc_ok msg -> desc_readable ms msg ->
  match msg_write ms q msg with WriteFault => False | WriteFull => True | WriteDone _ q' => mq_wf q' end.
Proof.
  intros Hwf Hok Hrd.
  assert (qhist_ok (length (mq_items q)) (QHist q (snd <$> aq_filled (mq_abs q)) [])) as Hh by (by split_and!).
  destruct (qstep_total _ _ (QWrite ms msg) Hh (conj Hok Hrd)) as [h Eh]. cbn in Eh.
  destruct (msg_write ms q msg) as [| |ret q'] eqn:E; [done|done|]. by apply msg_write_hist in E as [? _].
Qed.

(** What [send_msg] does: the state of the channel decides between an error and
    a write to the peer's queue. *)
Definition sends (ms : mems) (h : href) (msg : msg_desc) (s : kstate) (ret : Z) (s' : kstate) : Prop :=
  match h with
  | HPort _ => ret = ERR_INVALID_ARGS /\ k_chans s' = k_chans s
  | HChan c => exists ch, k_chans s !! c = Some ch /\
      match c_state ch with
      | IPC_CHAN_STATE_CONNECTED => exists peer pch q, c_peer ch = Some peer /\ k_chans s !! peer = Some pch /\ c_msg_queue pch = Some q /\
          match msg_write ms q msg with
          | WriteFault => False
          | WriteFull => ret = ERR_NOT_ENOUGH_BUFFER /\
              k_chans s' = <[c := set_c_aux_state (set_flag (c_aux_state ch) IPC_CHAN_AUX_STATE_SEND_BLOCKED) ch]> (k_chans s)
          | WriteDone r q' => ret = r /\ k_chans s' = <[peer := set_c_msg_queue (Some q') pch]> (k_chans s)
          end
      | IPC_CHAN_STATE_DISCONNECTING => ret = ERR_CHANNEL_CLOSED /\ k_chans s' = k_chans s
      | _ => ret = ERR_NOT_READY /\ k_chans s' = k_chans s
      end
  end.

(** The routines on messages leave everything but queues, flags and memory. *)
Definition frame_m (s s' : kstate) : Prop :=
  k_ports s' = k_ports s /\ k_hlists s' = k_hlists s /\ dom (k_chans s') = dom (k_chans s).

#[export] Instance frame_m_refl : Reflexive frame_m.
Proof. done. Qed.
#[export] Instance frame_m_trans : Transitive frame_m.
Proof. intros s1 s2 s3 (A1&A2&A3) (B1&B2&B3). unfold frame_m. by rewrite B1, B2, B3. Qed.

Lemma msg_write_locked_spec g s a c ch msg :
  Inv g s -> k_chans s !! c = Some ch -> c_state ch = IPC_CHAN_STATE_CONNECTED -> caller_ok s a -> desc_ok msg ->
  desc_readable (mems_of s a) msg ->
  wp (msg_write_locked a c msg) (fun ret s' => Inv g s' /\ k_apps s' = k_apps s /\ frame_m s s' /\
    (exists ch', k_chans s' !! c = Some ch' /\ c_peer ch' = c_peer ch) /\ sends (mems_of s a) (HChan c) msg s ret s') s.
Proof.
  intros HI Hc Hst Ha Hok Hrd. unfold msg_write_locked, sends. wp_with (by apply get_chan_run).
  pose proof (co_state _ _ _ _ (i_chan g s HI c ch Hc)) as Hso. unfold state_ok in Hso. rewrite Hst in Hso. destruct Hso as [peer Hpe].
  destruct (i_peer g s HI c ch peer Hc Hpe) as (Hne & pch & Hpch & [q Hq] & _).
  wp_with (by apply deref_run). wp_with (by eapply get_queue_run).
  wp_with (by apply get_mems_run).
  pose proof (co_queue _ _ _ _ (i_chan g s HI peer pch Hpch) q Hq) as Hwf. pose proof (msg_write_total _ q msg Hwf Hok Hrd) as Hw.
  destruct (msg_write (mems_of s a) q msg) as [| |r q'] eqn:Ew; [done| |]; apply wp_bind; (eapply wp_run; [by apply upd_chan_run|]); apply wp_ret.
  - split; [by apply Inv_aux|]. split; [done|]. split; [split_and!; [done|done|cbn; apply dom_insert_lookup_L; by eexists]|].
    split; [eexists; split; [cbn; apply lookup_insert_eq|done]|]. exists ch. rewrite Hst. split; [done|]. exists peer, pch, q. by rewrite Ew.
  - split; [by apply Inv_queue|]. split; [done|]. split; [split_and!; [done|done|cbn; apply dom_insert_lookup_L; by eexists]|].
    split; [exists ch; cbn; by rewrite lookup_insert_ne by done|]. exists ch. rewrite Hst. split; [done|]. exists peer, pch, q. by rewrite Ew.
Qed.

Lemma send_msg_locked_spec g s a h x msg :
  Inv g s -> hview s h = Some x -> 0 < h_refcnt x -> caller_ok s a -> desc_ok msg -> desc_readable (mems_of s a) msg ->
  wp (send_msg_locked a h msg) (fun ret s' => Inv g s' /\ k_apps s' = k_apps s /\ frame_m s s' /\ sends (mems_of s a) h msg s ret s') s.
Proof.
  intros HI Hx Hr Ha Hok Hrd. unfold send_msg_locked, check_channel_connected_locked. pose proof (live_kind g s h x HI Hx Hr) as Hk.
  apply wp_bind, wp_bind. eapply wp_run; [by apply check_channel_run|]. destruct h as [p|c].
  { rewrite Hk. by apply wp_ret, wp_ret. }
  destruct Hk as [-> (ch & Hc & _)]. rewrite Z.eqb_refl. cbn [negb chan_of]. apply wp_bind, wp_ret. apply wp_bind.
  eapply wp_run; [by apply get_chan_run|]. pose proof (co_state _ _ _ _ (i_chan g s HI c ch Hc)) as Hso. unfold state_ok in Hso.
  destruct (bool_decide_reflect (c_state ch = IPC_CHAN_STATE_CONNECTED)) as [Hst|Hst].
  - rewrite Hst in Hso. apply wp_bind, wp_assert; [by apply bool_decide_eq_true_2|]. apply wp_ret. cbn [negb Z.eqb]. rewrite Z.eqb_refl. cbn [negb].
    apply wp_bind, wp_ret. apply wp_bind. eapply wp_mono; [by apply (msg_write_locked_spec g)|].
    intros ret s1 (HI1 & Ea & Fm & (ch1 & Hc1 & Hpe1) & Hs). apply wp_bind. destruct (ret >=? 0); [|by apply wp_ret, wp_ret].
    wp_with (by apply get_chan_run). destruct Hso as [peer Hpe]. rewrite Hpe in Hpe1.
    destruct (i_peer g s1 HI1 c ch1 peer Hc1 Hpe1) as (_ & pch & Hpch & _).
    wp_with (by apply deref_run).
    destruct (handle_notify_run s1 (HChan peer) (c_handle pch)) as [evs Rn]; [cbn; by rewrite Hpch|].
    eapply wp_run; [exact Rn|]. apply wp_ret. split; [by apply Inv_events|]. done.
  - destruct (bool_decide_reflect (c_state ch = IPC_CHAN_STATE_DISCONNECTING)) as [Hd|Hd]; apply wp_ret, wp_ret;
      (split_and!; try done); exists ch; (split; [done|]).
    + by rewrite Hd.
    + by destruct (c_state ch).
Qed.

(** ** Fetching, reading and retiring *)

Definition queue_of (s : kstate) (h : href) : option msg_queue :=
  match h with HPort _ => None | HChan c => k_chans s !! c ≫= c_msg_queue end.

(** A channel that is connected, or was, has a queue; a client that still waits
    for its port has none. *)
Definition has_queue (s : kstate) (h : href) : Prop :=
  match h with HPort _ => True | HChan _ => is_Some (queue_of s h) end.

Lemma queue_of_chan s c q : queue_of s (HChan c) = Some q <-> exists ch, k_chans s !! c = Some ch /\ c_msg_queue ch = Some q.
Proof. cbn. destruct (k_chans s !! c) as [ch|]; cbn; naive_solver. Qed.

Lemma queue_wf g s h q : Inv g s -> queue_of s h = Some q -> mq_wf q.
Proof.
  intros HI. destruct h as [|c]; [done|]. intros (ch & Hc & Hq)%queue_of_chan. by apply (co_queue _ _ _ _ (i_chan g s HI c ch Hc)).
Qed.

(** The queue of [h] becomes [q]; nothing else of the objects changes. *)
Definition with_queue_of (h : href) (q : msg_queue) (s s' : kstate) : Prop :=
  queue_of s' h = Some q /\ forall h', h' <> h -> queue_of s' h' = queue_of s h'.

Lemma put_queue_spec g s c ch q : Inv g s -> k_chans s !! c = Some ch -> is_Some (c_msg_queue ch) -> mq_wf q ->
  wp (put_queue c q) (fun _ s' => Inv g s' /\ k_apps s' = k_apps s /\ frame_m s s' /\ with_queue_of (HChan c) q s s' /\
    s' = put_chan c (set_c_msg_queue (Some q) ch) s) s.
Proof.
  intros HI Hc Hq Hwf. unfold put_queue. eapply wp_run; [by apply upd_chan_run|]. split; [by apply Inv_queue|]. split; [done|].
  split; [split_and!; [done|done|cbn; apply dom_insert_lookup_L; by eexists]|]. split; [|done]. split; cbn; [by rewrite lookup_insert_eq|].
  intros [p|c'] Hne; [done|]. cbn. rewrite lookup_insert_ne by congruence. done.
Qed.

Lemma msg_peek_filled q i l : mq_wf q -> mq_filled q = i :: l ->
  exists it, mq_items q !! i = Some it /\ msg_peek_next_filled q = Some (mi_len it, Z.of_nat i) /\
    mi_len it = Z.of_nat (length (mq_msg q i).2).
Proof.
  intros Hwf E. assert (i < length (mq_items q))%nat as Hi by (apply (wf_dom q Hwf); rewrite E; rewrite !elem_of_app; right; left; by left).
  destruct (lookup_lt_is_Some_2 _ _ Hi) as [it Hit]. exists it. split; [done|]. destruct (wf_item q Hwf i it Hit) as (Hid & _ & Hf & _ & Hb).
  split; [unfold msg_peek_next_filled; rewrite E; cbn; rewrite Hit; cbn; by rewrite Hid|].
  destruct Hb as [_ Hb]; [rewrite (proj1 Hf); [done|rewrite E; by left]|].
  unfold mq_msg. rewrite Hit. cbn. unfold item_bytes. pose proof (area_fits q i it Hwf Hit). pose proof (write_off q i it Hwf Hit) as ->.
  rewrite length_take, length_drop. lia.
Qed.

(** Fetching moves the oldest message to the messages being read. *)
Lemma msg_get_filled_locked_spec g s c ch q i l : Inv g s -> k_chans s !! c = Some ch -> c_msg_queue ch = Some q -> mq_filled q = i :: l ->
  wp (msg_get_filled_locked c) (fun _ s' => Inv g s' /\ k_apps s' = k_apps s /\ frame_m s s' /\
    exists q', with_queue_of (HChan c) q' s s' /\
      mq_abs q' = AQueue (length (mq_items q)) (mq_msg q <$> l) ((mq_msg q <$> mq_read q) ++ [mq_msg q i])) s.
Proof.
  intros HI Hc Hq El. pose proof (co_queue _ _ _ _ (i_chan g s HI c ch Hc) q Hq) as Hwf.
  destruct (msg_get_filled_spec q i l Hwf El) as (q' & Eq & Hwf' & Ha). unfold msg_get_filled_locked.
  wp_with (by eapply get_queue_run). wp_with (by apply deref_run).
  eapply wp_mono; [by apply (put_queue_spec g s c ch q')|]. intros _ s' (? & ? & ? & ? & _). split_and!; try done. by exists q'.
Qed.

Lemma get_msg_locked_spec g s h x : Inv g s -> hview s h = Some x -> 0 < h_refcnt x -> has_queue s h ->
  wp (ipc_get_msg h) (fun r s' => Inv g s' /\ k_apps s' = k_apps s /\ frame_m s s' /\
    match h, queue_of s h with
    | HChan _, Some q =>
        match mq_filled q with
        | [] => r = (ERR_NO_MSG, None) /\ s' = s
        | i :: l => r = (NO_ERROR, Some (Z.of_nat (length (mq_msg q i).2), Z.of_nat i)) /\
            exists q', with_queue_of h q' s s' /\
              mq_abs q' = AQueue (length (mq_items q)) (mq_msg q <$> l) ((mq_msg q <$> mq_read q) ++ [mq_msg q i])
        end
    | _, _ => r = (ERR_INVALID_ARGS, None) /\ s' = s
    end) s.
Proof.
  intros HI Hx Hr Hq. unfold ipc_get_msg. pose proof (live_kind g s h x HI Hx Hr) as Hk.
  wp_with (by apply check_channel_run). destruct h as [p|c]; [rewrite Hk; by apply wp_ret|].
  destruct Hk as [-> _]. destruct Hq as [q Hq]. rewrite Hq. apply queue_of_chan in Hq as (ch & Hc & Hq). rewrite Z.eqb_refl. cbn [negb chan_of].
  apply wp_bind, wp_ret. wp_with (by eapply get_queue_run).
  pose proof (co_queue _ _ _ _ (i_chan g s HI c ch Hc) q Hq) as Hwf. destruct (mq_filled q) as [|i l] eqn:El.
  - unfold msg_peek_next_filled. rewrite El. by apply wp_ret.
  - destruct (msg_peek_filled q i l Hwf El) as (it & _ & -> & ->). apply wp_bind.
    eapply wp_mono; [by apply (msg_get_filled_locked_spec g s c ch q i l)|]. intros _ s' (? & ? & ? & ?). by apply wp_ret.
Qed.

Lemma queue_of_chans s s' h : k_chans s' = k_chans s -> queue_of s' h = queue_of s h.
Proof. intros E. destruct h as [|c]; [done|]. cbn. by rewrite E. Qed.

Lemma queue_of_aux c ch v s h : k_chans s !! c = Some ch -> queue_of (put_chan c (set_c_aux_state v ch) s) h = queue_of s h.
Proof.
  intros Hc. destruct h as [p|c']; [done|]. cbn. destruct (decide (c' = c)) as [->|]; [by rewrite lookup_insert_eq, Hc|by rewrite lookup_insert_ne].
Qed.

(** Notifying signals the event of the thread that waits on the handle. *)
Definition notified (x : handle) (s : kstate) : kstate :=
  match h_wait_event x with
  | Some ev => set_k_events ({[ev]} ∪ k_events s) s
  | None => s
  end.

Lemma handle_notify_signals s h x : hview s h = Some x -> handle_notify h s = Ret tt (notified x s).
Proof.
  intros Hx. unfold handle_notify, notified. rewrite (run_bind _ _ _ _ _ (get_handle_run _ _ _ Hx)). by destruct (h_wait_event x).
Qed.

Lemma Inv_notified g s x : Inv g s -> Inv g (notified x s).
Proof. unfold notified. destruct (h_wait_event x); [apply Inv_events|done]. Qed.

(** What becomes of a peer that was blocked, and of the thread that waits on it. *)
Definition unblocked (peer : Z) (pch : chan) (s' : kstate) : Prop :=
  exists pch', k_chans s' !! peer = Some pch' /\
    if has_flag (c_aux_state pch) IPC_CHAN_AUX_STATE_SEND_BLOCKED
    then c_aux_state pch' = set_flag (clear_flag (c_aux_state pch) IPC_CHAN_AUX_STATE_SEND_BLOCKED) IPC_CHAN_AUX_STATE_SEND_UNBLOCKED /\
      forall ev, h_wait_event (c_handle pch) = Some ev -> ev ∈ k_events s'
    else c_aux_state pch' = c_aux_state pch.

(** The peer's send-blocked flag is turned into the send-unblocked event. *)
Lemma unblock_peer_spec g s peer pch : Inv g s -> k_chans s !! peer = Some pch ->
  wp (when (has_flag (c_aux_state pch) IPC_CHAN_AUX_STATE_SEND_BLOCKED)
        (upd_chan peer (fun x => set_c_aux_state (clear_flag (c_aux_state x) IPC_CHAN_AUX_STATE_SEND_BLOCKED) x);;
         upd_chan peer (fun x => set_c_aux_state (set_flag (c_aux_state x) IPC_CHAN_AUX_STATE_SEND_UNBLOCKED) x);;
         handle_notify (HChan peer)))
    (fun _ s' => Inv g s' /\ k_apps s' = k_apps s /\ frame_m s s' /\ (forall h, queue_of s' h = queue_of s h) /\
       unblocked peer pch s') s.
Proof.
  intros HI Hp. unfold unblocked. apply wp_when; intros E; rewrite E; [|split_and!; try done; by exists pch].
  wp_with (by apply upd_chan_run). set (v1 := clear_flag _ _). set (p1 := set_c_aux_state v1 pch).
  assert (k_chans (put_chan peer p1 s) !! peer = Some p1) as Hp1 by (cbn; by rewrite lookup_insert_eq).
  wp_with (by apply upd_chan_run). cbn beta.
  set (v2 := set_flag _ _). set (s2 := put_chan peer (set_c_aux_state v2 p1) _).
  assert (Inv g s2) as HI2 by (apply Inv_aux; [by apply Inv_aux|done]).
  assert (hview s2 (HChan peer) = Some (c_handle pch)) as Hv by (cbn; by rewrite lookup_insert_eq).
  eapply wp_run; [by apply handle_notify_signals|]. set (s3 := notified _ s2).
  assert (k_chans s3 = k_chans s2 /\ k_apps s3 = k_apps s2 /\ k_ports s3 = k_ports s2 /\ k_hlists s3 = k_hlists s2) as (Ec & Ea & Ep & Eh).
  { unfold s3, notified. by destruct (h_wait_event _). }
  split; [by apply Inv_notified|]. split; [by rewrite Ea|].
  split; [split_and!; [by rewrite Ep|by rewrite Eh|rewrite Ec; cbn; rewrite !dom_insert_lookup_L; by eexists || (rewrite ?lookup_insert_eq; by eexists)]|].
  split.
  - intros h. rewrite (queue_of_chans s2 s3) by done. unfold s2. rewrite (queue_of_aux peer p1 v2) by done. by apply queue_of_aux.
  - exists (set_c_aux_state v2 p1). rewrite Ec. split; [cbn; by rewrite lookup_insert_eq|]. split; [done|].
    intros ev Hev. unfold s3, notified. rewrite Hev. cbn. set_solver.
Qed.

(** Retiring a message: its slot is free again, and a peer blocked on the full
    queue learns of it. *)
Definition retires (h : href) (msg_id : Z) (s : kstate) (ret : Z) (s' : kstate) : Prop :=
  match h, queue_of s h with
  | HChan c, Some q =>
      match msg_put_read q msg_id with
      | None => ret = ERR_INVALID_ARGS /\ s' = s
      | Some q' => ret = NO_ERROR /\ with_queue_of h q' s s' /\ mq_abs q' = aq_put (Z.to_nat msg_id) (mq_abs q) /\
          forall ch peer pch, k_chans s !! c = Some ch -> c_peer ch = Some peer -> k_chans s !! peer = Some pch -> unblocked peer pch s'
      end
  | _, _ => ret = ERR_INVALID_ARGS /\ s' = s
  end.

Lemma msg_put_read_id q id q' : mq_wf q -> 0 <= id -> msg_put_read q id = Some q' ->
  mq_wf q' /\ mq_abs q' = aq_put (Z.to_nat id) (mq_abs q).
Proof.
  intros Hwf Hid E. assert (exists it, mq_items q !! Z.to_nat id = Some it /\ mi_state it = MSG_ITEM_STATE_READ) as (it & Hit & Hst).
  { unfold msg_put_read, msg_queue_get_item in E. destruct (id <? _); [|done].
    destruct (mq_items q !! Z.to_nat id) as [it|]; [|done]. cbn in E. case_decide; [|done]. eauto. }
  destruct (msg_put_read_spec q _ it Hwf Hit Hst) as (q2 & E2 & Hwf2 & Ha).
  rewrite Z2Nat.id, E in E2 by done. by injection E2 as ->.
Qed.

Lemma ipc_put_msg_spec g s h x id : Inv g s -> hview s h = Some x -> 0 < h_refcnt x -> has_queue s h -> 0 <= id ->
  wp (ipc_put_msg h id) (fun ret s' => Inv g s' /\ k_apps s' = k_apps s /\ frame_m s s' /\ retires h id s ret s') s.
Proof.
  intros HI Hx Hr Hq Hid. unfold ipc_put_msg, retires. pose proof (live_kind g s h x HI Hx Hr) as Hk.
  wp_with (by apply check_channel_run). destruct h as [p|c]; [rewrite Hk; by apply wp_ret|].
  destruct Hk as [-> _]. destruct Hq as [q Hq]. rewrite Hq. apply queue_of_chan in Hq as (ch & Hc & Hq). rewrite Z.eqb_refl. cbn [negb chan_of].
  apply wp_bind, wp_ret. unfold msg_put_read_locked. wp_with (by apply get_chan_run).
  wp_with (by apply deref_run). pose proof (co_queue _ _ _ _ (i_chan g s HI c ch Hc) q Hq) as Hwf.
  destruct (msg_put_read q id) as [q'|] eqn:Eq; [|by apply wp_ret]. destruct (msg_put_read_id q id q' Hwf Hid Eq) as [Hwf' Ha].
  apply wp_bind. eapply wp_mono; [by apply (put_queue_spec g s c ch q')|]. intros _ s1 (HI1 & Ea1 & F1 & Wq & Es1).
  destruct (c_peer ch) as [peer|] eqn:Hpe.
  2:{ apply wp_ret. split_and!; try done. intros ch0 peer pch Hc0 Hp0. congruence. }
  assert (k_chans s1 !! c = Some (set_c_msg_queue (Some q') ch)) as Hc1 by (rewrite Es1; cbn; by rewrite lookup_insert_eq).
  destruct (i_peer g s1 HI1 c _ peer Hc1 Hpe) as (Hne & pch & Hpch & _).
  assert (k_chans s !! peer = Some pch) as Hpch0 by (rewrite Es1 in Hpch; cbn in Hpch; by rewrite lookup_insert_ne in Hpch by done).
  wp_with (by apply get_chan_run). apply wp_bind. eapply wp_mono; [by apply (unblock_peer_spec g)|].
  intros _ s2 (HI2 & Ea2 & F2 & Q2 & Hun). apply wp_ret. split; [done|]. split; [congruence|].
  split; [by transitivity s1|]. split; [done|]. split; [|split; [done|]].
  - split; [by rewrite Q2; apply Wq|]. intros h' Hh. rewrite Q2. by apply Wq.
  - intros ch0 peer0 pch0 Hc0 Hp0 Hpc0. by simplify_eq.
Qed.

Lemma put_mems_spec g s a ms : Inv g s -> caller_ok s a ->
  wp (put_mems a ms) (fun _ s' => Inv g s' /\ tables_kept s s' /\ k_chans s' = k_chans s /\ frame_m s s' /\ (a = None -> k_apps s' = k_apps s) /\
    k_kmem s' = m_kern ms /\ (forall b, a = Some b -> exists x, k_apps s' !! b = Some x /\ a_umem x = m_user ms)) s.
Proof.
  intros HI Ha. unfold put_mems. apply wp_bind, wp_modify. set (s1 := set_k_kmem _ s).
  assert (Inv g s1) as HI1 by (eapply Inv_same; [|exact HI]; by split_and!). destruct a as [a|]; [|by apply wp_ret].
  destruct Ha as [x Hx]. eapply wp_run; [by apply (upd_app_run s1)|]. destruct (Inv_umem g s1 a x (m_user ms) HI1 Hx) as [HI2 Ht].
  split_and!; try done. intros b [= <-]. cbn. rewrite lookup_insert_eq. by eexists.
Qed.

(** Reading copies a part of a fetched message into the caller's buffers. *)
Lemma read_msg_locked_spec g s a h x id off msg : Inv g s -> hview s h = Some x -> 0 < h_refcnt x -> has_queue s h -> caller_ok s a ->
  (forall q, queue_of s h = Some q -> is_Some (msg_read (mems_of s a) q id off msg)) ->
  wp (read_msg_locked a h id off msg) (fun ret s' => Inv g s' /\ tables_kept s s' /\ frame_m s s' /\ k_chans s' = k_chans s /\ (a = None -> k_apps s' = k_apps s) /\
    match h, queue_of s h with
    | HChan _, Some q => exists ms', msg_read (mems_of s a) q id off msg = Some (ret, ms') /\ k_kmem s' = m_kern ms' /\
        (forall b, a = Some b -> exists x, k_apps s' !! b = Some x /\ a_umem x = m_user ms')
    | _, _ => ret = ERR_INVALID_ARGS /\ s' = s
    end) s.
Proof.
  intros HI Hx Hr Hq Ha Hrd. unfold read_msg_locked. pose proof (live_kind g s h x HI Hx Hr) as Hk.
  wp_with (by apply check_channel_run). destruct h as [p|c]; [rewrite Hk; by apply wp_ret|].
  destruct Hk as [-> _]. destruct Hq as [q Hq]. destruct (Hrd q Hq) as [[ret ms'] Er]. rewrite Hq.
  apply queue_of_chan in Hq as (ch & Hc & Hq). rewrite Z.eqb_refl. cbn [negb chan_of].
  apply wp_bind, wp_ret. unfold msg_read_locked. wp_with (by eapply get_queue_run).
  wp_with (by apply get_mems_run). wp_with (by apply deref_run).
  apply wp_bind. eapply wp_mono; [by apply (put_mems_spec g)|]. intros _ s1 (? & ? & ? & ? & ? & ? & ?). apply wp_ret. split_and!; try done.
  by exists ms'.
Qed.

Lemma msg_read_user ms q id off iov n nh : is_Some (msg_read ms q id off (MsgUser iov n nh)).
Proof.
  unfold msg_read. destruct (msg_queue_get_item q id) as [[i it]|]; [|by eexists]. destruct (negb _); [by eexists|].
  destruct (negb _); [by eexists|]. destruct (_ >? _); [by eexists|]. unfold msg_scatter. destruct (negb _); [by eexists|].
  destruct (membuf_to_user_iovec _ _ _ _ _). by eexists.
Qed.

(** ** The system calls on messages *)

Lemma queue_of_set_handle h x s h' : queue_of (set_handle h x s) h' = queue_of s h'.
Proof.
  destruct h' as [p|c']; [done|]. destruct h as [p|c]; cbn; [by destruct (k_ports s !! p)|].
  destruct (k_chans s !! c) as [ch|] eqn:Hc; [|done]. cbn. destruct (decide (c' = c)) as [->|]; [by rewrite lookup_insert_eq, Hc|by rewrite lookup_insert_ne].
Qed.

Lemma has_queue_of s s' h : queue_of s' h = queue_of s h -> has_queue s h -> has_queue s' h.
Proof. unfold has_queue. intros ->. done. Qed.

(** Dropping a borrowed reference to a handle that is on a list. *)
Lemma drop_borrowed g s h l : Inv (g_bor1 h g) s -> hl_of s h = Some l ->
  wp (handle_decref h) (fun _ s' => Inv g s' /\ exists y, hview s h = Some y /\ s' = set_handle h (set_h_refcnt (h_refcnt y - 1) y) s) s.
Proof.
  intros HI Hl. destruct (handle_decref_spec g s h HI) as (s' & R & HI' & _). destruct (i_ext _ s HI h (bor1_elem h g)) as [y Hy].
  assert (h_hlist y = Some l) as Hhl by (unfold hl_of in Hl; by rewrite Hy in Hl). eapply wp_run; [exact R|]. split; [done|]. exists y. split; [done|].
  assert (1 < h_refcnt y) as Hr.
  { pose proof (list_refs_nonneg (has_uctx s) (Some l)) as H0. pose proof (cnt_nonneg h (g_own g)). pose proof (cnt_nonneg h (g_bor g)).
    assert (0 < list_refs (has_uctx s) (Some l)) as H3 by (cbn; destruct (has_uctx s l); lia). destruct h as [p|c]; cbn in Hy.
    - destruct (k_ports s !! p) as [pt|] eqn:Hp; cbn in Hy; simplify_eq. pose proof (po_refcnt _ _ _ _ (i_port _ s HI p pt Hp)) as E. cbn in E, H3.
      rewrite decide_True, Hhl in E by done. cbn in E. destruct (p_node pt); lia.
    - destruct (k_chans s !! c) as [ch|] eqn:Hc; cbn in Hy; simplify_eq. pose proof (co_refcnt _ _ _ _ (i_chan _ s HI c ch Hc)) as E. cbn in E, H3.
      rewrite decide_True, Hhl in E by done. cbn in E. lia. }
  unfold handle_decref in R. rewrite (run_bind _ _ _ _ _ (get_handle_run _ _ _ Hy)) in R.
  rewrite (run_bind _ _ _ _ _ (upd_handle_run _ _ _ _ Hy)) in R. destruct (Z.eqb_spec (h_refcnt y) 1); [lia|]. cbn in R. by injection R.
Qed.

Lemma tables_kept_set_handle h x s : tables_kept s (set_handle h x s).
Proof. apply tables_kept_apps. by destruct (set_handle_rest s h x) as (-> & _). Qed.
#[export] Hint Resolve tables_kept_set_handle : trusty.

(** The channel in a slot, if there is one, has a queue. *)
Definition slot_ready (s : kstate) (u : uctx) (id : Z) : Prop := forall h, slot_of u id = Some h -> has_queue s h.

Lemma utable_app s a u : utable s a = Some u -> exists x, k_apps s !! a = Some x.
Proof. intros (x & ? & _)%utable_has. eauto. Qed.

(** State [s1] is [s] with one more reference to the handle [h] of app [a]. *)
Record borrowed (g : ghost) (s : kstate) (a : Z) (h : href) (s1 : kstate) : Prop := {
  b_inv : Inv (g_bor1 h g) s1;
  b_eq : exists y, hview s h = Some y /\ s1 = set_handle h (set_h_refcnt (h_refcnt y + 1) y) s;
  b_live : exists y, hview s1 h = Some y /\ 0 < h_refcnt y;
  b_list : hl_of s1 h = Some a;
  b_queue : forall h', queue_of s1 h' = queue_of s h';
  b_apps : k_apps s1 = k_apps s;
  b_kmem : k_kmem s1 = k_kmem s;
  b_chan : forall c ch1, k_chans s1 !! c = Some ch1 -> exists x ch, k_chans s !! c = Some ch /\ ch1 = set_c_handle x ch;
  b_port : forall p pt1, k_ports s1 !! p = Some pt1 -> exists x pt, k_ports s !! p = Some pt /\ pt1 = set_p_handle x pt;
}.

Lemma borrow g s a h y : hview s h = Some y -> 0 < h_refcnt y -> h_hlist y = Some a ->
  Inv (g_bor1 h g) (set_handle h (set_h_refcnt (h_refcnt y + 1) y) s) ->
  borrowed g s a h (set_handle h (set_h_refcnt (h_refcnt y + 1) y) s).
Proof.
  intros Hy Hr Hl HI. set (y1 := set_h_refcnt _ y) in *. assert (hview (set_handle h y1 s) h = Some y1) as Hv by (by rewrite (hview_set_handle _ _ _ y), decide_True).
  destruct (set_handle_rest s h y1) as (? & _ & ? & _). split; try done.
  - by exists y.
  - exists y1. split; [done|]. cbn. lia.
  - unfold hl_of. by rewrite Hv.
  - intros h'. apply queue_of_set_handle.
  - intros c ch1 Hc. assert (forall ch, ch = set_c_handle (c_handle ch) ch) as Hid by (by intros []).
    destruct h as [p|c']; cbn in Hc; [destruct (k_ports s !! p); eauto|]. destruct (k_chans s !! c') as [ch|] eqn:E; [|eauto].
    cbn in Hc. destruct (decide (c = c')) as [->|]; [rewrite lookup_insert_eq in Hc|rewrite lookup_insert_ne in Hc by done; eauto].
    simplify_eq. eauto.
  - intros p pt1 Hp. assert (forall pt, pt = set_p_handle (p_handle pt) pt) as Hid by (by intros []).
    destruct h as [p'|c']; cbn in Hp; [|destruct (k_chans s !! c'); eauto]. destruct (k_ports s !! p') as [pt|] eqn:E; [|eauto].
    cbn in Hp. destruct (decide (p = p')) as [->|]; [rewrite lookup_insert_eq in Hp|rewrite lookup_insert_ne in Hp by done; eauto].
    simplify_eq. eauto.
Qed.

(** A call that looks a handle up and works on it under a borrowed reference. *)
Lemma borrowed_call {A} g s a x u id e (bad : Z -> K A) (k : href -> K A) (Q : A -> kstate -> Prop) :
  Inv g s -> has_table s a x u -> 0 <= id ->
  (forall r, slot_of u id = None -> r < 0 -> wp (bad r) Q s) ->
  (forall h s1, slot_of u id = Some h -> borrowed g s a h s1 -> wp (k h) Q s1) ->
  wp ('(ret, oh) ← uctx_handle_get a id;
      if negb (ret =? NO_ERROR) then bad ret else h ← deref e oh; k h) Q s.
Proof.
  intros HI Ht Hid Hbad Hk.
  destruct (uctx_handle_get_spec g s a x u id HI Ht Hid) as (ret & o & s1 & R & Eo & F & Ho).
  wp_with (exact R). cbn beta iota. destruct o as [h|].
  - destruct Ho as (-> & HI1 & y & Hy & ->). rewrite Z.eqb_refl. cbn [negb]. wp_with (by apply deref_run).
    destruct (slot_handle g s a x u id h HI Ht (eq_sym Eo)) as (y' & Hy' & Hl & Hr). simplify_eq. apply Hk; [done|]. by apply borrow.
  - destruct Ho as [Hneg ->]. destruct (Z.eqb_spec ret NO_ERROR) as [->|]; [done|]. by apply Hbad.
Qed.

(** The borrowed reference is dropped: queues, memory and tables are as the work
    left them. *)
Lemma finish_borrowed {A} g s s1 s2 h a (r : A) (Q : A -> kstate -> Prop) :
  borrowed g s a h s1 -> Inv (g_bor1 h g) s2 -> k_hlists s2 = k_hlists s1 -> tables_kept s1 s2 ->
  (forall s', Inv g s' -> tables_kept s s' -> (forall h', queue_of s' h' = queue_of s2 h') -> k_kmem s' = k_kmem s2 ->
     k_apps s' = k_apps s2 -> Q r s') ->
  wp (handle_decref h;; mret r) Q s2.
Proof.
  intros [HI1 _ _ Hl _ Ea _ _ _] HI2 El Ht HQ. apply wp_bind. eapply wp_mono; [apply (drop_borrowed g s2 h a HI2)|].
  { rewrite <- Hl. by eapply hl_of_lists. }
  intros _ s' (HI' & y & Hy & ->). apply wp_ret. destruct (set_handle_rest s2 h (set_h_refcnt (h_refcnt y - 1) y)) as (Ea' & _ & Ek & _).
  apply HQ; try done.
  - transitivity s1; [by apply tables_kept_apps|]. transitivity s2; [done|]. apply tables_kept_set_handle.
  - intros h'. apply queue_of_set_handle.
Qed.

Lemma with_queue_chans h q s s' s1 s1' : (forall h', queue_of s1 h' = queue_of s h') -> (forall h', queue_of s1' h' = queue_of s' h') ->
  with_queue_of h q s1 s1' -> with_queue_of h q s s'.
Proof. intros E1 E2 [W1 W2]. split; [by rewrite <- E2|]. intros h' Hne. rewrite <- E1, <- E2. by apply W2. Qed.

(** The user copy of the message description, and the fetch when it succeeds. *)
Lemma user_get_spec g s a x c ch q addr : Inv g s -> k_apps s !! a = Some x -> k_chans s !! c = Some ch -> c_msg_queue ch = Some q ->
  wp (match msg_peek_next_filled q with
      | None => mret ERR_NO_MSG
      | Some (len, id) =>
          ret ← user_write a addr (encode_msg_info len id);
          if ret =? NO_ERROR then msg_get_filled_locked c;; mret ret else mret ret
      end)
    (fun ret s' => Inv g s' /\ tables_kept s s' /\ k_hlists s' = k_hlists s /\
       match mq_filled q with
       | [] => ret = ERR_NO_MSG
       | i :: l => (exists x', k_apps s' !! a = Some x' /\
             copy_to_user (a_umem x) addr (encode_msg_info (Z.of_nat (length (mq_msg q i).2)) (Z.of_nat i)) = (ret, a_umem x')) /\
           if ret =? NO_ERROR then exists q', with_queue_of (HChan c) q' s s' /\
             mq_abs q' = AQueue (length (mq_items q)) (mq_msg q <$> l) ((mq_msg q <$> mq_read q) ++ [mq_msg q i])
           else forall h, queue_of s' h = queue_of s h
       end) s.
Proof.
  intros HI Ha Hc Hq. pose proof (co_queue _ _ _ _ (i_chan g s HI c ch Hc) q Hq) as Hwf. destruct (mq_filled q) as [|i l] eqn:El.
  { unfold msg_peek_next_filled. rewrite El. by apply wp_ret. }
  destruct (msg_peek_filled q i l Hwf El) as (it & _ & -> & ->). apply wp_bind.
  eapply wp_mono; [by apply (user_write_spec g)|]. intros ret s1 (HI1 & Ht1 & Ec1 & Ep1 & El1 & _ & x1 & Hx1 & Hcp).
  destruct (Z.eqb_spec ret NO_ERROR) as [->|Hne].
  - apply wp_bind. assert (k_chans s1 !! c = Some ch) as Hc1 by (by rewrite Ec1).
    eapply wp_mono; [by apply (msg_get_filled_locked_spec g s1 c ch q i l)|]. intros _ s2 (HI2 & Ea2 & (_ & El2 & _) & q' & Hw & Ha2).
    apply wp_ret. split; [done|]. split; [transitivity s1; [done|by apply tables_kept_apps]|]. split; [congruence|].
    rewrite Z.eqb_refl. split; [exists x1; by rewrite Ea2|]. exists q'. split; [|done]. eapply with_queue_chans; [| |exact Hw]; [|done].
    intros h'. by apply queue_of_chans.
  - apply wp_ret. split; [done|]. split; [done|]. split; [done|]. split; [by exists x1|]. destruct (Z.eqb_spec ret NO_ERROR); [done|].
    intros h. by apply queue_of_chans.
Qed.

Lemma sys_put_msg_spec g s a x u id msg_id :
  Inv g s -> has_table s a x u -> 0 <= id -> 0 <= msg_id -> slot_ready s u id ->
  wp (sys_put_msg a id msg_id) (fun ret s' => Inv g s' /\ tables_kept s s' /\
    match slot_of u id with
    | Some (HChan c) => exists q, queue_of s (HChan c) = Some q /\
        match msg_put_read q msg_id with
        | None => ret = ERR_INVALID_ARGS
        | Some q' => ret = NO_ERROR /\ with_queue_of (HChan c) q' s s' /\ mq_abs q' = aq_put (Z.to_nat msg_id) (mq_abs q)
        end
    | _ => ret < 0
    end) s.
Proof.
  intros HI Hu Hid Hm Hrdy. unfold sys_put_msg. apply (borrowed_call g s a x u id NullDeref _ _ _ HI Hu Hid).
  { intros r Hs Hr. rewrite Hs. by apply wp_ret. }
  intros h s1 Hs HB. pose proof HB as [HI1 _ (y & Hy & Hr) _ Hq1 Ea1 _ _ _]. rewrite Hs. apply wp_bind.
  eapply wp_mono; [eapply (ipc_put_msg_spec (g_bor1 h g) s1 h y); [done|done|done| |done]|].
  { eapply has_queue_of; [apply Hq1|]. by apply Hrdy. }
  intros ret s2 (HI2 & Ea2 & (_ & El2 & _) & Hret). eapply (finish_borrowed g s s1 s2 h a); try done; [by apply tables_kept_apps|].
  intros s3 HI3 Ht3 Hq3 _ _. split; [done|]. split; [done|].
  unfold retires in Hret. destruct h as [p|c]; [by destruct Hret as [-> _]|]. rewrite Hq1 in Hret.
  destruct (Hrdy _ Hs) as [q Hq]. rewrite Hq in Hret. exists q. split; [done|]. destruct (msg_put_read q msg_id) as [q'|].
  - destruct Hret as (-> & Hw & Ha & _). split; [done|]. split; [|done]. eapply with_queue_chans; [exact Hq1| |exact Hw].
    intros h'. by rewrite Hq3.
  - by destruct Hret as [-> _].
Qed.

Lemma sys_get_msg_spec g s a x u id addr :
  Inv g s -> has_table s a x u -> 0 <= id -> slot_ready s u id ->
  wp (sys_get_msg a id addr) (fun ret s' => Inv g s' /\ tables_kept s s' /\
    match slot_of u id with
    | Some (HChan c) => exists q, queue_of s (HChan c) = Some q /\
        match mq_filled q with
        | [] => ret = ERR_NO_MSG
        | i :: l => (exists x', k_apps s' !! a = Some x' /\
              copy_to_user (a_umem x) addr (encode_msg_info (Z.of_nat (length (mq_msg q i).2)) (Z.of_nat i)) = (ret, a_umem x')) /\
            if ret =? NO_ERROR then exists q', with_queue_of (HChan c) q' s s' /\
              mq_abs q' = AQueue (length (mq_items q)) (mq_msg q <$> l) ((mq_msg q <$> mq_read q) ++ [mq_msg q i])
            else forall h, queue_of s' h = queue_of s h
        end
    | _ => ret < 0
    end) s.
Proof.
  intros HI Ht Hid Hrdy. unfold sys_get_msg. apply (borrowed_call g s a x u id NullDeref _ _ _ HI Ht Hid).
  { intros r Hs Hr. rewrite Hs. by apply wp_ret. }
  intros h s1 Hs HB. pose proof HB as [HI1 _ (y & Hy & Hr) _ Hq1 Ea1 _ _ _]. rewrite Hs.
  pose proof (live_kind _ s1 h y HI1 Hy Hr) as Hk. wp_with (by apply check_channel_run).
  destruct h as [p|c].
  { rewrite Hk. cbn [negb Z.eqb]. apply wp_bind. apply wp_ret. by eapply (finish_borrowed g s s1 s1 (HPort p) a). }
  destruct Hk as [-> _]. rewrite Z.eqb_refl. cbn [negb]. apply wp_bind.
  destruct (Hrdy _ Hs) as [q Hq]. rewrite <- Hq1 in Hq. pose proof Hq as Hq0. apply queue_of_chan in Hq as (ch & Hc & Hq).
  apply wp_bind, wp_ret. wp_with (by eapply get_queue_run).
  eapply wp_mono; [apply (user_get_spec _ s1 a x c ch q addr HI1); [rewrite Ea1; apply Ht|done|done]|].
  intros ret s2 (HI2 & Ht2 & El2 & Hf). eapply (finish_borrowed g s s1 s2 (HChan c) a); try done.
  intros s3 HI3 Ht3 Hq3 _ Ea3. split; [done|]. split; [done|].
  exists q. split; [by rewrite <- Hq1|]. destruct (mq_filled q) as [|i l]; [done|]. rewrite Ea3. destruct Hf as [Hcp Hf]. split; [done|].
  destruct (ret =? NO_ERROR).
  - destruct Hf as (q' & Hw & Ha). exists q'. split; [|done]. eapply with_queue_chans; [exact Hq1| |exact Hw]. intros h'. by rewrite Hq3.
  - intros h. by rewrite Hq3, Hf, Hq1.
Qed.

Lemma user_read_run s a x addr n : k_apps s !! a = Some x -> user_read a addr n s = Ret (copy_from_user (a_umem x) addr n) s.
Proof. intros Ha. unfold user_read. by rewrite (run_bind _ _ _ _ _ (get_app_run _ _ _ Ha)). Qed.

(** What [sys_send_msg] does to the peer's queue, in terms of the state of the
    channel in the slot. *)
Definition sys_sends (ms : mems) (c : Z) (msg : msg_desc) (s : kstate) (ret : Z) (s' : kstate) : Prop :=
  exists ch, k_chans s !! c = Some ch /\
    match c_state ch with
    | IPC_CHAN_STATE_CONNECTED => exists peer q, c_peer ch = Some peer /\ queue_of s (HChan peer) = Some q /\
        match msg_write ms q msg with
        | WriteFault => False
        | WriteFull => ret = ERR_NOT_ENOUGH_BUFFER /\ forall h, queue_of s' h = queue_of s h
        | WriteDone r q' => ret = r /\ with_queue_of (HChan peer) q' s s'
        end
    | IPC_CHAN_STATE_DISCONNECTING => ret = ERR_CHANNEL_CLOSED /\ forall h, queue_of s' h = queue_of s h
    | _ => ret = ERR_NOT_READY /\ forall h, queue_of s' h = queue_of s h
    end.

Lemma sends_sys g ms s a h c msg s1 s2 s3 ret :
  borrowed g s a h s1 -> sends ms (HChan c) msg s1 ret s2 -> (forall h', queue_of s3 h' = queue_of s2 h') -> sys_sends ms c msg s ret s3.
Proof.
  intros [_ _ _ _ Hq1 _ _ Hc1 _] (ch1 & Hch1 & Hst) Hq3. destruct (Hc1 c ch1 Hch1) as (x & ch & Hch & ->). exists ch. split; [done|]. cbn in Hst.
  assert (k_chans s2 = k_chans s1 -> forall h, queue_of s3 h = queue_of s h) as Hsame.
  { intros E h'. rewrite Hq3, <- Hq1. by apply queue_of_chans. }
  destruct (c_state ch); try (destruct Hst as [-> E]; split; [done|by apply Hsame]).
  destruct Hst as (peer & pch & q & Hpe & Hpch & Hq & Hw). exists peer, q. split; [done|].
  assert (queue_of s1 (HChan peer) = Some q) as Hqp by (apply queue_of_chan; eauto). split; [by rewrite <- Hq1|].
  destruct (msg_write ms q msg) as [| |r q']; [done| |]; destruct Hw as [-> Ec]; (split; [done|]).
  - intros h'. rewrite Hq3, <- Hq1. destruct h' as [|c']; [done|]. cbn. rewrite Ec.
    destruct (decide (c' = c)) as [->|]; [by rewrite lookup_insert_eq, Hch1|by rewrite lookup_insert_ne].
  - split; [rewrite Hq3; cbn; by rewrite Ec, lookup_insert_eq|]. intros h' Hne. rewrite Hq3, <- Hq1.
    destruct h' as [|c']; [done|]. cbn. rewrite Ec. by rewrite lookup_insert_ne by congruence.
Qed.

Lemma sys_send_msg_spec g s a x u id addr :
  Inv g s -> has_table s a x u -> 0 <= id ->
  wp (sys_send_msg a id addr) (fun ret s' => Inv g s' /\ tables_kept s s' /\
    (ret < 0 \/ exists c bs, slot_of u id = Some (HChan c) /\ copy_from_user (a_umem x) addr sizeof_ipc_msg_user = (NO_ERROR, bs) /\
      sys_sends (mems_of s (Some a)) c (decode_msg_user bs) s ret s')) s.
Proof.
  intros HI Ht Hid. pose proof Ht as [Ha Hu]. unfold sys_send_msg. wp_with (by eapply user_read_run).
  destruct (copy_from_user (a_umem x) addr sizeof_ipc_msg_user) as [st bs] eqn:Eb. cbn beta iota.
  destruct (copy_from_user_status _ _ _ _ _ Eb) as [->| ->]; cbn [negb Z.eqb].
  2:{ apply wp_ret. split; [done|]. split; [done|]. by left. }
  eapply (borrowed_call g s a x u id NullDeref); try done.
  { intros r Hs Hr. apply wp_ret. split; [done|]. split; [done|]. by left. }
  intros h s1 Hs HB. pose proof HB as [HI1 _ (y & Hy & Hr) _ Hq1 Ea1 Ek1 _ _]. apply wp_bind.
  assert (mems_of s1 (Some a) = mems_of s (Some a)) as Em by (unfold mems_of; by rewrite Ea1, Ek1).
  eapply wp_mono; [apply (send_msg_locked_spec (g_bor1 h g) s1 (Some a) h y); try done|].
  { cbn. rewrite Ea1, Ha. by eexists. }
  intros ret s2 (HI2 & Ea2 & (_ & El2 & _) & Hret). eapply (finish_borrowed g s s1 s2 h a); try done; [by apply tables_kept_apps|].
  intros s3 HI3 Ht3 Hq3 _ _. split; [done|]. split; [done|]. rewrite Em in Hret. destruct h as [p|c]; [destruct Hret as [-> _]; by left|].
  right. exists c, bs. split; [done|]. split; [done|]. by eapply sends_sys.
Qed.

Lemma sys_read_msg_spec g s a x u id msg_id off addr :
  Inv g s -> has_table s a x u -> 0 <= id -> slot_ready s u id ->
  wp (sys_read_msg a id msg_id off addr) (fun ret s' => Inv g s' /\ tables_kept s s' /\ (forall h, queue_of s' h = queue_of s h) /\
    (ret < 0 \/ exists c bs q x' ms', slot_of u id = Some (HChan c) /\ queue_of s (HChan c) = Some q /\
      copy_from_user (a_umem x) addr sizeof_ipc_msg_user = (NO_ERROR, bs) /\
      msg_read (mems_of s (Some a)) q msg_id off (decode_msg_user bs) = Some (ret, ms') /\
      k_apps s' !! a = Some x' /\ a_umem x' = m_user ms')) s.
Proof.
  intros HI Ht Hid Hrdy. pose proof Ht as [Ha Hu]. unfold sys_read_msg. wp_with (by eapply user_read_run).
  destruct (copy_from_user (a_umem x) addr sizeof_ipc_msg_user) as [st bs] eqn:Eb. cbn beta iota.
  destruct (copy_from_user_status _ _ _ _ _ Eb) as [->| ->]; cbn [negb Z.eqb].
  2:{ apply wp_ret. split_and!; try done. by left. }
  eapply (borrowed_call g s a x u id NullDeref); try done.
  { intros r Hs Hr. apply wp_ret. split_and!; try done. by left. }
  intros h s1 Hs HB. pose proof HB as [HI1 _ (y & Hy & Hr) _ Hq1 Ea1 Ek1 _ _]. apply wp_bind.
  assert (mems_of s1 (Some a) = mems_of s (Some a)) as Em by (unfold mems_of; by rewrite Ea1, Ek1).
  eapply wp_mono; [apply (read_msg_locked_spec (g_bor1 h g) s1 (Some a) h y); try done|].
  { eapply has_queue_of; [apply Hq1|]. by apply Hrdy. }
  { cbn. rewrite Ea1, Ha. by eexists. }
  { intros q _. apply msg_read_user. }
  intros ret s2 (HI2 & Ht2 & (_ & El2 & _) & Ec2 & _ & Hret). eapply (finish_borrowed g s s1 s2 h a); try done.
  intros s3 HI3 Ht3 Hq3 _ Ea3. split; [done|]. split; [done|]. split.
  { intros h'. rewrite Hq3, <- Hq1. by apply queue_of_chans. }
  rewrite Em in Hret. destruct h as [p|c]; [destruct Hret as [-> _]; by left|]. rewrite Hq1 in Hret.
  destruct (Hrdy _ Hs) as [q Hq]. rewrite Hq in Hret. destruct Hret as (ms' & Er & _ & Hx). destruct (Hx a eq_refl) as (x' & Hx' & Eu).
  right. exists c, bs, q, x', ms'. by rewrite Ea3.
Qed.

(** ** Cookies and closing *)

Lemma sys_set_cookie_spec g s a x u id cookie :
  Inv g s -> has_table s a x u -> 0 <= id ->
  wp (sys_set_cookie a id cookie) (fun ret s' => Inv g s' /\ tables_kept s s' /\
    match slot_of u id with
    | Some h => ret = NO_ERROR /\ exists y, hview s h = Some y /\ s' = set_handle h (set_h_cookie cookie y) s
    | None => ret < 0 /\ s' = s
    end) s.
Proof.
  intros HI Ht Hid. unfold sys_set_cookie. eapply (borrowed_call g s a x u id NullDeref); try done.
  { intros r Hs Hr. rewrite Hs. by apply wp_ret. }
  intros h s1 Hs HB. rewrite Hs. pose proof HB as [HI1 (y & Hy & Es1) (y1 & Hy1 & Hr) Hl _ Ea1 _ _ _].
  assert (y1 = set_h_refcnt (h_refcnt y + 1) y) as ->.
  { rewrite Es1, (hview_set_handle _ _ _ y), decide_True in Hy1 by done. by injection Hy1. }
  unfold handle_set_cookie. wp_with (by apply upd_handle_run). set (s2 := set_handle h _ s1).
  assert (Inv (g_bor1 h g) s2) as HI2 by (by eapply Inv_handle_field).
  assert (hview s2 h = Some (set_h_cookie cookie (set_h_refcnt (h_refcnt y + 1) y))) as Hy2.
  { unfold s2. by rewrite (hview_set_handle _ _ _ _ _ Hy1), decide_True. }
  apply wp_bind. eapply wp_mono; [apply (drop_borrowed g s2 h a HI2)|].
  { unfold hl_of in *. rewrite Hy2. rewrite Hy1 in Hl. done. }
  intros _ s3 (HI3 & y3 & Hy3 & Es3). apply wp_ret. rewrite Hy2 in Hy3. injection Hy3 as <-.
  assert (s3 = set_handle h (set_h_cookie cookie y) s) as E3.
  { rewrite Es3. unfold s2. rewrite Es1, !set_handle_twice. f_equal. unfold set_h_refcnt, set_h_cookie.
    cbn [h_refcnt h_ops h_wait_event h_hlist h_cookie]. f_equal. lia. }
  split; [done|]. rewrite E3. split; [apply tables_kept_set_handle|]. split; [done|]. by exists y.
Qed.

Lemma has_table_put s a x u u' : has_table s a x u -> forall s', k_apps s' = <[a := set_a_uctx (Some u') x]> (k_apps s) ->
  utable s' a = Some u' /\ forall b, b <> a -> utable s' b = utable s b.
Proof.
  intros Ht s' E. unfold utable. rewrite E, lookup_insert_eq. split; [done|]. intros b Hb. by rewrite lookup_insert_ne.
Qed.

Lemma no_pins g : g_ov g = ∅ -> forall c, ~ pinned g c.
Proof. intros E c [r Hr]. by rewrite E in Hr. Qed.

Lemma sys_close_spec g s a x u id :
  Inv g s -> g_ov g = ∅ -> has_table s a x u -> 0 <= id ->
  wp (sys_close a id) (fun ret s' => Inv g s' /\ (forall b, b <> a -> utable s' b = utable s b) /\
    match slot_of u id with
    | Some h => ret = NO_ERROR /\ utable s' a = Some (clear_slot id u)
    | None => ret < 0 /\ s' = s
    end) s.
Proof.
  intros HI Hov Ht Hid. destruct (uctx_handle_remove_spec g s a x u id HI Ht Hid) as (ret & o & s1 & R & Eo & Ho).
  unfold sys_close. wp_with (exact R). cbn beta iota. rewrite <- Eo. destruct o as [h|].
  - destruct Ho as (-> & Hlt & HI1 & Ea & _). rewrite Z.eqb_refl. cbn [negb]. wp_with (by apply deref_run).
    destruct (handle_close_spec g s1 h HI1 (no_pins g Hov)) as (s2 & R2 & HI2 & (Ea2 & _)). wp_with (exact R2).
    rewrite Ea in Ea2. destruct (has_table_put s a x u _ Ht s2 Ea2) as [Hu2 Hoth]. by apply wp_ret.
  - destruct Ho as [Hneg ->]. destruct (Z.eqb_spec ret NO_ERROR) as [->|]; [done|]. by apply wp_ret.
Qed.
