(* ===== verification/IpcPort.v ===== *)
(** * The system calls on ports and connections keep the invariant

    [sys_port_create], [sys_accept] and [sys_connect] of ipc.c, [sys_wait] of
    uctx.c: creating and publishing ports, waiting for and accepting
    connections.  A blocked call lets other threads run; what they do is only
    required to keep the invariant with the references the blocked call holds
    ([block_ok]). *)

From stdpp Require Import base tactics list gmap.
From Stdlib Require Import ZArith Lia.
From S2P Require Import Prelude Iovec MsgQueue Kernel Channel Handle Uctx Ipc IpcMsg IpcInv IpcSafe IpcCalls IpcSys.

(** ** Creating a port *)

Definition new_port (path : cstring) (sid : uuid_ptr) (n sz flags : Z) : port :=
  Port path sid IPC_PORT_STATE_INVALID flags n sz (Handle 1 (Some ipc_port_handle_ops) None None 0) [] false.

Definition port_state_with (p : Z) (pt : port) (s : kstate) : kstate := put_port p pt (set_k_next (k_next s + 1) s).

Lemma not_ext_cnt g s h : Inv g s -> hview s h = None -> cnt h (g_own g) = 0 /\ cnt h (g_bor g) = 0.
Proof.
  intros HI Hv. assert (h ∉ g_own g ++ g_bor g) as Hn.
  { intros Hin. destruct (i_ext g s HI _ Hin) as [x Hx]. congruence. }
  rewrite elem_of_app, !cnt_elem in Hn. pose proof (cnt_nonneg h (g_own g)). pose proof (cnt_nonneg h (g_bor g)). lia.
Qed.

Lemma g_but_own1 h g : g_but h g (g_own1 h g).
Proof. split; [done|]. cbn. intros h' Hne. destruct (decide _); [congruence|lia]. Qed.

Lemma Inv_new_port g s path sid n sz flags :
  Inv g s -> 0 < n <= IPC_CHAN_MAX_BUFS -> 0 < sz <= IPC_CHAN_MAX_BUF_SIZE ->
  Inv (g_own1 (HPort (k_next s)) g) (port_state_with (k_next s) (new_port path sid n sz flags) s).
Proof.
  intros HI Hn Hsz. set (p := k_next s). set (pt := new_port _ _ _ _ _). set (s' := port_state_with _ _ _).
  assert (k_ports s !! p = None) as Hp.
  { destruct (k_ports s !! p) eqn:E; [|done]. assert (p < k_next s) by (apply (proj2 (i_fresh g s HI)); by rewrite E). unfold p in *. lia. }
  destruct (not_ext_cnt g s (HPort p) HI) as [Ho Hb]; [cbn; by rewrite Hp|].
  assert (forall h, hview s' h = if decide (h = HPort p) then Some (p_handle pt) else hview s h) as Hv by (intros h; unfold s', port_state_with; rewrite hview_put_port; by destruct h).
  destruct (HI). split; cbn; try done.
  - intros c ch Hc. apply (chan_ok_but _ g _ (HPort p)); [apply g_but_own1|done|by apply i_chan].
  - intros p' x Hx. map_cases Hx p p'; [|apply (port_ok_but _ g _ (HPort p)); [apply g_but_own1|congruence|by apply i_port]].
    split; try done; cbn; [|by constructor]. rewrite decide_True by done. lia.
  - intros p' c. rewrite <- i_pend. destruct (decide (p' = p)) as [->|]; [|by rewrite lookup_insert_ne].
    rewrite lookup_insert_eq, Hp. split; intros (x & Ex & Hin); simplify_eq. by apply elem_of_nil in Hin.
  - destruct i_plist as [? Hpl]. split; [done|]. intros p'. rewrite Hpl. destruct (decide (p' = p)) as [->|]; [|by rewrite lookup_insert_ne].
    rewrite lookup_insert_eq, Hp. split; intros (x & ? & ?); by simplify_eq.
  - intros h Hin. rewrite Hv. destruct (decide _) as [|Hne]; [done|]. apply i_ext. eapply g_but_ext; [apply g_but_own1|exact Hin|done].
  - destruct i_fresh as [F1 F2]. split; [intros c Hc; specialize (F1 c Hc); lia|]. intros p'.
    rewrite lookup_insert_is_Some. unfold p. intros [<-|[_ H1]]; [lia|]. specialize (F2 p' H1). lia.
  - eapply tabs_ok_ext; [|done]. intros h. unfold hl_of. rewrite Hv. destruct (decide _) as [->|]; [|done]. cbn. by rewrite Hp.
Qed.

Definition port_args_ok (path : cstring) (n sz : Z) : Prop :=
  0 < n <= IPC_CHAN_MAX_BUFS /\ 0 < sz <= IPC_CHAN_MAX_BUF_SIZE /\ 0 < Z.of_nat (length path) < IPC_PORT_PATH_MAX.

Lemma ipc_port_create_spec g s sid path n sz flags : Inv g s -> 0 <= n -> 0 <= sz ->
  wp (ipc_port_create (Some sid) path n sz flags) (fun r s' =>
    frame_t s s' /\ k_chans s' = k_chans s /\ waiting_for_port_chan_list s' = waiting_for_port_chan_list s /\
    (k_allocs s = [] -> k_allocs s' = []) /\
    (r.1 < 0 /\ Inv g s' \/
     r = (NO_ERROR, Some (HPort (k_next s))) /\ port_args_ok path n sz /\ Inv (g_own1 (HPort (k_next s)) g) s' /\
       k_ports s' = <[k_next s := new_port path sid n sz flags]> (k_ports s))) s.
Proof.
  intros HI Hn Hsz. unfold ipc_port_create.
  destruct (Z.eqb_spec n 0); cbn [orb]; [apply wp_ret; split_and!; try done; by left|].
  destruct (Z.gtb_spec n IPC_CHAN_MAX_BUFS); cbn [orb]; [apply wp_ret; split_and!; try done; by left|].
  destruct (Z.eqb_spec sz 0); cbn [orb]; [apply wp_ret; split_and!; try done; by left|].
  destruct (Z.gtb_spec sz IPC_CHAN_MAX_BUF_SIZE); cbn [orb]; [apply wp_ret; split_and!; try done; by left|].
  destruct (kmalloc_run s) as (b & l & R & Hb). wp_with (exact R).
  assert (k_allocs s = [] -> l = []) as Hal by (intros E; by apply Hb).
  pose proof (Inv_allocs g s l HI) as HI1. set (s1 := set_k_allocs l s) in *.
  destruct b; [|apply wp_ret; split_and!; try done; by left]. unfold strlcpy.
  destruct (Z.eqb_spec (Z.of_nat (length path)) 0); [apply wp_ret; split_and!; try done; by left|].
  destruct (Z.geb_spec (Z.of_nat (length path)) IPC_PORT_PATH_MAX); [apply wp_ret; split_and!; try done; by left|].
  wp_with (reflexivity). apply wp_bind, wp_modify. apply wp_bind.
  eapply wp_run; [eapply (upd_port_run _ (k_next s1)); cbn; by rewrite lookup_insert_eq|]. apply wp_ret.
  assert (port_args_ok path n sz) as Hargs by (unfold port_args_ok; lia).
  assert (take (Z.to_nat (IPC_PORT_PATH_MAX - 1)) path = path) as ->.
  { apply take_ge. change (Z.to_nat (IPC_PORT_PATH_MAX - 1)) with 63%nat. unfold IPC_PORT_PATH_MAX in *. lia. }
  set (s3 := put_port _ _ _). assert (s3 = port_state_with (k_next s1) (new_port path sid n sz flags) s1) as ->.
  { unfold s3, port_state_with, put_port, set_k_ports. cbn. by rewrite insert_insert_eq. }
  split; [done|]. split; [done|]. split; [done|]. split; [done|]. right. split; [done|]. split; [done|]. split; [|done].
  apply (Inv_new_port g s1); [done|apply Hargs|apply Hargs].
Qed.

(** ** Strings from user space *)

Lemma user_strlen_None fuel um a : 0 <= a < 2 ^ 32 -> user_strlen_bytes fuel um a = None ->
  forall j, (j < fuel)%nat -> is_Some (um !! u32 (a + Z.of_nat j)).
Proof.
  revert a. induction fuel as [|fuel IH]; intros a Ha; cbn; [lia|]. intros E j Hj.
  destruct (um !! a) as [b|] eqn:Eb; [|done]. destruct (b =? 0); [done|].
  destruct (user_strlen_bytes fuel um (u32 (a + 1))) eqn:E1; [done|]. destruct j as [|j].
  - rewrite Z.add_0_r. unfold u32. rewrite Z.mod_small by done. by rewrite Eb.
  - assert (0 <= u32 (a + 1) < 2 ^ 32) as Hb by (by apply Z.mod_pos_bound).
    specialize (IH (u32 (a + 1)) Hb E1 j ltac:(lia)). replace (u32 (a + Z.of_nat (S j))) with (u32 (u32 (a + 1) + Z.of_nat j)); [done|].
    unfold u32. rewrite Zplus_mod_idemp_l. f_equal. lia.
Qed.

(** The address space has a hole: every walk to the terminator ends. *)
Lemma user_strlen_total um a : 0 <= a < 2 ^ 32 -> Z.of_nat (size um) < 2 ^ 32 -> is_Some (user_strlen_bytes (S (size um)) um a).
Proof.
  intros Ha Hsz. destruct (user_strlen_bytes (S (size um)) um a) eqn:E; [by eexists|]. exfalso.
  pose proof (user_strlen_None _ _ _ Ha E) as Hin.
  set (l := (fun j : nat => u32 (a + Z.of_nat j)) <$> seq 0 (S (size um))).
  assert (NoDup l) as Hnd.
  { apply NoDup_fmap_2_strong; [|apply NoDup_seq]. intros i j Hi%elem_of_seq Hj%elem_of_seq. unfold u32. intros Em.
    assert ((Z.of_nat i - Z.of_nat j) mod 2 ^ 32 = 0) as E0.
    { replace (Z.of_nat i - Z.of_nat j) with ((a + Z.of_nat i) - (a + Z.of_nat j)) by lia. rewrite Zminus_mod, Em, Z.sub_diag. done. }
    apply Z.mod_divide in E0 as [k Hk]; [|done]. assert (k = 0) by nia. lia. }
  assert (list_to_set l ⊆ dom um) as Hsub.
  { intros x Hx%elem_of_list_to_set. apply list_elem_of_fmap in Hx as (j & -> & Hj%elem_of_seq). apply elem_of_dom, Hin. lia. }
  apply subseteq_size in Hsub. rewrite size_list_to_set, size_dom in Hsub by done. unfold l in Hsub. rewrite length_fmap, length_seq in Hsub. lia.
Qed.

(** The app's memory does not fill the whole address space. *)
Definition umem_ok (s : kstate) (a : Z) : Prop := forall x, k_apps s !! a = Some x -> Z.of_nat (size (a_umem x)) < 2 ^ 32.

Lemma strncpy_run s a x usrc n : k_apps s !! a = Some x -> umem_ok s a -> 0 <= usrc < 2 ^ 32 ->
  exists r, strncpy_from_user a usrc n s = Ret r s /\
    (r.1 < 0 \/ exists str, r = (Z.of_nat (length str), take (Z.to_nat (n - 1)) str) /\
       user_strlen_bytes (S (size (a_umem x))) (a_umem x) usrc = Some (Some str)).
Proof.
  intros Ha Hm Hu. unfold strncpy_from_user. rewrite (run_bind _ _ _ _ _ (get_app_run _ _ _ Ha)).
  destruct (user_strlen_total (a_umem x) usrc Hu (Hm x Ha)) as [[str|] Es]; rewrite Es; (eexists; split; [reflexivity|]); [right; eauto|by left].
Qed.

(** ** [sys_port_create] *)

Lemma installed_port a x' p s s' pt : installed a x' (HPort p) s s' -> k_ports s !! p = Some pt ->
  (exists y, k_ports s' !! p = Some (set_p_handle y pt)) /\ k_chans s' = k_chans s /\
  waiting_for_port_chan_list s' = waiting_for_port_chan_list s /\ k_allocs s' = k_allocs s.
Proof.
  intros (y & hs & e & ->) Hp. cbn. rewrite Hp. cbn. split; [exists y; by rewrite lookup_insert_eq|]. done.
Qed.

Lemma publishable_same s s' pt pt' :
  publishable s pt -> p_path pt' = p_path pt -> p_flags pt' = p_flags pt -> k_chans s' = k_chans s ->
  waiting_for_port_chan_list s' = waiting_for_port_chan_list s -> (k_allocs s = [] -> k_allocs s' = []) -> publishable s' pt'.
Proof.
  intros [E|[Ha Hadm]] Ep Ef Ec Ew Eal; [left; congruence|]. right. split; [by apply Eal|]. intros c cl. rewrite Ec. intros Hc Hn.
  specialize (Hadm c cl Hc Hn). unfold admits, check_access in *. by rewrite Ep, Ef.
Qed.

(** Dropping the only reference to a port that was never published. *)
Lemma drop_port g s p pt ret (Q : Z -> kstate -> Prop) :
  Inv (g_own1 (HPort p) g) s -> k_ports s !! p = Some pt -> (forall s', Inv g s' -> k_apps s' = k_apps s -> Q ret s') ->
  wp (handle_decref (HPort p);; mret ret) Q s.
Proof.
  intros HI Hp HQ. destruct (handle_decref_port_spec _ g s p pt HI Hp (g_own1_less _ g)) as [R HI'].
  wp_with (exact R). apply wp_ret, HQ; [done|]. unfold port_less. by destruct (_ =? _).
Qed.

(** What [sys_port_create] leaves: an error and the same table, or a published
    port in the lowest free slot. *)
Definition port_created (a : Z) (u : uctx) (s : kstate) (path n sz flags : Z) (ret : Z) (s' : kstate) : Prop :=
  ret < 0 /\ utable s' a = Some u \/
  exists p pt str x, 0 <= ret < 64 /\ slot_of u ret = None /\ (forall i, 0 <= i < ret -> is_Some (slot_of u i)) /\
    utable s' a = Some (fill_slot ret (HPort p) u) /\ k_ports s' !! p = Some pt /\ p_node pt = true /\
    p_state pt = IPC_PORT_STATE_LISTENING /\ k_apps s !! a = Some x /\
    user_strlen_bytes (S (size (a_umem x))) (a_umem x) path = Some (Some str) /\ p_path pt = str /\ port_args_ok str n sz.

Lemma publish_installed g s a x u p pt id :
  Inv g s -> g_ov g = ∅ -> has_table s a x (fill_slot id (HPort p) u) -> table_ok u -> 0 <= id < 64 -> slot_of u id = None ->
  k_ports s !! p = Some pt -> p_node pt = false -> publishable s pt ->
  wp (ret ← ipc_port_publish (HPort p);
      if negb (ret =? NO_ERROR) then '(_, oh) ← uctx_handle_remove a id; handle_decref (default (HPort p) oh);; mret ret
      else mret id)
    (fun ret s' => Inv g s' /\ (forall b, b <> a -> utable s' b = utable s b) /\
      (ret < 0 /\ utable s' a = Some u \/
       ret = id /\ utable s' a = Some (fill_slot id (HPort p) u) /\
         exists pt', k_ports s' !! p = Some pt' /\ p_node pt' = true /\ p_state pt' = IPC_PORT_STATE_LISTENING /\ p_path pt' = p_path pt)) s.
Proof.
  intros HI Hov Ht HT Hid Hs Hp Hn Hpub.
  destruct (ipc_port_publish_spec g s p pt HI Hov Hp Hn Hpub) as (ret & s1 & pt1 & R & HI1 & F1 & Hp1 & _ & Hret).
  wp_with (exact R). destruct Hret as [(-> & -> & _)|(-> & Hn1 & Hst1 & Hpath1)]; cbn [negb Z.eqb].
  - destruct (uctx_handle_remove_spec g s a x _ id HI Ht ltac:(lia)) as (ret & o & s2 & R2 & Eo & Ho).
    rewrite slot_of_fill, Z.eqb_refl in Eo by (done || lia). subst o. destruct Ho as (-> & _ & HI2 & Ea2 & y & Hy & _).
    wp_with (exact R2). cbn [default]. cbn in Hy. destruct (k_ports s2 !! p) as [pt2|] eqn:Hp2; [|done].
    eapply drop_port; [exact HI2|exact Hp2|]. intros s3 HI3 Ea3. rewrite Ea2 in Ea3.
    destruct (has_table_put s a x _ _ Ht s3 Ea3) as [Hu3 Hoth]. split; [done|]. split; [done|]. left. split; [done|].
    rewrite Hu3. by rewrite clear_fill.
  - apply wp_ret. split; [done|]. pose proof (tables_kept_t _ _ F1) as Htk. split; [done|]. right. split; [done|].
    split; [rewrite Htk; apply utable_has; eauto|]. exists pt1. split_and!; congruence.
Qed.

Lemma sys_port_create_spec g s a x u path n sz flags :
  Inv g s -> g_ov g = ∅ -> has_table s a x u -> umem_ok s a -> 0 <= path < 2 ^ 32 -> 0 <= n -> 0 <= sz ->
  (forall str, publishable s (new_port str (app_uuid a) n sz flags)) ->
  wp (sys_port_create a path n sz flags) (fun ret s' => Inv g s' /\ (forall b, b <> a -> utable s' b = utable s b) /\
    port_created a u s path n sz flags ret s') s.
Proof.
  intros HI Hov Ht Hum Hpath Hn Hsz Hpub. pose proof Ht as [Ha Hu]. unfold sys_port_create, port_created.
  assert (utable s a = Some u) as Hut by (apply utable_has; eauto).
  destruct (strncpy_run s a x path IPC_PORT_PATH_MAX Ha Hum Hpath) as ([r tmp] & R & Hr). wp_with (exact R). cbn beta iota.
  destruct (Z.ltb_spec r 0); [apply wp_ret; split; [done|]; split; [done|]; by left|]. destruct Hr as [?|(str & [= -> ->] & Es)]; [cbn in *; lia|].
  destruct (Z.geb_spec (Z.of_nat (length str)) IPC_PORT_PATH_MAX) as [|Hlen]; [apply wp_ret; split; [done|]; split; [done|]; by left|].
  rewrite take_ge by (change (Z.to_nat (IPC_PORT_PATH_MAX - 1)) with 63%nat; unfold IPC_PORT_PATH_MAX in *; lia).
  apply wp_bind. eapply wp_mono; [by apply (ipc_port_create_spec g)|].
  intros [ret ph] s1 (F1 & Ec1 & Ew1 & Eal1 & Hc). pose proof (tables_kept_t _ _ F1) as Htk. cbn beta iota.
  destruct Hc as [(Hneg & HI1)|([= -> ->] & Hargs & HI1 & Ep1)].
  { cbn in Hneg. destruct (Z.eqb_spec ret NO_ERROR) as [->|]; [done|]. cbn [negb]. apply wp_ret. split; [done|].
    split; [done|]. left. split; [done|]. by rewrite Htk. }
  rewrite Z.eqb_refl. cbn [negb]. wp_with (by apply deref_run). set (p := k_next s) in *.
  assert (has_table s1 a x u) as Ht1 by (unfold has_table; by rewrite (proj1 F1)). set (pt := new_port _ _ _ _ _) in *.
  assert (k_ports s1 !! p = Some pt) as Hp1 by (by rewrite Ep1, lookup_insert_eq).
  destruct (uctx_handle_install_spec g s1 a x u (HPort p) (p_handle pt) HI1 Ht1) as (ret & id & s2 & R2 & Hi); [cbn; by rewrite Hp1|done|].
  wp_with (exact R2). cbn beta iota. destruct (uctx_table _ _ _ _ _ HI1 Ht1) as [HT _].
  destruct Hi as [(Hne & -> & _)|(-> & Hid & Hfree & Hlow & HI2 & Ht2 & Hinst)].
  { destruct (Z.eqb_spec ret NO_ERROR) as [->|]; [done|]. cbn [negb]. eapply drop_port; [exact HI1|exact Hp1|]. intros s3 HI3 Ea3.
    assert (tables_kept s s3) as Htk3 by (transitivity s1; [done|by apply tables_kept_apps]). split; [done|].
    split; [done|]. left. split; [done|]. by rewrite Htk3. }
  rewrite Z.eqb_refl. cbn [negb]. destruct (installed_port _ _ _ _ _ _ Hinst Hp1) as ((y & Hp2) & Ec2 & Ew2 & Eal2).
  eapply wp_mono; [eapply (publish_installed g s2 a _ u p _ id); try done|].
  { eapply publishable_same; [apply (Hpub str)|done|done|congruence|congruence|]. intros E. rewrite Eal2. by apply Eal1. }
  intros ret s3 (HI3 & Hoth & Hret). split; [done|].
  assert (forall b, b <> a -> utable s2 b = utable s b) as Hoth2.
  { intros b Hb. rewrite <- (Htk b). unfold utable. rewrite (installed_apps _ _ _ _ _ Hinst). by rewrite lookup_insert_ne. }
  split; [intros b Hb; by rewrite Hoth, Hoth2|]. destruct Hret as [[? ?]|(-> & Hu3 & pt3 & Hp3 & Hn3 & Hst3 & Hpath3)]; [by left|].
  right. exists p, pt3, str, x. split_and!; try done; lia.
Qed.

(** ** [sys_accept] *)

Definition valid_uuid (s : kstate) (o : option uuid_ptr) : Prop :=
  match o with
  | None => False
  | Some zero_uuid => True
  | Some (app_uuid b) => is_Some (k_apps s !! b)
  end.

(** Every channel knows whose it is. *)
Definition clients_known (s : kstate) : Prop := forall c ch, k_chans s !! c = Some ch -> valid_uuid s (c_uuid ch).

Lemma uuid_bytes_run s o : valid_uuid s o -> exists bs, uuid_bytes o s = Ret bs s.
Proof.
  destruct o as [[|b]|]; cbn; [by eexists| |done]. intros [x Hx]. rewrite (run_bind _ _ _ _ _ (get_app_run _ _ _ Hx)). by eexists.
Qed.

Lemma valid_uuid_installed a x' h s s' o : installed a x' h s s' -> valid_uuid s o -> valid_uuid s' o.
Proof.
  intros Hi. destruct o as [[|b]|]; cbn; try done. rewrite (installed_apps _ _ _ _ _ Hi).
  intros [y Hy]. destruct (decide (b = a)) as [->|]; [by rewrite lookup_insert_eq|]. rewrite lookup_insert_ne by done. by eexists.
Qed.

(** Two ends of one connection. *)
Definition connected (s : kstate) (server client : Z) : Prop :=
  exists sv cl, k_chans s !! server = Some sv /\ c_state sv = IPC_CHAN_STATE_CONNECTED /\ c_peer sv = Some client /\
    k_chans s !! client = Some cl /\ c_state cl = IPC_CHAN_STATE_CONNECTED /\ c_peer cl = Some server.

Lemma connected_set_handle h x s server client : connected s server client -> connected (set_handle h x s) server client.
Proof.
  intros (sv & cl & Hsv & ? & ? & Hcl & ? & ?). destruct h as [p|c]; cbn; [destruct (k_ports s !! p); by exists sv, cl|].
  destruct (k_chans s !! c) as [ch|] eqn:Hc; [|by exists sv, cl].
  assert (forall c0 ch0, k_chans s !! c0 = Some ch0 -> exists y, k_chans (put_chan c (set_c_handle x ch) s) !! c0 = Some (set_c_handle y ch0)) as Hh.
  { intros c0 ch0 Hc0. cbn. destruct (decide (c0 = c)) as [->|]; [rewrite lookup_insert_eq; simplify_eq; by exists x|].
    rewrite lookup_insert_ne by done. exists (c_handle ch0). rewrite Hc0. by destruct ch0. }
  destruct (Hh _ _ Hsv) as [y1 E1]. destruct (Hh _ _ Hcl) as [y2 E2]. by exists (set_c_handle y1 sv), (set_c_handle y2 cl).
Qed.

Lemma connected_chans s s' server client : k_chans s' = k_chans s -> connected s server client -> connected s' server client.
Proof. unfold connected. by intros ->. Qed.

Lemma connected_installed a x' h s s' server client : installed a x' h s s' -> connected s server client -> connected s' server client.
Proof.
  intros (y & hs & e & ->) Hc. apply (connected_chans (set_handle h y (with_app a x' hs s))); [done|]. apply connected_set_handle. done.
Qed.

Lemma accepts_connected s s' p server uuid : accepts s s' p server uuid ->
  (exists client, connected s' server client) /\ (exists ch, k_chans s' !! server = Some ch /\ h_hlist (c_handle ch) = None) /\
  exists c ch, k_chans s !! c = Some ch /\ uuid = c_uuid ch.
Proof.
  intros (pt & rest & sv & client & cl & _ & _ & _ & Hsv & Hpe & Hcl & Hpc & -> & Ec).
  assert (k_chans s' !! server = Some (init_handle_c (accepted (set_c_node None sv)))) as E1 by (by rewrite Ec, lookup_insert_eq).
  split; [|split; [by eexists|by exists client, cl]]. exists client. destruct (decide (client = server)) as [->|Hne].
  - eexists _, _. split; [exact E1|]. split; [done|]. split; [done|]. split; [exact E1|]. simplify_eq. done.
  - eexists _, _. split; [exact E1|]. split; [done|]. split; [done|]. rewrite Ec, lookup_insert_ne, lookup_insert_eq by done. done.
Qed.

(** A reference borrowed for a port is dropped: no channel is touched. *)
Lemma drop_borrowed_port {A} g s h p (r : A) (Q : A -> kstate -> Prop) :
  h = HPort p -> Inv (g_bor1 h g) s -> (forall s', Inv g s' -> k_apps s' = k_apps s -> k_chans s' = k_chans s -> Q r s') ->
  wp (handle_decref h;; mret r) Q s.
Proof.
  intros -> HI HQ. destruct (i_ext _ s HI _ (bor1_elem _ g)) as [x Hx]. cbn in Hx. destruct (k_ports s !! p) as [pt|] eqn:Hp; [|done].
  destruct (handle_decref_port_spec _ g s p pt HI Hp (g_bor1_less _ g)) as [R HI'].
  wp_with (exact R). apply wp_ret, HQ; [done|..]; unfold port_less; by destruct (_ =? _).
Qed.

(** The tail of [sys_accept] once the new channel is in the table. *)
Definition accept_tail (a uaddr new_id : Z) (ph ch : href) (peer_uuid : option uuid_ptr) : K Z :=
  bs ← uuid_bytes peer_uuid;
  ret ← user_write a uaddr bs;
  if negb (ret =? NO_ERROR) then
    '(_, och) ← uctx_handle_remove a new_id; handle_close (default ch och);; handle_decref ph;; mret ret
  else handle_decref ph;; mret new_id.

Lemma copy_to_user_neg um addr bs ret um' : copy_to_user um addr bs = (ret, um') -> ret <> NO_ERROR -> ret < 0.
Proof. unfold copy_to_user. destruct (mem_write um addr bs) as [[] m]; intros [= <- <-]; done. Qed.

Lemma accept_tail_spec g s a x u uaddr id p server client uuid :
  Inv (g_bor1 (HPort p) g) s -> g_ov g = ∅ -> has_table s a x (fill_slot id (HChan server) u) -> table_ok u -> 0 <= id < 64 -> slot_of u id = None ->
  connected s server client -> valid_uuid s uuid ->
  wp (accept_tail a uaddr id (HPort p) (HChan server) uuid)
    (fun ret s' => Inv g s' /\ (forall b, b <> a -> utable s' b = utable s b) /\
      (ret < 0 /\ utable s' a = Some u \/ ret = id /\ utable s' a = Some (fill_slot id (HChan server) u) /\ connected s' server client)) s.
Proof.
  intros HI Hov Ht HT Hid Hs Hconn Hv. destruct (uuid_bytes_run s uuid Hv) as [bs Rb]. unfold accept_tail.
  assert (utable s a = Some (fill_slot id (HChan server) u)) as Hut by (apply utable_has; eauto).
  wp_with (exact Rb). apply wp_bind. eapply wp_mono; [apply (user_write_spec _ s a x uaddr bs HI); apply Ht|].
  intros ret s1 (HI1 & Ht1 & Ec1 & _ & _ & _ & x1 & Hx1 & Hcp). destruct (Z.eqb_spec ret NO_ERROR) as [->|Hne]; cbn [negb].
  - eapply drop_borrowed_port; [done|exact HI1|]. intros s2 HI2 Ea2 Ec2. pose proof (tables_kept_apps _ _ Ea2) as Ht2.
    split; [done|]. split; [intros b Hb; by rewrite Ht2, Ht1|]. right. split; [done|]. split; [by rewrite Ht2, Ht1|].
    eapply connected_chans; [|exact Hconn]. congruence.
  - rewrite <- (Ht1 a) in Hut. apply utable_has in Hut as [x1' Hut]. destruct (uctx_handle_remove_spec _ s1 a x1' _ id HI1 Hut ltac:(lia)) as (r & o & s2 & R2 & Eo & Ho).
    rewrite slot_of_fill, Z.eqb_refl in Eo by (done || lia). subst o. destruct Ho as (-> & _ & HI2 & Ea2 & _).
    wp_with (exact R2). cbn [default].
    destruct (handle_close_spec _ s2 (HChan server) HI2) as (s3 & R3 & HI3 & (Ea3 & _)); [by apply no_pins|].
    wp_with (exact R3). eapply drop_borrowed_port; [done|exact HI3|]. intros s4 HI4 Ea4 _.
    rewrite Ea3, Ea2 in Ea4. destruct (has_table_put s1 a x1' _ _ Hut s4 Ea4) as [Hu4 Hoth]. split; [done|].
    split; [intros b Hb; by rewrite Hoth, Ht1|]. left. split; [by eapply copy_to_user_neg|]. rewrite Hu4. by rewrite clear_fill.
Qed.

(** [server] is the connection the port has kept pending longest. *)
Definition next_pending (s : kstate) (p server : Z) : Prop :=
  exists pt rest, k_ports s !! p = Some pt /\ p_pending pt = server :: rest.

Lemma sys_accept_spec g s a x u id uaddr :
  Inv g s -> g_ov g = ∅ -> has_table s a x u -> 0 <= id -> clients_known s ->
  wp (sys_accept a id uaddr) (fun ret s' => Inv g s' /\ (forall b, b <> a -> utable s' b = utable s b) /\
    (ret < 0 /\ utable s' a = Some u \/
     exists p server client, slot_of u id = Some (HPort p) /\ next_pending s p server /\ 0 <= ret < 64 /\ slot_of u ret = None /\
       (forall i, 0 <= i < ret -> is_Some (slot_of u i)) /\ utable s' a = Some (fill_slot ret (HChan server) u) /\
       connected s' server client)) s.
Proof.
  intros HI Hov Ht Hid Hk. assert (utable s a = Some u) as Hut by (apply utable_has; eauto). destruct (uctx_table _ _ _ _ _ HI Ht) as [HT _].
  unfold sys_accept. eapply (borrowed_call g s a x u id NullDeref); try done.
  { intros r Hs Hr. apply wp_ret. split; [done|]. split; [done|]. by left. }
  intros h s1 Hs HB. pose proof HB as [HI1 (y0 & Hy0 & Es1) (y & Hy & Hr) Hl Hq1 Ea1 Ek1 Hch Hpo].
  pose proof (tables_kept_apps _ _ Ea1) as Htk1.
  destruct (ipc_port_accept_spec (g_bor1 h g) s1 h HI1 Hov) as (ret & o & s2 & R2 & F2 & Ho); [by eexists|].
  wp_with (exact R2). cbn beta iota. pose proof (tables_kept_t _ _ F2) as Htk2.
  destruct Ho as [(Hneg & -> & HI2)|(-> & p & server & uuid & -> & -> & HI2 & Hacc)].
  { destruct (Z.eqb_spec ret NO_ERROR) as [->|]; [done|]. cbn [negb].
    destruct (handle_decref_spec g s2 h HI2) as (s3 & R3 & HI3 & F3). wp_with (exact R3). apply wp_ret.
    pose proof (tables_kept_t _ _ F3) as Htk3. assert (tables_kept s s3) as Htk by (transitivity s1; [done|]; by transitivity s2).
    split; [done|]. split; [done|]. left. split; [done|]. by rewrite Htk. }
  rewrite Z.eqb_refl. cbn [negb]. wp_with (by apply deref_run). cbn beta iota.
  assert (next_pending s p server) as Hnext.
  { destruct Hacc as (pt1 & rest & _ & _ & _ & Hpt1 & _ & Hpd & _). destruct (Hpo p pt1 Hpt1) as (? & pt & Hpt & ->). by exists pt, rest. }
  destruct (accepts_connected _ _ _ _ _ Hacc) as ([client Hconn] & (sv & Hsv & Hnl) & (c0 & ch0 & Hc0 & ->)).
  assert (k_apps s2 = k_apps s) as Ea2 by (destruct F2 as (-> & _); done).
  assert (has_table s2 a x u) as Ht2 by (unfold has_table; by rewrite Ea2). pose proof (tables_kept_apps _ _ Ea2) as Htk.
  destruct (uctx_handle_install_spec _ s2 a x u (HChan server) (c_handle sv) HI2 Ht2) as (ret & new_id & s3 & R3 & Hi); [cbn; by rewrite Hsv|done|].
  wp_with (exact R3). cbn beta iota. destruct Hi as [(Hneg & -> & _)|(-> & Hid3 & Hfree & Hlow & HI3 & Ht3 & Hinst)].
  { destruct (Z.eqb_spec ret NO_ERROR) as [->|]; [done|]. cbn [negb].
    destruct (handle_close_spec _ s2 (HChan server) HI2) as (s4 & R4 & HI4 & (Ea4 & _)); [by apply no_pins|].
    wp_with (exact R4). eapply drop_borrowed_port; [done|exact HI4|]. intros s5 HI5 Ea5 _. rewrite Ea4 in Ea5.
    assert (tables_kept s s5) as Htk5 by (transitivity s2; [done|by apply tables_kept_apps]).
    split; [done|]. split; [done|]. left. split; [done|]. by rewrite Htk5. }
  rewrite Z.eqb_refl. cbn [negb]. change (wp (accept_tail a uaddr new_id (HPort p) (HChan server) (c_uuid ch0))
    (fun ret s' => Inv g s' /\ (forall b, b <> a -> utable s' b = utable s b) /\
    (ret < 0 /\ utable s' a = Some u \/
     exists p0 server client, slot_of u id = Some (HPort p0) /\ next_pending s p0 server /\ 0 <= ret < 64 /\ slot_of u ret = None /\
       (forall i, 0 <= i < ret -> is_Some (slot_of u i)) /\ utable s' a = Some (fill_slot ret (HChan server) u) /\
       connected s' server client)) s3).
  eapply wp_mono; [eapply (accept_tail_spec g s3 a _ u uaddr new_id p server client); try done|].
  - by eapply connected_installed.
  - eapply valid_uuid_installed; [done|]. destruct (Hch c0 ch0 Hc0) as (x0 & ch & Hch0 & ->). specialize (Hk c0 ch Hch0).
    cbn. destruct (c_uuid ch) as [[|b]|]; cbn in *; try done. by rewrite Ea2.
  - intros ret s4 (HI4 & Hoth & Hret). split; [done|]. split.
    { intros b Hb. rewrite Hoth by done. rewrite <- (Htk b). unfold utable. rewrite (installed_apps _ _ _ _ _ Hinst). by rewrite lookup_insert_ne. }
    destruct Hret as [[? ?]|(-> & Hu4 & Hc4)]; [by left|]. right. exists p, server, client. split_and!; try done; lia.
Qed.
