(* ===== verification/IpcWait.v ===== *)
(** * Calls that block: [sys_wait] (uctx.c) and [sys_connect] (ipc.c)

    A blocked call lets other threads run.  They are the parameter [block] of
    handle.c's model, of which only this is assumed ([block_ok]): they keep the
    invariant whatever references the blocked call holds, and take no app or
    handle table away.  The loops wait for an event of unbounded delay, so the
    theorems are about every run that does not exhaust its fuel. *)

From stdpp Require Import base tactics list gmap.
From Stdlib Require Import ZArith Lia.
From S2P Require Import Prelude Iovec MsgQueue Kernel Channel Handle Uctx Ipc IpcMsg IpcInv IpcSafe IpcCalls IpcSys IpcPort.

(** ** Runs up to fuel *)

Definition wpf {S A} (m : M S A) (Q : A -> S -> Prop) (s : S) : Prop :=
  match m s with
  | Ret a s' => Q a s'
  | Fault OutOfFuel => True
  | Fault _ => False
  end.

Lemma wpf_wp {S A} (m : M S A) (Q : A -> S -> Prop) s : wp m Q s -> wpf m Q s.
Proof. unfold wp, wpf. by destruct (m s). Qed.

Lemma wpf_bind {S A B} (m : M S A) (k : A -> M S B) Q s : wpf m (fun a s' => wpf (k a) Q s') s -> wpf (m ≫= k) Q s.
Proof. unfold wpf, mbind, M_bind. by destruct (m s) as [|[]]. Qed.

Lemma wpf_mono {S A} (m : M S A) (P Q : A -> S -> Prop) s : wpf m P s -> (forall a s', P a s' -> Q a s') -> wpf m Q s.
Proof. unfold wpf. destruct (m s) as [|[]]; eauto. Qed.

Lemma wpf_run {S A} (m : M S A) (Q : A -> S -> Prop) s a s' : m s = Ret a s' -> Q a s' -> wpf m Q s.
Proof. unfold wpf. by intros ->. Qed.

(** ** What others may do *)

Definition apps_kept (s s' : kstate) : Prop :=
  forall b, (is_Some (k_apps s !! b) -> is_Some (k_apps s' !! b)) /\ (is_Some (utable s b) -> is_Some (utable s' b)).

#[export] Instance apps_kept_refl : Reflexive apps_kept.
Proof. by intros s b. Qed.
#[export] Instance apps_kept_trans : Transitive apps_kept.
Proof. intros s1 s2 s3 H1 H2 b. destruct (H1 b), (H2 b). split; auto. Qed.

Lemma apps_kept_eq s s' : k_apps s' = k_apps s -> apps_kept s s'.
Proof. intros E b. unfold utable. by rewrite E. Qed.

(** Nobody else lists a handle that only the caller owns. *)
Definition others (g : ghost) (s s' : kstate) : Prop :=
  apps_kept s s' /\ forall h, h ∈ g_own g -> hl_of s h = None -> hl_of s' h = None.

#[export] Instance others_refl g : Reflexive (others g).
Proof. done. Qed.
#[export] Instance others_trans g : Transitive (others g).
Proof. intros s1 s2 s3 [A1 L1] [A2 L2]. split; [by transitivity s2|]. auto. Qed.

Lemma others_eq g s s' : Inv g s -> Inv g s' -> k_apps s' = k_apps s -> k_hlists s' = k_hlists s -> others g s s'.
Proof. intros HI HI' Ea El. split; [by apply apps_kept_eq|]. intros h _ <-. by eapply hl_of_lists. Qed.

Lemma others_events g s e : others g s (set_k_events e s).
Proof. split; [by apply apps_kept_eq|]. by intros []. Qed.

Definition block_ok (block : Z -> Z -> kstate -> Z * kstate) : Prop :=
  forall ev t g s ret s', g_ov g = ∅ -> Inv g s -> block ev t s = (ret, s') -> Inv g s' /\ others g s s'.

Section wait.
Context (block : Z -> Z -> kstate -> Z * kstate).
Hypothesis Hblock : block_ok block.
Context (g : ghost).
Hypothesis Hov : g_ov g = ∅.

Lemma event_wait_spec s ev t : Inv g s -> wpf (event_wait_timeout block ev t) (fun _ s' => Inv g s' /\ others g s s') s.
Proof using Hblock Hov.
intros HI. unfold event_wait_timeout. apply wpf_bind. eapply wpf_run; [reflexivity|]. destruct (bool_decide _).
- apply wpf_bind. eapply wpf_run; [reflexivity|]. eapply wpf_run; [reflexivity|]. split; [by apply Inv_events|apply others_events].
- destruct (block ev t s) as [ret s'] eqn:E. eapply wpf_run; [by rewrite E|]. by eapply Hblock.
Qed.

(** The handle the caller holds a reference to. *)
Context (h : href).
Hypothesis Hheld : h ∈ g_own g ++ g_bor g.

Lemma held_view s : Inv g s -> exists y, hview s h = Some y /\ 0 < h_refcnt y.
Proof using Hheld. intros HI. destruct (i_ext g s HI h Hheld) as [y Hy]. exists y. split; [done|]. eapply live_refcnt; eauto. Qed.

Lemma field_kept s y : Inv g s -> Inv g (set_handle h y s) -> Inv g (set_handle h y s) /\ others g s (set_handle h y s).
Proof using. intros HI HI'. split; [done|]. destruct (set_handle_rest s h y) as (Ea & El & _). by apply others_eq. Qed.

Lemma wait_loop_spec fuel ev t : forall s, Inv g s ->
wpf (handle_wait_loop block fuel ev h t) (fun _ s' => Inv g s' /\ others g s s') s.
Proof using Hblock Hov Hheld.
induction fuel as [|fuel IH]; intros s HI; cbn [handle_wait_loop]; [done|]. destruct (held_view s HI) as (y & Hy & Hr).
destruct (handle_poll_run g s h y HI Hy Hr) as [e Re]. apply wpf_bind. eapply wpf_run; [exact Re|]. destruct (negb _).
- by eapply wpf_run.
- apply wpf_bind. eapply wpf_mono; [by apply event_wait_spec|]. intros ret s1 [HI1 H1]. destruct (ret <? 0).
  + by eapply wpf_run.
  + eapply wpf_mono; [by apply IH|]. intros r s2 [? ?]. split; [done|]. by transitivity s1.
Qed.

Lemma finish_wait_spec s : Inv g s -> wp (finish_wait_handle h) (fun _ s' => Inv g s' /\ others g s s') s.
Proof using Hheld.
intros HI. destruct (held_view s HI) as (y & Hy & Hr). eapply wp_run; [by apply upd_handle_run|].
apply field_kept; [done|by eapply Inv_handle_field].
Qed.

Lemma finalize_spec s e : Inv g s -> wp (handle_finalize_event h e) (fun _ s' => Inv g s' /\ others g s s') s.
Proof using Hheld.
intros HI. destruct (held_view s HI) as (y & Hy & Hr). pose proof (live_kind g s h y HI Hy Hr) as Hk.
destruct h as [p|c]; cbn [handle_finalize_event]; [by apply wp_ret|]. destruct Hk as [Hk (ch & Hc & Hch)]. unfold chan_finalize_event.
wp_with (by apply get_chan_run). apply wp_bind, wp_assert; [by rewrite Hch|].
apply wp_when; intros _; [|done]. apply wp_bind.
assert (forall b f s0 ch0, Inv g s0 -> k_chans s0 !! c = Some ch0 ->
  wp (when b (upd_chan c (fun x => set_c_aux_state (f x) x))) (fun _ s' => Inv g s' /\ others g s0 s' /\ is_Some (k_chans s' !! c)) s0) as Hu.
{ intros b f s0 ch0 HI0 Hc0. apply wp_when; intros _; [|split_and!; try done; by eexists].
  eapply wp_run; [by apply upd_chan_run|]. assert (Inv g (put_chan c (set_c_aux_state (f ch0) ch0) s0)) by (by apply Inv_aux).
  split; [done|]. split; [by apply others_eq|]. cbn. by rewrite lookup_insert_eq. }
eapply wp_mono; [by eapply (Hu _ _ s ch)|]. intros _ s1 (HI1 & E1 & [ch1 Hc1]).
eapply wp_mono; [by eapply (Hu _ _ s1 ch1)|]. intros _ s2 (HI2 & E2 & _). split; [done|]. by transitivity s1.
Qed.

Lemma prepare_spec s ev : Inv g s -> wp (prepare_wait_handle ev h) (fun _ s' => Inv g s' /\ others g s s') s.
Proof using Hheld.
intros HI. destruct (held_view s HI) as (y & Hy & Hr). unfold prepare_wait_handle. wp_with (by apply get_handle_run).
destruct (h_wait_event y); [by apply wp_ret|]. wp_with (by apply upd_handle_run). apply wp_ret.
apply field_kept; [done|by eapply Inv_handle_field].
Qed.

Lemma handle_wait_spec fuel ev t s : Inv g s -> wpf (handle_wait block fuel ev h t) (fun _ s' => Inv g s' /\ others g s s') s.
Proof using Hblock Hov Hheld.
intros HI. unfold handle_wait. apply wpf_bind. eapply wpf_run; [reflexivity|]. set (s0 := set_k_events _ s).
assert (Inv g s0) as HI0 by (by apply Inv_events). assert (others g s s0) as K0 by apply others_events.
apply wpf_bind. apply wpf_wp. eapply wp_mono; [by apply prepare_spec|]. intros ret s1 [HI1 K1]. destruct (negb _).
{ apply wpf_bind. eapply wpf_run; [reflexivity|]. eapply wpf_run; [reflexivity|]. split; [by apply Inv_events|]. transitivity s1; [|apply others_events]. by transitivity s0. }
apply wpf_bind. eapply wpf_mono; [by apply wait_loop_spec|]. intros r s2 [HI2 K2].
assert (others g s s2) as K by (transitivity s1; [|done]; by transitivity s0). destruct r as [e|e].
- apply wpf_bind, wpf_wp. eapply wp_mono; [by apply finish_wait_spec|]. intros _ s3 [HI3 K3]. apply wpf_bind.
  eapply wpf_run; [reflexivity|]. eapply wpf_run; [reflexivity|]. split; [by apply Inv_events|]. transitivity s3; [|apply others_events]. by transitivity s2.
- apply wpf_bind, wpf_wp. eapply wp_mono; [by apply finalize_spec|]. intros _ s3 [HI3 K3].
  apply wpf_bind, wpf_wp. eapply wp_mono; [by apply finish_wait_spec|]. intros _ s4 [HI4 K4]. apply wpf_bind.
  eapply wpf_run; [reflexivity|]. eapply wpf_run; [reflexivity|]. split; [by apply Inv_events|].
  transitivity s4; [|apply others_events]. transitivity s3; [|done]. by transitivity s2.
Qed.
End wait.

(** The end of [sys_connect]: the new channel goes into the table, or is closed. *)
Definition connect_install (a : Z) (ch : href) : K Z :=
  '(ret, handle_id) ← uctx_handle_install a ch;
  if negb (ret =? NO_ERROR) then handle_close ch;; mret ret else mret handle_id.

Lemma connect_install_spec g s a x u c y :
  Inv (g_own1 (HChan c) g) s -> g_ov g = ∅ -> has_table s a x u -> hview s (HChan c) = Some y -> h_hlist y = None ->
  wp (connect_install a (HChan c)) (fun ret s' => Inv g s' /\ apps_kept s s' /\ (forall b, b <> a -> utable s' b = utable s b) /\
    (ret < 0 \/ exists u', 0 <= ret < 64 /\ utable s' a = Some u' /\ slot_of u' ret = Some (HChan c))) s.
Proof.
  intros HI Hov Ht Hy Hn. destruct (uctx_handle_install_spec g s a x u (HChan c) y HI Ht Hy Hn) as (ret & id & s3 & R3 & Hi).
  unfold connect_install. wp_with (exact R3). cbn beta iota.
  destruct Hi as [(Hneg & -> & _)|(-> & Hid & _ & _ & HI3 & Ht3 & Hinst)].
  { destruct (Z.eqb_spec ret NO_ERROR) as [->|]; [done|]. cbn [negb].
    destruct (handle_close_spec g s (HChan c) HI (no_pins g Hov)) as (s4 & R4 & HI4 & (E4 & _)). wp_with (exact R4).
    apply wp_ret. split; [done|]. split; [by apply apps_kept_eq|]. split; [|by left]. intros b _. by apply tables_kept_apps. }
  rewrite Z.eqb_refl. cbn [negb]. apply wp_ret. split; [done|]. split.
  - intros b. unfold utable. rewrite (installed_apps _ _ _ _ _ Hinst).
    destruct (decide (b = a)) as [->|]; [by rewrite lookup_insert_eq|by rewrite lookup_insert_ne].
  - split; [intros b Hb; unfold utable; rewrite (installed_apps _ _ _ _ _ Hinst); by rewrite lookup_insert_ne|].
    right. destruct (uctx_table _ _ _ _ _ HI Ht) as [HT _]. exists (fill_slot id (HChan c) u). split; [done|].
    split; [apply utable_has; eauto|]. rewrite slot_of_fill by (done || lia). by rewrite Z.eqb_refl.
Qed.

Lemma client_unlisted s s' cid path c : client_of s s' cid path c -> exists y, hview s' (HChan c) = Some y /\ h_hlist y = None.
Proof. intros (ch & Hc & _ & _ & Hl & _). exists (c_handle ch). cbn. by rewrite Hc. Qed.

(** The asynchronous variant never blocks. *)
Lemma sys_connect_async_spec block fuel ev g s a x u path flags :
  Inv g s -> g_ov g = ∅ -> has_table s a x u -> umem_ok s a -> 0 <= path < 2 ^ 32 -> has_flag flags IPC_CONNECT_ASYNC = true ->
  wp (sys_connect block fuel ev a path flags) (fun ret s' => Inv g s' /\ apps_kept s s' /\ (forall b, b <> a -> utable s' b = utable s b) /\
    (ret < 0 \/ exists u' c, 0 <= ret < 64 /\ utable s' a = Some u' /\ slot_of u' ret = Some (HChan c))) s.
Proof.
  intros HI Hov Ht Hum Hpath Hasync. pose proof Ht as [Ha Hu]. unfold sys_connect. destruct (negb _).
  { apply wp_ret. split; [done|]. split; [done|]. split; [done|]. by left. }
  destruct (strncpy_run s a x path IPC_PORT_PATH_MAX Ha Hum Hpath) as ([r tmp] & R & Hr). wp_with (exact R). cbn beta iota.
  destruct (Z.ltb_spec r 0). { apply wp_ret. split; [done|]. split; [done|]. split; [done|]. by left. }
  destruct (r >=? IPC_PORT_PATH_MAX). { apply wp_ret. split; [done|]. split; [done|]. split; [done|]. by left. }
  destruct (ipc_port_connect_async_spec g s (app_uuid a) tmp IPC_PORT_PATH_MAX flags HI Hov) as (ret & o & s1 & R1 & F1 & Ho).
  wp_with (exact R1). cbn beta iota. pose proof (apps_kept_eq _ _ (proj1 F1)) as K1.
  destruct Ho as [(Hneg & -> & HI1)|(-> & c & -> & HI1 & Hcl)].
  { destruct (Z.eqb_spec ret NO_ERROR) as [->|]; [done|]. apply wp_ret. split; [done|]. split; [done|]. split; [|by left]. intros b _. by apply tables_kept_t. }
  rewrite Z.eqb_refl. cbn [negb]. wp_with (by apply deref_run). rewrite Hasync. apply wp_bind, wp_ret.
  destruct (client_unlisted _ _ _ _ _ Hcl) as (y1 & Hy1 & Hn1). fold (connect_install a (HChan c)).
  assert (has_table s1 a x u) as Ht1 by (unfold has_table; by rewrite (proj1 F1)).
  eapply wp_mono; [by apply (connect_install_spec g s1 a x u c y1)|]. intros ret s2 (HI2 & K2 & Ho2 & Hret). split; [done|].
  split; [by transitivity s1|]. split; [intros b Hb; rewrite Ho2 by done; by apply tables_kept_t|]. destruct Hret as [?|(u' & ? & ? & ?)]; [by left|]. right. by exists u', c.
Qed.

(** ** [sys_wait] *)

Section calls.
Context (block : Z -> Z -> kstate -> Z * kstate).
Hypothesis Hblock : block_ok block.
Context (g : ghost).
Hypothesis Hov : g_ov g = ∅.

Lemma sys_wait_spec s a x u fuel ev id uaddr t : Inv g s -> has_table s a x u -> 0 <= id ->
wpf (sys_wait block fuel ev a id uaddr t) (fun ret s' => Inv g s' /\ apps_kept s s' /\ (slot_of u id = None -> ret < 0)) s.
Proof using Hblock Hov.
intros HI Ht Hid. unfold sys_wait. destruct (uctx_handle_get_spec g s a x u id HI Ht Hid) as (ret & o & s1 & R & Eo & F & Ho).
apply wpf_bind. eapply wpf_run; [exact R|]. cbn beta iota. rewrite <- Eo. destruct o as [h|].
2:{ destruct Ho as [Hneg ->]. destruct (Z.eqb_spec ret NO_ERROR) as [->|]; [done|]. by eapply wpf_run. }
destruct Ho as (-> & HI1 & _). rewrite Z.eqb_refl. cbn [negb]. apply wpf_bind. eapply wpf_run; [by apply deref_run|].
assert (apps_kept s s1) as K1 by (apply apps_kept_eq; apply F).
apply wpf_bind. eapply wpf_mono; [apply (handle_wait_spec block Hblock (g_bor1 h g)); [done|apply bor1_elem|exact HI1]|].
intros [st e] s2 [HI2 [K2 _]]. cbn beta iota. apply wpf_bind.
assert (wpf (if st <? 0 then mret st
   else cookie ← handle_get_cookie h; status ← user_write a uaddr (encode_uevent id e cookie); mret (if status =? 0 then st else status))
   (fun _ s' => Inv (g_bor1 h g) s' /\ apps_kept s2 s') s2) as Hmid.
{ destruct (st <? 0); [by eapply wpf_run|]. destruct (held_view _ h (bor1_elem h g) s2 HI2) as (y & Hy & _).
  apply wpf_bind. eapply wpf_run; [unfold handle_get_cookie; by rewrite (run_bind _ _ _ _ _ (get_handle_run _ _ _ Hy))|].
  assert (is_Some (k_apps s2 !! a)) as [x2 Hx2].
  { apply (K2 a), (K1 a). rewrite (proj1 Ht). by eexists. }
  apply wpf_bind, wpf_wp. eapply wp_mono; [by apply (user_write_spec (g_bor1 h g))|].
  intros st' s3 (HI3 & Htk & _ & _ & _ & Hoth & x3 & Hx3 & _). eapply wpf_run; [done|]. split; [done|]. intros b. rewrite (Htk b). split; [|done].
  destruct (decide (b = a)) as [->|]; [by rewrite Hx3|by rewrite Hoth]. }
eapply wpf_mono; [exact Hmid|]. intros r s3 [HI3 K3]. destruct (handle_decref_spec g s3 h HI3) as (s4 & R4 & HI4 & F4).
apply wpf_bind. eapply wpf_run; [exact R4|]. eapply wpf_run; [reflexivity|]. split; [done|]. split; [|done].
transitivity s1; [done|]. transitivity s2; [done|]. transitivity s3; [done|]. apply apps_kept_eq, F4.
Qed.

(** ** [sys_connect] *)

(** The wait for the connection, and what it decides. *)
Definition connect_wait (fuel : nat) (ev flags : Z) (ch : href) : K (option Z) :=
if has_flag flags IPC_CONNECT_ASYNC then mret None
else
  r ← handle_wait block fuel ev ch DEFAULT_IPC_CONNECT_WARN_TIMEOUT;
  '(ret, event) ← (if r.1 =? ERR_TIMED_OUT then handle_wait block fuel ev ch INFINITE_TIME else mret r);
  mret (if ret <? 0 then Some ret
        else if has_flag event IPC_HANDLE_POLL_HUP && negb (has_flag event IPC_HANDLE_POLL_MSG) then Some ERR_CHANNEL_CLOSED
        else if negb (has_flag event IPC_HANDLE_POLL_READY) then Some ERR_NOT_READY
        else None).

Lemma connect_wait_spec s fuel ev flags c : Inv (g_own1 (HChan c) g) s ->
wpf (connect_wait fuel ev flags (HChan c)) (fun r s' => Inv (g_own1 (HChan c) g) s' /\ others (g_own1 (HChan c) g) s s' /\
  (forall e, r = Some e -> e < 0) /\ (has_flag flags IPC_CONNECT_ASYNC = true -> s' = s)) s.
Proof using Hblock Hov.
intros HI. unfold connect_wait. destruct (has_flag flags IPC_CONNECT_ASYNC); [by eapply wpf_run|].
pose proof (own1_elem (HChan c) g) as Hin. assert (g_ov (g_own1 (HChan c) g) = ∅) as Hov1 by done.
apply wpf_bind. eapply wpf_mono; [by apply (handle_wait_spec block Hblock _ Hov1 _ Hin)|]. intros r s1 [HI1 K1].
apply wpf_bind. assert (wpf (if r.1 =? ERR_TIMED_OUT then handle_wait block fuel ev (HChan c) INFINITE_TIME else mret r)
  (fun _ s' => Inv (g_own1 (HChan c) g) s' /\ others (g_own1 (HChan c) g) s1 s') s1) as H2.
{ destruct (_ =? _); [by apply (handle_wait_spec block Hblock _ Hov1 _ Hin)|by eapply wpf_run]. }
eapply wpf_mono; [exact H2|]. intros [ret e] s2 [HI2 K2]. eapply wpf_run; [reflexivity|]. split; [done|]. split; [by transitivity s1|]. split; [|done].
intros e' E. destruct (Z.ltb_spec ret 0); [by simplify_eq|]. destruct (_ && _); [by simplify_eq|]. by destruct (negb _); simplify_eq.
Qed.

Lemma sys_connect_spec s a x u fuel ev path flags :
Inv g s -> has_table s a x u -> umem_ok s a -> 0 <= path < 2 ^ 32 ->
wpf (sys_connect block fuel ev a path flags) (fun ret s' => Inv g s' /\ apps_kept s s' /\
  (ret < 0 \/ exists u' c, 0 <= ret < 64 /\ utable s' a = Some u' /\ slot_of u' ret = Some (HChan c))) s.
Proof using Hblock Hov.
intros HI Ht Hum Hpath. pose proof Ht as [Ha Hu]. unfold sys_connect. destruct (negb _).
{ eapply wpf_run; [reflexivity|]. split; [done|]. split; [done|]. by left. }
destruct (strncpy_run s a x path IPC_PORT_PATH_MAX Ha Hum Hpath) as ([r tmp] & R & Hr). apply wpf_bind. eapply wpf_run; [exact R|]. cbn beta iota.
destruct (Z.ltb_spec r 0). { eapply wpf_run; [reflexivity|]. split; [done|]. split; [done|]. by left. }
destruct (r >=? IPC_PORT_PATH_MAX). { eapply wpf_run; [reflexivity|]. split; [done|]. split; [done|]. by left. }
destruct (ipc_port_connect_async_spec g s (app_uuid a) tmp IPC_PORT_PATH_MAX flags HI Hov) as (ret & o & s1 & R1 & F1 & Ho).
apply wpf_bind. eapply wpf_run; [exact R1|]. cbn beta iota. pose proof (apps_kept_eq _ _ (proj1 F1)) as K1.
destruct Ho as [(Hneg & -> & HI1)|(-> & c & -> & HI1 & Hcl)].
{ destruct (Z.eqb_spec ret NO_ERROR) as [->|]; [done|]. eapply wpf_run; [reflexivity|]. split; [done|]. split; [done|]. by left. }
rewrite Z.eqb_refl. cbn [negb]. apply wpf_bind. eapply wpf_run; [by apply deref_run|]. apply wpf_bind.
fold (connect_wait fuel ev flags (HChan c)). eapply wpf_mono; [by apply connect_wait_spec|]. intros fail s2 (HI2 & [K2 L2] & Hf & _).
destruct fail as [e|].
{ destruct (handle_close_spec g s2 (HChan c) HI2 (no_pins g Hov)) as (s3 & R3 & HI3 & (E3 & _)). apply wpf_bind. eapply wpf_run; [exact R3|].
  eapply wpf_run; [reflexivity|]. split; [done|]. split; [|left; auto]. transitivity s1; [done|]. transitivity s2; [done|]. by apply apps_kept_eq. }
destruct (proj2 (K2 a)) as [u2 Hu2]; [apply K1; unfold utable; rewrite Ha; cbn; by rewrite Hu|]. apply utable_has in Hu2 as [x2 Ht2].
destruct (i_ext _ s2 HI2 _ (own1_elem (HChan c) g)) as [y Hy]. destruct (client_unlisted _ _ _ _ _ Hcl) as (y1 & Hy1 & Hn1).
assert (h_hlist y = None) as Hn.
{ assert (hl_of s2 (HChan c) = None) as E; [|unfold hl_of in E; by rewrite Hy in E]. apply L2; [by left|]. unfold hl_of. by rewrite Hy1. }
fold (connect_install a (HChan c)). apply wpf_wp. eapply wp_mono; [by apply (connect_install_spec g s2 a x2 u2 c y)|].
intros ret s3 (HI3 & K3 & _ & Hret). split; [done|]. split; [transitivity s1; [done|]; by transitivity s2|].
destruct Hret as [?|(u' & ? & ? & ?)]; [by left|]. right. by exists u', c.
Qed.
End calls.
