(* ===== verification/IpcEnv.v ===== *)
(** * What the calls never change: identities and address spaces

    No routine adds or removes an app, maps or unmaps user memory, or changes
    whose a channel or port is.  [pres E m R]: the routine [m] keeps the state
    predicate [E], and its result satisfies [R].  A predicate that survives the
    primitive updates ([Keeper]) is kept by all routines that only use those;
    each is checked once, the automation walks its code.  The instance here is
    [Env]; another serves the clients of the kernel interface. *)

From stdpp Require Import base tactics list gmap.
From Stdlib Require Import ZArith Lia.
From S2P Require Import Prelude Iovec MsgQueue Kernel Channel Handle Uctx Ipc IpcMsg.

(** ** Rules *)

Section pres.
Context (E : kstate -> Prop).

Definition pres {A} (m : K A) (R : A -> Prop) : Prop :=
forall s a s', E s -> m s = Ret a s' -> E s' /\ R a.

Lemma pres_ret {A} (a : A) (R : A -> Prop) : R a -> pres (mret a) R.
Proof. intros HR s b s' HE [= <- <-]. done. Qed.

Lemma pres_bind {A B} (m : K A) (k : A -> K B) R R' : pres m R -> (forall a, R a -> pres (k a) R') -> pres (m ≫= k) R'.
Proof.
intros Hm Hk s b s' HE. unfold mbind, M_bind. destruct (m s) as [a s1|] eqn:Em; [|done].
destruct (Hm s a s1 HE Em) as [HE1 HR]. by apply Hk.
Qed.

Lemma pres_mono {A} (m : K A) (R R' : A -> Prop) : pres m R -> (forall a, R a -> R' a) -> pres m R'.
Proof. intros Hm HR s a s' HE Em. destruct (Hm s a s' HE Em). auto. Qed.

Lemma pres_raise {A} f (R : A -> Prop) : pres (raise f) R.
Proof. done. Qed.

Lemma pres_fmap {A B} (f : A -> B) (m : K A) R : pres m (fun a => R (f a)) -> pres (f <$> m) R.
Proof. intros Hm s b s' HE. unfold fmap, M_fmap. destruct (m s) as [a s1|] eqn:Em; [|done]. intros [= <- <-]. by apply (Hm s a). Qed.

Lemma pres_assert b : pres (assert_ b) (fun _ => True).
Proof. unfold assert_. destruct b; [by apply pres_ret|apply pres_raise]. Qed.

Lemma pres_deref {A} f (o : option A) (R : A -> Prop) : (forall a, o = Some a -> R a) -> pres (deref f o) R.
Proof. intros HR. destruct o; [by apply pres_ret, HR|apply pres_raise]. Qed.

Lemma pres_get : pres get (E).
Proof. intros s a s' HE [= <- <-]. done. Qed.

Lemma pres_gets {A} (f : kstate -> A) : pres (gets f) (fun _ => True).
Proof. intros s a s' HE [= <- <-]. done. Qed.

Lemma pres_modify f : (forall s, E s -> E (f s)) -> pres (modify f) (fun _ => True).
Proof. intros Hf s a s' HE [= <- <-]. auto. Qed.

Lemma pres_when b (m : K unit) : pres m (fun _ => True) -> pres (when b m) (fun _ => True).
Proof. intros Hm. destruct b; [done|by apply pres_ret]. Qed.

Lemma pres_mfor {A} (f : A -> K unit) l : (forall x, pres (f x) (fun _ => True)) -> pres (mfor f l) (fun _ => True).
Proof. intros Hf. induction l as [|x l IH]; cbn; [by apply pres_ret|]. eapply pres_bind; [apply Hf|done]. Qed.

Lemma pres_upd_hlist l f : (forall s x, k_hlists s !! l = Some x -> E s -> E (put_hlist l (f x) s)) -> pres (upd_hlist l f) (fun _ => True).
Proof.
intros Hf s [] s' HE. unfold upd_hlist, get_hlist, mbind, M_bind, get, deref, modify. destruct (k_hlists s !! l) as [x|] eqn:Hx; [|done].
cbn. intros [= <-]. split; [by apply Hf|done].
Qed.

Lemma pres_weaken {A} (m : K A) R : pres m R -> pres m (fun _ => True).
Proof. intros H. by eapply pres_mono. Qed.
End pres.

Create HintDb pres.
#[export] Hint Resolve pres_ret pres_raise pres_assert pres_gets : pres.

(** ** Predicates that survive the primitive updates *)

Definition chan_like (f : chan -> chan) : Prop :=
  forall ch, c_uuid (f ch) = c_uuid ch /\ c_flags (f ch) = c_flags ch /\ h_cookie (c_handle (f ch)) = h_cookie (c_handle ch).

Definition any_list (l : Z) : Prop := True.
Lemma any_list_ok l : any_list l.
Proof. done. Qed.
#[export] Hint Resolve any_list_ok : pres.

(** [L]: the handle lists a routine may change. *)
Class Keeper (L : Z -> Prop) (E : kstate -> Prop) : Prop := {
  kp_chan : forall c f, chan_like f -> pres E (upd_chan c f) (fun _ => True);
  kp_port : forall p f, (forall pt, p_uuid (f pt) = p_uuid pt) -> pres E (upd_port p f) (fun _ => True);
  kp_same : forall s s', k_apps s' = k_apps s -> k_chans s' = k_chans s -> k_ports s' = k_ports s -> k_hlists s' = k_hlists s ->
    k_next s' = k_next s -> E s -> E s';
  kp_hlist : forall l f, L l -> pres E (upd_hlist l f) (fun _ => True);
  kp_del_chan : forall s c, E s -> E (set_k_chans (delete c (k_chans s)) s);
  kp_del_port : forall s p, E s -> E (set_k_ports (delete p (k_ports s)) s);
}.

Section kept_prims.
Context (L : Z -> Prop) (E : kstate -> Prop) `{!Keeper L E}.
Local Abbreviation keeps m := (pres E m (fun _ => True)).

Lemma keep_get : keeps get.
Proof. by intros s a s' HE [= <- <-]. Qed.

Lemma keep_get_chan c : keeps (get_chan c).
Proof. eapply pres_bind; [apply keep_get|]. intros s _. by apply pres_deref. Qed.
Lemma keep_get_port p : keeps (get_port p).
Proof. eapply pres_bind; [apply keep_get|]. intros s _. by apply pres_deref. Qed.
Lemma keep_get_hlist l : keeps (get_hlist l).
Proof. eapply pres_bind; [apply keep_get|]. intros s _. by apply pres_deref. Qed.
Lemma keep_get_handle h : keeps (get_handle h).
Proof. destruct h; (eapply pres_bind; [apply keep_get_port || apply keep_get_chan|]); intros; by apply pres_ret. Qed.

Lemma keep_modify f :
  (forall s, k_apps (f s) = k_apps s /\ k_chans (f s) = k_chans s /\ k_ports (f s) = k_ports s /\ k_hlists (f s) = k_hlists s /\
     k_next (f s) = k_next s) ->
  keeps (modify f).
Proof. intros Hf. apply pres_modify. intros s HE. destruct (Hf s) as (? & ? & ? & ? & ?). by eapply kp_same. Qed.

Lemma keep_upd_handle h f : (forall x, h_cookie (f x) = h_cookie x) -> keeps (upd_handle h f).
Proof. intros Hf. destruct h; [by apply kp_port|apply kp_chan]. intros ch. by cbn. Qed.

Lemma keep_kmalloc : keeps kmalloc.
Proof.
eapply pres_bind; [apply keep_get|]. intros s _. destruct (k_allocs s); [by apply pres_ret|].
eapply pres_bind; [by apply keep_modify|]. intros; by apply pres_ret.
Qed.

Lemma keep_event_signal ev : keeps (event_signal ev).
Proof. by apply keep_modify. Qed.
End kept_prims.

#[export] Hint Resolve keep_get keep_get_chan keep_get_port keep_get_hlist keep_get_handle kp_hlist keep_kmalloc keep_event_signal | 10 : pres.
#[export] Hint Extern 3 (pres _ (upd_chan _ _) _) => eapply kp_chan; solve [apply _ | done] : pres.
#[export] Hint Extern 3 (pres _ (upd_port _ _) _) => eapply kp_port; solve [apply _ | done] : pres.
#[export] Hint Extern 3 (pres _ (upd_handle _ _) _) => eapply keep_upd_handle; solve [apply _ | done] : pres.
#[export] Hint Extern 3 (pres _ (modify _) _) => eapply keep_modify; solve [apply _ | done] : pres.
#[export] Hint Extern 2 (pres _ (deref _ _) (fun _ => True)) => apply pres_deref; done : pres.

(** Walk through a routine: known parts by the hints, branches by cases. *)
Ltac pres_auto :=
  match goal with
  | |- pres _ (mret _) _ => apply pres_ret; done
  | |- pres _ (raise _) _ => apply pres_raise
  | |- pres _ (deref _ _) _ => apply pres_deref; done
  | |- pres _ (match ?x with _ => _ end) _ => destruct x; pres_auto
  | |- pres _ (when _ _) _ => apply pres_when; pres_auto
  | |- pres _ (mfor _ _) _ => apply pres_mfor; intros; pres_auto
  | |- pres _ (_ <$> _) _ => apply pres_fmap; pres_auto
  | |- pres _ (_ ≫= _) _ =>
      first [ eapply pres_bind; [solve [eauto with pres nocore]|]; cbn beta; intros; destruct_and?; pres_auto
            | eapply (pres_bind _ _ _ (fun _ => True)); [solve [pres_auto]|]; cbn beta; intros; pres_auto ]
  | |- pres _ _ _ => solve [eauto with pres nocore | eapply pres_weaken; eauto with pres nocore]
  end.

(** ** The routines *)

Section kept_routines.
Context (L : Z -> Prop) (E : kstate -> Prop) `{!Keeper L E}.
Local Abbreviation keeps m := (pres E m (fun _ => True)).

Lemma pres_chan_destroy c : keeps (chan_destroy_refobj c).
Proof. unfold chan_destroy_refobj. do 3 (eapply pres_bind; [eauto with pres|]; intros). apply pres_modify. intros. by apply kp_del_chan. Qed.
Hint Resolve pres_chan_destroy : pres.

Lemma pres_chan_add_ref c r : keeps (chan_add_ref c r).
Proof. unfold chan_add_ref. pres_auto. Qed.
Lemma pres_chan_del_ref c r : keeps (chan_del_ref c r).
Proof. unfold chan_del_ref. pres_auto. Qed.
Hint Resolve pres_chan_add_ref pres_chan_del_ref : pres.

Lemma pres_chan_node_delete c : keeps (chan_node_delete c).
Proof. unfold chan_node_delete. pres_auto. Qed.
Hint Resolve pres_chan_node_delete : pres.

Lemma pres_handle_incref h : keeps (handle_incref h).
Proof. unfold handle_incref. pres_auto. Qed.
Lemma pres_handle_get_cookie h : keeps (handle_get_cookie h).
Proof. unfold handle_get_cookie. pres_auto. Qed.
Lemma pres_prepare_wait ev h : keeps (prepare_wait_handle ev h).
Proof. unfold prepare_wait_handle. pres_auto. Qed.
Lemma pres_finish_wait h : keeps (finish_wait_handle h).
Proof. unfold finish_wait_handle. pres_auto. Qed.
Lemma pres_handle_notify h : keeps (handle_notify h).
Proof. unfold handle_notify. pres_auto. Qed.
Hint Resolve pres_handle_incref pres_handle_get_cookie pres_prepare_wait
pres_finish_wait pres_handle_notify : pres.

Lemma pres_chan_shutdown1 c : keeps (chan_shutdown_locked1 c).
Proof. unfold chan_shutdown_locked1. pres_auto. Qed.
Hint Resolve pres_chan_shutdown1 : pres.
Lemma pres_chan_shutdown_locked c : keeps (chan_shutdown_locked c).
Proof. unfold chan_shutdown_locked. pres_auto. Qed.
Hint Resolve pres_chan_shutdown_locked : pres.
Lemma pres_chan_shutdown c : keeps (chan_shutdown c).
Proof. unfold chan_shutdown. pres_auto. Qed.
Lemma pres_chan_handle_destroy c : keeps (chan_handle_destroy c).
Proof. unfold chan_handle_destroy. pres_auto. Qed.
Lemma pres_port_handle_destroy p : keeps (port_handle_destroy p).
Proof. unfold port_handle_destroy. do 4 (eapply pres_bind; [eauto with pres|]; intros). apply pres_modify. intros. by apply kp_del_port. Qed.
Hint Resolve pres_chan_shutdown pres_chan_handle_destroy pres_port_handle_destroy : pres.

Lemma pres_handle_destroy h : keeps (handle_destroy h).
Proof. unfold handle_destroy. pres_auto. Qed.
Hint Resolve pres_handle_destroy : pres.
Lemma pres_handle_decref h : keeps (handle_decref h).
Proof. unfold handle_decref. pres_auto. Qed.
Hint Resolve pres_handle_decref : pres.
Lemma pres_port_drop_pending p c : keeps (port_drop_pending p c).
Proof. unfold port_drop_pending. pres_auto. Qed.
Hint Resolve pres_port_drop_pending : pres.
Lemma pres_port_shutdown p : keeps (port_shutdown p).
Proof. unfold port_shutdown. pres_auto. Qed.
Hint Resolve pres_port_shutdown : pres.
Lemma pres_handle_shutdown h : keeps (handle_shutdown h).
Proof. unfold handle_shutdown. pres_auto. Qed.
Hint Resolve pres_handle_shutdown : pres.
Lemma pres_handle_close h : keeps (handle_close h).
Proof. unfold handle_close. pres_auto. Qed.
Lemma pres_port_poll p : keeps (port_poll p).
Proof. unfold port_poll. pres_auto. Qed.
Lemma pres_chan_poll c : keeps (chan_poll c).
Proof. unfold chan_poll. pres_auto. Qed.
Hint Resolve pres_handle_close pres_port_poll pres_chan_poll : pres.
Lemma pres_handle_poll h : keeps (handle_poll h).
Proof. unfold handle_poll. pres_auto. Qed.
Hint Resolve pres_handle_poll : pres.

Lemma pres_handle_list_add l h : L l -> keeps (handle_list_add l h).
Proof. intros Hl. unfold handle_list_add. pres_auto. Qed.
Hint Resolve pres_handle_list_add : pres.
Lemma pres_handle_list_del l h : L l -> keeps (handle_list_del l h).
Proof. intros Hl. unfold handle_list_del, handle_list_del_locked. pres_auto. Qed.
Hint Resolve pres_handle_list_del : pres.
Lemma pres_msg_queue_create n sz : keeps (ipc_msg_queue_create n sz).
Proof. unfold ipc_msg_queue_create. pres_auto. Qed.
Hint Resolve pres_msg_queue_create : pres.
Lemma pres_port_find_loop path l : keeps (port_find_loop path l).
Proof. induction l as [|p l IH]; cbn; [by apply pres_ret|]. eapply pres_bind; [eauto with pres|]. intros pt _. destruct (bool_decide _); [by apply pres_ret|done]. Qed.
Hint Resolve pres_port_find_loop : pres.
Lemma pres_port_find path : keeps (port_find_locked path).
Proof. unfold port_find_locked. pres_auto. Qed.
Hint Resolve pres_port_find : pres.
Lemma pres_port_link p c sv : keeps (port_link_client p c sv).
Proof. unfold port_link_client. pres_auto. Qed.
Hint Resolve pres_port_link : pres.
Lemma pres_check_channel h : keeps (check_channel_locked h).
Proof. unfold check_channel_locked. pres_auto. Qed.
Hint Resolve pres_check_channel : pres.
Lemma pres_chan_of h : keeps (chan_of h).
Proof. unfold chan_of. pres_auto. Qed.
Hint Resolve pres_chan_of : pres.
Lemma pres_check_connected h : keeps (check_channel_connected_locked h).
Proof. unfold check_channel_connected_locked. pres_auto. Qed.
Hint Resolve pres_check_connected : pres.
Lemma pres_get_queue c : keeps (get_queue c).
Proof. unfold get_queue. pres_auto. Qed.
Hint Resolve pres_get_queue : pres.
Lemma pres_put_queue c q : keeps (put_queue c q).
Proof. unfold put_queue. pres_auto. Qed.
Hint Resolve pres_put_queue : pres.
Lemma pres_msg_get_filled c : keeps (msg_get_filled_locked c).
Proof. unfold msg_get_filled_locked. pres_auto. Qed.
Hint Resolve pres_msg_get_filled : pres.
Lemma pres_msg_put_read c id : keeps (msg_put_read_locked c id).
Proof. unfold msg_put_read_locked. pres_auto. Qed.
Hint Resolve pres_msg_put_read : pres.
Lemma pres_put_msg h id : keeps (ipc_put_msg h id).
Proof. unfold ipc_put_msg. pres_auto. Qed.
Hint Resolve pres_put_msg : pres.
End kept_routines.

#[export] Hint Resolve pres_chan_destroy pres_chan_add_ref pres_chan_del_ref pres_chan_node_delete pres_handle_incref pres_handle_get_cookie pres_prepare_wait pres_finish_wait pres_handle_notify pres_chan_shutdown1 pres_chan_shutdown_locked pres_chan_shutdown pres_chan_handle_destroy pres_port_handle_destroy pres_handle_destroy pres_handle_decref pres_port_drop_pending pres_port_shutdown pres_handle_shutdown pres_handle_close pres_port_poll pres_chan_poll pres_handle_poll pres_handle_list_add pres_handle_list_del pres_msg_queue_create pres_port_find_loop pres_port_find pres_port_link pres_check_channel pres_chan_of pres_check_connected pres_get_queue pres_put_queue pres_msg_get_filled pres_msg_put_read pres_put_msg : pres.

(** ** Apps and identities *)

(** The identity belongs to the non-secure world or to one of the apps [D]. *)
Definition known (D : gset Z) (o : option uuid_ptr) : Prop :=
  match o with
  | None => False
  | Some zero_uuid => True
  | Some (app_uuid b) => b ∈ D
  end.

(** Apps [D], each with user memory that leaves a hole in its address space. *)
Record Env (D : gset Z) (s : kstate) : Prop := {
  en_dom : dom (k_apps s) = D;
  en_mem : forall a x, k_apps s !! a = Some x -> Z.of_nat (size (a_umem x)) < 2 ^ 32;
  en_chan : forall c ch, k_chans s !! c = Some ch -> known D (c_uuid ch);
  en_port : forall p pt, k_ports s !! p = Some pt -> known D (Some (p_uuid pt));
}.

(** ** Memory keeps its domain *)

Lemma mem_write_size m a bs ok m' : mem_write m a bs = (ok, m') -> size m' = size m.
Proof.
  revert m a. induction bs as [|b bs IH]; intros m a; cbn; intros E; [by simplify_eq|].
  destruct (m !! a) eqn:Ea; [|by simplify_eq]. rewrite (IH _ _ E). by rewrite map_size_insert_Some by eauto.
Qed.

Lemma copy_to_user_size um a bs r um' : copy_to_user um a bs = (r, um') -> size um' = size um.
Proof. unfold copy_to_user. destruct (mem_write um a bs) as [ok m] eqn:E. intros [= _ <-]. by eapply mem_write_size. Qed.

Lemma membuf_to_user_loop_size um ua i n buf len c r um' :
  membuf_to_user_loop um ua i n buf len c = (r, um') -> size um' = size um.
Proof.
  revert um i buf len c. induction n as [|n IH]; intros um i buf len c; cbn [membuf_to_user_loop]; [by intros [= _ <-]|].
  destruct (copy_from_user _ _ _) as [st raw]. destruct (negb _); [by intros [= _ <-]|].
  destruct (copy_to_user um _ _) as [st' um1] eqn:E. apply copy_to_user_size in E. destruct (negb _); [by intros [= _ <-]|].
  destruct (_ =? _); [by intros [= _ <-]|]. intros H. rewrite <- E. by eapply IH.
Qed.

Lemma msg_read_size ms q id off msg r ms' :
  msg_read ms q id off msg = Some (r, ms') -> size (m_user ms') = size (m_user ms).
Proof.
  unfold msg_read. destruct (msg_queue_get_item q id) as [[i it]|]; [|by intros [= _ <-]].
  destruct (negb _); [by intros [= _ <-]|]. destruct (negb _); [by intros [= _ <-]|]. destruct (_ >? _); [by intros [= _ <-]|].
  unfold msg_scatter. destruct msg as [iov n h|iov n h]; (destruct (negb _); [by intros [= _ <-]|]).
  - destruct (membuf_to_kern_iovec _ _ _ _ _) as [[? ?]|]; cbn; [|done]. by intros [= _ <-].
  - unfold membuf_to_user_iovec. destruct (_ || _); [by intros [= _ <-]|].
    destruct (membuf_to_user_loop _ _ _ _ _ _ _) as [r' um'] eqn:E. intros [= _ <-]. cbn. by eapply membuf_to_user_loop_size.
Qed.

Section env.
Context (D : gset Z).

Lemma env_same s s' : k_apps s' = k_apps s -> k_chans s' = k_chans s -> k_ports s' = k_ports s -> Env D s -> Env D s'.
Proof. intros Ea Ec Ep [E1 E2 E3 E4]. by split; rewrite ?Ea, ?Ec, ?Ep. Qed.

Lemma env_put_chan s c ch : known D (c_uuid ch) -> Env D s -> Env D (put_chan c ch s).
Proof.
intros Hk [E1 E2 E3 E4]. split; try done. cbn. intros c' ch'. destruct (decide (c' = c)) as [->|].
- rewrite lookup_insert_eq. by intros [= <-].
- rewrite lookup_insert_ne by done. apply E3.
Qed.

Lemma env_put_port s p pt : known D (Some (p_uuid pt)) -> Env D s -> Env D (put_port p pt s).
Proof.
intros Hk [E1 E2 E3 E4]. split; try done. cbn. intros c' ch'. destruct (decide (c' = p)) as [->|].
- rewrite lookup_insert_eq. by intros [= <-].
- rewrite lookup_insert_ne by done. apply E4.
Qed.

Lemma env_del_chan s c : Env D s -> Env D (set_k_chans (delete c (k_chans s)) s).
Proof. intros [E1 E2 E3 E4]. split; try done. cbn. intros c' ch' [_ H]%lookup_delete_Some. by eapply E3. Qed.

Lemma env_del_port s p : Env D s -> Env D (set_k_ports (delete p (k_ports s)) s).
Proof. intros [E1 E2 E3 E4]. split; try done. cbn. intros c' ch' [_ H]%lookup_delete_Some. by eapply E4. Qed.

Lemma env_put_app s a x : a ∈ D -> Z.of_nat (size (a_umem x)) < 2 ^ 32 -> Env D s -> Env D (put_app a x s).
Proof.
intros Ha Hx [E1 E2 E3 E4]. split; try done; cbn; [rewrite dom_insert_L; set_solver|]. intros b y. destruct (decide (b = a)) as [->|].
- rewrite lookup_insert_eq. by intros [= <-].
- rewrite lookup_insert_ne by done. apply E2.
Qed.
End env.

(** ** The primitives *)

Section prims.
Context (D : gset Z).
Local Abbreviation any := (fun _ => True).

Lemma pres_get_chan c : pres (Env D) (get_chan c) (fun ch => known D (c_uuid ch)).
Proof. eapply pres_bind; [apply pres_get|]. intros s HE. apply pres_deref. intros ch Hc. by eapply en_chan. Qed.

Lemma pres_get_port p : pres (Env D) (get_port p) (fun pt => known D (Some (p_uuid pt))).
Proof. eapply pres_bind; [apply pres_get|]. intros s HE. apply pres_deref. intros pt Hp. by eapply en_port. Qed.

Lemma pres_get_app a : pres (Env D) (get_app a) (fun x => a ∈ D /\ Z.of_nat (size (a_umem x)) < 2 ^ 32).
Proof.
eapply pres_bind; [apply pres_get|]. intros s HE. apply pres_deref. intros x Hx. split; [|by eapply en_mem].
rewrite <- (en_dom D s HE). by apply elem_of_dom_2 in Hx.
Qed.

Lemma pres_get_uctx a : pres (Env D) (get_uctx a) (fun _ => a ∈ D).
Proof. eapply pres_bind; [apply pres_get_app|]. intros x [? ?]. by apply pres_deref. Qed.

Lemma pres_upd_chan c f : (forall ch, c_uuid (f ch) = c_uuid ch) -> pres (Env D) (upd_chan c f) any.
Proof. intros Hf. eapply pres_bind; [apply pres_get_chan|]. intros ch Hk. apply pres_modify. intros s. apply env_put_chan. by rewrite Hf. Qed.

Lemma pres_upd_port p f : (forall pt, p_uuid (f pt) = p_uuid pt) -> pres (Env D) (upd_port p f) any.
Proof. intros Hf. eapply pres_bind; [apply pres_get_port|]. intros pt Hk. apply pres_modify. intros s. apply env_put_port. by rewrite Hf. Qed.

Lemma pres_upd_app a f : (forall x, Z.of_nat (size (a_umem x)) < 2 ^ 32 -> Z.of_nat (size (a_umem (f x))) < 2 ^ 32) -> pres (Env D) (upd_app a f) any.
Proof. intros Hf. eapply pres_bind; [apply pres_get_app|]. intros x [Ha Hx]. apply pres_modify. intros s. apply env_put_app; auto. Qed.

Lemma pres_upd_uctx a f : pres (Env D) (upd_uctx a f) any.
Proof. eapply pres_bind; [apply pres_get_uctx|]. intros u Ha. by apply pres_upd_app. Qed.

Lemma pres_upd_handle h f : pres (Env D) (upd_handle h f) any.
Proof. destruct h; [by apply pres_upd_port|by apply pres_upd_chan]. Qed.

Lemma pres_fresh_addr : pres (Env D) fresh_addr any.
Proof. eapply pres_bind; [apply pres_get|]. intros s HE. eapply pres_bind; [apply pres_modify; intros s'; by apply env_same|]. intros; by apply pres_ret. Qed.

#[export] Instance env_keeper : Keeper any_list (Env D).
Proof.
split.
- intros c f Hf. apply pres_upd_chan. intros ch. apply Hf.
- apply pres_upd_port.
- intros s s' ? ? ? _ _. by apply env_same.
- intros l f _. apply pres_upd_hlist. intros s x _. by apply env_same.
- intros s c. apply env_del_chan.
- intros s p. apply env_del_port.
Qed.
End prims.

#[export] Hint Resolve env_keeper : pres.
#[export] Hint Resolve pres_get_chan pres_get_port pres_get_app pres_get_uctx pres_upd_uctx pres_upd_handle pres_fresh_addr : pres.
#[export] Hint Extern 2 (pres (Env _) (upd_chan _ _) _) => apply pres_upd_chan; done : pres.
#[export] Hint Extern 2 (pres (Env _) (upd_port _ _) _) => apply pres_upd_port; done : pres.
#[export] Hint Extern 2 (pres (Env _) (upd_app _ _) _) => apply pres_upd_app; cbn; by auto : pres.

(** ** The other routines *)

Section routines.
Context (D : gset Z).
Local Abbreviation keeps m := (pres (Env D) m (fun _ => True)).

Lemma pres_handle_init h o : keeps (handle_init h o).
Proof. unfold handle_init. pres_auto. Qed.
Lemma pres_handle_set_cookie h c : keeps (handle_set_cookie h c).
Proof. unfold handle_set_cookie. pres_auto. Qed.
Hint Resolve pres_handle_init pres_handle_set_cookie : pres.
Lemma pres_chan_handle_init c : keeps (chan_handle_init c).
Proof. unfold chan_handle_init. pres_auto. Qed.
Lemma pres_chan_alloc fl u r : known D u -> keeps (chan_alloc fl u r).
Proof.
intros Hu. unfold chan_alloc. eapply pres_bind; [eauto with pres|]. intros [] _; [|by apply pres_ret].
eapply pres_bind; [eauto with pres|]. intros c _.
eapply pres_bind; [apply pres_modify; intros s; by apply env_put_chan|]. intros _ _. pres_auto.
Qed.
Hint Resolve pres_chan_handle_init pres_chan_alloc : pres.

(** *** Tables *)

Lemma pres_check_handle_id u id : keeps (check_handle_id u id).
Proof. unfold check_handle_id. pres_auto. Qed.
Hint Resolve pres_check_handle_id : pres.
Lemma pres_uctx_handle_install a h : keeps (uctx_handle_install a h).
Proof. unfold uctx_handle_install. pres_auto. Qed.
Lemma pres_uctx_handle_get a id : keeps (uctx_handle_get a id).
Proof. unfold uctx_handle_get. pres_auto. Qed.
Lemma pres_uctx_handle_remove a id : keeps (uctx_handle_remove a id).
Proof. unfold uctx_handle_remove. pres_auto. Qed.
Hint Resolve pres_uctx_handle_install pres_uctx_handle_get pres_uctx_handle_remove : pres.

(** *** User memory *)

Lemma pres_user_write a addr bs : keeps (user_write a addr bs).
Proof.
unfold user_write. eapply pres_bind; [apply pres_get_app|]. intros x [Ha Hx]. destruct (copy_to_user (a_umem x) addr bs) as [r um] eqn:E.
apply copy_to_user_size in E. eapply pres_bind; [apply pres_upd_app; intros; cbn; lia|]. intros; by apply pres_ret.
Qed.
Lemma pres_user_read a addr n : keeps (user_read a addr n).
Proof. unfold user_read. pres_auto. Qed.
Lemma pres_strncpy a u n : pres (Env D) (strncpy_from_user a u n) (fun _ => a ∈ D).
Proof.
unfold strncpy_from_user. eapply pres_bind; [apply pres_get_app|]. intros x [Ha _].
destruct (user_strlen_bytes _ _ _) as [[]|]; [by apply pres_ret|by apply pres_ret|apply pres_raise].
Qed.
Lemma pres_get_mems a : pres (Env D) (get_mems a) (fun ms => Z.of_nat (size (m_user ms)) < 2 ^ 32).
Proof.
unfold get_mems. eapply pres_bind; [apply pres_gets|]. intros km _. destruct a as [a|]; [|by apply pres_ret].
eapply pres_bind; [apply pres_get_app|]. intros x [_ Hx]. by apply pres_ret.
Qed.
Lemma pres_put_mems a ms : Z.of_nat (size (m_user ms)) < 2 ^ 32 -> keeps (put_mems a ms).
Proof.
intros Hm. unfold put_mems. eapply pres_bind; [by eapply keep_modify; [apply env_keeper|]|]. intros _ _. destruct a as [a|]; [|by apply pres_ret]. by apply pres_upd_app.
Qed.
Hint Resolve pres_user_write pres_user_read pres_strncpy pres_get_mems pres_put_mems : pres.

(** *** Ports and connections *)

Lemma pres_port_create sid path n sz fl : known D (Some sid) -> keeps (ipc_port_create (Some sid) path n sz fl).
Proof.
intros Hk. unfold ipc_port_create. destruct (_ || _); [by apply pres_ret|]. eapply pres_bind; [eauto with pres|]. intros [] _; [|by apply pres_ret].
destruct (strlcpy _ _) as [r cp]. destruct (_ =? _); [by apply pres_ret|]. destruct (_ >=? _); [by apply pres_ret|].
eapply pres_bind; [eauto with pres|]. intros p _. eapply pres_bind; [apply pres_modify; intros s; by apply env_put_port|]. intros _ _. pres_auto.
Qed.
Hint Resolve pres_port_create : pres.
Lemma pres_port_attach p c : keeps (port_attach_client p c).
Proof. unfold port_attach_client. pres_auto. Qed.
Hint Resolve pres_port_attach : pres.
Lemma pres_port_adopt p c : keeps (port_adopt_waiting p c).
Proof. unfold port_adopt_waiting. pres_auto. Qed.
Hint Resolve pres_port_adopt : pres.
Lemma pres_port_publish h : keeps (ipc_port_publish h).
Proof. unfold ipc_port_publish. pres_auto. Qed.
Lemma pres_connect_async cid path mx fl : known D (Some cid) -> keeps (ipc_port_connect_async (Some cid) path mx fl).
Proof. intros Hk. unfold ipc_port_connect_async. pres_auto. Qed.
Lemma pres_pop_pending p : keeps (port_pop_pending p).
Proof. unfold port_pop_pending. pres_auto. Qed.
Hint Resolve pres_port_publish pres_connect_async pres_pop_pending : pres.
Lemma pres_port_accept h : keeps (ipc_port_accept h).
Proof. unfold ipc_port_accept. pres_auto. Qed.
Lemma pres_uuid_bytes o : keeps (uuid_bytes o).
Proof. unfold uuid_bytes. pres_auto. Qed.
Hint Resolve pres_port_accept pres_uuid_bytes : pres.

Lemma pres_sys_port_create a path n sz fl : keeps (sys_port_create a path n sz fl).
Proof. unfold sys_port_create. pres_auto. Qed.
Lemma pres_sys_accept a id ua : keeps (sys_accept a id ua).
Proof. unfold sys_accept. pres_auto. Qed.
Lemma pres_sys_connect_async block fuel ev a path fl : has_flag fl IPC_CONNECT_ASYNC = true -> keeps (sys_connect block fuel ev a path fl).
Proof. intros E. unfold sys_connect. rewrite E. pres_auto. Qed.
Lemma pres_sys_close a id : keeps (sys_close a id).
Proof. unfold sys_close. pres_auto. Qed.
Lemma pres_sys_set_cookie a id c : keeps (sys_set_cookie a id c).
Proof. unfold sys_set_cookie. pres_auto. Qed.

(** *** Messages *)

Lemma pres_msg_write a c msg : keeps (msg_write_locked a c msg).
Proof. unfold msg_write_locked. pres_auto. Qed.
Lemma pres_msg_read a c id off msg : keeps (msg_read_locked a c id off msg).
Proof.
unfold msg_read_locked. eapply pres_bind; [eauto with pres|]. intros q _. eapply pres_bind; [eauto with pres|]. intros ms Hms. cbn beta in Hms.
eapply (pres_bind (Env D) _ _ (fun r => Z.of_nat (size (m_user r.2)) < 2 ^ 32)).
- apply pres_deref. intros [r ms'] E. apply msg_read_size in E. cbn. lia.
- intros [r ms'] Hs. cbn in Hs. eapply pres_bind; [by apply pres_put_mems|]. intros _ _. by apply pres_ret.
Qed.
Hint Resolve pres_msg_write pres_msg_read : pres.
Lemma pres_send_msg_locked a h msg : keeps (send_msg_locked a h msg).
Proof. unfold send_msg_locked. pres_auto. Qed.
Lemma pres_read_msg_locked a h id off msg : keeps (read_msg_locked a h id off msg).
Proof. unfold read_msg_locked. pres_auto. Qed.
Hint Resolve pres_send_msg_locked pres_read_msg_locked : pres.

Lemma pres_sys_send_msg a id ua : keeps (sys_send_msg a id ua).
Proof. unfold sys_send_msg. pres_auto. Qed.
Lemma pres_sys_get_msg a id ua : keeps (sys_get_msg a id ua).
Proof. unfold sys_get_msg. pres_auto. Qed.
Lemma pres_sys_put_msg a id mid : keeps (sys_put_msg a id mid).
Proof. unfold sys_put_msg. pres_auto. Qed.
Lemma pres_sys_read_msg a id mid off ua : keeps (sys_read_msg a id mid off ua).
Proof. unfold sys_read_msg. pres_auto. Qed.
End routines.
