(* ===== verification/IpcSystem.v ===== *)
(** * The IPC system as a whole

    The non-blocking system calls as transitions of one state machine, started
    from a booted kernel, and what every reachable state satisfies.  The states
    on which a call is not allowed are those where the code itself goes wrong;
    each is exhibited in IpcFindings. *)

From stdpp Require Import base tactics list gmap.
From Stdlib Require Import ZArith Lia.
From S2P Require Import Prelude Bitmap Iovec MsgQueue Kernel Channel Handle Uctx Ipc IpcMsg IpcInv IpcSafe IpcCalls IpcSys IpcPort IpcWait IpcEnv.

(** ** Calls *)

Inductive call :=
| PortCreate (path num_recv_bufs recv_buf_size flags : Z)
| ConnectAsync (path : Z) (wait_for_port : bool)
| Accept (handle_id user_uuid : Z)
| Close (handle_id : Z)
| SetCookie (handle_id cookie : Z)
| SendMsg (handle_id user_msg : Z)
| GetMsg (handle_id user_msg_info : Z)
| ReadMsg (handle_id msg_id offset user_msg : Z)
| PutMsg (handle_id msg_id : Z).

Definition async_flags (wait_for_port : bool) : Z :=
  if wait_for_port then Z.lor IPC_CONNECT_ASYNC IPC_CONNECT_WAIT_FOR_PORT else IPC_CONNECT_ASYNC.

(** The call made by app [a]; an asynchronous connect does not block, so what
    other threads do and the fuel of the wait do not matter. *)
Definition do_call (a : Z) (c : call) : K Z :=
  match c with
  | PortCreate path n sz flags => sys_port_create a path n sz flags
  | ConnectAsync path w => sys_connect (fun _ _ s => (ERR_TIMED_OUT, s)) 0 0 a path (async_flags w)
  | Accept id ua => sys_accept a id ua
  | Close id => sys_close a id
  | SetCookie id cookie => sys_set_cookie a id cookie
  | SendMsg id um => sys_send_msg a id um
  | GetMsg id ui => sys_get_msg a id ui
  | ReadMsg id mid off um => sys_read_msg a id mid off um
  | PutMsg id mid => sys_put_msg a id mid
  end.

(** Arguments are 32-bit words. *)
Definition args_ok (c : call) : Prop :=
  match c with
  | PortCreate path n sz flags => 0 <= path < 2 ^ 32 /\ 0 <= n /\ 0 <= sz
  | ConnectAsync path _ => 0 <= path < 2 ^ 32
  | Accept id _ | Close id | SetCookie id _ | SendMsg id _ | GetMsg id _ => 0 <= id
  | ReadMsg id mid off _ => 0 <= id /\ 0 <= mid /\ 0 <= off
  | PutMsg id mid => 0 <= id /\ 0 <= mid
  end.

(** A new port finds its waiting clients admissible and memory for them; a
    channel whose messages are asked for is not still waiting for its port. *)
Definition allowed (s : kstate) (a : Z) (u : uctx) (c : call) : Prop :=
  match c with
  | PortCreate _ n sz flags => forall str, publishable s (new_port str (app_uuid a) n sz flags)
  | GetMsg id _ | ReadMsg id _ _ _ | PutMsg id _ => slot_ready s u id
  | _ => True
  end.

(** ** Booting *)

Record booted (D : gset Z) (s : kstate) : Prop := {
  bt_objects : k_ports s = ∅ /\ k_chans s = ∅ /\ k_refs s = ∅ /\ ipc_port_list s = [] /\ waiting_for_port_chan_list s = [];
  bt_dom : dom (k_apps s) = D /\ D ⊆ dom (k_hlists s);
  bt_uctx : forall a x, k_apps s !! a = Some x -> a_uctx x = Some (new_uctx a) /\ Z.of_nat (size (a_umem x)) < 2 ^ 32;
  bt_lists : forall a l, k_hlists s !! a = Some l -> hl_handles l = [];
}.

Lemma new_uctx_ok a : table_ok (new_uctx a).
Proof.
  split; cbn; try done.
  - repeat constructor; lia.
  - intros i Hi. rewrite (bitmap_test_spec _ i 0).
    + rewrite Z.testbit_0_l. split; [done|]. intros [h Hh]. apply lookup_replicate in Hh as [? _]. done.
    + lia.
    + assert (i / 32 = 0 \/ i / 32 = 1) as [-> | ->] by (pose proof (Z.div_pos i 32); pose proof (Z.div_lt_upper_bound i 32 2); lia); done.
  - intros i j h Hh. apply lookup_replicate in Hh as [? _]. done.
Qed.

Lemma booted_inv D s : booted D s -> Inv g_idle s.
Proof.
  intros [(Ep & Ec & Er & El & Ew) [Ed Eh] Bu Bl].
  assert (forall h, hview s h = None) as Hv by (intros []; cbn; by rewrite ?Ep, ?Ec).
  split; rewrite ?Ep, ?Ec, ?El, ?Ew; try done.
  - intros r. rewrite Er. unfold ref_of. cbn. destruct r; cbn; by rewrite ?Ec.
  - intros c [? ?]. done.
  - intros p c. split; intros (x & ? & _); done.
  - split; [constructor|]. intros c. split; [by intros ?%elem_of_nil|]. intros (x & ? & _). done.
  - split; [constructor|]. intros c. split; [by intros ?%elem_of_nil|]. intros (x & ? & _). done.
  - intros h Hh. by apply elem_of_nil in Hh.
  - split; intros c [? ?]; done.
  - split.
    + intros l x Hl. rewrite (Bl l x Hl). constructor.
    + intros l x h Hl. rewrite (Bl l x Hl). unfold hl_of. rewrite Hv. cbn. split; [by intros ?%elem_of_nil|done].
    + intros h l. unfold hl_of. by rewrite Hv.
    + intros a x u Ha Hu. destruct (Bu a x Ha) as [Hx _]. rewrite Hx in Hu. injection Hu as <-. split; [apply new_uctx_ok|]. split.
      * apply elem_of_dom, Eh. rewrite <- Ed. by apply elem_of_dom_2 in Ha.
      * intros h. unfold hl_of. rewrite Hv. cbn. split; [done|]. intros [i Hi]. apply lookup_replicate in Hi as [? _]. done.
Qed.

Lemma booted_env D s : booted D s -> Env D s.
Proof.
  intros [(Ep & Ec & _) [Ed _] Bu _]. split; rewrite ?Ep, ?Ec; try done. intros a x Ha. by apply (Bu a x Ha).
Qed.

(** ** Every allowed call runs and keeps the invariant *)

Definition KInv (D : gset Z) (s : kstate) : Prop := Inv g_idle s /\ Env D s.

Lemma env_umem D s a : Env D s -> umem_ok s a.
Proof. intros HE x Hx. by eapply en_mem. Qed.

Lemma env_clients D s : Env D s -> clients_known s.
Proof.
  intros HE c ch Hc. pose proof (en_chan D s HE c ch Hc) as Hk. destruct (c_uuid ch) as [[|b]|]; cbn in *; try done.
  rewrite <- (en_dom D s HE) in Hk. by apply elem_of_dom.
Qed.

Lemma pres_do_call D a c : pres (Env D) (do_call a c) (fun _ => True).
Proof.
  destruct c; cbn [do_call]; [apply pres_sys_port_create|apply pres_sys_connect_async; by destruct wait_for_port|apply pres_sys_accept|
    apply pres_sys_close|apply pres_sys_set_cookie|apply pres_sys_send_msg|apply pres_sys_get_msg|apply pres_sys_read_msg|apply pres_sys_put_msg].
Qed.

(** App [a] still has a table, and nobody else's table changed. *)
Definition isolated (a : Z) (s s' : kstate) : Prop :=
  is_Some (utable s' a) /\ forall b, b <> a -> utable s' b = utable s b.

Lemma isolated_kept a s s' : is_Some (utable s a) -> tables_kept s s' -> isolated a s s'.
Proof. intros Ha K. split; [by rewrite (K a)|]. intros b _. apply K. Qed.

Lemma isolated_tables a s s' : isolated a s s' -> forall b, is_Some (utable s b) -> is_Some (utable s' b).
Proof. intros [Ha Ho] b Hb. destruct (decide (b = a)) as [->|]; [done|]. by rewrite Ho. Qed.

Lemma do_call_inv g s a u c : g_ov g = ∅ -> Inv g s -> utable s a = Some u -> umem_ok s a -> clients_known s -> args_ok c -> allowed s a u c ->
  wp (do_call a c) (fun _ s' => Inv g s' /\ isolated a s s') s.
Proof.
  intros Hov HI Hu Hum Hcl Hargs Hal. pose proof Hu as Hu'. apply utable_has in Hu' as [x Ht].
  assert (is_Some (utable s a)) as Hs by (by rewrite Hu). destruct c; cbn [do_call args_ok allowed] in *; destruct_and?.
  - eapply wp_mono; [by apply (sys_port_create_spec g s a x u)|]. intros ret s' (HI' & Ho & Hr). split; [done|]. split; [|done].
    destruct Hr as [[_ ->]|(? & ? & ? & ? & ? & ? & ? & -> & _)]; by eexists.
  - eapply wp_mono; [eapply (sys_connect_async_spec _ _ _ g s a x u); try done; by destruct wait_for_port|].
    intros ret s' (HI' & K & Ho & _). split; [done|]. split; [by apply (K a)|done].
  - eapply wp_mono; [by apply (sys_accept_spec g s a x u)|]. intros ret s' (HI' & Ho & Hr). split; [done|]. split; [|done].
    destruct Hr as [[_ ->]|(? & ? & ? & ? & ? & ? & ? & ? & -> & _)]; by eexists.
  - eapply wp_mono; [by apply (sys_close_spec g s a x u)|]. intros ret s' (HI' & Ho & Hr). split; [done|]. split; [|done].
    destruct (slot_of u handle_id); [destruct Hr as [_ ->]; by eexists|]. by destruct Hr as [_ ->].
  - eapply wp_mono; [by apply (sys_set_cookie_spec g s a x u)|]. intros ret s' (HI' & K & _). split; [done|]. by apply isolated_kept.
  - eapply wp_mono; [by apply (sys_send_msg_spec g s a x u)|]. intros ret s' (HI' & K & _). split; [done|]. by apply isolated_kept.
  - eapply wp_mono; [by apply (sys_get_msg_spec g s a x u)|]. intros ret s' (HI' & K & _). split; [done|]. by apply isolated_kept.
  - eapply wp_mono; [by apply (sys_read_msg_spec g s a x u)|]. intros ret s' (HI' & K & _). split; [done|]. by apply isolated_kept.
  - eapply wp_mono; [by apply (sys_put_msg_spec g s a x u)|]. intros ret s' (HI' & K & _). split; [done|]. by apply isolated_kept.
Qed.

Lemma do_call_kinv D s a u c : KInv D s -> utable s a = Some u -> args_ok c -> allowed s a u c ->
  exists ret s', do_call a c s = Ret ret s' /\ KInv D s' /\ isolated a s s'.
Proof.
  intros [HI HE] Hu Hargs Hal.
  pose proof (do_call_inv g_idle s a u c eq_refl HI Hu (env_umem D s a HE) (env_clients D s HE) Hargs Hal) as Hw.
  apply wp_ex in Hw as (ret & s' & R & HI' & Hk). exists ret, s'. split; [done|]. split; [|done]. split; [done|].
  by apply (pres_do_call D a c s ret s').
Qed.

(** ** Reachable states *)

Inductive reachable (D : gset Z) : kstate -> Prop :=
| reach_boot s : booted D s -> reachable D s
| reach_call s a u c ret s' :
    reachable D s -> utable s a = Some u -> args_ok c -> allowed s a u c -> do_call a c s = Ret ret s' -> reachable D s'.

Lemma reachable_kinv D s : reachable D s -> KInv D s.
Proof.
  induction 1 as [s Hb|s a u c ret s' _ IH Hu Hargs Hal R].
  - split; [by eapply booted_inv|by apply booted_env].
  - destruct (do_call_kinv D s a u c IH Hu Hargs Hal) as (r & s1 & R1 & HK & _).
    rewrite R in R1. by injection R1 as -> ->.
Qed.

Lemma reachable_uctx D s : reachable D s -> forall a, a ∈ D -> is_Some (utable s a).
Proof.
  induction 1 as [s [_ [Ed _] Bu _]|s a u c ret s' Hr IH Hu Hargs Hal R]; intros b Hb.
  - rewrite <- Ed in Hb. apply elem_of_dom in Hb as [x Hx]. unfold utable. rewrite Hx. cbn. destruct (Bu b x Hx) as [-> _]. by eexists.
  - destruct (do_call_kinv D s a u c (reachable_kinv D s Hr) Hu Hargs Hal) as (r & s1 & R1 & _ & Hk).
    rewrite R in R1. injection R1 as -> ->. eapply isolated_tables; [done|auto].
Qed.

(** ** A session of two apps

    App 1 serves the port [ab], app 2 connects to it and sends five bytes. *)
Definition demo_umem1 : mem :=
  mem_of [(100, [97; 98; 0]); (200, replicate 16 7); (300, replicate 8 7);
          (400, le_bytes 4 1 ++ le_bytes 4 420 ++ le_bytes 4 0 ++ le_bytes 4 0);
          (420, le_bytes 4 440 ++ le_bytes 4 8); (440, replicate 8 7)].
Definition demo_umem2 : mem :=
  mem_of [(100, [97; 98; 0]); (300, replicate 8 7);
          (400, le_bytes 4 1 ++ le_bytes 4 420 ++ le_bytes 4 0 ++ le_bytes 4 0);
          (420, le_bytes 4 440 ++ le_bytes 4 5); (440, [104; 101; 108; 108; 111])].

Definition demo_boot : kstate :=
  KState ∅ ∅ ∅ [] []
    {[1 := App (Some (new_uctx 1)) demo_umem1 (replicate 16 1); 2 := App (Some (new_uctx 2)) demo_umem2 (replicate 16 2)]}
    {[1 := HandleList [] None; 2 := HandleList [] None]} ∅ ∅ 1000 [] 0.

Fixpoint run_calls (cs : list (Z * call)) (s : kstate) : outcome kstate (list Z) :=
  match cs with
  | [] => Ret [] s
  | (a, c) :: cs' =>
      match do_call a c s with
      | Fault f => Fault f
      | Ret r s1 => match run_calls cs' s1 with Ret rs s2 => Ret (r :: rs) s2 | Fault f => Fault f end
      end
  end.

Definition demo_calls : list (Z * call) :=
  [(1, PortCreate 100 2 8 IPC_PORT_ALLOW_TA_CONNECT); (2, ConnectAsync 100 false); (1, Accept 0 200);
   (2, SendMsg 0 400); (1, GetMsg 1 300); (1, ReadMsg 1 0 0 400); (1, PutMsg 1 0); (1, Close 1); (2, SendMsg 0 400)].

(** The whole session, computed: the handles, the lengths, and the closed
    channel at the end. *)
Example demo_session :
  match run_calls demo_calls demo_boot with
  | Ret rs s => rs = [0; 0; 1; 5; 0; 5; 0; 0; ERR_CHANNEL_CLOSED] /\
      (k_apps s !! 1 ≫= fun x => mem_read (a_umem x) 440 8) = Some [104; 101; 108; 108; 111; 7; 7; 7] /\
      (k_apps s !! 1 ≫= fun x => mem_read (a_umem x) 200 16) = Some (replicate 16 2)
  | Fault _ => False
  end.
Proof. vm_compute. done. Qed.

(** *** Checking a session *)

Definition argsb (c : call) : bool :=
  match c with
  | PortCreate path n sz flags => (0 <=? path) && (path <? 2 ^ 32) && (0 <=? n) && (0 <=? sz)
  | ConnectAsync path _ => (0 <=? path) && (path <? 2 ^ 32)
  | Accept id _ | Close id | SetCookie id _ | SendMsg id _ | GetMsg id _ => 0 <=? id
  | ReadMsg id mid off _ => (0 <=? id) && (0 <=? mid) && (0 <=? off)
  | PutMsg id mid => (0 <=? id) && (0 <=? mid)
  end.

Definition slot_readyb (s : kstate) (u : uctx) (id : Z) : bool :=
  match slot_of u id with
  | Some (HChan c) => match queue_of s (HChan c) with Some _ => true | None => false end
  | _ => true
  end.

(** Sufficient for [allowed]: nobody waits when a port is created. *)
Definition allowedb (s : kstate) (u : uctx) (c : call) : bool :=
  match c with
  | PortCreate _ _ _ _ => match waiting_for_port_chan_list s with [] => true | _ => false end
  | GetMsg id _ | ReadMsg id _ _ _ | PutMsg id _ => slot_readyb s u id
  | _ => true
  end.

(** The state after a session whose calls are all allowed. *)
Fixpoint session (cs : list (Z * call)) (s : kstate) : option kstate :=
  match cs with
  | [] => Some s
  | (a, c) :: cs' =>
      match utable s a with
      | None => None
      | Some u =>
          if argsb c && allowedb s u c then
            match do_call a c s with Ret _ s1 => session cs' s1 | Fault _ => None end
          else None
      end
  end.

Lemma argsb_ok c : argsb c = true -> args_ok c.
Proof. destruct c; cbn; rewrite ?andb_true_iff, ?Z.leb_le, ?Z.ltb_lt; intuition lia. Qed.

Lemma slot_readyb_ok s u id : slot_readyb s u id = true -> slot_ready s u id.
Proof.
  intros H h Hs. unfold slot_readyb in H. rewrite Hs in H. destruct h as [|c]; [done|]. unfold has_queue. destruct (queue_of s (HChan c)); [by eexists|done].
Qed.

Lemma allowedb_ok s a u c : allowedb s u c = true -> allowed s a u c.
Proof.
  destruct c; cbn [allowedb allowed]; intros H; try done; try by apply slot_readyb_ok.
  intros str. left. by destruct (waiting_for_port_chan_list s).
Qed.

Lemma session_reachable D cs s s' : reachable D s -> session cs s = Some s' -> reachable D s'.
Proof.
  revert s. induction cs as [|[a c] cs IH]; intros s Hr; cbn; [by intros [= <-]|].
  destruct (utable s a) as [u|] eqn:Hu; [|done]. destruct (argsb c && allowedb s u c) eqn:E; [|done].
  apply andb_true_iff in E as [E1 E2]. destruct (do_call a c s) as [r s1|] eqn:R; [|done]. apply IH.
  eapply (reach_call D s a u c r s1 Hr); [done|by apply argsb_ok|by apply allowedb_ok|done].
Qed.

Lemma demo_booted : booted {[1; 2]} demo_boot.
Proof.
  split; [done| | |].
  - split; cbn -[demo_umem1 demo_umem2]; rewrite dom_insert_L, dom_singleton_L; done.
  - intros a x. cbn -[demo_umem1 demo_umem2]. rewrite lookup_insert_Some, lookup_singleton_Some.
    intros [[<- <-]|[_ [<- <-]]]; split; [done|vm_compute; done|done|vm_compute; done].
  - intros a l. cbn. rewrite lookup_insert_Some, lookup_singleton_Some. by intros [[_ <-]|[_ [_ <-]]].
Qed.

(** The state of the session after its first [n] calls. *)
Definition demo_state (n : nat) : kstate := default demo_boot (session (take n demo_calls) demo_boot).

Lemma demo_reachable n : reachable {[1; 2]} (demo_state n).
Proof.
  pose proof (reach_boot _ _ demo_booted) as Hb. unfold demo_state. destruct (session _ _) as [s|] eqn:E; [|done]. by eapply session_reachable.
Qed.

(** All nine calls are allowed. *)
Example demo_session_allowed : match session demo_calls demo_boot with Some _ => true | None => false end = true.
Proof. vm_compute. done. Qed.
