(* ===== verification/IpcProps.v ===== *)
(** * What the IPC system guarantees

    The properties of reachable states and of the system calls, stated over the
    transitions of IpcSystem: calls do not fault and keep the invariant, tables
    are isolated, no channel dangles or leaks, only admitted clients connect,
    both ends of an accepted connection are connected, and a message sent is the
    message received. *)

From stdpp Require Import base tactics list gmap.
From Stdlib Require Import ZArith Lia.
From S2P Require Import Prelude Bitmap Iovec MsgQueue Kernel Channel Handle Uctx Ipc IpcMsg IpcInv IpcSafe IpcCalls IpcSys IpcPort IpcWait IpcEnv IpcSystem.

(** ** Safety *)

(** C1: No system call can bring the kernel down.  In every state reachable from
    a booted kernel by allowed calls, any app may make any allowed call: it runs
    to its end without a failed assertion or a dereference of a missing object,
    and the invariant on references, queues, lists and tables holds again. *)
Theorem ipc_calls_safe D s a c :
  reachable D s -> a ∈ D -> args_ok c -> (forall u, utable s a = Some u -> allowed s a u c) ->
  exists ret s', do_call a c s = Ret ret s' /\ reachable D s' /\ Inv g_idle s'.
Proof.
  intros Hr Ha Hargs Hal. destruct (reachable_uctx D s Hr a Ha) as [u Hu].
  destruct (do_call_kinv D s a u c (reachable_kinv D s Hr) Hu Hargs (Hal u Hu)) as (ret & s' & R & [HI _] & _).
  exists ret, s'. split; [done|]. split; [|done]. by eapply reach_call; eauto.
Qed.

Lemma ipc_calls_safe_witness :
  exists ret s', do_call 1 (GetMsg 1 300) (demo_state 4) = Ret ret s' /\ reachable {[1; 2]} s' /\ Inv g_idle s'.
Proof.
  apply (ipc_calls_safe {[1; 2]} (demo_state 4) 1 (GetMsg 1 300)); [apply demo_reachable|set_solver|cbn; lia|].
  intros u Hu. apply slot_readyb_ok.
  assert (forall u, utable (demo_state 4) 1 = Some u -> slot_readyb (demo_state 4) u 1 = true) as H; [|by apply H].
  clear u Hu. intros u. vm_compute. by intros [= <-].
Defined.


Definition demo_closed : kstate := match do_call 1 (Close 1) (demo_state 4) with Ret _ s => s | Fault _ => demo_boot end.


(** ** No dangling, no leaks *)

(** A channel's peer is alive.  In every reachable state the peer a channel
    points to is another live channel with a message queue, which points back
    unless its own side was already closed. *)
Theorem peers_alive D s c ch pc :
  reachable D s -> k_chans s !! c = Some ch -> c_peer ch = Some pc ->
  pc <> c /\ exists pch, k_chans s !! pc = Some pch /\ is_Some (c_msg_queue pch) /\ (c_peer pch = None \/ c_peer pch = Some c).
Proof. intros Hr Hc Hp. destruct (reachable_kinv D s Hr) as [HI _]. by eapply i_peer. Qed.

Lemma peers_alive_witness :
  1001 <> 1002 /\ exists pch, k_chans (demo_state 4) !! 1001 = Some pch /\ is_Some (c_msg_queue pch) /\ (c_peer pch = None \/ c_peer pch = Some 1002).
Proof.
  assert (exists ch, k_chans (demo_state 4) !! 1002 = Some ch /\ c_peer ch = Some 1001) as (ch & Hc & Hp).
  { eexists. split; vm_compute; reflexivity. }
  apply (peers_alive {[1; 2]} (demo_state 4) 1002 ch 1001); [apply demo_reachable|exact Hc|exact Hp].
Defined.

(** A channel somebody can close: it is on a handle list, or pending on a port. *)
Definition reclaimable (s : kstate) (c : Z) : Prop :=
  (exists l x, k_hlists s !! l = Some x /\ HChan c ∈ hl_handles x) \/
  (exists p pt, k_ports s !! p = Some pt /\ c ∈ p_pending pt).

Lemma listed_reclaimable g s c ch l : Inv g s -> k_chans s !! c = Some ch -> h_hlist (c_handle ch) = Some l -> reclaimable s c.
Proof.
  intros HI Hc Hl. assert (hl_of s (HChan c) = Some l) as Hh by (unfold hl_of; cbn; by rewrite Hc).
  destruct (ta_some _ _ _ (i_tabs g s HI) _ _ Hh) as [x Hx]. left. exists l, x. split; [done|]. by apply (ta_list _ _ _ (i_tabs g s HI) l x).
Qed.

Lemma owned_reclaimable s c ch : Inv g_idle s -> k_chans s !! c = Some ch -> owned (has_uctx s) g_idle c ch -> reclaimable s c.
Proof.
  intros HI Hc [[p Hp]|[Hin|[(l & Hl & _)|[r Hr]]]].
  - right. destruct (proj2 (i_pend g_idle s HI p c)) as (pt & ? & ?); [by exists ch|]. by exists p, pt.
  - by apply elem_of_nil in Hin.
  - by eapply listed_reclaimable.
  - done.
Qed.

(** C10: No channel leaks.  Every channel of a reachable state is on some app's
    handle list, or pending on a live port, or the peer of a channel that is:
    somebody can still close it. *)
Theorem channels_reclaimable D s c :
  reachable D s -> is_Some (k_chans s !! c) ->
  reclaimable s c \/ exists c' ch', k_chans s !! c' = Some ch' /\ c_peer ch' = Some c /\ reclaimable s c'.
Proof.
  intros Hr Hc. destruct (reachable_kinv D s Hr) as [HI _]. destruct (i_held g_idle s HI c Hc) as [r Er]. rewrite (i_refs g_idle s HI r) in Er.
  change (field_ref s r = Some c) in Er. destruct r as [c'|c'|c'| |]; cbn in Er; try done; destruct (k_chans s !! c') as [ch'|] eqn:Hc'; try done; cbn in Er.
  - destruct (c_node ch') as [[|p]|] eqn:Hn; cbn in Er; simplify_eq; left.
    + pose proof (i_chan g_idle s HI c ch' Hc') as Hok. apply (owned_reclaimable s c ch' HI Hc'), (co_wait _ _ _ _ Hok).
      pose proof (co_node _ _ _ _ Hok) as Hno. unfold node_ok in Hno. rewrite Hn in Hno. apply Hno.
    + apply (owned_reclaimable s c ch' HI Hc'). left. by exists p.
  - destruct (Z.ltb_spec 0 (h_refcnt (c_handle ch'))); simplify_eq. left.
    pose proof (co_refcnt _ _ _ _ (i_chan g_idle s HI c ch' Hc')) as E. cbn in E. destruct (h_hlist (c_handle ch')) as [l|] eqn:Hl; [|cbn in E; lia].
    by eapply listed_reclaimable.
  - right. exists c', ch'. split; [done|]. split; [done|]. apply (owned_reclaimable s c' ch' HI Hc').
    apply (co_peer _ _ _ _ (i_chan g_idle s HI c' ch' Hc')). by rewrite Er.
Qed.

Lemma channels_reclaimable_witness :
  reclaimable (demo_state 2) 1002 \/ exists c' ch', k_chans (demo_state 2) !! c' = Some ch' /\ c_peer ch' = Some 1002 /\ reclaimable (demo_state 2) c'.
Proof. apply (channels_reclaimable {[1; 2]} (demo_state 2) 1002); [apply demo_reachable|vm_compute; eexists; reflexivity]. Defined.

(** ** Connecting and accepting *)

(** C11: A client connects only where it is admitted.  [ipc_port_connect_async]
    either fails with an error, leaving no reference behind, or returns a new
    channel owned by the caller that carries the caller's identity and either
    waits for its port or is pending, as the peer of a new server channel, on a
    published listening port of that path whose access flags admit it. *)
Theorem connect_admits g s cid path maxp flags :
  Inv g s -> g_ov g = ∅ ->
  exists ret o s', ipc_port_connect_async (Some cid) path maxp flags s = Ret (ret, o) s' /\
    (ret < 0 /\ o = None /\ Inv g s' \/
     ret = NO_ERROR /\ exists c, o = Some (HChan c) /\ Inv (g_own1 (HChan c) g) s' /\ client_of s s' cid path c).
Proof.
  intros HI Hov. destruct (ipc_port_connect_async_spec g s cid path maxp flags HI Hov) as (ret & o & s' & R & _ & H). eauto.
Qed.

Lemma connect_admits_witness :
  exists ret o s', ipc_port_connect_async (Some (app_uuid 2)) [97; 98] 64 2 (demo_state 1) = Ret (ret, o) s' /\
    (ret < 0 /\ o = None /\ Inv g_idle s' \/
     ret = NO_ERROR /\ exists c, o = Some (HChan c) /\ Inv (g_own1 (HChan c) g_idle) s' /\ client_of (demo_state 1) s' (app_uuid 2) [97; 98] c).
Proof.
  apply (connect_admits g_idle (demo_state 1) (app_uuid 2) [97; 98] 64 2); [|done].
  apply (reachable_kinv {[1; 2]}), demo_reachable.
Defined.

(** The kernel's port admits a trusted-app client exactly with the TA flag and
    a non-secure client exactly with the NS flag; a client without identity never. *)
Theorem check_access_iff pt u :
  check_access pt u = NO_ERROR <->
  exists id, u = Some id /\
    has_flag (p_flags pt) (if is_ns_client id then IPC_PORT_ALLOW_NS_CONNECT else IPC_PORT_ALLOW_TA_CONNECT) = true.
Proof.
  unfold check_access. destruct u as [id|]; [|split; [done|by intros (? & ? & ?)]].
  destruct (is_ns_client id) eqn:E; (destruct (has_flag _ _) eqn:F; split; [|done| |]); try done;
    try (intros _; exists id; by rewrite E); intros (id' & [= <-] & H); rewrite E in H; congruence.
Qed.

(** C12: [sys_accept] fails and leaves the table as it was, or it puts the server
    end of the oldest pending connection of the port in the lowest free slot,
    and both ends are connected to each other. *)
Theorem accept_connects D s a u id uaddr :
  reachable D s -> utable s a = Some u -> 0 <= id ->
  exists ret s', sys_accept a id uaddr s = Ret ret s' /\
    (ret < 0 /\ utable s' a = Some u \/
     exists p server client, slot_of u id = Some (HPort p) /\ next_pending s p server /\ 0 <= ret < 64 /\ slot_of u ret = None /\
       (forall i, 0 <= i < ret -> is_Some (slot_of u i)) /\ utable s' a = Some (fill_slot ret (HChan server) u) /\
       connected s' server client).
Proof.
  intros Hr (x & Ht)%utable_has Hid. destruct (reachable_kinv D s Hr) as [HI HE].
  pose proof (sys_accept_spec g_idle s a x u id uaddr HI eq_refl Ht Hid (env_clients D s HE)) as Hw.
  apply wp_ex in Hw as (ret & s' & R & _ & _ & H). eauto.
Qed.

Definition demo_table (n : nat) (a : Z) : uctx := default (new_uctx a) (utable (demo_state n) a).

Lemma accept_connects_witness :
  exists ret s', sys_accept 1 0 200 (demo_state 2) = Ret ret s' /\
    (ret < 0 /\ utable s' 1 = Some (demo_table 2 1) \/
     exists p server client, slot_of (demo_table 2 1) 0 = Some (HPort p) /\ next_pending (demo_state 2) p server /\ 0 <= ret < 64 /\ slot_of (demo_table 2 1) ret = None /\
       (forall i, 0 <= i < ret -> is_Some (slot_of (demo_table 2 1) i)) /\ utable s' 1 = Some (fill_slot ret (HChan server) (demo_table 2 1)) /\
       connected s' server client).
Proof. apply (accept_connects {[1; 2]} (demo_state 2) 1 (demo_table 2 1) 0 200); [apply demo_reachable|vm_compute; reflexivity|lia]. Defined.

(** [sys_port_create] fails and leaves the table as it was, or it leaves a
    listening port, published under the path read from user space, in the
    lowest free slot. *)
Theorem port_create_publishes D s a u path n sz flags :
  reachable D s -> utable s a = Some u -> 0 <= path < 2 ^ 32 -> 0 <= n -> 0 <= sz ->
  (forall str, publishable s (new_port str (app_uuid a) n sz flags)) ->
  exists ret s', sys_port_create a path n sz flags s = Ret ret s' /\ port_created a u s path n sz flags ret s'.
Proof.
  intros Hr (x & Ht)%utable_has Hp Hn Hsz Hpub. destruct (reachable_kinv D s Hr) as [HI HE].
  pose proof (sys_port_create_spec g_idle s a x u path n sz flags HI eq_refl Ht (env_umem D s a HE) Hp Hn Hsz Hpub) as Hw.
  apply wp_ex in Hw as (ret & s' & R & _ & _ & H). eauto.
Qed.

Lemma port_create_publishes_witness :
  exists ret s', sys_port_create 1 100 2 8 1 (demo_state 0) = Ret ret s' /\ port_created 1 (new_uctx 1) (demo_state 0) 100 2 8 1 ret s'.
Proof.
  apply (port_create_publishes {[1; 2]} (demo_state 0) 1 (new_uctx 1) 100 2 8 1); [apply demo_reachable|vm_compute; reflexivity|lia|lia|lia|].
  intros str. left. reflexivity.
Defined.

(** ** The handle table *)


Definition demo_unlisted : kstate := port_state_with 1000 (new_port [99] (app_uuid 1) 2 8 1) demo_boot.


(** ** Messages *)

(** What a send that succeeded left in the peer's empty queue. *)
Lemma sent_queue ms q msg r q' :
  mq_wf q -> desc_ok msg -> mq_filled q = [] -> msg_write ms q msg = WriteDone r q' -> 0 <= r ->
  exists i area, msg_gather ms msg (drop (i * Z.to_nat (mq_item_sz q)) (mq_buf q)) (mq_item_sz q) = Some (inr (r, area)) /\
    mq_wf q' /\ mq_filled q' = [i] /\ (mq_msg q' i).2 = take (Z.to_nat r) area /\ length (take (Z.to_nat r) area) = Z.to_nat r.
Proof.
  intros Hwf Hok He Ew Hr. destruct (mq_free q) as [|i l] eqn:Hfree; [unfold msg_write in Ew; by rewrite Hfree in Ew|].
  pose proof (msg_write_spec ms q msg i l Hwf Hfree Hok) as H. exists i.
  destruct (msg_gather ms msg _ _) as [[e|[r1 area]]|] eqn:Eg.
  - destruct H as (q1 & E1 & _). rewrite Ew in E1. injection E1 as <- <-. apply msg_gather_err in Eg as ->. done.
  - destruct H as (q1 & E1 & Hwf1 & Ha). rewrite Ew in E1. injection E1 as <- <-. destruct (Z.ltb_spec r 0); [lia|]. exists area. split; [done|].
    split; [done|]. pose proof (f_equal aq_filled Ha) as Hf. cbn in Hf. rewrite He in Hf. cbn in Hf.
    destruct (mq_filled q') as [|j [|]]; try done. cbn in Hf. injection Hf as Ei Eb. assert (j = i) as -> by (rewrite <- Ei; done).
    split; [done|]. split; [done|].
    assert (i < length (mq_items q))%nat as Hi by (apply (wf_dom q Hwf); rewrite Hfree, !elem_of_app; left; by left).
    destruct (lookup_lt_is_Some_2 _ _ Hi) as [it Hit]. pose proof (area_fits q i it Hwf Hit). pose proof (wf_sz q Hwf).
    apply msg_gather_bounds in Eg as (Hla & _ & Hrl); [|done|rewrite length_drop; nia]. rewrite length_take, Hla, length_drop. nia.
  - congruence.
Qed.

Lemma user_desc_ok bs : desc_ok (decode_msg_user bs).
Proof. done. Qed.

(** The bytes [send_msg] collected from the buffers of app [a]. *)
Definition gathered (s : kstate) (a um sz n : Z) (bytes : list Z) : Prop :=
  exists x raw buf area, k_apps s !! a = Some x /\ copy_from_user (a_umem x) um sizeof_ipc_msg_user = (NO_ERROR, raw) /\
    msg_gather (mems_of s (Some a)) (decode_msg_user raw) buf sz = Some (inr (n, area)) /\ bytes = take (Z.to_nat n) area.

(** [get_msg] wrote the length and the id of a message to [ui]. *)
Definition described (s : kstate) (b ui n id : Z) (s' : kstate) : Prop :=
  exists x x', k_apps s !! b = Some x /\ k_apps s' !! b = Some x' /\
    copy_to_user (a_umem x) ui (encode_msg_info n id) = (NO_ERROR, a_umem x').

(** [read_msg] scattered the message [bytes] over the buffers of app [b]. *)
Definition received (s : kstate) (b ur n : Z) (bytes : list Z) (r : Z) (s' : kstate) : Prop :=
  exists x raw out x' ms', k_apps s !! b = Some x /\ copy_from_user (a_umem x) ur sizeof_ipc_msg_user = (NO_ERROR, raw) /\
    take (Z.to_nat n) out = bytes /\ msg_scatter (mems_of s (Some b)) (decode_msg_user raw) out n = Some (r, ms') /\
    k_apps s' !! b = Some x' /\ a_umem x' = m_user ms'.

Lemma send_gathers s a u id c ch peer q um n s1 x :
  Inv g_idle s -> has_table s a x u -> 0 <= id -> slot_of u id = Some (HChan c) -> k_chans s !! c = Some ch ->
  c_state ch = IPC_CHAN_STATE_CONNECTED -> c_peer ch = Some peer -> queue_of s (HChan peer) = Some q -> mq_filled q = [] ->
  sys_send_msg a id um s = Ret n s1 -> 0 <= n ->
  Inv g_idle s1 /\ tables_kept s s1 /\ exists q' i bytes, queue_of s1 (HChan peer) = Some q' /\ mq_filled q' = [i] /\ (mq_msg q' i).2 = bytes /\
    length bytes = Z.to_nat n /\ gathered s a um (mq_item_sz q) n bytes.
Proof.
  intros HI Ht Hid Hs Hc Hst Hp Hq He R Hn. pose proof (sys_send_msg_spec g_idle s a x u id um HI Ht Hid) as Hw.
  unfold wp in Hw. rewrite R in Hw. destruct Hw as (HI1 & K & [?|(c' & bs & Hs' & Hcp & Hsend)]); [lia|]. split; [done|]. split; [done|].
  rewrite Hs in Hs'. injection Hs' as <-. destruct Hsend as (ch' & Hc' & Hsend). rewrite Hc in Hc'. injection Hc' as <-. rewrite Hst in Hsend.
  destruct Hsend as (peer' & q0 & Hp' & Hq' & Hw). rewrite Hp in Hp'. injection Hp' as <-. rewrite Hq in Hq'. injection Hq' as <-.
  destruct (msg_write _ q _) as [| |r q'] eqn:Ew; [done|destruct Hw as [-> _]; done|]. destruct Hw as [<- [Hq1 _]].
  destruct (sent_queue _ q _ n q' (queue_wf _ _ _ _ HI Hq) (user_desc_ok bs) He Ew Hn) as (i & area & Eg & _ & Hf & Hb & Hl).
  exists q', i, (take (Z.to_nat n) area). split_and!; try done. exists x, bs. eexists _, area. split; [apply Ht|]. done.
Qed.

Lemma get_describes s b u id peer q i ui s2 x n :
  Inv g_idle s -> has_table s b x u -> 0 <= id -> slot_of u id = Some (HChan peer) -> queue_of s (HChan peer) = Some q -> mq_filled q = [i] ->
  Z.of_nat (length (mq_msg q i).2) = n -> sys_get_msg b id ui s = Ret NO_ERROR s2 ->
  Inv g_idle s2 /\ tables_kept s s2 /\ described s b ui n (Z.of_nat i) s2 /\
    exists q', queue_of s2 (HChan peer) = Some q' /\ (i, (mq_msg q i).2) ∈ aq_read (mq_abs q').
Proof.
  intros HI Ht Hid Hs Hq Hf Hn R. pose proof (sys_get_msg_spec g_idle s b x u id ui HI Ht Hid) as Hw.
  assert (slot_ready s u id) as Hrdy by (intros h Hh; rewrite Hs in Hh; injection Hh as <-; unfold has_queue; by rewrite Hq).
  specialize (Hw Hrdy). unfold wp in Hw. rewrite R in Hw. destruct Hw as (HI2 & K & Hm). rewrite Hs in Hm. destruct Hm as (q0 & Hq0 & Hm).
  rewrite Hq in Hq0. injection Hq0 as <-. rewrite Hf, Z.eqb_refl in Hm. destruct Hm as [(x' & Hx' & Hcp) (q' & [Hq' _] & Ha)].
  split; [done|]. split; [done|]. split; [exists x, x'; rewrite <- Hn; split; [apply Ht|done]|]. exists q'. split; [done|].
  rewrite Ha. cbn. apply elem_of_app. right. apply list_elem_of_singleton. done.
Qed.

Lemma read_receives s b u id peer q i bytes ur x :
  Inv g_idle s -> has_table s b x u -> 0 <= id -> slot_of u id = Some (HChan peer) -> queue_of s (HChan peer) = Some q ->
  (i, bytes) ∈ aq_read (mq_abs q) ->
  exists r s3, sys_read_msg b id (Z.of_nat i) 0 ur s = Ret r s3 /\ (0 <= r -> received s b ur (Z.of_nat (length bytes)) bytes r s3).
Proof.
  intros HI Ht Hid Hs Hq Hin.
  assert (slot_ready s u id) as Hrdy by (intros h Hh; rewrite Hs in Hh; injection Hh as <-; unfold has_queue; by rewrite Hq).
  pose proof (sys_read_msg_spec g_idle s b x u id (Z.of_nat i) 0 ur HI Ht Hid Hrdy) as Hw.
  apply wp_ex in Hw as (r & s3 & R & _ & _ & _ & Hm). exists r, s3. split; [done|]. intros Hr. destruct Hm as [?|(c & bs & q0 & x' & ms' & Hs' & Hq0 & Hcp & Er & Hx' & Eu)]; [lia|].
  rewrite Hs in Hs'. injection Hs' as <-. rewrite Hq in Hq0. injection Hq0 as <-.
  destruct (msg_read_spec (mems_of s (Some b)) q i bytes 0 (decode_msg_user bs) (queue_wf _ _ _ _ HI Hq) Hin ltac:(lia)) as (out & Hout & _ & Es).
  rewrite Er in Es. exists x, bs, out, x', ms'. split; [apply Ht|]. split; [done|].
  rewrite Nat.sub_0_r, drop_0 in Hout. rewrite Nat2Z.id. split; [done|]. by rewrite Z.sub_0_r in Es.
Qed.

(** C7: A message sent is the message received.  When app [a] sends on one end of
    a connection whose other end, a channel of app [b], has an empty queue, then
    [b]'s next [get_msg] describes one message of the length [send_msg] returned,
    and [read_msg] of that message from offset 0 runs and, when it returns a
    count, has scattered over [b]'s buffers the very bytes that were gathered from
    [a]'s buffers. *)
Theorem message_delivered D s a b ua ub ida idb c peer ch q um ui n s1 s2 :
  reachable D s -> utable s a = Some ua -> utable s b = Some ub -> 0 <= ida -> 0 <= idb ->
  slot_of ua ida = Some (HChan c) -> slot_of ub idb = Some (HChan peer) ->
  k_chans s !! c = Some ch -> c_state ch = IPC_CHAN_STATE_CONNECTED -> c_peer ch = Some peer ->
  queue_of s (HChan peer) = Some q -> mq_filled q = [] ->
  sys_send_msg a ida um s = Ret n s1 -> 0 <= n -> sys_get_msg b idb ui s1 = Ret NO_ERROR s2 ->
  exists bytes id, Z.of_nat (length bytes) = n /\ gathered s a um (mq_item_sz q) n bytes /\ described s1 b ui n id s2 /\
    forall ur, exists r s3, sys_read_msg b idb id 0 ur s2 = Ret r s3 /\ (0 <= r -> received s2 b ur n bytes r s3).
Proof.
  intros Hr (xa & Hta)%utable_has Hub Hia Hib Hsa Hsb Hc Hst Hp Hq He Rs Hn Rg. destruct (reachable_kinv D s Hr) as [HI _].
  destruct (send_gathers s a ua ida c ch peer q um n s1 xa HI Hta Hia Hsa Hc Hst Hp Hq He Rs Hn) as (HI1 & K1 & q1 & i & bytes & Hq1 & Hf1 & Hb & Hl & Hg).
  assert (Z.of_nat (length bytes) = n) as Hlen by lia. rewrite <- (K1 b) in Hub. apply utable_has in Hub as [x1 Htb].
  destruct (get_describes s1 b ub idb peer q1 i ui s2 x1 n HI1 Htb Hib Hsb Hq1 Hf1 ltac:(by rewrite Hb) Rg) as (HI2 & K2 & Hd & q2 & Hq2 & Hin).
  rewrite Hb in Hin. exists bytes, (Z.of_nat i). split; [done|]. split; [done|]. split; [done|]. intros ur.
  assert (utable s2 b = Some ub) as Hub2 by (rewrite (K2 b); apply utable_has; eauto). apply utable_has in Hub2 as [x2 Htb2].
  rewrite <- Hlen. by eapply read_receives.
Qed.

Definition demo_chan (n : nat) (c : Z) : chan := default (new_chan 0 None) (k_chans (demo_state n) !! c).
Definition demo_queue (n : nat) (c : Z) : msg_queue := default (msg_queue_init 0 0 0) (queue_of (demo_state n) (HChan c)).

Lemma message_delivered_witness :
  exists bytes id, Z.of_nat (length bytes) = 5 /\ gathered (demo_state 3) 2 400 (mq_item_sz (demo_queue 3 1002)) 5 bytes /\
    described (demo_state 4) 1 300 5 id (demo_state 5) /\
    forall ur, exists r s3, sys_read_msg 1 1 id 0 ur (demo_state 5) = Ret r s3 /\ (0 <= r -> received (demo_state 5) 1 ur 5 bytes r s3).
Proof.
  apply (message_delivered {[1; 2]} (demo_state 3) 2 1 (demo_table 3 2) (demo_table 3 1) 0 1 1001 1002 (demo_chan 3 1001) (demo_queue 3 1002) 400 300);
    [apply demo_reachable|vm_compute; reflexivity|vm_compute; reflexivity|lia|lia|vm_compute; reflexivity..|lia|vm_compute; reflexivity].
Defined.

(** ** Flow control *)

Lemma unblock_flags w :
  let w' := set_flag (clear_flag w IPC_CHAN_AUX_STATE_SEND_BLOCKED) IPC_CHAN_AUX_STATE_SEND_UNBLOCKED in
  has_flag w' IPC_CHAN_AUX_STATE_SEND_UNBLOCKED = true /\ has_flag w' IPC_CHAN_AUX_STATE_SEND_BLOCKED = false.
Proof.
  intros w'. change IPC_CHAN_AUX_STATE_SEND_UNBLOCKED with (2 ^ 1) in *. change IPC_CHAN_AUX_STATE_SEND_BLOCKED with (2 ^ 0) in *.
  rewrite !has_flag_pow2 by lia. unfold w', set_flag, clear_flag. rewrite !Z.lor_spec, !Z.ldiff_spec, !Z.pow2_bits_eqb by lia.
  destruct (Z.testbit w 1), (Z.testbit w 0); done.
Qed.

(** A sender that found the queue full is woken when there is room.  Retiring a
    message of a channel whose peer is send-blocked clears the peer's blocked
    flag, raises its send-unblocked event, and signals the thread that waits on
    the peer's handle. *)
Theorem put_unblocks_sender g s c ch x id peer pch s' :
  Inv g s -> hview s (HChan c) = Some x -> 0 < h_refcnt x -> 0 <= id -> k_chans s !! c = Some ch -> is_Some (c_msg_queue ch) ->
  c_peer ch = Some peer -> k_chans s !! peer = Some pch -> has_flag (c_aux_state pch) IPC_CHAN_AUX_STATE_SEND_BLOCKED = true ->
  ipc_put_msg (HChan c) id s = Ret NO_ERROR s' ->
  exists pch', k_chans s' !! peer = Some pch' /\ has_flag (c_aux_state pch') IPC_CHAN_AUX_STATE_SEND_UNBLOCKED = true /\
    has_flag (c_aux_state pch') IPC_CHAN_AUX_STATE_SEND_BLOCKED = false /\
    forall ev, h_wait_event (c_handle pch) = Some ev -> ev ∈ k_events s'.
Proof.
  intros HI Hx Hr Hid Hc [q Hq] Hp Hpc Hb R. assert (queue_of s (HChan c) = Some q) as Hqc by (apply queue_of_chan; eauto).
  assert (has_queue s (HChan c)) as Hhq by (unfold has_queue; by rewrite Hqc).
  pose proof (ipc_put_msg_spec g s (HChan c) x id HI Hx Hr Hhq Hid) as Hw. unfold wp in Hw. rewrite R in Hw.
  destruct Hw as (_ & _ & _ & Hret). unfold retires in Hret. rewrite Hqc in Hret. destruct (msg_put_read q id) as [q'|]; [|by destruct Hret].
  destruct Hret as (_ & _ & _ & Hun). destruct (Hun ch peer pch Hc Hp Hpc) as (pch' & Hp' & Hau). rewrite Hb in Hau. destruct Hau as [Eau Hev].
  exists pch'. rewrite Eau. destruct (unblock_flags (c_aux_state pch)). by split_and!.
Qed.

(** A port with one buffer: the second message finds the queue full. *)
Definition demo_full : kstate :=
  default demo_boot (session [(1, PortCreate 100 1 8 IPC_PORT_ALLOW_TA_CONNECT); (2, ConnectAsync 100 false); (1, Accept 0 200);
    (2, SendMsg 0 400); (2, SendMsg 0 400); (1, GetMsg 1 300)] demo_boot).

Lemma demo_full_inv : Inv g_idle demo_full.
Proof.
  apply (reachable_kinv {[1; 2]}). unfold demo_full. destruct (session _ _) as [s|] eqn:E; [|by apply reach_boot, demo_booted].
  eapply session_reachable; [by apply reach_boot, demo_booted|exact E].
Qed.

Definition demo_full_chan (c : Z) : chan := default (new_chan 0 None) (k_chans demo_full !! c).
Definition demo_put : kstate := match ipc_put_msg (HChan 1002) 0 demo_full with Ret _ s => s | Fault _ => demo_boot end.

Lemma put_unblocks_sender_witness :
  exists pch', k_chans demo_put !! 1001 = Some pch' /\ has_flag (c_aux_state pch') IPC_CHAN_AUX_STATE_SEND_UNBLOCKED = true /\
    has_flag (c_aux_state pch') IPC_CHAN_AUX_STATE_SEND_BLOCKED = false /\
    forall ev, h_wait_event (c_handle (demo_full_chan 1001)) = Some ev -> ev ∈ k_events demo_put.
Proof.
  apply (put_unblocks_sender g_idle demo_full 1002 (demo_full_chan 1002) (c_handle (demo_full_chan 1002)) 0 1001 (demo_full_chan 1001));
    [apply demo_full_inv|vm_compute; reflexivity|vm_compute; reflexivity|lia|vm_compute; reflexivity|vm_compute; eexists; reflexivity|
     vm_compute; reflexivity..].
Defined.

(** ** Blocking calls *)

(** C9: A call that blocks is safe too.  Whatever other threads do while
    [sys_connect] or [sys_wait] is blocked, as long as they keep the invariant,
    the references the blocked call holds stay valid: a run that ends neither
    failed an assertion nor touched a missing object, and it leaves the
    invariant and every table in place. *)
Theorem blocking_calls_safe block g s a u fuel ev path flags id uaddr t :
  block_ok block -> g_ov g = ∅ -> Inv g s -> utable s a = Some u -> umem_ok s a -> 0 <= path < 2 ^ 32 -> 0 <= id ->
  wpf (sys_connect block fuel ev a path flags) (fun _ s' => Inv g s' /\ apps_kept s s') s /\
  wpf (sys_wait block fuel ev a id uaddr t) (fun _ s' => Inv g s' /\ apps_kept s s') s.
Proof.
  intros Hb Hov HI (x & Ht)%utable_has Hum Hp Hid. split.
  - eapply wpf_mono; [by eapply (sys_connect_spec block Hb g Hov)|]. intros ret s' (? & ? & _). done.
  - eapply wpf_mono; [by eapply (sys_wait_spec block Hb g Hov)|]. intros ret s' (? & ? & _). done.
Qed.

(** Other threads that let the wait time out. *)
Definition idle_block : Z -> Z -> kstate -> Z * kstate := fun _ _ s => (ERR_TIMED_OUT, s).

Lemma idle_block_ok : block_ok idle_block.
Proof. intros ev t g s ret s' _ HI [= _ <-]. done. Qed.

Lemma blocking_calls_safe_witness :
  wpf (sys_connect idle_block 5 77 2 100 0) (fun _ s' => Inv g_idle s' /\ apps_kept (demo_state 1) s') (demo_state 1) /\
  wpf (sys_wait idle_block 5 77 2 0 300 10) (fun _ s' => Inv g_idle s' /\ apps_kept (demo_state 1) s') (demo_state 1).
Proof.
  apply (blocking_calls_safe idle_block g_idle (demo_state 1) 2 (demo_table 1 2) 5 77 100 0 0 300 10).
  - exact idle_block_ok.
  - reflexivity.
  - apply (reachable_kinv {[1; 2]}), demo_reachable.
  - vm_compute. reflexivity.
  - apply (env_umem {[1; 2]}), (reachable_kinv {[1; 2]}), demo_reachable.
  - lia.
  - lia.
Defined.

(** ** Strings *)

(** Reading a path from user space ends.  Whatever the pointer, the walk to the
    terminator meets a NUL byte or an unmapped address within the address space,
    provided the app's memory leaves a hole in it, and then
    [strncpy_from_user] returns [ERR_FAULT] or the length of the string. *)
Theorem strncpy_from_user_ends s a x usrc n :
  k_apps s !! a = Some x -> Z.of_nat (size (a_umem x)) < 2 ^ 32 -> 0 <= usrc < 2 ^ 32 ->
  exists r, strncpy_from_user a usrc n s = Ret r s /\
    (r = (ERR_FAULT, []) \/ exists str, r = (Z.of_nat (length str), take (Z.to_nat (n - 1)) str) /\ Forall (fun b => b <> 0) str).
Proof.
  intros Ha Hsz Hu. unfold strncpy_from_user. rewrite (run_bind _ _ _ _ _ (get_app_run _ _ _ Ha)).
  destruct (user_strlen_total (a_umem x) usrc Hu Hsz) as [[str|] Es]; rewrite Es; (eexists; split; [reflexivity|]); [|by left]. right.
  exists str. split; [done|]. revert str Es. generalize (S (size (a_umem x))) as fuel. intros fuel. generalize usrc. clear.
  induction fuel as [|fuel IH]; intros usrc str; cbn; [done|]. destruct (a_umem x !! usrc) as [b|]; [|done].
  destruct (Z.eqb_spec b 0); [by intros [= <-]|]. destruct (user_strlen_bytes fuel _ _) as [[str'|]|] eqn:E; cbn; try done.
  intros [= <-]. constructor; [done|]. by eapply IH.
Qed.

Lemma strncpy_from_user_ends_witness :
  exists r, strncpy_from_user 1 100 64 demo_boot = Ret r demo_boot /\
    (r = (ERR_FAULT, []) \/ exists str, r = (Z.of_nat (length str), take (Z.to_nat (64 - 1)) str) /\ Forall (fun b => b <> 0) str).
Proof.
  apply (strncpy_from_user_ends demo_boot 1 (App (Some (new_uctx 1)) demo_umem1 (replicate 16 1)) 100 64);
    [vm_compute; reflexivity|vm_compute; reflexivity|lia].
Defined.
