(* ===== verification/IpcFindings.v ===== *)
(** * Where the IPC code goes wrong

    Concrete runs of the model that end in a failed assertion, a null
    dereference or the read of an uninitialised variable.  They are the states
    the safety theorem excludes ([allowed]). *)

From stdpp Require Import base tactics list gmap.
From Stdlib Require Import ZArith Lia.
From S2P Require Import Prelude Iovec MsgQueue Kernel Channel Handle Uctx Ipc IpcMsg IpcSystem.

Definition faults_with {A} (o : outcome kstate A) (f : fault) : Prop :=
  match o with Fault f' => f' = f | Ret _ _ => False end.

(** A client waits for a port that does not exist yet; the port appears with
    flags that do not admit it.  [ipc_port_publish] takes the client off the
    waiting list and then shuts it down, which asserts that it is on it. *)
Example publish_inadmissible_panics :
  faults_with (run_calls [(2, ConnectAsync 100 true); (1, PortCreate 100 2 8 IPC_PORT_ALLOW_NS_CONNECT)] demo_boot) AssertFailed.
Proof. vm_compute. done. Qed.

(** The same when the port admits the client but memory runs out. *)
Example publish_no_memory_panics :
  faults_with (run_calls [(2, ConnectAsync 100 true); (1, PortCreate 100 2 8 IPC_PORT_ALLOW_TA_CONNECT)]
    (set_k_allocs [true; true; true; false] demo_boot)) AssertFailed.
Proof. vm_compute. done. Qed.

(** Asking a channel that still waits for its port for a message dereferences its
    missing queue. *)
Example get_msg_waiting_faults :
  faults_with (run_calls [(2, ConnectAsync 100 true); (2, GetMsg 0 300)] demo_boot) NullDeref.
Proof. vm_compute. done. Qed.

Example read_msg_waiting_faults :
  faults_with (run_calls [(2, ConnectAsync 100 true); (2, ReadMsg 0 0 0 400)] demo_boot) NullDeref.
Proof. vm_compute. done. Qed.

(** A thread waits on its handles; it is woken, and no handle is ready: the
    second scan leaves [ret] unset and reads it. *)
Definition wake_block : Z -> Z -> kstate -> Z * kstate := fun _ _ s => (NO_ERROR, s).

Example wait_any_reads_uninitialised :
  match run_calls [(1, PortCreate 100 2 8 IPC_PORT_ALLOW_TA_CONNECT)] demo_boot with
  | Ret _ s => faults_with (sys_wait_any wake_block 3 55 1 300 10 s) UninitRead
  | Fault _ => False
  end.
Proof. vm_compute. done. Qed.
