(* ===== verification/IpcFrame.v ===== *)
(** * What the calls of an app leave to the other clients

    A predicate that does not look at apps, is kept when an object is made or a
    channel of the calling app gets its handle, and that allows the caller's own
    handle list to change ([SysKeeper]) is kept by every system call but
    [set_cookie].  The clients of the kernel interface that are not apps use it
    for their own channels and lists. *)

From stdpp Require Import base tactics list gmap.
From Stdlib Require Import ZArith Lia.
From S2P Require Import Prelude Iovec MsgQueue Kernel Channel Handle Uctx Ipc IpcMsg IpcEnv IpcSystem.

(** [N]: the channels the predicate says nothing of. *)
Class SysKeeper (L : Z -> Prop) (N : Z -> Prop) (E : kstate -> Prop) : Prop := {
  sk_keeper :: Keeper L E;
  sk_apps : forall s m, E s -> E (set_k_apps m s);
  sk_fresh : pres E fresh_addr N;
  sk_put_chan : forall s c ch, N c -> E s -> E (put_chan c ch s);
  sk_put_port : forall s p pt, E s -> E (put_port p pt s);
  sk_server : forall s c ch, E s -> k_chans s !! c = Some ch -> has_flag (c_flags ch) IPC_CHAN_FLAG_SERVER = true -> N c;
}.

Section frame.
Context (L N : Z -> Prop) (E : kstate -> Prop) `{!SysKeeper L N E}.
Local Abbreviation keeps m := (pres E m (fun _ => True)).

Lemma sk_is_keeper : Keeper L E.
Proof. apply _. Qed.
Hint Resolve sk_is_keeper sk_fresh : pres.

(** ** New objects *)

Lemma fr_chan_alloc fl u r : pres E (chan_alloc fl u r) (fun o => forall c, o = Some c -> N c).
Proof.
  unfold chan_alloc. eapply pres_bind; [eauto with pres|]. intros [] _; [|by apply pres_ret].
  eapply pres_bind; [eauto with pres|]. intros c Hc. cbn beta in Hc.
  eapply pres_bind; [apply pres_modify; intros s; by apply sk_put_chan|]. intros _ _.
  eapply pres_bind; [eauto with pres|]. intros _ _. apply pres_ret. by intros ? [= <-].
Qed.

Lemma fr_chan_alloc_any fl u r : keeps (chan_alloc fl u r).
Proof. eapply pres_weaken, fr_chan_alloc. Qed.
Hint Resolve fr_chan_alloc_any : pres.

Lemma fr_upd_chan c f : N c -> keeps (upd_chan c f).
Proof.
  intros Hc s [] s' HE. unfold upd_chan, get_chan, mbind, M_bind, get, deref, modify.
  destruct (k_chans s !! c) as [ch|]; [|done]. cbn. intros [= <-]. split; [by apply sk_put_chan|done].
Qed.

Lemma fr_upd_port p f : keeps (upd_port p f).
Proof.
  intros s [] s' HE. unfold upd_port, get_port, mbind, M_bind, get, deref, modify.
  destruct (k_ports s !! p) as [pt|]; [|done]. cbn. intros [= <-]. split; [by apply sk_put_port|done].
Qed.

Lemma fr_upd_handle h f : (forall c, h = HChan c -> N c) -> keeps (upd_handle h f).
Proof. intros Hh. destruct h as [p|c]; [apply fr_upd_port|]. by apply fr_upd_chan, Hh. Qed.

Lemma fr_chan_handle_init c : N c -> keeps (chan_handle_init c).
Proof. intros Hc. unfold chan_handle_init, handle_init. eapply pres_bind; [apply fr_upd_handle; by intros ? [= <-]|]. intros _ _. pres_auto. Qed.

Lemma fr_port_attach p c : keeps (port_attach_client p c).
Proof. unfold port_attach_client. pres_auto. Qed.
Hint Resolve fr_port_attach : pres.

Lemma fr_connect_async cid path mx fl : keeps (ipc_port_connect_async (Some cid) path mx fl).
Proof.
  unfold ipc_port_connect_async. destruct (_ || _); [by apply pres_ret|]. eapply pres_bind; [apply fr_chan_alloc|].
  intros [c|] Hc; [|by apply pres_ret]. specialize (Hc c eq_refl). eapply pres_bind; [eauto with pres|]. intros op _.
  eapply (pres_bind _ _ _ (fun _ => True)); [pres_auto|]. intros ret _. destruct (negb _); [pres_auto|].
  eapply pres_bind; [by apply fr_chan_handle_init|]. intros h _. pres_auto.
Qed.
Hint Resolve fr_connect_async : pres.

Lemma fr_port_create sid path n sz fl : keeps (ipc_port_create (Some sid) path n sz fl).
Proof.
  unfold ipc_port_create. destruct (_ || _); [by apply pres_ret|]. eapply pres_bind; [eauto with pres|]. intros [] _; [|by apply pres_ret].
  destruct (strlcpy _ _) as [r cp]. destruct (_ =? _); [by apply pres_ret|]. destruct (_ >=? _); [by apply pres_ret|].
  eapply pres_bind; [eauto with pres|]. intros p _. eapply pres_bind; [apply pres_modify; intros s; apply sk_put_port|]. intros _ _.
  eapply pres_bind; [unfold handle_init; by apply fr_upd_handle|]. intros _ _. by apply pres_ret.
Qed.

Lemma fr_port_adopt p c : keeps (port_adopt_waiting p c).
Proof. unfold port_adopt_waiting. pres_auto. Qed.
Hint Resolve fr_port_create fr_port_adopt : pres.
Lemma fr_port_publish h : keeps (ipc_port_publish h).
Proof. unfold ipc_port_publish. pres_auto. Qed.
Lemma fr_pop_pending p : keeps (port_pop_pending p).
Proof. unfold port_pop_pending. pres_auto. Qed.
Hint Resolve fr_port_publish fr_pop_pending : pres.

Lemma fr_get_server c : pres E (get_chan c) (fun ch => has_flag (c_flags ch) IPC_CHAN_FLAG_SERVER = true -> N c).
Proof. eapply pres_bind; [apply pres_get|]. intros s HE. apply pres_deref. intros ch Hc. by eapply sk_server. Qed.

Lemma fr_port_accept h : keeps (ipc_port_accept h).
Proof.
  unfold ipc_port_accept. eapply pres_bind; [eauto with pres|]. intros x _. destruct h as [p|c]; [|by apply pres_ret].
  destruct (negb _); [by apply pres_ret|]. eapply pres_bind; [eauto with pres|]. intros pt _. destruct (negb _); [by apply pres_ret|].
  eapply pres_bind; [eauto with pres|]. intros [server|] _; [|by apply pres_ret].
  eapply pres_bind; [apply fr_get_server|]. intros sv Hsv. cbn beta in Hsv. destruct (has_flag (c_flags sv) _); [|apply pres_raise].
  specialize (Hsv eq_refl). do 5 (eapply pres_bind; [eauto with pres|]; intros ? _).
  eapply (pres_bind _ _ _ (fun _ => True)); [pres_auto|]. intros [client|] _; [|pres_auto].
  do 3 (eapply pres_bind; [eauto with pres|]; intros ? _). eapply pres_bind; [by apply fr_chan_handle_init|]. intros ch _. pres_auto.
Qed.
Hint Resolve fr_port_accept : pres.

(** ** Apps *)

Lemma fr_get_app a : keeps (get_app a).
Proof. eapply pres_bind; [apply pres_get|]. intros s _. by apply pres_deref. Qed.
Lemma fr_upd_app a f : keeps (upd_app a f).
Proof. eapply pres_bind; [apply fr_get_app|]. intros x _. apply pres_modify. intros s. apply sk_apps. Qed.
Hint Resolve fr_get_app fr_upd_app : pres.
Lemma fr_get_uctx a : keeps (get_uctx a).
Proof. unfold get_uctx. pres_auto. Qed.
Hint Resolve fr_get_uctx : pres.
Lemma fr_upd_uctx a f : keeps (upd_uctx a f).
Proof. unfold upd_uctx. pres_auto. Qed.
Hint Resolve fr_upd_uctx : pres.

Lemma fr_check_handle_id u id : keeps (check_handle_id u id).
Proof. unfold check_handle_id. pres_auto. Qed.
Hint Resolve fr_check_handle_id : pres.
Lemma fr_user_write a addr bs : keeps (user_write a addr bs).
Proof. unfold user_write. eapply pres_bind; [eauto with pres|]. intros x _. destruct (copy_to_user _ _ _). pres_auto. Qed.
Lemma fr_user_read a addr n : keeps (user_read a addr n).
Proof. unfold user_read. pres_auto. Qed.
Lemma fr_strncpy a u n : keeps (strncpy_from_user a u n).
Proof. unfold strncpy_from_user. pres_auto. Qed.
Lemma fr_get_mems a : keeps (get_mems a).
Proof. unfold get_mems. pres_auto. Qed.
Lemma fr_put_mems a ms : keeps (put_mems a ms).
Proof. unfold put_mems. pres_auto. Qed.
Lemma fr_uuid_bytes o : keeps (uuid_bytes o).
Proof. unfold uuid_bytes. pres_auto. Qed.
Hint Resolve fr_user_write fr_user_read fr_strncpy fr_get_mems fr_put_mems fr_uuid_bytes : pres.

Lemma fr_send_msg a h msg : keeps (send_msg_locked a h msg).
Proof. unfold send_msg_locked, msg_write_locked. pres_auto. Qed.
Lemma fr_read_msg a h id off msg : keeps (read_msg_locked a h id off msg).
Proof. unfold read_msg_locked, msg_read_locked. pres_auto. Qed.
Lemma fr_get_msg h : keeps (ipc_get_msg h).
Proof. unfold ipc_get_msg. pres_auto. Qed.
Hint Resolve fr_send_msg fr_read_msg : pres.

(** ** The calls *)

Section caller.
Context (a : Z) (Ha : L a).

Lemma fr_uctx_handle_install h : keeps (uctx_handle_install a h).
Proof. unfold uctx_handle_install. pres_auto. Qed.
Lemma fr_uctx_handle_get id : keeps (uctx_handle_get a id).
Proof. unfold uctx_handle_get. pres_auto. Qed.
Lemma fr_uctx_handle_remove id : keeps (uctx_handle_remove a id).
Proof. unfold uctx_handle_remove. pres_auto. Qed.
Hint Resolve fr_uctx_handle_install fr_uctx_handle_get fr_uctx_handle_remove : pres.

Lemma fr_sys_connect_async block fuel ev path fl : has_flag fl IPC_CONNECT_ASYNC = true -> keeps (sys_connect block fuel ev a path fl).
Proof. intros Hfl. unfold sys_connect. rewrite Hfl. pres_auto. Qed.

Lemma fr_do_call c : (forall id v, c <> SetCookie id v) -> keeps (do_call a c).
Proof.
  intros Hc. destruct c as [path n sz fl|path w|id ua|id|id v|id um|id ui|id mid off um|id mid]; cbn [do_call].
  - unfold sys_port_create. pres_auto.
  - apply fr_sys_connect_async. by destruct w.
  - unfold sys_accept. pres_auto.
  - unfold sys_close. pres_auto.
  - by destruct (Hc id v).
  - unfold sys_send_msg. pres_auto.
  - unfold sys_get_msg. pres_auto.
  - unfold sys_read_msg. pres_auto.
  - unfold sys_put_msg. pres_auto.
Qed.
End caller.
End frame.
