(* ===== verification/Shm.v ===== *)
(** * Memory shared with the non-secure side

    Rings and logs live in memory the non-secure side may change between any two
    accesses: every access first applies the next element of [v_env], a list of
    byte stores made by the other side ([[]]: it is idle from then on).  An
    access outside the kernel's mappings is a [BadPointer] fault.  The state of
    the device that uses the memory is a parameter: vqueue.c and memlog.c
    instantiate it. *)

From stdpp Require Import base tactics list gmap.
From Stdlib Require Import ZArith Lia.
From S2P Require Import Prelude.

Definition PAGE_SIZE : Z := 4096.

(** ** State *)

(** The kernel's mappings [(base, size)], the shared bytes (0 where nothing was
    stored), the interference to come and the answers of the region allocator. *)
Record shared (D : Type) := VState {
  v_dev : D;
  v_regions : list (Z * Z);
  v_shm : mem;
  v_env : list (list (Z * Z));
  v_vmm : list (option Z);
}.

Arguments VState {D} _ _ _ _ _.
Arguments v_dev {D} _.
Arguments v_regions {D} _.
Arguments v_shm {D} _.
Arguments v_env {D} _.
Arguments v_vmm {D} _.

Section shared.
Context {D : Type}.
Implicit Types s : shared D.

Definition v_set_dev (v : D) s : shared D :=
  VState v (v_regions s) (v_shm s) (v_env s) (v_vmm s).
Definition v_set_regions (l : list (Z * Z)) s : shared D :=
  VState (v_dev s) l (v_shm s) (v_env s) (v_vmm s).
Definition v_set_shm (m : mem) s : shared D :=
  VState (v_dev s) (v_regions s) m (v_env s) (v_vmm s).
Definition v_set_vmm (l : list (option Z)) s : shared D :=
  VState (v_dev s) (v_regions s) (v_shm s) (v_env s) l.
End shared.

Section shm.
Context {D : Type}.

(** ** Shared memory *)

Definition in_regions (l : list (Z * Z)) (a n : Z) : bool :=
  existsb (fun r => (r.1 <=? a) && (a + n <=? r.1 + r.2)) l.

Definition env_store (m : mem) (w : Z * Z) : mem := <[w.1 := u8 w.2]> m.

(** The other side runs. *)
Definition interfere : M (shared D) unit :=
  modify (fun s =>
    match v_env s with
    | [] => s
    | ws :: env => VState (v_dev s) (v_regions s) (foldl env_store (v_shm s) ws) env (v_vmm s)
    end).

Definition shm_bytes (m : mem) (a : Z) (n : nat) : list Z :=
  (fun i => default 0 (m !! (a + Z.of_nat i))) <$> seq 0 n.

Fixpoint shm_store (m : mem) (a : Z) (bs : list Z) : mem :=
  match bs with
  | [] => m
  | b :: bs' => shm_store (<[a := b]> m) (a + 1) bs'
  end.

Definition shm_read (n : nat) (a : Z) : M (shared D) Z :=
  interfere;;
  s ← get;
  if in_regions (v_regions s) a (Z.of_nat n) then mret (le_val (shm_bytes (v_shm s) a n))
  else raise BadPointer.

Definition shm_write (n : nat) (a v : Z) : M (shared D) unit :=
  interfere;;
  s ← get;
  if in_regions (v_regions s) a (Z.of_nat n) then
    modify (v_set_shm (shm_store (v_shm s) a (le_bytes n v)))
  else raise BadPointer.

(** ** lk vmm *)

(** [vmm_alloc_physical]: status and the pointer it leaves in [*ptr], given the
    one found there. *)
Definition vmm_alloc_physical (size ptr paddr : Z) : M (shared D) (Z * Z) :=
  assert_ (paddr mod PAGE_SIZE =? 0);;
  assert_ (size mod PAGE_SIZE =? 0);;
  if size =? 0 then mret (NO_ERROR, ptr)
  else
    s ← get;
    match v_vmm s with
    | Some base :: l =>
        modify (fun s => v_set_vmm l (v_set_regions ((base, size) :: v_regions s) s));;
        mret (NO_ERROR, base)
    | None :: l => modify (v_set_vmm l);; mret (ERR_NO_MEMORY, ptr)
    | [] => mret (ERR_NO_MEMORY, ptr)
    end.

(** [vmm_free_region]: unmaps the region the address is in. *)
Fixpoint region_remove (a : Z) (l : list (Z * Z)) : list (Z * Z) :=
  match l with
  | [] => []
  | r :: l' => if (r.1 <=? a) && (a <? r.1 + r.2) then l' else r :: region_remove a l'
  end.

Definition region_mem (a : Z) (l : list (Z * Z)) : bool :=
  existsb (fun r => (r.1 <=? a) && (a <? r.1 + r.2)) l.

Definition vmm_free_region (a : Z) : M (shared D) Z :=
  s ← get;
  if region_mem a (v_regions s) then
    modify (v_set_regions (region_remove a (v_regions s)));; mret NO_ERROR
  else mret ERR_NOT_FOUND.

(** ** Safety against the other side

    [wpp m Q s]: from [s] the routine [m] panics or ends in [Q]; no other fault
    is possible. *)
Definition wpp {A} (m : M (shared D) A) (Q : A -> shared D -> Prop) (s : shared D) : Prop :=
  match m s with
  | Ret a s' => Q a s'
  | Fault f => f = Panicked
  end.

Lemma wpp_bind {A B} (m : M (shared D) A) (k : A -> M (shared D) B) Q s :
  wpp m (fun a s' => wpp (k a) Q s') s -> wpp (m ≫= k) Q s.
Proof. unfold wpp, mbind, M_bind. by destruct (m s). Qed.

Lemma wpp_ret {A} (a : A) (Q : A -> shared D -> Prop) s : Q a s -> wpp (mret a) Q s.
Proof. done. Qed.

Lemma wpp_mono {A} (m : M (shared D) A) (P Q : A -> shared D -> Prop) s :
  wpp m P s -> (forall a s', P a s' -> Q a s') -> wpp m Q s.
Proof. unfold wpp. destruct (m s); eauto. Qed.

(** What an access to the rings leaves alone. *)
Definition vframe (s s' : shared D) : Prop :=
  v_dev s' = v_dev s /\ v_regions s' = v_regions s /\ (mem_ok (v_shm s) -> mem_ok (v_shm s')).

#[export] Instance vframe_refl : Reflexive vframe.
Proof. intros s. unfold vframe. auto. Qed.
#[export] Instance vframe_trans : Transitive vframe.
Proof. intros s1 s2 s3 (?&?&?) (?&?&?). split_and!; [congruence..|auto]. Qed.

Lemma mem_ok_insert m a b : mem_ok m -> 0 <= b < 256 -> mem_ok (<[a := b]> m).
Proof. intros. by apply map_Forall_insert_2. Qed.

Lemma u8_bound z : 0 <= u8 z < 256.
Proof. unfold u8. apply Z.mod_pos_bound. lia. Qed.
Lemma u16_bound z : 0 <= u16 z < 2 ^ 16.
Proof. unfold u16. apply Z.mod_pos_bound. lia. Qed.
Lemma u32_bound z : 0 <= u32 z < 2 ^ 32.
Proof. unfold u32. apply Z.mod_pos_bound. lia. Qed.

Lemma interfere_frame s : exists s', interfere s = Ret tt s' /\ vframe s s'.
Proof.
  unfold interfere, modify. eexists; split; [done|].
  destruct (v_env s) as [|ws env]; [reflexivity|]. split_and!; [done..|]. cbn.
  generalize (v_shm s). induction ws as [|w ws IH]; intros m Hm; cbn; [done|].
  apply IH, mem_ok_insert; [done|apply u8_bound].
Qed.

Lemma shm_bytes_length m a n : length (shm_bytes m a n) = n.
Proof. unfold shm_bytes. by rewrite length_fmap, length_seq. Qed.

Lemma shm_bytes_ok m a n : mem_ok m -> bytes_ok (shm_bytes m a n).
Proof.
  intros Hm. apply Forall_fmap, Forall_true. intros i. cbn.
  destruct (m !! (a + Z.of_nat i)) eqn:E; cbn; [by eapply Hm|lia].
Qed.

Lemma le_bytes_ok n z : bytes_ok (le_bytes n z).
Proof.
  revert z. induction n as [|n IH]; intros z; cbn [le_bytes].
  - apply Forall_nil_2.
  - apply Forall_cons_2; [apply Z.mod_pos_bound; lia|apply IH].
Qed.

Lemma shm_store_ok m a bs : mem_ok m -> bytes_ok bs -> mem_ok (shm_store m a bs).
Proof.
  intros Hm Hb. revert m a Hm. induction Hb; intros m a Hm; cbn; [done|].
  apply IHHb. by apply mem_ok_insert.
Qed.

Lemma wp_wpp {A} (m : M (shared D) A) Q s : wp m Q s -> wpp m Q s.
Proof. unfold wp, wpp. by destruct (m s). Qed.

Lemma wp_shm_read n a (Q : Z -> shared D -> Prop) s :
  in_regions (v_regions s) a (Z.of_nat n) = true -> mem_ok (v_shm s) ->
  (forall v s', vframe s s' -> 0 <= v < 256 ^ Z.of_nat n -> Q v s') ->
  wp (shm_read n a) Q s.
Proof.
  intros Hr Hm HQ. destruct (interfere_frame s) as (s1 & E & Hf).
  unfold wp, shm_read, mbind, M_bind. rewrite E. cbn.
  pose proof Hf as (_ & Hreg & Hok). rewrite Hreg, Hr. apply HQ; [done|].
  pose proof (le_val_bounds _ (shm_bytes_ok _ a n (Hok Hm))) as H.
  unfold shm_bytes in H. by rewrite length_fmap, length_seq in H.
Qed.

Lemma wp_shm_write n a v (Q : unit -> shared D -> Prop) s :
  in_regions (v_regions s) a (Z.of_nat n) = true ->
  (forall s', vframe s s' -> Q tt s') ->
  wp (shm_write n a v) Q s.
Proof.
  intros Hr HQ. destruct (interfere_frame s) as (s1 & E & Hf).
  unfold wp, shm_write, mbind, M_bind. rewrite E. cbn.
  pose proof Hf as (Hvq & Hreg & Hok). rewrite Hreg, Hr. apply HQ. split_and!; [done..|].
  intros Hm. apply shm_store_ok; [by apply Hok|apply le_bytes_ok].
Qed.

Lemma wpp_shm_read n a (Q : Z -> shared D -> Prop) s :
  in_regions (v_regions s) a (Z.of_nat n) = true -> mem_ok (v_shm s) ->
  (forall v s', vframe s s' -> 0 <= v < 256 ^ Z.of_nat n -> Q v s') ->
  wpp (shm_read n a) Q s.
Proof. intros. by apply wp_wpp, wp_shm_read. Qed.

Lemma wpp_shm_write n a v (Q : unit -> shared D -> Prop) s :
  in_regions (v_regions s) a (Z.of_nat n) = true ->
  (forall s', vframe s s' -> Q tt s') ->
  wpp (shm_write n a v) Q s.
Proof. intros. by apply wp_wpp, wp_shm_write. Qed.

Lemma in_regions_sub l a n a' n' :
  in_regions l a n = true -> a <= a' -> a' + n' <= a + n -> in_regions l a' n' = true.
Proof.
  unfold in_regions. rewrite !existsb_exists. intros (r & Hr & H) H1 H2. exists r. split; [done|].
  apply andb_true_iff in H as [?%Z.leb_le ?%Z.leb_le]. apply andb_true_iff. split; apply Z.leb_le; lia.
Qed.

Lemma shm_read_idle n a s :
  v_env s = [] -> in_regions (v_regions s) a (Z.of_nat n) = true ->
  shm_read n a s = Ret (le_val (shm_bytes (v_shm s) a n)) s.
Proof.
  intros He Hr. unfold shm_read, interfere, mbind, M_bind, modify. cbn. rewrite He, Hr. done.
Qed.

Lemma shm_store_bytes m a bs : shm_bytes (shm_store m a bs) a (length bs) = bs.
Proof.
  assert (forall bs m a x, x < a -> shm_store m a bs !! x = m !! x) as Hlow.
  { clear. induction bs as [|b bs IH]; intros m a x Hx; cbn; [done|]. rewrite IH by lia. apply lookup_insert_ne. lia. }
  revert m a. induction bs as [|b bs IH]; intros m a; [done|]. cbn. f_equal.
  - rewrite Z.add_0_r, Hlow by lia. by rewrite lookup_insert_eq.
  - rewrite <- (IH (<[a:=b]> m) (a + 1)) at 2. unfold shm_bytes.
    rewrite <- fmap_S_seq, <- list_fmap_compose. apply list_fmap_ext. intros _ i _. cbn. do 2 f_equal. lia.
Qed.

Lemma shm_store_other m a bs x n :
  x + Z.of_nat n <= a \/ a + Z.of_nat (length bs) <= x -> shm_bytes (shm_store m a bs) x n = shm_bytes m x n.
Proof.
  intros Hx. apply list_fmap_ext. intros i y Hy. apply lookup_seq in Hy as (-> & Hlt). cbn.
  f_equal. assert (x + Z.of_nat i < a \/ a + Z.of_nat (length bs) <= x + Z.of_nat i) as Hy by lia.
  clear Hx Hlt. revert m a Hy. induction bs as [|b bs IH]; intros m a Hy; [done|]. cbn [shm_store length] in *.
  rewrite IH by lia. apply lookup_insert_ne. lia.
Qed.

Lemma shm_write_idle n a v s :
  v_env s = [] -> in_regions (v_regions s) a (Z.of_nat n) = true ->
  shm_write n a v s = Ret tt (v_set_shm (shm_store (v_shm s) a (le_bytes n v)) s).
Proof. intros He Hr. unfold shm_write, interfere, mbind, M_bind, modify. cbn. rewrite He, Hr. done. Qed.

Lemma le_val_store n m a v : le_val (shm_bytes (shm_store m a (le_bytes n v)) a n) = v mod 256 ^ Z.of_nat n.
Proof. pose proof (shm_store_bytes m a (le_bytes n v)) as H. rewrite le_bytes_length in H. by rewrite H, le_val_bytes. Qed.

Definition rdisj (r r' : Z * Z) : Prop := r.1 + r.2 <= r'.1 \/ r'.1 + r'.2 <= r.1.

Fixpoint regions_disj (l : list (Z * Z)) : Prop :=
  match l with
  | [] => True
  | r :: l' => Forall (rdisj r) l' /\ regions_disj l'
  end.

Lemma region_remove_middle a l1 x l2 :
  regions_disj (l1 ++ x :: l2) -> x.1 <= a < x.1 + x.2 -> region_remove a (l1 ++ x :: l2) = l1 ++ l2.
Proof.
  intros Hd Hx. induction l1 as [|r l1 IH]; cbn [app region_remove].
  - destruct (_ && _) eqn:E; [done|]. apply andb_false_iff in E as [?%Z.leb_gt|?%Z.ltb_ge]; lia.
  - destruct Hd as [Hr Hd]. destruct (_ && _) eqn:E; [|by rewrite IH].
    apply andb_true_iff in E as [?%Z.leb_le ?%Z.ltb_lt].
    rewrite Forall_app, Forall_cons in Hr. destruct Hr as (_ & [?|?] & _); lia.
Qed.

(** Freeing a region by one of its addresses. *)
Lemma vmm_free_middle a s l1 x l2 :
  v_regions s = l1 ++ x :: l2 -> regions_disj (l1 ++ x :: l2) -> x.1 <= a < x.1 + x.2 ->
  vmm_free_region a s = Ret NO_ERROR (v_set_regions (l1 ++ l2) s).
Proof.
  intros HR Hd Hx. unfold vmm_free_region, mbind, M_bind, get. cbn. rewrite HR.
  replace (region_mem a (l1 ++ x :: l2)) with true; [by rewrite (region_remove_middle a)|].
  symmetry. apply existsb_exists. exists x. split; [by apply list_elem_of_In, elem_of_app; right; left|].
  apply andb_true_iff. split; [apply Z.leb_le|apply Z.ltb_lt]; lia.
Qed.

Lemma regions_disj_remove l1 x l2 : regions_disj (l1 ++ x :: l2) -> regions_disj (l1 ++ l2).
Proof.
  induction l1 as [|r l1 IH]; cbn; [by intros [_ ?]|]. intros [Hr Hd]. split; [|by apply IH].
  rewrite Forall_app, Forall_cons in Hr. rewrite Forall_app. tauto.
Qed.

Lemma vmm_alloc_some size ptr paddr s base l :
  paddr mod PAGE_SIZE = 0 -> size mod PAGE_SIZE = 0 -> 0 < size -> v_vmm s = Some base :: l ->
  vmm_alloc_physical size ptr paddr s = Ret (NO_ERROR, base) (v_set_vmm l (v_set_regions ((base, size) :: v_regions s) s)).
Proof.
  intros Hp Hs H0 Hv. unfold vmm_alloc_physical. rewrite Hp, Hs. destruct (Z.eqb_spec size 0); [lia|].
  unfold mbind, M_bind. cbn. by rewrite Hv.
Qed.

Lemma vmm_alloc_none size ptr paddr s :
  paddr mod PAGE_SIZE = 0 -> size mod PAGE_SIZE = 0 -> 0 < size -> head (v_vmm s) = None \/ head (v_vmm s) = Some None ->
  exists l, vmm_alloc_physical size ptr paddr s = Ret (ERR_NO_MEMORY, ptr) (v_set_vmm l s).
Proof.
  intros Hp Hs H0 Hv. unfold vmm_alloc_physical. rewrite Hp, Hs. destruct (Z.eqb_spec size 0); [lia|].
  unfold mbind, M_bind. cbn. destruct (v_vmm s) as [|[b|] l] eqn:E; cbn in Hv.
  - exists []. rewrite <- E. by destruct s.
  - destruct Hv; congruence.
  - by exists l.
Qed.
End shm.
