(* ===== verification/Vqueue.v ===== *)
(** * Virtio queues: lk/trusty/lib/trusty/vqueue.c

    The rings live in memory shared with the non-secure side (Shm.v), which may
    change them between any two accesses.  An access outside the mapped regions
    is a [BadPointer] fault. *)

From stdpp Require Import base tactics list gmap.
From Stdlib Require Import ZArith Lia.
From S2P Require Import Prelude Iovec Shm.

(** ** virtio_ring.h *)

Definition VRING_DESC_F_NEXT : Z := 1.
Definition VRING_DESC_F_WRITE : Z := 2.
Definition VRING_USED_F_NO_NOTIFY : Z := 1.

Record vring := Vring {
  vr_num : Z;
  vr_desc : Z;
  vr_avail : Z;
  vr_used : Z;
}.

(** 16 bytes per descriptor, 2 per avail entry, 8 per used entry. *)
Definition vring_init (num p align : Z) : vring :=
  let avail := u32 (p + num * 16) in
  Vring num p avail
    (Z.land (u32 (avail + 4 + 2 * num + 2 + align - 1)) (u32 (Z.lnot (align - 1)))).

Definition vring_size (num align : Z) : Z :=
  u32 (Z.land (u32 (16 * num + 2 * (3 + num) + align - 1)) (u32 (Z.lnot (align - 1))) + 2 * 3 + 8 * num).

(** ** State *)

Record vqueue := Vqueue {
  vq_id : Z;
  vq_vring : vring;
  vq_vring_addr : Z;
  vq_vring_sz : Z;
  vq_last_avail_idx : Z;
  vq_avail_event : bool;
  vq_notify_cb : Z;
  vq_kick_cb : Z;
  vq_priv : Z;
  vq_freed : bool;
}.

Definition vq_set_mapping (addr sz : Z) (v : vqueue) : vqueue :=
  Vqueue (vq_id v) (vq_vring v) addr sz (vq_last_avail_idx v) (vq_avail_event v)
         (vq_notify_cb v) (vq_kick_cb v) (vq_priv v) (vq_freed v).
Definition vq_set_last_avail_idx (i : Z) (v : vqueue) : vqueue :=
  Vqueue (vq_id v) (vq_vring v) (vq_vring_addr v) (vq_vring_sz v) i (vq_avail_event v)
         (vq_notify_cb v) (vq_kick_cb v) (vq_priv v) (vq_freed v).
Definition vq_set_avail_event (b : bool) (v : vqueue) : vqueue :=
  Vqueue (vq_id v) (vq_vring v) (vq_vring_addr v) (vq_vring_sz v) (vq_last_avail_idx v) b
         (vq_notify_cb v) (vq_kick_cb v) (vq_priv v) (vq_freed v).
Definition vq_set_freed (v : vqueue) : vqueue :=
  Vqueue (vq_id v) (vq_vring v) (vq_vring_addr v) (vq_vring_sz v) (vq_last_avail_idx v) (vq_avail_event v)
         (vq_notify_cb v) (vq_kick_cb v) (vq_priv v) true.

(** [struct vqueue_iovs]: the two arrays have [vi_cnt] entries. *)
Record vqueue_iovs := VqueueIovs {
  vi_cnt : Z;
  vi_used : Z;
  vi_len : Z;
  vi_phys : list Z;
  vi_iovs : list iovec_kern;
}.

Record vqueue_buf := VqueueBuf {
  vb_head : Z;
  vb_in : vqueue_iovs;
  vb_out : vqueue_iovs;
}.

Abbreviation vstate := (shared vqueue).
Abbreviation v_vq := v_dev (only parsing).
Abbreviation v_set_vq := v_set_dev (only parsing).

Definition upd_vq (f : vqueue -> vqueue) : M vstate unit := modify (fun s => v_set_vq (f (v_vq s)) s).

(** Fields of the rings. *)
Definition desc_at (vr : vring) (i : Z) : Z := vr_desc vr + 16 * i.
Definition avail_idx_at (vr : vring) : Z := vr_avail vr + 2.
Definition avail_ring_at (vr : vring) (i : Z) : Z := vr_avail vr + 4 + 2 * i.
Definition used_flags_at (vr : vring) : Z := vr_used vr.
Definition used_idx_at (vr : vring) : Z := vr_used vr + 2.
Definition used_ring_at (vr : vring) (i : Z) : Z := vr_used vr + 4 + 8 * i.

(** ** vqueue.c *)

Definition vqueue_init (id paddr num align priv notify_cb kick_cb : Z) : M vstate Z :=
  s ← get;
  let sz := vring_size num align in
  upd_vq (vq_set_mapping (vq_vring_addr (v_vq s)) sz);;
  '(ret, vptr) ← vmm_alloc_physical (ROUNDUP sz PAGE_SIZE) 0 paddr;
  if negb (ret =? NO_ERROR) then
    upd_vq vq_set_freed;; mret ret
  else
    upd_vq (fun v => Vqueue id (vring_init num vptr align) vptr (vq_vring_sz v) (vq_last_avail_idx v)
                            false notify_cb kick_cb priv (vq_freed v));;
    mret NO_ERROR.

Definition vqueue_destroy : M vstate unit :=
  s ← get;
  let vring_addr := vq_vring_addr (v_vq s) in
  upd_vq (vq_set_mapping 0 0);;
  vmm_free_region vring_addr;;
  mret tt.

Definition vqueue_signal_avail : M vstate unit :=
  s ← get;
  let vr := vq_vring (v_vq s) in
  when (negb (vq_vring_addr (v_vq s) =? 0))
    (fl ← shm_read 2 (used_flags_at vr);
     shm_write 2 (used_flags_at vr) (set_flag fl VRING_USED_F_NO_NOTIFY));;
  upd_vq (vq_set_avail_event true).

(** One entry of [iovs] and [phys]; writing past the arrays is a fault. *)
Definition iovs_push (l : vqueue_iovs) (len1 addr len2 : Z) : option vqueue_iovs :=
  let i := Z.to_nat (vi_used l) in
  v ← vi_iovs l !! i;
  _ ← vi_phys l !! i;
  Some (VqueueIovs (vi_cnt l) (vi_used l + 1) (u32 (vi_len l + len2))
          (<[i := addr]> (vi_phys l)) (<[i := Iov (iov_base v) len1]> (vi_iovs l))).

(** The loop over the descriptor chain: at most [vi_cnt] descriptors go to
    either list before the routine returns, which bounds its rounds. *)
Fixpoint vqueue_chain_loop (fuel : nat) (vr : vring) (next_idx : Z) (buf : vqueue_buf) :
    M vstate (Z * vqueue_buf) :=
  match fuel with
  | O => raise OutOfFuel
  | S fuel' =>
      if next_idx >=? vr_num vr then mret (ERR_NOT_VALID, buf)
      else
        let d := desc_at vr next_idx in
        flags ← shm_read 2 (d + 12);
        let write := has_flag flags VRING_DESC_F_WRITE in
        let l := if (write : bool) then vb_out buf else vb_in buf in
        if vi_used l <? vi_cnt l then
          len1 ← shm_read 4 (d + 8);
          addr ← shm_read 8 d;
          len2 ← shm_read 4 (d + 8);
          l' ← deref BadPointer (iovs_push l len1 (u32 addr) len2);
          let buf' := if write then VqueueBuf (vb_head buf) (vb_in buf) l'
                      else VqueueBuf (vb_head buf) l' (vb_out buf) in
          (* go to the next entry in the descriptor chain *)
          next ← shm_read 2 (d + 14);
          flags ← shm_read 2 (d + 12);
          if has_flag flags VRING_DESC_F_NEXT then vqueue_chain_loop fuel' vr next buf'
          else mret (NO_ERROR, buf')
        else mret (ERR_TOO_BIG, buf)
  end.

Definition iovs_reset (l : vqueue_iovs) : vqueue_iovs :=
  VqueueIovs (vi_cnt l) 0 0 (vi_phys l) (vi_iovs l).

Definition chain_fuel (buf : vqueue_buf) : nat := Z.to_nat (vi_cnt (vb_in buf) + vi_cnt (vb_out buf) + 1).

(** The part of [vqueue_get_avail_buf] that decides whether a buffer is there;
    [false]: no buffers left. *)
Definition vq_poll (vr : vring) (last idx : Z) : M vstate bool :=
  if last =? idx then
    upd_vq (vq_set_avail_event false);;
    fl ← shm_read 2 (used_flags_at vr);
    shm_write 2 (used_flags_at vr) (clear_flag fl VRING_USED_F_NO_NOTIFY);;
    idx ← shm_read 2 (avail_idx_at vr);
    if last =? idx then mret false
    else
      fl ← shm_read 2 (used_flags_at vr);
      shm_write 2 (used_flags_at vr) (set_flag fl VRING_USED_F_NO_NOTIFY);;
      upd_vq (vq_set_avail_event true);;
      mret true
  else mret true.

Definition vqueue_get_avail_buf (buf : vqueue_buf) : M vstate (Z * vqueue_buf) :=
  s ← get;
  let vr := vq_vring (v_vq s) in
  if vq_vring_addr (v_vq s) =? 0 then mret (ERR_CHANNEL_CLOSED, buf)
  else
    let last := vq_last_avail_idx (v_vq s) in
    idx ← shm_read 2 (avail_idx_at vr);
    if u16 (idx - last) >? u16 (vr_num vr) then raise Panicked
    else
      idx ← shm_read 2 (avail_idx_at vr);
      more ← vq_poll vr last idx;
      if negb more then mret (ERR_NOT_ENOUGH_BUFFER, buf)
      else
        next_idx ← shm_read 2 (avail_ring_at vr (last mod vr_num vr));
        upd_vq (vq_set_last_avail_idx (u16 (last + 1)));;
        if next_idx >=? vr_num vr then raise Panicked
        else
          let buf' := VqueueBuf next_idx (iovs_reset (vb_in buf)) (iovs_reset (vb_out buf)) in
          vqueue_chain_loop (chain_fuel buf') vr next_idx buf'.

Definition iovs_ok_asserts (l : vqueue_iovs) : M vstate unit :=
  assert_ (negb (bool_decide (vi_phys l = [])));;
  assert_ (negb (bool_decide (vi_iovs l = [])));;
  assert_ (vi_used l <=? vi_cnt l).

Definition iovs_set_base (i : nat) (base : Z) (l : vqueue_iovs) : vqueue_iovs :=
  VqueueIovs (vi_cnt l) (vi_used l) (vi_len l) (vi_phys l)
    (alter (fun v => Iov base (iov_len v)) i (vi_iovs l)).

(** [while (i--)] of the error path. *)
Fixpoint unmap_down (i : nat) (l : vqueue_iovs) : M vstate vqueue_iovs :=
  match i with
  | O => mret l
  | S i' =>
      v ← deref BadPointer (vi_iovs l !! i');
      vmm_free_region (iov_base v);;
      unmap_down i' (iovs_set_base i' 0 l)
  end.

Fixpoint map_loop (k i : nat) (l : vqueue_iovs) : M vstate (Z * vqueue_iovs) :=
  match k with
  | O => mret (NO_ERROR, l)
  | S k' =>
      v ← deref BadPointer (vi_iovs l !! i);
      p ← deref BadPointer (vi_phys l !! i);
      let l1 := iovs_set_base i 0 l in
      '(ret, base) ← vmm_alloc_physical (ROUNDUP (iov_len v) PAGE_SIZE) 0 p;
      if negb (ret =? 0) then
        l2 ← unmap_down i (iovs_set_base i base l1);
        mret (ret, l2)
      else map_loop k' (S i) (iovs_set_base i base l1)
  end.

Definition vqueue_map_iovs (l : vqueue_iovs) : M vstate (Z * vqueue_iovs) :=
  iovs_ok_asserts l;;
  map_loop (Z.to_nat (vi_used l)) 0 l.

Fixpoint unmap_loop (k i : nat) (l : vqueue_iovs) : M vstate vqueue_iovs :=
  match k with
  | O => mret l
  | S k' =>
      v ← deref BadPointer (vi_iovs l !! i);
      (* base is expected to be set *)
      assert_ (negb (iov_base v =? 0));;
      vmm_free_region (iov_base v);;
      unmap_loop k' (S i) (iovs_set_base i 0 l)
  end.

Definition vqueue_unmap_iovs (l : vqueue_iovs) : M vstate vqueue_iovs :=
  iovs_ok_asserts l;;
  unmap_loop (Z.to_nat (vi_used l)) 0 l.

Definition vqueue_add_buf (buf : vqueue_buf) (len : Z) : M vstate Z :=
  s ← get;
  let vr := vq_vring (v_vq s) in
  if vq_vring_addr (v_vq s) =? 0 then mret ERR_CHANNEL_CLOSED
  else if vb_head buf >=? vr_num vr then mret ERR_NOT_VALID
  else
    idx ← shm_read 2 (used_idx_at vr);
    let used := used_ring_at vr (idx mod vr_num vr) in
    shm_write 4 used (vb_head buf);;
    shm_write 4 (used + 4) (u32 len);;
    idx ← shm_read 2 (used_idx_at vr);
    shm_write 2 (used_idx_at vr) (u16 (idx + 1));;
    mret NO_ERROR.

(** A queue whose rings are mapped. *)
Record vq_wf (s : vstate) : Prop := {
  vw_num : 0 < vr_num (vq_vring (v_vq s)) <= 2 ^ 16;
  vw_desc : in_regions (v_regions s) (vr_desc (vq_vring (v_vq s))) (16 * vr_num (vq_vring (v_vq s))) = true;
  vw_avail : in_regions (v_regions s) (vr_avail (vq_vring (v_vq s))) (6 + 2 * vr_num (vq_vring (v_vq s))) = true;
  vw_used : in_regions (v_regions s) (vr_used (vq_vring (v_vq s))) (6 + 8 * vr_num (vq_vring (v_vq s))) = true;
  vw_last : 0 <= vq_last_avail_idx (v_vq s) < 2 ^ 16;
  vw_shm : mem_ok (v_shm s);
}.

(** A list of descriptors the driver may fill. *)
Definition iovs_wf (l : vqueue_iovs) : Prop :=
  0 <= vi_used l <= vi_cnt l /\ Z.of_nat (length (vi_iovs l)) = vi_cnt l /\ Z.of_nat (length (vi_phys l)) = vi_cnt l.

Lemma iovs_push_ok l len1 addr len2 :
  iovs_wf l -> vi_used l < vi_cnt l ->
  exists l', iovs_push l len1 addr len2 = Some l' /\ iovs_wf l' /\
             vi_cnt l' = vi_cnt l /\ vi_used l' = vi_used l + 1.
Proof.
  intros (Hu & Hi & Hp) Hlt. unfold iovs_push.
  destruct (lookup_lt_is_Some_2 (vi_iovs l) (Z.to_nat (vi_used l))) as [v Hv]; [lia|].
  destruct (lookup_lt_is_Some_2 (vi_phys l) (Z.to_nat (vi_used l))) as [p Hp']; [lia|].
  rewrite Hv; cbn; rewrite Hp'; cbn. eexists; split; [done|].
  unfold iovs_wf. cbn. rewrite !length_insert. split_and!; lia.
Qed.

Definition buf_wf (b : vqueue_buf) : Prop := iovs_wf (vb_in b) /\ iovs_wf (vb_out b).

(** Rounds of the chain loop that are still possible. *)
Definition buf_room (b : vqueue_buf) : Z :=
  (vi_cnt (vb_in b) - vi_used (vb_in b)) + (vi_cnt (vb_out b) - vi_used (vb_out b)).

Lemma vq_wf_frame s s' : vframe s s' -> vq_wf s -> vq_wf s'.
Proof. intros (E1 & E2 & E3) []. split; rewrite ?E1, ?E2; auto. Qed.

(** The head the queue handed out and the sizes of the caller's arrays stay. *)
Definition same_bufs (b b' : vqueue_buf) : Prop :=
  vb_head b' = vb_head b /\ vi_cnt (vb_in b') = vi_cnt (vb_in b) /\ vi_cnt (vb_out b') = vi_cnt (vb_out b).

Definition chain_post (s : vstate) (b : vqueue_buf) (r : Z * vqueue_buf) (s' : vstate) : Prop :=
  (r.1 = NO_ERROR \/ r.1 = ERR_NOT_VALID \/ r.1 = ERR_TOO_BIG) /\
  buf_wf r.2 /\ same_bufs b r.2 /\ vframe s s'.

Ltac ring_access Hw Hf :=
  let Hw' := fresh in
  pose proof (vq_wf_frame _ _ Hf Hw) as Hw'; destruct Hw' as [?Hnum ?Hdesc ?Hav ?Hus ?Hl ?Hm];
  destruct Hf as (?Eq & ?Er & _);
  rewrite ?Eq in *; eapply in_regions_sub; [eassumption|..]; unfold desc_at, avail_idx_at, avail_ring_at, used_flags_at, used_idx_at, used_ring_at in *; lia.

Lemma vqueue_chain_safe fuel vr next b s :
  vq_wf s -> vr = vq_vring (v_vq s) -> 0 <= next -> buf_wf b -> buf_room b < Z.of_nat fuel ->
  wpp (vqueue_chain_loop fuel vr next b) (chain_post s b) s.
Proof.
  revert next b s. induction fuel as [|fuel IH]; intros next b s Hw Hvr Hn (Hbi & Hbo) Hroom.
  { destruct Hbi as (? & _), Hbo as (? & _). unfold buf_room in Hroom. lia. }
  cbn [vqueue_chain_loop]. destruct (next >=? vr_num vr) eqn:En.
  { apply wpp_ret. split_and!; [by auto|done|by split_and!|reflexivity]. }
  assert (next < vr_num vr) as Hlt by lia. clear En.
  assert (forall n off s1, vframe s s1 -> 0 <= off -> off + n <= 16 ->
            in_regions (v_regions s1) (desc_at vr next + off) n = true) as Hacc.
  { intros n off s1 (_ & -> & _) ? ?. eapply in_regions_sub; [apply (vw_desc _ Hw)|..];
      unfold desc_at; rewrite <- Hvr; lia. }
  assert (forall s1, vframe s s1 -> mem_ok (v_shm s1)) as Hmem.
  { intros s1 (_ & _ & H). apply H, Hw. }
  apply wpp_bind, wpp_shm_read; [apply (Hacc 2 12); [reflexivity|lia..]|apply Hmem; reflexivity|].
  intros flags s1 F1 _.
  set (l := if has_flag flags VRING_DESC_F_WRITE then vb_out b else vb_in b).
  assert (iovs_wf l) as Hl by (subst l; by destruct has_flag).
  destruct (vi_used l <? vi_cnt l) eqn:Eu.
  2: { apply wpp_ret. split_and!; [by auto|done|by split_and!|done]. }
  apply Z.ltb_lt in Eu.
  apply wpp_bind, wpp_shm_read; [apply (Hacc 4 8); [done|lia..]|by apply Hmem|]. intros len1 s2 F2 _.
  assert (vframe s s2) as G2 by (by etrans).
  apply wpp_bind, wpp_shm_read.
  { replace (desc_at vr next) with (desc_at vr next + 0) by lia. apply (Hacc 8 0); [done|lia..]. }
  { by apply Hmem. }
  intros addr s3 F3 _. assert (vframe s s3) as G3 by (by etrans).
  apply wpp_bind, wpp_shm_read; [apply (Hacc 4 8); [done|lia..]|by apply Hmem|]. intros len2 s4 F4 _.
  assert (vframe s s4) as G4 by (by etrans).
  destruct (iovs_push_ok l len1 (u32 addr) len2 Hl Eu) as (l' & -> & Hl' & Hc & Hu').
  apply wpp_bind. cbn [deref]. apply wpp_ret.
  apply wpp_bind, wpp_shm_read; [apply (Hacc 2 14); [done|lia..]|by apply Hmem|]. intros nx s5 F5 Hnx.
  assert (vframe s s5) as G5 by (by etrans).
  apply wpp_bind, wpp_shm_read; [apply (Hacc 2 12); [done|lia..]|by apply Hmem|]. intros fl2 s6 F6 _.
  assert (vframe s s6) as G6 by (by etrans).
  set (b' := if has_flag flags VRING_DESC_F_WRITE then _ else _).
  assert (buf_wf b' /\ same_bufs b b' /\ buf_room b' < buf_room b) as (Hb' & Hs' & Hr').
  { subst b' l. unfold buf_wf, same_bufs, buf_room. destruct has_flag; cbn; repeat split; auto;
      first [apply Hbi | apply Hbo | apply Hl' | lia]. }
  destruct (has_flag fl2 VRING_DESC_F_NEXT).
  - eapply wpp_mono; [apply IH|].
    + by eapply vq_wf_frame.
    + destruct G6 as (-> & _). done.
    + lia.
    + done.
    + lia.
    + intros r s' (Hr & Hwf & (? & ? & ?) & Hf). destruct Hs' as (? & ? & ?).
      split_and!; [done|done|split_and!; congruence|by etrans].
  - apply wpp_ret. split_and!; [by auto|done|done|done].
Qed.

(** Like [vframe], but the queue's event and position may change. *)
Definition vstep (s s' : vstate) : Prop :=
  vq_vring (v_vq s') = vq_vring (v_vq s) /\ vq_vring_addr (v_vq s') = vq_vring_addr (v_vq s) /\
  v_regions s' = v_regions s /\ (mem_ok (v_shm s) -> mem_ok (v_shm s')).

Lemma vframe_vstep s s' : vframe s s' -> vstep s s'.
Proof. intros (E & ? & ?). unfold vstep. rewrite E. auto. Qed.

#[export] Instance vstep_trans : Transitive vstep.
Proof. intros s1 s2 s3 (?&?&?&?) (?&?&?&?). split_and!; [congruence..|auto]. Qed.

Lemma vq_wf_step s s' : vstep s s' -> 0 <= vq_last_avail_idx (v_vq s') < 2 ^ 16 -> vq_wf s -> vq_wf s'.
Proof. intros (E1 & E2 & E3 & E4) ? []. split; rewrite ?E1, ?E2, ?E3; auto. Qed.

(** An access [off .. off+n) of one of the three rings, in any state reached. *)
Lemma ring_avail s s' off n :
  vq_wf s -> vstep s s' -> 0 <= off -> off + n <= 6 + 2 * vr_num (vq_vring (v_vq s)) ->
  in_regions (v_regions s') (vr_avail (vq_vring (v_vq s)) + off) n = true.
Proof. intros Hw (_ & _ & -> & _) ? ?. eapply in_regions_sub; [apply (vw_avail _ Hw)|lia..]. Qed.

Lemma ring_used s s' off n :
  vq_wf s -> vstep s s' -> 0 <= off -> off + n <= 6 + 8 * vr_num (vq_vring (v_vq s)) ->
  in_regions (v_regions s') (vr_used (vq_vring (v_vq s)) + off) n = true.
Proof. intros Hw (_ & _ & -> & _) ? ?. eapply in_regions_sub; [apply (vw_used _ Hw)|lia..]. Qed.

Lemma step_shm s s' : vq_wf s -> vstep s s' -> mem_ok (v_shm s').
Proof. intros Hw (_ & _ & _ & H). apply H, Hw. Qed.

(** [used->flags |= ..] and [used->flags &= ..] *)
Lemma wpp_used_flags f (k : unit -> M vstate bool) (Q : bool -> vstate -> Prop) s s1 :
  vq_wf s -> vstep s s1 ->
  (forall s2, vstep s s2 -> v_vq s2 = v_vq s1 -> wpp (k tt) Q s2) ->
  wpp (fl ← shm_read 2 (used_flags_at (vq_vring (v_vq s)));
       shm_write 2 (used_flags_at (vq_vring (v_vq s))) (f fl);; k tt) Q s1.
Proof.
  intros Hw H1 HQ. pose proof (vw_num _ Hw).
  assert (forall s', vstep s s' -> in_regions (v_regions s') (used_flags_at (vq_vring (v_vq s))) (Z.of_nat 2) = true) as Ha.
  { intros s' Hs'. unfold used_flags_at. replace (vr_used _) with (vr_used (vq_vring (v_vq s)) + 0) by lia.
    apply ring_used; auto; lia. }
  apply wpp_bind, wpp_shm_read; [by apply Ha|by eapply step_shm|]. intros v s2 F2 _.
  assert (vstep s s2) by (etrans; [done|by apply vframe_vstep]).
  apply wpp_bind, wpp_shm_write; [by apply Ha|]. intros s3 F3. apply HQ.
  - etrans; [done|by apply vframe_vstep].
  - destruct F2 as (E2 & _), F3 as (E3 & _). congruence.
Qed.

Lemma wpp_avail_idx (k : Z -> M vstate bool) (Q : bool -> vstate -> Prop) s s1 :
  vq_wf s -> vstep s s1 ->
  (forall v s2, vstep s s2 -> v_vq s2 = v_vq s1 -> wpp (k v) Q s2) ->
  wpp (shm_read 2 (avail_idx_at (vq_vring (v_vq s))) ≫= k) Q s1.
Proof.
  intros Hw H1 HQ. pose proof (vw_num _ Hw).
  apply wpp_bind, wpp_shm_read; [apply ring_avail; auto; lia|by eapply step_shm|].
  intros v s2 F2 _. apply HQ; [etrans; [done|by apply vframe_vstep]|apply F2].
Qed.

Lemma upd_vq_event_step s s1 b :
  vstep s s1 -> vstep s (v_set_vq (vq_set_avail_event b (v_vq s1)) s1).
Proof. intros (?&?&?&?). by split_and!. Qed.

Lemma vq_poll_safe s s1 idx last :
  vq_wf s -> vstep s s1 -> vq_last_avail_idx (v_vq s1) = last ->
  wpp (vq_poll (vq_vring (v_vq s)) last idx)
      (fun more s' => vstep s s' /\ vq_last_avail_idx (v_vq s') = last) s1.
Proof.
  intros Hw H1 Hl. unfold vq_poll. destruct (last =? idx); [|by apply wpp_ret].
  apply wpp_bind. unfold upd_vq at 1. cbn -[Z.mul Z.add].
  apply (wpp_used_flags (fun fl => clear_flag fl VRING_USED_F_NO_NOTIFY) (fun _ => _)); [done|by apply upd_vq_event_step|].
  intros s2 H2 E2. apply wpp_avail_idx; [done..|]. intros v s3 H3 E3.
  assert (vq_last_avail_idx (v_vq s3) = last) by (rewrite E3, E2; done).
  destruct (last =? v); [by apply wpp_ret|].
  apply (wpp_used_flags (fun fl => set_flag fl VRING_USED_F_NO_NOTIFY) (fun _ => _)); [done..|].
  intros s4 H4 E4. apply wpp_bind. cbn. split; [by apply upd_vq_event_step|]. cbn. congruence.
Qed.

(** Statuses with which a head was taken off the avail ring. *)
Definition took_head (ret : Z) : Prop := ret = NO_ERROR \/ ret = ERR_NOT_VALID \/ ret = ERR_TOO_BIG.

(** C6: [vqueue_get_avail_buf] is safe against the other side: whatever the
    shared rings hold and however they change between two accesses, the routine
    touches only the mapped rings, never writes past the caller's arrays,
    terminates within [in.cnt + out.cnt + 1] descriptors, and either panics (the
    two checks in the code) or returns one of its documented statuses.  When a
    head was taken it is below [num] and [last_avail_idx] moved on by one, at 16
    bits; otherwise it did not move. *)
Theorem vqueue_get_avail_buf_safe b s :
  (vq_vring_addr (v_vq s) <> 0 -> vq_wf s) -> buf_wf b ->
  wpp (vqueue_get_avail_buf b) (fun r s' =>
    buf_wf r.2 /\ vstep s s' /\
    ((r.1 = ERR_CHANNEL_CLOSED /\ vq_vring_addr (v_vq s) = 0) \/
     (r.1 = ERR_NOT_ENOUGH_BUFFER /\ vq_last_avail_idx (v_vq s') = vq_last_avail_idx (v_vq s)) \/
     (took_head r.1 /\ 0 <= vb_head r.2 < vr_num (vq_vring (v_vq s)) /\
      vq_last_avail_idx (v_vq s') = u16 (vq_last_avail_idx (v_vq s) + 1)))) s.
Proof.
  intros Hw Hb. unfold vqueue_get_avail_buf. apply wpp_bind. cbn [wpp get].
  destruct (Z.eqb_spec (vq_vring_addr (v_vq s)) 0) as [E0|E0].
  { apply wpp_ret. split_and!; [done|by apply vframe_vstep|by left]. }
  specialize (Hw E0). pose proof (vw_num _ Hw) as Hnum.
  set (vr := vq_vring (v_vq s)) in *. set (last := vq_last_avail_idx (v_vq s)) in *.
  assert (vstep s s) as H0 by (by apply vframe_vstep).
  apply wpp_bind, wpp_shm_read; [apply ring_avail; [done|done|lia|fold vr; lia]|by eapply step_shm|]. intros i1 s1 F1 _.
  destruct (_ >? _); [done|].
  assert (vstep s s1) as H1 by (by apply vframe_vstep).
  apply wpp_bind, wpp_shm_read; [apply ring_avail; [done|done|lia|fold vr; lia]|by eapply step_shm|]. intros i2 s2 F2 _.
  assert (vframe s s2) as F12 by (by etrans).
  apply wpp_bind. eapply wpp_mono; [apply (vq_poll_safe s s2 i2 last)|].
  { done. } { by apply vframe_vstep. } { by rewrite (proj1 F12). }
  intros more s3 (H3 & L3). destruct more; cbn [negb].
  2: { apply wpp_ret. split_and!; [done|done|right; left; done]. }
  assert (0 <= last mod vr_num vr < vr_num vr) by (apply Z.mod_pos_bound; lia).
  apply wpp_bind, wpp_shm_read; [|by eapply step_shm|].
  { unfold avail_ring_at. rewrite <- Z.add_assoc. apply ring_avail; [done|done|lia|fold vr; lia]. }
  intros nx s4 F4 Hnx. apply wpp_bind. unfold upd_vq at 1. cbn [wpp modify].
  destruct (nx >=? vr_num vr) eqn:En; [done|].
  set (s5 := v_set_vq _ s4). set (b' := VqueueBuf nx _ _).
  assert (vstep s s5) as H5.
  { etrans; [apply H3|]. destruct F4 as (E4 & ? & ?). subst s5. split_and!; cbn; rewrite ?E4; done. }
  assert (vq_wf s5) as Hw5 by (eapply vq_wf_step; [done|apply u16_bound|done]).
  assert (buf_wf b') as Hb'.
  { destruct Hb as [(?&?&?) (?&?&?)]. subst b'. split; split_and!; cbn; auto; lia. }
  eapply wpp_mono; [apply vqueue_chain_safe|].
  - done.
  - by rewrite (proj1 H5).
  - lia.
  - done.
  - unfold chain_fuel, buf_room. destruct Hb as [(?&?&?) (?&?&?)]. subst b'. cbn. lia.
  - intros [ret rb] s6 (Hr & Hwf & (Hh & _) & F6). cbn in *.
    split_and!; [done|etrans; [done|by apply vframe_vstep]|right; right].
    split; [done|]. rewrite Hh. subst b'. cbn. split; [lia|]. rewrite (proj1 F6). done.
Qed.

(** ** What is read when the other side is idle *)

(** One descriptor of the table in [m]. *)
Record vdesc := VDesc { d_addr : Z; d_len : Z; d_flags : Z; d_next : Z }.

Definition read_desc (m : mem) (vr : vring) (i : Z) : vdesc :=
  let d := desc_at vr i in
  VDesc (le_val (shm_bytes m d 8)) (le_val (shm_bytes m (d + 8) 4))
        (le_val (shm_bytes m (d + 12) 2)) (le_val (shm_bytes m (d + 14) 2)).

(** [desc_chain m vr i ds]: the chain that starts at index [i] is [ds]. *)
Inductive desc_chain (m : mem) (vr : vring) : Z -> list vdesc -> Prop :=
| chain_last i d :
    0 <= i < vr_num vr -> d = read_desc m vr i -> has_flag (d_flags d) VRING_DESC_F_NEXT = false ->
    desc_chain m vr i [d]
| chain_next i d ds :
    0 <= i < vr_num vr -> d = read_desc m vr i -> has_flag (d_flags d) VRING_DESC_F_NEXT = true ->
    desc_chain m vr (d_next d) ds -> desc_chain m vr i (d :: ds).

Definition desc_writable (d : vdesc) : bool := has_flag (d_flags d) VRING_DESC_F_WRITE.
Definition desc_seg (d : vdesc) : Z * Z := (u32 (d_addr d), d_len d).

(** The segments a list holds: physical address and length. *)
Definition iovs_segs (l : vqueue_iovs) : list (Z * Z) :=
  zip (take (Z.to_nat (vi_used l)) (vi_phys l)) (iov_len <$> take (Z.to_nat (vi_used l)) (vi_iovs l)).

Lemma iovs_push_segs l addr len l' :
  iovs_wf l -> vi_used l < vi_cnt l -> iovs_push l len addr len = Some l' ->
  iovs_segs l' = iovs_segs l ++ [(addr, len)] /\ vi_len l' = u32 (vi_len l + len).
Proof.
  intros (Hu & Hi & Hp) Hlt. unfold iovs_push.
  destruct (lookup_lt_is_Some_2 (vi_iovs l) (Z.to_nat (vi_used l))) as [v Hv]; [lia|].
  destruct (lookup_lt_is_Some_2 (vi_phys l) (Z.to_nat (vi_used l))) as [p Hp']; [lia|].
  rewrite Hv; cbn; rewrite Hp'; cbn. intros [= <-]. split; [|done]. unfold iovs_segs. cbn.
  replace (Z.to_nat (vi_used l + 1)) with (S (Z.to_nat (vi_used l))) by lia.
  assert (forall {A} (x : list A) (i : nat) y, (i < length x)%nat -> take (S i) (<[i:=y]> x) = take i x ++ [y]) as Htk.
  { intros A x i y Hlen. erewrite take_S_r by (apply list_lookup_insert_eq; lia). by rewrite take_insert_ge by lia. }
  rewrite !Htk by lia. rewrite fmap_app. rewrite zip_with_app; [done|].
  rewrite length_fmap, !length_take. lia.
Qed.

(** The two lists of a buffer after a chain was stored in it. *)
Definition holds_chain (b0 b : vqueue_buf) (ds : list vdesc) : Prop :=
  iovs_segs (vb_in b) = iovs_segs (vb_in b0) ++ (desc_seg <$> filter (fun d => desc_writable d = false) ds) /\
  iovs_segs (vb_out b) = iovs_segs (vb_out b0) ++ (desc_seg <$> filter (fun d => desc_writable d = true) ds).

(** Is there room for the chain? *)
Definition chain_fits (b : vqueue_buf) (ds : list vdesc) : Prop :=
  vi_used (vb_in b) + Z.of_nat (length (filter (fun d => desc_writable d = false) ds)) <= vi_cnt (vb_in b) /\
  vi_used (vb_out b) + Z.of_nat (length (filter (fun d => desc_writable d = true) ds)) <= vi_cnt (vb_out b).

(** Descriptor [d] appended to the list its flags name. *)
Definition buf_push (b : vqueue_buf) (d : vdesc) (l' : vqueue_iovs) : vqueue_buf :=
  if desc_writable d then VqueueBuf (vb_head b) (vb_in b) l' else VqueueBuf (vb_head b) l' (vb_out b).
Definition buf_list (b : vqueue_buf) (d : vdesc) : vqueue_iovs :=
  if desc_writable d then vb_out b else vb_in b.

(** One round of the loop, with the other side idle. *)
Lemma vqueue_chain_round fuel vr i d b s l' :
  vq_wf s -> vr = vq_vring (v_vq s) -> v_env s = [] -> 0 <= i < vr_num vr -> d = read_desc (v_shm s) vr i ->
  vi_used (buf_list b d) < vi_cnt (buf_list b d) ->
  iovs_push (buf_list b d) (d_len d) (u32 (d_addr d)) (d_len d) = Some l' ->
  vqueue_chain_loop (S fuel) vr i b s =
  if has_flag (d_flags d) VRING_DESC_F_NEXT then vqueue_chain_loop fuel vr (d_next d) (buf_push b d l') s
  else Ret (NO_ERROR, buf_push b d l') s.
Proof.
  intros Hw Hvr He Hi Hd Hu Hp.
  assert (forall n off, 0 <= off -> off + Z.of_nat n <= 16 ->
    shm_read n (desc_at vr i + off) s = Ret (le_val (shm_bytes (v_shm s) (desc_at vr i + off) n)) s) as Hrd.
  { intros n off ? ?. apply shm_read_idle; [done|]. eapply in_regions_sub; [apply (vw_desc _ Hw)|..];
      unfold desc_at; rewrite <- Hvr; lia. }
  pose proof (Hrd 8%nat 0 ltac:(lia) ltac:(lia)) as H0. rewrite Z.add_0_r in H0.
  cbn [vqueue_chain_loop]. destruct (i >=? vr_num vr) eqn:E; [lia|]. clear E.
  rewrite (run_bind _ _ _ _ _ (Hrd 2%nat 12 ltac:(lia) ltac:(lia))).
  replace (le_val (shm_bytes (v_shm s) (desc_at vr i + 12) 2)) with (d_flags d) by (by rewrite Hd).
  cbv zeta. fold (desc_writable d). fold (buf_list b d). apply Z.ltb_lt in Hu. rewrite Hu.
  rewrite (run_bind _ _ _ _ _ (Hrd 4%nat 8 ltac:(lia) ltac:(lia))), (run_bind _ _ _ _ _ H0),
    (run_bind _ _ _ _ _ (Hrd 4%nat 8 ltac:(lia) ltac:(lia))).
  replace (le_val (shm_bytes (v_shm s) (desc_at vr i + 8) 4)) with (d_len d) by (by rewrite Hd).
  replace (le_val (shm_bytes (v_shm s) (desc_at vr i) 8)) with (d_addr d) by (by rewrite Hd).
  rewrite Hp. erewrite run_bind by done. rewrite (run_bind _ _ _ _ _ (Hrd 2%nat 14 ltac:(lia) ltac:(lia))),
    (run_bind _ _ _ _ _ (Hrd 2%nat 12 ltac:(lia) ltac:(lia))).
  replace (le_val (shm_bytes (v_shm s) (desc_at vr i + 14) 2)) with (d_next d) by (by rewrite Hd).
  replace (le_val (shm_bytes (v_shm s) (desc_at vr i + 12) 2)) with (d_flags d) by (by rewrite Hd).
  by destruct (has_flag (d_flags d) VRING_DESC_F_NEXT).
Qed.

Lemma buf_push_ok b d l' :
  buf_wf b -> vi_used (buf_list b d) < vi_cnt (buf_list b d) ->
  iovs_push (buf_list b d) (d_len d) (u32 (d_addr d)) (d_len d) = Some l' ->
  buf_wf (buf_push b d l') /\ holds_chain b (buf_push b d l') [d] /\
  (forall ds, chain_fits b (d :: ds) -> chain_fits (buf_push b d l') ds).
Proof.
  intros (Hbi & Hbo) Hu Hp.
  assert (iovs_wf (buf_list b d)) as Hl by (unfold buf_list; by destruct desc_writable).
  destruct (iovs_push_ok _ (d_len d) (u32 (d_addr d)) (d_len d) Hl Hu) as (l2 & E & Hwf & Hc & Hus).
  rewrite Hp in E. injection E as <-.
  destruct (iovs_push_segs _ _ _ _ Hl Hu Hp) as (Hs & _).
  unfold buf_wf, holds_chain, chain_fits, buf_push, buf_list in *.
  destruct (desc_writable d) eqn:Ew; cbn [vb_in vb_out vb_head].
  - rewrite !filter_cons, Ew. rewrite decide_False, decide_True by done. rewrite !filter_nil. cbn [fmap list_fmap]. rewrite app_nil_r.
    split_and!; try done. intros ds. rewrite !filter_cons, Ew. rewrite decide_False, decide_True by done. cbn. lia.
  - rewrite !filter_cons, Ew. rewrite decide_True, decide_False by done. rewrite !filter_nil. cbn [fmap list_fmap]. rewrite app_nil_r.
    split_and!; try done. intros ds. rewrite !filter_cons, Ew. rewrite decide_True, decide_False by done. cbn. lia.
Qed.

Lemma holds_chain_trans b0 b1 b2 d ds :
  holds_chain b0 b1 [d] -> holds_chain b1 b2 ds -> holds_chain b0 b2 (d :: ds).
Proof.
  unfold holds_chain. intros [H1 H2] [-> ->]. rewrite H1, H2, <- !app_assoc, <- !fmap_app, <- !filter_app. done.
Qed.

Lemma chain_fits_head b d ds : chain_fits b (d :: ds) -> vi_used (buf_list b d) < vi_cnt (buf_list b d).
Proof.
  unfold chain_fits, buf_list. rewrite !filter_cons.
  destruct (desc_writable d); [rewrite decide_False, decide_True|rewrite decide_True, decide_False]; cbn; (done || lia).
Qed.

Lemma vqueue_chain_spec fuel vr i ds b s :
  desc_chain (v_shm s) vr i ds -> vq_wf s -> vr = vq_vring (v_vq s) -> v_env s = [] ->
  buf_wf b -> chain_fits b ds -> (length ds <= fuel)%nat ->
  exists b', vqueue_chain_loop fuel vr i b s = Ret (NO_ERROR, b') s /\ holds_chain b b' ds /\ vb_head b' = vb_head b.
Proof.
  intros Hc Hw Hvr He. revert fuel b.
  induction Hc as [i d Hi Hd Hf|i d ds Hi Hd Hf Hc IH]; intros fuel b Hb Hfit Hfuel;
    (destruct fuel as [|fuel]; [cbn in Hfuel; lia|]);
    pose proof (chain_fits_head _ _ _ Hfit) as Hu;
    (assert (iovs_wf (buf_list b d)) as Hl by (destruct Hb; unfold buf_list; by destruct desc_writable));
    destruct (iovs_push_ok _ (d_len d) (u32 (d_addr d)) (d_len d) Hl Hu) as (l' & Hp & _);
    destruct (buf_push_ok _ _ _ Hb Hu Hp) as (Hb' & Hh & Hfits);
    rewrite (vqueue_chain_round _ _ _ d b s l' Hw Hvr He Hi Hd Hu Hp), Hf.
  - eexists; split_and!; [done|done|]. unfold buf_push. by destruct desc_writable.
  - destruct (IH fuel (buf_push b d l') Hb' (Hfits _ Hfit)) as (b' & -> & Hh' & Hhd); [cbn in Hfuel; lia|].
    exists b'. split_and!; [done|by eapply holds_chain_trans|]. rewrite Hhd. unfold buf_push. by destruct desc_writable.
Qed.

Lemma chain_length_fuel b ds : chain_fits b ds -> vi_used (vb_in b) = 0 -> vi_used (vb_out b) = 0 ->
  (length ds <= chain_fuel b)%nat.
Proof.
  unfold chain_fits, chain_fuel. intros [H1 H2] E1 E2.
  assert (length ds = length (filter (fun d => desc_writable d = false) ds) + length (filter (fun d => desc_writable d = true) ds))%nat as ->; [|lia].
  clear. induction ds as [|d ds IH]; [done|]. rewrite !filter_cons.
  destruct (desc_writable d); [rewrite decide_False, decide_True by done|rewrite decide_True, decide_False by done]; cbn [length]; rewrite IH; lia.
Qed.

Lemma vqueue_get_avail_buf_run b s ds :
  let vr := vq_vring (v_vq s) in
  let last := vq_last_avail_idx (v_vq s) in
  let idx := le_val (shm_bytes (v_shm s) (avail_idx_at vr) 2) in
  let head := le_val (shm_bytes (v_shm s) (avail_ring_at vr (last mod vr_num vr)) 2) in
  vq_vring_addr (v_vq s) <> 0 -> vq_wf s -> buf_wf b -> v_env s = [] ->
  idx <> last -> u16 (idx - last) <= u16 (vr_num vr) ->
  desc_chain (v_shm s) vr head ds ->
  chain_fits (VqueueBuf head (iovs_reset (vb_in b)) (iovs_reset (vb_out b))) ds ->
  exists b', vqueue_get_avail_buf b s
             = Ret (NO_ERROR, b') (v_set_vq (vq_set_last_avail_idx (u16 (last + 1)) (v_vq s)) s) /\
    vb_head b' = head /\
    iovs_segs (vb_in b') = (desc_seg <$> filter (fun d => desc_writable d = false) ds) /\
    iovs_segs (vb_out b') = (desc_seg <$> filter (fun d => desc_writable d = true) ds) /\
    buf_wf b' /\ vi_cnt (vb_in b') = vi_cnt (vb_in b) /\ vi_cnt (vb_out b') = vi_cnt (vb_out b).
Proof.
  intros vr last idx head Ha Hw Hb He Hne Hcnt Hc Hfit.
  pose proof (vw_num _ Hw) as Hnum. assert (vstep s s) as H0 by (by apply vframe_vstep).
  assert (shm_read 2 (avail_idx_at vr) s = Ret idx s) as Hidx.
  { apply shm_read_idle; [done|]. apply ring_avail; [done|done|lia|lia]. }
  assert (0 <= last mod vr_num vr < vr_num vr) by (apply Z.mod_pos_bound; subst vr; lia).
  assert (shm_read 2 (avail_ring_at vr (last mod vr_num vr)) s = Ret head s) as Hhd.
  { apply shm_read_idle; [done|]. unfold avail_ring_at. rewrite <- Z.add_assoc.
    apply ring_avail; [done|done|lia|fold vr; lia]. }
  assert (0 <= head < vr_num vr) as Hhead by (by inv Hc).
  unfold vqueue_get_avail_buf. rewrite (run_bind get _ s s s) by done. cbv zeta. fold vr last.
  destruct (Z.eqb_spec (vq_vring_addr (v_vq s)) 0); [done|].
  rewrite (run_bind _ _ _ _ _ Hidx). destruct (u16 (idx - last) >? _) eqn:E; [lia|]. clear E.
  rewrite (run_bind _ _ _ _ _ Hidx). unfold vq_poll. destruct (Z.eqb_spec last idx); [congruence|].
  erewrite run_bind by done. cbn [negb]. rewrite (run_bind _ _ _ _ _ Hhd). erewrite run_bind by done.
  destruct (head >=? vr_num vr) eqn:E; [lia|]. clear E. set (b0 := VqueueBuf _ _ _). set (s' := v_set_vq _ s).
  destruct (vqueue_chain_spec (chain_fuel b0) vr head ds b0 s') as (b' & E & (Hi & Ho) & Hb').
  - done.
  - eapply vq_wf_step; [|apply u16_bound|done]. by split_and!.
  - done.
  - done.
  - destruct Hb as [(?&?&?) (?&?&?)]. subst b0. split; split_and!; cbn; auto; lia.
  - done.
  - by apply chain_length_fuel.
  - assert (buf_wf b0) as Hb0 by (destruct Hb as [(?&?&?) (?&?&?)]; subst b0; split; split_and!; cbn; auto; lia).
    assert (chain_post s' b0 (NO_ERROR, b') s') as (_ & Hwf' & (_ & Ec1 & Ec2) & _).
    { pose proof (vqueue_chain_safe (chain_fuel b0) vr head b0 s') as Hs. unfold wpp in Hs. rewrite E in Hs. apply Hs; try done.
      - eapply vq_wf_step; [|apply u16_bound|done]. by split_and!.
      - lia.
      - destruct Hb0 as [(?&_) (?&_)]. unfold buf_room, chain_fuel. lia. }
    exists b'. split_and!; [done|done|..]; [rewrite Hi|rewrite Ho|done|done|done]; unfold iovs_segs at 1; done.
Qed.

(** With the other side idle, [vqueue_get_avail_buf] takes the next head off
    the avail ring and returns exactly the descriptor chain that starts there:
    the device-readable descriptors in [in_iovs] and the device-writable ones in
    [out_iovs], each with its physical address and length, in chain order.  The
    loop is proved to end with [NO_ERROR] whenever the chain fits. *)
Theorem vqueue_get_avail_buf_reads_chain b s ds :
  let vr := vq_vring (v_vq s) in
  let last := vq_last_avail_idx (v_vq s) in
  let idx := le_val (shm_bytes (v_shm s) (avail_idx_at vr) 2) in
  let head := le_val (shm_bytes (v_shm s) (avail_ring_at vr (last mod vr_num vr)) 2) in
  vq_vring_addr (v_vq s) <> 0 -> vq_wf s -> buf_wf b -> v_env s = [] ->
  idx <> last -> u16 (idx - last) <= u16 (vr_num vr) ->
  desc_chain (v_shm s) vr head ds ->
  chain_fits (VqueueBuf head (iovs_reset (vb_in b)) (iovs_reset (vb_out b))) ds ->
  exists b', vqueue_get_avail_buf b s
             = Ret (NO_ERROR, b') (v_set_vq (vq_set_last_avail_idx (u16 (last + 1)) (v_vq s)) s) /\
    vb_head b' = head /\
    iovs_segs (vb_in b') = (desc_seg <$> filter (fun d => desc_writable d = false) ds) /\
    iovs_segs (vb_out b') = (desc_seg <$> filter (fun d => desc_writable d = true) ds).
Proof.
  intros vr last idx head Ha Hw Hb He Hne Hcnt Hc Hfit.
  destruct (vqueue_get_avail_buf_run b s ds) as (b' & E & Hh & Hi & Ho & _); [done..|]. by exists b'.
Qed.

(** ** Initialisation *)

Lemma mod_multiple x y n : 0 < n -> y mod n = 0 -> (x + y) mod n = x mod n.
Proof. intros Hn Hy. rewrite Z.add_mod, Hy, Z.add_0_r by lia. apply Z.mod_mod. lia. Qed.

(** Multiples of [2^k] below [2^32] are [2^k] below it. *)
Lemma multiple_gap y k : 0 <= k <= 32 -> y < 2 ^ 32 -> y mod 2 ^ k = 0 -> y <= 2 ^ 32 - 2 ^ k.
Proof.
  intros Hk Hy Hm. apply Z.mod_divide in Hm as [q ->]; [|lia].
  replace (2 ^ 32) with (2 ^ (32 - k) * 2 ^ k) in * by (rewrite <- Z.pow_add_r by lia; by replace (32 - k + k) with 32 by lia).
  assert (0 < 2 ^ k) by lia. apply Z.mul_lt_mono_pos_r in Hy; [|lia].
  rewrite <- (Z.mul_1_l (2 ^ k)) at 3. rewrite <- Z.mul_sub_distr_r. apply Z.mul_le_mono_nonneg_r; lia.
Qed.

(** The three rings follow each other inside [vring_size] bytes. *)
Lemma vring_layout num base k :
  0 < num <= 2 ^ 16 -> 0 <= k <= 12 -> 0 <= base -> base mod PAGE_SIZE = 0 ->
  base + vring_size num (2 ^ k) <= 2 ^ 32 ->
  let vr := vring_init num base (2 ^ k) in
  vr_avail vr = base + 16 * num /\
  vr_avail vr + 6 + 2 * num <= vr_used vr /\
  vr_used vr + 6 + 8 * num = base + vring_size num (2 ^ k) /\
  0 < vring_size num (2 ^ k) < 2 ^ 22.
Proof.
  intros Hnum Hk Hb Hal Hfit. unfold PAGE_SIZE in Hal.
  assert (0 < 2 ^ k <= 4096) as Hp by (split; [lia|change 4096 with (2 ^ 12); apply Z.pow_le_mono_r; lia]).
  assert (base mod 2 ^ k = 0) as Hbk.
  { apply Z.mod_divide in Hal; [|lia]. apply Z.mod_divide; [lia|]. etrans; [|exact Hal].
    exists (2 ^ (12 - k)). rewrite <- Z.pow_add_r by lia. by replace (12 - k + k) with 12 by lia. }
  set (x := 16 * num + 2 * (3 + num) + 2 ^ k - 1).
  pose proof (Z.mod_pos_bound x (2 ^ k) ltac:(lia)) as Hm.
  assert (vring_size num (2 ^ k) = x - x mod 2 ^ k + 6 + 8 * num) as Hsz.
  { unfold vring_size. fold x. assert (u32 x = x) as -> by (unfold u32; apply Z.mod_small; subst x; lia).
    rewrite land_round by (subst x; lia). unfold u32. rewrite Z.mod_small by (subst x; lia). lia. }
  assert (x = 18 * num + 5 + 2 ^ k) as Hx by (subst x; lia). clearbody x.
  rewrite Hsz in Hfit |- *. cbn [vring_init vr_avail vr_used].
  assert (u32 (base + num * 16) = base + 16 * num) as Hav by (unfold u32; rewrite Z.mod_small; lia).
  rewrite Hav. replace (base + 16 * num + 4 + 2 * num + 2 + 2 ^ k - 1) with (x + base) by lia.
  assert (x - x mod 2 ^ k + base <= 2 ^ 32 - 2 ^ k).
  { apply multiple_gap; [lia..|]. rewrite mod_multiple by lia. by rewrite Zminus_mod_idemp_r, Z.sub_diag, Z.mod_0_l by lia. }
  assert (u32 (x + base) = x + base) as -> by (unfold u32; apply Z.mod_small; lia).
  rewrite land_round, mod_multiple by lia. lia.
Qed.


(** ** Returning a buffer *)

Lemma vqueue_add_buf_run b len s :
  let vr := vq_vring (v_vq s) in
  let idx := le_val (shm_bytes (v_shm s) (used_idx_at vr) 2) in
  let elem := used_ring_at vr (idx mod vr_num vr) in
  vq_vring_addr (v_vq s) <> 0 -> vq_wf s -> v_env s = [] -> 0 <= vb_head b < vr_num vr ->
  exists m, vqueue_add_buf b len s = Ret NO_ERROR (v_set_shm m s) /\
    le_val (shm_bytes m elem 4) = vb_head b /\
    le_val (shm_bytes m (elem + 4) 4) = u32 len /\
    le_val (shm_bytes m (used_idx_at vr) 2) = u16 (idx + 1) /\
    (forall a n, a + Z.of_nat n <= vr_used vr \/ vr_used vr + 6 + 8 * vr_num vr <= a -> shm_bytes m a n = shm_bytes (v_shm s) a n) /\
    mem_ok m.
Proof.
  intros vr idx elem Ha Hw He Hh. pose proof (vw_num _ Hw) as Hnum. fold vr in Hnum.
  assert (0 <= idx mod vr_num vr < vr_num vr) as Hi by (apply Z.mod_pos_bound; lia).
  assert (forall off n m, 0 <= off -> off + Z.of_nat n <= 6 + 8 * vr_num vr ->
    in_regions (v_regions (v_set_shm m s)) (vr_used vr + off) (Z.of_nat n) = true) as Hin.
  { intros off n m ? ?. eapply in_regions_sub; [apply (vw_used _ Hw)|fold vr; lia..]. }
  unfold vqueue_add_buf. rewrite (run_bind get _ s s s) by done. cbv zeta. fold vr.
  destruct (Z.eqb_spec (vq_vring_addr (v_vq s)) 0); [done|].
  destruct (vb_head b >=? vr_num vr) eqn:E; [lia|]. clear E.
  rewrite (run_bind _ _ _ _ _ (shm_read_idle 2 (used_idx_at vr) s He (Hin 2 2%nat (v_shm s) ltac:(lia) ltac:(lia)))).
  fold idx. fold elem.
  assert (elem = vr_used vr + (4 + 8 * (idx mod vr_num vr))) as Hel by (unfold elem, used_ring_at; lia).
  set (m1 := shm_store (v_shm s) elem (le_bytes 4 (vb_head b))).
  set (m2 := shm_store m1 (elem + 4) (le_bytes 4 (u32 len))).
  set (m3 := shm_store m2 (used_idx_at vr) (le_bytes 2 (u16 (idx + 1)))).
  assert (in_regions (v_regions s) elem (Z.of_nat 4) = true) as H1.
  { rewrite Hel. apply (Hin _ 4%nat (v_shm s)); lia. }
  assert (in_regions (v_regions (v_set_shm m1 s)) (elem + 4) (Z.of_nat 4) = true) as H2.
  { rewrite Hel, <- Z.add_assoc. apply (Hin _ 4%nat); lia. }
  rewrite (run_bind _ _ _ _ _ (shm_write_idle 4 elem (vb_head b) s He H1)). fold m1.
  rewrite (run_bind _ _ _ _ _ (shm_write_idle 4 (elem + 4) (u32 len) (v_set_shm m1 s) He H2)).
  change (v_set_shm _ (v_set_shm m1 s)) with (v_set_shm m2 s).
  rewrite (run_bind _ _ _ _ _ (shm_read_idle 2 (used_idx_at vr) (v_set_shm m2 s) He (Hin 2 2%nat m2 ltac:(lia) ltac:(lia)))).
  cbn [v_set_shm v_shm]. replace (shm_bytes m2 (used_idx_at vr) 2) with (shm_bytes (v_shm s) (used_idx_at vr) 2).
  2: { unfold m2, m1. by rewrite !shm_store_other by (rewrite le_bytes_length; unfold used_idx_at; lia). }
  fold idx.
  rewrite (run_bind _ _ _ _ _ (shm_write_idle 2 (used_idx_at vr) (u16 (idx + 1)) (v_set_shm m2 s) He (Hin 2 2%nat m2 ltac:(lia) ltac:(lia)))).
  exists m3. split; [done|].
  assert (0 <= vb_head b < 2 ^ 32) by lia. unfold m3, m2, m1. split_and!.
  - rewrite !shm_store_other by (rewrite le_bytes_length; unfold used_idx_at; lia).
    rewrite le_val_store. apply Z.mod_small. lia.
  - rewrite shm_store_other by (rewrite le_bytes_length; unfold used_idx_at; lia).
    rewrite le_val_store. apply Z.mod_small. apply u32_bound.
  - rewrite le_val_store. apply Z.mod_small. apply u16_bound.
  - intros a nb Han. by rewrite !shm_store_other by (rewrite le_bytes_length; unfold used_idx_at; lia).
  - repeat (apply shm_store_ok; [|apply le_bytes_ok]). apply Hw.
Qed.

(** [vqueue_add_buf] publishes the buffer: entry [used->idx % num] of the used
    ring then holds the head and the length, [used->idx] is one further at 16
    bits, and the avail ring and the descriptors are as they were. *)
Theorem vqueue_add_buf_publishes b len s :
  let vr := vq_vring (v_vq s) in
  let idx := le_val (shm_bytes (v_shm s) (used_idx_at vr) 2) in
  let elem := used_ring_at vr (idx mod vr_num vr) in
  vq_vring_addr (v_vq s) <> 0 -> vq_wf s -> v_env s = [] -> 0 <= vb_head b < vr_num vr ->
  exists m, vqueue_add_buf b len s = Ret NO_ERROR (v_set_shm m s) /\
    le_val (shm_bytes m elem 4) = vb_head b /\
    le_val (shm_bytes m (elem + 4) 4) = u32 len /\
    le_val (shm_bytes m (used_idx_at vr) 2) = u16 (idx + 1) /\
    (forall a n, a + Z.of_nat n <= vr_used vr -> shm_bytes m a n = shm_bytes (v_shm s) a n).
Proof.
  intros vr idx elem Ha Hw He Hh. destruct (vqueue_add_buf_run b len s Ha Hw He Hh) as (m & E & H1 & H2 & H3 & H4 & _). exists m. split_and!; auto.
Qed.

(** ** Mapping the buffers of a chain *)

(** The region of a mapped entry, and those of the entries of a list, the last
    one mapped first. *)
Definition iov_region (v : iovec_kern) : Z * Z := (iov_base v, ROUNDUP (iov_len v) PAGE_SIZE).
Definition iov_regions (vs : list iovec_kern) : list (Z * Z) := reverse (iov_region <$> vs).

Lemma iov_regions_snoc vs v : iov_regions (vs ++ [v]) = iov_region v :: iov_regions vs.
Proof. unfold iov_regions. by rewrite fmap_app, reverse_app. Qed.

Lemma iov_regions_cons v vs : iov_regions (v :: vs) = iov_regions vs ++ [iov_region v].
Proof. unfold iov_regions. by rewrite fmap_cons, reverse_cons. Qed.

(** An entry the allocator can map: not empty, and not so long that its size
    wraps when it is rounded up. *)
Definition iov_mappable (v : iovec_kern) : Prop := 0 < iov_len v <= 2 ^ 32 - PAGE_SIZE.

Lemma iov_mappable_size v :
  iov_mappable v -> 0 < ROUNDUP (iov_len v) PAGE_SIZE /\ ROUNDUP (iov_len v) PAGE_SIZE mod PAGE_SIZE = 0.
Proof.
  unfold iov_mappable, PAGE_SIZE. intros H. destruct (ROUNDUP_spec (iov_len v) 12) as [? ?]; [lia..|].
  change (2 ^ 12) with 4096 in *. split; [lia|done].
Qed.

Lemma iov_region_base v :
  iov_mappable v -> (iov_region v).1 <= iov_base v < (iov_region v).1 + (iov_region v).2.
Proof. intros H%iov_mappable_size. cbn. lia. Qed.

(** The allocator's promise: an answer for [n] bytes is a non-NULL base whose
    region overlaps none of those mapped. *)
Fixpoint vmm_ok (regions : list (Z * Z)) (answers : list (option Z)) (vs : list iovec_kern) : Prop :=
  match answers, vs with
  | Some base :: answers', v :: vs' =>
      let r := (base, ROUNDUP (iov_len v) PAGE_SIZE) in
      base <> 0 /\ Forall (rdisj r) regions /\ vmm_ok (r :: regions) answers' vs'
  | _, _ => True
  end.

Lemma unmap_down_ok i l s R :
  (i <= length (vi_iovs l))%nat -> v_regions s = iov_regions (take i (vi_iovs l)) ++ R ->
  regions_disj (v_regions s) -> Forall iov_mappable (take i (vi_iovs l)) ->
  exists l', unmap_down i l s = Ret l' (v_set_regions R s).
Proof.
  revert l s. induction i as [|i IH]; intros l s Hi HR Hd Hmp; cbn [unmap_down].
  - exists l. change (v_regions s = R) in HR. subst R. by destruct s.
  - destruct (lookup_lt_is_Some_2 (vi_iovs l) i) as [v Hv]; [lia|].
    rewrite (take_S_r _ _ _ Hv) in HR, Hmp. rewrite iov_regions_snoc in HR.
    apply Forall_app in Hmp as [Hmp Hv']. rewrite Forall_singleton in Hv'.
    rewrite Hv. erewrite run_bind by done. rewrite HR in Hd.
    erewrite run_bind by (apply (vmm_free_middle (iov_base v) s [] (iov_region v)); [done..|by apply iov_region_base]).
    set (s1 := v_set_regions _ s).
    assert (take i (vi_iovs (iovs_set_base i 0 l)) = take i (vi_iovs l)) as Ht.
    { cbn. by rewrite take_alter_ge by lia. }
    destruct (IH (iovs_set_base i 0 l) s1) as (l' & E).
    + cbn. rewrite length_alter. lia.
    + by rewrite Ht.
    + by apply (regions_disj_remove []) in Hd.
    + by rewrite Ht.
    + exists l'. by rewrite E.
Qed.

Lemma unmap_loop_ok k i l s R :
  (i + k <= length (vi_iovs l))%nat -> v_regions s = iov_regions (take k (drop i (vi_iovs l))) ++ R ->
  regions_disj (v_regions s) -> Forall iov_mappable (take k (drop i (vi_iovs l))) ->
  Forall (fun v => iov_base v <> 0) (take k (drop i (vi_iovs l))) ->
  exists l', unmap_loop k i l s = Ret l' (v_set_regions R s).
Proof.
  revert i l s. induction k as [|k IH]; intros i l s Hi HR Hd Hmp Hb; cbn [unmap_loop].
  - exists l. change (v_regions s = R) in HR. subst R. by destruct s.
  - destruct (lookup_lt_is_Some_2 (vi_iovs l) i) as [v Hv]; [lia|].
    rewrite (drop_S _ _ _ Hv) in *. cbn [take] in *. rewrite iov_regions_cons, <- app_assoc in HR.
    apply Forall_cons in Hmp as [Hv' Hmp]. apply Forall_cons in Hb as [Hb0 Hb].
    rewrite Hv. erewrite run_bind by done. destruct (Z.eqb_spec (iov_base v) 0); [done|]. cbn [negb assert_].
    erewrite run_bind by done. rewrite HR in Hd. cbn [app] in Hd, HR.
    erewrite run_bind by (eapply (vmm_free_middle (iov_base v) s _ (iov_region v)); [done..|by apply iov_region_base]).
    set (s1 := v_set_regions _ s).
    assert (drop (S i) (vi_iovs (iovs_set_base i 0 l)) = drop (S i) (vi_iovs l)) as Ht.
    { cbn -[drop]. rewrite drop_alter_lt by lia. done. }
    destruct (IH (S i) (iovs_set_base i 0 l) s1) as (l' & E); rewrite ?Ht; try done.
    + cbn. rewrite length_alter. lia.
    + cbn. by apply regions_disj_remove in Hd.
    + exists l'. by rewrite E.
Qed.

(** The first [n] buffers start on a page boundary. *)
Definition phys_aligned (n : nat) (l : vqueue_iovs) : Prop := Forall (fun p => p mod PAGE_SIZE = 0) (take n (vi_phys l)).

Definition map_post (l : vqueue_iovs) (R : list (Z * Z)) (n : nat) (r : Z * vqueue_iovs) (s' : vstate) : Prop :=
  (r.1 = ERR_NO_MEMORY /\ v_regions s' = R) \/
  (r.1 = NO_ERROR /\ v_regions s' = iov_regions (take n (vi_iovs r.2)) ++ R /\ regions_disj (v_regions s') /\
   Forall (fun v => iov_base v <> 0) (take n (vi_iovs r.2)) /\
   (iov_len <$> vi_iovs r.2) = (iov_len <$> vi_iovs l) /\
   vi_phys r.2 = vi_phys l /\ vi_used r.2 = vi_used l /\ vi_cnt r.2 = vi_cnt l).

Lemma set_base_lens (i : nat) b (vs : list iovec_kern) : iov_len <$> alter (fun v => Iov b (iov_len v)) i vs = iov_len <$> vs.
Proof. revert i. induction vs as [|v vs IH]; intros [|i]; cbn; f_equal; auto. Qed.

Lemma set_base_twice i b1 b2 l : iovs_set_base i b2 (iovs_set_base i b1 l) = iovs_set_base i b2 l.
Proof.
  unfold iovs_set_base. cbn. f_equal. generalize (vi_iovs l). intros vs.
  revert i. induction vs as [|v vs IH]; intros [|i]; cbn; f_equal; auto.
Qed.

Lemma mappable_lens (vs ws : list iovec_kern) : (iov_len <$> vs) = (iov_len <$> ws) -> Forall iov_mappable ws -> Forall iov_mappable vs.
Proof.
  intros E Hw. assert (Forall (fun n => 0 < n <= 2 ^ 32 - PAGE_SIZE) (iov_len <$> vs)) as H.
  { rewrite E. by apply Forall_fmap. }
  by apply Forall_fmap in H.
Qed.

Lemma map_loop_ok k i l s R :
  (i + k <= length (vi_iovs l))%nat -> length (vi_phys l) = length (vi_iovs l) ->
  v_regions s = iov_regions (take i (vi_iovs l)) ++ R -> regions_disj (v_regions s) ->
  Forall iov_mappable (take (i + k) (vi_iovs l)) -> phys_aligned (i + k) l ->
  Forall (fun v => iov_base v <> 0) (take i (vi_iovs l)) ->
  vmm_ok (v_regions s) (v_vmm s) (take k (drop i (vi_iovs l))) ->
  wp (map_loop k i l) (map_post l R (i + k)) s.
Proof.
  revert i l s. induction k as [|k IH]; intros i l s Hi Hlen HR Hd Hmp Hph Hb Hvm; cbn [map_loop].
  { apply wp_ret. right. rewrite Nat.add_0_r. cbn. split_and!; done. }
  destruct (lookup_lt_is_Some_2 (vi_iovs l) i) as [v Hv]; [lia|].
  destruct (lookup_lt_is_Some_2 (vi_phys l) i) as [p Hp]; [lia|].
  rewrite Hv, Hp. apply wp_bind, wp_ret, wp_bind, wp_ret. cbv zeta.
  assert (iov_mappable v) as Hmv by (eapply (Forall_lookup_1 _ _ i); [exact Hmp|]; by rewrite lookup_take_lt by lia).
  assert (p mod PAGE_SIZE = 0) as Hpa by (eapply (Forall_lookup_1 _ _ i) in Hph; [exact Hph|]; by rewrite lookup_take_lt by lia).
  destruct (iov_mappable_size v Hmv) as [Hs0 Hsm]. apply wp_bind.
  destruct (decide (head (v_vmm s) = None \/ head (v_vmm s) = Some None)) as [Hno|Hyes].
  - destruct (vmm_alloc_none (ROUNDUP (iov_len v) PAGE_SIZE) 0 p s Hpa Hsm Hs0 Hno) as (l0 & E).
    unfold wp at 1. rewrite E. cbn [negb Z.eqb]. rewrite set_base_twice.
    assert (take i (vi_iovs (iovs_set_base i 0 l)) = take i (vi_iovs l)) as Ht by (cbn; by rewrite take_alter_ge by lia).
    destruct (unmap_down_ok i (iovs_set_base i 0 l) (v_set_vmm l0 s) R) as (l' & E'); rewrite ?Ht; try done.
    + cbn. rewrite length_alter. lia.
    + apply (Forall_take _ i) in Hmp. by rewrite take_take, Nat.min_l in Hmp by lia.
    + apply wp_bind. unfold wp. rewrite E'. by left.
  - assert (exists base l0, v_vmm s = Some base :: l0) as (base & l0 & Evm).
    { destruct (v_vmm s) as [|[b|] ?]; cbn in Hyes; [tauto|by eauto|tauto]. }
    unfold wp at 1. rewrite (vmm_alloc_some _ 0 p s base l0 Hpa Hsm Hs0 Evm). cbn [negb Z.eqb NO_ERROR].
    rewrite set_base_twice. rewrite Evm, (drop_S _ _ _ Hv) in Hvm. cbn [take vmm_ok] in Hvm.
    destruct Hvm as (Hb0 & Hdj & Hvm).
    set (l1 := iovs_set_base i base l). set (s1 := v_set_vmm _ _).
    assert (take (S i) (vi_iovs l1) = take i (vi_iovs l) ++ [Iov base (iov_len v)]) as Ht.
    { erewrite take_S_r by (cbn; rewrite list_lookup_alter_eq, Hv; done). cbn. by rewrite take_alter_ge by lia. }
    eapply wp_mono; [apply (IH (S i) l1 s1)|].
    + cbn. rewrite length_alter. lia.
    + cbn. by rewrite length_alter.
    + rewrite Ht, iov_regions_snoc. cbn. by rewrite HR.
    + by split.
    + replace (S i + k)%nat with (i + S k)%nat by lia. eapply mappable_lens; [|exact Hmp]. cbn [l1 iovs_set_base vi_iovs].
      by rewrite !fmap_take, set_base_lens.
    + by replace (S i + k)%nat with (i + S k)%nat by lia.
    + rewrite Ht. apply Forall_app; split; [done|]. by apply Forall_singleton.
    + cbn. rewrite drop_alter_lt by lia. done.
    + replace (S i + k)%nat with (i + S k)%nat by lia.
      intros r s2 [?|(? & ? & ? & ? & Hl & ? & ? & ?)]; [by left|right].
      split_and!; try done. rewrite Hl. cbn. apply set_base_lens.
Qed.

(** Mapping the buffers of a chain keeps the kernel's mappings in balance:
    for page-aligned, non-empty buffers, [vqueue_map_iovs] either fails and has
    undone every mapping it made, or maps them all with non-NULL bases, and
    [vqueue_unmap_iovs] then releases exactly these. *)
Theorem vqueue_map_unmap_balanced l s :
  let n := Z.to_nat (vi_used l) in
  iovs_wf l -> 0 < vi_cnt l ->
  Forall iov_mappable (take n (vi_iovs l)) -> phys_aligned n l ->
  regions_disj (v_regions s) -> vmm_ok (v_regions s) (v_vmm s) (take n (vi_iovs l)) ->
  wp (vqueue_map_iovs l) (fun r s' =>
    (r.1 = ERR_NO_MEMORY /\ v_regions s' = v_regions s) \/
    (r.1 = NO_ERROR /\ exists l', vqueue_unmap_iovs r.2 s' = Ret l' (v_set_regions (v_regions s) s'))) s.
Proof.
  intros n (Hu & Hli & Hlp) Hc Hmp Hph Hd Hvm.
  assert (forall l', 0 < vi_cnt l' -> Z.of_nat (length (vi_iovs l')) = vi_cnt l' -> Z.of_nat (length (vi_phys l')) = vi_cnt l' ->
    vi_used l' <= vi_cnt l' -> forall s', iovs_ok_asserts l' s' = Ret tt s') as Hass.
  { intros l' H1 H2 H3 H4 s'. unfold iovs_ok_asserts, mbind, M_bind.
    rewrite !bool_decide_eq_false_2 by (intros E; rewrite E in *; cbn in *; lia). cbn.
    apply Z.leb_le in H4. by rewrite H4. }
  unfold vqueue_map_iovs. apply wp_bind. unfold wp at 1. rewrite Hass by (done || lia).
  eapply wp_mono; [apply (map_loop_ok (Z.to_nat (vi_used l)) 0 l s (v_regions s))|].
  - lia.
  - lia.
  - done.
  - done.
  - done.
  - done.
  - constructor.
  - by rewrite drop_0.
  - intros [st l1] s1 [[? ?]|(Hst & Hr & Hd1 & Hb1 & Hl1 & Hp1 & Hu1 & Hc1)]; [by left|right]. cbn [fst snd] in *.
    split; [done|].
    assert (length (vi_iovs l1) = length (vi_iovs l)) as Hlen by (rewrite <- !(length_fmap iov_len); by rewrite Hl1).
    unfold vqueue_unmap_iovs. rewrite (run_bind _ _ _ _ _ (Hass l1 ltac:(lia) ltac:(lia) ltac:(rewrite Hp1; lia) ltac:(lia) s1)).
    apply unmap_loop_ok; rewrite ?Hu1, ?drop_0, ?Nat.add_0_l in *; try done.
    + lia.
    + eapply mappable_lens; [|exact Hmp]. by rewrite !fmap_take, Hl1.
Qed.

(** A buffer whose length rounds to 0 pages (an empty one, or one within a
    page of 4 GB, where rounding up wraps) is reported as mapped although its base
    stays NULL, and the [DEBUG_ASSERT] of [vqueue_unmap_iovs] then fails.  The
    length comes from the other side. *)
Theorem vqueue_map_iovs_null_base p len s :
  p mod PAGE_SIZE = 0 -> len = 0 \/ 2 ^ 32 - PAGE_SIZE < len < 2 ^ 32 ->
  let l := VqueueIovs 1 1 len [p] [Iov 0 len] in
  vqueue_map_iovs l s = Ret (NO_ERROR, l) s /\ vqueue_unmap_iovs l s = Fault AssertFailed.
Proof.
  intros Hp Hlen l. assert (ROUNDUP len PAGE_SIZE = 0) as Hr.
  { destruct Hlen as [->|Hlen]; [done|]. apply (ROUNDUP_wraps len 12); [lia|exact Hlen]. }
  assert (vmm_alloc_physical (ROUNDUP len PAGE_SIZE) 0 p s = Ret (NO_ERROR, 0) s) as E.
  { rewrite Hr. unfold vmm_alloc_physical. by rewrite Hp. }
  split; [|done]. cbv -[ROUNDUP vmm_alloc_physical PAGE_SIZE]. by rewrite E.
Qed.

(** ** Instances *)

(** A ring of four entries, just initialised. *)
Definition demo_vq : vqueue := Vqueue 0 (Vring 0 0 0 0) 0 0 0 false 0 0 0 false.

(** Descriptor 0 (100 readable bytes at 0x8000) continues with descriptor 1
    (50 writable bytes at 0x9000); entry 0 of the avail ring names it. *)
Definition demo_shm : mem :=
  mem_of [(4096, le_bytes 8 32768 ++ le_bytes 4 100 ++ le_bytes 2 1 ++ le_bytes 2 1);
          (4112, le_bytes 8 36864 ++ le_bytes 4 50 ++ le_bytes 2 2 ++ le_bytes 2 0);
          (4160, le_bytes 2 0 ++ le_bytes 2 1 ++ le_bytes 2 0)].

Definition demo_vstate (env : list (list (Z * Z))) : vstate :=
  VState (Vqueue 0 (vring_init 4 4096 16) 4096 (vring_size 4 16) 0 true 0 0 0 false)
         [(4096, 4096)] demo_shm env [].

Definition demo_iovs : vqueue_iovs := VqueueIovs 1 0 0 [0] [Iov 0 0].
Definition demo_buf : vqueue_buf := VqueueBuf 0 demo_iovs demo_iovs.

Lemma demo_vq_wf env : vq_wf (demo_vstate env).
Proof.
  split; [by vm_compute|by vm_compute|by vm_compute|by vm_compute|by vm_compute|].
  apply (bool_decide_unpack _). vm_compute. exact I.
Qed.

Lemma demo_buf_wf : buf_wf demo_buf.
Proof. by vm_compute. Qed.


(** The other side rewrites the chain while it is read: after the first access
    it lets descriptor 1 point back to itself. *)
Definition demo_attack : list (list (Z * Z)) := [[]; [(4124, 3); (4126, 1)]].

Lemma vqueue_get_avail_buf_safe_witness :
  wpp (vqueue_get_avail_buf demo_buf) (fun r s' =>
    buf_wf r.2 /\ vstep (demo_vstate demo_attack) s' /\
    ((r.1 = ERR_CHANNEL_CLOSED /\ vq_vring_addr (v_vq (demo_vstate demo_attack)) = 0) \/
     (r.1 = ERR_NOT_ENOUGH_BUFFER /\ vq_last_avail_idx (v_vq s') = vq_last_avail_idx (v_vq (demo_vstate demo_attack))) \/
     (took_head r.1 /\ 0 <= vb_head r.2 < vr_num (vq_vring (v_vq (demo_vstate demo_attack))) /\
      vq_last_avail_idx (v_vq s') = u16 (vq_last_avail_idx (v_vq (demo_vstate demo_attack)) + 1)))) (demo_vstate demo_attack).
Proof. apply (vqueue_get_avail_buf_safe demo_buf (demo_vstate demo_attack)); [intros _; apply demo_vq_wf|apply demo_buf_wf]. Defined.

Example demo_attack_caught :
  match vqueue_get_avail_buf demo_buf (demo_vstate demo_attack) with
  | Ret r _ => r.1 = ERR_TOO_BIG
  | Fault _ => False
  end.
Proof. by vm_compute. Qed.

Lemma vqueue_get_avail_buf_reads_chain_witness :
  exists b', vqueue_get_avail_buf demo_buf (demo_vstate []) =
    Ret (NO_ERROR, b') (v_set_vq (vq_set_last_avail_idx (u16 (0 + 1)) (v_vq (demo_vstate []))) (demo_vstate [])) /\
    vb_head b' = 0 /\ iovs_segs (vb_in b') = [(32768, 100)] /\ iovs_segs (vb_out b') = [(36864, 50)].
Proof.
  apply (vqueue_get_avail_buf_reads_chain demo_buf (demo_vstate [])
           [VDesc 32768 100 1 1; VDesc 36864 50 2 0]).
  - by vm_compute.
  - apply demo_vq_wf.
  - apply demo_buf_wf.
  - done.
  - by vm_compute.
  - by vm_compute.
  - apply chain_next; [by vm_compute..|]. apply chain_last; by vm_compute.
  - by vm_compute.
Defined.

Lemma vqueue_add_buf_publishes_witness :
  exists m, vqueue_add_buf demo_buf 33 (demo_vstate []) = Ret NO_ERROR (v_set_shm m (demo_vstate [])) /\
    le_val (shm_bytes m 4180 4) = 0 /\ le_val (shm_bytes m 4184 4) = 33 /\ le_val (shm_bytes m 4178 2) = 1 /\
    (forall a n, a + Z.of_nat n <= 4176 -> shm_bytes m a n = shm_bytes demo_shm a n).
Proof.
  apply (vqueue_add_buf_publishes demo_buf 33 (demo_vstate [])); [by vm_compute|apply demo_vq_wf|done|by vm_compute].
Defined.

(** Two buffers; the allocator finds room for both. *)
Definition demo_iovs2 : vqueue_iovs := VqueueIovs 2 2 150 [32768; 36864] [Iov 0 100; Iov 0 50].
Definition demo_map_state : vstate := VState demo_vq [(4096, 4096)] demo_shm [] [Some 16384; Some 20480].

Lemma vqueue_map_unmap_balanced_witness :
  wp (vqueue_map_iovs demo_iovs2) (fun r s' =>
    (r.1 = ERR_NO_MEMORY /\ v_regions s' = v_regions demo_map_state) \/
    (r.1 = NO_ERROR /\ exists l', vqueue_unmap_iovs r.2 s' = Ret l' (v_set_regions (v_regions demo_map_state) s'))) demo_map_state.
Proof.
  apply (vqueue_map_unmap_balanced demo_iovs2 demo_map_state).
  - by vm_compute.
  - by vm_compute.
  - repeat constructor; by vm_compute.
  - repeat constructor; by vm_compute.
  - by repeat constructor.
  - repeat (first [exact I | split | apply Forall_nil_2 | apply Forall_cons_2 | done | by (right; vm_compute)]).
Defined.

Lemma vqueue_map_iovs_null_base_witness :
  vqueue_map_iovs (VqueueIovs 1 1 (2 ^ 32 - 1) [32768] [Iov 0 (2 ^ 32 - 1)]) demo_map_state =
    Ret (NO_ERROR, VqueueIovs 1 1 (2 ^ 32 - 1) [32768] [Iov 0 (2 ^ 32 - 1)]) demo_map_state /\
  vqueue_unmap_iovs (VqueueIovs 1 1 (2 ^ 32 - 1) [32768] [Iov 0 (2 ^ 32 - 1)]) demo_map_state = Fault AssertFailed.
Proof. apply (vqueue_map_iovs_null_base 32768 (2 ^ 32 - 1) demo_map_state); [done|]. right. by vm_compute. Defined.
