(* ===== verification/Sm.v ===== *)
(** * Secure monitor calls: lk/trusty/lib/sm (sm.c, smcall.c, ns_mem.c)

    The hand-over between the non-secure world and the trusted OS: numbering and
    dispatch of SMCs, the one standard call that can be in progress and the cpu
    that waits for its result, the api version, the boot argument block and the
    threads that switch to the non-secure world. *)

From stdpp Require Import base tactics list.
From Stdlib Require Import ZArith Lia.
From S2P Require Import Prelude.

(** ** smcall.h, sm_err.h *)

Definition SMC_NUM_ENTITIES : Z := 64.
Definition SMC_ENTITY_RESERVED : Z := 5.
Definition SMC_ENTITY_TRUSTED_APP : Z := 48.
Definition SMC_ENTITY_SECURE_MONITOR : Z := 60.

Definition SMC_IS_FASTCALL (smc_nr : Z) : bool := has_flag smc_nr (2 ^ 31).
Definition SMC_IS_SMC64 (smc_nr : Z) : bool := has_flag smc_nr (2 ^ 30).
Definition SMC_ENTITY (smc_nr : Z) : Z := Z.shiftr (Z.land smc_nr (Z.shiftl 63 24)) 24.
Definition SMC_FUNCTION (smc_nr : Z) : Z := Z.land smc_nr (2 ^ 16 - 1).

Definition SMC_NR (entity fn fastcall smc64 : Z) : Z :=
  Z.lor (Z.lor (Z.lor (Z.shiftl (Z.land fastcall 1) 31) (Z.shiftl (Z.land smc64 1) 30))
               (Z.shiftl (Z.land entity 63) 24)) (Z.land fn (2 ^ 16 - 1)).
Definition SMC_STDCALL_NR (entity fn : Z) : Z := SMC_NR entity fn 0 0.
Definition SMC_FASTCALL_NR (entity fn : Z) : Z := SMC_NR entity fn 1 0.

Definition SMC_SC_RESTART_LAST : Z := SMC_STDCALL_NR SMC_ENTITY_SECURE_MONITOR 0.
Definition SMC_SC_LOCKED_NOP : Z := SMC_STDCALL_NR SMC_ENTITY_SECURE_MONITOR 1.
Definition SMC_SC_RESTART_FIQ : Z := SMC_STDCALL_NR SMC_ENTITY_SECURE_MONITOR 2.
Definition SMC_SC_NOP : Z := SMC_STDCALL_NR SMC_ENTITY_SECURE_MONITOR 3.

Definition TRUSTY_API_VERSION_RESTART_FIQ : Z := 1.
Definition TRUSTY_API_VERSION_SMP : Z := 2.
Definition TRUSTY_API_VERSION_CURRENT : Z := 2.

Definition SM_ERR_UNDEFINED_SMC : Z := s32 (2 ^ 32 - 1).
Definition SM_ERR_INVALID_PARAMETERS : Z := -2.
Definition SM_ERR_INTERRUPTED : Z := -3.
Definition SM_ERR_UNEXPECTED_RESTART : Z := -4.
Definition SM_ERR_BUSY : Z := -5.
Definition SM_ERR_INTERLEAVED_SMC : Z := -6.
Definition SM_ERR_INTERNAL_FAILURE : Z := -7.
Definition SM_ERR_FIQ_INTERRUPTED : Z := -12.
Definition SM_ERR_CPU_IDLE : Z := -13.
Definition SM_ERR_NOP_INTERRUPTED : Z := -14.
Definition SM_ERR_NOP_DONE : Z := -15.

Record smc32_args := Smc32Args { smc_nr : Z; smc_params : list Z }.

(** [args->params[i]] *)
Definition param (i : nat) (args : smc32_args) : Z := default 0 (smc_params args !! i).

(** ** State *)

Record sm_std_call_state := StdCall {
  sc_event : bool;
  sc_args : smc32_args;
  sc_ret : Z;
  sc_done : bool;
  sc_active_cpu : Z;
  sc_initial_cpu : Z;
  sc_last_cpu : Z;
  sc_restart_count : Z;
}.

(** A created thread is suspended until it is resumed; [None]: not created. *)
Inductive thread_state := Suspended | Resumed.

Record sm_state := SmState {
  sm_api_version : Z;
  sm_api_version_locked : bool;
  sm_call : sm_std_call_state;
  sm_boot_args : Z;
  sm_boot_args_refcnt : Z;
  sm_regions : list (Z * Z);
  sm_irqevent : list bool;
  sm_irqthreads : list (option thread_state);
  sm_idlethreads : list (option thread_state);
  sm_ns_threads_started : bool;
  sm_irq_thread_ready : list bool;
}.

Definition set_api (v : Z) (l : bool) (s : sm_state) : sm_state :=
  SmState v l (sm_call s) (sm_boot_args s) (sm_boot_args_refcnt s) (sm_regions s) (sm_irqevent s)
          (sm_irqthreads s) (sm_idlethreads s) (sm_ns_threads_started s) (sm_irq_thread_ready s).
Definition set_call (c : sm_std_call_state) (s : sm_state) : sm_state :=
  SmState (sm_api_version s) (sm_api_version_locked s) c (sm_boot_args s) (sm_boot_args_refcnt s) (sm_regions s)
          (sm_irqevent s) (sm_irqthreads s) (sm_idlethreads s) (sm_ns_threads_started s) (sm_irq_thread_ready s).
Definition set_boot (p rc : Z) (r : list (Z * Z)) (s : sm_state) : sm_state :=
  SmState (sm_api_version s) (sm_api_version_locked s) (sm_call s) p rc r (sm_irqevent s)
          (sm_irqthreads s) (sm_idlethreads s) (sm_ns_threads_started s) (sm_irq_thread_ready s).
Definition set_threads (ev : list bool) (irq idle : list (option thread_state)) (started : bool) (ready : list bool)
    (s : sm_state) : sm_state :=
  SmState (sm_api_version s) (sm_api_version_locked s) (sm_call s) (sm_boot_args s) (sm_boot_args_refcnt s)
          (sm_regions s) ev irq idle started ready.

(** ** Api version *)

Definition smc_sm_api_version (args : smc32_args) (s : sm_state) : Z * sm_state :=
  let api_version := u32 (param 0 args) in
  if sm_api_version_locked s then (sm_api_version s, s)
  else
    let v := if api_version >? TRUSTY_API_VERSION_CURRENT then TRUSTY_API_VERSION_CURRENT else api_version in
    (v, set_api v false s).

Definition sm_get_api_version (s : sm_state) : Z * sm_state :=
  let s' := if sm_api_version_locked s then s else set_api (sm_api_version s) true s in
  (sm_api_version s', s').

(** ** The standard call *)

(** The part of [sm_stdcall_loop] after the handler returned. *)
Definition stdcall_finish (ret : Z) (s : sm_state) : sm_state :=
  let c := sm_call s in
  set_call (StdCall false (sc_args c) ret true (sc_active_cpu c) (sc_initial_cpu c) (sc_last_cpu c)
                    (sc_restart_count c)) s.

Definition set_active_cpu (cpu : Z) (c : sm_std_call_state) : sm_std_call_state :=
  StdCall (sc_event c) (sc_args c) (sc_ret c) (sc_done c) cpu (sc_initial_cpu c) (sc_last_cpu c) (sc_restart_count c).
Definition inc_restart_count (c : sm_std_call_state) : sm_std_call_state :=
  StdCall (sc_event c) (sc_args c) (sc_ret c) (sc_done c) (sc_active_cpu c) (sc_initial_cpu c) (sc_last_cpu c)
          (sc_restart_count c + 1).
(** [last_cpu = active_cpu; active_cpu = -1] *)
Definition leave_active_cpu (c : sm_std_call_state) : sm_std_call_state :=
  StdCall (sc_event c) (sc_args c) (sc_ret c) (sc_done c) (-1) (sc_initial_cpu c) (sc_active_cpu c) (sc_restart_count c).

Definition sm_queue_stdcall (cpu : Z) (args : smc32_args) (s : sm_state) : Z * sm_state :=
  let c := sm_call s in
  if sc_event c || sc_done c then
    if (smc_nr args =? SMC_SC_RESTART_LAST) && (sc_active_cpu c =? -1)
    then (0, set_call (set_active_cpu cpu (inc_restart_count c)) s)
    else (SM_ERR_BUSY, s)
  else if smc_nr args =? SMC_SC_RESTART_LAST then (SM_ERR_UNEXPECTED_RESTART, s)
  else (0, set_call (StdCall true args SM_ERR_INTERNAL_FAILURE (sc_done c) cpu cpu (sc_last_cpu c) 0) s).

(** The loop of [sm_return_and_wait_for_next_stdcall] over the calls that come
    in: the values handed to the non-secure world, the first one [ret], and the
    state; [None] while the loop still waits. *)
Fixpoint sm_return_and_wait_for_next_stdcall (cpu ret : Z) (incoming : list smc32_args) (s : sm_state) :
    list Z * option (list smc32_args) * sm_state :=
  match incoming with
  | [] => ([ret], None, s)
  | args :: rest =>
      if smc_nr args =? SMC_SC_NOP then ([ret], Some rest, s)
      else
        let '(ret', s') := sm_queue_stdcall cpu args s in
        if ret' =? 0 then ([ret], Some rest, s')
        else
          let '(out, res, s'') := sm_return_and_wait_for_next_stdcall cpu ret' rest s' in
          (ret :: out, res, s'')
  end.

(** [sm_irq_return_ns] up to its return to the non-secure world. *)
Definition sm_irq_return_ns (cpu : Z) (s : sm_state) : Z * sm_state :=
  let c := sm_call s in
  if sc_active_cpu c =? cpu then (SM_ERR_INTERRUPTED, set_call (leave_active_cpu c) s)
  else (SM_ERR_NOP_INTERRUPTED, s).

Definition sm_get_stdcall_ret (cpu : Z) (s : sm_state) : Z * sm_state :=
  let c := sm_call s in
  if negb (sc_active_cpu c =? cpu) then (SM_ERR_INTERNAL_FAILURE, s)
  else
    let c1 := leave_active_cpu c in
    if sc_done c1 then
      (sc_ret c1,
       set_call (StdCall (sc_event c1) (sc_args c1) (sc_ret c1) false (sc_active_cpu c1) (sc_initial_cpu c1)
                         (sc_last_cpu c1) (sc_restart_count c1)) s)
    else
      let '(v, s') := sm_get_api_version (set_call c1 s) in
      (if v >=? TRUSTY_API_VERSION_SMP then SM_ERR_CPU_IDLE
       else if negb (sc_restart_count c1 =? 0) then SM_ERR_BUSY
       else SM_ERR_INTERRUPTED, s').

(** One round of [sm_wait_for_smcall] up to its return to the non-secure world. *)
Definition sm_wait_for_smcall (cpu : Z) (s : sm_state) : Z * sm_state :=
  if cpu =? sc_active_cpu (sm_call s) then sm_get_stdcall_ret cpu s else (SM_ERR_NOP_DONE, s).

(** [sm_handle_fiq]: the values handed to the non-secure world for the calls
    that come in, and the rest of them once the expected restart came. *)
Fixpoint fiq_loop (expected ret : Z) (incoming : list smc32_args) : list Z * option (list smc32_args) :=
  match incoming with
  | [] => ([ret], None)
  | args :: rest =>
      if smc_nr args =? expected then ([ret], Some rest)
      else let '(out, res) := fiq_loop expected SM_ERR_INTERLEAVED_SMC rest in (ret :: out, res)
  end.

Definition sm_handle_fiq (incoming : list smc32_args) (s : sm_state) :
    list Z * option (list smc32_args) * sm_state :=
  let '(v, s') := sm_get_api_version s in
  if v >=? TRUSTY_API_VERSION_RESTART_FIQ
  then (fiq_loop SMC_SC_RESTART_FIQ SM_ERR_FIQ_INTERRUPTED incoming, s')
  else (fiq_loop SMC_SC_RESTART_LAST SM_ERR_INTERRUPTED incoming, s').

(** ** Threads and boot arguments *)

Abbreviation SM := (M sm_state).

Definition resume (t : option thread_state) : option thread_state :=
  match t with Some _ => Some Resumed | None => None end.

(** [sm_secondary_init] on [cpu]; the flags say whether the two calls of
    [thread_create] succeed. *)
Definition sm_secondary_init (cpu : nat) (irq_ok idle_ok : bool) : SM unit :=
  modify (fun s => set_threads (<[cpu := false]> (sm_irqevent s)) (sm_irqthreads s) (sm_idlethreads s)
                               (sm_ns_threads_started s) (sm_irq_thread_ready s) s);;
  (if irq_ok then
     modify (fun s => set_threads (sm_irqevent s) (<[cpu := Some Suspended]> (sm_irqthreads s)) (sm_idlethreads s)
                                  (sm_ns_threads_started s) (sm_irq_thread_ready s) s)
   else raise Panicked);;
  (if idle_ok then
     modify (fun s => set_threads (sm_irqevent s) (sm_irqthreads s) (<[cpu := Some Suspended]> (sm_idlethreads s))
                                  (sm_ns_threads_started s) (sm_irq_thread_ready s) s)
   else raise Panicked);;
  started ← gets sm_ns_threads_started;
  when started
    (modify (fun s => set_threads (sm_irqevent s) (alter resume cpu (sm_irqthreads s)) (alter resume cpu (sm_idlethreads s))
                                  (sm_ns_threads_started s) (sm_irq_thread_ready s) s)).

Definition SM_PAGE_SIZE : Z := 4096.

(** [sm_init]: [arg1] and [arg2] are [lk_boot_args[1]] and [[2]], [vmm] the answer
    of the region allocator, [thread_ok] that of [thread_create].  For a block
    that rounds to no page [vmm_alloc_physical] leaves [vptr] unset. *)
Definition sm_init (arg1 arg2 : Z) (vmm : option Z) (thread_ok : bool) : SM unit :=
  (if negb (arg1 =? 0) && negb (arg2 =? 0) then
     let offset := Z.land arg1 (SM_PAGE_SIZE - 1) in
     let size := ROUNDUP (u32 (arg2 + offset)) SM_PAGE_SIZE in
     if size =? 0 then raise UninitRead
     else
       match vmm with
       | Some vptr =>
           modify (fun s => set_boot (u32 (vptr + offset)) (sm_boot_args_refcnt s + 1)
                                     ((vptr, size) :: sm_regions s) s)
       | None => modify (fun s => set_boot 0 (sm_boot_args_refcnt s) (sm_regions s) s)
       end
   else mret tt);;
  if thread_ok then mret tt else raise Panicked.

(** Start of [sm_irq_loop]. *)
Definition sm_irq_loop_start (eventcpu : nat) : SM unit :=
  modify (fun s => set_threads (sm_irqevent s) (sm_irqthreads s) (sm_idlethreads s) (sm_ns_threads_started s)
                               (<[eventcpu := true]> (sm_irq_thread_ready s)) s).

(** [sm_handle_irq]: wakes the cpu's switcher thread, or returns to the
    non-secure world itself with the value given. *)
Definition sm_handle_irq (cpu : nat) (s : sm_state) : option Z * sm_state :=
  if default false (sm_irq_thread_ready s !! cpu) then
    (None, set_threads (<[cpu := true]> (sm_irqevent s)) (sm_irqthreads s) (sm_idlethreads s)
                       (sm_ns_threads_started s) (sm_irq_thread_ready s) s)
  else
    let '(ret, s') := sm_irq_return_ns (Z.of_nat cpu) s in (Some ret, s').

Definition sm_get_boot_args (ptrs_ok : bool) (arg2 : Z) (s : sm_state) : (Z * option (Z * Z)) * sm_state :=
  if negb ptrs_ok then ((ERR_INVALID_ARGS, None), s)
  else if sm_boot_args s =? 0 then ((ERR_NOT_CONFIGURED, None), s)
  else ((NO_ERROR, Some (sm_boot_args s, arg2)),
        set_boot (sm_boot_args s) (sm_boot_args_refcnt s + 1) (sm_regions s) s).

Definition resume_nsthreads (s : sm_state) : sm_state :=
  set_threads (sm_irqevent s) (resume <$> sm_irqthreads s) (resume <$> sm_idlethreads s) true (sm_irq_thread_ready s) s.

(** [vmm_free_region]: the region the address is in. *)
Fixpoint sm_region_remove (a : Z) (l : list (Z * Z)) : list (Z * Z) :=
  match l with
  | [] => []
  | r :: l' => if (r.1 <=? a) && (a <? r.1 + r.2) then l' else r :: sm_region_remove a l'
  end.

Definition sm_put_boot_args (s : sm_state) : sm_state :=
  if sm_boot_args s =? 0 then s
  else
    let rc := sm_boot_args_refcnt s - 1 in
    if rc =? 0 then resume_nsthreads (set_boot 0 rc (sm_region_remove (sm_boot_args s) (sm_regions s)) s)
    else set_boot (sm_boot_args s) rc (sm_regions s) s.

Definition sm_release_boot_args (s : sm_state) : sm_state :=
  if sm_boot_args s =? 0 then resume_nsthreads s else sm_put_boot_args s.

(** ** smcall.c: dispatch *)

(** An [smc32_handler_t]: one of smcall.c or one registered by another part of
    the system, by its address. *)
Inductive smc_handler :=
| smc_undefined
| smc_stdcall_secure_monitor
| smc_fastcall_secure_monitor
| smc_registered (f : Z).

#[export] Instance smc_handler_eq_dec : EqDecision smc_handler.
Proof. solve_decision. Defined.

Record smc_tables := SmcTables {
  sm_fastcall_table : list smc_handler;
  sm_stdcall_table : list smc_handler;
}.

Definition init_table (h : smc_handler) : list smc_handler :=
  <[Z.to_nat SMC_ENTITY_SECURE_MONITOR := h]> (replicate (Z.to_nat SMC_NUM_ENTITIES) smc_undefined).

Definition init_tables : smc_tables :=
  SmcTables (init_table smc_fastcall_secure_monitor) (init_table smc_stdcall_secure_monitor).

(** [smc32_entity_t *]: its two handlers, either may be NULL. *)
Definition smc32_entity : Type := option Z * option Z.

Definition sm_register_entity (entity_nr : Z) (entity : option smc32_entity) (t : smc_tables) : Z * smc_tables :=
  if entity_nr >=? SMC_NUM_ENTITIES then (ERR_INVALID_ARGS, t)
  else if (entity_nr >=? SMC_ENTITY_RESERVED) && (entity_nr <? SMC_ENTITY_TRUSTED_APP) then (ERR_NOT_ALLOWED, t)
  else
    match entity with
    | None => (ERR_INVALID_ARGS, t)
    | Some (fast, std) =>
        let i := Z.to_nat entity_nr in
        if bool_decide (fast = None) && bool_decide (std = None) then (ERR_NOT_VALID, t)
        else if negb (bool_decide (sm_fastcall_table t !! i = Some smc_undefined)) ||
                negb (bool_decide (sm_stdcall_table t !! i = Some smc_undefined))
        then (ERR_ALREADY_EXISTS, t)
        else
          (NO_ERROR,
           SmcTables (match fast with Some f => <[i := smc_registered f]> (sm_fastcall_table t)
                                    | None => sm_fastcall_table t end)
                     (match std with Some f => <[i := smc_registered f]> (sm_stdcall_table t)
                                   | None => sm_stdcall_table t end))
    end.

(** [sm_stdcall_function_table]: the functions of the secure monitor entity. *)
Inductive monitor_fn := smc_restart_stdcall | smc_nop_stdcall | smc_undefined_fn.

Definition sm_stdcall_function_table : list monitor_fn :=
  [smc_restart_stdcall; smc_nop_stdcall; smc_restart_stdcall; smc_undefined_fn].

Definition run_monitor_fn (f : monitor_fn) : Z :=
  match f with
  | smc_restart_stdcall => SM_ERR_UNEXPECTED_RESTART
  | smc_nop_stdcall => 0
  | smc_undefined_fn => SM_ERR_UNDEFINED_SMC
  end.

Definition stdcall_secure_monitor (args : smc32_args) : Z :=
  let function := SMC_FUNCTION (smc_nr args) in
  run_monitor_fn (default smc_undefined_fn (sm_stdcall_function_table !! Z.to_nat function)).

Section dispatch.
(** What a handler registered elsewhere returns. *)
Variable run_handler : Z -> smc32_args -> Z.
(** The dispatcher of the monitor's fast calls (assembly). *)
Variable run_fastcall_monitor : smc32_args -> Z.

Definition run_smc_handler (h : smc_handler) (args : smc32_args) : Z :=
  match h with
  | smc_undefined => SM_ERR_UNDEFINED_SMC
  | smc_stdcall_secure_monitor => stdcall_secure_monitor args
  | smc_fastcall_secure_monitor => run_fastcall_monitor args
  | smc_registered f => run_handler f args
  end.

(** One round of [sm_stdcall_loop], once its event is signalled. *)
Definition sm_stdcall_loop (t : smc_tables) : SM unit :=
  fun s =>
    if sc_event (sm_call s) then
      match sm_stdcall_table t !! Z.to_nat (SMC_ENTITY (smc_nr (sc_args (sm_call s)))) with
      | Some h => Ret tt (stdcall_finish (run_smc_handler h (sc_args (sm_call s))) s)
      | None => Fault BadPointer
      end
    else Ret tt s.

(** [smc_get_version_str] over the build's version string. *)
Definition smc_get_version_str (lk_version : list Z) (args : smc32_args) : Z :=
  let index := s32 (param 0 args) in
  let version_len := Z.of_nat (length lk_version) in
  if index =? -1 then version_len
  else if u32 index >=? version_len then SM_ERR_INVALID_PARAMETERS
  else default 0 (lk_version !! Z.to_nat index).
End dispatch.

(** ** ns_mem.c *)

Definition ARCH_MMU_FLAG_CACHED : Z := 0.
Definition ARCH_MMU_FLAG_UNCACHED : Z := 1.
Definition ARCH_MMU_FLAG_PERM_USER : Z := 4.
Definition ARCH_MMU_FLAG_PERM_RO : Z := 8.
Definition ARCH_MMU_FLAG_NS : Z := 32.

Definition NS_PTE_PHYSADDR (pte : Z) : Z := Z.land pte (Z.shiftl (2 ^ 36 - 1) 12).
Definition NS_PTE_AP (pte : Z) : Z := Z.land (Z.shiftr pte 6) 3.
Definition NS_PTE_AP_U (pte : Z) : bool := has_flag (NS_PTE_AP pte) 1.
Definition NS_PTE_AP_RO (pte : Z) : bool := has_flag (NS_PTE_AP pte) 2.
Definition NS_PTE_ATTR_SHAREABLE (pte : Z) : Z := Z.land (Z.shiftr pte 8) 3.
Definition NS_PTE_ATTR_MAIR (pte : Z) : Z := Z.land (Z.shiftr pte 48) 255.
Definition NS_MAIR_NORMAL_CACHED_WB_RWA : Z := 255.
Definition NS_MAIR_NORMAL_UNCACHED : Z := 68.
Definition NS_INNER_SHAREABLE : Z := 3.

(** With [WITH_SMP]; both results requested: status, address, mmu flags. *)
Definition sm_decode_ns_memory_attr (attr : option Z) : Z * option (Z * Z) :=
  match attr with
  | None => (ERR_INVALID_ARGS, None)
  | Some attr =>
      let mair := NS_PTE_ATTR_MAIR attr in
      let flags :=
        if mair =? NS_MAIR_NORMAL_CACHED_WB_RWA then Some ARCH_MMU_FLAG_CACHED
        else if mair =? NS_MAIR_NORMAL_UNCACHED then Some ARCH_MMU_FLAG_UNCACHED
        else None in
      match flags with
      | None => (ERR_NOT_SUPPORTED, None)
      | Some fl =>
          if (fl =? ARCH_MMU_FLAG_CACHED) && negb (NS_PTE_ATTR_SHAREABLE attr =? NS_INNER_SHAREABLE)
          then (ERR_NOT_SUPPORTED, None)
          else
            let fl1 := if NS_PTE_AP_U attr then set_flag fl ARCH_MMU_FLAG_PERM_USER else fl in
            let fl2 := if NS_PTE_AP_RO attr then set_flag fl1 ARCH_MMU_FLAG_PERM_RO else fl1 in
            (NO_ERROR, Some (NS_PTE_PHYSADDR attr, set_flag fl2 ARCH_MMU_FLAG_NS))
      end
  end.

(** Status, and address, size and mmu flags of the buffer. *)
Definition smc32_decode_mem_buf_info (args : smc32_args) : Z * option (Z * Z * Z) :=
  let attr := Z.lor (Z.shiftl (param 1 args) 32) (param 0 args) in
  match sm_decode_ns_memory_attr (Some attr) with
  | (res, Some (pa, mmu)) => (res, Some (pa, param 2 args, mmu))
  | (res, None) => (res, None)
  end.

(** ** All cpus together

    A cpu is in the non-secure world, runs secure threads, or its idle thread
    has seen that it is the active cpu and is about to fetch the result
    (interrupts are off, so only [sm_get_stdcall_ret] comes next).  The lists
    record the calls accepted, the calls finished with their results, and the
    results handed out. *)
Inductive cpu_mode := InNs | InSec | AtRet.

Record sm_world := SmWorld {
  w_sm : sm_state;
  w_mode : list cpu_mode;
  w_queued : list smc32_args;
  w_finished : list (smc32_args * Z);
  w_delivered : list Z;
}.

Definition w_set (s : sm_state) (w : sm_world) : sm_world :=
  SmWorld s (w_mode w) (w_queued w) (w_finished w) (w_delivered w).
Definition w_set_mode (cpu : nat) (m : cpu_mode) (w : sm_world) : sm_world :=
  SmWorld (w_sm w) (<[cpu := m]> (w_mode w)) (w_queued w) (w_finished w) (w_delivered w).

(** Is a new call accepted, rather than a restart of the one in progress? *)
Definition is_new_call (s : sm_state) : bool := negb (sc_event (sm_call s) || sc_done (sm_call s)).

(** The non-secure world enters with [args] on [cpu]. *)
Definition w_enter (cpu : nat) (args : smc32_args) (w : sm_world) : sm_world :=
  if smc_nr args =? SMC_SC_NOP then w_set_mode cpu InSec w
  else
    let '(ret, s') := sm_queue_stdcall (Z.of_nat cpu) args (w_sm w) in
    if ret =? 0 then
      w_set_mode cpu InSec
        (SmWorld s' (w_mode w) (if is_new_call (w_sm w) then w_queued w ++ [args] else w_queued w)
                 (w_finished w) (w_delivered w))
    else w_set s' w.

(** The stdcall thread finishes the call with [ret]. *)
Definition w_finish (ret : Z) (w : sm_world) : sm_world :=
  SmWorld (stdcall_finish ret (w_sm w)) (w_mode w) (w_queued w)
          (w_finished w ++ [(sc_args (sm_call (w_sm w)), ret)]) (w_delivered w).

(** A cpu fetches the result and returns to the non-secure world. *)
Definition w_fetch (cpu : nat) (w : sm_world) : sm_world :=
  let '(ret, s') := sm_get_stdcall_ret (Z.of_nat cpu) (w_sm w) in
  w_set_mode cpu InNs
    (SmWorld s' (w_mode w) (w_queued w) (w_finished w)
             (if sc_done (sm_call (w_sm w)) then w_delivered w ++ [ret] else w_delivered w)).

Inductive sm_step (w : sm_world) : sm_world -> Prop :=
| step_enter cpu args : w_mode w !! cpu = Some InNs -> sm_step w (w_enter cpu args w)
| step_irq cpu :
    w_mode w !! cpu = Some InSec ->
    sm_step w (w_set_mode cpu InNs (w_set (sm_irq_return_ns (Z.of_nat cpu) (w_sm w)).2 w))
| step_idle cpu :
    w_mode w !! cpu = Some InSec -> sc_active_cpu (sm_call (w_sm w)) <> Z.of_nat cpu ->
    sm_step w (w_set_mode cpu InNs w)
| step_check cpu :
    w_mode w !! cpu = Some InSec -> sc_active_cpu (sm_call (w_sm w)) = Z.of_nat cpu ->
    sm_step w (w_set_mode cpu AtRet w)
| step_fetch cpu : w_mode w !! cpu = Some AtRet -> sm_step w (w_fetch cpu w)
| step_finish ret : sc_event (sm_call (w_sm w)) = true -> sm_step w (w_finish ret w)
| step_version args : sm_step w (w_set (smc_sm_api_version args (w_sm w)).2 w)
| step_fiq : sm_step w (w_set (sm_get_api_version (w_sm w)).2 w).

Definition sm_call_init : sm_std_call_state := StdCall false (Smc32Args 0 []) 0 false (-1) (-1) (-1) 0.

(** No call yet, every cpu in the non-secure world. *)
Definition w_init (s : sm_state) (ncpus : nat) : sm_world := SmWorld s (replicate ncpus InNs) [] [] [].

Inductive sm_reach (w0 : sm_world) : sm_world -> Prop :=
| reach_refl : sm_reach w0 w0
| reach_step w w' : sm_reach w0 w -> sm_step w w' -> sm_reach w0 w'.

Record sm_inv (w : sm_world) : Prop := {
  si_excl : sc_event (sm_call (w_sm w)) && sc_done (sm_call (w_sm w)) = false;
  si_active : sc_active_cpu (sm_call (w_sm w)) = -1 \/
              exists cpu m, sc_active_cpu (sm_call (w_sm w)) = Z.of_nat cpu /\ w_mode w !! cpu = Some m /\ m <> InNs;
  si_idle : is_new_call (w_sm w) = true -> sc_active_cpu (sm_call (w_sm w)) = -1;
  si_ret : forall cpu, w_mode w !! cpu = Some AtRet -> sc_active_cpu (sm_call (w_sm w)) = Z.of_nat cpu;
  si_queued : w_queued w = (w_finished w).*1 ++ (if sc_event (sm_call (w_sm w)) then [sc_args (sm_call (w_sm w))] else []);
  si_deliv : (w_finished w).*2 = w_delivered w ++ (if sc_done (sm_call (w_sm w)) then [sc_ret (sm_call (w_sm w))] else []);
}.

Lemma sm_inv_init s n : sm_call s = sm_call_init -> sm_inv (w_init s n).
Proof.
  intros E. split; cbn; rewrite ?E; cbn; auto.
  intros cpu Hc. apply lookup_replicate in Hc as [? _]. done.
Qed.

(** Steps that leave the call in progress and the modes alone. *)
Lemma sm_inv_same_call w s' : sm_inv w -> sm_call s' = sm_call (w_sm w) -> sm_inv (w_set s' w).
Proof. intros [] E. unfold w_set, is_new_call in *. split; cbn; unfold is_new_call; rewrite ?E; auto. Qed.

(** A cpu changes world or thread. *)
Lemma sm_inv_mode w cpu m0 m :
  sm_inv w -> w_mode w !! cpu = Some m0 ->
  (m = InNs -> sc_active_cpu (sm_call (w_sm w)) <> Z.of_nat cpu) ->
  (m = AtRet -> sc_active_cpu (sm_call (w_sm w)) = Z.of_nat cpu) ->
  sm_inv (w_set_mode cpu m w).
Proof.
  intros [I1 I2 I3 I4 I5 I6] Hm Hns Hat.
  assert (cpu < length (w_mode w))%nat as Hlt by (by eapply lookup_lt_Some).
  split; cbn; auto.
  - destruct I2 as [?|(c & mc & Ea & Ec & Hne)]; [by left|right]. exists c.
    destruct (decide (c = cpu)) as [->|Hc].
    + exists m. rewrite list_lookup_insert_eq by done. split_and!; auto. intros ->. by apply Hns.
    + exists mc. by rewrite list_lookup_insert_ne by done.
  - intros c Hc. destruct (decide (c = cpu)) as [->|Hne].
    + rewrite list_lookup_insert_eq in Hc by done. injection Hc as ->. auto.
    + rewrite list_lookup_insert_ne in Hc by done. auto.
Qed.

Lemma sm_inv_not_active w cpu : sm_inv w -> w_mode w !! cpu = Some InNs -> sc_active_cpu (sm_call (w_sm w)) <> Z.of_nat cpu.
Proof.
  intros Hi Hm E. destruct (si_active _ Hi) as [?|(c & m & E' & Hc & Hne)]; [lia|].
  assert (c = cpu) as -> by lia. congruence.
Qed.

(** No cpu is active: none is about to fetch. *)
Lemma sm_inv_no_ret w cpu : sm_inv w -> sc_active_cpu (sm_call (w_sm w)) = -1 -> w_mode w !! cpu <> Some AtRet.
Proof. intros Hi E Hm. pose proof (si_ret _ Hi _ Hm). lia. Qed.

Lemma sm_inv_enter w cpu args : sm_inv w -> w_mode w !! cpu = Some InNs -> sm_inv (w_enter cpu args w).
Proof.
  intros Hi Hm. pose proof (sm_inv_not_active _ _ Hi Hm) as Hna. unfold w_enter.
  destruct (_ =? SMC_SC_NOP); [by eapply sm_inv_mode|]. unfold sm_queue_stdcall, is_new_call.
  destruct (sc_event (sm_call (w_sm w)) || sc_done (sm_call (w_sm w))) eqn:Ebusy.
  - destruct (_ && _) eqn:Er; cbn [Z.eqb]; [|by apply sm_inv_same_call].
    apply andb_true_iff in Er as [_ Er%Z.eqb_eq]. cbn [negb].
    pose proof (fun c => sm_inv_no_ret _ c Hi Er) as Hnr. destruct Hi as [I1 I2 I3 I4 I5 I6].
    split; cbn; unfold is_new_call; cbn; rewrite ?Ebusy; auto.
    + right. exists cpu, InSec. rewrite list_lookup_insert_eq by (by eapply lookup_lt_Some). done.
    + done.
    + intros c Hc. destruct (decide (c = cpu)) as [->|Hne]; [done|]. rewrite list_lookup_insert_ne in Hc by done.
      by destruct (Hnr c).
  - destruct (_ =? SMC_SC_RESTART_LAST); cbn [Z.eqb]; [by apply sm_inv_same_call|]. cbn [negb].
    apply orb_false_iff in Ebusy as [E1 E2].
    assert (sc_active_cpu (sm_call (w_sm w)) = -1) as Ea by (apply (si_idle _ Hi); unfold is_new_call; by rewrite E1, E2).
    pose proof (fun c => sm_inv_no_ret _ c Hi Ea) as Hnr. destruct Hi as [I1 I2 I3 I4 I5 I6].
    rewrite E1, E2 in *. split; cbn; unfold is_new_call; cbn; rewrite ?E2; auto.
    + right. exists cpu, InSec. rewrite list_lookup_insert_eq by (by eapply lookup_lt_Some). done.
    + done.
    + intros c Hc. destruct (decide (c = cpu)) as [->|Hne]; [done|]. rewrite list_lookup_insert_ne in Hc by done.
      by destruct (Hnr c).
    + rewrite I5. by rewrite app_nil_r.
Qed.

Lemma sm_inv_fetch w cpu : sm_inv w -> w_mode w !! cpu = Some AtRet -> sm_inv (w_fetch cpu w).
Proof.
  intros Hi Hm. pose proof (si_ret _ Hi _ Hm) as Ha. pose proof (lookup_lt_Some _ _ _ Hm) as Hlt.
  assert (forall c, <[cpu := InNs]> (w_mode w) !! c = Some AtRet -> False) as Hnr.
  { intros c Hc. destruct (decide (c = cpu)) as [->|Hne].
    - rewrite list_lookup_insert_eq in Hc by done. done.
    - rewrite list_lookup_insert_ne in Hc by done. pose proof (si_ret _ Hi _ Hc). lia. }
  destruct Hi as [I1 I2 I3 I4 I5 I6]. unfold w_fetch, sm_get_stdcall_ret. rewrite Ha, Z.eqb_refl. cbn [negb leave_active_cpu sc_done].
  destruct (sc_done (sm_call (w_sm w))) eqn:Ed.
  - rewrite andb_true_r in I1. split; cbn; unfold is_new_call; cbn; rewrite ?I1 in *; auto.
    + intros c Hc. by destruct (Hnr c).
    + by rewrite app_nil_r.
  - unfold sm_get_api_version. cbn. destruct (sm_api_version_locked (w_sm w)); cbn;
      split; cbn; unfold is_new_call; cbn; rewrite ?Ed; auto; intros c Hc; by destruct (Hnr c).
Qed.

Lemma sm_inv_step w w' : sm_inv w -> sm_step w w' -> sm_inv w'.
Proof.
  intros Hi Hs. destruct Hs as [cpu args Hm|cpu Hm|cpu Hm Ha|cpu Hm Ha|cpu Hm|ret He|args|].
  - by apply sm_inv_enter.
  - unfold sm_irq_return_ns. destruct (Z.eqb_spec (sc_active_cpu (sm_call (w_sm w))) (Z.of_nat cpu)) as [Ea|Ea]; cbn [snd].
    + apply (sm_inv_mode _ _ InSec); [|done|cbn; lia|done].
      assert (forall c, w_mode w !! c = Some AtRet -> False) as Hnr.
      { intros c Hc. pose proof (si_ret _ Hi _ Hc). assert (c = cpu) as -> by lia. congruence. }
      destruct Hi as [I1 I2 I3 I4 I5 I6]. split; cbn; auto. intros c Hc. by destruct (Hnr c).
    + apply (sm_inv_mode _ _ InSec); [by apply sm_inv_same_call|done|done|done].
  - by eapply sm_inv_mode.
  - by eapply sm_inv_mode.
  - by apply sm_inv_fetch.
  - destruct Hi as [I1 I2 I3 I4 I5 I6]. rewrite He in *. cbn in I1. rewrite I1 in *.
    split; cbn; auto.
    + unfold is_new_call. cbn. done.
    + rewrite I5, fmap_app. by rewrite app_nil_r.
    + rewrite fmap_app, I6. by rewrite app_nil_r.
  - apply sm_inv_same_call; [done|]. unfold smc_sm_api_version. by destruct sm_api_version_locked.
  - apply sm_inv_same_call; [done|]. unfold sm_get_api_version. by destruct sm_api_version_locked.
Qed.

Lemma sm_inv_reach w0 w : sm_inv w0 -> sm_reach w0 w -> sm_inv w.
Proof. intros H0. induction 1; [done|by eapply sm_inv_step]. Qed.

(** C2: The monitor never loses, repeats or reorders a standard call: in every
    interleaving of the cpus the calls accepted are those finished, in order,
    plus at most one in progress, and the results of the finished calls are those
    handed out, in order, plus at most one not fetched yet; while a call is in
    progress no result is waiting. *)
Theorem stdcall_exactly_once s n w :
  sm_call s = sm_call_init -> sm_reach (w_init s n) w ->
  exists running waiting,
    w_queued w = (w_finished w).*1 ++ running /\
    (w_finished w).*2 = w_delivered w ++ waiting /\
    (length running + length waiting <= 1)%nat /\
    (running = [] <-> sc_event (sm_call (w_sm w)) = false).
Proof.
  intros E Hr. destruct (sm_inv_reach _ _ (sm_inv_init _ n E) Hr) as [I1 _ _ _ I5 I6].
  eexists _, _. split_and!; [exact I5|exact I6|..];
    destruct (sc_event (sm_call (w_sm w))), (sc_done (sm_call (w_sm w))); cbn in *; try done; lia.
Qed.

(** Only the cpu that waits for the result fetches it: in every reachable
    world a cpu about to call [sm_get_stdcall_ret] is the active one, so its
    error branch is unreachable and no two cpus fetch at once; a cpu in the
    non-secure world is never the active one. *)
Theorem stdcall_fetch_is_active s n w cpu :
  sm_call s = sm_call_init -> sm_reach (w_init s n) w ->
  (w_mode w !! cpu = Some AtRet ->
     sc_active_cpu (sm_call (w_sm w)) = Z.of_nat cpu /\
     (sm_get_stdcall_ret (Z.of_nat cpu) (w_sm w)).1 =
       (if sc_done (sm_call (w_sm w)) then sc_ret (sm_call (w_sm w))
        else if sm_api_version (w_sm w) >=? TRUSTY_API_VERSION_SMP then SM_ERR_CPU_IDLE
        else if sc_restart_count (sm_call (w_sm w)) =? 0 then SM_ERR_INTERRUPTED else SM_ERR_BUSY)) /\
  (w_mode w !! cpu = Some InNs -> sc_active_cpu (sm_call (w_sm w)) <> Z.of_nat cpu).
Proof.
  intros E Hr. pose proof (sm_inv_reach _ _ (sm_inv_init _ n E) Hr) as Hi. split.
  - intros Hm. pose proof (si_ret _ Hi _ Hm) as Ha. split; [done|].
    unfold sm_get_stdcall_ret. rewrite Ha, Z.eqb_refl. cbn [negb leave_active_cpu sc_done].
    destruct (sc_done (sm_call (w_sm w))); [done|].
    unfold sm_get_api_version. cbn -[Z.geb].
    destruct (sm_api_version_locked (w_sm w)); cbn -[Z.geb]; by destruct (sc_restart_count (sm_call (w_sm w)) =? 0).
  - by apply sm_inv_not_active.
Qed.

(** An interrupted standard call can be resumed from any cpu, and nothing
    else disturbs it: while a call is in progress and no cpu waits for it,
    [SMC_SC_RESTART_LAST] makes the entering cpu the waiting one and leaves the
    call alone, every other call is refused with [SM_ERR_BUSY] and changes
    nothing; with no call in progress a restart is refused. *)
Theorem stdcall_restart s cpu args :
  let c := sm_call s in
  (sc_event c || sc_done c = true -> sc_active_cpu c = -1 -> smc_nr args = SMC_SC_RESTART_LAST ->
     exists s', sm_queue_stdcall cpu args s = (0, s') /\
       sc_active_cpu (sm_call s') = cpu /\ sc_args (sm_call s') = sc_args c /\ sc_event (sm_call s') = sc_event c /\
       sc_done (sm_call s') = sc_done c /\ sc_ret (sm_call s') = sc_ret c /\
       sc_restart_count (sm_call s') = sc_restart_count c + 1) /\
  (sc_event c || sc_done c = true -> smc_nr args <> SMC_SC_RESTART_LAST \/ sc_active_cpu c <> -1 ->
     sm_queue_stdcall cpu args s = (SM_ERR_BUSY, s)) /\
  (sc_event c || sc_done c = false -> smc_nr args = SMC_SC_RESTART_LAST ->
     sm_queue_stdcall cpu args s = (SM_ERR_UNEXPECTED_RESTART, s)).
Proof.
  intros c. unfold sm_queue_stdcall. fold c. split_and!.
  - intros -> Ha Hn. rewrite Hn, Ha, !Z.eqb_refl. cbn [andb]. eexists; split; [done|]. by split_and!.
  - intros -> H. destruct (_ && _) eqn:E; [|done]. apply andb_true_iff in E as [?%Z.eqb_eq ?%Z.eqb_eq]. tauto.
  - intros -> Hn. by rewrite Hn, Z.eqb_refl.
Qed.

(** ** Api version *)

Lemma queue_api cpu args s :
  sm_api_version (sm_queue_stdcall cpu args s).2 = sm_api_version s /\
  sm_api_version_locked (sm_queue_stdcall cpu args s).2 = sm_api_version_locked s.
Proof. unfold sm_queue_stdcall. destruct (_ || _), (smc_nr args =? _); cbn; try done. by destruct (_ =? _). Qed.

Lemma fetch_api cpu s :
  sm_api_version (sm_get_stdcall_ret cpu s).2 = sm_api_version s /\
  (sm_api_version_locked s = true -> sm_api_version_locked (sm_get_stdcall_ret cpu s).2 = true).
Proof.
  unfold sm_get_stdcall_ret, sm_get_api_version. destruct (negb _); cbn; [done|].
  destruct (sc_done (sm_call s)); cbn; [done|]. destruct (sm_api_version_locked s) eqn:E; cbn; auto.
Qed.

(** The api version is agreed once: it never exceeds the current one, and
    from the first use on (the lock) no later step of any cpu changes it. *)
Theorem sm_api_version_frozen w w' :
  0 <= sm_api_version (w_sm w) <= TRUSTY_API_VERSION_CURRENT -> sm_reach w w' ->
  0 <= sm_api_version (w_sm w') <= TRUSTY_API_VERSION_CURRENT /\
  (sm_api_version_locked (w_sm w) = true ->
     sm_api_version_locked (w_sm w') = true /\ sm_api_version (w_sm w') = sm_api_version (w_sm w)).
Proof.
  intros H0. induction 1 as [|w1 w2 _ IH Hs]; [done|]. destruct IH as [Hb Hl].
  assert (0 <= sm_api_version (w_sm w2) <= TRUSTY_API_VERSION_CURRENT /\
    (sm_api_version_locked (w_sm w1) = true ->
       sm_api_version_locked (w_sm w2) = true /\ sm_api_version (w_sm w2) = sm_api_version (w_sm w1))) as [Hb2 Hl2].
  { destruct Hs as [cpu args Hm|cpu Hm|cpu Hm Ha|cpu Hm Ha|cpu Hm|ret He|args|]; cbn; auto.
    - pose proof (queue_api (Z.of_nat cpu) args (w_sm w1)) as Hq. unfold w_enter.
      destruct (sm_queue_stdcall _ _ _) as [r s']. cbn in Hq. destruct Hq as [E1 E2].
      destruct (_ =? SMC_SC_NOP); cbn; [auto|]. destruct (r =? 0); cbn; rewrite E1, E2; auto.
    - unfold sm_irq_return_ns. destruct (_ =? _); cbn; auto.
    - pose proof (fetch_api (Z.of_nat cpu) (w_sm w1)) as Hq. unfold w_fetch.
      destruct (sm_get_stdcall_ret _ _) as [r s']. cbn in *. destruct Hq as [-> ?]. auto.
    - unfold smc_sm_api_version. destruct (sm_api_version_locked (w_sm w1)) eqn:El; cbn -[Z.gtb u32]; [auto|].
      split; [|intros ?; congruence]. pose proof (Z.mod_pos_bound (param 0 args) (2 ^ 32) ltac:(lia)). unfold u32, TRUSTY_API_VERSION_CURRENT in *.
      destruct (_ >? _) eqn:E; lia.
    - unfold sm_get_api_version. destruct (sm_api_version_locked (w_sm w1)) eqn:El; cbn; auto. }
  split; [done|]. intros Hlk. destruct (Hl Hlk) as [? ?]. destruct Hl2 as [? ?]; [done|]. split; congruence.
Qed.

(** [sm_handle_fiq] returns to the interrupted code only on the restart call
    of the agreed api version: every other call that comes in is answered with
    [SM_ERR_INTERLEAVED_SMC]. *)
Theorem sm_handle_fiq_restart s pre args rest :
  let fiq := sm_api_version s >=? TRUSTY_API_VERSION_RESTART_FIQ in
  let expected := if fiq then SMC_SC_RESTART_FIQ else SMC_SC_RESTART_LAST in
  let first := if fiq then SM_ERR_FIQ_INTERRUPTED else SM_ERR_INTERRUPTED in
  Forall (fun a => smc_nr a <> expected) pre -> smc_nr args = expected ->
  (sm_handle_fiq (pre ++ args :: rest) s).1 =
    (first :: replicate (length pre) SM_ERR_INTERLEAVED_SMC, Some rest).
Proof.
  intros fiq expected first Hpre Harg.
  assert (forall l exp r, Forall (fun a => smc_nr a <> exp) l -> smc_nr args = exp ->
    fiq_loop exp r (l ++ args :: rest) = (r :: replicate (length l) SM_ERR_INTERLEAVED_SMC, Some rest)) as Hloop.
  { clear. intros l exp r Hl Ha. revert r. induction Hl as [|a l Hna Hl IH]; intros r; cbn.
    - by rewrite Ha, Z.eqb_refl.
    - destruct (Z.eqb_spec (smc_nr a) exp); [done|]. by rewrite IH. }
  unfold sm_handle_fiq, sm_get_api_version.
  replace (sm_api_version (if sm_api_version_locked s then s else set_api (sm_api_version s) true s)) with (sm_api_version s)
    by (by destruct sm_api_version_locked).
  fold fiq. subst expected first. destruct fiq; cbn [fst]; by apply Hloop.
Qed.

(** ** Numbering *)

(** Call numbers carry their four fields: whatever [SMC_NR] packs, the entity,
    function, fast-call and 64-bit tests of smcall.h read back. *)
Theorem smc_nr_roundtrip entity fn fast smc64 :
  0 <= entity < 64 -> 0 <= fn < 2 ^ 16 -> 0 <= fast < 2 -> 0 <= smc64 < 2 ->
  let nr := SMC_NR entity fn fast smc64 in
  0 <= nr < 2 ^ 32 /\ SMC_ENTITY nr = entity /\ SMC_FUNCTION nr = fn /\
  SMC_IS_FASTCALL nr = (fast =? 1) /\ SMC_IS_SMC64 nr = (smc64 =? 1).
Proof.
  intros He Hf Hfc Hs nr.
  assert (forall x k, 0 <= k -> 0 <= x < 2 ^ k -> Z.land x (2 ^ k - 1) = x) as Hmask.
  { intros x k Hk Hx. replace (2 ^ k - 1) with (Z.ones k) by (rewrite Z.ones_equiv; lia).
    rewrite Z.land_ones by lia. by apply Z.mod_small. }
  assert (nr = fast * 2 ^ 31 + smc64 * 2 ^ 30 + entity * 2 ^ 24 + fn) as Enr.
  { subst nr. unfold SMC_NR. rewrite (Hmask fn 16) by lia. change 63 with (2 ^ 6 - 1). rewrite (Hmask entity 6) by lia.
    assert (Z.land fast 1 = fast) as -> by (apply (Hmask fast 1); lia).
    assert (Z.land smc64 1 = smc64) as -> by (apply (Hmask smc64 1); lia).
    rewrite (Z.shiftl_mul_pow2 smc64), (Z.shiftl_mul_pow2 entity) by lia.
    rewrite lor_shift by lia.
    replace (fast * 2 ^ 31 + smc64 * 2 ^ 30) with (Z.shiftl (fast * 2 + smc64) 30) by (rewrite Z.shiftl_mul_pow2 by lia; lia).
    rewrite lor_shift by lia.
    replace ((fast * 2 + smc64) * 2 ^ 30 + entity * 2 ^ 24) with (Z.shiftl ((fast * 2 + smc64) * 64 + entity) 24)
      by (rewrite Z.shiftl_mul_pow2 by lia; lia).
    rewrite lor_shift, Z.shiftl_mul_pow2 by lia. lia. }
  unfold SMC_ENTITY, SMC_FUNCTION, SMC_IS_FASTCALL, SMC_IS_SMC64. rewrite !has_flag_pow2 by lia.
  rewrite Z.shiftr_land, Z.shiftr_shiftl_l by lia. change (Z.shiftl 63 (24 - 24)) with (Z.ones 6).
  change (2 ^ 16 - 1) with (Z.ones 16). rewrite !Z.land_ones, Z.shiftr_div_pow2, !Z.testbit_eqb, Enr by lia.
  split; [lia|]. split_and!.
  - replace (fast * 2 ^ 31 + smc64 * 2 ^ 30 + entity * 2 ^ 24 + fn) with (fn + ((fast * 2 + smc64) * 2 ^ 6 + entity) * 2 ^ 24) by lia.
    rewrite Z.div_add, Z.div_small, Z.add_0_l, Z.add_comm, Z.mod_add, Z.mod_small by lia. done.
  - replace (fast * 2 ^ 31 + smc64 * 2 ^ 30 + entity * 2 ^ 24 + fn) with (fn + (fast * 2 ^ 15 + smc64 * 2 ^ 14 + entity * 2 ^ 8) * 2 ^ 16) by lia.
    rewrite Z.mod_add, Z.mod_small by lia. done.
  - replace (fast * 2 ^ 31 + smc64 * 2 ^ 30 + entity * 2 ^ 24 + fn) with (smc64 * 2 ^ 30 + entity * 2 ^ 24 + fn + fast * 2 ^ 31) by lia.
    rewrite Z.div_add, Z.div_small, Z.add_0_l, Z.mod_small by lia. done.
  - replace (fast * 2 ^ 31 + smc64 * 2 ^ 30 + entity * 2 ^ 24 + fn) with (entity * 2 ^ 24 + fn + (smc64 + fast * 2) * 2 ^ 30) by lia.
    rewrite Z.div_add, Z.div_small, Z.add_0_l, Z.mod_add, Z.mod_small by lia. done.
Qed.

(** ** Registering entities *)

Record tables_wf (t : smc_tables) : Prop := {
  tw_fast_len : length (sm_fastcall_table t) = Z.to_nat SMC_NUM_ENTITIES;
  tw_std_len : length (sm_stdcall_table t) = Z.to_nat SMC_NUM_ENTITIES;
  tw_fast_mon : sm_fastcall_table t !! Z.to_nat SMC_ENTITY_SECURE_MONITOR = Some smc_fastcall_secure_monitor;
  tw_std_mon : sm_stdcall_table t !! Z.to_nat SMC_ENTITY_SECURE_MONITOR = Some smc_stdcall_secure_monitor;
  tw_reserved : forall e, SMC_ENTITY_RESERVED <= e < SMC_ENTITY_TRUSTED_APP ->
    sm_fastcall_table t !! Z.to_nat e = Some smc_undefined /\ sm_stdcall_table t !! Z.to_nat e = Some smc_undefined;
}.

Lemma init_tables_wf : tables_wf init_tables.
Proof.
  split; try done. intros e He. unfold SMC_ENTITY_RESERVED, SMC_ENTITY_TRUSTED_APP in *.
  assert (forall h, init_table h !! Z.to_nat e = Some smc_undefined) as H; [|by split; apply H].
  intros h. unfold init_table. rewrite list_lookup_insert_ne by (unfold SMC_ENTITY_SECURE_MONITOR; lia).
  apply lookup_replicate. split; [done|]. unfold SMC_NUM_ENTITIES. lia.
Qed.

(** A table after an entry that was [smc_undefined] may have been claimed. *)
Definition claimed_at (i : nat) (h : option Z) (l l' : list smc_handler) : Prop :=
  length l' = length l /\ (forall j, j <> i -> l' !! j = l !! j) /\
  l' !! i = match h with Some f => Some (smc_registered f) | None => l !! i end.

Lemma claimed_insert i (h : option Z) (l : list smc_handler) :
  (i < length l)%nat -> claimed_at i h l (match h with Some f => <[i := smc_registered f]> l | None => l end).
Proof.
  intros Hi. destruct h as [f|]; [|done]. split_and!; [by rewrite length_insert|..].
  - intros j Hj. by rewrite list_lookup_insert_ne.
  - by rewrite list_lookup_insert_eq.
Qed.

Lemma sm_register_cases nr ent t :
  tables_wf t -> 0 <= nr ->
  (exists e, sm_register_entity nr ent t = (e, t) /\ e <> NO_ERROR) \/
  (exists fast std t', sm_register_entity nr ent t = (NO_ERROR, t') /\ ent = Some (fast, std) /\
     nr < SMC_NUM_ENTITIES /\ (nr < SMC_ENTITY_RESERVED \/ SMC_ENTITY_TRUSTED_APP <= nr) /\
     sm_fastcall_table t !! Z.to_nat nr = Some smc_undefined /\ sm_stdcall_table t !! Z.to_nat nr = Some smc_undefined /\
     claimed_at (Z.to_nat nr) fast (sm_fastcall_table t) (sm_fastcall_table t') /\
     claimed_at (Z.to_nat nr) std (sm_stdcall_table t) (sm_stdcall_table t')).
Proof.
  intros Hw Hnr. unfold sm_register_entity.
  destruct (nr >=? SMC_NUM_ENTITIES) eqn:E1; [left; by eexists|].
  destruct (_ && _) eqn:E2; [left; by eexists|].
  destruct ent as [[fast std]|]; [|left; by eexists].
  destruct (bool_decide (fast = None) && _); [left; by eexists|].
  destruct (bool_decide_reflect (sm_fastcall_table t !! Z.to_nat nr = Some smc_undefined)) as [F|F]; [|left; by eexists].
  destruct (bool_decide_reflect (sm_stdcall_table t !! Z.to_nat nr = Some smc_undefined)) as [G|G]; [|left; by eexists].
  right. exists fast, std. eexists. split; [done|]. apply andb_false_iff in E2.
  unfold SMC_NUM_ENTITIES, SMC_ENTITY_RESERVED, SMC_ENTITY_TRUSTED_APP in *.
  split_and!; [done|lia|destruct E2; lia|done|done|apply claimed_insert|apply claimed_insert];
    by eapply lookup_lt_Some.
Qed.

Lemma sm_register_wf nr ent t : tables_wf t -> 0 <= nr -> tables_wf (sm_register_entity nr ent t).2.
Proof.
  intros Hw Hnr. destruct (sm_register_cases nr ent t Hw Hnr) as [(e & -> & _)|H]; [done|].
  destruct H as (fast & std & t' & -> & _ & Hlt & Hres & Ff & Gf & (L1 & O1 & _) & (L2 & O2 & _)). cbn [snd].
  destruct Hw as [W1 W2 W3 W4 W5].
  assert (Z.to_nat SMC_ENTITY_SECURE_MONITOR <> Z.to_nat nr) as Hmon by (intros E; rewrite E in *; congruence).
  split; rewrite ?L1, ?L2, ?O1, ?O2 by done; auto.
  intros e He. rewrite O1, O2; [by apply W5|..]; unfold SMC_ENTITY_RESERVED, SMC_ENTITY_TRUSTED_APP in *; lia.
Qed.

(** A sequence of registrations. *)
Definition register_all (regs : list (Z * option smc32_entity)) (t : smc_tables) : smc_tables :=
  foldl (fun t r => (sm_register_entity r.1 r.2 t).2) t regs.

(** Claims on call entities are stable: whatever other parts of the system
    register, in any order, a claimed entry keeps its handler, the secure monitor
    keeps its own, and the reserved entities stay undefined. *)
Theorem sm_register_stable regs t :
  tables_wf t -> Forall (fun r => 0 <= r.1) regs ->
  tables_wf (register_all regs t) /\
  (forall i h, sm_fastcall_table t !! i = Some h -> h <> smc_undefined -> sm_fastcall_table (register_all regs t) !! i = Some h) /\
  (forall i h, sm_stdcall_table t !! i = Some h -> h <> smc_undefined -> sm_stdcall_table (register_all regs t) !! i = Some h).
Proof.
  intros Hw Hr. revert t Hw. induction Hr as [|[nr ent] regs Hnr Hr IH]; intros t Hw; [done|]. cbn [register_all foldl fst snd] in *.
  destruct (IH _ (sm_register_wf nr ent t Hw Hnr)) as (W & Hf & Hs). split_and!; [done|..];
    intros i h Hi Hne; [apply Hf|apply Hs]; [|done| |done];
    (destruct (sm_register_cases nr ent t Hw Hnr) as [(e & -> & _)|H]; [done|]);
    destruct H as (fast & std & t' & -> & _ & _ & _ & Ff & Gf & (_ & O1 & _) & (_ & O2 & _)); cbn [snd];
    [rewrite O1|rewrite O2]; try done; intros ->; congruence.
Qed.

(** A registration that is accepted is what the dispatcher then runs for every
    standard call of that entity, and the entity cannot be claimed again; one that
    is refused leaves both tables as they were. *)
Theorem sm_register_dispatch nr ent t rh rf args :
  tables_wf t -> 0 <= nr -> SMC_ENTITY (smc_nr args) = nr ->
  let '(ret, t') := sm_register_entity nr ent t in
  (ret <> NO_ERROR -> t' = t) /\
  (ret = NO_ERROR -> forall fast f, ent = Some (fast, Some f) ->
     (exists h, sm_stdcall_table t' !! Z.to_nat (SMC_ENTITY (smc_nr args)) = Some h /\
                run_smc_handler rh rf h args = rh f args) /\
     (forall ent', (sm_register_entity nr ent' t').1 <> NO_ERROR)).
Proof.
  intros Hw Hnr Hargs. pose proof (sm_register_wf nr ent t Hw Hnr) as Hw'.
  destruct (sm_register_cases nr ent t Hw Hnr) as [(e & E & He)|H].
  - rewrite E. split; [done|]. intros ->. done.
  - destruct H as (fast & std & t' & E & -> & Hlt & Hres & Ff & Gf & _ & (L2 & _ & O2)). rewrite E in Hw' |- *. cbn [snd] in Hw'.
    split; [done|]. intros _ fast' f [= <- ->]. split.
    + exists (smc_registered f). rewrite Hargs, O2. done.
    + intros ent'. destruct (sm_register_cases nr ent' t' Hw' Hnr) as [(e & -> & He)|H]; [done|].
      destruct H as (? & ? & ? & _ & _ & _ & _ & _ & Gf' & _). congruence.
Qed.

(** ** Boot arguments *)

Inductive boot_op := BootGet | BootPut.

Definition boot_step (arg2 : Z) (s : sm_state) (op : boot_op) : sm_state :=
  match op with
  | BootGet => (sm_get_boot_args true arg2 s).2
  | BootPut => sm_put_boot_args s
  end.

(** The abstract counter: the references held. *)
Definition boot_count (n : Z) (op : boot_op) : Z :=
  if n =? 0 then 0 else match op with BootGet => n + 1 | BootPut => n - 1 end.

(** [n] references are held to the block at [ptr] inside the region [(base, size)]. *)
Definition boot_ok (ptr base size : Z) (R : list (Z * Z)) (n : Z) (s : sm_state) : Prop :=
  sm_boot_args_refcnt s = n /\
  ((0 < n /\ sm_boot_args s = ptr /\ sm_regions s = (base, size) :: R /\ sm_ns_threads_started s = false) \/
   (n = 0 /\ sm_boot_args s = 0 /\ sm_regions s = R /\ sm_ns_threads_started s = true /\
    Forall (fun t => t <> Some Suspended) (sm_irqthreads s ++ sm_idlethreads s))).

Lemma resume_not_suspended l : Forall (fun t => t <> Some Suspended) (resume <$> l).
Proof. apply Forall_fmap, Forall_true. by intros [[]|]. Qed.

Lemma boot_step_ok ptr base size R n s arg2 op :
  base <= ptr < base + size -> ptr <> 0 -> boot_ok ptr base size R n s ->
  boot_ok ptr base size R (boot_count n op) (boot_step arg2 s op).
Proof.
  intros Hin Hp [Hn [(Hpos & Hb & Hr & Hs)|(H0 & Hb & Hr & Hs & Ht)]]; unfold boot_ok, boot_count.
  - destruct (Z.eqb_spec n 0); [lia|]. destruct op; cbn.
    + unfold sm_get_boot_args. cbn. rewrite Hb. destruct (Z.eqb_spec ptr 0); [done|]. cbn. rewrite Hn. split; [lia|].
      left. split_and!; auto; lia.
    + unfold sm_put_boot_args. rewrite Hb, Hn. destruct (Z.eqb_spec ptr 0); [done|].
      destruct (Z.eqb_spec (n - 1) 0) as [E|E]; cbn; (split; [done|]).
      * right. rewrite Hr. cbn. replace ((base <=? ptr) && (ptr <? base + size)) with true
          by (symmetry; apply andb_true_iff; split; [apply Z.leb_le|apply Z.ltb_lt]; lia).
        split_and!; try done. apply Forall_app; split; apply resume_not_suspended.
      * left. split_and!; auto; lia.
  - destruct (Z.eqb_spec n 0); [|lia]. destruct op; cbn.
    + unfold sm_get_boot_args. cbn. rewrite Hb. cbn. split; [lia|right]. by split_and!.
    + unfold sm_put_boot_args. rewrite Hb. cbn. split; [lia|right]. by split_and!.
Qed.

(** The boot argument block lives exactly as long as somebody holds a
    reference: after [sm_init] mapped it, any sequence of [sm_get_boot_args] and
    [sm_put_boot_args] keeps the reference count equal to the references held;
    the block is mapped while that is positive, and the last put unmaps it and
    resumes every thread that switches to the non-secure world. *)
Theorem boot_args_lifetime arg1 arg2 vptr s ops :
  let offset := Z.land arg1 (SM_PAGE_SIZE - 1) in
  let size := ROUNDUP (u32 (arg2 + offset)) SM_PAGE_SIZE in
  0 < arg1 -> 0 < arg2 -> arg2 + offset + SM_PAGE_SIZE <= 2 ^ 32 -> 0 < vptr -> vptr + size <= 2 ^ 32 ->
  sm_boot_args_refcnt s = 0 -> sm_ns_threads_started s = false ->
  exists s1, sm_init arg1 arg2 (Some vptr) true s = Ret tt s1 /\
    boot_ok (vptr + offset) vptr size (sm_regions s) (foldl boot_count 1 ops) (foldl (boot_step arg2) s1 ops).
Proof.
  intros offset size H1 H2 H3 Hv Hsz Hrc Hst. unfold SM_PAGE_SIZE in *.
  assert (0 <= offset < 4096) as Ho.
  { subst offset. change (4096 - 1) with (Z.ones 12). rewrite Z.land_ones by lia. apply Z.mod_pos_bound. lia. }
  assert (u32 (arg2 + offset) = arg2 + offset) as Hu by (unfold u32; apply Z.mod_small; lia).
  destruct (ROUNDUP_spec (arg2 + offset) 12) as [Hr _]; [lia..|]. change (2 ^ 12) with 4096 in Hr.
  assert (arg2 + offset <= size) as Hle by (subst size; rewrite Hu; lia).
  assert (u32 (vptr + offset) = vptr + offset) as Hu2 by (unfold u32; apply Z.mod_small; lia).
  unfold sm_init, SM_PAGE_SIZE. fold offset. fold size. destruct (Z.eqb_spec arg1 0); [lia|]. destruct (Z.eqb_spec arg2 0); [lia|].
  destruct (Z.eqb_spec size 0); [lia|]. cbn [negb andb]. eexists; split; [reflexivity|]. rewrite Hu2.
  set (s1 := set_boot _ _ _ s).
  assert (boot_ok (vptr + offset) vptr size (sm_regions s) 1 s1) as H0.
  { split; [cbn; lia|]. left. split_and!; [lia|done..]. }
  revert H0. generalize 1 as m. clearbody s1. revert s1.
  induction ops as [|op ops IH]; intros s1 m H0; cbn [foldl]; [done|].
  apply IH. apply boot_step_ok; [lia|lia|done].
Qed.

(** ** Non-secure buffers *)

Lemma ns_mmu_flags fl (u r : bool) :
  fl = 0 \/ fl = 1 ->
  let fl1 := if u then set_flag fl ARCH_MMU_FLAG_PERM_USER else fl in
  let fl2 := if r then set_flag fl1 ARCH_MMU_FLAG_PERM_RO else fl1 in
  let mmu := set_flag fl2 ARCH_MMU_FLAG_NS in
  has_flag mmu ARCH_MMU_FLAG_NS = true /\ has_flag mmu ARCH_MMU_FLAG_PERM_USER = u /\
  has_flag mmu ARCH_MMU_FLAG_PERM_RO = r /\ has_flag mmu ARCH_MMU_FLAG_UNCACHED = (fl =? 1).
Proof. intros [->| ->]; destruct u, r; by vm_compute. Qed.

(** The description of a non-secure buffer decodes to a page-aligned address
    below 2^48 and to mapping flags that always carry the non-secure bit, are
    read-only or user-accessible exactly as the page attributes say, and are
    uncached exactly for memory type 0x44; any other type, and cached memory that
    is not inner-shareable, is refused. *)
Theorem sm_decode_ns_memory_attr_spec attr :
  0 <= attr < 2 ^ 64 ->
  let '(res, out) := sm_decode_ns_memory_attr (Some attr) in
  match out with
  | None => res = ERR_NOT_SUPPORTED
  | Some (pa, mmu) =>
      res = NO_ERROR /\ 0 <= pa < 2 ^ 48 /\ pa mod 4096 = 0 /\
      has_flag mmu ARCH_MMU_FLAG_NS = true /\
      has_flag mmu ARCH_MMU_FLAG_PERM_USER = Z.testbit attr 6 /\
      has_flag mmu ARCH_MMU_FLAG_PERM_RO = Z.testbit attr 7 /\
      has_flag mmu ARCH_MMU_FLAG_UNCACHED = (NS_PTE_ATTR_MAIR attr =? NS_MAIR_NORMAL_UNCACHED) /\
      (NS_PTE_ATTR_MAIR attr = NS_MAIR_NORMAL_UNCACHED \/
       NS_PTE_ATTR_MAIR attr = NS_MAIR_NORMAL_CACHED_WB_RWA /\ NS_PTE_ATTR_SHAREABLE attr = NS_INNER_SHAREABLE)
  end.
Proof.
  intros Ha.
  assert (0 <= NS_PTE_PHYSADDR attr < 2 ^ 48 /\ NS_PTE_PHYSADDR attr mod 4096 = 0) as [Hpa Hal].
  { unfold NS_PTE_PHYSADDR.
    assert (Z.land attr (Z.shiftl (2 ^ 36 - 1) 12) = Z.shiftl (Z.land (Z.shiftr attr 12) (Z.ones 36)) 12) as ->.
    { change (2 ^ 36 - 1) with (Z.ones 36). apply Z.bits_inj'. intros i Hi.
      rewrite Z.land_spec, !Z.shiftl_spec by lia. destruct (decide (i < 12)).
      - rewrite !(Z.testbit_neg_r _ (i - 12)) by lia. apply andb_false_r.
      - rewrite Z.land_spec, Z.shiftr_spec by lia. by replace (i - 12 + 12) with i by lia. }
    rewrite Z.shiftl_mul_pow2, Z.land_ones by lia.
    pose proof (Z.mod_pos_bound (Z.shiftr attr 12) (2 ^ 36) ltac:(lia)).
    split; [lia|]. apply Z.mod_mul. lia. }
  assert (NS_PTE_AP_U attr = Z.testbit attr 6 /\ NS_PTE_AP_RO attr = Z.testbit attr 7) as [Hu Hr].
  { pose proof (has_flag_pow2 (NS_PTE_AP attr) 0 ltac:(lia)) as H0. pose proof (has_flag_pow2 (NS_PTE_AP attr) 1 ltac:(lia)) as H1.
    change (2 ^ 0) with 1 in H0. change (2 ^ 1) with 2 in H1. unfold NS_PTE_AP_U, NS_PTE_AP_RO. rewrite H0, H1.
    unfold NS_PTE_AP. rewrite !Z.land_spec, !Z.shiftr_spec by lia. split; apply andb_true_r. }
  unfold sm_decode_ns_memory_attr. rewrite Hu, Hr.
  destruct (Z.eqb_spec (NS_PTE_ATTR_MAIR attr) NS_MAIR_NORMAL_CACHED_WB_RWA) as [Em|Em].
  - destruct (Z.eqb_spec ARCH_MMU_FLAG_CACHED ARCH_MMU_FLAG_CACHED) as [_|]; [|done]. cbn [andb].
    destruct (Z.eqb_spec (NS_PTE_ATTR_SHAREABLE attr) NS_INNER_SHAREABLE); cbn [negb]; [|done].
    destruct (ns_mmu_flags ARCH_MMU_FLAG_CACHED (Z.testbit attr 6) (Z.testbit attr 7)) as (H1 & H2 & H3 & H4); [by left|].
    rewrite H1, H2, H3, H4, Em. split_and!; first [done|apply Hpa|by right].
  - destruct (Z.eqb_spec (NS_PTE_ATTR_MAIR attr) NS_MAIR_NORMAL_UNCACHED) as [Em2|Em2]; [|done].
    destruct (Z.eqb_spec ARCH_MMU_FLAG_UNCACHED ARCH_MMU_FLAG_CACHED) as [|_]; [done|]. cbn [andb].
    destruct (ns_mmu_flags ARCH_MMU_FLAG_UNCACHED (Z.testbit attr 6) (Z.testbit attr 7)) as (H1 & H2 & H3 & H4); [by right|].
    rewrite H1, H2, H3, H4. split_and!; first [done|apply Hpa|by left].
Qed.

(** ** Instances *)

Definition demo_sm : sm_state :=
  SmState 0 false sm_call_init 0 0 [] [false; false] [Some Suspended; None] [Some Suspended; None] false [false; false].

Definition demo_call : smc32_args := Smc32Args (SMC_STDCALL_NR 50 20) [1; 2; 3].
Definition demo_restart : smc32_args := Smc32Args SMC_SC_RESTART_LAST [0; 0; 0].

(** Cpu 0 starts a call and is interrupted; the call finishes meanwhile; cpu 1
    restarts it and is about to fetch the result. *)
Definition demo_world : sm_world :=
  let w1 := w_enter 0 demo_call (w_init demo_sm 2) in
  let w2 := w_set_mode 0 InNs (w_set (sm_irq_return_ns 0 (w_sm w1)).2 w1) in
  let w3 := w_finish 77 w2 in
  let w4 := w_enter 1 demo_restart w3 in
  w_set_mode 1 AtRet w4.

Lemma demo_world_reach : sm_reach (w_init demo_sm 2) demo_world.
Proof.
  eapply reach_step; [|eapply (step_check _ 1); by vm_compute].
  eapply reach_step; [|eapply (step_enter _ 1); by vm_compute].
  eapply reach_step; [|eapply step_finish; by vm_compute].
  eapply reach_step; [|eapply (step_irq _ 0); by vm_compute].
  eapply reach_step; [|eapply (step_enter _ 0); by vm_compute]. constructor.
Qed.

Lemma stdcall_exactly_once_witness :
  exists running waiting,
    w_queued demo_world = (w_finished demo_world).*1 ++ running /\
    (w_finished demo_world).*2 = w_delivered demo_world ++ waiting /\
    (length running + length waiting <= 1)%nat /\
    (running = [] <-> sc_event (sm_call (w_sm demo_world)) = false).
Proof. apply (stdcall_exactly_once demo_sm 2 demo_world); [done|apply demo_world_reach]. Defined.

Lemma stdcall_fetch_is_active_witness :
  sc_active_cpu (sm_call (w_sm demo_world)) = 1 /\ (sm_get_stdcall_ret 1 (w_sm demo_world)).1 = 77.
Proof.
  apply (proj1 (stdcall_fetch_is_active demo_sm 2 demo_world 1 eq_refl demo_world_reach)). by vm_compute.
Defined.

Lemma stdcall_restart_witness :
  exists s', sm_queue_stdcall 1 demo_restart (stdcall_finish 77 demo_sm) = (0, s') /\
    sc_active_cpu (sm_call s') = 1 /\ sc_args (sm_call s') = Smc32Args 0 [] /\ sc_event (sm_call s') = false /\
    sc_done (sm_call s') = true /\ sc_ret (sm_call s') = 77 /\ sc_restart_count (sm_call s') = 1.
Proof. apply (proj1 (stdcall_restart (stdcall_finish 77 demo_sm) 1 demo_restart)); by vm_compute. Defined.

Lemma sm_api_version_frozen_witness :
  0 <= sm_api_version (w_sm demo_world) <= TRUSTY_API_VERSION_CURRENT.
Proof. apply (sm_api_version_frozen (w_init demo_sm 2) demo_world); [by vm_compute|apply demo_world_reach]. Defined.

Lemma sm_handle_fiq_restart_witness :
  (sm_handle_fiq [demo_call; demo_restart; demo_call] demo_sm).1 =
    ([SM_ERR_INTERRUPTED; SM_ERR_INTERLEAVED_SMC], Some [demo_call]).
Proof.
  apply (sm_handle_fiq_restart demo_sm [demo_call] demo_restart [demo_call]); [|by vm_compute].
  repeat constructor. by vm_compute.
Defined.

Lemma smc_nr_roundtrip_witness :
  let nr := SMC_NR 50 20 0 0 in
  0 <= nr < 2 ^ 32 /\ SMC_ENTITY nr = 50 /\ SMC_FUNCTION nr = 20 /\ SMC_IS_FASTCALL nr = false /\ SMC_IS_SMC64 nr = false.
Proof. apply (smc_nr_roundtrip 50 20 0 0); lia. Defined.

Lemma sm_register_stable_witness :
  sm_stdcall_table (register_all [(60, Some (Some 1, Some 2)); (50, Some (None, Some 3)); (7, Some (None, Some 4))] init_tables)
    !! 60%nat = Some smc_stdcall_secure_monitor.
Proof.
  apply (proj2 (sm_register_stable [(60, Some (Some 1, Some 2)); (50, Some (None, Some 3)); (7, Some (None, Some 4))]
           init_tables init_tables_wf ltac:(repeat constructor; cbn; lia))); done.
Defined.

Lemma sm_register_dispatch_witness :
  exists h, sm_stdcall_table (sm_register_entity 50 (Some (None, Some 3)) init_tables).2 !! 50%nat = Some h /\
            run_smc_handler (fun f a => f + smc_nr a) (fun _ => 0) h demo_call = 3 + smc_nr demo_call.
Proof.
  pose proof (sm_register_dispatch 50 (Some (None, Some 3)) init_tables (fun f a => f + smc_nr a) (fun _ => 0) demo_call
                init_tables_wf ltac:(lia) eq_refl) as H.
  apply (proj1 (proj2 H eq_refl None 3 eq_refl)).
Defined.

Lemma boot_args_lifetime_witness :
  exists s1, sm_init 8200 100 (Some 16384) true demo_sm = Ret tt s1 /\
    boot_ok (16384 + 8) 16384 4096 [] 0 (foldl (boot_step 100) s1 [BootGet; BootPut; BootPut]).
Proof. apply (boot_args_lifetime 8200 100 16384 demo_sm [BootGet; BootPut; BootPut]); by vm_compute. Defined.

Lemma sm_decode_ns_memory_attr_spec_witness :
  sm_decode_ns_memory_attr (Some (Z.lor (Z.shiftl 255 48) (Z.lor (Z.shiftl 3 8) 32768))) = (NO_ERROR, Some (32768, 32)) /\
  has_flag 32 ARCH_MMU_FLAG_NS = true.
Proof.
  pose proof (sm_decode_ns_memory_attr_spec (Z.lor (Z.shiftl 255 48) (Z.lor (Z.shiftl 3 8) 32768)) ltac:(by vm_compute)) as H.
  split; [by vm_compute|]. exact (proj1 (proj2 (proj2 (proj2 H)))).
Defined.
