(* ===== verification/Memlog.v ===== *)
(** * The log shared with the non-secure side: lk/trusty/lib/memlog/memlog.c

    The non-secure side registers buffers by standard calls; every buffer gets a
    kernel mapping and a ring in it, and from then on whatever the kernel prints
    is appended to all rings.  The rings are shared memory (Shm.v): the other
    side may change [alloc], [put] and the data between any two accesses.

    [out_count] is the part of lib/io/console.c that runs the registered
    callbacks; the serial port is not modelled. *)

From stdpp Require Import base tactics list gmap.
From Stdlib Require Import ZArith Lia.
From S2P Require Import Prelude Shm Sm.

(** ** State *)

Record memlog := Memlog {
  ml_rb : Z;
  ml_rb_sz : Z;
  ml_buf_pa : Z;
  ml_buf_sz : Z;
}.

(** [log_list] and [print_callbacks], first entry first.  A [struct memlog] is
    allocated exactly while it is on [log_list], so the list also holds the
    objects, under their addresses; a callback is the address of its log
    ([containerof]).  [ml_mallocs]: the answers of [malloc] to come. *)
Record memlogs := Memlogs {
  log_list : list (Z * memlog);
  print_callbacks : list Z;
  ml_mallocs : list (option Z);
}.

Abbreviation mlstate := (shared memlogs).

Definition set_logs (l : list (Z * memlog)) (d : memlogs) : memlogs := Memlogs l (print_callbacks d) (ml_mallocs d).
Definition set_callbacks (l : list Z) (d : memlogs) : memlogs := Memlogs (log_list d) l (ml_mallocs d).
Definition set_mallocs (l : list (option Z)) (d : memlogs) : memlogs := Memlogs (log_list d) (print_callbacks d) l.
Definition upd_ml (f : memlogs -> memlogs) : M mlstate unit := modify (fun s => v_set_dev (f (v_dev s)) s).

(** [struct log_rb]: three words, then the data. *)
Definition rb_alloc (log : memlog) : Z := ml_rb log.
Definition rb_put (log : memlog) : Z := u32 (ml_rb log + 4).
Definition rb_size (log : memlog) : Z := u32 (ml_rb log + 8).
Definition rb_data (log : memlog) (offset : Z) : Z := u32 (ml_rb log + 12 + offset).

Definition TRUSTY_LOG_API_VERSION : Z := 1.
Definition SMC_ENTITY_LOGGING : Z := 51.
Definition SMC_SC_SHARED_LOG_VERSION : Z := SMC_STDCALL_NR SMC_ENTITY_LOGGING 0.
Definition SMC_SC_SHARED_LOG_ADD : Z := SMC_STDCALL_NR SMC_ENTITY_LOGGING 1.
Definition SMC_SC_SHARED_LOG_RM : Z := SMC_STDCALL_NR SMC_ENTITY_LOGGING 2.

(** ** Looking up logs *)

Definition memlog_get_by_pa (pa : Z) (l : list (Z * memlog)) : option (Z * memlog) :=
  List.find (fun e => ml_buf_pa e.2 =? pa) l.

(** Sums are 32 bits wide. *)
Definition overlaps (pa sz : Z) (log : memlog) : bool :=
  negb (u32 (pa + sz) <=? ml_buf_pa log) && negb (pa >=? u32 (ml_buf_pa log + ml_buf_sz log)).

Definition memlog_is_mem_registered (pa sz : Z) (l : list (Z * memlog)) : bool :=
  existsb (fun e => overlaps pa sz e.2) l.

(** [__builtin_clz] has no value at 0. *)
Definition clz32 (v : Z) : M mlstate Z := if v =? 0 then raise Undefined else mret (31 - Z.log2 v).

Definition lower_pow2 (v : Z) : M mlstate Z :=
  n ← clz32 v;
  mret (u32 (Z.shiftl 1 (31 - n))).

(** ** Writing *)

Fixpoint write_loop (log : memlog) (log_offset i : Z) (str : list Z) : M mlstate unit :=
  match str with
  | [] => mret tt
  | c :: str' =>
      let offset := Z.land (u32 (log_offset + i)) (u32 (ml_rb_sz log - 1)) in
      shm_write 1 (rb_data log offset) c;;
      write_loop log log_offset (i + 1) str'
  end.

Definition __memlog_write (log : memlog) (str : list Z) : M mlstate unit :=
  log_offset ← shm_read 4 (rb_alloc log);
  a ← shm_read 4 (rb_alloc log);
  shm_write 4 (rb_alloc log) (u32 (a + Z.of_nat (length str)));;
  write_loop log log_offset 0 str;;
  p ← shm_read 4 (rb_put log);
  shm_write 4 (rb_put log) (u32 (p + Z.of_nat (length str))).

Definition chunk_size : nat := 128.

(** Iterations [i .. i + n) of the chunk loop. *)
Fixpoint chunk_loop (n i : nat) (log : memlog) (str : list Z) : M mlstate unit :=
  match n with
  | O => mret tt
  | S n' =>
      __memlog_write log (take chunk_size (drop (i * chunk_size) str));;
      chunk_loop n' (S i) log str
  end.

Definition memlog_write (log : memlog) (str : list Z) : M mlstate unit :=
  let i := (length str / chunk_size)%nat in
  chunk_loop i 0 log str;;
  let rem := (length str - i * chunk_size)%nat in
  when (negb (rem =? 0)%nat) (__memlog_write log (take rem (drop (i * chunk_size) str))).

Definition memlog_print_callback (cb : Z) (str : list Z) : M mlstate unit :=
  s ← get;
  log ← deref BadPointer (List.find (fun e => e.1 =? cb) (log_list (v_dev s)));
  memlog_write log.2 str.

(** console.c: the registered loggers run one after the other. *)
Definition out_count (str : list Z) : M mlstate unit :=
  s ← get;
  mfor (fun cb => memlog_print_callback cb str) (print_callbacks (v_dev s)).

Definition register_print_callback (cb : Z) : M mlstate unit :=
  upd_ml (fun d => set_callbacks (cb :: print_callbacks d) d).

(** [list_delete] of an entry that is on the list. *)
Definition unregister_print_callback (cb : Z) : M mlstate unit :=
  upd_ml (fun d => set_callbacks (filter (fun c => c <> cb) (print_callbacks d)) d).

(** ** Registering buffers *)

Definition MB : Z := 2 ^ 20.

(** Status and [*va], which holds [va] when the mapping is asked for. *)
Definition map_rb (pa sz va : Z) : M mlstate (Z * Z) :=
  let offset := Z.land pa (MB - 1) in
  let pa' := ROUNDDOWN pa MB in
  let sz' := ROUNDUP (u32 (sz + offset)) MB in
  '(err, va) ← vmm_alloc_physical sz' va pa';
  if negb (err =? 0) then mret (err, va)
  else mret (err, u32 (va + offset)).

Definition ml_malloc : M mlstate (option Z) :=
  s ← get;
  match ml_mallocs (v_dev s) with
  | [] => mret None
  | r :: l => upd_ml (set_mallocs l);; mret r
  end.

(** [stack]: what the uninitialised [va] holds. *)
Definition memlog_add (stack pa sz : Z) : M mlstate Z :=
  s ← get;
  if memlog_is_mem_registered pa sz (log_list (v_dev s)) then mret SM_ERR_INVALID_PARAMETERS
  else
    o ← ml_malloc;
    match o with
    | None => mret SM_ERR_INTERNAL_FAILURE
    | Some p =>
        '(result, va) ← map_rb pa sz stack;
        if negb (result =? NO_ERROR) then mret SM_ERR_INTERNAL_FAILURE
        else
          rb_sz ← lower_pow2 (u32 (sz - 12));
          let log := Memlog va rb_sz pa sz in
          shm_write 4 (rb_size log) rb_sz;;
          shm_write 4 (rb_alloc log) 0;;
          shm_write 4 (rb_put log) 0;;
          upd_ml (fun d => set_logs ((p, log) :: log_list d) d);;
          register_print_callback p;;
          mret 0
    end.

Definition memlog_rm (pa : Z) : M mlstate Z :=
  s ← get;
  match memlog_get_by_pa pa (log_list (v_dev s)) with
  | None => mret SM_ERR_INVALID_PARAMETERS
  | Some (p, log) =>
      unregister_print_callback p;;
      upd_ml (fun d => set_logs (filter (fun e => e.1 <> p) (log_list d)) d);;
      result ← vmm_free_region (ml_rb log);
      if negb (result =? NO_ERROR) then mret SM_ERR_INTERNAL_FAILURE
      else mret 0
  end.

(** ** The standard calls *)

Definition args_get_pa (args : smc32_args) : Z :=
  Z.lor (Z.shiftl (param 1 args) 32) (param 0 args).
Definition args_get_sz (args : smc32_args) : Z := param 2 args.

(** [memlog_add] and [memlog_rm] take a [paddr_t]: the upper word is dropped. *)
Definition memlog_stdcall (stack : Z) (args : smc32_args) : M mlstate Z :=
  if smc_nr args =? SMC_SC_SHARED_LOG_VERSION then mret TRUSTY_LOG_API_VERSION
  else if smc_nr args =? SMC_SC_SHARED_LOG_ADD then memlog_add stack (u32 (args_get_pa args)) (args_get_sz args)
  else if smc_nr args =? SMC_SC_SHARED_LOG_RM then memlog_rm (u32 (args_get_pa args))
  else mret SM_ERR_UNDEFINED_SMC.

(** ** The ring as a sequence of bytes *)

Fixpoint ring_write (data : list Z) (pos : Z) (str : list Z) : list Z :=
  match str with
  | [] => data
  | c :: str' => ring_write (<[Z.to_nat (pos mod Z.of_nat (length data)) := c]> data) (pos + 1) str'
  end.

(** What the other side sees of a log: [alloc], [put] and the data. *)
Definition ring_of (m : mem) (log : memlog) : Z * Z * list Z :=
  (le_val (shm_bytes m (ml_rb log) 4), le_val (shm_bytes m (ml_rb log + 4) 4),
   shm_bytes m (ml_rb log + 12) (Z.to_nat (ml_rb_sz log))).

Definition ring_append (r : Z * Z * list Z) (str : list Z) : Z * Z * list Z :=
  (u32 (r.1.1 + Z.of_nat (length str)), u32 (r.1.2 + Z.of_nat (length str)), ring_write r.2 r.1.1 str).

Lemma ring_write_length data pos str : length (ring_write data pos str) = length data.
Proof. revert data pos. induction str as [|c str IH]; intros data pos; cbn; [done|]. by rewrite IH, length_insert. Qed.

Lemma ring_write_app data pos s1 s2 :
  ring_write data pos (s1 ++ s2) = ring_write (ring_write data pos s1) (pos + Z.of_nat (length s1)) s2.
Proof.
  revert data pos. induction s1 as [|c s1 IH]; intros data pos; cbn [app ring_write length].
  - by rewrite Z.add_0_r.
  - rewrite IH. f_equal. lia.
Qed.

(** Only the position modulo the size matters. *)
Lemma ring_write_mod data pos pos' str :
  pos mod Z.of_nat (length data) = pos' mod Z.of_nat (length data) ->
  ring_write data pos str = ring_write data pos' str.
Proof.
  revert data pos pos'. induction str as [|c str IH]; intros data pos pos' E; cbn; [done|].
  rewrite E. apply IH. rewrite length_insert, <- (Zplus_mod_idemp_l pos), E. by rewrite Zplus_mod_idemp_l.
Qed.

(** A position that is not written keeps its byte. *)
Lemma ring_write_other data pos str (i : nat) :
  (0 < length data)%nat -> (forall j, (j < length str)%nat -> Z.to_nat ((pos + Z.of_nat j) mod Z.of_nat (length data)) <> i) ->
  ring_write data pos str !! i = data !! i.
Proof.
  revert data pos. induction str as [|c str IH]; intros data pos Hd Hi; cbn [ring_write]; [done|].
  rewrite IH; rewrite ?length_insert; [|lia|].
  - apply list_lookup_insert_ne. specialize (Hi 0%nat ltac:(cbn; lia)). by rewrite Z.add_0_r in Hi.
  - intros j Hj. replace (pos + 1 + Z.of_nat j) with (pos + Z.of_nat (S j)) by lia. apply Hi. cbn. lia.
Qed.

(** The last bytes written, as many as fit, are found at their positions. *)
Lemma ring_write_last data pos str (j : nat) c :
  (0 < length data)%nat -> str !! j = Some c -> (length str <= j + length data)%nat ->
  ring_write data pos str !! Z.to_nat ((pos + Z.of_nat j) mod Z.of_nat (length data)) = Some c.
Proof.
  intros Hd Hj Hl. pose proof (lookup_lt_Some _ _ _ Hj) as Hlt.
  rewrite <- (take_drop_middle _ _ _ Hj), ring_write_app. rewrite length_take, Nat.min_l by lia.
  set (d1 := ring_write data pos (take j str)). assert (length d1 = length data) as E by apply ring_write_length.
  cbn [ring_write]. rewrite E. pose proof (Z.mod_pos_bound (pos + Z.of_nat j) (Z.of_nat (length data)) ltac:(lia)) as Hb.
  rewrite ring_write_other; rewrite ?length_insert, ?E; [apply list_lookup_insert_eq; lia|done|].
  intros k Hk Heq. rewrite length_drop in Hk. apply Z2Nat.inj in Heq; [|apply Z.mod_pos_bound; lia|lia].
  assert ((pos + Z.of_nat j + 1 + Z.of_nat k - (pos + Z.of_nat j)) mod Z.of_nat (length data) = 0) as Hz.
  { rewrite Zminus_mod, Heq, Z.sub_diag. apply Z.mod_0_l. lia. }
  replace (pos + Z.of_nat j + 1 + Z.of_nat k - (pos + Z.of_nat j)) with (Z.of_nat (S k)) in Hz by lia.
  rewrite Z.mod_small in Hz by lia. lia.
Qed.

Lemma ring_append_app r s1 s2 :
  (exists k, 0 <= k <= 32 /\ Z.of_nat (length r.2) = 2 ^ k) ->
  ring_append (ring_append r s1) s2 = ring_append r (s1 ++ s2).
Proof.
  intros (k & Hk & Hl). unfold ring_append. cbn [fst snd].
  rewrite length_app, Nat2Z.inj_add, ring_write_app. unfold u32. rewrite !Zplus_mod_idemp_l, !Z.add_assoc. f_equal.
  apply ring_write_mod. rewrite ring_write_length, Hl.
  replace (2 ^ 32) with (2 ^ k * 2 ^ (32 - k)) by (rewrite <- Z.pow_add_r by lia; f_equal; lia).
  by rewrite Z.rem_mul_r, (Z.mul_comm (2 ^ k)), Z_mod_plus_full, Zmod_mod by lia.
Qed.

(** ** Writing is appending to the ring *)

(** A log whose header and data lie in the address space. *)
Definition ring_ok (log : memlog) : Prop :=
  (exists k, 0 <= k < 32 /\ ml_rb_sz log = 2 ^ k) /\ 0 <= ml_rb log /\ ml_rb log + 12 + ml_rb_sz log <= 2 ^ 32.

(** The kernel has it mapped. *)
Definition ring_mapped (regions : list (Z * Z)) (log : memlog) : Prop :=
  in_regions regions (ml_rb log) (12 + ml_rb_sz log) = true.

(** Memory is as before but for [n] bytes at [a]. *)
Definition same_but (a n : Z) (m m' : mem) : Prop := forall x, x < a \/ a + n <= x -> m' !! x = m !! x.

Lemma same_but_trans a n m1 m2 m3 : same_but a n m1 m2 -> same_but a n m2 m3 -> same_but a n m1 m3.
Proof. intros H1 H2 x Hx. by rewrite H2, H1. Qed.

Lemma same_but_weaken a n a' n' m m' : a' <= a -> a + n <= a' + n' -> same_but a n m m' -> same_but a' n' m m'.
Proof. intros ? ? H x Hx. apply H. lia. Qed.

Lemma same_but_bytes a n m m' x k :
  same_but a n m m' -> x + Z.of_nat k <= a \/ a + n <= x -> shm_bytes m' x k = shm_bytes m x k.
Proof.
  intros H Hx. apply list_fmap_ext. intros i y Hy. apply lookup_seq in Hy as (-> & Hlt). cbn. f_equal. apply H. lia.
Qed.

Lemma same_but_store m a bs : same_but a (Z.of_nat (length bs)) m (shm_store m a bs).
Proof.
  intros x Hx. revert m a Hx. induction bs as [|b bs IH]; intros m a Hx; [done|]. cbn [shm_store length] in *.
  rewrite IH by lia. apply lookup_insert_ne. lia.
Qed.

Lemma shm_bytes_insert m a n (i : Z) c :
  0 <= i < Z.of_nat n -> shm_bytes (<[a + i := c]> m) a n = <[Z.to_nat i := c]> (shm_bytes m a n).
Proof.
  intros Hi. apply list_eq. intros j. destruct (decide (j = Z.to_nat i)) as [->|Hj].
  - rewrite list_lookup_insert_eq by (rewrite shm_bytes_length; lia). unfold shm_bytes. rewrite list_lookup_fmap, lookup_seq_lt by lia.
    cbn. f_equal. replace (a + Z.of_nat (Z.to_nat i)) with (a + i) by lia. by rewrite lookup_insert_eq.
  - rewrite list_lookup_insert_ne by lia. unfold shm_bytes. rewrite !list_lookup_fmap.
    destruct (seq 0 n !! j) as [y|] eqn:E; [|done]. apply lookup_seq in E as (-> & ?). cbn. f_equal.
    rewrite lookup_insert_ne by lia. done.
Qed.

Lemma ring_position log x : ring_ok log -> Z.land (u32 x) (u32 (ml_rb_sz log - 1)) = x mod ml_rb_sz log.
Proof.
  intros ((k & Hk & E) & _). rewrite E. assert (0 < 2 ^ k < 2 ^ 32) by (split; [lia|apply Z.pow_lt_mono_r; lia]).
  unfold u32. rewrite (Z.mod_small (2 ^ k - 1)) by lia.
  replace (2 ^ k - 1) with (Z.ones k) by (rewrite Z.ones_equiv; lia). rewrite Z.land_ones by lia.
  replace (2 ^ 32) with (2 ^ k * 2 ^ (32 - k)) by (rewrite <- Z.pow_add_r by lia; f_equal; lia).
  by rewrite Z.rem_mul_r, (Z.mul_comm (2 ^ k)), Z_mod_plus_full, Zmod_mod by lia.
Qed.

Lemma ring_ok_pos log : ring_ok log -> 0 < ml_rb_sz log.
Proof. intros ((k & Hk & ->) & _). lia. Qed.

Section idle.
Context (log : memlog) (Hok : ring_ok log).

Lemma write_loop_idle str off i s :
  v_env s = [] -> ring_mapped (v_regions s) log -> bytes_ok str -> mem_ok (v_shm s) ->
  exists m, write_loop log off i str s = Ret tt (v_set_shm m s) /\ mem_ok m /\
    same_but (ml_rb log + 12) (ml_rb_sz log) (v_shm s) m /\
    shm_bytes m (ml_rb log + 12) (Z.to_nat (ml_rb_sz log)) =
      ring_write (shm_bytes (v_shm s) (ml_rb log + 12) (Z.to_nat (ml_rb_sz log))) (off + i) str.
Proof.
  pose proof (ring_ok_pos log Hok) as Hn. pose proof Hok as (_ & Hrb & Htop).
  intros He Hm Hs. revert i s He Hm. induction Hs as [|c str Hc Hs IH]; intros i s He Hm Hmem; cbn [write_loop ring_write].
  { exists (v_shm s). split; [by destruct s|]. split; [done|]. split; [by intros ? ?|done]. }
  rewrite ring_position by done. pose proof (Z.mod_pos_bound (off + i) (ml_rb_sz log) Hn) as Hp.
  assert (rb_data log ((off + i) mod ml_rb_sz log) = ml_rb log + 12 + (off + i) mod ml_rb_sz log) as ->.
  { unfold rb_data, u32. apply Z.mod_small. lia. }
  set (a := (off + i) mod ml_rb_sz log) in *.
  erewrite run_bind; [|apply shm_write_idle; [done|eapply in_regions_sub; [apply Hm|lia..]]].
  set (s1 := v_set_shm _ s). destruct (IH (i + 1) s1) as (m & -> & Hmem' & Hb & Hd); [done..| |].
  { apply shm_store_ok; [done|apply le_bytes_ok]. }
  exists m. split; [done|]. split; [done|]. cbn [le_bytes shm_store v_set_shm v_shm s1] in Hb, Hd.
  rewrite Z.mod_small in Hb, Hd by done. split.
  - eapply same_but_trans; [|exact Hb]. intros x Hx. apply lookup_insert_ne. lia.
  - rewrite Hd, shm_bytes_insert by lia. rewrite shm_bytes_length, Z2Nat.id by lia. fold a. by rewrite Z.add_assoc.
Qed.

(** What a routine that appends [str] and touches nothing else does. *)
Definition appends (f : M mlstate unit) (str : list Z) : Prop :=
  forall s, v_env s = [] -> ring_mapped (v_regions s) log -> mem_ok (v_shm s) ->
  exists m, f s = Ret tt (v_set_shm m s) /\ mem_ok m /\ same_but (ml_rb log) (12 + ml_rb_sz log) (v_shm s) m /\
    ring_of m log = ring_append (ring_of (v_shm s) log) str.

Lemma memlog_write1_appends str : bytes_ok str -> appends (__memlog_write log str) str.
Proof.
  pose proof (ring_ok_pos log Hok) as Hn. pose proof Hok as (_ & Hrb & Htop). intros Hs s He Hm Hmem. unfold __memlog_write.
  assert (forall off, 0 <= off <= 8 -> in_regions (v_regions s) (ml_rb log + off) (Z.of_nat 4) = true) as Hw.
  { intros off ?. eapply in_regions_sub; [apply Hm|lia..]. }
  assert (rb_alloc log = ml_rb log + 0) as Ea by (unfold rb_alloc; lia).
  assert (rb_put log = ml_rb log + 4) as Ep by (unfold rb_put, u32; apply Z.mod_small; lia). rewrite Ea, Ep.
  do 2 (erewrite run_bind; [|apply shm_read_idle; [done|apply Hw; lia]]).
  erewrite run_bind; [|apply shm_write_idle; [done|apply Hw; lia]].
  rewrite (Z.add_0_r (ml_rb log)). set (alloc := le_val (shm_bytes (v_shm s) (ml_rb log) 4)). set (s1 := v_set_shm _ s).
  destruct (write_loop_idle str alloc 0 s1) as (m2 & E2 & Hmem2 & Hb2 & Hd2); [done..|by apply shm_store_ok, le_bytes_ok|].
  rewrite (run_bind _ _ _ _ _ E2). set (s2 := v_set_shm m2 s1).
  erewrite run_bind; [|apply shm_read_idle; [done|apply Hw; lia]]. set (put := le_val _).
  rewrite shm_write_idle by (try done; apply Hw; lia). eexists. split; [reflexivity|]. split; [by apply shm_store_ok, le_bytes_ok|].
  cbn [v_set_shm v_shm s1 s2] in *. rewrite Z.add_0_r in Hd2.
  set (m1 := shm_store (v_shm s) (ml_rb log) _) in *. set (m3 := shm_store m2 _ _).
  assert (same_but (ml_rb log) 4 (v_shm s) m1) as B1 by (apply (same_but_store _ _ (le_bytes 4 _))).
  assert (same_but (ml_rb log + 4) 4 m2 m3) as B3 by (apply (same_but_store _ _ (le_bytes 4 _))).
  split.
  - eapply same_but_trans; [|eapply same_but_trans]; (eapply same_but_weaken; [| |eassumption]); lia.
  - unfold ring_of, ring_append. cbn [fst snd]. fold alloc. f_equal; [f_equal|].
    + rewrite (same_but_bytes _ _ _ _ _ _ B3), (same_but_bytes _ _ _ _ _ _ Hb2) by lia. unfold m1. rewrite le_val_store.
      unfold u32. change (256 ^ Z.of_nat 4) with (2 ^ 32). by rewrite Zmod_mod.
    + unfold m3. rewrite le_val_store. unfold u32. change (256 ^ Z.of_nat 4) with (2 ^ 32). rewrite Zmod_mod. do 2 f_equal. unfold put.
      by rewrite (same_but_bytes _ _ _ _ _ _ Hb2), (same_but_bytes _ _ _ _ _ _ B1) by lia.
    + rewrite (same_but_bytes _ _ _ _ _ _ B3), Hd2, (same_but_bytes _ _ _ _ _ _ B1) by lia. done.
Qed.

Lemma ring_of_size m : exists k, 0 <= k <= 32 /\ Z.of_nat (length (ring_of m log).2) = 2 ^ k.
Proof.
  pose proof (ring_ok_pos log Hok). destruct Hok as ((k & Hk & E) & _). exists k. split; [lia|].
  cbn [ring_of snd]. rewrite shm_bytes_length. lia.
Qed.

Lemma appends_seq f g s1 s2 : appends f s1 -> appends g s2 -> appends (f;; g) (s1 ++ s2).
Proof.
  intros Hf Hg s He Hm Hk. destruct (Hf s He Hm Hk) as (m1 & E1 & K1 & B1 & R1). rewrite (run_bind _ _ _ _ _ E1).
  destruct (Hg (v_set_shm m1 s)) as (m2 & E2 & K2 & B2 & R2); [done..|]. exists m2. rewrite E2. split; [done|]. split; [done|].
  split; [by eapply same_but_trans|]. cbn [v_shm v_set_shm] in R2. rewrite R2, R1.
  apply ring_append_app, ring_of_size.
Qed.

Lemma appends_nil : appends (mret tt) [].
Proof.
  intros s He Hm Hk. exists (v_shm s). split; [by destruct s|]. split; [done|]. split; [by intros ? ?|].
  unfold ring_append, ring_of. cbn [fst snd length ring_write]. rewrite !Z.add_0_r.
  assert (forall a, u32 (le_val (shm_bytes (v_shm s) a 4)) = le_val (shm_bytes (v_shm s) a 4)) as E; [|by rewrite !E].
  intros a. apply Z.mod_small. pose proof (le_val_bounds _ (shm_bytes_ok _ a 4 Hk)) as H. by rewrite shm_bytes_length in H.
Qed.

Lemma chunk_loop_appends n i str :
  bytes_ok str -> appends (chunk_loop n i log str) (take (n * chunk_size) (drop (i * chunk_size) str)).
Proof.
  intros Hs. revert i. induction n as [|n IH]; intros i; [apply appends_nil|]. cbn [chunk_loop].
  replace (S n * chunk_size)%nat with (chunk_size + n * chunk_size)%nat by lia.
  rewrite <- take_take_drop, drop_drop. replace (i * chunk_size + chunk_size)%nat with (S i * chunk_size)%nat by lia.
  apply appends_seq; [|apply IH]. apply memlog_write1_appends. by apply bytes_ok_take, bytes_ok_drop.
Qed.

Lemma memlog_write_appends_all str : bytes_ok str -> appends (memlog_write log str) str.
Proof.
  intros Hs. unfold memlog_write. set (i := (length str / chunk_size)%nat).
  assert (i * chunk_size <= length str)%nat as Hi by (unfold i; rewrite Nat.mul_comm; by apply Nat.Div0.mul_div_le).
  replace (appends _ str) with (appends (chunk_loop i 0 log str;; when (negb (length str - i * chunk_size =? 0)%nat)
    (__memlog_write log (take (length str - i * chunk_size) (drop (i * chunk_size) str)))) (take (i * chunk_size) str ++ drop (i * chunk_size) str))
    by (by rewrite take_drop).
  apply appends_seq; [apply (chunk_loop_appends i 0 str Hs)|].
  rewrite (take_ge (drop _ _)) by (rewrite length_drop; lia). destruct (Nat.eqb_spec (length str - i * chunk_size) 0); cbn [negb when].
  - rewrite drop_ge by lia. apply appends_nil.
  - by apply memlog_write1_appends, bytes_ok_drop.
Qed.
End idle.

(** ** Safety whatever the other side does *)

(** [ring_mapped] is the only thing asked of the mappings, so no access leaves
    the header and the [ml_rb_sz] bytes after it. *)
Section safe.
Context (log : memlog) (Hok : ring_ok log).

Lemma write_loop_safe str off i s :
  ring_mapped (v_regions s) log -> wp (write_loop log off i str) (fun _ s' => vframe s s') s.
Proof.
  pose proof (ring_ok_pos log Hok) as Hn. pose proof Hok as (_ & Hrb & Htop).
  revert i s. induction str as [|c str IH]; intros i s Hm; cbn [write_loop]; [by apply wp_ret|].
  rewrite ring_position by done. pose proof (Z.mod_pos_bound (off + i) (ml_rb_sz log) Hn) as Hp.
  apply wp_bind, wp_shm_write.
  - eapply in_regions_sub; [apply Hm|..]; unfold rb_data, u32; rewrite Z.mod_small; lia.
  - intros s1 F1. eapply wp_mono; [apply IH; unfold ring_mapped; by rewrite (proj1 (proj2 F1))|].
    intros [] s2 F2. by etrans.
Qed.

Lemma memlog_write1_safe str s :
  ring_mapped (v_regions s) log -> mem_ok (v_shm s) -> wp (__memlog_write log str) (fun _ s' => vframe s s') s.
Proof.
  pose proof (ring_ok_pos log Hok) as Hn. pose proof Hok as (_ & Hrb & Htop). intros Hm Hk.
  assert (forall s', vframe s s' -> mem_ok (v_shm s') /\ ring_mapped (v_regions s') log /\
            in_regions (v_regions s') (rb_alloc log) (Z.of_nat 4) = true /\
            in_regions (v_regions s') (rb_put log) (Z.of_nat 4) = true) as Hw.
  { intros s' (_ & E & Hk'). unfold ring_mapped, rb_put, u32. rewrite E, Z.mod_small by lia.
    split_and!; [by auto|done|..]; (eapply in_regions_sub; [apply Hm|..]; unfold rb_alloc; lia). }
  unfold __memlog_write.
  apply wp_bind, wp_shm_read; [by apply Hw|done|]. intros off s1 F1 _.
  apply wp_bind, wp_shm_read; [by apply Hw|by apply Hw|]. intros a s2 F2 _. pose proof (transitivity F1 F2) as G2.
  apply wp_bind, wp_shm_write; [by apply Hw|]. intros s3 F3. pose proof (transitivity G2 F3) as G3.
  apply wp_bind. eapply wp_mono; [by apply write_loop_safe, Hw|]. intros [] s4 F4. pose proof (transitivity G3 F4) as G4.
  apply wp_bind, wp_shm_read; [by apply Hw|by apply Hw|]. intros p s5 F5 _. pose proof (transitivity G4 F5) as G5.
  apply wp_shm_write; [by apply Hw|]. intros s6 F6. exact (transitivity G5 F6).
Qed.

Lemma chunk_loop_safe n i str s :
  ring_mapped (v_regions s) log -> mem_ok (v_shm s) -> wp (chunk_loop n i log str) (fun _ s' => vframe s s') s.
Proof.
  revert i s. induction n as [|n IH]; intros i s Hm Hk; cbn [chunk_loop]; [by apply wp_ret|].
  apply wp_bind. eapply wp_mono; [by apply memlog_write1_safe|]. intros [] s1 F1. pose proof F1 as (_ & E & Hk1).
  eapply wp_mono; [apply IH; [unfold ring_mapped; by rewrite E|auto]|]. intros [] s2 F2. by etrans.
Qed.

Lemma memlog_write_safe str s :
  ring_mapped (v_regions s) log -> mem_ok (v_shm s) -> wp (memlog_write log str) (fun _ s' => vframe s s') s.
Proof.
  intros Hm Hk. unfold memlog_write. apply wp_bind. eapply wp_mono; [by apply chunk_loop_safe|].
  intros [] s1 F1. pose proof F1 as (_ & E & Hk1). destruct (negb _); cbn [when]; [|by apply wp_ret].
  eapply wp_mono; [apply memlog_write1_safe; [unfold ring_mapped; by rewrite E|auto]|]. intros [] s2 F2. by etrans.
Qed.
End safe.

(** ** The registered logs *)

Definition log_offset (log : memlog) : Z := Z.land (ml_buf_pa log) (MB - 1).

(** The kernel mapping made for a log. *)
Definition log_region (log : memlog) : Z * Z :=
  (ml_rb log - log_offset log, ROUNDUP (u32 (ml_buf_sz log + log_offset log)) MB).

(** Arguments of [memlog_add] that make no sum wrap and leave room for data. *)
Definition sane_buf (pa sz : Z) : Prop := 0 <= pa /\ 12 < sz /\ pa + sz <= 2 ^ 32 - MB.

Record log_ok (log : memlog) : Prop := {
  lo_sane : sane_buf (ml_buf_pa log) (ml_buf_sz log);
  lo_rb_sz : ml_rb_sz log = 2 ^ Z.log2 (ml_buf_sz log - 12);
  lo_base : 0 <= (log_region log).1;
  lo_top : (log_region log).1 + (log_region log).2 <= 2 ^ 32;
}.

Record memlog_inv (s : mlstate) : Prop := {
  mi_callbacks : print_callbacks (v_dev s) = (log_list (v_dev s)).*1;
  mi_nodup : NoDup (log_list (v_dev s)).*1;
  mi_logs : Forall log_ok (log_list (v_dev s)).*2;
  mi_bufs : regions_disj ((fun l => (ml_buf_pa l, ml_buf_sz l)) <$> (log_list (v_dev s)).*2);
  mi_regions : exists R, v_regions s = (log_region <$> (log_list (v_dev s)).*2) ++ R;
  mi_disj : regions_disj (v_regions s);
  mi_mem : mem_ok (v_shm s);
}.

Lemma log_offset_bound pa : 0 <= pa -> 0 <= Z.land pa (MB - 1) < MB.
Proof.
  intros H. unfold MB. replace (2 ^ 20 - 1) with (Z.ones 20) by done. rewrite Z.land_ones by lia.
  apply Z.mod_pos_bound. lia.
Qed.

(** The mapping covers the buffer, and the buffer the ring. *)
Lemma sane_region pa sz :
  sane_buf pa sz -> Z.land pa (MB - 1) + sz <= ROUNDUP (u32 (sz + Z.land pa (MB - 1))) MB < 2 ^ 32 /\
    ROUNDUP (u32 (sz + Z.land pa (MB - 1))) MB mod PAGE_SIZE = 0.
Proof.
  intros (Hpa & Hsz & Hend). pose proof (log_offset_bound pa Hpa) as Ho.
  assert (Z.land pa (MB - 1) <= pa) as Hle by (apply land_le; unfold MB; lia).
  set (o := Z.land pa (MB - 1)) in *. unfold MB in *. unfold u32. rewrite Z.mod_small by lia.
  destruct (ROUNDUP_spec (sz + o) 20) as [H1 H2]; [lia..|]. set (r := ROUNDUP _ _) in *. split.
  - enough (r < 2 ^ 32) by lia. destruct (decide (r < 2 ^ 32)); [done|].
    assert (r = 2 ^ 32 - 2 ^ 20 + 2 ^ 20) by lia. lia.
  - unfold PAGE_SIZE. apply Z.mod_divide; [lia|]. apply Z.mod_divide in H2 as [q ->]; [|lia]. exists (q * 256). lia.
Qed.

Lemma log_rb_fits sz : 12 < sz -> 0 < 2 ^ Z.log2 (sz - 12) /\ 12 + 2 ^ Z.log2 (sz - 12) <= sz.
Proof. intros H. pose proof (Z.log2_spec (sz - 12) ltac:(lia)). pose proof (Z.log2_nonneg (sz - 12)). lia. Qed.

Lemma log_ok_ring log : log_ok log -> ring_ok log /\ (log_region log).1 <= ml_rb log /\
  ml_rb log + 12 + ml_rb_sz log <= (log_region log).1 + (log_region log).2.
Proof.
  intros [Hs Er Hb Ht]. destruct (sane_region _ _ Hs) as [Hreg _]. pose proof Hs as (Hpa & Hsz & Hend).
  pose proof (log_offset_bound _ Hpa) as Ho. pose proof (log_rb_fits _ Hsz) as Hf. rewrite <- Er in Hf.
  cbn [log_region fst snd] in *. unfold log_offset in *. unfold MB in *. split; [|lia]. split; [|lia].
  exists (Z.log2 (ml_buf_sz log - 12)). split; [|done]. split; [apply Z.log2_nonneg|]. apply Z.log2_lt_pow2; lia.
Qed.

Lemma log_mapped s log : memlog_inv s -> log ∈ (log_list (v_dev s)).*2 -> ring_mapped (v_regions s) log.
Proof.
  intros HI Hin. destruct (mi_regions s HI) as (R & ->). pose proof (proj1 (Forall_forall _ _) (mi_logs s HI) _ Hin) as Hlo.
  destruct (log_ok_ring _ Hlo) as (_ & H1 & H2). unfold ring_mapped, in_regions. apply existsb_exists.
  exists (log_region log). split; [apply list_elem_of_In, elem_of_app; left; by apply list_elem_of_fmap_2|].
  apply andb_true_iff. split; apply Z.leb_le; lia.
Qed.

(** The invariant survives what leaves devices and mappings alone. *)
Lemma memlog_inv_frame s s' : vframe s s' -> memlog_inv s -> memlog_inv s'.
Proof. intros (E1 & E2 & E3) []. split; rewrite ?E1, ?E2; auto. Qed.

Lemma find_key {A} (l : list (Z * A)) k : k ∈ l.*1 -> exists a, List.find (fun e => e.1 =? k) l = Some (k, a) /\ a ∈ l.*2.
Proof.
  induction l as [|[k' a'] l IH]; cbn; [by intros ?%elem_of_nil|]. destruct (Z.eqb_spec k' k) as [->|Hne].
  - exists a'. split; [done|left].
  - intros [->|Hin]%elem_of_cons; [done|]. destruct (IH Hin) as (a & -> & Ha). exists a. split; [done|by right].
Qed.

Lemma out_count_safe str s : memlog_inv s -> wp (out_count str) (fun _ s' => vframe s s') s.
Proof.
  intros HI. unfold out_count. apply wp_bind, wp_get.
  set (J := fun (l : list Z) s' => vframe s s' /\ l ⊆ (log_list (v_dev s)).*1).
  assert (J (print_callbacks (v_dev s)) s) as H0 by (split; [done|by rewrite (mi_callbacks s HI)]).
  eapply wp_mono; [apply (wp_mfor _ _ J _ H0)|by intros [] s' []]. intros p l s1 (F1 & Hsub).
  unfold memlog_print_callback. apply wp_bind, wp_get. pose proof (memlog_inv_frame _ _ F1 HI) as HI1. pose proof F1 as (Ed & _).
  destruct (find_key (log_list (v_dev s1)) p) as (log & -> & Hlog); [rewrite Ed; apply Hsub; left|].
  apply wp_bind. eapply wp_deref; [done|]. eapply wp_mono; [apply memlog_write_safe; [|by apply log_mapped|by apply mi_mem]|].
  - apply log_ok_ring. by apply (proj1 (Forall_forall _ _) (mi_logs _ HI1)).
  - intros [] s2 F2. split; [by etrans|]. intros x Hx. apply Hsub. by right.
Qed.

(** What the allocators promise when [memlog_add] runs: a block that is not one
    of the live logs, and a region of the address space that overlaps no other. *)
Definition malloc_fresh (s : mlstate) : Prop :=
  forall p, head (ml_mallocs (v_dev s)) = Some (Some p) -> p ∉ (log_list (v_dev s)).*1.
Definition vmm_fresh (s : mlstate) (size : Z) : Prop :=
  forall base, head (v_vmm s) = Some (Some base) ->
    0 <= base /\ base + size <= 2 ^ 32 /\ Forall (rdisj (base, size)) (v_regions s).

Lemma not_registered_disjoint pa sz l :
  sane_buf pa sz -> Forall log_ok l.*2 -> memlog_is_mem_registered pa sz l = false ->
  Forall (rdisj (pa, sz)) ((fun g => (ml_buf_pa g, ml_buf_sz g)) <$> l.*2).
Proof.
  intros (Hpa & Hsz & Hend). induction l as [|[p g] l IH]; cbn; [intros; constructor|].
  intros [[(Gpa & Gsz & Gend) _ _ _] Hl]%Forall_cons [Ho Hr]%orb_false_iff. constructor; [|by apply IH].
  unfold overlaps, u32 in Ho. unfold MB in *. rewrite !Z.mod_small in Ho by lia. unfold rdisj. cbn.
  apply andb_false_iff in Ho as [H|H]; apply negb_false_iff in H; [left; by apply Z.leb_le in H|right].
  apply Z.geb_le in H. lia.
Qed.

Lemma lower_pow2_spec v s : 0 < v < 2 ^ 32 -> lower_pow2 v s = Ret (2 ^ Z.log2 v) s.
Proof.
  intros Hv. unfold lower_pow2, clz32, mbind, M_bind. destruct (Z.eqb_spec v 0); [lia|]. cbn.
  replace (31 - (31 - Z.log2 v)) with (Z.log2 v) by lia. pose proof (Z.log2_nonneg v).
  rewrite Z.shiftl_1_l. unfold u32. rewrite Z.mod_small; [done|]. split; [lia|].
  apply Z.pow_lt_mono_r; [lia..|]. apply Z.log2_lt_pow2; lia.
Qed.

(** [map_rb] maps the whole megabytes around the buffer. *)
Lemma map_rb_spec pa sz va s (Q : Z * Z -> mlstate -> Prop) :
  sane_buf pa sz ->
  (forall l, Q (ERR_NO_MEMORY, va) (v_set_vmm l s)) ->
  (forall base l, v_vmm s = Some base :: l ->
     Q (NO_ERROR, u32 (base + Z.land pa (MB - 1)))
       (v_set_vmm l (v_set_regions ((base, ROUNDUP (u32 (sz + Z.land pa (MB - 1))) MB) :: v_regions s) s))) ->
  wp (map_rb pa sz va) Q s.
Proof.
  intros Hs Qf Qs. unfold map_rb. destruct (sane_region _ _ Hs) as [Hb Hm]. pose proof Hs as (Hpa & Hsz & Hend).
  set (r := ROUNDUP _ _) in *. assert (0 < r) by (pose proof (log_offset_bound pa Hpa); lia).
  assert (ROUNDDOWN pa MB mod PAGE_SIZE = 0) as Hp.
  { unfold MB in *. rewrite ROUNDDOWN_spec by lia. change (2 ^ 20) with (256 * PAGE_SIZE) at 2. rewrite Z.mul_assoc. apply Z_mod_mult. }
  destruct (decide (head (v_vmm s) = None \/ head (v_vmm s) = Some None)) as [Hno|Hyes].
  - destruct (vmm_alloc_none r va (ROUNDDOWN pa MB) s) as (l & E); [done..|]. wp_with (exact E). apply Qf.
  - destruct (v_vmm s) as [|[base|] l] eqn:Ev; cbn in Hyes; [tauto| |tauto].
    wp_with (by apply (vmm_alloc_some r va (ROUNDDOWN pa MB) s base l)). by apply Qs.
Qed.

(** The invariant with one more log. *)
Lemma memlog_inv_cons s p log mallocs s' :
  memlog_inv s -> log_ok log -> p ∉ (log_list (v_dev s)).*1 ->
  Forall (rdisj (ml_buf_pa log, ml_buf_sz log)) ((fun l => (ml_buf_pa l, ml_buf_sz l)) <$> (log_list (v_dev s)).*2) ->
  Forall (rdisj (log_region log)) (v_regions s) ->
  v_dev s' = Memlogs ((p, log) :: log_list (v_dev s)) (p :: print_callbacks (v_dev s)) mallocs ->
  v_regions s' = log_region log :: v_regions s -> mem_ok (v_shm s') ->
  memlog_inv s'.
Proof.
  intros HI Hlo Hp Hb Hr Ed Er Hm. split; rewrite ?Ed, ?Er; cbn.
  - by rewrite (mi_callbacks s HI).
  - constructor; [done|apply HI].
  - constructor; [done|apply HI].
  - split; [done|apply HI].
  - destruct (mi_regions s HI) as (R & ->). by exists R.
  - split; [done|apply HI].
  - done.
Qed.

Lemma ml_malloc_run s : exists o l,
  ml_malloc s = Ret o (v_set_dev (set_mallocs l (v_dev s)) s) /\ (forall p, o = Some p -> head (ml_mallocs (v_dev s)) = Some (Some p)).
Proof.
  unfold ml_malloc, mbind, M_bind, get. cbn. destruct (ml_mallocs (v_dev s)) as [|r l] eqn:E.
  - exists None, []. split; [|done]. f_equal. rewrite <- E. by destruct s as [[] ? ? ? ?].
  - exists r, l. split; [done|]. by intros p ->.
Qed.

(** Storing the header of a new ring. *)
Lemma init_header_safe log s :
  ring_ok log -> ring_mapped (v_regions s) log -> forall (k : unit -> M mlstate Z) Q,
  (forall s', vframe s s' -> wp (k tt) Q s') ->
  wp (shm_write 4 (rb_size log) (ml_rb_sz log);; shm_write 4 (rb_alloc log) 0;; shm_write 4 (rb_put log) 0;; k tt) Q s.
Proof.
  intros Hok Hm k Q HQ. pose proof (ring_ok_pos log Hok) as Hn. destruct Hok as (_ & Hrb & Htop).
  assert (forall s', vframe s s' -> forall off, 0 <= off <= 8 -> in_regions (v_regions s') (u32 (ml_rb log + off)) (Z.of_nat 4) = true) as Hw.
  { intros s' (_ & -> & _) off Hoff. unfold u32. rewrite Z.mod_small by lia. eapply in_regions_sub; [apply Hm|lia..]. }
  assert (rb_alloc log = u32 (ml_rb log + 0)) as Ea by (unfold rb_alloc, u32; rewrite Z.add_0_r, Z.mod_small; lia).
  apply wp_bind, wp_shm_write; [by apply Hw|]. intros s1 F1.
  apply wp_bind, wp_shm_write; [rewrite Ea; by apply Hw|]. intros s2 F2. pose proof (transitivity F1 F2) as G2.
  apply wp_bind, wp_shm_write; [by apply Hw|]. intros s3 F3. apply HQ. exact (transitivity G2 F3).
Qed.

Lemma memlog_add_spec stack pa sz s :
  memlog_inv s -> sane_buf pa sz -> malloc_fresh s -> vmm_fresh s (ROUNDUP (u32 (sz + Z.land pa (MB - 1))) MB) ->
  wp (memlog_add stack pa sz) (fun r s' => memlog_inv s' /\
    ((r < 0 /\ log_list (v_dev s') = log_list (v_dev s)) \/
     (r = 0 /\ exists p log, log_list (v_dev s') = (p, log) :: log_list (v_dev s) /\ ml_buf_pa log = pa /\ ml_buf_sz log = sz))) s.
Proof.
  intros HI Hs Hmf Hvf. unfold memlog_add. apply wp_bind, wp_get.
  destruct (memlog_is_mem_registered pa sz (log_list (v_dev s))) eqn:Ereg; [apply wp_ret; split; [done|by left]|].
  destruct (ml_malloc_run s) as (o & l & E & Ho). wp_with (exact E). set (s1 := v_set_dev _ s).
  assert (memlog_inv s1) as HI1 by (by destruct HI).
  destruct o as [p|]; [|apply wp_ret; split; [done|by left]]. specialize (Hmf p (Ho p eq_refl)).
  apply wp_bind, map_rb_spec; [done|intros l'; apply wp_ret; split; [by destruct HI1|by left]|].
  intros base l' Ev. rewrite Z.eqb_refl. cbn [negb]. destruct (Hvf base) as (Hb0 & Htop & Hdis); [change (v_vmm s) with (v_vmm s1); by rewrite Ev|].
  destruct (sane_region _ _ Hs) as [Hreg _]. pose proof Hs as (Hpa & Hsz & Hend). pose proof (log_offset_bound pa Hpa) as Hoff.
  assert (u32 (base + Z.land pa (MB - 1)) = base + Z.land pa (MB - 1)) as -> by (apply Z.mod_small; lia).
  assert (u32 (sz - 12) = sz - 12) as -> by (apply Z.mod_small; unfold MB in *; lia).
  wp_with (apply lower_pow2_spec; unfold MB in *; lia). cbn zeta.
  set (log := Memlog _ _ _ _). set (s2 := v_set_vmm _ _).
  assert (log_region log = (base, ROUNDUP (u32 (sz + Z.land pa (MB - 1))) MB)) as Elr by (unfold log_region, log_offset; cbn; f_equal; lia).
  assert (log_ok log) as Hlo by (split; [done|done|by rewrite Elr|by rewrite Elr]). destruct (log_ok_ring log Hlo) as (Hrk & Hin).
  assert (ring_mapped (v_regions s2) log) as Hmap.
  { unfold ring_mapped. cbn [in_regions existsb s2 v_set_vmm v_set_regions v_regions]. rewrite <- Elr.
    apply orb_true_iff. left. apply andb_true_iff. split; apply Z.leb_le; lia. }
  apply (init_header_safe log s2 Hrk Hmap (fun _ => _)). intros s3 (Ed & Er & Em).
  apply wp_bind, wp_modify. apply wp_bind, wp_modify. apply wp_ret. split.
  - eapply (memlog_inv_cons s p log l); [done|done|done|by apply not_registered_disjoint; [|apply HI|]|by rewrite Elr|..].
    + cbn. by rewrite Ed.
    + cbn. by rewrite Er, Elr.
    + apply Em, HI.
  - right. split; [done|]. exists p, log. split; [|done]. cbn. by rewrite Ed.
Qed.

(** Filtering a key out of a list that has it once. *)
Lemma filter_key {A} (f : A -> Z) l1 x l2 :
  NoDup (f <$> l1 ++ x :: l2) -> filter (fun e => f e <> f x) (l1 ++ x :: l2) = l1 ++ l2.
Proof.
  rewrite fmap_app, fmap_cons, NoDup_app, NoDup_cons. intros (_ & H1 & H2 & _).
  assert (forall l : list A, f x ∉ f <$> l -> filter (fun e => f e <> f x) l = l) as Hid.
  { induction l as [|e l IH]; [done|]. rewrite fmap_cons, not_elem_of_cons. intros [Hne Hl].
    rewrite filter_cons_True by done. by rewrite IH. }
  rewrite filter_app, filter_cons_False by tauto. rewrite !Hid; [done|done|].
  intros Hin. eapply H1; [exact Hin|left].
Qed.

(** The invariant with one log less. *)
Lemma memlog_inv_remove s l1 p log l2 R s' :
  memlog_inv s -> log_list (v_dev s) = l1 ++ (p, log) :: l2 ->
  v_regions s = (log_region <$> (l1 ++ (p, log) :: l2).*2) ++ R ->
  v_dev s' = Memlogs (l1 ++ l2) (l1 ++ l2).*1 (ml_mallocs (v_dev s)) ->
  v_regions s' = (log_region <$> (l1 ++ l2).*2) ++ R -> mem_ok (v_shm s') -> memlog_inv s'.
Proof.
  intros [Hc Hn Hl Hb _ Hd _] El Er Ed Er' Hm. rewrite El in *. rewrite Er in Hd.
  rewrite ?fmap_app, ?fmap_cons, <- ?app_assoc in *. cbn [app fst snd] in *.
  split; rewrite ?Ed, ?Er'; cbn [log_list print_callbacks]; rewrite ?fmap_app, <- ?app_assoc; [done|..].
  - apply NoDup_app in Hn as (Hn1 & Hn2 & [_ Hn3]%NoDup_cons). apply NoDup_app. split_and!; [done| |done].
    intros x Hx Hx'. eapply Hn2; [exact Hx|by right].
  - rewrite Forall_app, Forall_cons in Hl. apply Forall_app. tauto.
  - by apply regions_disj_remove in Hb.
  - exists R. by rewrite app_assoc.
  - by apply regions_disj_remove in Hd.
  - done.
Qed.

Lemma memlog_get_by_pa_spec pa l :
  match memlog_get_by_pa pa l with
  | None => Forall (fun e => ml_buf_pa e.2 <> pa) l
  | Some (p, log) => ml_buf_pa log = pa /\ exists l1 l2, l = l1 ++ (p, log) :: l2
  end.
Proof.
  unfold memlog_get_by_pa. induction l as [|[p log] l IH]; cbn; [constructor|].
  destruct (Z.eqb_spec (ml_buf_pa log) pa) as [<-|Hne]; [split; [done|by exists [], l]|].
  destruct (List.find _ l) as [[p' g]|]; [|by constructor]. destruct IH as (<- & l1 & l2 & ->).
  split; [done|by exists ((p, log) :: l1), l2].
Qed.

Lemma memlog_rm_spec pa s :
  memlog_inv s ->
  wp (memlog_rm pa) (fun r s' => memlog_inv s' /\
    ((r = SM_ERR_INVALID_PARAMETERS /\ s' = s /\ Forall (fun e => ml_buf_pa e.2 <> pa) (log_list (v_dev s))) \/
     (r = 0 /\ exists l1 p log l2, ml_buf_pa log = pa /\ log_list (v_dev s) = l1 ++ (p, log) :: l2 /\ log_list (v_dev s') = l1 ++ l2))) s.
Proof.
  intros HI. unfold memlog_rm. apply wp_bind, wp_get. pose proof (memlog_get_by_pa_spec pa (log_list (v_dev s))) as Hg.
  destruct (memlog_get_by_pa pa _) as [[p log]|]; [|apply wp_ret; auto]. destruct Hg as (Epa & l1 & l2 & El).
  apply wp_bind, wp_modify. apply wp_bind, wp_modify. set (s2 := v_set_dev _ (v_set_dev _ s)).
  destruct (mi_regions s HI) as (R & Er). pose proof (mi_disj s HI) as Hd. pose proof (mi_logs s HI) as Hl. rewrite El in *.
  assert (log_ok log) as Hlo by (rewrite fmap_app, fmap_cons, Forall_app, Forall_cons in Hl; tauto).
  destruct (log_ok_ring log Hlo) as (Hrk & Hr1 & Hr2). pose proof (ring_ok_pos log Hrk) as Hpos.
  pose proof Er as Er'. rewrite !fmap_app, !fmap_cons, <- app_assoc in Er'. cbn [app snd] in Er'. rewrite Er' in Hd.
  wp_with (eapply (vmm_free_middle (ml_rb log) s2); [exact Er'|exact Hd|lia]).
  rewrite Z.eqb_refl. cbn [negb]. apply wp_ret. pose proof (mi_nodup s HI) as Hn. rewrite El in Hn.
  assert (v_dev s2 = Memlogs (l1 ++ l2) (l1 ++ l2).*1 (ml_mallocs (v_dev s))) as Ed.
  { unfold s2, set_logs, set_callbacks. cbn. f_equal; [rewrite El; by apply (filter_key fst l1 (p, log) l2)|]. rewrite (mi_callbacks s HI), El, !fmap_app, fmap_cons.
    apply (filter_key id l1.*1 p l2.*1). rewrite list_fmap_id. by rewrite fmap_app, fmap_cons in Hn. }
  split; [|right; split; [done|]; exists l1, p, log, l2; split_and!; [done..|]; cbn [v_set_regions v_dev]; by rewrite Ed].
  eapply (memlog_inv_remove s l1 p log l2 R); [done|done|done|exact Ed| |apply HI].
  cbn [v_set_regions v_regions]. by rewrite !fmap_app, app_assoc.
Qed.

(** ** Sessions *)

Inductive ml_event :=
| MlCall (stack : Z) (args : smc32_args)
| MlPrint (str : list Z).

Definition do_ml (ev : ml_event) : M mlstate unit :=
  match ev with
  | MlCall stack args => memlog_stdcall stack args;; mret tt
  | MlPrint str => out_count str
  end.

(** The buffers offered are sane, and the allocators keep their promises. *)
Definition ml_allowed (s : mlstate) (ev : ml_event) : Prop :=
  match ev with
  | MlCall _ args =>
      smc_nr args = SMC_SC_SHARED_LOG_ADD ->
      let pa := u32 (args_get_pa args) in
      let sz := args_get_sz args in
      sane_buf pa sz /\ malloc_fresh s /\ vmm_fresh s (ROUNDUP (u32 (sz + Z.land pa (MB - 1))) MB)
  | MlPrint _ => True
  end.

(** States reached from the boot of the kernel, whatever the other side does. *)
Inductive ml_reachable : mlstate -> Prop :=
| ml_boot mallocs regions shm env vmm :
    regions_disj regions -> mem_ok shm -> ml_reachable (VState (Memlogs [] [] mallocs) regions shm env vmm)
| ml_step s ev s' :
    ml_reachable s -> ml_allowed s ev -> do_ml ev s = Ret tt s' -> ml_reachable s'.

Lemma memlog_stdcall_safe stack args s :
  memlog_inv s -> ml_allowed s (MlCall stack args) -> wp (memlog_stdcall stack args) (fun _ => memlog_inv) s.
Proof.
  intros HI Ha. unfold memlog_stdcall. destruct (_ =? _); [by apply wp_ret|].
  destruct (Z.eqb_spec (smc_nr args) SMC_SC_SHARED_LOG_ADD) as [E|_].
  - destruct (Ha E) as (? & ? & ?). eapply wp_mono; [by apply memlog_add_spec|]. by intros r s' [? _].
  - destruct (_ =? _); [|by apply wp_ret]. eapply wp_mono; [by apply memlog_rm_spec|]. by intros r s' [? _].
Qed.

Lemma do_ml_safe s ev : memlog_inv s -> ml_allowed s ev -> wp (do_ml ev) (fun _ => memlog_inv) s.
Proof.
  intros HI Ha. destruct ev as [stack args|str]; cbn [do_ml].
  - apply wp_bind. eapply wp_mono; [by apply memlog_stdcall_safe|]. intros r s' ?. by apply wp_ret.
  - eapply wp_mono; [by apply out_count_safe|]. intros [] s' F. by apply (memlog_inv_frame s).
Qed.

Lemma ml_reachable_inv s : ml_reachable s -> memlog_inv s.
Proof.
  induction 1 as [mallocs regions shm env vmm Hr Hm|s ev s' _ IH Ha E].
  - split; cbn; [done|constructor|constructor|done|by exists regions|done|done].
  - pose proof (do_ml_safe s ev IH Ha) as H. unfold wp in H. by rewrite E in H.
Qed.



(** ** Witnesses and findings *)

Definition demo_add (pa sz : Z) : ml_event := MlCall 0 (Smc32Args SMC_SC_SHARED_LOG_ADD [pa; 0; sz]).
Definition demo_mlboot : mlstate := VState (Memlogs [] [] [Some 100; Some 200]) [] ∅ [] [Some (2 ^ 21); Some (2 ^ 24)].
Definition ml_after (ev : ml_event) (s : mlstate) : mlstate :=
  match do_ml ev s with Ret _ s' => s' | Fault _ => s end.
Definition demo_ml1 : mlstate := ml_after (demo_add 256 48) demo_mlboot.

Lemma demo_ml1_reachable : ml_reachable demo_ml1.
Proof.
  apply (ml_step demo_mlboot (demo_add 256 48)).
  - apply ml_boot; [done|]. apply map_Forall_empty.
  - intros _. split_and!; [done..| |].
    + intros p _. apply not_elem_of_nil.
    + intros base [= <-]. split_and!; [done..|constructor].
  - vm_compute. reflexivity.
Qed.


Definition demo_log : memlog := Memlog (2 ^ 21 + 256) 32 256 48.


(** A buffer of 8 bytes, too small for the header: the size of the ring wraps to
    2 GB, and the next print stores wherever the other side points [alloc]. *)
Example memlog_add_small_escapes :
  let s := ml_after (demo_add 256 8) demo_mlboot in
  ml_rb_sz <$> (log_list (v_dev s)).*2 = [2 ^ 31] /\
  do_ml (MlPrint [104]) (VState (v_dev s) (v_regions s) (v_shm s) [[(2 ^ 21 + 256 + 3, 64)]] (v_vmm s)) = Fault BadPointer.
Proof. vm_compute. by split. Qed.

(** A buffer of no bytes on a megabyte boundary: nothing is mapped, and the
    header is stored at whatever the stack holds. *)
Example memlog_add_empty_uses_stack :
  do_ml (MlCall 12345 (Smc32Args SMC_SC_SHARED_LOG_ADD [0; 0; 0])) demo_mlboot = Fault BadPointer /\
  ml_rb <$> (log_list (v_dev (ml_after (MlCall 4096 (Smc32Args SMC_SC_SHARED_LOG_ADD [0; 0; 0]))
    (v_set_regions [(4096, 4096)] demo_mlboot)))).*2 = [4096].
Proof. vm_compute. by split. Qed.
