(* ===== verification/Uthread.v ===== *)
(** * User threads and their address spaces: lk/trusty/lib/uthread

    uthread.c (threads, the list of mappings of a thread, the search for free
    address space) with the ARM page tables of arch/arm/uthread.c and
    arch/arm/uthread_mmu.c.  Addresses and sizes are 32 bits wide. *)

From stdpp Require Import base tactics list gmap.
From Stdlib Require Import ZArith Lia.
From S2P Require Import Prelude.

Definition PAGE : Z := 4096.
Definition UT_MAP_ALIGN_4KB : Z := 4096.
Definition UT_MAP_ALIGN_1MB : Z := 2 ^ 20.

(** 32 first-level entries of 256 pages each. *)
Definition MMU_MEMORY_TTBR0_L1_INDEX_MASK : Z := 2 ^ 5 - 1.
Definition MMU_MEMORY_TTBR_L2_INDEX_MASK : Z := 2 ^ 8 - 1.
Definition MAX_USR_VA : Z := 2 ^ 25.

Definition UTM_R : Z := 1.
Definition UTM_W : Z := 2.
Definition UTM_STACK : Z := 16.
Definition UTM_PHYS_CONTIG : Z := 32.
Definition UTM_NS_MEM : Z := 64.
Definition UTM_IO : Z := 128.
Definition UTM_FIXED : Z := 256.

(** [uthread_map_t] *)
Record umap := UMap {
  um_vaddr : Z;
  um_size : Z;
  um_flags : Z;
  um_align : Z;
  um_pfns : list Z;
}.

(** A second-level table, with the flags of the first-level entry it hangs on. *)
Record l2_table := L2Table { l2_l1_flags : Z; l2_entries : gmap Z Z }.

Abbreviation page_table := (gmap Z l2_table).

Record uthread := Uthread {
  ut_start_stack : Z;
  ut_entry : Z;
  ut_stack : Z;
  ut_map_list : list umap;
  ut_ns_va_bottom : Z;
  ut_id : Z;
  ut_page_table : option page_table;
  ut_thread : bool;
  ut_asid : Z;
  ut_private_data : Z;
}.

Definition ut_set_maps (l : list umap) (nb : Z) (ut : uthread) : uthread :=
  Uthread (ut_start_stack ut) (ut_entry ut) (ut_stack ut) l nb (ut_id ut) (ut_page_table ut) (ut_thread ut)
          (ut_asid ut) (ut_private_data ut).
Definition ut_set_page_table (pt : option page_table) (ut : uthread) : uthread :=
  Uthread (ut_start_stack ut) (ut_entry ut) (ut_stack ut) (ut_map_list ut) (ut_ns_va_bottom ut) (ut_id ut) pt
          (ut_thread ut) (ut_asid ut) (ut_private_data ut).
Definition ut_set_stack (start stack : Z) (ut : uthread) : uthread :=
  Uthread start (ut_entry ut) stack (ut_map_list ut) (ut_ns_va_bottom ut) (ut_id ut) (ut_page_table ut)
          (ut_thread ut) (ut_asid ut) (ut_private_data ut).
Definition ut_set_thread (asid : Z) (ut : uthread) : uthread :=
  Uthread (ut_start_stack ut) (ut_entry ut) (ut_stack ut) (ut_map_list ut) (ut_ns_va_bottom ut) (ut_id ut)
          (ut_page_table ut) true asid (ut_private_data ut).

(** The threads by id, [uthread_list], the id counter and the answers of the
    allocator (its addresses; [[]]: memory is exhausted). *)
Record ustate := UState {
  us_threads : gmap Z uthread;
  us_list : list Z;
  us_next_utid : Z;
  us_allocs : list (option Z);
}.

Definition us_set_threads (t : gmap Z uthread) (s : ustate) : ustate :=
  UState t (us_list s) (us_next_utid s) (us_allocs s).
Definition us_set_list (l : list Z) (s : ustate) : ustate :=
  UState (us_threads s) l (us_next_utid s) (us_allocs s).
Definition us_set_next (n : Z) (s : ustate) : ustate :=
  UState (us_threads s) (us_list s) n (us_allocs s).
Definition us_set_allocs (a : list (option Z)) (s : ustate) : ustate :=
  UState (us_threads s) (us_list s) (us_next_utid s) a.

Abbreviation U := (M ustate).

Definition get_ut (t : Z) : U uthread := s ← get; deref BadPointer (us_threads s !! t).
Definition upd_ut (t : Z) (f : uthread -> uthread) : U unit :=
  x ← get_ut t; modify (fun s => us_set_threads (<[t := f x]> (us_threads s)) s).

Definition umalloc : U (option Z) :=
  s ← get;
  match us_allocs s with
  | [] => mret None
  | a :: l => modify (us_set_allocs l);; mret a
  end.

(** ** Free address space *)

Definition um_end (mp : umap) : Z := u32 (um_vaddr mp + um_size mp).
Definition is_ns (flags : Z) : bool := has_flag flags UTM_NS_MEM.

(** The walk of [uthread_find_va_space_ns], from the last mapping to the first:
    [Some start], [None] for a NULL result, or a failed assertion. *)
Fixpoint find_ns_walk (maps_rev : list umap) (ns_bottom start size align : Z) : U (option Z) :=
  match maps_rev with
  | [] => mret (Some start)
  | mp :: rest =>
      if start >=? um_end mp then
        if start >=? ns_bottom then mret (Some start)
        else
          assert_ (negb (is_ns (um_flags mp)));;
          if ROUNDDOWN start UT_MAP_ALIGN_1MB <? um_end mp then mret None else mret (Some start)
      else if negb (is_ns (um_flags mp)) then mret None
      else find_ns_walk rest ns_bottom (Z.min start (ROUNDDOWN (u32 (um_vaddr mp - size)) align)) size align
  end.

Definition uthread_find_va_space_ns (ut : uthread) (size align : Z) : U Z :=
  let start := ROUNDDOWN (u32 (MAX_USR_VA - size)) align in
  r ← find_ns_walk (reverse (ut_map_list ut)) (ut_ns_va_bottom ut) start size align;
  mret (match r with
        | None => 0
        | Some start => if (start <? ut_start_stack ut) || (start >? u32 (start + size)) then 0 else start
        end).

Fixpoint find_sec_walk (maps : list umap) (start size align : Z) : Z :=
  match maps with
  | [] => start
  | mp :: rest =>
      if u32 (start + size) <=? um_vaddr mp then start
      else find_sec_walk rest (Z.max start (ROUNDUP (um_end mp) align)) size align
  end.

Definition uthread_find_va_space_sec (ut : uthread) (size align : Z) : Z :=
  let start := find_sec_walk (ut_map_list ut) (ROUNDUP (ut_start_stack ut) align) size align in
  let end_ := u32 (start + size) in
  if (end_ >? ut_ns_va_bottom ut) || (start >? end_) then 0 else start.

Definition uthread_find_va_space (ut : uthread) (size flags align : Z) : U Z :=
  if is_ns flags then uthread_find_va_space_ns ut size align
  else mret (uthread_find_va_space_sec ut size align).

(** ** The list of mappings *)

(** Insertion into the list, sorted by address; [None] when it overlaps. *)
Fixpoint map_insert (mp : umap) (l : list umap) : option (list umap) :=
  match l with
  | [] => Some [mp]
  | x :: l' =>
      if um_vaddr x >? um_vaddr mp then
        if um_end mp >? um_vaddr x then None else Some (mp :: x :: l')
      else if um_vaddr mp <? um_end x then None
      else l2 ← map_insert mp l'; Some (x :: l2)
  end.

Definition uthread_map_alloc (t vaddr : Z) (pfn_list : list Z) (size flags align : Z) : U (Z * option umap) :=
  assert_ (Z.land size (PAGE - 1) =? 0);;
  if u32 (vaddr + size) <=? vaddr then mret (ERR_INVALID_ARGS, None)
  else
    let npages := if has_flag flags UTM_PHYS_CONTIG then 1 else size / PAGE in
    a ← umalloc;
    match a with
    | None => mret (ERR_NO_MEMORY, None)
    | Some _ =>
        let mp := UMap vaddr size flags align (take (Z.to_nat npages) pfn_list) in
        ut ← get_ut t;
        let new_ns := if is_ns flags && (vaddr <? ut_ns_va_bottom ut)
                      then ROUNDDOWN vaddr UT_MAP_ALIGN_1MB else ut_ns_va_bottom ut in
        match map_insert mp (ut_map_list ut) with
        | None => mret (ERR_INVALID_ARGS, None)
        | Some l => upd_ut t (ut_set_maps l new_ns);; mret (NO_ERROR, Some mp)
        end
    end.

(** "Fuzzy" lookup of the mapping that covers a range: its index. *)
Fixpoint map_find (l : list umap) (vaddr size : Z) (i : nat) : option (nat * umap) :=
  match l with
  | [] => None
  | mp :: l' =>
      if (um_vaddr mp <=? vaddr) && (vaddr <? um_end mp) && (um_end mp >=? u32 (vaddr + size))
      then Some (i, mp)
      else map_find l' vaddr size (S i)
  end.

Definition uthread_map_find (ut : uthread) (vaddr size : Z) : option (nat * umap) :=
  if u32 (vaddr + size) <? vaddr then None else map_find (ut_map_list ut) vaddr size 0.

(** [uthread_map_remove] of the mapping at index [i]. *)
Definition uthread_map_remove (t : Z) (i : nat) (mp : umap) : U unit :=
  ut ← get_ut t;
  let l := ut_map_list ut in
  let prev := match i with O => None | S i' => l !! i' end in
  nb ← (if is_ns (um_flags mp) then
          if match prev with None => true | Some x => negb (is_ns (um_flags x)) end then
            match l !! S i with
            | Some item =>
                assert_ (is_ns (um_flags item));;
                mret (ROUNDDOWN (um_vaddr item) UT_MAP_ALIGN_1MB)
            | None => mret MAX_USR_VA
            end
          else mret (ut_ns_va_bottom ut)
        else mret (ut_ns_va_bottom ut) : U Z);
  upd_ut t (ut_set_maps (delete i l) nb).

Definition uthread_free_maps (t : Z) : U unit := upd_ut t (fun ut => ut_set_maps [] (ut_ns_va_bottom ut) ut).

(** ** arch/arm: page tables *)

Definition l1_index (vaddr : Z) : Z := Z.land (Z.shiftr vaddr 20) MMU_MEMORY_TTBR0_L1_INDEX_MASK.
Definition l2_index (vaddr : Z) : Z := Z.land (Z.shiftr vaddr 12) MMU_MEMORY_TTBR_L2_INDEX_MASK.

Definition MMU_MEMORY_L1_PAGETABLE_NON_SECURE : Z := 8.
Definition MMU_MEMORY_L2_AP_P_RW_U_RW : Z := 48.
Definition MMU_MEMORY_L2_AP_P_RO_U_RO : Z := Z.lor 512 48.
Definition MMU_MEMORY_L2_SHAREABLE : Z := 2 ^ 10.
Definition MMU_MEMORY_L2_NON_GLOBAL : Z := 2 ^ 11.
(** [MMU_MEMORY_SET_L2_INNER(WRITE_BACK_ALLOCATE) | MMU_MEMORY_SET_L2_CACHEABLE_MEM |
    MMU_MEMORY_SET_L2_OUTER(WRITE_BACK_ALLOCATE)] *)
Definition L2_CACHED : Z := Z.lor 4 (Z.lor 256 64).

Definition arm_uthread_mmu_map (t paddr vaddr l1_flags l2_flags : Z) : U Z :=
  ut ← get_ut t;
  pt ← (match ut_page_table ut with
        | Some pt => mret (Some pt)
        | None =>
            a ← umalloc;
            match a with
            | None => mret None
            | Some _ => upd_ut t (ut_set_page_table (Some ∅));; mret (Some ∅)
            end
        end : U (option page_table));
  match pt with
  | None => mret ERR_NO_MEMORY
  | Some pt =>
      l2 ← (match pt !! l1_index vaddr with
            | Some l2 => mret (Some l2)
            | None =>
                a ← umalloc;
                match a with
                | None => mret None
                | Some _ => mret (Some (L2Table (Z.lor l1_flags 1) ∅))
                end
            end : U (option l2_table));
      match l2 with
      | None => mret ERR_NO_MEMORY
      | Some l2 =>
          assert_ (bool_decide (l2_entries l2 !! l2_index vaddr = None));;
          let entry := Z.lor paddr (Z.lor MMU_MEMORY_L2_NON_GLOBAL (Z.lor l2_flags 2)) in
          upd_ut t (ut_set_page_table
                      (Some (<[l1_index vaddr := L2Table (l2_l1_flags l2) (<[l2_index vaddr := entry]> (l2_entries l2))]> pt)));;
          mret NO_ERROR
      end
  end.

Definition arm_uthread_mmu_unmap (t vaddr : Z) : U Z :=
  ut ← get_ut t;
  match ut_page_table ut with
  | None => mret ERR_INVALID_ARGS
  | Some pt =>
      match pt !! l1_index vaddr with
      | None => mret ERR_INVALID_ARGS
      | Some l2 =>
          upd_ut t (ut_set_page_table
                      (Some (<[l1_index vaddr := L2Table (l2_l1_flags l2) (delete (l2_index vaddr) (l2_entries l2))]> pt)));;
          mret NO_ERROR
      end
  end.

Definition map_l1_flags (flags : Z) : Z := if is_ns flags then MMU_MEMORY_L1_PAGETABLE_NON_SECURE else 0.
Definition map_l2_flags (flags : Z) : Z :=
  let ap := if has_flag flags UTM_W then MMU_MEMORY_L2_AP_P_RW_U_RW else MMU_MEMORY_L2_AP_P_RO_U_RO in
  if has_flag flags UTM_IO then ap else Z.lor (Z.lor ap MMU_MEMORY_L2_SHAREABLE) L2_CACHED.

(** The physical page that page [pg] of a mapping shows. *)
Definition map_paddr (mp : umap) (pg : nat) : option Z :=
  if has_flag (um_flags mp) UTM_PHYS_CONTIG
  then p ← um_pfns mp !! O; Some (u32 (p + Z.of_nat pg * PAGE))
  else um_pfns mp !! pg.

Definition page_va (mp : umap) (pg : nat) : Z := u32 (um_vaddr mp + Z.of_nat pg * PAGE).

(** [for (p = 0; p < pg; p++) arm_uthread_mmu_unmap(..)] *)
Fixpoint undo_maps (t : Z) (mp : umap) (pgs : list nat) : U unit :=
  match pgs with
  | [] => mret tt
  | pg :: rest => _ ← arm_uthread_mmu_unmap t (page_va mp pg); undo_maps t mp rest
  end.

Fixpoint arch_map_loop (t : Z) (mp : umap) (n pg : nat) : U Z :=
  match n with
  | O => mret NO_ERROR
  | S n' =>
      paddr ← deref BadPointer (map_paddr mp pg);
      if negb (Z.land paddr (PAGE - 1) =? 0) then undo_maps t mp (seq 0 pg);; mret ERR_INVALID_ARGS
      else
        err ← arm_uthread_mmu_map t paddr (page_va mp pg) (map_l1_flags (um_flags mp)) (map_l2_flags (um_flags mp));
        if negb (err =? 0) then undo_maps t mp (seq 0 pg);; mret err
        else arch_map_loop t mp n' (S pg)
  end.

Definition um_npages (mp : umap) : nat := Z.to_nat (um_size mp / PAGE).

Definition arch_uthread_map (t : Z) (mp : umap) : U Z :=
  if (um_size mp >? MAX_USR_VA) || (um_vaddr mp >? u32 (MAX_USR_VA - um_size mp)) then mret ERR_INVALID_ARGS
  else
    assert_ (Z.land (um_size mp) (PAGE - 1) =? 0);;
    arch_map_loop t mp (um_npages mp) 0.

Fixpoint arch_unmap_loop (t : Z) (mp : umap) (n pg : nat) : U Z :=
  match n with
  | O => mret NO_ERROR
  | S n' =>
      err ← arm_uthread_mmu_unmap t (page_va mp pg);
      if negb (err =? 0) then mret err else arch_unmap_loop t mp n' (S pg)
  end.

Definition arch_uthread_unmap (t : Z) (mp : umap) : U Z := arch_unmap_loop t mp (um_npages mp) 0.

(** ** Mapping and unmapping *)

(** [uthread_map_locked]: status and the address mapped. *)
Definition uthread_map (t vaddr : Z) (pfn_list : list Z) (size flags align : Z) : U (Z * Z) :=
  if negb (Z.land size (PAGE - 1) =? 0) then mret (ERR_NOT_VALID, vaddr)
  else
    ut ← get_ut t;
    va ← (if has_flag flags UTM_FIXED then mret (Some vaddr)
          else
            v ← uthread_find_va_space ut size flags align;
            mret (if v =? 0 then None else Some v) : U (option Z));
    match va with
    | None => mret (ERR_NO_MEMORY, 0)
    | Some va =>
        '(err, mp) ← uthread_map_alloc t va pfn_list size flags align;
        match mp with
        | None => mret (err, va)
        | Some mp => err ← arch_uthread_map t mp; mret (err, va)
        end
    end.

Definition uthread_map_contig (t vaddr paddr size flags align : Z) : U (Z * Z) :=
  uthread_map t vaddr [paddr] size (Z.lor flags UTM_PHYS_CONTIG) align.

Definition uthread_unmap (t vaddr size : Z) : U Z :=
  if vaddr =? 0 then mret ERR_INVALID_ARGS
  else
    ut ← get_ut t;
    match uthread_map_find ut vaddr size with
    | None => mret ERR_NOT_FOUND
    | Some (i, mp) =>
        err ← arch_uthread_unmap t mp;
        if negb (err =? 0) then mret err
        else uthread_map_remove t i mp;; mret NO_ERROR
    end.

Definition uthread_is_valid_range (t vaddr size : Z) : U bool :=
  ut ← get_ut t; mret (bool_decide (is_Some (uthread_map_find ut vaddr size))).

(** ** Threads *)

Definition uthread_alloc_utid : U Z :=
  s ← get; let id := u32 (us_next_utid s + 1) in modify (us_set_next id);; mret id.

(** [list_add_head(&uthread_list, node)] also writes to the node that was first. *)
Definition uthread_list_add (t : Z) : U unit :=
  s ← get;
  (match us_list s with
   | [] => mret tt
   | first :: _ => _ ← get_ut first; mret tt
   end : U unit);;
  modify (fun s => us_set_list (t :: us_list s) s).

Definition uthread_free (t : Z) : U unit := modify (fun s => us_set_threads (delete t (us_threads s)) s).

Section threads.
(** Physical address of a kernel virtual one. *)
Variable kvaddr_to_paddr : Z -> Z.

(** The new thread's id, or [None] for NULL. *)
Definition uthread_create (entry start_stack stack_size private_data : Z) : U (option Z) :=
  a ← umalloc;
  match a with
  | None => mret None
  | Some _ =>
      t ← uthread_alloc_utid;
      modify (fun s => us_set_threads
        (<[t := Uthread 0 entry 0 [] MAX_USR_VA t None false 0 private_data]> (us_threads s)) s);;
      st ← umalloc;
      match st with
      | None => uthread_free t;; mret None
      | Some stack =>
          upd_ut t (ut_set_stack 0 stack);;
          '(err, _) ← uthread_map_contig t (u32 (start_stack - stack_size)) (kvaddr_to_paddr stack) stack_size
                        (Z.lor (Z.lor (Z.lor UTM_W UTM_R) UTM_STACK) UTM_FIXED) UT_MAP_ALIGN_4KB;
          if negb (err =? 0) then uthread_free t;; mret None
          else
            upd_ut t (ut_set_stack start_stack stack);;
            th ← umalloc;
            match th with
            | None => uthread_free_maps t;; uthread_free t;; mret None
            | Some _ =>
                (* arch_uthread_create *)
                upd_ut t (ut_set_thread t);;
                uthread_list_add t;;
                mret (Some t)
            end
      end
  end.
End threads.

Definition uthread_start (t : option Z) : U Z :=
  match t with
  | None => mret ERR_INVALID_ARGS
  | Some t => ut ← get_ut t; mret (if ut_thread ut then NO_ERROR else ERR_INVALID_ARGS)
  end.

Definition uthread_exit (t : Z) : U unit :=
  uthread_free_maps t;;
  uthread_free t.

(** ** The list of mappings is sorted and free of overlaps *)

Definition um_wf (mp : umap) : Prop :=
  0 <= um_vaddr mp /\ 0 < um_size mp /\ um_vaddr mp + um_size mp < 2 ^ 32 /\ um_size mp mod PAGE = 0.

Fixpoint maps_wf (l : list umap) : Prop :=
  match l with
  | [] => True
  | x :: l' => um_wf x /\ Forall (fun y => um_vaddr x + um_size x <= um_vaddr y) l' /\ maps_wf l'
  end.

Definition overlap (x y : umap) : Prop :=
  um_vaddr x < um_vaddr y + um_size y /\ um_vaddr y < um_vaddr x + um_size x.

Lemma um_end_wf mp : um_wf mp -> um_end mp = um_vaddr mp + um_size mp.
Proof. intros (? & ? & ? & _). unfold um_end, u32. apply Z.mod_small. lia. Qed.

Lemma maps_wf_forall l : maps_wf l -> Forall um_wf l.
Proof. induction l as [|x l IH]; [constructor|]. intros (? & _ & ?). constructor; auto. Qed.

Lemma map_insert_perm mp l l' : map_insert mp l = Some l' -> l' ≡ₚ mp :: l.
Proof.
  revert l'. induction l as [|x l IH]; intros l'; cbn; [by intros [= <-]|].
  destruct (_ >? _); [destruct (um_end mp >? um_vaddr x); [done|by intros [= <-]]|].
  destruct (_ <? _); [done|]. destruct (map_insert mp l) as [l2|] eqn:E; [|done]. intros [= <-].
  rewrite (IH l2) by done. by constructor.
Qed.

Lemma map_insert_wf mp l l' :
  maps_wf l -> um_wf mp -> map_insert mp l = Some l' -> maps_wf l' /\ Forall (fun x => ~ overlap mp x) l.
Proof.
  intros Hl Hm. revert l'. induction l as [|x l IH]; intros l'; cbn.
  { intros [= <-]. cbn. by split_and!. }
  destruct Hl as (Hx & Hs & Hl). rewrite !um_end_wf by done. pose proof Hx as (? & ? & ? & _). pose proof Hm as (? & ? & ? & _).
  destruct (_ >? _) eqn:E1.
  - destruct (_ >? um_vaddr x) eqn:E2; [done|]. intros [= <-]. split.
    + cbn. split_and!; try done. constructor; [lia|]. eapply Forall_impl; [exact Hs|]. cbn. intros; lia.
    + constructor; [unfold overlap; lia|]. eapply Forall_impl; [exact Hs|]. unfold overlap. cbn. intros; lia.
  - destruct (_ <? _) eqn:E2; [done|]. destruct (map_insert mp l) as [l2|] eqn:E; [|done]. intros [= <-].
    destruct (IH Hl l2 eq_refl) as [Hl2 Hno]. split.
    + cbn. split_and!; try done. rewrite (map_insert_perm _ _ _ E). constructor; [lia|done].
    + constructor; [unfold overlap; lia|done].
Qed.

Lemma map_insert_none mp l : maps_wf l -> um_wf mp -> map_insert mp l = None -> Exists (overlap mp) l.
Proof.
  intros Hl Hm. induction l as [|x l IH]; cbn; [done|].
  destruct Hl as (Hx & Hs & Hl). rewrite !um_end_wf by done. pose proof Hx as (? & ? & ? & _). pose proof Hm as (? & ? & ? & _).
  destruct (_ >? _) eqn:E1; [destruct (_ >? um_vaddr x) eqn:E2; [|done]|destruct (_ <? _) eqn:E2].
  - intros _. left. unfold overlap. lia.
  - intros _. left. unfold overlap. lia.
  - destruct (map_insert mp l) eqn:E; [done|]. intros _. right. auto.
Qed.

Lemma maps_wf_delete i l : maps_wf l -> maps_wf (delete i l).
Proof.
  revert i. induction l as [|x l IH]; intros [|i]; cbn; try done; [by intros (_ & _ & ?)|].
  intros (? & ? & ?). split_and!; auto. by apply Forall_delete.
Qed.

(** The thread's view: a list as above and a page table. *)
Definition uthread_wf (ut : uthread) : Prop := maps_wf (ut_map_list ut).

Definition threads_wf (s : ustate) : Prop := map_Forall (fun _ ut => uthread_wf ut) (us_threads s).

Lemma threads_wf_insert s t ut : threads_wf s -> uthread_wf ut -> threads_wf (us_set_threads (<[t := ut]> (us_threads s)) s).
Proof. intros. by apply map_Forall_insert_2. Qed.

(** [wlp]: a fault (an assertion, a freed thread) makes no claim here. *)
Lemma wlp_bind {A B} (m : U A) (k : A -> U B) Q s :
  wlp m (fun a s' => wlp (k a) Q s') s -> wlp (m ≫= k) Q s.
Proof. unfold wlp, mbind, M_bind. by destruct (m s). Qed.
Lemma wlp_ret {A} (a : A) (Q : A -> ustate -> Prop) s : Q a s -> wlp (mret a) Q s.
Proof. done. Qed.
Lemma wlp_mono {A} (m : U A) (P Q : A -> ustate -> Prop) s :
  wlp m P s -> (forall a s', P a s' -> Q a s') -> wlp m Q s.
Proof. unfold wlp. destruct (m s); eauto. Qed.

Lemma get_ut_run t s :
  get_ut t s = match us_threads s !! t with Some ut => Ret ut s | None => Fault BadPointer end.
Proof. unfold get_ut, mbind, M_bind. cbn. by destruct (us_threads s !! t). Qed.

Lemma upd_ut_run t f s :
  upd_ut t f s = match us_threads s !! t with
                 | Some ut => Ret tt (us_set_threads (<[t := f ut]> (us_threads s)) s)
                 | None => Fault BadPointer
                 end.
Proof. unfold upd_ut, mbind at 1, M_bind at 1. rewrite get_ut_run. by destruct (us_threads s !! t). Qed.

Lemma wlp_get_ut t (Q : uthread -> ustate -> Prop) s :
  (forall ut, us_threads s !! t = Some ut -> Q ut s) -> wlp (get_ut t) Q s.
Proof. intros H. unfold wlp. rewrite get_ut_run. destruct (us_threads s !! t) eqn:E; auto. Qed.

Lemma wlp_upd_ut t f (Q : unit -> ustate -> Prop) s :
  (forall ut, us_threads s !! t = Some ut -> Q tt (us_set_threads (<[t := f ut]> (us_threads s)) s)) -> wlp (upd_ut t f) Q s.
Proof. intros H. unfold wlp. rewrite upd_ut_run. destruct (us_threads s !! t) eqn:E; auto. Qed.

(** Routines that keep every list of mappings well-formed. *)
Definition keeps {A} (m : U A) : Prop := forall s, threads_wf s -> wlp m (fun _ s' => threads_wf s') s.

Lemma keeps_ret {A} (a : A) : keeps (mret a).
Proof. by intros s Hs. Qed.
Lemma keeps_bind {A B} (m : U A) (k : A -> U B) : keeps m -> (forall a, keeps (k a)) -> keeps (m ≫= k).
Proof. intros Hm Hk s Hs. apply wlp_bind. eapply wlp_mono; [by apply Hm|]. intros a s' Hs'. by apply Hk. Qed.
Lemma keeps_raise {A} f : keeps (raise f : U A).
Proof. by intros s Hs. Qed.
Lemma keeps_assert b : keeps (assert_ b : U unit).
Proof. by destruct b; intros s Hs. Qed.
Lemma keeps_deref {A} f (o : option A) : keeps (deref f o : U A).
Proof. by destruct o; intros s Hs. Qed.
Lemma keeps_get : keeps (get : U ustate).
Proof. by intros s Hs. Qed.
Lemma keeps_get_ut t : keeps (get_ut t).
Proof. apply keeps_bind; [apply keeps_get|]. intros s. apply keeps_deref. Qed.
Lemma keeps_umalloc : keeps umalloc.
Proof. intros s Hs. unfold wlp, umalloc, mbind, M_bind. cbn. by destruct (us_allocs s). Qed.
Lemma keeps_modify f : (forall s, threads_wf s -> threads_wf (f s)) -> keeps (modify f).
Proof. intros Hf s Hs. by apply Hf. Qed.

(** An update that leaves the list of mappings, or makes it a well-formed one. *)
Lemma keeps_upd_ut t f : (forall ut, uthread_wf ut -> uthread_wf (f ut)) -> keeps (upd_ut t f).
Proof.
  intros Hf s Hs. apply wlp_upd_ut. intros ut E. apply threads_wf_insert; [done|]. apply Hf. by eapply Hs.
Qed.

Create HintDb uthread discriminated.
#[export] Hint Resolve keeps_ret keeps_bind keeps_raise keeps_assert keeps_deref keeps_get keeps_get_ut keeps_umalloc : uthread.

(** Walks over the monad's structure; what is left are the updates. *)
Ltac keeps_step :=
  lazymatch goal with
  | |- keeps (mbind _ _) => apply keeps_bind
  | |- forall _, keeps _ => intros ?
  | |- keeps (match ?x with _ => _ end) => destruct x
  | |- _ => by eauto with uthread
  end.
Ltac keeps_auto := repeat keeps_step.

Lemma keeps_mmu_map t p v l1 l2 : keeps (arm_uthread_mmu_map t p v l1 l2).
Proof. unfold arm_uthread_mmu_map. keeps_auto; apply keeps_upd_ut; intros ut Hw; exact Hw. Qed.
Lemma keeps_mmu_unmap t v : keeps (arm_uthread_mmu_unmap t v).
Proof. unfold arm_uthread_mmu_unmap. keeps_auto; apply keeps_upd_ut; intros ut Hw; exact Hw. Qed.
#[export] Hint Resolve keeps_mmu_map keeps_mmu_unmap : uthread.

Lemma keeps_undo t mp pgs : keeps (undo_maps t mp pgs).
Proof. induction pgs; cbn [undo_maps]; keeps_auto. Qed.
#[export] Hint Resolve keeps_undo : uthread.

Lemma keeps_arch_map_loop t mp n pg : keeps (arch_map_loop t mp n pg).
Proof. revert pg. induction n; intros pg; cbn [arch_map_loop]; keeps_auto. Qed.
Lemma keeps_arch_unmap_loop t mp n pg : keeps (arch_unmap_loop t mp n pg).
Proof. revert pg. induction n; intros pg; cbn [arch_unmap_loop]; keeps_auto. Qed.
#[export] Hint Resolve keeps_arch_map_loop keeps_arch_unmap_loop : uthread.

Lemma keeps_arch_map t mp : keeps (arch_uthread_map t mp).
Proof. unfold arch_uthread_map. keeps_auto. Qed.
Lemma keeps_arch_unmap t mp : keeps (arch_uthread_unmap t mp).
Proof. unfold arch_uthread_unmap. keeps_auto. Qed.
#[export] Hint Resolve keeps_arch_map keeps_arch_unmap : uthread.

Lemma land_page_mod x : 0 <= x -> Z.land x (PAGE - 1) = x mod PAGE.
Proof. intros. unfold PAGE. change (4096 - 1) with (Z.ones 12). by rewrite Z.land_ones by lia. Qed.

Lemma u32_lt_wrap v size :
  0 <= v < 2 ^ 32 -> 0 <= size < 2 ^ 32 -> u32 (v + size) <=? v = false -> 0 < size /\ v + size < 2 ^ 32.
Proof.
  intros Hv Hs H. apply Z.leb_gt in H. unfold u32 in H.
  destruct (decide (v + size < 2 ^ 32)).
  - rewrite Z.mod_small in H by lia. lia.
  - assert ((v + size) mod 2 ^ 32 = v + size - 2 ^ 32) as E by (symmetry; apply (Z.mod_unique_pos _ _ 1); lia). lia.
Qed.

Lemma keeps_map_alloc t va pfns size flags align :
  0 <= va < 2 ^ 32 -> 0 <= size < 2 ^ 32 -> keeps (uthread_map_alloc t va pfns size flags align).
Proof.
  intros Hva Hsz s Hs. unfold uthread_map_alloc. apply wlp_bind.
  destruct (Z.land size (PAGE - 1) =? 0) eqn:Ep; [|done]. cbn [assert_]. apply wlp_ret.
  destruct (_ <=? _) eqn:Ew; [done|]. destruct (u32_lt_wrap va size Hva Hsz Ew) as [Hs0 Hend].
  apply wlp_bind. eapply wlp_mono; [by apply keeps_umalloc|]. intros [a|] s1 Hs1; [|done].
  apply wlp_bind, wlp_get_ut. intros ut Et. destruct (map_insert _ _) as [l|] eqn:Ei; [|done].
  apply wlp_bind, wlp_upd_ut. intros ut' Et'. rewrite Et in Et'. injection Et' as <-.
  apply wlp_ret, threads_wf_insert; [done|].
  unfold uthread_wf. cbn. eapply map_insert_wf; [by eapply Hs1| |exact Ei]. split_and!; cbn; try lia.
  rewrite land_page_mod in Ep by lia. by apply Z.eqb_eq.
Qed.

Lemma ROUNDDOWN_bound a b : 0 <= ROUNDDOWN a b < 2 ^ 32.
Proof.
  unfold ROUNDDOWN. assert (0 <= u32 a < 2 ^ 32) by (unfold u32; apply Z.mod_pos_bound; lia).
  assert (0 <= u32 (Z.lnot (b - 1))) by (unfold u32; apply Z.mod_pos_bound; lia).
  split; [apply Z.land_nonneg; lia|].
  assert (Z.land (u32 a) (u32 (Z.lnot (b - 1))) <= u32 a); [|lia].
  apply land_le; lia.
Qed.
Lemma ROUNDUP_bound a b : 0 <= ROUNDUP a b < 2 ^ 32.
Proof.
  unfold ROUNDUP. assert (0 <= u32 (a + (b - 1)) < 2 ^ 32) by (unfold u32; apply Z.mod_pos_bound; lia).
  assert (0 <= u32 (Z.lnot (b - 1))) by (unfold u32; apply Z.mod_pos_bound; lia).
  split; [apply Z.land_nonneg; lia|].
  assert (Z.land (u32 (a + (b - 1))) (u32 (Z.lnot (b - 1))) <= u32 (a + (b - 1))); [|lia].
  apply land_le; lia.
Qed.

Lemma find_ns_walk_bound l nb start size align s :
  0 <= start < 2 ^ 32 ->
  wlp (find_ns_walk l nb start size align)
      (fun r s' => s' = s /\ match r with Some v => 0 <= v < 2 ^ 32 | None => True end) s.
Proof.
  revert start. induction l as [|mp l IH]; intros start Hst; cbn [find_ns_walk]; [done|].
  destruct (start >=? um_end mp).
  - destruct (_ >=? nb); [done|]. apply wlp_bind. destruct (negb _); [|done]. cbn. destruct (_ <? _); done.
  - destruct (negb _); [done|]. apply IH.
    pose proof (ROUNDDOWN_bound (u32 (um_vaddr mp - size)) align). lia.
Qed.

Lemma find_sec_walk_bound l start size align :
  0 <= start < 2 ^ 32 -> 0 <= find_sec_walk l start size align < 2 ^ 32.
Proof.
  revert start. induction l as [|mp l IH]; intros start Hst; cbn [find_sec_walk]; [done|].
  destruct (_ <=? _); [done|]. apply IH. pose proof (ROUNDUP_bound (um_end mp) align). lia.
Qed.

Lemma find_va_space_bound ut size flags align s :
  wlp (uthread_find_va_space ut size flags align) (fun v s' => s' = s /\ 0 <= v < 2 ^ 32) s.
Proof.
  unfold uthread_find_va_space. destruct (is_ns flags).
  - unfold uthread_find_va_space_ns. apply wlp_bind. eapply wlp_mono; [apply find_ns_walk_bound, ROUNDDOWN_bound|].
    intros [v|] s' [-> Hv]; cbn; [|split; [done|lia]]. destruct (_ || _); (split; [done|lia]).
  - apply wlp_ret. split; [done|]. unfold uthread_find_va_space_sec.
    pose proof (find_sec_walk_bound (ut_map_list ut) (ROUNDUP (ut_start_stack ut) align) size align (ROUNDUP_bound _ _)).
    destruct (_ || _); lia.
Qed.

Lemma keeps_map_remove t i mp : keeps (uthread_map_remove t i mp).
Proof.
  intros s Hs. unfold uthread_map_remove. apply wlp_bind, wlp_get_ut. intros ut E. apply wlp_bind.
  eapply wlp_mono; [refine (_ : wlp _ (fun _ s' => s' = s) s)|].
  - destruct (is_ns (um_flags mp)); [|done]. destruct (match i with O => None | S i' => _ end) as [x|]; cbn.
    + destruct (negb _); [|done]. destruct (ut_map_list ut !! S i) as [item|]; [|done]. apply wlp_bind. by destruct (is_ns _).
    + destruct (ut_map_list ut !! S i) as [item|]; [|done]. apply wlp_bind. by destruct (is_ns _).
  - intros nb s' ->. apply wlp_upd_ut. intros ut' E'. rewrite E in E'. injection E' as <-.
    apply threads_wf_insert; [done|]. apply maps_wf_delete. by eapply Hs.
Qed.

(** The mappings of every thread stay sorted, page-sized and free of overlaps:
    [uthread_map] (at a fixed or a searched address, failures included) and
    [uthread_unmap] preserve it for all threads. *)
Theorem uthread_map_unmap_keep_lists t vaddr pfns size flags align s :
  threads_wf s -> 0 <= vaddr < 2 ^ 32 -> 0 <= size < 2 ^ 32 ->
  wlp (uthread_map t vaddr pfns size flags align) (fun _ s' => threads_wf s') s /\
  wlp (uthread_unmap t vaddr size) (fun _ s' => threads_wf s') s.
Proof.
  intros Hs Hva Hsz. split.
  - unfold uthread_map. destruct (negb _); [done|]. apply wlp_bind. eapply wlp_mono; [by apply keeps_get_ut|].
    intros ut s1 Hs1. apply wlp_bind. eapply wlp_mono;
      [refine (_ : wlp _ (fun va s' => s' = s1 /\ match va with Some v => 0 <= v < 2 ^ 32 | None => True end) s1)|].
    + destruct (has_flag flags UTM_FIXED); [done|]. apply wlp_bind. eapply wlp_mono; [apply find_va_space_bound|].
      intros v s2 [-> Hv]. cbn. by destruct (v =? 0).
    + intros [va|] s2 [-> Hv]; [|done]. apply wlp_bind. eapply wlp_mono; [by apply keeps_map_alloc|].
      intros [err [mp|]] s3 Hs3; [|done]. apply wlp_bind. eapply wlp_mono; [by apply keeps_arch_map|]. done.
  - unfold uthread_unmap. destruct (vaddr =? 0); [done|]. apply wlp_bind. eapply wlp_mono; [by apply keeps_get_ut|].
    intros ut s1 Hs1. destruct (uthread_map_find ut vaddr size) as [[i mp]|]; [|done].
    apply wlp_bind. eapply wlp_mono; [by apply keeps_arch_unmap|]. intros err s2 Hs2.
    destruct (negb _); [done|]. apply wlp_bind. eapply wlp_mono; [by apply keeps_map_remove|]. done.
Qed.

(** ** Searching secure address space *)

(** The range [v .. v+size) misses the mapping. *)
Definition misses (v size : Z) (mp : umap) : Prop := v + size <= um_vaddr mp \/ um_vaddr mp + um_size mp <= v.

Lemma ROUNDUP_least a k v :
  0 <= k <= 31 -> 0 <= a -> a + 2 ^ k - 1 < 2 ^ 32 -> a <= v -> v mod 2 ^ k = 0 -> ROUNDUP a (2 ^ k) <= v.
Proof.
  intros Hk Ha Hb Hv Hm. destruct (ROUNDUP_spec a k) as [Hr Hrm]; [lia..|].
  apply Z.mod_divide in Hm as [q ->]; [|lia]. apply Z.mod_divide in Hrm as [p Hp]; [|lia]. rewrite Hp in *.
  apply Z.mul_le_mono_nonneg_r; [lia|]. assert (0 < 2 ^ k) by lia. nia.
Qed.

Lemma find_sec_walk_spec l k start size :
  maps_wf l -> Forall (fun mp => um_vaddr mp + um_size mp <= 2 ^ 31) l -> 0 <= k <= 30 ->
  0 < size < 2 ^ 30 -> 0 <= start <= 2 ^ 31 + 2 ^ 30 -> start mod 2 ^ k = 0 ->
  let r := find_sec_walk l start size (2 ^ k) in
  start <= r <= 2 ^ 31 + 2 ^ 30 /\ r mod 2 ^ k = 0 /\ Forall (misses r size) l /\
  (forall v, start <= v -> v mod 2 ^ k = 0 -> Forall (misses v size) l -> r <= v).
Proof.
  intros Hl Hb Hk Hsz. assert (0 < 2 ^ k <= 2 ^ 30) as Hp by (split; [lia|apply Z.pow_le_mono_r; lia]).
  revert start. induction l as [|mp l IH]; intros start Hst Hal; cbn [find_sec_walk].
  { split_and!; auto; lia. }
  destruct Hl as (Hm & Hs & Hl). apply Forall_cons in Hb as [Hb0 Hb]. cbn beta in Hb0. pose proof Hm as (? & ? & ? & _).
  assert (u32 (start + size) = start + size) as -> by (unfold u32; apply Z.mod_small; lia).
  destruct (_ <=? _) eqn:E.
  - apply Z.leb_le in E. split_and!; auto; try lia. constructor; [by left|].
    eapply Forall_impl; [exact Hs|]. intros y Hy. left. cbn in Hy. lia.
  - apply Z.leb_gt in E. rewrite um_end_wf by done.
    destruct (ROUNDUP_spec (um_vaddr mp + um_size mp) k) as [Hr Hrm]; [lia..|].
    set (st' := Z.max start (ROUNDUP (um_vaddr mp + um_size mp) (2 ^ k))).
    assert (st' mod 2 ^ k = 0) as Hst' by (subst st'; destruct (Z.max_spec start (ROUNDUP (um_vaddr mp + um_size mp) (2 ^ k))) as [[_ ->]|[_ ->]]; done).
    destruct (IH Hl Hb st') as (G1 & G2 & G3 & G4); [subst st'; lia|done|].
    split_and!; [subst st'; lia|subst st'; lia|done|constructor; [right; subst st'; lia|done]|].
    intros v Hv Hvm Hf. apply Forall_cons in Hf as [[Hf0|Hf0] Hf]; [lia|].
    apply G4; [|done|done]. subst st'. apply Z.max_lub; [done|]. apply ROUNDUP_least; (done || lia).
Qed.

(** An address where a secure mapping may go. *)
Definition sec_fits (ut : uthread) (size align v : Z) : Prop :=
  v mod align = 0 /\ ut_start_stack ut <= v /\ v + size <= ut_ns_va_bottom ut /\ Forall (misses v size) (ut_map_list ut).

(** A thread and a request within which no address computation wraps. *)
Definition sec_bounds (ut : uthread) (size k : Z) : Prop :=
  Forall (fun mp => um_vaddr mp + um_size mp <= 2 ^ 31) (ut_map_list ut) /\
  0 <= k <= 30 /\ 0 < size < 2 ^ 30 /\ 0 < ut_start_stack ut <= 2 ^ 31 /\ ut_ns_va_bottom ut <= 2 ^ 31.

Lemma find_sec_fits ut size k :
  uthread_wf ut -> sec_bounds ut size k ->
  let v := uthread_find_va_space_sec ut size (2 ^ k) in
  (v <> 0 -> sec_fits ut size (2 ^ k) v /\ forall w, sec_fits ut size (2 ^ k) w -> v <= w) /\
  (v = 0 -> forall w, ~ sec_fits ut size (2 ^ k) w).
Proof.
  intros Hw (Hb & Hk & Hsz & Hst & Hns) v. assert (0 < 2 ^ k <= 2 ^ 30) as Hp by (split; [lia|apply Z.pow_le_mono_r; lia]).
  destruct (ROUNDUP_spec (ut_start_stack ut) k) as [Hr Hrm]; [lia..|].
  destruct (find_sec_walk_spec (ut_map_list ut) k (ROUNDUP (ut_start_stack ut) (2 ^ k)) size) as (H1 & H2 & H3 & H4); try done; [lia|].
  subst v. unfold uthread_find_va_space_sec. set (r := find_sec_walk _ _ _ _) in *.
  assert (u32 (r + size) = r + size) as -> by (unfold u32; apply Z.mod_small; lia).
  assert (forall w, sec_fits ut size (2 ^ k) w -> r <= w) as Hmin.
  { intros w (Hwm & Hws & _ & Hwf). apply H4; [|done|done]. apply ROUNDUP_least; (done || lia). }
  assert (r >? r + size = false) as -> by lia. rewrite orb_false_r.
  destruct (_ >? _) eqn:E.
  - split; [done|]. intros _ w Hf. pose proof (Hmin w Hf). destruct Hf as (_ & _ & ? & _). lia.
  - split; [|lia]. intros _. split; [|exact Hmin]. split_and!; [done|lia|lia|done].
Qed.

(** C37: [uthread_find_va_space_sec] is an exact first fit: the address it returns
    is aligned, not below the stack, ends below the non-secure region and overlaps
    no mapping, and it is the lowest such address; it returns NULL only when no
    such address exists. *)
Theorem uthread_find_va_space_sec_first_fit ut size k :
  uthread_wf ut -> sec_bounds ut size k ->
  let v := uthread_find_va_space_sec ut size (2 ^ k) in
  (v <> 0 -> sec_fits ut size (2 ^ k) v /\ forall w, sec_fits ut size (2 ^ k) w -> v <= w) /\
  (v = 0 -> forall w, ~ sec_fits ut size (2 ^ k) w).
Proof. apply find_sec_fits. Qed.

(** ** Page tables *)

(** The second-level entry for an address. *)
Definition translate (ut : uthread) (va : Z) : option Z :=
  pt ← ut_page_table ut; l2 ← pt !! l1_index va; l2_entries l2 !! l2_index va.

(** A page of user space. *)
Definition upage (va : Z) : Prop := 0 <= va < MAX_USR_VA /\ va mod PAGE = 0.

Lemma l1_index_div va : 0 <= va < MAX_USR_VA -> l1_index va = va / 2 ^ 20.
Proof.
  intros Hva. unfold l1_index, MMU_MEMORY_TTBR0_L1_INDEX_MASK, MAX_USR_VA in *. change (2 ^ 5 - 1) with (Z.ones 5).
  rewrite Z.land_ones, Z.shiftr_div_pow2 by lia. apply Z.mod_small.
  split; [apply Z.div_pos; lia|apply Z.div_lt_upper_bound; lia].
Qed.

Lemma l2_index_mod va : 0 <= va -> l2_index va = (va / 2 ^ 12) mod 2 ^ 8.
Proof.
  intros Hva. unfold l2_index, MMU_MEMORY_TTBR_L2_INDEX_MASK. change (2 ^ 8 - 1) with (Z.ones 8).
  by rewrite Z.land_ones, Z.shiftr_div_pow2 by lia.
Qed.

(** The two indices name the page. *)
Lemma page_index_inj va vb : upage va -> upage vb -> l1_index va = l1_index vb -> l2_index va = l2_index vb -> va = vb.
Proof.
  intros [Ha Ma] [Hb Mb]. rewrite !l1_index_div, !l2_index_mod by lia. unfold PAGE in *. intros E1 E2.
  assert (forall x, 0 <= x -> x mod 4096 = 0 -> x = 2 ^ 20 * (x / 2 ^ 20) + 2 ^ 12 * ((x / 2 ^ 12) mod 2 ^ 8)) as Hx.
  { intros x Hx0 Hx. pose proof (Z.div_mod x (2 ^ 12) ltac:(lia)). pose proof (Z.div_mod (x / 2 ^ 12) (2 ^ 8) ltac:(lia)) as Hd.
    rewrite Z.div_div in Hd by lia. change (2 ^ 12 * 2 ^ 8) with (2 ^ 20) in Hd. change 4096 with (2 ^ 12) in Hx. lia. }
  rewrite (Hx va), (Hx vb) by lia. by rewrite E1, E2.
Qed.

(** [ut'] is [ut] but for the page table. *)
Definition same_but_pt (ut ut' : uthread) : Prop := ut' = ut_set_page_table (ut_page_table ut') ut.

Lemma same_but_pt_trans a b c : same_but_pt a b -> same_but_pt b c -> same_but_pt a c.
Proof. unfold same_but_pt. intros -> ->. by destruct a. Qed.
Lemma same_but_pt_refl a : same_but_pt a a.
Proof. by destruct a. Qed.

(** Thread [t] is [ut], and its page table satisfies [P]. *)
Definition at_pt (t : Z) (ut : uthread) (P : uthread -> Prop) (s : ustate) : Prop :=
  exists ut', us_threads s !! t = Some ut' /\ same_but_pt ut ut' /\ P ut'.

Lemma wp_umalloc (Q : option Z -> ustate -> Prop) s :
  (forall a l, Q a (us_set_allocs l s)) -> wp umalloc Q s.
Proof.
  intros H. unfold wp, umalloc, mbind, M_bind. cbn. destruct (us_allocs s) eqn:E; [|apply H].
  specialize (H None (us_allocs s)). rewrite E in H. cbn. destruct s; cbn in *; by subst.
Qed.

Lemma wp_get_ut t (Q : uthread -> ustate -> Prop) s ut :
  us_threads s !! t = Some ut -> Q ut s -> wp (get_ut t) Q s.
Proof. intros E H. unfold wp. by rewrite get_ut_run, E. Qed.

Lemma wp_upd_ut t f (Q : unit -> ustate -> Prop) s ut :
  us_threads s !! t = Some ut -> Q tt (us_set_threads (<[t := f ut]> (us_threads s)) s) -> wp (upd_ut t f) Q s.
Proof. intros E H. unfold wp. by rewrite upd_ut_run, E. Qed.

Definition l2_entry (paddr l2_flags : Z) : Z := Z.lor paddr (Z.lor MMU_MEMORY_L2_NON_GLOBAL (Z.lor l2_flags 2)).

(** Reduces the record and option plumbing, and no map operation. *)
Ltac simpl_pt :=
  cbn [ut_page_table ut_set_page_table mbind option_bind l2_entries l2_l1_flags us_threads us_set_threads us_set_allocs].

(** Installing one entry in a table that is there or just allocated. *)
Lemma translate_insert ut pt l2 va e :
  ut_page_table ut = Some pt ->
  (pt !! l1_index va = Some l2 \/ pt !! l1_index va = None /\ l2_entries l2 = ∅) -> upage va ->
  let ut' := ut_set_page_table (Some (<[l1_index va := L2Table (l2_l1_flags l2) (<[l2_index va := e]> (l2_entries l2))]> pt)) ut in
  translate ut' va = Some e /\ (forall vb, upage vb -> vb <> va -> translate ut' vb = translate ut vb).
Proof.
  intros Hpt Hl2 Hva ut'. subst ut'. unfold translate. simpl_pt. rewrite Hpt. simpl_pt. split.
  - rewrite lookup_insert_eq. simpl_pt. by rewrite lookup_insert_eq.
  - intros vb Hvb Hne. destruct (decide (l1_index vb = l1_index va)) as [E1|E1].
    + rewrite E1, lookup_insert_eq. simpl_pt. rewrite lookup_insert_ne.
      * destruct Hl2 as [->|[-> ->]]; [done|]. simpl_pt. by rewrite lookup_empty.
      * intros E2. apply Hne. by apply page_index_inj.
    + by rewrite lookup_insert_ne by congruence.
Qed.

Lemma mmu_map_spec t ut paddr va l1f l2f s :
  us_threads s !! t = Some ut -> upage va -> translate ut va = None ->
  wp (arm_uthread_mmu_map t paddr va l1f l2f) (fun err s' =>
    at_pt t ut (fun ut' =>
      (err = NO_ERROR /\ translate ut' va = Some (l2_entry paddr l2f) /\
       forall vb, upage vb -> vb <> va -> translate ut' vb = translate ut vb) \/
      (err = ERR_NO_MEMORY /\ forall vb, upage vb -> translate ut' vb = translate ut vb)) s') s.
Proof.
  intros Ht Hva Hno. unfold arm_uthread_mmu_map. apply wp_bind. eapply wp_get_ut; [done|]. apply wp_bind.
  (* the first-level table *)
  apply (wp_mono _ (fun pt s1 => exists ut1, us_threads s1 !! t = Some ut1 /\ same_but_pt ut ut1 /\ ut_page_table ut1 = pt /\
           forall vb, translate ut1 vb = translate ut vb)).
  { destruct (ut_page_table ut) as [pt|] eqn:Ept.
    - apply wp_ret. exists ut. split_and!; auto using same_but_pt_refl.
    - apply wp_bind, wp_umalloc. intros [a|] l.
      + apply wp_bind. eapply wp_upd_ut; [done|]. apply wp_ret. eexists. simpl_pt. rewrite lookup_insert_eq. split_and!; try done.
        intros vb. unfold translate. by rewrite Ept.
      + apply wp_ret. exists ut. split_and!; auto using same_but_pt_refl. }
  intros [pt|] s1 (ut1 & Ht1 & Hs1 & Hp1 & Htr1).
  2: { apply wp_ret. exists ut1. split_and!; auto. }
  (* the second-level table *)
  apply wp_bind. apply (wp_mono _ (fun l2 s2 => us_threads s2 = us_threads s1 /\
     match l2 with
     | Some l2 => pt !! l1_index va = Some l2 \/ pt !! l1_index va = None /\ l2_entries l2 = ∅
     | None => True end)).
  { destruct (pt !! l1_index va) as [l2|]; [by apply wp_ret; auto|]. apply wp_bind, wp_umalloc.
    intros [a|] l; apply wp_ret; auto. }
  intros [l2|] s2 [Et2 Hl2].
  2: { apply wp_ret. exists ut1. rewrite Et2. split_and!; auto. }
  assert (l2_entries l2 !! l2_index va = None) as Hfree.
  { rewrite <- (Htr1 va) in Hno. unfold translate in Hno. rewrite Hp1 in Hno. cbn in Hno.
    destruct Hl2 as [Hl2|[_ ->]]; [by rewrite Hl2 in Hno|apply lookup_empty]. }
  apply wp_bind, wp_assert; [by apply bool_decide_eq_true_2|].
  apply wp_bind. eapply wp_upd_ut; [by rewrite Et2|]. apply wp_ret.
  destruct (translate_insert ut1 pt l2 va (l2_entry paddr l2f) Hp1 Hl2 Hva) as [Ha Hb].
  eexists. simpl_pt. rewrite lookup_insert_eq. split_and!; [done| |left; split_and!; [done|exact Ha|]].
  - eapply same_but_pt_trans; [done|]. done.
  - intros vb Hvb Hne. rewrite Hb by done. apply Htr1.
Qed.

Lemma mmu_unmap_spec t ut va s :
  us_threads s !! t = Some ut -> upage va ->
  wp (arm_uthread_mmu_unmap t va) (fun err s' =>
    at_pt t ut (fun ut' =>
      (is_Some (translate ut va) -> err = NO_ERROR) /\
      translate ut' va = None /\ (forall vb, upage vb -> vb <> va -> translate ut' vb = translate ut vb)) s') s.
Proof.
  intros Ht Hva. unfold arm_uthread_mmu_unmap. apply wp_bind. eapply wp_get_ut; [done|].
  destruct (ut_page_table ut) as [pt|] eqn:Ept.
  2: { apply wp_ret. exists ut. unfold translate. rewrite Ept. simpl_pt. split_and!; auto using same_but_pt_refl. by intros [? ?]. }
  destruct (pt !! l1_index va) as [l2|] eqn:El2.
  2: { apply wp_ret. exists ut. unfold translate. rewrite Ept. simpl_pt. rewrite El2. simpl_pt. split_and!; auto using same_but_pt_refl. by intros [? ?]. }
  apply wp_bind. eapply wp_upd_ut; [done|]. apply wp_ret. eexists. simpl_pt. rewrite lookup_insert_eq. split_and!; [done|done|done|..].
  - unfold translate. simpl_pt. rewrite lookup_insert_eq. simpl_pt. apply lookup_delete_eq.
  - intros vb Hvb Hne. unfold translate. simpl_pt. rewrite Ept. simpl_pt. destruct (decide (l1_index vb = l1_index va)) as [E1|E1].
    + rewrite E1, lookup_insert_eq, El2. simpl_pt. apply lookup_delete_ne. intros E2. apply Hne. by apply page_index_inj.
    + by rewrite lookup_insert_ne by congruence.
Qed.

(** A mapping of whole pages inside user space. *)
Definition um_paged (mp : umap) : Prop :=
  um_wf mp /\ um_vaddr mp mod PAGE = 0 /\ um_vaddr mp + um_size mp <= MAX_USR_VA.

Lemma page_va_eq mp pg : um_paged mp -> (pg < um_npages mp)%nat -> page_va mp pg = um_vaddr mp + Z.of_nat pg * PAGE.
Proof.
  intros ((H0 & H1 & H2 & H3) & H4 & H5) Hpg. unfold page_va, um_npages, u32, PAGE, MAX_USR_VA in *. apply Z.mod_small.
  pose proof (Z.mul_div_le (um_size mp) 4096 ltac:(lia)). lia.
Qed.

Lemma page_va_upage mp pg : um_paged mp -> (pg < um_npages mp)%nat -> upage (page_va mp pg).
Proof.
  intros Hm Hpg. rewrite page_va_eq by done. destruct Hm as ((H0 & H1 & H2 & H3) & H4 & H5). unfold upage, um_npages, PAGE in *. split.
  - pose proof (Z.mul_div_le (um_size mp) 4096 ltac:(lia)). lia.
  - rewrite Z.mod_add by lia. done.
Qed.

Lemma page_va_inj mp i j : um_paged mp -> (i < um_npages mp)%nat -> (j < um_npages mp)%nat -> page_va mp i = page_va mp j -> i = j.
Proof. intros Hm Hi Hj. rewrite !page_va_eq by done. unfold PAGE. lia. Qed.

(** Page [pg] of the mapping shows its physical page with the mapping's rights. *)
Definition page_entry (mp : umap) (pg : nat) : Z :=
  l2_entry (default 0 (map_paddr mp pg)) (map_l2_flags (um_flags mp)).

(** The first [n] pages are installed, and nothing else changed since [ut0]. *)
Definition pages_in (ut0 : uthread) (mp : umap) (n : nat) (ut : uthread) : Prop :=
  (forall i, (i < n)%nat -> translate ut (page_va mp i) = Some (page_entry mp i)) /\
  (forall vb, upage vb -> (forall i, (i < n)%nat -> vb <> page_va mp i) -> translate ut vb = translate ut0 vb).

Definition same_pages (ut0 ut : uthread) : Prop := forall vb, upage vb -> translate ut vb = translate ut0 vb.

Lemma undo_maps_spec t ut mp pgs s :
  us_threads s !! t = Some ut -> um_paged mp -> Forall (fun pg => (pg < um_npages mp)%nat) pgs ->
  wp (undo_maps t mp pgs) (fun _ s' => at_pt t ut (fun ut' =>
    forall vb, upage vb -> (vb ∈ page_va mp <$> pgs -> translate ut' vb = None) /\
                           (vb ∉ page_va mp <$> pgs -> translate ut' vb = translate ut vb)) s') s.
Proof.
  intros Ht Hm Hpgs. revert ut s Ht. induction Hpgs as [|pg pgs Hpg Hpgs IH]; intros ut s Ht; cbn [undo_maps fmap list_fmap].
  - apply wp_ret. exists ut. split_and!; [done|apply same_but_pt_refl|]. intros vb _. split; [by intros ?%not_elem_of_nil|done].
  - apply wp_bind. eapply wp_mono; [apply (mmu_unmap_spec t ut); [done|by apply page_va_upage]|].
    intros err s1 (ut1 & Ht1 & Hs1 & _ & Hn & Ho).
    eapply wp_mono; [by apply IH|]. intros _ s2 (ut2 & Ht2 & Hs2 & H2).
    exists ut2. split_and!; [done|by eapply same_but_pt_trans|]. intros vb Hvb. destruct (H2 vb Hvb) as [Hin Hout]. split.
    + intros Hv. destruct (decide (vb ∈ page_va mp <$> pgs)) as [Hi|Hi]; [by apply Hin|]. rewrite Hout by done.
      rewrite elem_of_cons in Hv. destruct Hv as [->|Hv]; [done|]. done.
    + rewrite not_elem_of_cons. intros [Hne Hni]. rewrite Hout, Ho by done. done.
Qed.

Lemma undo_first_pages ut0 ut ut' mp pg :
  um_paged mp -> (pg <= um_npages mp)%nat -> pages_in ut0 mp pg ut ->
  (forall i, (i < um_npages mp)%nat -> translate ut0 (page_va mp i) = None) ->
  (forall vb, upage vb -> (vb ∈ page_va mp <$> seq 0 pg -> translate ut' vb = None) /\
                          (vb ∉ page_va mp <$> seq 0 pg -> translate ut' vb = translate ut vb)) ->
  same_pages ut0 ut'.
Proof.
  intros Hm Hpg [_ Hrest] Hfree H vb Hvb. destruct (H vb Hvb) as [Hin Hout].
  destruct (decide (vb ∈ page_va mp <$> seq 0 pg)) as [Hi|Hi].
  - rewrite Hin by done. apply list_elem_of_fmap in Hi as (i & -> & Hi). apply elem_of_seq in Hi.
    symmetry. apply Hfree. lia.
  - rewrite Hout by done. apply Hrest; [done|]. intros i Hlt ->. apply Hi. apply list_elem_of_fmap. exists i.
    split; [done|]. apply elem_of_seq. lia.
Qed.

Lemma arch_map_loop_spec t ut0 mp n pg ut s :
  us_threads s !! t = Some ut -> same_but_pt ut0 ut -> um_paged mp -> (pg + n = um_npages mp)%nat ->
  (forall i, (i < um_npages mp)%nat -> is_Some (map_paddr mp i) /\ translate ut0 (page_va mp i) = None) ->
  pages_in ut0 mp pg ut ->
  wp (arch_map_loop t mp n pg) (fun err s' => at_pt t ut0 (fun ut' =>
    (err = NO_ERROR /\ pages_in ut0 mp (um_npages mp) ut') \/ (err <> NO_ERROR /\ same_pages ut0 ut')) s') s.
Proof.
  intros Ht Hs Hm. revert pg ut s Ht Hs. induction n as [|n IH]; intros pg ut s Ht Hs Hn Hp Hin; cbn [arch_map_loop].
  { apply wp_ret. exists ut. replace (um_npages mp) with pg by lia. split_and!; auto. }
  destruct (Hp pg ltac:(lia)) as [[paddr Epa] Hfree]. rewrite Epa. apply wp_bind, wp_ret.
  assert (forall e s1 ut1, e <> NO_ERROR -> us_threads s1 !! t = Some ut1 -> same_but_pt ut0 ut1 -> pages_in ut0 mp pg ut1 ->
    wp (undo_maps t mp (seq 0 pg);; mret e) (fun err s' => at_pt t ut0 (fun ut' =>
      (err = NO_ERROR /\ pages_in ut0 mp (um_npages mp) ut') \/ (err <> NO_ERROR /\ same_pages ut0 ut')) s') s1) as Hundo.
  { intros e s1 ut1 He Ht1 Hs1 Hin1. apply wp_bind. eapply wp_mono; [apply (undo_maps_spec t ut1); [done|done|]|].
    - apply Forall_forall. intros i Hi. apply elem_of_seq in Hi. lia.
    - intros _ s2 (ut2 & Ht2 & Hs2 & H2). apply wp_ret. exists ut2. split_and!; [done|by eapply same_but_pt_trans|right].
      split; [done|]. eapply undo_first_pages; [done| |exact Hin1| |exact H2]; [lia|]. intros i Hi. by apply Hp. }
  destruct (negb _); [by eapply Hundo|].
  assert (translate ut (page_va mp pg) = None) as Hnone.
  { destruct Hin as [_ Hrest]. rewrite Hrest; [done|by apply page_va_upage; [|lia]|].
    intros i Hi E. apply page_va_inj in E; [lia|done|lia|lia]. }
  apply wp_bind. eapply wp_mono; [apply (mmu_map_spec t ut); [done|by apply page_va_upage; [|lia]|done]|].
  intros err s1 (ut1 & Ht1 & Hs1 & [(-> & Hv & Ho)|(-> & Ho)]).
  - cbn [negb Z.eqb NO_ERROR]. apply (IH (S pg) ut1); [done|by eapply same_but_pt_trans|lia|done|].
    destruct Hin as [Hpre Hrest]. split.
    + intros i Hi. destruct (decide (i = pg)) as [->|Hne]; [rewrite Hv; unfold page_entry; by rewrite Epa|].
      rewrite Ho; [apply Hpre; lia|apply page_va_upage; [done|lia]|]. intros E. apply page_va_inj in E; [lia|done|lia|lia].
    + intros vb Hvb Hne. rewrite Ho; [|done|apply Hne; lia]. apply Hrest; [done|]. intros i Hi. apply Hne. lia.
  - cbn [negb Z.eqb ERR_NO_MEMORY]. apply (Hundo _ s1 ut1); [done|done|by eapply same_but_pt_trans|].
    destruct Hin as [Hpre Hrest]. split.
    + intros i Hi. rewrite Ho by (by apply page_va_upage; [|lia]). by apply Hpre.
    + intros vb Hvb Hne. rewrite Ho by done. by apply Hrest.
Qed.

(** ** The list of mappings and the page table agree *)

Definition in_map (va : Z) (mp : umap) : Prop := um_vaddr mp <= va < um_vaddr mp + um_size mp.

(** The mapped pages are those of the list. *)
Definition pt_matches (ut : uthread) : Prop :=
  forall va, upage va -> is_Some (translate ut va) <-> Exists (in_map va) (ut_map_list ut).

Record ut_ok (ut : uthread) : Prop := {
  uo_wf : uthread_wf ut;
  uo_paged : Forall um_paged (ut_map_list ut);
  uo_match : pt_matches ut;
}.

Lemma in_map_page mp va : um_paged mp -> upage va -> in_map va mp ->
  exists i, (i < um_npages mp)%nat /\ va = page_va mp i.
Proof.
  intros Hm [Hva Hvm] Hin. pose proof Hm as ((H0 & H1 & H2 & H3) & H4 & H5). unfold in_map, PAGE in *.
  apply Z.mod_divide in H3 as [q3 E3]; [|lia]. apply Z.mod_divide in H4 as [q4 E4]; [|lia]. apply Z.mod_divide in Hvm as [q E]; [|lia].
  assert (um_npages mp = Z.to_nat q3) as En by (unfold um_npages, PAGE; rewrite E3, Z.div_mul by lia; done).
  exists (Z.to_nat (q - q4)). assert (Z.to_nat (q - q4) < um_npages mp)%nat as Hlt by lia.
  split; [done|]. rewrite page_va_eq by done. unfold PAGE. lia.
Qed.

Lemma page_in_map mp i : um_paged mp -> (i < um_npages mp)%nat -> in_map (page_va mp i) mp.
Proof.
  intros Hm Hi. rewrite page_va_eq by done. pose proof Hm as ((H0 & H1 & H2 & H3) & H4 & H5). unfold in_map, um_npages, PAGE in *.
  pose proof (Z.mul_div_le (um_size mp) 4096 ltac:(lia)). lia.
Qed.

Lemma no_overlap_free ut mp : ut_ok ut -> um_paged mp -> Forall (fun x => ~ overlap mp x) (ut_map_list ut) ->
  forall i, (i < um_npages mp)%nat -> translate ut (page_va mp i) = None.
Proof.
  intros Hok Hm Hno i Hi. destruct (translate ut (page_va mp i)) eqn:E; [|done]. exfalso.
  assert (Exists (in_map (page_va mp i)) (ut_map_list ut)) as Hex.
  { apply (uo_match _ Hok); [by apply page_va_upage|by eexists]. }
  apply Exists_exists in Hex as (x & Hx & Hxin). pose proof (page_in_map mp i Hm Hi) as Hin.
  apply (proj1 (Forall_forall _ _) Hno x Hx). unfold overlap, in_map in *. lia.
Qed.

Lemma ut_ok_mapped ut ut' mp l nb :
  ut_ok ut -> um_paged mp -> map_insert mp (ut_map_list ut) = Some l ->
  same_but_pt (ut_set_maps l nb ut) ut' -> pages_in (ut_set_maps l nb ut) mp (um_npages mp) ut' -> ut_ok ut'.
Proof.
  intros Hok Hm Hi Hs [Hp Hr]. pose proof (map_insert_perm _ _ _ Hi) as Hperm.
  assert (ut_map_list ut' = l) as El by (unfold same_but_pt in Hs; rewrite Hs; done).
  split.
  - unfold uthread_wf. rewrite El. eapply map_insert_wf; [apply Hok|apply Hm|exact Hi].
  - rewrite El, Hperm. constructor; [done|apply Hok].
  - intros va Hva. rewrite El, Hperm, Exists_cons. split.
    + intros Htr. destruct (decide (Exists (fun i => va = page_va mp i) (seq 0 (um_npages mp)))) as [Hex|Hno].
      * left. apply Exists_exists in Hex as (i & Hi' & ->). apply elem_of_seq in Hi'. apply page_in_map; [done|lia].
      * right. apply (uo_match _ Hok); [done|]. rewrite Hr in Htr; [exact Htr|done|]. intros i Hlt ->. apply Hno.
        apply Exists_exists. exists i. split; [apply elem_of_seq; lia|done].
    + intros [Hin|Hex].
      * destruct (in_map_page mp va Hm Hva Hin) as (i & Hlt & ->). rewrite Hp by done. by eexists.
      * destruct (decide (Exists (fun i => va = page_va mp i) (seq 0 (um_npages mp)))) as [Hx|Hno].
        { apply Exists_exists in Hx as (i & Hi' & ->). apply elem_of_seq in Hi'. rewrite Hp by lia. by eexists. }
        rewrite Hr; [by apply (uo_match _ Hok)|done|]. intros i Hlt ->. apply Hno.
        apply Exists_exists. exists i. split; [apply elem_of_seq; lia|done].
Qed.

(** The end of [uthread_map], once the address is known. *)
Definition map_at (t va : Z) (pfns : list Z) (size flags align : Z) : U (Z * Z) :=
  '(err, mp) ← uthread_map_alloc t va pfns size flags align;
  match mp with
  | None => mret (err, va)
  | Some mp => err ← arch_uthread_map t mp; mret (err, va)
  end.

(** What a call of [uthread_map] did. *)
Definition mapped_or_not (t : Z) (ut : uthread) (pfns : list Z) (size flags align : Z) (r : Z * Z) (s' : ustate) : Prop :=
  exists ut', us_threads s' !! t = Some ut' /\
  let mp := UMap r.2 size flags align (take (Z.to_nat (if has_flag flags UTM_PHYS_CONTIG then 1 else size / PAGE)) pfns) in
  (r.1 = NO_ERROR /\ ut_ok ut' /\ ut_map_list ut' ≡ₚ mp :: ut_map_list ut /\ pages_in ut mp (um_npages mp) ut') \/
  (r.1 <> NO_ERROR /\ same_pages ut ut').

Definition enough_pfns (pfns : list Z) (size flags : Z) : Prop :=
  if has_flag flags UTM_PHYS_CONTIG then pfns <> [] else size / PAGE <= Z.of_nat (length pfns).

Lemma map_paddr_some va size flags align pfns i :
  0 <= size -> enough_pfns pfns size flags ->
  let mp := UMap va size flags align (take (Z.to_nat (if has_flag flags UTM_PHYS_CONTIG then 1 else size / PAGE)) pfns) in
  (i < um_npages mp)%nat -> is_Some (map_paddr mp i).
Proof.
  intros Hs He mp Hi. unfold map_paddr, um_npages, enough_pfns in *. subst mp. cbn [um_flags um_pfns um_size] in *.
  destruct (has_flag flags UTM_PHYS_CONTIG).
  - destruct pfns; [done|]. cbn. by eexists.
  - rewrite lookup_take_lt by lia. apply lookup_lt_is_Some. lia.
Qed.

Lemma map_at_spec t ut va pfns size flags align s :
  us_threads s !! t = Some ut -> ut_ok ut -> 0 <= va < 2 ^ 32 -> va mod PAGE = 0 -> 0 <= size < 2 ^ 32 -> size mod PAGE = 0 ->
  enough_pfns pfns size flags ->
  wp (map_at t va pfns size flags align) (mapped_or_not t ut pfns size flags align) s.
Proof.
  intros Ht Hok Hva Hal Hsz Hsal Hpf. unfold map_at, uthread_map_alloc. apply wp_bind, wp_bind, wp_assert.
  { rewrite land_page_mod by lia. by apply Z.eqb_eq. }
  assert (forall (e : Z) s1, e <> NO_ERROR -> us_threads s1 !! t = Some ut -> mapped_or_not t ut pfns size flags align (e, va) s1) as Hfail.
  { intros e s1 He Ht1. exists ut. split; [done|]. right. split; [done|]. by intros vb Hvb. }
  destruct (_ <=? va) eqn:Ew; [apply wp_ret, wp_ret; by apply Hfail|].
  destruct (u32_lt_wrap va size Hva Hsz Ew) as [Hs0 Hend].
  apply wp_bind, wp_umalloc. intros [a|] al; [|apply wp_ret, wp_ret; by apply Hfail].
  apply wp_bind. eapply wp_get_ut; [done|]. set (mp := UMap va size flags align (take _ pfns)). set (nb := (if is_ns flags && _ then _ else _) : Z).
  assert (um_wf mp) as Hw by (split_and!; cbn; (done || lia)).
  destruct (map_insert mp (ut_map_list ut)) as [l|] eqn:Ei; [|apply wp_ret, wp_ret; by apply Hfail].
  apply wp_bind. eapply wp_upd_ut; [done|]. apply wp_ret. cbv beta iota. set (s1 := us_set_threads _ _).
  set (ut1 := ut_set_maps l nb ut).
  assert (us_threads s1 !! t = Some ut1) as Ht1 by (apply lookup_insert_eq).
  apply wp_bind. unfold arch_uthread_map. cbn [um_size um_vaddr mp].
  destruct (_ || _) eqn:Eb.
  { apply wp_ret, wp_ret. exists ut1. split; [done|]. right. split; [done|]. by intros vb Hvb. }
  apply orb_false_iff in Eb as [Eb1 Eb2].
  assert (u32 (MAX_USR_VA - size) = MAX_USR_VA - size) as Eu by (unfold u32, MAX_USR_VA in *; apply Z.mod_small; lia).
  rewrite Eu in Eb2. assert (um_paged mp) as Hm by (split_and!; [done|done|cbn; lia]).
  apply wp_bind, wp_assert; [rewrite land_page_mod by lia; by apply Z.eqb_eq|].
  destruct (map_insert_wf mp _ _ (uo_wf _ Hok) Hw Ei) as [_ Hno].
  eapply wp_mono; [apply (arch_map_loop_spec t ut1 mp (um_npages mp) 0 ut1)|].
  - done.
  - apply same_but_pt_refl.
  - done.
  - lia.
  - intros i Hi. split; [apply (map_paddr_some va size flags align pfns i); [lia|done|exact Hi]|]. by apply (no_overlap_free ut mp Hok Hm Hno).
  - split; [lia|]. done.
  - intros err s2 (ut2 & Ht2 & Hs2 & [(-> & Hp)|(He & Hp)]); apply wp_ret; exists ut2; (split; [done|]).
    + left. split_and!; [done|by eapply ut_ok_mapped| |exact Hp].
      unfold same_but_pt in Hs2. rewrite Hs2. cbn. by apply map_insert_perm.
    + right. split; [done|]. exact Hp.
Qed.


(** ** Unmapping *)

Lemma arch_unmap_loop_spec t ut0 mp n pg ut s :
  us_threads s !! t = Some ut -> same_but_pt ut0 ut -> um_paged mp -> (pg + n = um_npages mp)%nat ->
  (forall i, (i < um_npages mp)%nat -> is_Some (translate ut0 (page_va mp i))) ->
  (forall i, (i < pg)%nat -> translate ut (page_va mp i) = None) ->
  (forall vb, upage vb -> (forall i, (i < pg)%nat -> vb <> page_va mp i) -> translate ut vb = translate ut0 vb) ->
  wp (arch_unmap_loop t mp n pg) (fun err s' => at_pt t ut0 (fun ut' => err = NO_ERROR /\
    (forall i, (i < um_npages mp)%nat -> translate ut' (page_va mp i) = None) /\
    (forall vb, upage vb -> (forall i, (i < um_npages mp)%nat -> vb <> page_va mp i) -> translate ut' vb = translate ut0 vb)) s') s.
Proof.
  intros Ht Hs Hm. revert pg ut s Ht Hs. induction n as [|n IH]; intros pg ut s Ht Hs Hn Hall Hpre Hrest; cbn [arch_unmap_loop].
  { apply wp_ret. exists ut. replace (um_npages mp) with pg by lia. split_and!; auto. }
  assert (translate ut (page_va mp pg) = translate ut0 (page_va mp pg)) as Epg.
  { apply Hrest; [apply page_va_upage; [done|lia]|]. intros i Hi E. apply page_va_inj in E; [lia|done|lia|lia]. }
  apply wp_bind. eapply wp_mono; [apply (mmu_unmap_spec t ut); [done|apply page_va_upage; [done|lia]]|].
  intros err s1 (ut1 & Ht1 & Hs1 & He & Hno & Ho). rewrite He by (rewrite Epg; apply Hall; lia). cbn [negb Z.eqb NO_ERROR].
  apply (IH (S pg) ut1); [done|by eapply same_but_pt_trans|lia|done|..].
  - intros i Hi. destruct (decide (i = pg)) as [->|Hne]; [done|]. rewrite Ho; [apply Hpre; lia|apply page_va_upage; [done|lia]|].
    intros E. apply page_va_inj in E; [lia|done|lia|lia].
  - intros vb Hvb Hne. rewrite Ho; [|done|apply Hne; lia]. apply Hrest; [done|]. intros i Hi. apply Hne. lia.
Qed.

Lemma map_find_spec l vaddr size i j mp :
  map_find l vaddr size i = Some (j, mp) -> exists n, j = (i + n)%nat /\ l !! n = Some mp /\ um_vaddr mp <= vaddr < um_end mp.
Proof.
  revert i. induction l as [|x l IH]; intros i; cbn [map_find]; [done|].
  destruct (_ && _) eqn:E.
  - intros [= <- <-]. exists 0%nat. split; [lia|]. split; [done|].
    apply andb_true_iff in E as [[?%Z.leb_le ?%Z.ltb_lt]%andb_true_iff _]. done.
  - intros H. destruct (IH _ H) as (n & -> & Hn & Hr). exists (S n). split; [lia|done].
Qed.

Lemma maps_disjoint l i j x y va : maps_wf l -> l !! i = Some x -> l !! j = Some y -> in_map va x -> in_map va y -> i = j.
Proof.
  revert i j. induction l as [|z l IH]; intros i j Hl Hi Hj Hx Hy; [done|]. destruct Hl as (Hz & Hs & Hl). unfold in_map in *.
  destruct i as [|i], j as [|j]; cbn in Hi, Hj; [done| | |f_equal; eauto].
  - injection Hi as ->. apply list_elem_of_lookup_2, (proj1 (Forall_forall _ _) Hs) in Hj. cbn in Hj. lia.
  - injection Hj as ->. apply list_elem_of_lookup_2, (proj1 (Forall_forall _ _) Hs) in Hi. cbn in Hi. lia.
Qed.

(** Non-secure mappings sit above all others. *)
Definition ns_topmost (l : list umap) : Prop :=
  forall i j x y, l !! i = Some x -> l !! j = Some y -> (i < j)%nat -> is_ns (um_flags x) = true -> is_ns (um_flags y) = true.

Lemma map_remove_spec t ut i mp s :
  us_threads s !! t = Some ut -> ut_map_list ut !! i = Some mp -> ns_topmost (ut_map_list ut) ->
  wp (uthread_map_remove t i mp) (fun _ s' => exists nb, us_threads s' !! t = Some (ut_set_maps (delete i (ut_map_list ut)) nb ut)) s.
Proof.
  intros Ht Hi Htop. unfold uthread_map_remove. apply wp_bind. eapply wp_get_ut; [done|]. apply wp_bind.
  apply (wp_mono _ (fun _ s' => s' = s)).
  - destruct (is_ns (um_flags mp)) eqn:En; [|done]. destruct (match match i with O => None | S i' => _ end with None => _ | Some _ => _ end); [|done].
    destruct (ut_map_list ut !! S i) as [item|] eqn:Ei; [|done].
    apply wp_bind, wp_assert; [by eapply (Htop i (S i)); eauto|done].
  - intros nb s' ->. eapply wp_upd_ut; [done|]. exists nb. apply lookup_insert_eq.
Qed.

(** [uthread_unmap] removes the whole mapping a range lies in: from a thread
    whose page table and list agree it succeeds, none of the mapping's pages
    translates any more, all others do as before, and list and table still
    agree. *)
Theorem uthread_unmap_spec t ut vaddr size i mp s :
  us_threads s !! t = Some ut -> ut_ok ut -> ns_topmost (ut_map_list ut) -> vaddr <> 0 ->
  uthread_map_find ut vaddr size = Some (i, mp) ->
  wp (uthread_unmap t vaddr size) (fun err s' => err = NO_ERROR /\ exists ut', us_threads s' !! t = Some ut' /\
    ut_map_list ut' = delete i (ut_map_list ut) /\ ut_ok ut' /\
    (forall vb, upage vb -> translate ut' vb = if decide (in_map vb mp) then None else translate ut vb)) s.
Proof.
  intros Ht Hok Htop Hv0 Hf. unfold uthread_unmap. destruct (Z.eqb_spec vaddr 0); [done|].
  apply wp_bind. eapply wp_get_ut; [done|]. rewrite Hf. unfold uthread_map_find in Hf. destruct (_ <? _); [done|].
  apply map_find_spec in Hf as (n0 & -> & Hi & _). cbn [Nat.add] in *.
  assert (um_paged mp) as Hm by (by eapply (Forall_lookup_1 _ _ n0); [apply Hok|]).
  assert (forall vb, upage vb -> in_map vb mp -> is_Some (translate ut vb)) as Hall.
  { intros vb Hvb Hin. apply (uo_match _ Hok); [done|]. apply Exists_exists. exists mp. split; [by eapply list_elem_of_lookup_2|done]. }
  apply wp_bind. eapply wp_mono; [apply (arch_unmap_loop_spec t ut mp (um_npages mp) 0 ut)|]; auto using same_but_pt_refl.
  { intros j Hj. apply Hall; [by apply page_va_upage|by apply page_in_map]. }
  { lia. }
  intros err s1 (ut1 & Ht1 & Hs1 & -> & Hno & Ho). cbn [negb Z.eqb NO_ERROR].
  assert (ut_map_list ut1 = ut_map_list ut) as El by (unfold same_but_pt in Hs1; rewrite Hs1; done).
  apply wp_bind. eapply wp_mono; [apply (map_remove_spec t ut1 n0 mp); [done|by rewrite El|by rewrite El]|].
  intros _ s2 (nb & Ht2). apply wp_ret. split; [done|]. eexists; split; [exact Ht2|]. cbn [ut_map_list ut_set_maps]. rewrite El.
  assert (forall vb, upage vb -> translate ut1 vb = if decide (in_map vb mp) then None else translate ut vb) as Htr.
  { intros vb Hvb. destruct (decide (in_map vb mp)) as [Hin|Hin].
    - destruct (in_map_page mp vb Hm Hvb Hin) as (j & Hj & ->). by apply Hno.
    - apply Ho; [done|]. intros j Hj ->. apply Hin. by apply page_in_map. }
  split_and!; [done| |exact Htr].
  split; cbn [ut_map_list ut_set_maps]; rewrite ?El.
  - unfold uthread_wf. cbn [ut_map_list ut_set_maps]. rewrite ?El. apply maps_wf_delete, Hok.
  - apply Forall_delete, Hok.
  - intros vb Hvb. assert (forall l nb, translate (ut_set_maps l nb ut1) vb = translate ut1 vb) as -> by done.
    rewrite Htr by done. cbn [ut_map_list ut_set_maps]. rewrite ?El. rewrite !Exists_exists. destruct (decide (in_map vb mp)) as [Hin|Hin].
    + split; [by intros [? ?]|]. intros (x & Hx & Hxin). apply list_elem_of_lookup in Hx as (j & Hj).
      exfalso. destruct (decide (j < n0)%nat).
      * rewrite list_lookup_delete_lt in Hj by lia. pose proof (maps_disjoint _ _ _ _ _ _ (uo_wf _ Hok) Hj Hi Hxin Hin). lia.
      * rewrite list_lookup_delete_ge in Hj by lia. pose proof (maps_disjoint _ _ _ _ _ _ (uo_wf _ Hok) Hj Hi Hxin Hin). lia.
    + rewrite (uo_match _ Hok vb Hvb), Exists_exists. split; intros (x & Hx & Hxin); exists x; (split; [|done]).
      * apply list_elem_of_lookup in Hx as (j & Hj). destruct (decide (j = n0)) as [->|Hne]; [congruence|].
        apply list_elem_of_lookup. destruct (decide (j < n0)%nat).
        { exists j. by rewrite list_lookup_delete_lt by lia. }
        exists (j - 1)%nat. rewrite list_lookup_delete_ge by lia. by replace (S (j - 1)) with j by lia.
      * by eapply list_elem_of_delete_inv.
Qed.

(** ** Where the code falls short *)

Lemma map_find_some l vaddr size i mp :
  mp ∈ l -> um_vaddr mp <= vaddr < um_end mp -> u32 (vaddr + size) <= um_end mp -> is_Some (map_find l vaddr size i).
Proof.
  intros Hin Hv He. revert i. induction l as [|x l IH]; intros i; [by apply not_elem_of_nil in Hin|]. cbn [map_find].
  destruct (_ && _) eqn:E; [by eexists|]. apply elem_of_cons in Hin as [<-|Hin]; [|by apply IH].
  exfalso. rewrite !andb_false_iff in E. lia.
Qed.

(** [uthread_map] leaves a range that it failed to map in the list of
    mappings: when the physical address is not page-aligned the call fails and no
    page is mapped, but [uthread_is_valid_range] accepts the range from then on. *)
Theorem uthread_map_failure_leaves_range t ut vaddr paddr size flags align a l s :
  us_threads s !! t = Some ut -> uthread_wf ut -> us_allocs s = Some a :: l ->
  0 < vaddr -> 0 < size -> size mod PAGE = 0 -> vaddr + size <= MAX_USR_VA ->
  Forall (misses vaddr size) (ut_map_list ut) -> 0 <= paddr < 2 ^ 32 -> paddr mod PAGE <> 0 ->
  has_flag flags UTM_FIXED = true -> has_flag flags UTM_PHYS_CONTIG = true ->
  exists s' ut', uthread_map t vaddr [paddr] size flags align s = Ret (ERR_INVALID_ARGS, vaddr) s' /\
    us_threads s' !! t = Some ut' /\ ut_page_table ut' = ut_page_table ut /\
    uthread_is_valid_range t vaddr size s' = Ret true s'.
Proof.
  intros Ht Hw Hal Hv Hs Hsm Hmax Hmiss Hp Hpm Hfix Hct. unfold MAX_USR_VA in *.
  assert (u32 (vaddr + size) = vaddr + size) as Eu by (unfold u32; apply Z.mod_small; lia).
  assert (u32 (2 ^ 25 - size) = 2 ^ 25 - size) as Eu2 by (unfold u32; apply Z.mod_small; lia).
  set (mp := UMap vaddr size flags align [paddr]).
  assert (um_wf mp) as Hmp by (split_and!; cbn; (done || lia)).
  destruct (map_insert mp (ut_map_list ut)) as [l'|] eqn:Ei.
  2: { exfalso. apply map_insert_none in Ei; [|done|done]. apply Exists_exists in Ei as (x & Hx & Ho).
       apply (proj1 (Forall_forall _ _) Hmiss) in Hx. unfold misses, overlap in *. cbn in Ho. lia. }
  assert (um_npages mp = S (pred (um_npages mp))) as En.
  { unfold um_npages, PAGE in *. cbn. assert (1 <= size / 4096); [|lia]. apply Z.div_le_lower_bound; [lia|].
    apply Z.mod_divide in Hsm as [q Hq]; lia. }
  assert (map_paddr mp 0 = Some paddr) as Epa.
  { unfold map_paddr. cbn. rewrite Hct. cbn. f_equal. unfold u32. rewrite Z.mod_small; lia. }
  unfold uthread_map. rewrite land_page_mod, Hsm by lia. cbn [Z.eqb negb].
  rewrite (run_bind _ _ _ ut s) by (by rewrite get_ut_run, Ht). rewrite Hfix, (run_bind _ _ _ (Some vaddr) s) by done.
  eexists _, _. split; [|split].
  { unfold uthread_map_alloc. rewrite land_page_mod, Hsm by lia. cbn [Z.eqb assert_].
    unfold mbind at 1, M_bind at 1. rewrite (run_bind _ _ _ tt s) by done. rewrite Eu.
    destruct (_ <=? vaddr) eqn:E; [lia|]. clear E.
    rewrite (run_bind umalloc _ _ (Some a) (us_set_allocs l s)).
    2: { unfold umalloc, mbind, M_bind. cbn. by rewrite Hal. }
    rewrite (run_bind _ _ _ ut (us_set_allocs l s)) by (by rewrite get_ut_run; cbn; rewrite Ht).
    rewrite Hct. change (take (Z.to_nat 1) [paddr]) with [paddr]. fold mp. rewrite Ei.
    erewrite run_bind by (rewrite upd_ut_run; cbn [us_threads us_set_allocs]; by rewrite Ht). cbn [mret M_ret].
    unfold arch_uthread_map, MAX_USR_VA. cbn [um_size um_vaddr mp]. rewrite Eu2.
    destruct (size >? 2 ^ 25) eqn:E1; [lia|]. destruct (vaddr >? 2 ^ 25 - size) eqn:E2; [lia|]. cbn [orb].
    rewrite land_page_mod, Hsm by lia. cbn [Z.eqb assert_]. fold mp. rewrite En. cbn [arch_map_loop]. rewrite Epa.
    unfold mbind, M_bind. cbn [mret M_ret deref]. rewrite land_page_mod by lia.
    destruct (Z.eqb_spec (paddr mod PAGE) 0); [done|]. cbn. reflexivity. }
  { cbn. apply lookup_insert_eq. }
  split; [done|]. unfold uthread_is_valid_range, mbind, M_bind. rewrite get_ut_run. cbn [us_threads us_set_threads]. rewrite lookup_insert_eq.
  unfold uthread_map_find. rewrite Eu. destruct (vaddr + size <? vaddr) eqn:E; [lia|]. cbn [mret M_ret].
  rewrite bool_decide_eq_true_2; [done|]. cbn [ut_map_list ut_set_maps].
  eapply (map_find_some _ _ _ _ mp); [rewrite (map_insert_perm _ _ _ Ei); apply elem_of_cons; by left|..];
    rewrite um_end_wf by done; cbn; lia.
Qed.

(** A thread with an empty address space and a stack top at 0x10000. *)
Definition demo_ut : uthread := Uthread 65536 32768 0 [] MAX_USR_VA 1 None true 1 0.
Definition demo_us : ustate := UState {[ 1 := demo_ut ]} [1] 1 (replicate 8 (Some 4096)).

(** The non-secure attribute of a first-level entry outlives the mapping that
    set it: after a non-secure page is mapped and unmapped, a secure mapping in the
    same megabyte reuses the second-level table, whose first-level entry still
    marks it non-secure. *)
Theorem unmap_leaves_ns_attribute :
  match (_ ← uthread_map_contig 1 1048576 131072 4096 (Z.lor UTM_NS_MEM UTM_FIXED) 4096;
         _ ← uthread_unmap 1 1048576 4096;
         r ← uthread_map_contig 1 1052672 135168 4096 (Z.lor UTM_W UTM_FIXED) 4096;
         ut ← get_ut 1; mret (r, ut)) demo_us with
  | Ret (r, ut) _ =>
      r = (NO_ERROR, 1052672) /\ (is_ns ∘ um_flags <$> ut_map_list ut) = [false] /\
      (l2_l1_flags <$> (ut_page_table ut ≫= lookup (l1_index 1052672))) = Some (Z.lor MMU_MEMORY_L1_PAGETABLE_NON_SECURE 1)
  | Fault _ => False
  end.
Proof. by vm_compute. Qed.

(** [uthread_exit] frees a thread that is still on [uthread_list]: the next
    [uthread_create] writes to the freed list node. *)
Theorem uthread_exit_leaves_list_node :
  let s0 := UState ∅ [] 0 (replicate 20 (Some 8192)) in
  match (t ← uthread_create (fun a => a) 32768 65536 8192 0; t ← deref NullDeref t; uthread_exit t;; mret t) s0 with
  | Ret t s1 => us_threads s1 !! t = None /\ us_list s1 = [t] /\
                uthread_create (fun a => a) 32768 65536 8192 0 s1 = Fault BadPointer
  | Fault _ => False
  end.
Proof. by vm_compute. Qed.

(** ** Instances *)

Lemma demo_ut_ok : ut_ok demo_ut.
Proof.
  split; [done|by constructor|]. intros va Hva. unfold translate. cbn. split; [by intros [? ?]|by intros ?%Exists_nil].
Qed.

Lemma demo_us_wf : threads_wf demo_us.
Proof. unfold threads_wf, demo_us. cbn. apply map_Forall_singleton. done. Qed.

Lemma uthread_map_unmap_keep_lists_witness :
  wlp (uthread_map 1 131072 [65536] 4096 (Z.lor UTM_W UTM_FIXED) 4096) (fun _ s' => threads_wf s') demo_us /\
  wlp (uthread_unmap 1 131072 4096) (fun _ s' => threads_wf s') demo_us.
Proof. apply uthread_map_unmap_keep_lists; [apply demo_us_wf|lia|lia]. Defined.

Lemma demo_sec_bounds : sec_bounds demo_ut 8192 12.
Proof. unfold sec_bounds. split_and!; [constructor|by vm_compute..]. Qed.

Lemma uthread_find_va_space_sec_first_fit_witness :
  uthread_find_va_space_sec demo_ut 8192 (2 ^ 12) = 65536 /\ sec_fits demo_ut 8192 (2 ^ 12) 65536.
Proof.
  split; [by vm_compute|].
  apply (proj1 (uthread_find_va_space_sec_first_fit demo_ut 8192 12 ltac:(done) demo_sec_bounds)). by vm_compute.
Defined.


Lemma uthread_map_failure_leaves_range_witness :
  exists s' ut', uthread_map 1 131072 [100] 4096 (Z.lor UTM_FIXED UTM_PHYS_CONTIG) 4096 demo_us = Ret (ERR_INVALID_ARGS, 131072) s' /\
    us_threads s' !! 1 = Some ut' /\ ut_page_table ut' = None /\ uthread_is_valid_range 1 131072 4096 s' = Ret true s'.
Proof.
  apply (uthread_map_failure_leaves_range 1 demo_ut 131072 100 4096 (Z.lor UTM_FIXED UTM_PHYS_CONTIG) 4096 4096 (replicate 7 (Some 4096)));
    by vm_compute.
Defined.

(** A thread with one page mapped at 0x20000. *)
Definition demo_mp : umap := UMap 131072 4096 (Z.lor UTM_W UTM_PHYS_CONTIG) 4096 [65536].
Definition demo_ut2 : uthread :=
  Uthread 65536 32768 0 [demo_mp] MAX_USR_VA 1 (Some {[ 0 := L2Table 1 {[ 32 := page_entry demo_mp 0 ]} ]}) true 1 0.

Lemma demo_ut2_ok : ut_ok demo_ut2.
Proof.
  split; [by vm_compute|repeat constructor; by vm_compute|].
  intros va Hva. cbn [ut_map_list demo_ut2]. rewrite Exists_cons, Exists_nil. unfold translate, in_map. cbn [ut_page_table demo_ut2 mbind option_bind].
  assert (l1_index va = 0 -> l2_index va = 32 -> va = 131072) as Hidx.
  { intros E1 E2. apply page_index_inj; [done|by vm_compute|by rewrite E1|by rewrite E2]. }
  split.
  - intros [e He]. left. destruct (decide (l1_index va = 0)) as [E1|E1].
    + rewrite E1, lookup_singleton_eq in He. cbn in He. apply lookup_singleton_Some in He as [E2 _].
      rewrite Hidx by done. by vm_compute.
    + by rewrite lookup_singleton_ne in He.
  - intros [Hin|[]]. cbn in Hin. destruct Hva as [_ Hm]. unfold PAGE in Hm. apply Z.mod_divide in Hm as [q ->]; [|lia].
    assert (q = 32) as -> by lia. vm_compute. by eexists.
Qed.

Lemma uthread_unmap_spec_witness :
  wp (uthread_unmap 1 131072 4096) (fun err s' => err = NO_ERROR /\ exists ut', us_threads s' !! 1 = Some ut' /\
    ut_map_list ut' = [] /\ ut_ok ut' /\
    (forall vb, upage vb -> translate ut' vb = if decide (in_map vb demo_mp) then None else translate demo_ut2 vb))
    (UState {[ 1 := demo_ut2 ]} [1] 1 []).
Proof.
  apply (uthread_unmap_spec 1 demo_ut2 131072 4096 0 demo_mp); [by vm_compute|apply demo_ut2_ok| |lia|by vm_compute].
  intros i j x y Hi Hj Hlt. apply lookup_lt_Some in Hi, Hj. cbn in Hi, Hj. lia.
Defined.
