(* ===== verification/App.v ===== *)
(** * Trusted apps (lib/trusty/trusty_app.c) and the calls on memory and
      descriptors (lib/trusty/syscall.c)

    The kernel image ends with the ELF files of the apps.  At start-up the loader
    walks over them, reads the manifest of each app (its uuid, followed by
    options), creates a user thread, maps the segments and a heap and calls the
    start-up notifiers.  The image is kernel memory, bytes by address; the user
    threads are those of [Uthread]. *)

From stdpp Require Import base tactics list gmap.
From Stdlib Require Import ZArith Lia.
From S2P Require Import Prelude Uthread.

(** ** Constants *)

Definition TRUSTY_APP_CONFIG_KEY_MIN_STACK_SIZE : Z := 1.
Definition TRUSTY_APP_CONFIG_KEY_MIN_HEAP_SIZE : Z := 2.
Definition TRUSTY_APP_CONFIG_KEY_MAP_MEM : Z := 3.

Definition MAX_TRUSTY_APP_COUNT : Z := 4096 / 64.
Definition TRUSTY_APP_START_ADDR : Z := 32768.
Definition TRUSTY_APP_STACK_TOP : Z := 2 ^ 24.
Definition DEFAULT_STACK_SIZE : Z := 4096.
Definition sizeof_uuid : Z := 16.

Definition PT_LOAD : Z := 1.
Definition PF_R : Z := 4.
Definition PF_W : Z := 2.
Definition PF_X : Z := 1.
Definition SHT_NULL : Z := 0.
Definition SHT_NOBITS : Z := 8.
Definition ELFMAG : list Z := [127; 69; 76; 70].
Definition UTM_X : Z := 4.

Definition PF_TO_UTM_FLAGS (x : Z) : Z :=
  Z.lor (Z.lor (if has_flag x PF_R then UTM_R else 0) (if has_flag x PF_W then UTM_W else 0)) (if has_flag x PF_X then UTM_X else 0).

(** ** State *)

Record trusty_app_props := Props {
  p_uuid : list Z;
  p_min_stack_size : Z;
  p_min_heap_size : Z;
  p_map_io_mem_cnt : Z;
  p_config_entry_cnt : Z;
  p_config_blob : Z;
}.

(** [ta_ut]: the id of the thread; [ta_als]: app local storage. *)
Record trusty_app := TApp {
  ta_end_bss : Z;
  ta_start_brk : Z;
  ta_cur_brk : Z;
  ta_end_brk : Z;
  ta_props : trusty_app_props;
  ta_app_img : Z;
  ta_ut : option Z;
  ta_als : option (list Z);
}.

Definition zero_app : trusty_app := TApp 0 0 0 0 (Props (replicate 16 0) 0 0 0 0 0) 0 None None.

Definition set_end_bss (v : Z) (a : trusty_app) : trusty_app := TApp v (ta_start_brk a) (ta_cur_brk a) (ta_end_brk a) (ta_props a) (ta_app_img a) (ta_ut a) (ta_als a).
Definition set_brk (start cur fin : Z) (a : trusty_app) : trusty_app := TApp (ta_end_bss a) start cur fin (ta_props a) (ta_app_img a) (ta_ut a) (ta_als a).
Definition set_props (p : trusty_app_props) (a : trusty_app) : trusty_app := TApp (ta_end_bss a) (ta_start_brk a) (ta_cur_brk a) (ta_end_brk a) p (ta_app_img a) (ta_ut a) (ta_als a).
Definition set_app_img (v : Z) (a : trusty_app) : trusty_app := TApp (ta_end_bss a) (ta_start_brk a) (ta_cur_brk a) (ta_end_brk a) (ta_props a) v (ta_ut a) (ta_als a).
Definition set_app_ut (v : option Z) (a : trusty_app) : trusty_app := TApp (ta_end_bss a) (ta_start_brk a) (ta_cur_brk a) (ta_end_brk a) (ta_props a) (ta_app_img a) v (ta_als a).
Definition set_app_als (v : option (list Z)) (a : trusty_app) : trusty_app := TApp (ta_end_bss a) (ta_start_brk a) (ta_cur_brk a) (ta_end_brk a) (ta_props a) (ta_app_img a) (ta_ut a) v.

Definition set_min_stack (v : Z) (p : trusty_app_props) : trusty_app_props := Props (p_uuid p) v (p_min_heap_size p) (p_map_io_mem_cnt p) (p_config_entry_cnt p) (p_config_blob p).
Definition set_min_heap (v : Z) (p : trusty_app_props) : trusty_app_props := Props (p_uuid p) (p_min_stack_size p) v (p_map_io_mem_cnt p) (p_config_entry_cnt p) (p_config_blob p).
Definition set_io_mem_cnt (v : Z) (p : trusty_app_props) : trusty_app_props := Props (p_uuid p) (p_min_stack_size p) (p_min_heap_size p) v (p_config_entry_cnt p) (p_config_blob p).
Definition set_uuid (v : list Z) (p : trusty_app_props) : trusty_app_props := Props v (p_min_stack_size p) (p_min_heap_size p) (p_map_io_mem_cnt p) (p_config_entry_cnt p) (p_config_blob p).
Definition set_entry_cnt (v : Z) (p : trusty_app_props) : trusty_app_props := Props (p_uuid p) (p_min_stack_size p) (p_min_heap_size p) (p_map_io_mem_cnt p) v (p_config_blob p).
Definition set_config_blob (v : Z) (p : trusty_app_props) : trusty_app_props := Props (p_uuid p) (p_min_stack_size p) (p_min_heap_size p) (p_map_io_mem_cnt p) (p_config_entry_cnt p) v.

(** The globals of trusty_app.c, the kernel's memory and the user threads.
    [l_apps]: the page of app structures; [l_notifiers]: the start-up hook of each
    registered notifier, if it has one. *)
Record lstate := LState {
  l_us : ustate;
  l_mem : mem;
  l_apps : list trusty_app;
  l_app_count : Z;
  l_image_end : Z;
  l_image_size : Z;
  l_apps_started : bool;
  l_notifiers : list (option Z);
  l_als_slot_cnt : Z;
}.

Definition l_set_us (v : ustate) (s : lstate) : lstate := LState v (l_mem s) (l_apps s) (l_app_count s) (l_image_end s) (l_image_size s) (l_apps_started s) (l_notifiers s) (l_als_slot_cnt s).
Definition l_set_mem (v : mem) (s : lstate) : lstate := LState (l_us s) v (l_apps s) (l_app_count s) (l_image_end s) (l_image_size s) (l_apps_started s) (l_notifiers s) (l_als_slot_cnt s).
Definition l_set_apps (v : list trusty_app) (s : lstate) : lstate := LState (l_us s) (l_mem s) v (l_app_count s) (l_image_end s) (l_image_size s) (l_apps_started s) (l_notifiers s) (l_als_slot_cnt s).
Definition l_set_count (v : Z) (s : lstate) : lstate := LState (l_us s) (l_mem s) (l_apps s) v (l_image_end s) (l_image_size s) (l_apps_started s) (l_notifiers s) (l_als_slot_cnt s).
Definition l_set_image (fin size : Z) (s : lstate) : lstate := LState (l_us s) (l_mem s) (l_apps s) (l_app_count s) fin size (l_apps_started s) (l_notifiers s) (l_als_slot_cnt s).
Definition l_set_registry (started : bool) (ns : list (option Z)) (cnt : Z) (s : lstate) : lstate := LState (l_us s) (l_mem s) (l_apps s) (l_app_count s) (l_image_end s) (l_image_size s) started ns cnt.

Abbreviation L := (M lstate).

Definition on_u {A} (m : U A) : L A := fun s =>
  match m (l_us s) with
  | Ret a u => Ret a (l_set_us u s)
  | Fault f => Fault f
  end.

Definition get_app (i : nat) : L trusty_app := s ← get; deref BadPointer (l_apps s !! i).
Definition upd_app (i : nat) (f : trusty_app -> trusty_app) : L unit :=
  a ← get_app i; modify (fun s => l_set_apps (<[i := f a]> (l_apps s)) s).
Definition upd_props (i : nat) (f : trusty_app_props -> trusty_app_props) : L unit :=
  upd_app i (fun a => set_props (f (ta_props a)) a).

(** Kernel memory. *)
Definition rd (n : nat) (a : Z) : L (list Z) := s ← get; deref BadPointer (mem_read (l_mem s) (u32 a) n).
Definition rd32 (a : Z) : L Z := bs ← rd 4 a; mret (le_val bs).
Definition rd16 (a : Z) : L Z := bs ← rd 2 a; mret (le_val bs).
Definition wr (a : Z) (bs : list Z) : L unit :=
  s ← get;
  match mem_write (l_mem s) (u32 a) bs with
  | (true, m) => modify (l_set_mem m)
  | (false, _) => raise BadPointer
  end.

(** ** The registries *)

Definition finalize_registration : L unit := modify (fun s => l_set_registry true (l_notifiers s) (l_als_slot_cnt s) s).

Definition trusty_register_app_notifier (startup : option Z) : L Z :=
  s ← get;
  if l_apps_started s then mret ERR_ALREADY_STARTED
  else modify (l_set_registry false (l_notifiers s ++ [startup]) (l_als_slot_cnt s));; mret NO_ERROR.

Definition trusty_als_alloc_slot : L Z :=
  s ← get;
  if l_apps_started s then mret ERR_ALREADY_STARTED
  else
    let c := u32 (l_als_slot_cnt s + 1) in
    modify (l_set_registry false (l_notifiers s) c);; mret (s32 c).

Definition trusty_als_get (i : nat) (slot_id : Z) : L Z :=
  let slot := u32 (slot_id - 1) in
  s ← get;
  assert_ (slot <? l_als_slot_cnt s);;
  a ← get_app i;
  als ← deref NullDeref (ta_als a);
  deref BadPointer (als !! Z.to_nat slot).

Definition trusty_als_set (i : nat) (slot_id ptr : Z) : L unit :=
  let slot := u32 (slot_id - 1) in
  s ← get;
  assert_ (slot <? l_als_slot_cnt s);;
  a ← get_app i;
  als ← deref NullDeref (ta_als a);
  _ ← deref BadPointer (als !! Z.to_nat slot);
  upd_app i (set_app_als (Some (<[Z.to_nat slot := ptr]> als))).

(** ** The manifest *)

(** The loop over the options from entry [i] on. *)
Fixpoint config_loop (fuel : nat) (idx : nat) (blob cnt i : Z) : L unit :=
  match fuel with
  | O => raise OutOfFuel
  | S fuel' =>
      if negb (i <? cnt) then mret tt
      else
        key ← rd32 (blob + 4 * i);
        if key =? TRUSTY_APP_CONFIG_KEY_MIN_STACK_SIZE then
          assert_ (cnt - i >? 1);;
          v ← rd32 (blob + 4 * (i + 1));
          let sz := ROUNDUP v 4096 in
          upd_props idx (set_min_stack sz);;
          assert_ (sz >? 0);;
          config_loop fuel' idx blob cnt (i + 2)
        else if key =? TRUSTY_APP_CONFIG_KEY_MIN_HEAP_SIZE then
          assert_ (cnt - i >? 1);;
          v ← rd32 (blob + 4 * (i + 1));
          let sz := ROUNDUP v 4096 in
          upd_props idx (set_min_heap sz);;
          assert_ (sz >? 0);;
          config_loop fuel' idx blob cnt (i + 2)
        else if key =? TRUSTY_APP_CONFIG_KEY_MAP_MEM then
          assert_ (cnt - i >? 3);;
          upd_props idx (fun p => set_io_mem_cnt (u32 (p_map_io_mem_cnt p + 1)) p);;
          config_loop fuel' idx blob cnt (i + 4)
        else raise AssertFailed
  end.

(** [shdr]: the address of the section header of the manifest.  The loop takes at
    most one turn per entry. *)
Definition load_app_config_options (image_addr : Z) (idx : nat) (shdr : Z) : L unit :=
  sh_size ← rd32 (shdr + 20);
  assert_ (sh_size >=? sizeof_uuid);;
  upd_props idx (fun p => set_min_stack DEFAULT_STACK_SIZE (set_min_heap (4 * 4096) p));;
  sh_offset ← rd32 (shdr + 16);
  let manifest_data := image_addr + sh_offset in
  uuid ← rd 16 manifest_data;
  upd_props idx (set_uuid uuid);;
  let config_blob := u32 (manifest_data + sizeof_uuid) in
  let cnt := (sh_size - sizeof_uuid) / 4 in
  upd_props idx (set_entry_cnt cnt);;
  if cnt =? 0 then mret tt
  else
    upd_props idx (set_config_blob config_blob);;
    config_loop (S (Z.to_nat cnt)) idx config_blob cnt 0.

(** [trusty_app_setup_mmio]: status and the address mapped. *)
Fixpoint mmio_loop (fuel : nat) (t blob cnt mmio_id vaddr i : Z) : L (Z * Z) :=
  match fuel with
  | O => raise OutOfFuel
  | S fuel' =>
      if negb (i <? cnt) then mret (ERR_NOT_FOUND, vaddr)
      else
        key ← rd32 (blob + 4 * i);
        if key =? TRUSTY_APP_CONFIG_KEY_MAP_MEM then
          id ← rd32 (blob + 4 * (i + 1));
          offset ← rd32 (blob + 4 * (i + 2));
          v ← rd32 (blob + 4 * (i + 3));
          let size := ROUNDUP v 4096 in
          if negb (id =? mmio_id) then mmio_loop fuel' t blob cnt mmio_id vaddr (i + 4)
          else on_u (uthread_map_contig t vaddr offset size (Z.lor (Z.lor UTM_W UTM_R) UTM_IO) UT_MAP_ALIGN_4KB)
        else mmio_loop fuel' t blob cnt mmio_id vaddr (i + 2)
  end.

Definition trusty_app_setup_mmio (idx : nat) (mmio_id vaddr : Z) : L (Z * Z) :=
  a ← get_app idx;
  t ← deref NullDeref (ta_ut a);
  let cnt := p_config_entry_cnt (ta_props a) in
  mmio_loop (S (Z.to_nat cnt)) t (p_config_blob (ta_props a)) cnt mmio_id vaddr 0.

Section loader.
(** Physical address of a kernel virtual one (the platform's memory map). *)
Variable kvaddr_to_paddr : Z -> Z.
(** The start-up hooks of other parts of the kernel. *)
Variable startup : Z -> nat -> L Z.

(** ** Address space of an app *)

Definition init_brk (idx : nat) : L Z :=
  upd_app idx (fun a => set_brk (ta_start_brk a) (ta_start_brk a) (ta_end_brk a) a);;
  a ← get_app idx;
  let min_heap := p_min_heap_size (ta_props a) in
  if u32 (ta_end_brk a - ta_start_brk a) >=? min_heap then mret NO_ERROR
  else
    heap ← on_u umalloc;
    match heap with
    | None => mret ERR_NO_MEMORY
    | Some heap =>
        (* the heap is cleared: its bytes are not modelled *)
        t ← deref NullDeref (ta_ut a);
        '(status, vaddr) ← on_u (uthread_map_contig t (ta_end_brk a) (kvaddr_to_paddr heap) min_heap
                                   (Z.lor (Z.lor UTM_W UTM_R) UTM_FIXED) UT_MAP_ALIGN_4KB);
        if negb (status =? NO_ERROR) || negb (vaddr =? ta_end_brk a) then mret ERR_NO_MEMORY
        else
          upd_app idx (fun a => set_brk (ta_start_brk a) (ta_cur_brk a) (u32 (ta_end_brk a + min_heap)) a);;
          mret NO_ERROR
    end.

(** One turn of the loop of [alloc_address_map]: [None] goes on to the next program
    header, [Some ret] returns.  The ends of code and data are only printed. *)
Definition map_segment (idx : nat) (img prg_hdr : Z) : L (option Z) :=
  p_type ← rd32 prg_hdr;
  if negb (p_type =? PT_LOAD) then mret None
  else
    p_offset ← rd32 (prg_hdr + 4);
    p_vaddr ← rd32 (prg_hdr + 8);
    p_memsz ← rd32 (prg_hdr + 20);
    p_flags ← rd32 (prg_hdr + 24);
    a ← get_app idx;
    if (p_vaddr <? TRUSTY_APP_START_ADDR) || (p_vaddr >=? ta_end_bss a) then mret None
    else
      assert_ ((Z.land p_vaddr (PAGE - 1) =? 0) && (Z.land p_offset (PAGE - 1) =? 0));;
      let size := ROUNDUP p_memsz PAGE in
      t ← deref NullDeref (ta_ut a);
      '(ret, vaddr) ← on_u (uthread_map_contig t p_vaddr (kvaddr_to_paddr (u32 (img + p_offset))) size
                              (Z.lor (PF_TO_UTM_FLAGS p_flags) UTM_FIXED) UT_MAP_ALIGN_4KB);
      if negb (ret =? 0) then mret (Some ret)
      else
        let stack_bot := u32 (TRUSTY_APP_STACK_TOP - p_min_stack_size (ta_props a)) in
        if stack_bot <? u32 (vaddr + size) then mret (Some ERR_TOO_BIG)
        else
          let last_mem := u32 (p_vaddr + p_memsz) in
          if last_mem >? ta_start_brk a then
            upd_app idx (fun a => set_brk last_mem (ta_cur_brk a) (u32 (p_vaddr + size)) a);;
            wr (img + p_offset + p_memsz) (replicate (Z.to_nat (u32 (size - p_memsz))) 0);;
            mret None
          else mret None.

Fixpoint segment_loop (n : nat) (idx : nat) (img phdr : Z) : L (option Z) :=
  match n with
  | O => mret None
  | S n' =>
      r ← map_segment idx img phdr;
      match r with
      | Some ret => mret (Some ret)
      | None => segment_loop n' idx img (phdr + 32)
      end
  end.

Definition alloc_address_map (idx : nat) : L Z :=
  a ← get_app idx;
  let img := ta_app_img a in
  e_phoff ← rd32 (img + 28);
  e_phnum ← rd16 (img + 44);
  r ← segment_loop (Z.to_nat e_phnum) idx img (img + e_phoff);
  match r with
  | Some ret => mret ret
  | None => init_brk idx
  end.

(** ** The images *)

(** [strcmp] of the string at [a] with a literal: equal or not. *)
Fixpoint str_eq_from (a : Z) (lit : list Z) : L bool :=
  match lit with
  | [] => bs ← rd 1 a; mret (bool_decide (bs = [0]))
  | c :: lit' => bs ← rd 1 a; if bool_decide (bs = [c]) then str_eq_from (a + 1) lit' else mret false
  end.

Definition dot_bss : list Z := [46; 98; 115; 115].
Definition dot_bss_pad : list Z := dot_bss ++ [45; 112; 97; 100].
Definition dot_manifest : list Z :=
  [46; 116; 114; 117; 115; 116; 121; 95; 97; 112; 112; 46; 109; 97; 110; 105; 102; 101; 115; 116].

(** What the loop over the section headers collects. *)
Record sections := Sections { sc_bss : option Z; sc_bss_pad : option Z; sc_manifest : option Z; sc_max_extent : Z }.

Definition scan_section (idx : nat) (shstbl hdr : Z) (sc : sections) : L sections :=
  sh_type ← rd32 (hdr + 4);
  if sh_type =? SHT_NULL then mret sc
  else
    sh_name ← rd32 hdr;
    sh_addr ← rd32 (hdr + 12);
    sh_offset ← rd32 (hdr + 16);
    sh_size ← rd32 (hdr + 20);
    bss ← str_eq_from (shstbl + sh_name) dot_bss;
    sc ← (if bss : bool then
            upd_app idx (set_end_bss (u32 (sh_addr + sh_size)));;
            mret (Sections (Some hdr) (sc_bss_pad sc) (sc_manifest sc) (sc_max_extent sc))
          else
            pad ← str_eq_from (shstbl + sh_name) dot_bss_pad;
            if pad : bool then mret (Sections (sc_bss sc) (Some hdr) (sc_manifest sc) (sc_max_extent sc))
            else
              man ← str_eq_from (shstbl + sh_name) dot_manifest;
              mret (if man : bool then Sections (sc_bss sc) (sc_bss_pad sc) (Some hdr) (sc_max_extent sc) else sc));
    if sh_type =? SHT_NOBITS then mret sc
    else
      let extent := u32 (sh_offset + sh_size) in
      mret (if sc_max_extent sc <? extent then Sections (sc_bss sc) (sc_bss_pad sc) (sc_manifest sc) extent else sc).

Fixpoint section_loop (n : nat) (idx : nat) (shstbl hdr : Z) (sc : sections) : L sections :=
  match n with
  | O => mret sc
  | S n' => sc ← scan_section idx shstbl hdr sc; section_loop n' idx shstbl (hdr + 40) sc
  end.

(** The start of the next app.  The rest of the image is moved down; the copy goes
    upwards, so that an overlap does no harm. *)
Definition align_next_app (elf_hdr : Z) (pad_hdr : option Z) (max_extent : Z) : L Z :=
  e_shoff ← rd32 (elf_hdr + 32);
  assert_ (ROUNDUP max_extent 4 =? e_shoff);;
  pad_hdr ← deref AssertFailed pad_hdr;
  e_shentsize ← rd16 (elf_hdr + 46);
  e_shnum ← rd16 (elf_hdr + 48);
  let max_extent := u32 (e_shoff + e_shnum * e_shentsize - 1) in
  s ← get;
  assert_ (u32 (elf_hdr + max_extent + 1) <=? l_image_end s);;
  pad_offset ← rd32 (pad_hdr + 16);
  pad_size ← rd32 (pad_hdr + 20);
  let align_start := u32 (elf_hdr + pad_offset + pad_size) in
  let fsize_start := u32 (elf_hdr + max_extent + 1) in
  assert_ (align_start <=? fsize_start);;
  let copy_size := u32 (l_image_end s - fsize_start) in
  (if negb (copy_size =? 0) then
     bs ← rd (Z.to_nat copy_size) fsize_start;
     wr align_start bs;;
     modify (fun s => l_set_image (u32 (l_image_end s - (fsize_start - align_start))) (l_image_size s) s)
   else mret tt : L unit);;
  modify (fun s => l_set_image (l_image_end s) (u32 (l_image_size s - (max_extent + 1))) s);;
  mret align_start.

(** One turn: the address of the next app, [None] when no header is found. *)
Definition load_one (image_addr : Z) : L (option Z) :=
  s ← get;
  let idx := Z.to_nat (l_app_count s) in
  ident ← rd 4 image_addr;
  if negb (bool_decide (ident = ELFMAG)) then mret None
  else
    e_shoff ← rd32 (image_addr + 32);
    e_shnum ← rd16 (image_addr + 48);
    e_shstrndx ← rd16 (image_addr + 50);
    let shdr := image_addr + e_shoff in
    stroff ← rd32 (shdr + 40 * e_shstrndx + 16);
    sc ← section_loop (Z.to_nat e_shnum) idx (image_addr + stroff) shdr (Sections None None None 0);
    assert_ (bool_decide (is_Some (sc_bss sc)) && bool_decide (is_Some (sc_bss_pad sc)));;
    manifest ← deref AssertFailed (sc_manifest sc);
    load_app_config_options image_addr idx manifest;;
    upd_app idx (set_app_img image_addr);;
    next ← align_next_app image_addr (sc_bss_pad sc) (sc_max_extent sc);
    assert_ (l_app_count s + 1 <? MAX_TRUSTY_APP_COUNT);;
    modify (l_set_count (l_app_count s + 1));;
    mret (Some next).

Fixpoint bootloader_loop (fuel : nat) (image_addr : Z) : L unit :=
  match fuel with
  | O => raise OutOfFuel
  | S fuel' =>
      s ← get;
      if negb (l_image_size s >? 0) then mret tt
      else
        next ← load_one image_addr;
        match next with
        | None => mret tt
        | Some next => bootloader_loop fuel' next
        end
  end.

Definition trusty_app_bootloader (fuel : nat) (image_start : Z) : L unit :=
  s ← get;
  when (negb (l_image_size s =? 0))
    (page ← on_u umalloc;
     match page with
     | None => raise NullDeref
     | Some _ => modify (l_set_apps (replicate (Z.to_nat MAX_TRUSTY_APP_COUNT) zero_app))
     end);;
  bootloader_loop fuel image_start.

(** ** Start-up *)

Definition call_notifier (idx : nat) (n : option Z) : L unit :=
  match n with
  | None => mret tt
  | Some f => ret ← startup f idx; if negb (ret =? NO_ERROR) then raise Panicked else mret tt
  end.

Definition init_app (idx : nat) : L unit :=
  a ← get_app idx;
  e_entry ← rd32 (ta_app_img a + 24);
  uthread ← on_u (uthread_create kvaddr_to_paddr e_entry TRUSTY_APP_STACK_TOP (p_min_stack_size (ta_props a)) (Z.of_nat idx));
  match uthread with
  | None => raise Panicked
  | Some t =>
      upd_app idx (set_app_ut (Some t));;
      ret ← alloc_address_map idx;
      if negb (ret =? NO_ERROR) then raise Panicked
      else
        als ← on_u umalloc;
        match als with
        | None => raise Panicked
        | Some _ =>
            s ← get;
            upd_app idx (set_app_als (Some (replicate (Z.to_nat (l_als_slot_cnt s)) 0)));;
            mfor (call_notifier idx) (l_notifiers s)
        end
  end.

(** [image_start], [image_end]: the symbols of the linker script. *)
Definition trusty_app_init (fuel : nat) (image_start image_end : Z) : L unit :=
  modify (l_set_image image_end (u32 (image_end - image_start)));;
  assert_ (Z.land image_start (PAGE - 1) =? 0);;
  finalize_registration;;
  trusty_app_bootloader fuel image_start;;
  s ← get;
  mfor init_app (seq 0 (Z.to_nat (l_app_count s))).

Definition start_app (idx : nat) : L unit :=
  a ← get_app idx;
  t ← deref NullDeref (ta_ut a);
  ut ← on_u (get_ut t);
  if ut_entry ut =? 0 then mret tt
  else ret ← on_u (uthread_start (Some t)); if negb (ret =? 0) then raise Panicked else mret tt.

Definition start_apps : L unit := s ← get; mfor start_app (seq 0 (Z.to_nat (l_app_count s))).
End loader.

(** The index of the app with a uuid. *)
Definition trusty_app_find_by_uuid (uuid : list Z) (s : lstate) : option nat :=
  fst <$> list_find (fun a => p_uuid (ta_props a) = uuid) (take (Z.to_nat (l_app_count s)) (l_apps s)).

Definition trusty_app_forall (fn : option (nat -> L unit)) : L unit :=
  match fn with
  | None => mret tt
  | Some fn => s ← get; mfor fn (seq 0 (Z.to_nat (l_app_count s)))
  end.

(** ** System calls (syscall.c) *)

(** [struct sys_fd_ops]: handlers by name, [None] for NULL. *)
Record sys_fd_ops := FdOps { fd_read : option Z; fd_write : option Z; fd_ioctl : option Z }.

Definition MAX_SYS_FD_HADLERS : Z := 10.

(** [sys_std_write] *)
Definition std_write : Z := 1.
Definition sys_std_fd_op : sys_fd_ops := FdOps None (Some std_write) None.

Definition sys_fds : list (option sys_fd_ops) :=
  [None; Some sys_std_fd_op; Some sys_std_fd_op; None; None; None; None; None; None; None].

Definition install_sys_fd_handler (fd : Z) (ops : sys_fd_ops) (fds : list (option sys_fd_ops)) : Z * list (option sys_fd_ops) :=
  if fd >=? MAX_SYS_FD_HADLERS then (ERR_INVALID_ARGS, fds)
  else
    match fds !! Z.to_nat fd with
    | Some None => (NO_ERROR, <[Z.to_nat fd := Some ops]> fds)
    | _ => (ERR_ALREADY_EXISTS, fds)
    end.

Definition get_sys_fd_handler (fd : Z) (fds : list (option sys_fd_ops)) : option sys_fd_ops :=
  if fd >=? MAX_SYS_FD_HADLERS then None else fds !! Z.to_nat fd ≫= id.

Section calls.
(** The current thread and its app. *)
Variable t : Z.
Variable idx : nat.
(** Handlers other parts of the kernel install, and [dwrite]: whether to the error
    level, address and size. *)
Variable run_fd : Z -> Z -> Z -> Z -> L Z.
Variable dwrite : bool -> Z -> Z -> L unit.

Definition valid_address (addr size : Z) : L bool := on_u (uthread_is_valid_range t addr size).

Definition sys_std_write (fd user_ptr size : Z) : L Z :=
  ok ← valid_address user_ptr size;
  if negb ok then mret ERR_INVALID_ARGS
  else dwrite (fd =? 2) user_ptr size;; mret (s32 size).

Definition call_fd (h fd x y : Z) : L Z := if h =? std_write then sys_std_write fd x y else run_fd h fd x y.

Definition sys_fd_call (sel : sys_fd_ops -> option Z) (fds : list (option sys_fd_ops)) (fd x y : Z) : L Z :=
  match get_sys_fd_handler fd fds with
  | Some ops =>
      match sel ops with
      | Some h => call_fd h fd x y
      | None => mret ERR_NOT_SUPPORTED
      end
  | None => mret ERR_NOT_SUPPORTED
  end.

Definition sys_write := sys_fd_call fd_write.
Definition sys_read := sys_fd_call fd_read.
Definition sys_ioctl := sys_fd_call fd_ioctl.

Definition sys_brk (brk : Z) : L Z :=
  a ← get_app idx;
  when ((brk >=? ta_start_brk a) && (brk <=? ta_end_brk a))
    (upd_app idx (fun a => set_brk (ta_start_brk a) brk (ta_end_brk a) a));;
  a ← get_app idx;
  mret (ta_cur_brk a).

(** The thread is gone afterwards. *)
Definition sys_exit_group : L unit := on_u (uthread_exit t).
End calls.

Definition DIV_ROUND_UP (n d : Z) : Z := u64 (n + d - 1) / d.

(** [sys_nanosleep]: the milliseconds given to [thread_sleep]. *)
Definition sys_nanosleep (sleep_time_l sleep_time_h : Z) : Z :=
  let sleep_time := u64 (sleep_time_l + Z.shiftl sleep_time_h 32) in
  u32 (DIV_ROUND_UP sleep_time (1000 * 1000)).

(** [sys_gettime] at [hires] microseconds: status and the app's memory. *)
Definition sys_gettime (hires : Z) (um : mem) (time : Z) : Z * mem :=
  copy_to_user um time (le_bytes 8 (u64 (hires * 1000))).

(** ** The options of a manifest *)

Inductive config_option :=
  | MinStackSize (v : Z)
  | MinHeapSize (v : Z)
  | MapMem (id offset size : Z).

Definition option_words (o : config_option) : list Z :=
  match o with
  | MinStackSize v => [TRUSTY_APP_CONFIG_KEY_MIN_STACK_SIZE; v]
  | MinHeapSize v => [TRUSTY_APP_CONFIG_KEY_MIN_HEAP_SIZE; v]
  | MapMem id offset size => [TRUSTY_APP_CONFIG_KEY_MAP_MEM; id; offset; size]
  end.
Definition config_words (os : list config_option) : list Z := os ≫= option_words.

(** Sizes are not 0 pages. *)
Definition option_ok (o : config_option) : Prop :=
  match o with MinStackSize v | MinHeapSize v => 0 < ROUNDUP v 4096 | MapMem _ _ _ => True end.

Definition apply_option (p : trusty_app_props) (o : config_option) : trusty_app_props :=
  match o with
  | MinStackSize v => set_min_stack (ROUNDUP v 4096) p
  | MinHeapSize v => set_min_heap (ROUNDUP v 4096) p
  | MapMem _ _ _ => set_io_mem_cnt (u32 (p_map_io_mem_cnt p + 1)) p
  end.

(** Memory with the words [ws] from [a] on. *)
Definition words_at (s : lstate) (a : Z) (ws : list Z) : Prop :=
  forall i w, ws !! i = Some w -> exists bs, mem_read (l_mem s) (u32 (a + 4 * Z.of_nat i)) 4 = Some bs /\ le_val bs = w.

Lemma rd32_run s a w : (exists bs, mem_read (l_mem s) (u32 a) 4 = Some bs /\ le_val bs = w) -> rd32 a s = Ret w s.
Proof. intros (bs & E & <-). unfold rd32, rd. unfold mbind, M_bind. cbn [get]. by rewrite E. Qed.

Lemma rd32_word s a ws i w : words_at s a ws -> 0 <= i -> ws !! Z.to_nat i = Some w -> rd32 (a + 4 * i) s = Ret w s.
Proof. intros Hw Hi Hl. apply rd32_run. destruct (Hw _ _ Hl) as (bs & H1 & H2). rewrite Z2Nat.id in H1 by done. eauto. Qed.

Lemma upd_props_run s idx a f : l_apps s !! idx = Some a ->
  upd_props idx f s = Ret tt (l_set_apps (<[idx := set_props (f (ta_props a)) a]> (l_apps s)) s).
Proof. intros Ha. unfold upd_props, upd_app, get_app, mbind, M_bind. cbn. by rewrite Ha. Qed.

(** The state with the properties of an app replaced. *)
Definition with_props (idx : nat) (a : trusty_app) (p : trusty_app_props) (s : lstate) : lstate :=
  l_set_apps (<[idx := set_props p a]> (l_apps s)) s.

Lemma with_props_lookup idx a p s : l_apps s !! idx = Some a -> l_apps (with_props idx a p s) !! idx = Some (set_props p a).
Proof. intros Ha. cbn. apply list_lookup_insert_eq. by eapply lookup_lt_Some. Qed.

Lemma with_props_twice idx a p q s : with_props idx (set_props p a) q (with_props idx a p s) = with_props idx a q s.
Proof. unfold with_props, l_set_apps. cbn. by rewrite list_insert_insert_eq. Qed.

Definition parses (rest : list Z) (os : list config_option) : Prop := rest = config_words os /\ Forall option_ok os.

Lemma parses_nil os : parses [] os -> os = [].
Proof. intros [H _]. destruct os as [|[] os]; [done|discriminate..]. Qed.

(** The two options with one value. *)
Definition size_key (b : bool) : Z := if b then TRUSTY_APP_CONFIG_KEY_MIN_STACK_SIZE else TRUSTY_APP_CONFIG_KEY_MIN_HEAP_SIZE.
Definition size_option (b : bool) (v : Z) : config_option := if b then MinStackSize v else MinHeapSize v.
Definition set_size (b : bool) (v : Z) : trusty_app_props -> trusty_app_props := if b then set_min_stack v else set_min_heap v.

Lemma parses_size b rest os : parses (size_key b :: rest) os <->
  exists v rest' os', rest = v :: rest' /\ os = size_option b v :: os' /\ 0 < ROUNDUP v 4096 /\ parses rest' os'.
Proof.
  split.
  - intros [H Hok]. destruct os as [|[v|v|id off sz] os]; destruct b; try discriminate; cbn in H; injection H as ->;
      apply Forall_cons in Hok as [? ?]; by eexists v, _, os.
  - intros (v & rest' & os' & -> & -> & Hv & [-> Hok]). split; [by destruct b|]. constructor; [by destruct b|done].
Qed.

Lemma parses_map rest os : parses (TRUSTY_APP_CONFIG_KEY_MAP_MEM :: rest) os <->
  exists id off sz rest' os', rest = id :: off :: sz :: rest' /\ os = MapMem id off sz :: os' /\ parses rest' os'.
Proof.
  split.
  - intros [H Hok]. destruct os as [|[v|v|id off sz] os]; try discriminate; cbn in H. injection H as ->.
    apply Forall_cons in Hok as [? ?]. by eexists id, off, sz, _, os.
  - intros (id & off & sz & rest' & os' & -> & -> & [-> Hok]). split; [done|]. by constructor.
Qed.

Lemma parses_key k rest os : parses (k :: rest) os -> k = size_key true \/ k = size_key false \/ k = TRUSTY_APP_CONFIG_KEY_MAP_MEM.
Proof. intros [H _]. destruct os as [|[] os]; [done|injection H as -> _..]; auto. Qed.

(** What the loop does with the options still to come. *)
Definition loop_result (idx : nat) (a : trusty_app) (rest : list Z) (s : lstate) (r : outcome lstate unit) : Prop :=
  match r with
  | Ret _ s' => exists os, parses rest os /\ s' = with_props idx a (foldl apply_option (ta_props a) os) s
  | Fault f => f = AssertFailed /\ forall os, ~ parses rest os
  end.

Lemma loop_result_size b idx a v rest s r : 0 < ROUNDUP v 4096 ->
  loop_result idx (set_props (set_size b (ROUNDUP v 4096) (ta_props a)) a) rest (with_props idx a (set_size b (ROUNDUP v 4096) (ta_props a)) s) r ->
  loop_result idx a (size_key b :: v :: rest) s r.
Proof.
  intros Hv. unfold loop_result. destruct r as [[] s'|f].
  - intros (os & Hp & ->). exists (size_option b v :: os). split; [by apply parses_size; eexists v, rest, os|]. rewrite with_props_twice. by destruct b.
  - intros [-> Hno]. split; [done|]. intros os (v' & rest' & os' & [= <- <-] & _ & _ & Hp)%parses_size. by eapply Hno.
Qed.

Lemma loop_result_map idx a id off sz rest s r :
  let p := set_io_mem_cnt (u32 (p_map_io_mem_cnt (ta_props a) + 1)) (ta_props a) in
  loop_result idx (set_props p a) rest (with_props idx a p s) r ->
  loop_result idx a (TRUSTY_APP_CONFIG_KEY_MAP_MEM :: id :: off :: sz :: rest) s r.
Proof.
  intros p. unfold loop_result. destruct r as [[] s'|f].
  - intros (os & Hp & ->). exists (MapMem id off sz :: os). split; [by apply parses_map; eexists id, off, sz, rest, os|]. by rewrite with_props_twice.
  - intros [-> Hno]. split; [done|]. intros os (? & ? & ? & rest' & os' & [= <- <- <- <-] & _ & Hp)%parses_map. by eapply Hno.
Qed.

Lemma drop_cons (ws : list Z) (i : Z) k rest : 0 <= i -> drop (Z.to_nat i) ws = k :: rest -> ws !! Z.to_nat i = Some k /\ drop (Z.to_nat (i + 1)) ws = rest.
Proof.
  intros Hi E. assert (ws !! Z.to_nat i = Some k) as Hk by (rewrite <- (Nat.add_0_r (Z.to_nat i)), <- lookup_drop, E; done). split; [done|].
  rewrite (drop_S _ _ _ Hk) in E. injection E as E. rewrite <- E. f_equal. lia.
Qed.

Lemma drop_nonempty (ws : list Z) (i : Z) : 0 <= i < Z.of_nat (length ws) -> exists k rest, drop (Z.to_nat i) ws = k :: rest.
Proof. intros Hi. destruct (drop (Z.to_nat i) ws) as [|k rest] eqn:E; [|eauto]. apply (f_equal length) in E. rewrite length_drop in E. cbn in E. lia. Qed.

(** One option with a size. *)
Lemma config_size_step fuel b idx blob ws i s a rest :
  words_at s blob ws -> l_apps s !! idx = Some a -> 0 <= i < Z.of_nat (length ws) -> drop (Z.to_nat i) ws = size_key b :: rest ->
  (forall a' s' v rest', words_at s' blob ws -> l_apps s' !! idx = Some a' -> rest = v :: rest' -> drop (Z.to_nat (i + 2)) ws = rest' ->
     loop_result idx a' rest' s' (config_loop fuel idx blob (Z.of_nat (length ws)) (i + 2) s')) ->
  loop_result idx a (size_key b :: rest) s
    ((assert_ (Z.of_nat (length ws) - i >? 1);; v ← rd32 (blob + 4 * (i + 1)); upd_props idx (set_size b (ROUNDUP v 4096));; assert_ (ROUNDUP v 4096 >? 0);;
      config_loop fuel idx blob (Z.of_nat (length ws)) (i + 2)) s).
Proof.
  intros Hw Ha Hi Hd HL. destruct (drop_cons ws i _ rest ltac:(lia) Hd) as [_ Hd1]. unfold assert_ at 1. destruct (Z.gtb_spec (Z.of_nat (length ws) - i) 1) as [H1|H1].
  2:{ split; [done|]. intros os (v & rest' & os' & -> & _)%parses_size. apply (f_equal length) in Hd1. rewrite length_drop in Hd1. cbn in Hd1. lia. }
  erewrite run_bind by reflexivity. destruct (drop_nonempty ws (i + 1)) as (v & rest' & Ev); [lia|]. rewrite Ev in Hd1. subst rest.
  destruct (drop_cons ws (i + 1) v rest' ltac:(lia) Ev) as [Hv Hd2]. rewrite (run_bind _ _ _ _ _ (rd32_word s blob ws (i + 1) v Hw ltac:(lia) Hv)).
  rewrite (run_bind _ _ _ _ _ (upd_props_run s idx a _ Ha)). unfold assert_. destruct (Z.gtb_spec (ROUNDUP v 4096) 0) as [Hp|Hp].
  2:{ split; [done|]. intros os (v' & ? & ? & [= <- <-] & _ & H' & _)%parses_size. lia. }
  erewrite run_bind by reflexivity. apply loop_result_size; [done|]. apply (HL _ _ v); [done|by apply with_props_lookup|done|]. by replace (i + 1 + 1) with (i + 2) in Hd2 by lia.
Qed.

(** The loop accepts a well-formed list of options, and nothing else. *)
Lemma config_loop_spec fuel idx blob ws i s a :
  words_at s blob ws -> l_apps s !! idx = Some a -> 0 <= i <= Z.of_nat (length ws) -> Z.of_nat (length ws) - i < Z.of_nat fuel ->
  loop_result idx a (drop (Z.to_nat i) ws) s (config_loop fuel idx blob (Z.of_nat (length ws)) i s).
Proof.
  revert i s a. induction fuel as [|fuel IH]; intros i s a Hw Ha Hi Hf; [lia|].
  destruct (Z.ltb_spec i (Z.of_nat (length ws))) as [Hlt|Hge].
  2:{ cbn [config_loop]. destruct (Z.ltb_spec i (Z.of_nat (length ws))); [lia|]. exists []. rewrite drop_ge by lia. split; [done|]. cbn.
      unfold with_props, l_set_apps. assert (set_props (ta_props a) a = a) as -> by (by destruct a). rewrite list_insert_id by done. by destruct s. }
  destruct (drop_nonempty ws i ltac:(lia)) as (k & rest & Er). rewrite Er. destruct (drop_cons ws i k rest ltac:(lia) Er) as [Hk Hd1].
  cbn [config_loop]. destruct (Z.ltb_spec i (Z.of_nat (length ws))); [|lia]. cbn [negb].
  rewrite (run_bind _ _ _ _ _ (rd32_word s blob ws i k Hw ltac:(lia) Hk)).
  assert (forall a' s' v rest', words_at s' blob ws -> l_apps s' !! idx = Some a' -> rest = v :: rest' -> drop (Z.to_nat (i + 2)) ws = rest' ->
     loop_result idx a' rest' s' (config_loop fuel idx blob (Z.of_nat (length ws)) (i + 2) s')) as HL.
  { intros a' s' v rest' Hw' Ha' -> <-. apply IH; try done; [|lia]. split; [lia|]. apply (f_equal length) in Hd1. rewrite length_drop in Hd1. cbn in Hd1. lia. }
  destruct (Z.eqb_spec k TRUSTY_APP_CONFIG_KEY_MIN_STACK_SIZE) as [->|N1]; [by apply (config_size_step fuel true idx blob ws i s a rest); [..|lia|done|]|].
  destruct (Z.eqb_spec k TRUSTY_APP_CONFIG_KEY_MIN_HEAP_SIZE) as [->|N2]; [by apply (config_size_step fuel false idx blob ws i s a rest); [..|lia|done|]|].
  destruct (Z.eqb_spec k TRUSTY_APP_CONFIG_KEY_MAP_MEM) as [->|N3].
  2:{ split; [done|]. intros os Hp. apply parses_key in Hp. cbn in Hp. tauto. }
  unfold assert_. destruct (Z.gtb_spec (Z.of_nat (length ws) - i) 3) as [H3|H3].
  2:{ split; [done|]. intros os (id & off & sz & rest' & os' & -> & _)%parses_map. apply (f_equal length) in Hd1. rewrite length_drop in Hd1. cbn in Hd1. lia. }
  erewrite run_bind by reflexivity. rewrite (run_bind _ _ _ _ _ (upd_props_run s idx a _ Ha)).
  destruct (drop_nonempty ws (i + 1)) as (id & r1 & E1); [lia|]. destruct (drop_cons ws (i + 1) id r1 ltac:(lia) E1) as [_ E1'].
  destruct (drop_nonempty ws (i + 1 + 1)) as (off & r2 & E2); [lia|]. destruct (drop_cons ws (i + 1 + 1) off r2 ltac:(lia) E2) as [_ E2'].
  destruct (drop_nonempty ws (i + 1 + 1 + 1)) as (sz & r3 & E3); [lia|]. destruct (drop_cons ws (i + 1 + 1 + 1) sz r3 ltac:(lia) E3) as [_ E3'].
  rewrite E1 in Hd1. subst rest. rewrite <- E1', E2, <- E2', E3.
  apply loop_result_map. rewrite <- E3'. replace (i + 1 + 1 + 1 + 1) with (i + 4) by lia. apply IH; [done|by apply with_props_lookup|lia|lia].
Qed.

(** The section header at [shdr] describes a manifest of [uuid] and [ws]. *)
Record manifest_at (s : lstate) (image shdr : Z) (uuid ws : list Z) : Prop := {
  ma_size : exists sz, rd32 (shdr + 20) s = Ret sz s /\ 16 <= sz /\ (sz - 16) / 4 = Z.of_nat (length ws);
  ma_data : exists off, rd32 (shdr + 16) s = Ret off s /\ rd 16 (image + off) s = Ret uuid s /\ words_at s (u32 (image + off + 16)) ws;
}.

Definition manifest_blob (s : lstate) (image shdr : Z) : Z :=
  match rd32 (shdr + 16) s with Ret off _ => u32 (image + off + 16) | Fault _ => 0 end.

(** The properties of an app before its options are applied. *)
Definition base_props (uuid ws : list Z) (blob : Z) (p : trusty_app_props) : trusty_app_props :=
  Props uuid DEFAULT_STACK_SIZE (4 * 4096) (p_map_io_mem_cnt p) (Z.of_nat (length ws))
    (if bool_decide (ws = []) then p_config_blob p else blob).

Lemma rd_same (s s' : lstate) n a v : l_mem s' = l_mem s -> rd n a s = Ret v s -> rd n a s' = Ret v s'.
Proof. intros Em. unfold rd, mbind, M_bind, get. rewrite Em. destruct (mem_read (l_mem s) (u32 a) n) as [bs|]; cbn; [by intros [= ->]|discriminate]. Qed.

Lemma rd32_same (s s' : lstate) a v : l_mem s' = l_mem s -> rd32 a s = Ret v s -> rd32 a s' = Ret v s'.
Proof.
  intros Em H. unfold rd32, mbind, M_bind in *. destruct (rd 4 a s) as [bs s1|] eqn:E; [|done]. injection H as <- ->. by rewrite (rd_same _ _ _ _ _ Em E).
Qed.

Lemma load_config_spec image idx shdr s a uuid ws :
  manifest_at s image shdr uuid ws -> l_apps s !! idx = Some a ->
  let p := base_props uuid ws (manifest_blob s image shdr) (ta_props a) in
  match load_app_config_options image idx shdr s with
  | Ret _ s' => exists os, parses ws os /\ s' = with_props idx a (foldl apply_option p os) s
  | Fault f => f = AssertFailed /\ forall os, ~ parses ws os
  end.
Proof.
  intros [(sz & Esz & Hsz & Hcnt) (off & Eoff & Euuid & Hws)] Ha p. unfold load_app_config_options.
  rewrite (run_bind _ _ _ _ _ Esz). unfold assert_, sizeof_uuid. destruct (Z.geb_spec sz 16); [|lia]. erewrite run_bind by reflexivity.
  rewrite (run_bind _ _ _ _ _ (upd_props_run s idx a _ Ha)). set (p1 := set_min_stack _ _).
  change (l_set_apps _ s) with (with_props idx a p1 s). set (s1 := with_props idx a p1 s).
  rewrite (run_bind _ _ _ _ _ (rd32_same s s1 _ _ eq_refl Eoff)). rewrite (run_bind _ _ _ _ _ (rd_same s s1 _ _ _ eq_refl Euuid)).
  rewrite (run_bind _ _ _ _ _ (upd_props_run s1 idx _ _ (with_props_lookup idx a p1 s Ha))). change (l_set_apps _ s1) with (with_props idx (set_props p1 a) (set_uuid uuid p1) s1).
  unfold s1. rewrite with_props_twice. rewrite Hcnt. set (p2 := set_uuid uuid p1).
  rewrite (run_bind _ _ _ _ _ (upd_props_run _ idx _ _ (with_props_lookup idx a p2 s Ha))). change (l_set_apps _ (with_props idx a p2 s)) with (with_props idx (set_props p2 a) (set_entry_cnt (Z.of_nat (length ws)) p2) (with_props idx a p2 s)).
  rewrite with_props_twice. set (p3 := set_entry_cnt _ p2). set (blob := u32 (image + off + 16)).
  assert (manifest_blob s image shdr = blob) as Eb by (unfold manifest_blob; by rewrite Eoff).
  destruct (Z.eqb_spec (Z.of_nat (length ws)) 0) as [E0|E0].
  { destruct ws; [|cbn in E0; lia]. exists []. by split. }
  rewrite (run_bind _ _ _ _ _ (upd_props_run _ idx _ _ (with_props_lookup idx a p3 s Ha))). change (l_set_apps _ (with_props idx a p3 s)) with (with_props idx (set_props p3 a) (set_config_blob blob p3) (with_props idx a p3 s)).
  rewrite with_props_twice. set (p4 := set_config_blob blob p3).
  assert (p4 = p) as Ep by (unfold p, base_props; rewrite bool_decide_false by (by intros ->); by rewrite Eb).
  pose proof (config_loop_spec (S (Z.to_nat (Z.of_nat (length ws)))) idx blob ws 0 (with_props idx a p4 s) _ Hws (with_props_lookup idx a p4 s Ha) ltac:(lia) ltac:(lia)) as H'.
  unfold loop_result in H'. rewrite drop_0 in H'. destruct (config_loop _ _ _ _ _ _) as [[] s'|f]; [|done].
  destruct H' as (os & Hp & ->). exists os. split; [done|]. rewrite with_props_twice. cbn [ta_props set_props]. by rewrite Ep.
Qed.

(** *** Mapping of device memory *)

(** The first request for [mmio_id]: physical address and size. *)
Definition first_map (mmio_id : Z) (os : list config_option) : option (Z * Z) :=
  head (omap (fun o => match o with MapMem id off sz => if id =? mmio_id then Some (off, sz) else None | _ => None end) os).

Definition map_mmio (t vaddr off sz : Z) : L (Z * Z) :=
  on_u (uthread_map_contig t vaddr off (ROUNDUP sz 4096) (Z.lor (Z.lor UTM_W UTM_R) UTM_IO) UT_MAP_ALIGN_4KB).

Lemma words_at_drop s blob ws i k rest : words_at s blob ws -> 0 <= i -> drop (Z.to_nat i) ws = k :: rest ->
  rd32 (blob + 4 * i) s = Ret k s /\ drop (Z.to_nat (i + 1)) ws = rest.
Proof. intros Hw Hi E. destruct (drop_cons ws i k rest Hi E) as [Hk Hr]. split; [by apply (rd32_word s blob ws)|done]. Qed.

Lemma mmio_loop_spec fuel t blob ws mmio_id vaddr i s os :
  words_at s blob ws -> 0 <= i -> drop (Z.to_nat i) ws = config_words os -> Z.of_nat (length ws) - i < Z.of_nat fuel -> i <= Z.of_nat (length ws) ->
  mmio_loop fuel t blob (Z.of_nat (length ws)) mmio_id vaddr i s =
  match first_map mmio_id os with
  | Some (off, sz) => map_mmio t vaddr off sz s
  | None => Ret (ERR_NOT_FOUND, vaddr) s
  end.
Proof.
  intros Hw. revert i os. induction fuel as [|fuel IH]; intros i os Hi Hd Hf Hle; [lia|]. cbn [mmio_loop].
  pose proof (f_equal length Hd) as Hlen. rewrite length_drop in Hlen. destruct os as [|o os].
  { destruct (Z.ltb_spec i (Z.of_nat (length ws))); [cbn in Hlen; lia|done]. }
  destruct (Z.ltb_spec i (Z.of_nat (length ws))); [|destruct o; cbn in Hlen; lia]. cbn [negb].
  assert (forall b v, o = size_option b v -> drop (Z.to_nat i) ws = size_key b :: v :: config_words os) as Hs by (intros [] v ->; exact Hd).
  destruct o as [v|v|id off sz].
  - destruct (words_at_drop s blob ws i _ _ Hw Hi Hd) as [E1 D1]. rewrite (run_bind _ _ _ _ _ E1). cbn [Z.eqb TRUSTY_APP_CONFIG_KEY_MIN_STACK_SIZE TRUSTY_APP_CONFIG_KEY_MAP_MEM Pos.eqb].
    destruct (words_at_drop s blob ws (i + 1) _ _ Hw ltac:(lia) D1) as [_ D2]. rewrite (IH (i + 2) os); [done|lia| |lia|cbn in Hlen; lia]. by replace (i + 1 + 1) with (i + 2) in D2 by lia.
  - destruct (words_at_drop s blob ws i _ _ Hw Hi Hd) as [E1 D1]. rewrite (run_bind _ _ _ _ _ E1). cbn [Z.eqb TRUSTY_APP_CONFIG_KEY_MIN_HEAP_SIZE TRUSTY_APP_CONFIG_KEY_MAP_MEM Pos.eqb].
    destruct (words_at_drop s blob ws (i + 1) _ _ Hw ltac:(lia) D1) as [_ D2]. rewrite (IH (i + 2) os); [done|lia| |lia|cbn in Hlen; lia]. by replace (i + 1 + 1) with (i + 2) in D2 by lia.
  - destruct (words_at_drop s blob ws i _ _ Hw Hi Hd) as [E1 D1]. rewrite (run_bind _ _ _ _ _ E1). cbn [Z.eqb TRUSTY_APP_CONFIG_KEY_MAP_MEM Pos.eqb].
    destruct (words_at_drop s blob ws (i + 1) _ _ Hw ltac:(lia) D1) as [E2 D2]. rewrite (run_bind _ _ _ _ _ E2).
    replace (i + 1 + 1) with (i + 2) in D2 by lia. destruct (words_at_drop s blob ws (i + 2) _ _ Hw ltac:(lia) D2) as [E3 D3]. rewrite (run_bind _ _ _ _ _ E3).
    replace (i + 2 + 1) with (i + 3) in D3 by lia. destruct (words_at_drop s blob ws (i + 3) _ _ Hw ltac:(lia) D3) as [E4 D4]. rewrite (run_bind _ _ _ _ _ E4).
    replace (i + 3 + 1) with (i + 4) in D4 by lia. unfold first_map. cbn [omap list_omap]. destruct (Z.eqb_spec id mmio_id) as [->|Hne]; cbn [negb]; [done|].
    rewrite (IH (i + 4) os); [done|lia|done|lia|cbn in Hlen; lia].
Qed.

(** C15: What an app may map is what its manifest says.  The loader accepts a
    manifest exactly when its words are a list of options with non-empty sizes;
    the app then has its uuid, the stack and heap sizes asked for last (or the
    defaults) and the number of its memory requests.  Later, while the manifest
    is in memory, [trusty_app_setup_mmio] reads nothing but the manifest and maps
    the first request with the id it is given, or fails with ERR_NOT_FOUND and
    changes nothing. *)
Theorem manifest_decides_mmio image idx shdr s a uuid ws :
  manifest_at s image shdr uuid ws -> l_apps s !! idx = Some a ->
  let p := base_props uuid ws (manifest_blob s image shdr) (ta_props a) in
  match load_app_config_options image idx shdr s with
  | Fault f => f = AssertFailed /\ forall os, ~ parses ws os
  | Ret _ s' => exists os, parses ws os /\ s' = with_props idx a (foldl apply_option p os) s /\
      forall s2 a2 t mmio_id vaddr, l_mem s2 = l_mem s' -> l_apps s2 !! idx = Some a2 -> ta_props a2 = foldl apply_option p os -> ta_ut a2 = Some t ->
        trusty_app_setup_mmio idx mmio_id vaddr s2 =
        match first_map mmio_id os with
        | Some (off, sz) => map_mmio t vaddr off sz s2
        | None => Ret (ERR_NOT_FOUND, vaddr) s2
        end
  end.
Proof.
  intros Hm Ha p. pose proof (load_config_spec image idx shdr s a uuid ws Hm Ha) as H. fold p in H.
  destruct (load_app_config_options image idx shdr s) as [[] s'|f]; [|done]. destruct H as (os & Hp & ->). exists os. split; [done|]. split; [done|].
  intros s2 a2 t mmio_id vaddr Em Ha2 Ep Et. unfold trusty_app_setup_mmio.
  assert (forall q, p_config_entry_cnt (foldl apply_option q os) = p_config_entry_cnt q /\ p_config_blob (foldl apply_option q os) = p_config_blob q) as Hfold.
  { clear. induction os as [|o os IH]; intros q; [done|]. cbn. destruct (IH (apply_option q o)) as [-> ->]. by destruct o. }
  destruct (Hfold p) as [Ec Eb]. unfold get_app. erewrite run_bind by (unfold mbind, M_bind; cbn; by rewrite Ha2). erewrite run_bind by (by rewrite Et). rewrite Ep, Ec, Eb.
  destruct Hm as [_ (off & Eoff & _ & Hws)]. cbn [p base_props p_config_entry_cnt p_config_blob]. destruct Hp as [Hws' _].
  apply (mmio_loop_spec _ t _ ws mmio_id vaddr 0 s2 os); [|lia|done|lia|lia].
  case_bool_decide as Hnil; [by subst ws; intros i w; rewrite Hnil|].
  unfold manifest_blob. rewrite Eoff. intros i w Hi. rewrite Em. exact (Hws i w Hi).
Qed.

(** ** An image with two apps *)

Definition sect (name type addr offset size : Z) : list Z :=
  concat (le_bytes 4 <$> [name; type; 0; addr; offset; size; 0; 0; 4; 0]).

Definition demo_strtab : list Z := 0 :: (dot_bss ++ [0]) ++ (dot_bss_pad ++ [0]) ++ (dot_manifest ++ [0]).

(** One segment, the file's first page; the sections are the manifest, the bss, its
    padding and the section names. *)
Definition demo_elf (uuid : Z) (ws : list Z) : list Z :=
  let msize := 16 + 4 * Z.of_nat (length ws) in
  ELFMAG ++ replicate 20 0 ++ le_bytes 4 32768 ++ le_bytes 4 52 ++ le_bytes 4 4132 ++ replicate 8 0 ++ le_bytes 2 1 ++ le_bytes 2 40 ++ le_bytes 2 5 ++ le_bytes 2 4 ++
  concat (le_bytes 4 <$> [PT_LOAD; 0; 32768; 32768; 84 + msize; 200; Z.lor PF_R PF_W; 4096]) ++
  replicate 16 uuid ++ concat (le_bytes 4 <$> ws) ++ replicate (4096 - 84 - 16 - 4 * length ws) 0 ++
  demo_strtab ++
  sect 0 SHT_NULL 0 0 0 ++ sect 15 1 (32768 + 84) 84 msize ++ sect 1 SHT_NOBITS (32768 + 84 + msize) (84 + msize) (116 - msize) ++ sect 6 1 0 200 3896 ++ sect 0 3 0 4096 36.

Definition demo_ws0 : list Z := [2; 8192; 3; 7; 67108864; 4096].
Definition demo_ws1 : list Z := [1; 8192].
Definition demo_image : list Z := demo_elf 11 demo_ws0 ++ demo_elf 22 demo_ws1.
Definition demo_start : Z := 1048576.

Definition demo_boot : lstate :=
  LState (UState ∅ [] 0 (replicate 64 (Some 4096))) (mem_of [(demo_start, demo_image)]) [] 0 0 0 false [Some 5; None] 2.


Lemma demo_mem_ok : mem_ok (l_mem demo_boot).
Proof. apply (bool_decide_eq_true_1 (map_Forall (fun _ b => 0 <= b < 256) (l_mem demo_boot))). vm_compute. done. Qed.

Fixpoint words_check (m : mem) (a : Z) (ws : list Z) : bool :=
  match ws with
  | [] => true
  | w :: ws' => match mem_read m (u32 a) 4 with Some bs => le_val bs =? w | None => false end && words_check m (a + 4) ws'
  end.

Lemma words_check_ok s a ws : words_check (l_mem s) a ws = true -> words_at s a ws.
Proof.
  revert a. induction ws as [|w ws IH]; intros a H i v Hi; [done|]. cbn [words_check] in H. apply andb_true_iff in H as [H1 H2]. destruct i as [|i]; cbn in Hi.
  - injection Hi as <-. replace (a + 4 * Z.of_nat 0) with a by lia. destruct (mem_read (l_mem s) (u32 a) 4) as [bs|]; [|done]. exists bs. split; [done|]. by apply Z.eqb_eq.
  - replace (a + 4 * Z.of_nat (S i)) with (a + 4 + 4 * Z.of_nat i) by lia. by apply IH.
Qed.

(** The first app of the image, before it is read. *)
Definition demo_app : lstate := l_set_apps [zero_app] demo_boot.
Definition demo_shdr : Z := demo_start + 4132 + 40.

Lemma demo_manifest : manifest_at demo_app demo_start demo_shdr (replicate 16 11) demo_ws0.
Proof.
  split.
  - exists 40. split; [|done]. apply rd32_run. exists (le_bytes 4 40). split; vm_compute; reflexivity.
  - exists 84. split; [apply rd32_run; exists (le_bytes 4 84); split; vm_compute; reflexivity|]. split; [|apply words_check_ok; vm_compute; reflexivity].
    unfold rd, mbind, M_bind. cbn [get]. assert (mem_read (l_mem demo_app) (u32 (demo_start + 84)) 16 = Some (replicate 16 11)) as -> by (vm_compute; reflexivity). done.
Qed.

Lemma manifest_decides_mmio_witness :
  let p := base_props (replicate 16 11) demo_ws0 (manifest_blob demo_app demo_start demo_shdr) (ta_props zero_app) in
  match load_app_config_options demo_start 0 demo_shdr demo_app with
  | Fault f => f = AssertFailed /\ forall os, ~ parses demo_ws0 os
  | Ret _ s' => exists os, parses demo_ws0 os /\ s' = with_props 0 zero_app (foldl apply_option p os) demo_app /\
      forall s2 a2 t mmio_id vaddr, l_mem s2 = l_mem s' -> l_apps s2 !! 0%nat = Some a2 -> ta_props a2 = foldl apply_option p os -> ta_ut a2 = Some t ->
        trusty_app_setup_mmio 0 mmio_id vaddr s2 =
        match first_map mmio_id os with
        | Some (off, sz) => map_mmio t vaddr off sz s2
        | None => Ret (ERR_NOT_FOUND, vaddr) s2
        end
  end.
Proof. exact (manifest_decides_mmio demo_start 0 demo_shdr demo_app zero_app (replicate 16 11) demo_ws0 demo_manifest eq_refl). Defined.
