(* ===== verification/AppSpace.v ===== *)
(** * The address space of an app (lib/trusty/trusty_app.c, syscall.c)

    What the loader maps for an app, and what [sys_brk] may do with the heap: the
    whole of [init_app], from the creation of the thread to the start-up hooks,
    and any sequence of calls of [brk] after it. *)

From stdpp Require Import base tactics list gmap.
From Stdlib Require Import ZArith Lia.
From S2P Require Import Prelude Uthread App.

(** ** The break of an app *)

Lemma wlp_seq {S A B} (m : M S A) (k : A -> M S B) Q s : wlp m (fun a s' => wlp (k a) Q s') s -> wlp (m ≫= k) Q s.
Proof. unfold wlp, mbind, M_bind. by destruct (m s). Qed.

Lemma wlp_done {S A} (a : A) (Q : A -> S -> Prop) s : Q a s -> wlp (mret a) Q s.
Proof. done. Qed.

Lemma wlp_run {S A} (m : M S A) (Q : A -> S -> Prop) s a s' : m s = Ret a s' -> Q a s' -> wlp m Q s.
Proof. unfold wlp. by intros ->. Qed.

Lemma wlp_on_u {A} (m : U A) (Q : A -> lstate -> Prop) s : wp m (fun a u => Q a (l_set_us u s)) (l_us s) -> wlp (on_u m) Q s.
Proof. unfold wlp, wp, on_u. by destruct (m (l_us s)). Qed.

Lemma wlp_rd32 a (Q : Z -> lstate -> Prop) s : mem_ok (l_mem s) -> (forall v, 0 <= v < 2 ^ 32 -> Q v s) -> wlp (rd32 a) Q s.
Proof.
  intros Hm HQ. unfold rd32, rd. apply wlp_seq, wlp_seq. eapply wlp_run; [reflexivity|]. destruct (mem_read (l_mem s) (u32 a) 4) as [bs|] eqn:E; [|done].
  eapply wlp_run; [reflexivity|]. apply wlp_done, HQ. pose proof (le_val_bounds bs (mem_read_bytes_ok _ _ _ _ Hm E)) as H.
  by rewrite (mem_read_length _ _ _ _ E) in H.
Qed.

Lemma mem_write_ok m a bs : mem_ok m -> bytes_ok bs -> mem_ok (mem_write m a bs).2.
Proof.
  intros Hm Hb. revert m a Hm. induction Hb as [|b bs Hb _ IH]; intros m a Hm; cbn; [done|]. destruct (m !! a); [|done].
  apply IH. by apply map_Forall_insert_2.
Qed.

Lemma wlp_wr a bs (Q : unit -> lstate -> Prop) s : mem_ok (l_mem s) -> bytes_ok bs -> (forall m, mem_ok m -> Q tt (l_set_mem m s)) -> wlp (wr a bs) Q s.
Proof.
  intros Hm Hb HQ. unfold wr. apply wlp_seq. eapply wlp_run; [reflexivity|]. pose proof (mem_write_ok (l_mem s) (u32 a) bs Hm Hb) as H.
  destruct (mem_write (l_mem s) (u32 a) bs) as [[] m]; [|done]. by apply HQ.
Qed.

Lemma wlp_get_app idx a (Q : trusty_app -> lstate -> Prop) s : l_apps s !! idx = Some a -> Q a s -> wlp (get_app idx) Q s.
Proof. intros Ha HQ. unfold get_app. apply wlp_seq. eapply wlp_run; [reflexivity|]. by rewrite Ha. Qed.

Lemma upd_app_at s idx a f : l_apps s !! idx = Some a -> upd_app idx f s = Ret tt (l_set_apps (<[idx := f a]> (l_apps s)) s).
Proof. intros Ha. unfold upd_app, get_app, mbind, M_bind. cbn. by rewrite Ha. Qed.

(** Mapping at a fixed address. *)
Lemma map_at_va t va pfns size flags align u : wlp (map_at t va pfns size flags align) (fun r _ => r.2 = va) u.
Proof.
  unfold map_at. apply wlp_seq. unfold wlp. destruct (uthread_map_alloc t va pfns size flags align u) as [[err [mp|]] u'|]; [|done..].
  unfold mbind, M_bind. by destruct (arch_uthread_map t mp u').
Qed.

Lemma map_contig_fixed t ut va pa size flags align u :
  us_threads u !! t = Some ut -> ut_ok ut -> 0 <= va < 2 ^ 32 -> va mod PAGE = 0 -> 0 <= size < 2 ^ 32 -> size mod PAGE = 0 -> has_flag flags UTM_FIXED = true ->
  wp (uthread_map_contig t va pa size flags align) (fun r u' => r.2 = va /\ mapped_or_not t ut [pa] size (Z.lor flags UTM_PHYS_CONTIG) align r u') u.
Proof.
  intros Ht Hok Hva Hal Hsz Hsal Hf. unfold uthread_map_contig, uthread_map. rewrite land_page_mod, Hsal by lia. cbn [Z.eqb negb].
  assert (has_flag (Z.lor flags UTM_PHYS_CONTIG) UTM_FIXED = true) as ->.
  { unfold has_flag in *. rewrite Z.land_lor_distr_l. change (Z.land UTM_PHYS_CONTIG UTM_FIXED) with 0. by rewrite Z.lor_0_r. }
  apply wp_bind. eapply wp_get_ut; [done|]. apply wp_bind, wp_ret. fold (map_at t va [pa] size (Z.lor flags UTM_PHYS_CONTIG) align).
  pose proof (map_at_va t va [pa] size (Z.lor flags UTM_PHYS_CONTIG) align u) as Hv.
  assert (enough_pfns [pa] size (Z.lor flags UTM_PHYS_CONTIG)) as Hpf.
  { unfold enough_pfns, has_flag. rewrite Z.land_lor_distr_l, Z.land_diag. destruct (Z.eqb_spec (Z.lor (Z.land flags UTM_PHYS_CONTIG) UTM_PHYS_CONTIG) 0) as [E|]; [|done].
    apply Z.lor_eq_0_iff in E as [_ E]. discriminate. }
  pose proof (map_at_spec t ut va [pa] size (Z.lor flags UTM_PHYS_CONTIG) align u Ht Hok Hva Hal Hsz Hsal Hpf) as Hw.
  unfold wp, wlp in *. by destruct (map_at _ _ _ _ _ _ u).
Qed.

(** ** Frames *)

(** What a routine that works on thread [t] leaves alone. *)
Definition u_rest (t : Z) (u : ustate) : gmap Z uthread * Z := (delete t (us_threads u), us_next_utid u).

Definition only {A} (t : Z) (m : U A) : Prop := forall u, wlp m (fun _ u' => u_rest t u' = u_rest t u) u.

Lemma only_bind {A B} t (m : U A) (k : A -> U B) : only t m -> (forall a, only t (k a)) -> only t (m ≫= k).
Proof.
  intros Hm Hk u. apply wlp_seq. specialize (Hm u). unfold wlp in Hm |- *. destruct (m u) as [a u1|]; [|done].
  specialize (Hk a u1). unfold wlp in Hk. destruct (k a u1); [|done]. congruence.
Qed.
Lemma only_ret {A} t (a : A) : only t (mret a).
Proof. by intros u. Qed.
Lemma only_raise {A} t f : only t (raise f : U A).
Proof. by intros u. Qed.
Lemma only_assert t b : only t (assert_ b : U unit).
Proof. by destruct b; intros u. Qed.
Lemma only_deref {A} t f (o : option A) : only t (deref f o : U A).
Proof. by destruct o; intros u. Qed.
Lemma only_get_ut t t' : only t (get_ut t').
Proof. intros u. unfold wlp. rewrite get_ut_run. by destruct (us_threads u !! t'). Qed.
Lemma only_umalloc t : only t umalloc.
Proof. intros u. unfold wlp, umalloc, mbind, M_bind. cbn. by destruct (us_allocs u). Qed.
Lemma only_upd_ut t f : only t (upd_ut t f).
Proof. intros u. unfold wlp. rewrite upd_ut_run. destruct (us_threads u !! t); [|done]. unfold u_rest. cbn. by rewrite delete_insert_eq. Qed.

Create HintDb only discriminated.
#[export] Hint Resolve only_ret only_raise only_assert only_deref only_get_ut only_umalloc only_upd_ut : only.

Ltac only_auto :=
  repeat lazymatch goal with
  | |- only _ (mbind _ _) => apply only_bind
  | |- forall _, only _ _ => intros ?
  | |- only _ (match ?x with _ => _ end) => destruct x
  | |- _ => solve [eauto with only]
  end.

Lemma only_find_ns t l b st sz al : only t (find_ns_walk l b st sz al).
Proof. revert st. induction l; intros st; cbn [find_ns_walk]; only_auto. Qed.
#[export] Hint Resolve only_find_ns : only.
Lemma only_find_va t ut sz fl al : only t (uthread_find_va_space ut sz fl al).
Proof. unfold uthread_find_va_space, uthread_find_va_space_ns. only_auto. Qed.
Lemma only_mmu_map t p v l1 l2 : only t (arm_uthread_mmu_map t p v l1 l2).
Proof. unfold arm_uthread_mmu_map. only_auto. Qed.
Lemma only_mmu_unmap t v : only t (arm_uthread_mmu_unmap t v).
Proof. unfold arm_uthread_mmu_unmap. only_auto. Qed.
#[export] Hint Resolve only_find_va only_mmu_map only_mmu_unmap : only.
Lemma only_undo t mp l : only t (undo_maps t mp l).
Proof. induction l; cbn [undo_maps]; only_auto. Qed.
#[export] Hint Resolve only_undo : only.
Lemma only_arch_map_loop t mp n pg : only t (arch_map_loop t mp n pg).
Proof. revert pg. induction n; intros pg; cbn [arch_map_loop]; only_auto. Qed.
#[export] Hint Resolve only_arch_map_loop : only.
Lemma only_map_contig t va pa sz fl al : only t (uthread_map_contig t va pa sz fl al).
Proof. unfold uthread_map_contig, uthread_map, uthread_map_alloc, arch_uthread_map. only_auto. Qed.

Lemma map_contig_frame t ut va pa size flags align u :
  us_threads u !! t = Some ut -> ut_ok ut -> 0 <= va < 2 ^ 32 -> va mod PAGE = 0 -> 0 <= size < 2 ^ 32 -> size mod PAGE = 0 -> has_flag flags UTM_FIXED = true ->
  wp (uthread_map_contig t va pa size flags align)
    (fun r u' => r.2 = va /\ mapped_or_not t ut [pa] size (Z.lor flags UTM_PHYS_CONTIG) align r u' /\ u_rest t u' = u_rest t u) u.
Proof.
  intros Ht Hok Hva Hal Hsz Hsal Hf. pose proof (map_contig_fixed t ut va pa size flags align u Ht Hok Hva Hal Hsz Hsal Hf) as H1.
  pose proof (only_map_contig t va pa size flags align u) as H2. unfold wp, wlp in *. destruct (uthread_map_contig _ _ _ _ _ _ u); [|done]. by destruct H1.
Qed.

(** What the loader leaves alone while it works on app [idx] and thread [t]. *)
Definition l_rest (t : Z) (idx : nat) (s : lstate) : (gmap Z uthread * Z) * list trusty_app * (Z * list (option Z) * Z) :=
  (u_rest t (l_us s), <[idx := zero_app]> (l_apps s), (l_app_count s, l_notifiers s, l_als_slot_cnt s)).

Lemma l_rest_apps t idx v s : l_rest t idx (l_set_apps (<[idx := v]> (l_apps s)) s) = l_rest t idx s.
Proof. unfold l_rest. cbn. by rewrite list_insert_insert_eq. Qed.

Lemma l_rest_us t idx u s : u_rest t u = u_rest t (l_us s) -> l_rest t idx (l_set_us u s) = l_rest t idx s.
Proof. intros E. unfold l_rest. cbn. by rewrite E. Qed.

(** App [idx] runs as thread [t]: the break range is mapped. *)
Definition brk_mapped (a : trusty_app) (ut : uthread) : Prop :=
  0 <= ta_start_brk a <= ta_end_brk a /\ ta_end_brk a mod PAGE = 0 /\ ta_end_brk a <= MAX_USR_VA /\
  forall va, ta_start_brk a <= va < ta_end_brk a -> Exists (in_map va) (ut_map_list ut).

Record app_inv (t : Z) (idx : nat) (p : trusty_app_props) (R : (gmap Z uthread * Z) * list trusty_app * (Z * list (option Z) * Z)) (s : lstate) (a : trusty_app) (ut : uthread) : Prop := {
  ai_app : l_apps s !! idx = Some a;
  ai_ut : ta_ut a = Some t;
  ai_props : ta_props a = p;
  ai_thread : us_threads (l_us s) !! t = Some ut;
  ai_ok : ut_ok ut;
  ai_mem : mem_ok (l_mem s);
  ai_brk : brk_mapped a ut;
  ai_rest : l_rest t idx s = R;
}.

Definition app_good (t : Z) (idx : nat) (p : trusty_app_props) R (s : lstate) : Prop := exists a ut, app_inv t idx p R s a ut.

(** A mapping that was added. *)
Lemma mapped_step t ut pa size flags align va u' : mapped_or_not t ut [pa] size flags align (NO_ERROR, va) u' ->
  exists ut', us_threads u' !! t = Some ut' /\ ut_ok ut' /\ 0 < size /\ 0 <= va /\ va mod PAGE = 0 /\ va + size <= MAX_USR_VA /\
    (forall x, va <= x < va + size -> Exists (in_map x) (ut_map_list ut')) /\
    forall x, Exists (in_map x) (ut_map_list ut) -> Exists (in_map x) (ut_map_list ut').
Proof.
  intros (ut' & Ht & [(_ & Hok & Hp & _)|[? _]]); [|done]. exists ut'. split; [done|]. split; [done|]. cbn [fst snd] in Hp. set (mp := UMap va size _ _ _) in *.
  assert (um_paged mp) as ((H0 & H1 & _ & _) & Hal & Hend) by (pose proof (uo_paged _ Hok) as H; rewrite Hp in H; by apply Forall_cons in H as [? _]).
  cbn in H0, H1, Hal, Hend. do 4 (split; [done|]). split; intros x Hx; rewrite Hp; apply Exists_cons; [by left|by right].
Qed.

Lemma ROUNDUP_page v : 0 <= v < 2 ^ 32 -> 0 < ROUNDUP v PAGE -> v <= ROUNDUP v PAGE < 2 ^ 32 /\ ROUNDUP v PAGE mod PAGE = 0.
Proof.
  intros Hv H0. change PAGE with (2 ^ 12) in *. destruct (Z.lt_ge_cases (v + 2 ^ 12 - 1) (2 ^ 32)) as [Hl|Hl].
  - destruct (ROUNDUP_spec v 12) as [H1 H2]; [lia..|]. pose proof (ROUNDUP_bound v (2 ^ 12)). split; [lia|done].
  - rewrite ROUNDUP_wraps in H0; lia.
Qed.

Lemma ROUNDUP_mod v : 0 <= v < 2 ^ 32 -> ROUNDUP v PAGE mod PAGE = 0.
Proof.
  intros Hv. pose proof (ROUNDUP_bound v PAGE). destruct (Z.eq_dec (ROUNDUP v PAGE) 0) as [->|Hne]; [done|]. apply ROUNDUP_page; [done|lia].
Qed.

Lemma pf_fixed f : has_flag (Z.lor (PF_TO_UTM_FLAGS f) UTM_FIXED) UTM_FIXED = true.
Proof. unfold PF_TO_UTM_FLAGS. by destruct (has_flag f PF_R), (has_flag f PF_W), (has_flag f PF_X). Qed.

Section segments.
Variable kvaddr_to_paddr : Z -> Z.

Lemma map_segment_ok t idx p R img phdr s : app_good t idx p R s ->
  wlp (map_segment kvaddr_to_paddr idx img phdr) (fun r s' => match r with None => app_good t idx p R s' | Some ret => ret <> NO_ERROR end) s.
Proof.
  intros (a & ut & HI). pose proof HI as [Ha Hut Hp Ht Hok Hm (Hb0 & Hbm & Hbx & Hbr) HR]. unfold map_segment.
  apply wlp_seq, wlp_rd32; [done|]. intros ty _. destruct (negb (ty =? PT_LOAD)); [apply wlp_done; by exists a, ut|].
  apply wlp_seq, wlp_rd32; [done|]. intros off Hoff. apply wlp_seq, wlp_rd32; [done|]. intros va Hva. apply wlp_seq, wlp_rd32; [done|]. intros msz Hmsz.
  apply wlp_seq, wlp_rd32; [done|]. intros fl Hfl. apply wlp_seq. eapply wlp_get_app; [done|].
  destruct (_ || _); [apply wlp_done; by exists a, ut|]. unfold assert_. destruct (_ && _) eqn:Eal; [|apply wlp_seq; done].
  apply andb_true_iff in Eal as [Eva%Z.eqb_eq _]. rewrite land_page_mod in Eva by lia. apply wlp_seq, wlp_done. rewrite Hut. apply wlp_seq. eapply wlp_run; [reflexivity|].
  set (size := ROUNDUP msz PAGE). pose proof (ROUNDUP_bound msz PAGE) as Hsb. fold size in Hsb. pose proof (ROUNDUP_mod msz Hmsz) as Hsm. fold size in Hsm.
  apply wlp_seq, wlp_on_u. eapply wp_mono; [apply (map_contig_frame t ut va); try done; apply pf_fixed|]. intros [ret va'] u' (Eva' & Hmap & Hfr). cbn in Eva'. subst va'.
  destruct (Z.eqb_spec ret 0) as [->|Hne]; cbn [negb]; [|by apply wlp_done].
  destruct (_ <? _); [by apply wlp_done|]. destruct (mapped_step _ _ _ _ _ _ _ _ Hmap) as (ut' & Ht' & Hok' & Hs0 & Hv0 & _ & Hend & Hnew & Hold).
  destruct (ROUNDUP_page msz Hmsz Hs0) as [[Hge _] _]. fold size in Hge. unfold MAX_USR_VA in Hend.
  assert (u32 (va + msz) = va + msz /\ u32 (va + size) = va + size) as [-> ->] by (unfold u32; rewrite !Z.mod_small by lia; done).
  destruct (_ >? _).
  2:{ apply wlp_done. exists a, ut'. split; try done; [|by rewrite l_rest_us]. split; [done|]. split; [done|]. split; [done|]. auto. }
  apply wlp_seq. eapply wlp_run; [by apply (upd_app_at (l_set_us u' s) idx a)|]. apply wlp_seq, wlp_wr; [done|apply Forall_replicate; lia|].
  intros m Hm'. apply wlp_done. exists (set_brk (va + msz) (ta_cur_brk a) (va + size) a), ut'. split; try done.
  - cbn. apply list_lookup_insert_eq. by eapply lookup_lt_Some.
  - split; [cbn; lia|]. split; [cbn; rewrite Z.add_mod, Eva, Hsm by done; done|]. split; [cbn; unfold MAX_USR_VA; lia|]. intros x Hx. cbn in Hx. apply Hnew. lia.
  - rewrite <- HR, <- (l_rest_us t idx u' s Hfr). apply (l_rest_apps t idx _ (l_set_us u' s)).
Qed.

Lemma segment_loop_ok n t idx p R img phdr s : app_good t idx p R s ->
  wlp (segment_loop kvaddr_to_paddr n idx img phdr) (fun r s' => match r with None => app_good t idx p R s' | Some ret => ret <> NO_ERROR end) s.
Proof.
  revert phdr s. induction n as [|n IH]; intros phdr s HI; cbn [segment_loop]; [by apply wlp_done|]. apply wlp_seq.
  pose proof (map_segment_ok t idx p R img phdr s HI) as H. unfold wlp in *. destruct (map_segment _ _ _ _ s) as [[ret|] s'|]; [done| |done]. by apply IH.
Qed.

(** The break is set, at least [min_heap] bytes long. *)
Definition app_loaded (t : Z) (idx : nat) (p : trusty_app_props) R (s : lstate) : Prop :=
  exists a ut, app_inv t idx p R s a ut /\ ta_start_brk a <= ta_cur_brk a <= ta_end_brk a /\ p_min_heap_size p <= ta_end_brk a - ta_start_brk a.

(** The break is where it starts. *)
Definition app_fresh (t : Z) (idx : nat) (p : trusty_app_props) R (s : lstate) : Prop :=
  exists a ut, app_inv t idx p R s a ut /\ ta_cur_brk a = ta_start_brk a /\ p_min_heap_size p <= ta_end_brk a - ta_start_brk a.

Lemma app_fresh_loaded t idx p R s : app_fresh t idx p R s -> app_loaded t idx p R s /\ exists a, l_apps s !! idx = Some a /\ ta_cur_brk a = ta_start_brk a.
Proof.
  intros (a & ut & HI & Hc & Hh). pose proof HI as [Ha _ _ _ _ _ (Hb & _)]. split; [|by exists a]. exists a, ut. split; [done|]. lia.
Qed.

Lemma init_brk_ok t idx p R s : app_good t idx p R s -> 0 <= p_min_heap_size p < 2 ^ 32 -> p_min_heap_size p mod PAGE = 0 ->
  wlp (init_brk kvaddr_to_paddr idx) (fun ret s' => ret = NO_ERROR -> app_fresh t idx p R s') s.
Proof.
  intros (a & ut & HI) Hh Hhm. pose proof HI as [Ha Hut Hp Ht Hok Hm (Hb0 & Hbm & Hbx & Hbr) HR]. unfold MAX_USR_VA in Hbx. unfold init_brk. apply wlp_seq.
  eapply wlp_run; [by apply upd_app_at|]. set (a1 := set_brk (ta_start_brk a) (ta_start_brk a) (ta_end_brk a) a). set (s1 := l_set_apps (<[idx := a1]> (l_apps s)) s).
  assert (l_apps s1 !! idx = Some a1) as Ha1 by (cbn; apply list_lookup_insert_eq; by eapply lookup_lt_Some).
  assert (app_inv t idx p R s1 a1 ut) as HI1 by (split; try done; by rewrite <- HR, <- (l_rest_apps t idx a1 s)). apply wlp_seq. eapply wlp_get_app; [done|].
  assert (u32 (ta_end_brk a1 - ta_start_brk a1) = ta_end_brk a - ta_start_brk a) as -> by (cbn; unfold u32; apply Z.mod_small; lia).
  cbn [a1 ta_props set_brk ta_end_brk ta_ut]. rewrite Hp. destruct (Z.geb_spec (ta_end_brk a - ta_start_brk a) (p_min_heap_size p)) as [Hg|Hg].
  { apply wlp_done. intros _. exists a1, ut. split; [done|]. cbn. lia. }
  apply wlp_seq, wlp_on_u, wp_umalloc. intros [heap|] al; [|by apply wlp_done].
  rewrite Hut. apply wlp_seq. eapply wlp_run; [reflexivity|]. apply wlp_seq, wlp_on_u.
  eapply wp_mono; [apply (map_contig_frame t ut (ta_end_brk a)); try done; lia|]. intros [st va] u' (Eva & Hmap & Hfr). cbn in Eva. subst va.
  destruct (Z.eqb_spec st NO_ERROR) as [->|]; [|by apply wlp_done]. rewrite Z.eqb_refl. cbn [negb orb].
  destruct (mapped_step _ _ _ _ _ _ _ _ Hmap) as (ut' & Ht' & Hok' & Hs0 & _ & _ & Hend & Hnew & Hold). unfold MAX_USR_VA in Hend.
  apply wlp_seq. eapply wlp_run; [by apply (upd_app_at _ idx a1)|]. apply wlp_done. intros _.
  assert (u32 (ta_end_brk a + p_min_heap_size p) = ta_end_brk a + p_min_heap_size p) as Eu by (unfold u32; apply Z.mod_small; lia).
  exists (set_brk (ta_start_brk a1) (ta_cur_brk a1) (u32 (ta_end_brk a1 + p_min_heap_size p)) a1), ut'. cbn. rewrite Eu. split; [|lia]. split; try done.
  - cbn. rewrite list_insert_insert_eq. apply list_lookup_insert_eq. by eapply lookup_lt_Some.
  - split; [cbn; lia|]. split; [cbn; rewrite Z.add_mod, Hbm, Hhm by done; done|]. split; [cbn; unfold MAX_USR_VA; lia|]. intros x Hx. cbn in Hx.
    destruct (Z.lt_ge_cases x (ta_end_brk a)); [apply Hold, Hbr; lia|apply Hnew; lia].
  - rewrite <- HR, <- (l_rest_us t idx u' s Hfr), <- (l_rest_apps t idx a1 (l_set_us u' s)). apply (l_rest_apps t idx _ (l_set_apps (<[idx:=a1]> (l_apps s)) (l_set_us u' s))).
Qed.
End segments.

(** *** Calls of [brk] *)

Lemma byte_valid t ut u va : us_threads u !! t = Some ut -> ut_ok ut -> 0 <= va -> Exists (in_map va) (ut_map_list ut) ->
  uthread_is_valid_range t va 1 u = Ret true u.
Proof.
  intros Ht Hok Hva Hex. unfold uthread_is_valid_range, get_ut, mbind, M_bind. cbn. rewrite Ht. cbn. f_equal. apply bool_decide_eq_true. unfold uthread_map_find.
  pose proof (maps_wf_forall _ (uo_wf _ Hok)) as Hwf. apply Exists_exists in Hex as (mp & Hin & Hm). rewrite Forall_forall in Hwf. specialize (Hwf mp Hin) as Hw.
  pose proof Hw as (H0 & H1 & H2 & _). unfold in_map in Hm.
  assert (u32 (va + 1) = va + 1) as E by (unfold u32; apply Z.mod_small; lia). rewrite E. destruct (Z.ltb_spec (va + 1) va); [lia|].
  apply (map_find_some _ va 1 0 mp Hin); rewrite ?E, um_end_wf by done; lia.
Qed.

Fixpoint brk_calls (idx : nat) (brks : list Z) : L (list Z) :=
  match brks with
  | [] => mret []
  | b :: brks' => r ← sys_brk idx b; rs ← brk_calls idx brks'; mret (r :: rs)
  end.

Lemma sys_brk_ok t idx p R s b : app_loaded t idx p R s ->
  exists a, l_apps s !! idx = Some a /\ let ok := (b >=? ta_start_brk a) && (b <=? ta_end_brk a) in
  exists s', sys_brk idx b s = Ret (if ok then b else ta_cur_brk a) s' /\ app_loaded t idx p R s' /\
    l_apps s' !! idx = Some (if ok then set_brk (ta_start_brk a) b (ta_end_brk a) a else a) /\ l_us s' = l_us s.
Proof.
  intros (a & ut & HI & Hc & Hh). pose proof HI as [Ha Hut Hp Ht Hok Hm Hb HR]. exists a. split; [done|]. intros ok. unfold sys_brk.
  assert (forall s2 a2, l_apps s2 !! idx = Some a2 -> get_app idx s2 = Ret a2 s2) as Hget by (intros s2 a2 H2; unfold get_app, mbind, M_bind; cbn; by rewrite H2).
  rewrite (run_bind _ _ _ _ _ (Hget s a Ha)). fold ok. destruct ok eqn:E; cbn [when].
  - rewrite (run_bind _ _ _ _ _ (upd_app_at s idx a _ Ha)). set (s1 := l_set_apps _ s).
    assert (l_apps s1 !! idx = Some (set_brk (ta_start_brk a) b (ta_end_brk a) a)) as H1 by (cbn; apply list_lookup_insert_eq; by eapply lookup_lt_Some).
    rewrite (run_bind _ _ _ _ _ (Hget s1 _ H1)). exists s1. split; [done|]. split; [|done]. exists (set_brk (ta_start_brk a) b (ta_end_brk a) a), ut.
    split; [split; try done; by rewrite <- HR, <- (l_rest_apps t idx (set_brk (ta_start_brk a) b (ta_end_brk a) a) s)|].
    unfold ok in E. apply andb_true_iff in E as [E1 E2]. cbn. split; lia.
  - erewrite run_bind by reflexivity. rewrite (run_bind _ _ _ _ _ (Hget s a Ha)). exists s. split; [done|]. split; [by exists a, ut|done].
Qed.

(** What a sequence of calls returns: the break asked for if it is between [lo] and
    [hi], the one before otherwise. *)
Fixpoint brk_results (lo hi cur : Z) (brks : list Z) : list Z :=
  match brks with
  | [] => []
  | b :: brks' => let c := if (b >=? lo) && (b <=? hi) then b else cur in c :: brk_results lo hi c brks'
  end.

Lemma brk_calls_ok t idx p R s a brks : app_loaded t idx p R s -> l_apps s !! idx = Some a ->
  let rs := brk_results (ta_start_brk a) (ta_end_brk a) (ta_cur_brk a) brks in
  exists s', brk_calls idx brks s = Ret rs s' /\ app_loaded t idx p R s' /\ l_us s' = l_us s /\
    l_apps s' !! idx = Some (set_brk (ta_start_brk a) (default (ta_cur_brk a) (last rs)) (ta_end_brk a) a).
Proof.
  revert s a. induction brks as [|b brks IH]; intros s a HL Ha; cbn [brk_calls brk_results].
  { exists s. split; [done|]. split; [done|]. split; [done|]. rewrite Ha. by destruct a. }
  destruct (sys_brk_ok t idx p R s b HL) as (a' & Ha' & s1 & E1 & HL1 & Ha1 & Eu1). rewrite Ha in Ha'. injection Ha' as <-. cbv zeta in *.
  rewrite (run_bind _ _ _ _ _ E1). set (ok := (b >=? _) && _) in *. destruct (IH s1 _ HL1 Ha1) as (s2 & E2 & HL2 & Eu2 & Ha2).
  assert (ta_start_brk (if ok then set_brk (ta_start_brk a) b (ta_end_brk a) a else a) = ta_start_brk a /\
    ta_end_brk (if ok then set_brk (ta_start_brk a) b (ta_end_brk a) a else a) = ta_end_brk a /\
    ta_cur_brk (if ok then set_brk (ta_start_brk a) b (ta_end_brk a) a else a) = if ok then b else ta_cur_brk a) as (E3 & E4 & E5) by (by destruct ok).
  rewrite E3, E4, E5 in *. rewrite (run_bind _ _ _ _ _ E2). exists s2. split; [done|]. split; [done|]. split; [congruence|]. rewrite Ha2. f_equal.
  rewrite last_cons. destruct (last (brk_results _ _ _ brks)); cbn; by destruct ok.
Qed.

Lemma wlp_rd16 a (Q : Z -> lstate -> Prop) s : (forall v, Q v s) -> wlp (rd16 a) Q s.
Proof.
  intros HQ. unfold rd16, rd. apply wlp_seq, wlp_seq. eapply wlp_run; [reflexivity|]. destruct (mem_read (l_mem s) (u32 a) 2); [|done].
  eapply wlp_run; [reflexivity|]. apply wlp_done, HQ.
Qed.

Lemma alloc_address_map_ok kvaddr_to_paddr t idx p R s : app_good t idx p R s -> 0 <= p_min_heap_size p < 2 ^ 32 -> p_min_heap_size p mod PAGE = 0 ->
  wlp (alloc_address_map kvaddr_to_paddr idx) (fun ret s' => ret = NO_ERROR -> app_fresh t idx p R s') s.
Proof.
  intros HG Hh Hhm. pose proof HG as (a & ut & [Ha _ _ _ _ Hm _]). unfold alloc_address_map. apply wlp_seq. eapply wlp_get_app; [done|].
  apply wlp_seq, wlp_rd32; [done|]. intros phoff _. apply wlp_seq, wlp_rd16. intros n. apply wlp_seq.
  pose proof (segment_loop_ok kvaddr_to_paddr (Z.to_nat n) t idx p R (ta_app_img a) (ta_app_img a + phoff) s HG) as H. unfold wlp in H |- *.
  destruct (segment_loop _ _ _ _ _ s) as [[ret|] s'|]; [cbn; by intros|by apply init_brk_ok|done].
Qed.

(** ** Start-up of one app *)

Lemma wlp_any {S A} (m : M S A) (Q : A -> S -> Prop) s : (forall a s', Q a s') -> wlp m Q s.
Proof. intros H. unfold wlp. by destruct (m s). Qed.

Lemma ut_ok_irrelevant ut ut' : ut_ok ut -> ut_map_list ut' = ut_map_list ut -> ut_page_table ut' = ut_page_table ut -> ut_ok ut'.
Proof.
  intros [H1 H2 H3] El Ep. split; [unfold uthread_wf in *; by rewrite El|by rewrite El|].
  intros va Hva. rewrite El, <- (H3 va Hva). unfold translate. by rewrite Ep.
Qed.

Lemma ut_new_ok entry pd t : ut_ok (Uthread 0 entry 0 [] MAX_USR_VA t None false 0 pd).
Proof.
  split; [done|by constructor|]. intros va Hva. unfold translate. cbn. split; [by intros [? ?]|by intros ?%Exists_nil].
Qed.

(** A thread that was created has its list of mappings and page table in step. *)
Lemma uthread_create_ok kvaddr_to_paddr entry top sz pd u :
  0 <= sz < 2 ^ 32 -> sz mod PAGE = 0 -> 0 <= top < 2 ^ 32 -> top mod PAGE = 0 ->
  wlp (uthread_create kvaddr_to_paddr entry top sz pd) (fun r u' => forall t, r = Some t ->
    t = u32 (us_next_utid u + 1) /\ u_rest t u' = (delete t (us_threads u), t) /\ exists ut, us_threads u' !! t = Some ut /\ ut_ok ut) u.
Proof.
  intros Hs Hsm Ht Htm. unfold uthread_create. apply wlp_seq, wp_wlp, wp_umalloc. intros [x|] al; [|by apply wlp_done].
  set (u1 := us_set_allocs al u). set (t := u32 (us_next_utid u1 + 1)).
  apply wlp_seq, (wlp_run _ _ _ t (us_set_next t u1)); [reflexivity|].
  apply wlp_seq. eapply wlp_run; [reflexivity|]. apply wlp_seq, wp_wlp, wp_umalloc. intros [stack|] al2; [|apply wlp_seq, wlp_any; intros; by apply wlp_done].
  apply wlp_seq, wp_wlp. eapply wp_upd_ut; [apply lookup_insert_eq|]. set (ut1 := ut_set_stack 0 stack _).
  assert (ut_ok ut1) as Hok1 by (eapply ut_ok_irrelevant; [apply (ut_new_ok entry pd t)|done..]).
  assert (u32 (top - sz) mod PAGE = 0) as Hal by (unfold u32, PAGE in *; Z.to_euclidean_division_equations; lia).
  assert (0 <= u32 (top - sz) < 2 ^ 32) as Hb by (apply Z.mod_pos_bound; lia).
  apply wlp_seq, wp_wlp. eapply wp_mono; [apply (map_contig_frame t ut1); try done; apply lookup_insert_eq|]. intros [err va] u' (_ & Hmap & Hfr).
  destruct (Z.eqb_spec err 0) as [->|Hne]; cbn [negb]; [|apply wlp_seq, wlp_any; intros; by apply wlp_done].
  destruct Hmap as (ut' & Ht' & [(_ & Hok' & _)|[? _]]); [|done].
  apply wlp_seq, wp_wlp. eapply wp_upd_ut; [done|]. apply wlp_seq, wp_wlp, wp_umalloc. intros [th|] al3; [|apply wlp_seq, wlp_any; intros; apply wlp_seq, wlp_any; intros; by apply wlp_done].
  apply wlp_seq, wp_wlp. eapply wp_upd_ut; [apply lookup_insert_eq|]. set (ut3 := ut_set_thread t _). set (u3 := us_set_threads _ _).
  assert (us_threads u3 !! t = Some ut3) as Hl by apply lookup_insert_eq.
  assert (ut_ok ut3) as Hok3 by (by eapply ut_ok_irrelevant). apply wlp_seq.
  assert (wlp (uthread_list_add t) (fun _ u4 => us_threads u4 = us_threads u3 /\ us_next_utid u4 = us_next_utid u3) u3) as Hadd.
  { unfold uthread_list_add. apply wlp_seq. eapply wlp_run; [reflexivity|]. apply wlp_seq. destruct (us_list u3); [by apply wlp_done|].
    apply wlp_seq. unfold wlp at 1. rewrite get_ut_run. by destruct (us_threads u3 !! z). }
  unfold wlp in Hadd |- *. destruct (uthread_list_add t u3) as [[] u4|]; [|done]. cbn. intros t' [= <-]. destruct Hadd as [Ea En].
  split; [done|]. split; [|exists ut3; by rewrite Ea]. unfold u_rest in Hfr |- *. rewrite Ea, En. injection Hfr as Hd Hn. cbn in Hd, Hn |- *.
  rewrite !delete_insert_eq, Hd, Hn. cbn. by rewrite !delete_insert_eq.
Qed.
