(* ===== verification/AppBoot.v ===== *)
(** * Start-up of the trusted apps (lib/trusty/trusty_app.c)

    The whole of [trusty_app_init]: the walk over the images, and for each app the
    creation of its thread, its mappings and the start-up hooks.  The theorem says
    what every app has when start-up returns. *)

From stdpp Require Import base tactics list gmap.
From Stdlib Require Import ZArith Lia.
From S2P Require Import Prelude Uthread App AppSpace.

(** ** Reading the images *)

(** Sizes as the manifest gives them: whole pages. *)
Definition size_ok (v : Z) : Prop := 0 <= v < 2 ^ 32 /\ v mod PAGE = 0.
Definition sizes_ok (p : trusty_app_props) : Prop := size_ok (p_min_stack_size p) /\ size_ok (p_min_heap_size p).

(** An app that was read and not yet started. *)
Definition app_read (a : trusty_app) : Prop := ta_start_brk a = 0 /\ ta_end_brk a = 0 /\ sizes_ok (ta_props a).

(** While images are read: [u] are the threads. *)
Record reading (u : ustate) (s : lstate) : Prop := {
  rg_mem : mem_ok (l_mem s);
  rg_apps : Forall app_read (l_apps s);
  rg_count : 0 <= l_app_count s < MAX_TRUSTY_APP_COUNT;
  rg_threads : us_threads (l_us s) = us_threads u;
  rg_next : us_next_utid (l_us s) = us_next_utid u;
}.

Definition reads {A} (u : ustate) (m : L A) : Prop := forall s, reading u s -> wlp m (fun _ s' => reading u s') s.

Section reads.
Context (u : ustate).

Lemma reads_bind {A B} (m : L A) (k : A -> L B) : reads u m -> (forall a, reads u (k a)) -> reads u (m ≫= k).
Proof.
  intros Hm Hk s Hs. apply wlp_seq. specialize (Hm s Hs). unfold wlp in Hm |- *. destruct (m s) as [a s'|]; [|done]. by apply Hk.
Qed.
Lemma reads_ret {A} (a : A) : reads u (mret a).
Proof. by intros s Hs. Qed.
Lemma reads_raise {A} f : reads u (raise f : L A).
Proof. by intros s Hs. Qed.
Lemma reads_assert b : reads u (assert_ b : L unit).
Proof. by destruct b; intros s Hs. Qed.
Lemma reads_deref {A} f (o : option A) : reads u (deref f o : L A).
Proof. by destruct o; intros s Hs. Qed.
Lemma reads_get : reads u (get : L lstate).
Proof. by intros s Hs. Qed.

Lemma reads_rd_bind {A} n a (k : list Z -> L A) : (forall bs, bytes_ok bs -> reads u (k bs)) -> reads u (rd n a ≫= k).
Proof.
  intros Hk s Hs. apply wlp_seq. unfold rd. apply wlp_seq. eapply wlp_run; [reflexivity|]. destruct (mem_read (l_mem s) (u32 a) n) as [bs|] eqn:E; [|done].
  eapply wlp_run; [reflexivity|]. apply Hk; [|done]. by apply (mem_read_bytes_ok _ _ _ _ (rg_mem _ _ Hs) E).
Qed.
Lemma reads_rd32_bind {A} a (k : Z -> L A) : (forall v, 0 <= v < 2 ^ 32 -> reads u (k v)) -> reads u (rd32 a ≫= k).
Proof. intros Hk s Hs. apply wlp_seq, wlp_rd32; [by apply Hs|]. intros v Hv. by apply Hk. Qed.
Lemma reads_rd16_bind {A} a (k : Z -> L A) : (forall v, reads u (k v)) -> reads u (rd16 a ≫= k).
Proof. intros Hk s Hs. apply wlp_seq, wlp_rd16. intros v. by apply Hk. Qed.
Lemma reads_wr a bs : bytes_ok bs -> reads u (wr a bs).
Proof. intros Hb s [H1 H2 H3 H4 H5]. apply wlp_wr; [done..|]. intros m Hm. by split. Qed.

Lemma reads_upd_app i f : (forall a, app_read a -> app_read (f a)) -> reads u (upd_app i f).
Proof.
  intros Hf s Hs. destruct (l_apps s !! i) as [a|] eqn:Ha; [|unfold upd_app, get_app, wlp, mbind, M_bind; cbn; by rewrite Ha].
  eapply wlp_run; [by apply upd_app_at|]. destruct Hs as [H1 H2 H3 H4 H5]. split; try done. cbn. apply Forall_insert; [done|]. apply Hf.
  by eapply Forall_lookup_1.
Qed.
Lemma reads_upd_props i f : (forall p, sizes_ok p -> sizes_ok (f p)) -> reads u (upd_props i f).
Proof. intros Hf. apply reads_upd_app. intros a (H1 & H2 & H3). split; [done|]. split; [done|]. by apply Hf. Qed.

Lemma reads_image (f : lstate -> lstate) : (forall s, exists e z, f s = l_set_image e z s) -> reads u (modify f).
Proof. intros Hf s [H1 H2 H3 H4 H5]. unfold wlp. cbn. destruct (Hf s) as (e & z & ->). by split. Qed.
Lemma reads_count v : 0 <= v < MAX_TRUSTY_APP_COUNT -> reads u (modify (l_set_count v)).
Proof. intros Hv s [H1 H2 H3 H4 H5]. by split. Qed.
Lemma reads_assert_bind {A} b (k : unit -> L A) : (b = true -> reads u (k tt)) -> reads u (assert_ b ≫= k).
Proof. intros Hk. destruct b; [|by intros s Hs]. by apply Hk. Qed.
End reads.

Lemma size_ok_roundup v : 0 <= v < 2 ^ 32 -> size_ok (ROUNDUP v 4096).
Proof. intros Hv. split; [apply ROUNDUP_bound|]. by apply ROUNDUP_mod. Qed.

Create HintDb reads discriminated.
#[export] Hint Resolve reads_ret reads_raise reads_assert reads_deref reads_get reads_wr : reads.

Ltac reads_auto :=
  repeat lazymatch goal with
  | |- reads _ (mbind _ (rd _ _)) => apply reads_rd_bind; intros ? ?
  | |- reads _ (mbind _ (rd32 _)) => apply reads_rd32_bind; intros ? ?
  | |- reads _ (mbind _ (rd16 _)) => apply reads_rd16_bind; intros ?
  | |- reads _ (mbind _ (assert_ _)) => apply reads_assert_bind; intros ?
  | |- reads _ (mbind _ _) => apply reads_bind
  | |- forall _, reads _ _ => intros ?
  | |- reads _ (match ?x with _ => _ end) => destruct x
  | |- reads _ (upd_props _ _) => apply reads_upd_props; intros ? [? ?]; split; cbn; auto using size_ok_roundup
  | |- reads _ (upd_app _ _) => apply reads_upd_app; intros ? (? & ? & ?); by split
  | |- reads _ (modify (l_set_count _)) => apply reads_count; lia
  | |- reads _ (modify _) => apply reads_image; eauto
  | |- _ => solve [eauto with reads]
  end.

Lemma reads_config_loop u fuel idx blob cnt i : reads u (config_loop fuel idx blob cnt i).
Proof. revert i. induction fuel as [|fuel IH]; intros i; cbn [config_loop]; reads_auto. Qed.
#[export] Hint Resolve reads_config_loop : reads.

Lemma reads_config u img idx shdr : reads u (load_app_config_options img idx shdr).
Proof. unfold load_app_config_options. reads_auto; by split. Qed.

Lemma reads_str_eq u a lit : reads u (str_eq_from a lit).
Proof. revert a. induction lit as [|c lit IH]; intros a; cbn [str_eq_from]; reads_auto. Qed.
#[export] Hint Resolve reads_config reads_str_eq : reads.

Lemma reads_section u idx st hdr sc : reads u (scan_section idx st hdr sc).
Proof. unfold scan_section. reads_auto. Qed.
#[export] Hint Resolve reads_section : reads.

Lemma reads_sections u n idx st hdr sc : reads u (section_loop n idx st hdr sc).
Proof. revert hdr sc. induction n as [|n IH]; intros hdr sc; cbn [section_loop]; reads_auto. Qed.

Lemma reads_align u hdr pad ext : reads u (align_next_app hdr pad ext).
Proof. unfold align_next_app. reads_auto. Qed.
#[export] Hint Resolve reads_sections reads_align : reads.

Lemma reads_load_one u img : reads u (load_one img).
Proof.
  intros s Hs. unfold load_one. apply wlp_seq. eapply wlp_run; [reflexivity|]. pose proof (rg_count _ _ Hs) as Hc. set (c := l_app_count s) in *.
  match goal with |- wlp ?m _ s => enough (reads u m) as H by (by apply H) end. clearbody c.
  reads_auto.
Qed.

Lemma reads_loop u fuel img : reads u (bootloader_loop fuel img).
Proof.
  revert img. induction fuel as [|fuel IH]; intros img; cbn [bootloader_loop]; [apply reads_raise|].
  apply reads_bind; [apply reads_get|]. intros s. destruct (negb _); [apply reads_ret|]. apply reads_bind; [apply reads_load_one|]. intros [next|]; [apply IH|apply reads_ret].
Qed.

Lemma reads_bootloader u fuel img : reads u (trusty_app_bootloader fuel img).
Proof.
  intros s Hs. unfold trusty_app_bootloader. apply wlp_seq. eapply wlp_run; [reflexivity|]. apply wlp_seq. destruct (negb _); [|by apply reads_loop].
  apply wlp_seq, wlp_on_u, wp_umalloc. intros [page|] al; [|done]. apply reads_loop. destruct Hs as [H1 H2 H3 H4 H5]. split; try done.
  cbn. apply Forall_replicate. repeat split; cbn; lia.
Qed.

(** ** The loops end *)

Definition fuelled {A} (m : L A) : Prop := forall s, m s <> Fault OutOfFuel.

Lemma fuelled_bind {A B} (m : L A) (k : A -> L B) : fuelled m -> (forall a, fuelled (k a)) -> fuelled (m ≫= k).
Proof. intros Hm Hk s. unfold mbind, M_bind. specialize (Hm s). destruct (m s) as [a s'|f]; [apply Hk|congruence]. Qed.
Lemma fuelled_ret {A} (a : A) : fuelled (mret a).
Proof. by intros s. Qed.
Lemma fuelled_raise {A} f : f <> OutOfFuel -> fuelled (raise f : L A).
Proof. intros Hf s. unfold raise. congruence. Qed.
Lemma fuelled_assert b : fuelled (assert_ b : L unit).
Proof. by destruct b. Qed.
Lemma fuelled_deref {A} f (o : option A) : f <> OutOfFuel -> fuelled (deref f o : L A).
Proof. intros Hf. destruct o; [by intros s|by apply fuelled_raise]. Qed.
Lemma fuelled_assert_bind {A} b (k : unit -> L A) : (b = true -> fuelled (k tt)) -> fuelled (assert_ b ≫= k).
Proof. intros Hk. destruct b; [by apply Hk|by intros s]. Qed.
Lemma fuelled_get : fuelled (get : L lstate).
Proof. by intros s. Qed.
Lemma fuelled_modify f : fuelled (modify f : L unit).
Proof. by intros s. Qed.
Lemma fuelled_umalloc : fuelled (on_u umalloc).
Proof. intros s. unfold on_u, umalloc, mbind, M_bind. cbn. by destruct (us_allocs (l_us s)). Qed.

Create HintDb fuelled discriminated.
#[export] Hint Resolve fuelled_ret fuelled_assert fuelled_get fuelled_modify fuelled_umalloc : fuelled.
#[export] Hint Extern 1 (fuelled (raise _)) => apply fuelled_raise; discriminate : fuelled.
#[export] Hint Extern 1 (fuelled (deref _ _)) => apply fuelled_deref; discriminate : fuelled.

Ltac fuelled_auto :=
  repeat lazymatch goal with
  | |- fuelled (mbind _ (assert_ _)) => apply fuelled_assert_bind; intros ?
  | |- fuelled (mbind _ _) => apply fuelled_bind
  | |- forall _, fuelled _ => intros ?
  | |- fuelled (match ?x with _ => _ end) => destruct x
  | |- _ => solve [eauto with fuelled]
  end.

Lemma fuelled_rd n a : fuelled (rd n a).
Proof. unfold rd. fuelled_auto. Qed.
#[export] Hint Resolve fuelled_rd : fuelled.
Lemma fuelled_rd32 a : fuelled (rd32 a).
Proof. unfold rd32. fuelled_auto. Qed.
Lemma fuelled_rd16 a : fuelled (rd16 a).
Proof. unfold rd16. fuelled_auto. Qed.
Lemma fuelled_wr a bs : fuelled (wr a bs).
Proof. unfold wr. fuelled_auto. Qed.
Lemma fuelled_upd_app i f : fuelled (upd_app i f).
Proof. unfold upd_app, get_app. fuelled_auto. Qed.
#[export] Hint Resolve fuelled_rd32 fuelled_rd16 fuelled_wr fuelled_upd_app : fuelled.


Lemma fuelled_config_loop fuel idx blob cnt i : 0 <= cnt - i < Z.of_nat fuel -> fuelled (config_loop fuel idx blob cnt i).
Proof.
  revert i. induction fuel as [|fuel IH]; intros i Hf; cbn [config_loop]; [lia|]. unfold upd_props.
  destruct (negb _); [fuelled_auto|]. apply fuelled_bind; [fuelled_auto|]. intros key.
  destruct (_ =? _); [|destruct (_ =? _); [|destruct (_ =? _); [|fuelled_auto]]]; apply fuelled_assert_bind; intros H; apply Z.gtb_lt in H;
    (repeat (apply fuelled_bind; [fuelled_auto|]; intros ?)); apply IH; lia.
Qed.

Lemma fuelled_config img idx shdr : fuelled (load_app_config_options img idx shdr).
Proof.
  unfold load_app_config_options, upd_props. apply fuelled_bind; [fuelled_auto|]. intros sz. apply fuelled_assert_bind. intros H. apply Z.geb_le in H.
  repeat (apply fuelled_bind; [fuelled_auto|]; intros ?). destruct (_ =? 0); [fuelled_auto|]. apply fuelled_bind; [fuelled_auto|]. intros _.
  apply fuelled_config_loop. unfold sizeof_uuid in *. assert (0 <= (sz - 16) / 4) by (apply Z.div_pos; lia). lia.
Qed.

Lemma fuelled_str_eq a lit : fuelled (str_eq_from a lit).
Proof. revert a. induction lit as [|c lit IH]; intros a; cbn [str_eq_from]; fuelled_auto. Qed.
#[export] Hint Resolve fuelled_config fuelled_str_eq : fuelled.
Lemma fuelled_section idx st hdr sc : fuelled (scan_section idx st hdr sc).
Proof. unfold scan_section. fuelled_auto. Qed.
#[export] Hint Resolve fuelled_section : fuelled.
Lemma fuelled_sections n idx st hdr sc : fuelled (section_loop n idx st hdr sc).
Proof. revert hdr sc. induction n as [|n IH]; intros hdr sc; cbn [section_loop]; fuelled_auto. Qed.
Lemma fuelled_align hdr pad ext : fuelled (align_next_app hdr pad ext).
Proof. unfold align_next_app. fuelled_auto. Qed.
#[export] Hint Resolve fuelled_sections fuelled_align : fuelled.
Lemma fuelled_load_one img : fuelled (load_one img).
Proof. unfold load_one. fuelled_auto. Qed.

(** A turn that goes on has counted one more app. *)
Lemma load_one_counts img s : wlp (load_one img) (fun r s' => forall next, r = Some next -> l_app_count s' = l_app_count s + 1 /\ l_app_count s + 1 < MAX_TRUSTY_APP_COUNT) s.
Proof.
  unfold load_one. apply wlp_seq. eapply wlp_run; [reflexivity|]. apply wlp_seq, wlp_any. intros ident s1. destruct (negb _); [by apply wlp_done|].
  do 10 (apply wlp_seq, wlp_any; intros). apply wlp_seq. unfold assert_. destruct (Z.ltb_spec (l_app_count s + 1) MAX_TRUSTY_APP_COUNT); [|done].
  eapply wlp_run; [reflexivity|]. apply wlp_seq. eapply wlp_run; [reflexivity|]. by apply wlp_done.
Qed.

Lemma bootloader_loop_ends fuel img s : 0 <= MAX_TRUSTY_APP_COUNT - l_app_count s < Z.of_nat fuel -> bootloader_loop fuel img s <> Fault OutOfFuel.
Proof.
  revert img s. induction fuel as [|fuel IH]; intros img s Hf; [lia|]. cbn [bootloader_loop]. erewrite run_bind by reflexivity. destruct (negb _); [done|].
  pose proof (load_one_counts img s) as Hc. pose proof (fuelled_load_one img s) as Hl. unfold wlp in Hc. unfold mbind, M_bind. destruct (load_one img s) as [[next|] s'|f]; [|done|congruence].
  destruct (Hc next eq_refl). apply IH. lia.
Qed.

(** The walk over the images ends: an image for each of at most 64 apps is read, so
    65 turns are enough, whatever the memory holds. *)
Theorem bootloader_terminates img s : l_app_count s = 0 -> trusty_app_bootloader 65 img s <> Fault OutOfFuel.
Proof.
  intros Hc. unfold trusty_app_bootloader. erewrite run_bind by reflexivity. unfold when. destruct (negb _).
  - pose proof (fuelled_umalloc s) as Hf. unfold mbind, M_bind. assert (forall r s1, on_u umalloc s = Ret r s1 -> l_app_count s1 = 0) as Hk.
    { intros r s1. unfold on_u. destruct (umalloc (l_us s)); [|done]. by intros [= _ <-]. }
    destruct (on_u umalloc s) as [[page|] s1|f]; [|done|congruence]. apply bootloader_loop_ends. cbn. by rewrite (Hk _ _ eq_refl).
  - erewrite run_bind by reflexivity. apply bootloader_loop_ends. by rewrite Hc.
Qed.

(** ** Start-up *)

(** App [idx] has a thread [t], its mappings and a break. *)
Definition app_up (t : Z) (idx : nat) (s : lstate) : Prop := exists p, app_fresh t idx p (l_rest t idx s) s.

(** What a start-up hook leaves as it is: it may set app local storage and add
    mappings, but creates no thread and takes no mapping away. *)
Record hook_frame (s s' : lstate) : Prop := {
  hf_len : length (l_apps s') = length (l_apps s);
  hf_app : forall i a, l_apps s !! i = Some a -> exists als, l_apps s' !! i = Some (set_app_als als a);
  hf_mem : mem_ok (l_mem s) -> mem_ok (l_mem s');
  hf_count : l_app_count s' = l_app_count s;
  hf_next : us_next_utid (l_us s') = us_next_utid (l_us s);
  hf_ids : forall t, is_Some (us_threads (l_us s') !! t) -> is_Some (us_threads (l_us s) !! t);
  hf_thread : forall t ut, us_threads (l_us s) !! t = Some ut -> ut_ok ut -> exists ut', us_threads (l_us s') !! t = Some ut' /\ ut_ok ut' /\
    forall va, Exists (in_map va) (ut_map_list ut) -> Exists (in_map va) (ut_map_list ut');
}.

(** A hook that returns keeps to it. *)
Definition hooks_ok (startup : Z -> nat -> L Z) : Prop := forall f i s r s', startup f i s = Ret r s' -> hook_frame s s'.

(** The first [k] of [n] apps are started, each as a thread of its own. *)
Record boot_inv (n k : nat) (s : lstate) : Prop := {
  bi_mem : mem_ok (l_mem s);
  bi_read : forall i a, (k <= i)%nat -> l_apps s !! i = Some a -> app_read a;
  bi_up : forall i, (i < k)%nat -> exists t, app_up t i s;
  bi_inj : forall i j ai aj t, (i < k)%nat -> (j < k)%nat -> l_apps s !! i = Some ai -> l_apps s !! j = Some aj -> ta_ut ai = Some t -> ta_ut aj = Some t -> i = j;
  bi_ids : forall t, is_Some (us_threads (l_us s) !! t) -> t <= us_next_utid (l_us s);
  bi_count : l_app_count s = Z.of_nat n;
  bi_room : 0 <= us_next_utid (l_us s) /\ us_next_utid (l_us s) + Z.of_nat (n - k) < 2 ^ 32;
}.

Lemma app_up_keep t idx s s' : mem_ok (l_mem s') ->
  (forall a, l_apps s !! idx = Some a -> exists als, l_apps s' !! idx = Some (set_app_als als a)) ->
  (forall ut, us_threads (l_us s) !! t = Some ut -> ut_ok ut -> exists ut', us_threads (l_us s') !! t = Some ut' /\ ut_ok ut' /\
    forall va, Exists (in_map va) (ut_map_list ut) -> Exists (in_map va) (ut_map_list ut')) ->
  app_up t idx s -> app_up t idx s'.
Proof.
  intros Hm Happ Hth (p & a & ut & [Ha Hut Hp Ht Hok _ (B1 & B2 & B3 & B4) _] & Hc & Hh). destruct (Happ a Ha) as (als & Ha'). destruct (Hth ut Ht Hok) as (ut' & Ht' & Hok' & Hin).
  exists p, (set_app_als als a), ut'. split; [|done]. split; try done. split; [done|]. split; [done|]. split; [done|]. intros va Hva. by apply Hin, B4.
Qed.

Lemma app_up_thread t idx s a t' : app_up t idx s -> l_apps s !! idx = Some a -> ta_ut a = Some t' -> t' = t /\ is_Some (us_threads (l_us s) !! t).
Proof. intros (p & a' & ut & [Ha Hut Hp Ht _ _ _ _] & _) Ha' Hut'. rewrite Ha in Ha'. injection Ha' as <-. split; [congruence|eauto]. Qed.

Lemma boot_inv_hook n k s s' : hook_frame s s' -> boot_inv n k s -> boot_inv n k s'.
Proof.
  intros [Hlen Happ Hmem Hcnt Hnext Hids Hth] [I1 I2 I3 I4 I5 I6 I7].
  assert (forall i a', l_apps s' !! i = Some a' -> exists a als, l_apps s !! i = Some a /\ a' = set_app_als als a) as Hback.
  { intros i a' Ha'. destruct (l_apps s !! i) as [a|] eqn:Ha; [|apply lookup_ge_None in Ha; apply lookup_lt_Some in Ha'; lia].
    destruct (Happ i a Ha) as (als & E). exists a, als. split; [done|congruence]. }
  split; [auto|..].
  - intros i a' Hi Ha'. destruct (Hback i a' Ha') as (a & als & Ha & ->). by apply (I2 i a).
  - intros i Hi. destruct (I3 i Hi) as [t Ht]. exists t. eapply app_up_keep; [auto|exact (Happ i)|exact (Hth t)|done].
  - intros i j ai' aj' t Hi Hj Hai Haj E1 E2. destruct (Hback i ai' Hai) as (ai & ? & ? & ->). destruct (Hback j aj' Haj) as (aj & ? & ? & ->).
    by apply (I4 i j ai aj t).
  - intros t Ht. rewrite Hnext. auto.
  - congruence.
  - by rewrite Hnext.
Qed.

Lemma boot_inv_step n k s s' t : boot_inv n k s -> (k < n)%nat -> t = us_next_utid (l_us s) + 1 -> us_next_utid (l_us s') = t ->
  (forall i, i <> k -> l_apps s' !! i = l_apps s !! i) -> (forall t', t' <> t -> us_threads (l_us s') !! t' = us_threads (l_us s) !! t') ->
  mem_ok (l_mem s') -> l_app_count s' = l_app_count s -> app_up t k s' -> boot_inv n (S k) s'.
Proof.
  intros [I1 I2 I3 I4 I5 I6 I7] Hk Et Hn Happ Hth Hm Hcnt Hup.
  assert (forall i, (i < k)%nat -> exists t', t' <> t /\ app_up t' i s') as Hold.
  { intros i Hi. destruct (I3 i Hi) as [t' Ht']. pose proof Ht' as (p & a & ut & [Ha Hut _ Htt _ _ _ _] & _).
    assert (t' <> t) as Hne by (specialize (I5 t' (ltac:(eauto))); lia). exists t'. split; [done|]. eapply app_up_keep; [done|..|done].
    - intros a' Ha'. exists (ta_als a'). rewrite Happ by lia. rewrite Ha'. by destruct a'.
    - intros ut' Hut'. rewrite Hth by done. eauto. }
  assert (forall i ai ti, (i < k)%nat -> l_apps s' !! i = Some ai -> ta_ut ai = Some ti -> ti <> t) as Hdiff.
  { intros i ai ti Hi Hai Eti. destruct (Hold i Hi) as (t' & Hne & Hu). by destruct (app_up_thread _ _ _ _ _ Hu Hai Eti) as [-> _]. }
  assert (forall ai ti, l_apps s' !! k = Some ai -> ta_ut ai = Some ti -> ti = t) as Hsame by (intros ai ti Hai Eti; by destruct (app_up_thread _ _ _ _ _ Hup Hai Eti)).
  split; [done|..].
  - intros i a Hi Ha. rewrite Happ in Ha by lia. apply (I2 i a); [lia|done].
  - intros i Hi. destruct (decide (i = k)) as [->|]; [by exists t|]. destruct (Hold i ltac:(lia)) as (t' & _ & ?). by exists t'.
  - intros i j ai aj ti Hi Hj Hai Haj E1 E2. destruct (decide (i = k)) as [->|Hik], (decide (j = k)) as [->|Hjk]; [done|..].
    + destruct (Hdiff j aj ti ltac:(lia) Haj E2). by apply (Hsame ai).
    + destruct (Hdiff i ai ti ltac:(lia) Hai E1). by apply (Hsame aj).
    + rewrite Happ in Hai, Haj by done. apply (I4 i j ai aj ti); (done || lia).
  - intros t' [ut' Ht']. rewrite Hn. destruct (decide (t' = t)) as [->|]; [lia|]. rewrite Hth in Ht' by done. specialize (I5 t' (ltac:(eauto))). lia.
  - congruence.
  - rewrite Hn. lia.
Qed.

Lemma wlp_on_u_wlp {A} (m : U A) (Q : A -> lstate -> Prop) s : wlp m (fun a u => Q a (l_set_us u s)) (l_us s) -> wlp (on_u m) Q s.
Proof. unfold wlp, on_u. by destruct (m (l_us s)). Qed.

Section init.
Variable kvaddr_to_paddr : Z -> Z.
Variable startup : Z -> nat -> L Z.
Context (Hhooks : hooks_ok startup).

Lemma notifiers_ok n k idx l s : boot_inv n k s -> wlp (mfor (call_notifier startup idx) l) (fun _ s' => boot_inv n k s') s.
Proof.
  revert s. induction l as [|[f|] l IH]; intros s HI; cbn [mfor call_notifier]; [by apply wlp_done| |apply wlp_seq, wlp_done; by apply IH].
  apply wlp_seq, wlp_seq. unfold wlp at 1. destruct (startup f idx s) as [r s'|] eqn:E; [|done]. destruct (negb _); [done|].
  apply wlp_done, IH. eapply boot_inv_hook; [by eapply Hhooks|done].
Qed.

Lemma l_rest_inv t idx s s' : l_rest t idx s' = l_rest t idx s ->
  (forall i, i <> idx -> l_apps s' !! i = l_apps s !! i) /\ (forall t', t' <> t -> us_threads (l_us s') !! t' = us_threads (l_us s) !! t') /\
  us_next_utid (l_us s') = us_next_utid (l_us s) /\ l_app_count s' = l_app_count s.
Proof.
  unfold l_rest, u_rest. intros [= E1 E2 E3 E4 _ _]. split; [|split; [|done]].
  - intros i Hi. apply (f_equal (.!! i)) in E3. by rewrite !list_lookup_insert_ne in E3 by done.
  - intros t' Ht. apply (f_equal (.!! t')) in E1. by rewrite !lookup_delete_ne in E1 by done.
Qed.

Lemma init_app_ok n k s : boot_inv n k s -> (k < n)%nat -> wlp (init_app kvaddr_to_paddr startup k) (fun _ s' => boot_inv n (S k) s') s.
Proof.
  intros HI Hk. unfold init_app. apply wlp_seq. destruct (l_apps s !! k) as [a|] eqn:Ha; [|unfold wlp, get_app, mbind, M_bind; cbn; by rewrite Ha].
  eapply wlp_get_app; [done|]. destruct (bi_read _ _ _ HI k a (le_n k) Ha) as (Hb0 & Hb1 & [Hs1 Hs2] & [Hh1 Hh2]).
  apply wlp_seq, wlp_rd32; [apply HI|]. intros entry _. apply wlp_seq, wlp_on_u_wlp.
  pose proof (uthread_create_ok kvaddr_to_paddr entry TRUSTY_APP_STACK_TOP (p_min_stack_size (ta_props a)) (Z.of_nat k) (l_us s) Hs1 Hs2 ltac:(done) ltac:(done)) as Hcr.
  unfold wlp at 1. unfold wlp in Hcr. destruct (uthread_create _ _ _ _ _ _) as [[t|] u1|]; [|done..].
  destruct (Hcr t eq_refl) as (Et & Er & ut & Hut & Hok). pose proof (bi_room _ _ _ HI) as Hroom.
  assert (t = us_next_utid (l_us s) + 1) as Et' by (rewrite Et; unfold u32; apply Z.mod_small; lia). unfold u_rest in Er. injection Er as Er1 Er2.
  apply wlp_seq. eapply wlp_run; [by apply (upd_app_at (l_set_us u1 s) k a)|]. set (a2 := set_app_ut (Some t) a). set (s2 := l_set_apps _ (l_set_us u1 s)).
  assert (app_good t k (ta_props a) (l_rest t k s2) s2) as HG.
  { exists a2, ut. split; try done; [cbn; apply list_lookup_insert_eq; by eapply lookup_lt_Some|apply HI|].
    cbn. unfold brk_mapped. cbn. rewrite Hb0, Hb1. split; [lia|]. split; [done|]. split; [done|]. lia. }
  apply wlp_seq. pose proof (alloc_address_map_ok kvaddr_to_paddr t k (ta_props a) _ s2 HG Hh1 Hh2) as Hal. unfold wlp at 1. unfold wlp in Hal.
  destruct (alloc_address_map _ _ s2) as [ret s3|]; [|done]. destruct (Z.eqb_spec ret NO_ERROR) as [->|]; cbn [negb]; [|done].
  pose proof (Hal eq_refl) as (a3 & ut3 & [Ha3 Hut3 Hp3 Ht3 Hok3 Hm3 Hb3 HR3] & Hc3 & Hh3).
  apply wlp_seq, wlp_on_u, wp_umalloc. intros [als|] al; [|done]. set (s4 := l_set_us _ s3). apply wlp_seq. eapply wlp_run; [reflexivity|].
  apply wlp_seq. eapply wlp_run; [by apply (upd_app_at s4 k a3)|]. apply notifiers_ok. destruct (l_rest_inv _ _ _ _ HR3) as (F1 & F2 & F3 & F4).
  apply (boot_inv_step n k s _ t HI Hk Et').
  - cbn. by rewrite F3.
  - intros i Hi. cbn. rewrite list_lookup_insert_ne, F1 by done. cbn. by rewrite list_lookup_insert_ne.
  - intros t' Ht'. cbn. rewrite F2 by done. apply (f_equal (.!! t')) in Er1. by rewrite !lookup_delete_ne in Er1 by done.
  - done.
  - cbn. by rewrite F4.
  - exists (ta_props a), (set_app_als (Some (replicate (Z.to_nat (l_als_slot_cnt s4)) 0)) a3), ut3. split; [|done]. split; try done.
    cbn. apply list_lookup_insert_eq. by eapply lookup_lt_Some.
Qed.

Lemma init_apps_ok n m k s : boot_inv n k s -> (k + m = n)%nat -> wlp (mfor (init_app kvaddr_to_paddr startup) (seq k m)) (fun _ s' => boot_inv n n s') s.
Proof.
  revert k s. induction m as [|m IH]; intros k s HI Hn; cbn [seq mfor]; [apply wlp_done; rewrite Nat.add_0_r in Hn; by subst k|]. apply wlp_seq.
  pose proof (init_app_ok n k s HI ltac:(lia)) as H. unfold wlp in H |- *. destruct (init_app _ _ k s) as [[] s'|]; [|done]. apply (IH (S k)); [done|lia].
Qed.

(** The kernel before the apps are loaded: no app, and room for thread ids. *)
Record before_apps (s : lstate) : Prop := {
  ba_mem : mem_ok (l_mem s);
  ba_apps : l_apps s = [];
  ba_count : l_app_count s = 0;
  ba_ids : forall t, is_Some (us_threads (l_us s) !! t) -> t <= us_next_utid (l_us s);
  ba_room : 0 <= us_next_utid (l_us s) /\ us_next_utid (l_us s) + MAX_TRUSTY_APP_COUNT < 2 ^ 32;
}.

Lemma app_init_ok fuel image_start image_end s : before_apps s ->
  wlp (trusty_app_init kvaddr_to_paddr startup fuel image_start image_end) (fun _ s' => boot_inv (Z.to_nat (l_app_count s')) (Z.to_nat (l_app_count s')) s') s.
Proof.
  intros [B1 B2 B3 B4 B5]. unfold trusty_app_init. apply wlp_seq. eapply wlp_run; [reflexivity|]. apply wlp_seq. unfold assert_. destruct (_ =? 0); [|done].
  eapply wlp_run; [reflexivity|]. apply wlp_seq. eapply wlp_run; [reflexivity|]. set (s1 := l_set_registry _ _ _ _).
  assert (reading (l_us s) s1) as Hr by (split; try done; cbn; rewrite ?B2, ?B3; done).
  apply wlp_seq. pose proof (reads_bootloader (l_us s) fuel image_start s1 Hr) as H. unfold wlp in H |- *.
  destruct (trusty_app_bootloader fuel image_start s1) as [[] s2|]; [|done]. destruct H as [H1 H2 H3 H4 H5]. set (n := Z.to_nat (l_app_count s2)).
  assert (l_app_count s2 = Z.of_nat n) as En by (unfold n; lia).
  assert (boot_inv n 0 s2) as HI.
  { split; [done|..].
    - intros i a _ Ha. by eapply Forall_lookup_1.
    - intros i Hi. lia.
    - intros i j ai aj t Hi. lia.
    - intros t. rewrite H4, H5. auto.
    - done.
    - rewrite H5. unfold MAX_TRUSTY_APP_COUNT in *. cbn in H3, B5. lia. }
  pose proof (init_apps_ok n n 0 s2 HI ltac:(lia)) as Hw. unfold wlp in Hw. change ((s ← get; mfor (init_app kvaddr_to_paddr startup) (seq 0 (Z.to_nat (l_app_count s)))) s2) with (mfor (init_app kvaddr_to_paddr startup) (seq 0 n) s2).
  destruct (mfor _ (seq 0 n) s2) as [[] s3|]; [|done]. pose proof (bi_count _ _ _ Hw) as E. by rewrite E, Nat2Z.id.
Qed.
End init.

(** What app [idx], with the fields [a], may do with its break. *)
Definition heap_of (idx : nat) (s : lstate) (t lo hi : Z) : Prop :=
  (forall va, lo <= va < hi -> uthread_is_valid_range t va 1 (l_us s) = Ret true (l_us s)) /\
  forall brks, exists s' a', brk_calls idx brks s = Ret (brk_results lo hi lo brks) s' /\ l_us s' = l_us s /\ l_apps s' !! idx = Some a' /\
    ta_cur_brk a' = default lo (last (brk_results lo hi lo brks)) /\ lo <= ta_cur_brk a' <= hi.

Lemma app_up_heap t idx s : app_up t idx s -> exists a, l_apps s !! idx = Some a /\ ta_ut a = Some t /\
  p_min_heap_size (ta_props a) <= ta_end_brk a - ta_start_brk a /\ heap_of idx s t (ta_start_brk a) (ta_end_brk a).
Proof.
  intros (p & HF). pose proof HF as (a & ut & [Ha Hut Hp Ht Hok Hm (Hb0 & _ & _ & Hb) _] & Hc & Hh). exists a. rewrite Hp. do 3 (split; [done|]). split.
  - intros va Hva. apply (byte_valid t ut); [done|done|lia|by apply Hb].
  - intros brks. destruct (app_fresh_loaded _ _ _ _ _ HF) as [HL _]. destruct (brk_calls_ok t idx p _ s a brks HL Ha) as (s2 & E2 & HL2 & Eu & Ha2). rewrite Hc in *.
    eexists s2, _. split; [done|]. split; [done|]. split; [done|]. split; [done|]. destruct HL2 as (a2 & ut2 & [Ha2' _ _ _ _ _ _ _] & Hc2 & _).
    rewrite Ha2 in Ha2'. injection Ha2' as <-. exact Hc2.
Qed.

(** C14: Every app that start-up leaves running has its own thread and its heap.
    If [trusty_app_init] returns -- whatever the image holds, with start-up hooks
    that keep threads and mappings -- then each loaded app has a user thread that
    no other app has; its break range is at least as long as the heap its
    manifest asks for, each byte of it is a valid address of the thread, and any
    sequence of calls of [sys_brk] returns the break asked for when it lies in
    the range and the one before otherwise, and never leaves the range. *)
Theorem apps_start_with_heap kvaddr_to_paddr startup fuel image_start image_end s s' :
  before_apps s -> hooks_ok startup -> trusty_app_init kvaddr_to_paddr startup fuel image_start image_end s = Ret tt s' ->
  (forall idx, (idx < Z.to_nat (l_app_count s'))%nat -> exists a t, l_apps s' !! idx = Some a /\ ta_ut a = Some t /\
     p_min_heap_size (ta_props a) <= ta_end_brk a - ta_start_brk a /\ heap_of idx s' t (ta_start_brk a) (ta_end_brk a)) /\
  forall i j ai aj t, (i < Z.to_nat (l_app_count s'))%nat -> (j < Z.to_nat (l_app_count s'))%nat ->
    l_apps s' !! i = Some ai -> l_apps s' !! j = Some aj -> ta_ut ai = Some t -> ta_ut aj = Some t -> i = j.
Proof.
  intros Hb Hh E. pose proof (app_init_ok kvaddr_to_paddr startup Hh fuel image_start image_end s Hb) as H. unfold wlp in H. rewrite E in H.
  split; [|exact (bi_inj _ _ _ H)]. intros idx Hi. destruct (bi_up _ _ _ H idx Hi) as [t Ht]. destruct (app_up_heap t idx s' Ht) as (a & Ha). by exists a, t.
Qed.

(** ** A start with two apps *)

Definition demo_hook (f : Z) (idx : nat) : L Z := mret NO_ERROR.

Definition demo_end : Z := demo_start + Z.of_nat (length demo_image).

Lemma demo_before : before_apps demo_boot.
Proof.
  split; [exact demo_mem_ok|exact eq_refl|exact eq_refl| |split; vm_compute; congruence].
  intros t [ut E]. change ((∅ : gmap Z uthread) !! t = Some ut) in E. by rewrite lookup_empty in E.
Qed.

Lemma demo_hooks : hooks_ok demo_hook.
Proof. intros f i s r s' [= _ <-]. split; try done; [intros j a Ha; exists (ta_als a); rewrite Ha; by destruct a|eauto]. Qed.

Definition end_state (o : outcome lstate unit) (d : lstate) : lstate := match o with Ret _ s => s | Fault _ => d end.
Definition returns (o : outcome lstate unit) : bool := match o with Ret _ _ => true | Fault _ => false end.

Lemma returns_end o d : returns o = true -> o = Ret tt (end_state o d).
Proof. by destruct o as [[] s|f]. Qed.

Definition demo_started : lstate := end_state (trusty_app_init (fun a => a) demo_hook 65 demo_start demo_end demo_boot) demo_boot.

Lemma demo_init_runs : trusty_app_init (fun a => a) demo_hook 65 demo_start demo_end demo_boot = Ret tt demo_started.
Proof. apply returns_end. vm_compute. reflexivity. Qed.

Lemma demo_started_count : l_app_count demo_started = 2.
Proof. vm_compute. reflexivity. Qed.

Lemma apps_start_with_heap_witness :
  l_app_count demo_started = 2 /\ exists a t, l_apps demo_started !! 1%nat = Some a /\ ta_ut a = Some t /\
    p_min_heap_size (ta_props a) <= ta_end_brk a - ta_start_brk a /\ heap_of 1 demo_started t (ta_start_brk a) (ta_end_brk a).
Proof.
  split; [exact demo_started_count|].
  apply (proj1 (apps_start_with_heap (fun a => a) demo_hook 65 demo_start demo_end demo_boot demo_started demo_before demo_hooks demo_init_runs)).
  rewrite demo_started_count. cbn. lia.
Defined.
