(* ===== verification/AppCalls.v ===== *)
(** * The calls on descriptors and time (lib/trusty/syscall.c)

    Descriptors 1 and 2 write to the debug log.  Whatever other parts of the
    kernel install, they keep their handler, and the handler accepts exactly the
    buffers that lie in one mapping of the app. *)

From stdpp Require Import base tactics list gmap.
From Stdlib Require Import ZArith Lia.
From S2P Require Import Prelude Uthread App AppSpace AppBoot.

(** ** Descriptors *)

Definition install_all (installs : list (Z * sys_fd_ops)) (fds : list (option sys_fd_ops)) : list (option sys_fd_ops) :=
  foldl (fun fds i => (install_sys_fd_handler i.1 i.2 fds).2) fds installs.

(** A descriptor that has a handler keeps it, and can not be installed again. *)
Lemma install_keeps fd ops fds fd' h : 0 <= fd -> 0 <= fd' -> get_sys_fd_handler fd fds = Some h ->
  get_sys_fd_handler fd (install_sys_fd_handler fd' ops fds).2 = Some h /\ (install_sys_fd_handler fd ops fds).1 = ERR_ALREADY_EXISTS.
Proof.
  intros H0 H0' Hg. unfold get_sys_fd_handler, install_sys_fd_handler in *. destruct (Z.geb_spec fd MAX_SYS_FD_HADLERS); [done|].
  destruct (fds !! Z.to_nat fd) as [[h'|]|] eqn:E; [|done..]. split; [|done]. destruct (fd' >=? _); [cbn; by rewrite E|].
  destruct (fds !! Z.to_nat fd') as [[]|] eqn:E'; cbn; try by rewrite E.
  rewrite list_lookup_insert_ne, E; [done|]. intros Ef. rewrite Ef in E'. congruence.
Qed.

Lemma install_all_keeps installs fds fd h : 0 <= fd -> Forall (fun i => 0 <= i.1) installs -> get_sys_fd_handler fd fds = Some h ->
  get_sys_fd_handler fd (install_all installs fds) = Some h.
Proof.
  intros H0 Hi. revert fds. induction Hi as [|i l Hi _ IH]; intros fds Hg; [done|]. apply IH. by apply install_keeps.
Qed.

(** The range is part of one mapping. *)
Definition covered (ut : uthread) (ptr size : Z) : Prop :=
  Exists (fun mp => um_vaddr mp <= ptr < um_vaddr mp + um_size mp /\ ptr + size <= um_vaddr mp + um_size mp) (ut_map_list ut).

Lemma map_find_covers l vaddr size i r : map_find l vaddr size i = Some r -> r.2 ∈ l /\ um_vaddr r.2 <= vaddr < um_end r.2 /\ u32 (vaddr + size) <= um_end r.2.
Proof.
  revert i. induction l as [|mp l IH]; intros i; cbn [map_find]; [done|]. destruct (_ && _) eqn:E.
  - intros [= <-]. rewrite !andb_true_iff in E. split; [apply elem_of_cons; by left|]. cbn. lia.
  - intros H. destruct (IH _ H) as (H1 & H2). split; [apply elem_of_cons; by right|done].
Qed.

Lemma valid_range_covered t ut ptr size u : us_threads u !! t = Some ut -> uthread_wf ut -> 0 <= ptr < 2 ^ 32 -> 0 <= size < 2 ^ 32 ->
  exists b, uthread_is_valid_range t ptr size u = Ret b u /\ (b = true <-> covered ut ptr size).
Proof.
  intros Ht Hwf Hp Hs. unfold uthread_is_valid_range, mbind, M_bind. rewrite get_ut_run, Ht. eexists. split; [done|]. rewrite bool_decide_eq_true.
  pose proof (maps_wf_forall _ Hwf) as Hf. rewrite Forall_forall in Hf. unfold covered, uthread_map_find. rewrite Exists_exists. destruct (Z.ltb_spec (u32 (ptr + size)) ptr) as [Hw|Hw].
  - split; [by intros [? ?]|]. intros (mp & Hin & Hm1 & Hm2). destruct (Hf mp Hin) as (? & ? & ? & _). exfalso.
    assert (u32 (ptr + size) = ptr + size) as E by (unfold u32; apply Z.mod_small; lia). lia.
  - assert (u32 (ptr + size) = ptr + size) as E.
    { unfold u32 in *. destruct (Z.lt_ge_cases (ptr + size) (2 ^ 32)); [apply Z.mod_small; lia|].
      rewrite <- (Z.mod_unique_pos (ptr + size) (2 ^ 32) 1 (ptr + size - 2 ^ 32)) in Hw; lia. }
    split.
    + intros [r Hr]. destruct (map_find_covers _ _ _ _ _ Hr) as (Hin & H1 & H2). exists r.2. split; [done|]. rewrite um_end_wf in H1, H2 by (by apply Hf). rewrite E in H2. lia.
    + intros (mp & Hin & Hm1 & Hm2). apply (map_find_some _ _ _ _ mp Hin); rewrite ?E, um_end_wf by (by apply Hf); lia.
Qed.

(** Writing to standard output is checked, whoever installs what.  After any
    installations of handlers, a write to descriptor 1 or 2 goes to the debug log
    and returns the size exactly when the buffer lies in one mapping of the app;
    otherwise it is ERR_INVALID_ARGS and nothing happens.  Reading from them and
    ioctl are not supported. *)
Theorem std_write_checked t run_fd dwrite installs fd ptr size s ut :
  us_threads (l_us s) !! t = Some ut -> uthread_wf ut -> 0 <= ptr < 2 ^ 32 -> 0 <= size < 2 ^ 32 ->
  Forall (fun i => 0 <= i.1) installs -> fd = 1 \/ fd = 2 ->
  let fds := install_all installs sys_fds in
  (covered ut ptr size -> sys_write t run_fd dwrite fds fd ptr size s = (dwrite (fd =? 2) ptr size;; mret (s32 size)) s) /\
  (~ covered ut ptr size -> sys_write t run_fd dwrite fds fd ptr size s = Ret ERR_INVALID_ARGS s) /\
  sys_read t run_fd dwrite fds fd ptr size s = Ret ERR_NOT_SUPPORTED s /\
  sys_ioctl t run_fd dwrite fds fd ptr size s = Ret ERR_NOT_SUPPORTED s.
Proof.
  intros Ht Hwf Hp Hs Hi Hfd fds.
  assert (get_sys_fd_handler fd fds = Some sys_std_fd_op) as Hg by (apply install_all_keeps; [lia|done|by destruct Hfd as [-> | ->]]).
  destruct (valid_range_covered t ut ptr size (l_us s) Ht Hwf Hp Hs) as (b & Eb & Hb).
  assert (on_u (uthread_is_valid_range t ptr size) s = Ret b s) as Ev by (unfold on_u; rewrite Eb; by destruct s).
  unfold sys_write, sys_read, sys_ioctl, sys_fd_call. rewrite Hg. cbn [fd_write fd_read fd_ioctl sys_std_fd_op]. change (call_fd t run_fd dwrite std_write) with (sys_std_write t dwrite).
  unfold sys_std_write, valid_address. rewrite (run_bind _ _ _ _ _ Ev). split; [|split; [|done]]; intros Hc.
  - apply Hb in Hc as ->. done.
  - destruct b; [by destruct Hc; apply Hb|done].
Qed.

Definition demo_calls : lstate := LState (UState {[ 1 := demo_ut2 ]} [1] 1 []) ∅ [] 0 0 0 false [] 0.
Definition demo_installs : list (Z * sys_fd_ops) := [(3, FdOps (Some 7) None None); (1, FdOps None (Some 8) None)].
Definition demo_fd (h fd x y : Z) : L Z := mret 0.
Definition demo_dwrite (err : bool) (ptr size : Z) : L unit := mret tt.

Lemma demo_not_covered : ~ covered demo_ut2 32768 100.
Proof. unfold covered. rewrite Exists_exists. intros (mp & Hin & H1 & H2). cbn in Hin. apply list_elem_of_singleton in Hin as ->. cbn in H1. lia. Qed.

Lemma std_write_checked_witness :
  sys_write 1 demo_fd demo_dwrite (install_all demo_installs sys_fds) 1 32768 100 demo_calls = Ret ERR_INVALID_ARGS demo_calls.
Proof.
  assert (us_threads (l_us demo_calls) !! 1 = Some demo_ut2) as H1 by reflexivity. assert (Forall (fun i => 0 <= i.1) demo_installs) as H2 by (by repeat constructor).
  exact (proj1 (proj2 (std_write_checked 1 demo_fd demo_dwrite demo_installs 1 32768 100 demo_calls demo_ut2 H1 (uo_wf _ demo_ut2_ok) ltac:(lia) ltac:(lia) H2 ltac:(lia))) demo_not_covered).
Defined.

(** The heap is a mapping of its own: a buffer from the rest of the last page of
    data into it is in the app's break range, and is refused. *)
Theorem heap_start_refused :
  let write ptr size := match sys_std_write 1 demo_dwrite 1 ptr size demo_started with Ret r _ => Some r | Fault _ => None end in
  (fun a => (ta_ut a, ta_start_brk a, ta_end_brk a)) <$> l_apps demo_started !! 0%nat = Some (Some 1, 32968, 45056) /\
  write 36860 4 = Some 4 /\ write 36864 4 = Some 4 /\ write 36860 8 = Some ERR_INVALID_ARGS.
Proof. vm_compute. done. Qed.

(** ** Time *)

(** A sleep of up to 2^32 - 1 ms is not shorter than asked for, and less than one
    millisecond longer. *)
Theorem sys_nanosleep_rounds_up l h : 0 <= l < 2 ^ 32 -> 0 <= h ->
  let ns := l + h * 2 ^ 32 in
  ns <= (2 ^ 32 - 1) * 1000000 -> ns <= sys_nanosleep l h * 1000000 < ns + 1000000.
Proof.
  intros Hl Hh ns Hn. unfold sys_nanosleep. rewrite Z.shiftl_mul_pow2 by lia. fold ns. unfold u64, u32, DIV_ROUND_UP, u64.
  rewrite (Z.mod_small ns) by lia. rewrite (Z.mod_small (ns + 1000 * 1000 - 1)) by lia. 
  assert (0 <= (ns + 1000 * 1000 - 1) / (1000 * 1000) < 2 ^ 32) by (Z.to_euclidean_division_equations; lia).
  rewrite Z.mod_small by done. Z.to_euclidean_division_equations; lia.
Qed.

(** One of 2^32 ms, about 50 days, returns at once. *)
Theorem sys_nanosleep_wraps : sys_nanosleep 0 1000000 = 0.
Proof. reflexivity. Qed.
