(* ===== verification/Tipc.v ===== *)
(** * The TIPC device: lk/trusty/lib/trusty/tipc_dev.c

    The bridge between the non-secure side and the IPC of the trusted apps.  Its
    two virtio queues carry messages; a message to [TIPC_CTRL_ADDR] opens or
    closes a connection, any other is forwarded to the channel of the endpoint
    it is addressed to.  A second thread forwards what apps send back.

    The state is the device and the IPC objects ([tsys]) over the memory shared
    with the non-secure side (Shm.v).  Routines of vqueue.c run on one of the two
    queues ([on_vq]), routines of the IPC files on the IPC objects ([on_k]); a
    kernel pointer into a mapped buffer handed to the latter is backed by the
    shared bytes ([with_kmem]). *)

From stdpp Require Import base tactics list gmap.
From Stdlib Require Import ZArith Lia.
From S2P Require Import Prelude Bitmap Iovec MsgQueue Kernel Channel Handle Uctx Ipc IpcMsg Shm Vqueue.

Definition TIPC_CTRL_ADDR : Z := 53.
Definition TIPC_ADDR_MAX_NUM : Z := 256.
Definition TIPC_ADDR_BASE : Z := 1000.
Definition TIPC_MAX_SRV_NAME_LEN : nat := 256.
Definition VIRTIO_ID_TIPC : Z := 13.
Definition TIPC_VQ_NUM : Z := 2.
Definition RSC_VDEV : Z := 3.

Definition TIPC_CTRL_MSGTYPE_GO_ONLINE : Z := 1.
Definition TIPC_CTRL_MSGTYPE_GO_OFFLINE : Z := 2.
Definition TIPC_CTRL_MSGTYPE_CONN_REQ : Z := 3.
Definition TIPC_CTRL_MSGTYPE_CONN_RSP : Z := 4.
Definition TIPC_CTRL_MSGTYPE_DISC_REQ : Z := 5.

Definition sizeof_tipc_hdr : Z := 16.
Definition sizeof_tipc_ctrl_msg_hdr : Z := 8.
Definition sizeof_tipc_conn_req_body : Z := 256.
Definition sizeof_tipc_disc_req_body : Z := 4.

(** ** State *)

Inductive vdev_state := VDEV_STATE_RESET | VDEV_STATE_ACTIVE.

#[export] Instance vdev_state_eq_dec : EqDecision vdev_state.
Proof. solve_decision. Defined.

Record tipc_ept := Ept {
  e_remote : Z;
  e_chan : option href;
}.

(** [td_handle_list] names the device's handle list among [k_hlists],
    [td_have_handles] its event; a thread is there or not. *)
Record tipc_dev := TipcDev {
  td_state : vdev_state;
  td_devid : Z;
  td_uuid : uuid_ptr;
  td_tx : vqueue;
  td_rx : vqueue;
  td_epts : list tipc_ept;
  td_inuse : list Z;
  td_have_handles : Z;
  td_handle_list : Z;
  td_rx_thread : bool;
  td_tx_thread : bool;
  td_tx_stop : bool;
  td_rx_stop : bool;
}.

Definition set_td_state (v : vdev_state) (d : tipc_dev) : tipc_dev := TipcDev v (td_devid d) (td_uuid d) (td_tx d) (td_rx d) (td_epts d) (td_inuse d) (td_have_handles d) (td_handle_list d) (td_rx_thread d) (td_tx_thread d) (td_tx_stop d) (td_rx_stop d).
Definition set_td_tx (v : vqueue) (d : tipc_dev) : tipc_dev := TipcDev (td_state d) (td_devid d) (td_uuid d) v (td_rx d) (td_epts d) (td_inuse d) (td_have_handles d) (td_handle_list d) (td_rx_thread d) (td_tx_thread d) (td_tx_stop d) (td_rx_stop d).
Definition set_td_rx (v : vqueue) (d : tipc_dev) : tipc_dev := TipcDev (td_state d) (td_devid d) (td_uuid d) (td_tx d) v (td_epts d) (td_inuse d) (td_have_handles d) (td_handle_list d) (td_rx_thread d) (td_tx_thread d) (td_tx_stop d) (td_rx_stop d).
Definition set_td_table (es : list tipc_ept) (bm : list Z) (d : tipc_dev) : tipc_dev := TipcDev (td_state d) (td_devid d) (td_uuid d) (td_tx d) (td_rx d) es bm (td_have_handles d) (td_handle_list d) (td_rx_thread d) (td_tx_thread d) (td_tx_stop d) (td_rx_stop d).
Definition set_td_threads (rx tx : bool) (d : tipc_dev) : tipc_dev := TipcDev (td_state d) (td_devid d) (td_uuid d) (td_tx d) (td_rx d) (td_epts d) (td_inuse d) (td_have_handles d) (td_handle_list d) rx tx (td_tx_stop d) (td_rx_stop d).
Definition set_td_tx_stop (v : bool) (d : tipc_dev) : tipc_dev := TipcDev (td_state d) (td_devid d) (td_uuid d) (td_tx d) (td_rx d) (td_epts d) (td_inuse d) (td_have_handles d) (td_handle_list d) (td_rx_thread d) (td_tx_thread d) v (td_rx_stop d).
Definition set_td_rx_stop (v : bool) (d : tipc_dev) : tipc_dev := TipcDev (td_state d) (td_devid d) (td_uuid d) (td_tx d) (td_rx d) (td_epts d) (td_inuse d) (td_have_handles d) (td_handle_list d) (td_rx_thread d) (td_tx_thread d) (td_tx_stop d) v.

Record tsys := TSys {
  ts_k : kstate;
  ts_dev : tipc_dev;
}.

Abbreviation tstate := (shared tsys).
Abbreviation T := (M tstate).

Definition get_dev : T tipc_dev := gets (fun s => ts_dev (v_dev s)).
Definition upd_dev (f : tipc_dev -> tipc_dev) : T unit :=
  modify (fun s => v_set_dev (TSys (ts_k (v_dev s)) (f (ts_dev (v_dev s)))) s).

Definition set_k (k : kstate) (s : tstate) : tstate := v_set_dev (TSys k (ts_dev (v_dev s))) s.

(** A routine of the IPC files. *)
Definition on_k {A} (m : K A) : T A := fun s =>
  match m (ts_k (v_dev s)) with
  | Ret a k => Ret a (set_k k s)
  | Fault f => Fault f
  end.

Inductive vq_sel := TIPC_VQ_TX | TIPC_VQ_RX.

Definition vq_get (q : vq_sel) (d : tipc_dev) : vqueue := match q with TIPC_VQ_TX => td_tx d | TIPC_VQ_RX => td_rx d end.
Definition vq_put (q : vq_sel) (v : vqueue) (d : tipc_dev) : tipc_dev :=
  match q with TIPC_VQ_TX => set_td_tx v d | TIPC_VQ_RX => set_td_rx v d end.

(** A routine of vqueue.c on one of the queues. *)
Definition on_vq {A} (q : vq_sel) (m : M (shared vqueue) A) : T A := fun s =>
  match m (VState (vq_get q (ts_dev (v_dev s))) (v_regions s) (v_shm s) (v_env s) (v_vmm s)) with
  | Ret a s' => Ret a (VState (TSys (ts_k (v_dev s)) (vq_put q (v_dev s') (ts_dev (v_dev s))))
                              (v_regions s') (v_shm s') (v_env s') (v_vmm s'))
  | Fault f => Fault f
  end.

(** An IPC routine that copies from or to the [n] bytes at [a]: they are shared
    bytes, which must be mapped. *)
Definition with_kmem {A} (a : Z) (n : nat) (m : K A) : T A :=
  interfere;;
  s ← get;
  if in_regions (v_regions s) a (Z.of_nat n) then
    km0 ← on_k (gets k_kmem);
    on_k (modify (set_k_kmem (mem_seg a (shm_bytes (v_shm s) a n))));;
    r ← on_k m;
    km ← on_k (gets k_kmem);
    modify (v_set_shm (shm_store (v_shm s) a (u8 <$> shm_bytes km a n)));;
    on_k (modify (set_k_kmem km0));;
    mret r
  else raise BadPointer.

(** ** Endpoints *)

Definition addr_to_slot (addr : Z) : Z := u32 (addr - TIPC_ADDR_BASE).
Definition slot_to_addr (slot : Z) : Z := u32 (slot + TIPC_ADDR_BASE).

(** [&dev->epts[slot]] as a cookie; NULL is 0. *)
Definition ept_ptr (slot : Z) : Z := slot + 1.

Definition alloc_local_addr (remote : Z) (chan : href) : T Z :=
  d ← get_dev;
  let slot := bitmap_ffz (td_inuse d) TIPC_ADDR_MAX_NUM in
  if slot >=? 0 then
    upd_dev (set_td_table (<[Z.to_nat slot := Ept remote (Some chan)]> (td_epts d)) (bitmap_set (td_inuse d) slot));;
    mret (slot_to_addr slot)
  else mret 0.

(** The slot of the endpoint found. *)
Definition lookup_ept (d : tipc_dev) (local : Z) : option Z :=
  let slot := addr_to_slot local in
  if (slot <? TIPC_ADDR_MAX_NUM) && bitmap_test (td_inuse d) slot then Some slot else None.

Definition free_local_addr (local : Z) : T unit :=
  let slot := addr_to_slot local in
  when (slot <? TIPC_ADDR_MAX_NUM)
    (upd_dev (fun d => set_td_table (<[Z.to_nat slot := Ept 0 None]> (td_epts d)) (bitmap_clear (td_inuse d) slot) d)).

Definition get_ept (slot : Z) : T tipc_ept := d ← get_dev; deref BadPointer (td_epts d !! Z.to_nat slot).

(** Detach a channel from the device, as [handle_disc_req], [handle_hup] and
    [tipc_dev_reset] do. *)
Definition detach (chan : href) : T unit :=
  d ← get_dev;
  on_k (handle_list_del (td_handle_list d) chan);;
  on_k (handle_set_cookie chan 0);;
  on_k (handle_close chan).

(** ** Sending to the non-secure side *)

(** [memcpy] to mapped memory. *)
Fixpoint shm_copy (dst : Z) (bs : list Z) : T unit :=
  match bs with
  | [] => mret tt
  | b :: bs' => shm_write 1 dst b;; shm_copy (dst + 1) bs'
  end.

Definition _send_buf (data : list Z) (dst sz : Z) : T Z :=
  assert_ (negb (dst =? 0));;
  assert_ (sz <=? Z.of_nat (length data));;
  shm_copy dst (take (Z.to_nat sz) data);;
  mret sz.

Section threads.
(** [event_wait]: what the other threads do until the event is signalled;
    [list_wait]: [handle_list_wait] on the device's list, in which the other
    threads run; [join]: [thread_join] on the receiving or sending thread. *)
Variable await : T unit.
Variable list_wait : T (Z * option (href * Z)).
Variable join : vq_sel -> T Z.

(** The loop of [tipc_send_data] that waits for a buffer. *)
Fixpoint get_tx_buf (fuel : nat) (buf : vqueue_buf) (wait : bool) : T (Z + vqueue_buf) :=
  match fuel with
  | O => raise OutOfFuel
  | S fuel' =>
      '(ret, buf) ← on_vq TIPC_VQ_TX (vqueue_get_avail_buf buf);
      if ret =? NO_ERROR then mret (inr buf)
      else if negb (ret =? ERR_NOT_ENOUGH_BUFFER) || negb wait then mret (inl ret)
      else
        await;;
        d ← get_dev;
        if td_tx_stop d then mret (inl ERR_CHANNEL_CLOSED) else get_tx_buf fuel' buf wait
  end.

(** One entry for outgoing data, none for incoming. *)
Definition tx_buf : vqueue_buf :=
  VqueueBuf 0 (VqueueIovs 0 0 0 [] []) (VqueueIovs 1 0 0 [0] [Iov 0 0]).

Definition put_hdr (a src dst len : Z) : T unit :=
  shm_write 4 a src;;
  shm_write 4 (a + 4) dst;;
  shm_write 4 (a + 8) 0;;
  shm_write 2 (a + 12) len;;
  shm_write 2 (a + 14) 0.

(** [tipc_send_data] once it has a buffer, up to the label [done]. *)
Definition fill_tx_buf (local remote : Z) (cb : Z -> Z -> T Z) (data_len : Z) (buf : vqueue_buf) : T Z :=
  let ttl_len := sizeof_tipc_hdr + data_len in
  if vi_used (vb_out buf) =? 0 then mret ERR_NOT_ENOUGH_BUFFER
  else
    v ← deref BadPointer (vi_iovs (vb_out buf) !! 0%nat);
    if sizeof_tipc_hdr >? iov_len v then mret ERR_NOT_ENOUGH_BUFFER
    else
      '(ret, out) ← on_vq TIPC_VQ_TX (vqueue_map_iovs (vb_out buf));
      if negb (ret =? NO_ERROR) then mret ret
      else
        v ← deref BadPointer (vi_iovs out !! 0%nat);
        let hdr := iov_base v in
        put_hdr hdr local remote data_len;;
        let data_len := if ttl_len >? iov_len v then u16 (iov_len v - sizeof_tipc_hdr) else data_len in
        ret ← cb (hdr + sizeof_tipc_hdr) data_len;
        on_vq TIPC_VQ_TX (vqueue_unmap_iovs out);;
        mret (if ret >=? 0 then ret + sizeof_tipc_hdr else ret).

Definition tipc_send_data (fuel : nat) (local remote : Z) (cb : Z -> Z -> T Z) (data_len : Z) (wait : bool) : T Z :=
  r ← get_tx_buf fuel tx_buf wait;
  match r with
  | inl ret => mret ret
  | inr buf =>
      ret ← fill_tx_buf local remote cb data_len buf;
      on_vq TIPC_VQ_TX (vqueue_add_buf buf ret)
  end.

Definition tipc_send_buf (fuel : nat) (local remote : Z) (data : list Z) (wait : bool) : T Z :=
  tipc_send_data fuel local remote (_send_buf data) (Z.of_nat (length data)) wait.

Definition ctrl_msg (type : Z) (body : list Z) : list Z :=
  le_bytes 4 type ++ le_bytes 4 (Z.of_nat (length body)) ++ body.

Definition _go_online (fuel : nat) : T Z :=
  tipc_send_buf fuel TIPC_CTRL_ADDR TIPC_CTRL_ADDR (ctrl_msg TIPC_CTRL_MSGTYPE_GO_ONLINE []) true.

Definition send_conn_rsp (fuel : nat) (local remote status msg_sz msg_cnt : Z) : T Z :=
  tipc_send_buf fuel TIPC_CTRL_ADDR TIPC_CTRL_ADDR
    (ctrl_msg TIPC_CTRL_MSGTYPE_CONN_RSP
       (le_bytes 4 remote ++ le_bytes 4 status ++ le_bytes 4 local ++ le_bytes 4 msg_sz ++ le_bytes 4 msg_cnt)) true.

Definition send_disc_req (fuel : nat) (local remote : Z) : T Z :=
  tipc_send_buf fuel local TIPC_CTRL_ADDR (ctrl_msg TIPC_CTRL_MSGTYPE_DISC_REQ (le_bytes 4 remote)) true.

(** ** Receiving *)

(** [strncpy] from mapped memory: up to [n] bytes, the terminator not included. *)
Fixpoint ns_strncpy (n : nat) (a : Z) : T cstring :=
  match n with
  | O => mret []
  | S n' =>
      b ← shm_read 1 a;
      if b =? 0 then mret [] else l ← ns_strncpy n' (a + 1); mret (b :: l)
  end.

(** [handle_conn_req] up to the answer: the channel, if there is one, is in the
    table and on the list. *)
Definition conn_open (remote : Z) (name : cstring) : T (option Z) :=
  d ← get_dev;
  '(err, oc) ← on_k (ipc_port_connect_async (Some (td_uuid d)) name (Z.of_nat TIPC_MAX_SRV_NAME_LEN) 0);
  if negb (err =? NO_ERROR) then mret None
  else
    chan ← deref NullDeref oc;
    local ← alloc_local_addr remote chan;
    if local =? 0 then on_k (handle_close chan);; mret None
    else
      d ← get_dev;
      on_k (handle_set_cookie chan (match lookup_ept d local with Some slot => ept_ptr slot | None => 0 end));;
      on_k (handle_list_add (td_handle_list d) chan);;
      on_k (event_signal (td_have_handles d));;
      mret (Some local).

Definition handle_conn_req (fuel : nat) (remote ns_req : Z) : T Z :=
  name ← ns_strncpy TIPC_MAX_SRV_NAME_LEN ns_req;
  o ← conn_open remote name;
  match o with
  | Some _ => mret NO_ERROR
  | None => send_conn_rsp fuel 0 remote (u32 ERR_NO_RESOURCES) 0 0
  end.

Definition ept_has_remote (d : tipc_dev) (remote slot : Z) : bool :=
  match td_epts d !! Z.to_nat slot with Some e => e_remote e =? remote | None => false end.

(** The full search by remote address. *)
Definition find_remote (d : tipc_dev) (remote : Z) : option Z :=
  List.find (fun slot => bitmap_test (td_inuse d) slot && ept_has_remote d remote slot) (seqZ 0 TIPC_ADDR_MAX_NUM).

(** Which endpoint a disconnect request is for. *)
Definition disc_target (d : tipc_dev) (target remote : Z) : option Z :=
  match lookup_ept d target with
  | Some slot => if ept_has_remote d remote slot then Some slot else find_remote d remote
  | None => find_remote d remote
  end.

Definition disc_close (target remote : Z) : T unit :=
  d ← get_dev;
  match disc_target d target remote with
  | None => mret tt
  | Some slot =>
      e ← get_ept slot;
      match e_chan e with
      | Some chan => detach chan
      | None => mret tt
      end;;
      free_local_addr (slot_to_addr slot)
  end.

Definition handle_disc_req (remote ns_req : Z) : T Z :=
  target ← shm_read 4 ns_req;
  disc_close target remote;;
  mret NO_ERROR.

Definition handle_ctrl_msg (fuel : nat) (remote ns_data msg_len : Z) : T Z :=
  assert_ (negb (ns_data =? 0));;
  if msg_len <? sizeof_tipc_ctrl_msg_hdr then mret ERR_NOT_VALID
  else
    msg_type ← shm_read 4 ns_data;
    msg_body_len ← shm_read 4 (ns_data + 4);
    let ns_msg_body := ns_data + sizeof_tipc_ctrl_msg_hdr in
    if negb (u32 (sizeof_tipc_ctrl_msg_hdr + msg_body_len) =? msg_len) then mret ERR_NOT_VALID
    else if msg_type =? TIPC_CTRL_MSGTYPE_CONN_REQ then
      if negb (msg_body_len =? sizeof_tipc_conn_req_body) then mret ERR_NOT_VALID
      else handle_conn_req fuel remote ns_msg_body
    else if msg_type =? TIPC_CTRL_MSGTYPE_DISC_REQ then
      if negb (msg_body_len =? sizeof_tipc_disc_req_body) then mret ERR_NOT_VALID
      else handle_disc_req remote ns_msg_body
    else mret ERR_NOT_VALID.

Definition handle_chan_msg (remote local ns_data len : Z) : T Z :=
  let msg := IpcMsgKern 1 (Some [Iov ns_data len]) 0 in
  d ← get_dev;
  match lookup_ept d local with
  | Some slot =>
      e ← get_ept slot;
      if e_remote e =? remote then
        match e_chan e with
        | Some chan => with_kmem ns_data (Z.to_nat len) (ipc_send_msg chan (Some msg))
        | None => mret ERR_NOT_FOUND
        end
      else mret ERR_NOT_FOUND
  | None => mret ERR_NOT_FOUND
  end.

(** The mapped message. *)
Definition rx_dispatch (fuel : nat) (v : iovec_kern) : T Z :=
  if iov_len v <? sizeof_tipc_hdr then mret ERR_INVALID_ARGS
  else
    let ns_hdr := iov_base v in
    let ns_data := ns_hdr + sizeof_tipc_hdr in
    ns_data_len ← shm_read 2 (ns_hdr + 12);
    src_addr ← shm_read 4 ns_hdr;
    dst_addr ← shm_read 4 (ns_hdr + 4);
    if negb (ns_data_len + sizeof_tipc_hdr =? iov_len v) then mret ERR_INVALID_ARGS
    else if dst_addr =? TIPC_CTRL_ADDR then handle_ctrl_msg fuel src_addr ns_data ns_data_len
    else handle_chan_msg src_addr dst_addr ns_data ns_data_len.

Definition handle_rx_msg (fuel : nat) (buf : vqueue_buf) : T Z :=
  if vi_used (vb_in buf) =? 0 then mret ERR_INVALID_ARGS
  else
    '(ret, l) ← on_vq TIPC_VQ_RX (vqueue_map_iovs (vb_in buf));
    if negb (ret =? 0) then mret ret
    else
      v ← deref BadPointer (vi_iovs l !! 0%nat);
      ret ← rx_dispatch fuel v;
      on_vq TIPC_VQ_RX (vqueue_unmap_iovs l);;
      mret ret.

Definition rx_buf : vqueue_buf :=
  VqueueBuf 0 (VqueueIovs 1 0 0 [0] [Iov 0 0]) (VqueueIovs 0 0 0 [] []).

(** One round of the receiving thread; [None]: it ends. *)
Definition tipc_rx_round (fuel : nat) (buf : vqueue_buf) : T (option vqueue_buf) :=
  d ← get_dev;
  if td_rx_stop d then mret None
  else
    await;;
    '(ret, buf) ← on_vq TIPC_VQ_RX (vqueue_get_avail_buf buf);
    if ret =? ERR_CHANNEL_CLOSED then mret None
    else if ret =? ERR_NOT_ENOUGH_BUFFER then mret (Some buf)
    else
      ret ← (if ret =? NO_ERROR then handle_rx_msg fuel buf else mret ret);
      ret ← on_vq TIPC_VQ_RX (vqueue_add_buf buf ret);
      if ret =? ERR_CHANNEL_CLOSED then mret None
      else if negb (ret =? NO_ERROR) then raise Panicked
      else mret (Some buf).

(** ** Forwarding what apps send *)

Definition tx_data_cb (chan : href) (id : Z) (dst sz : Z) : T Z :=
  assert_ (negb (dst =? 0));;
  with_kmem dst (Z.to_nat sz) (ipc_read_msg chan id 0 (Some (IpcMsgKern 1 (Some [Iov dst sz]) 0))).

(** The loop of [handle_tx_msg], which ends when the queue is empty. *)
Fixpoint tx_msg_loop (n fuel : nat) (remote : Z) (chan : href) : T unit :=
  match n with
  | O => raise OutOfFuel
  | S n' =>
      '(ret, info) ← on_k (ipc_get_msg chan);
      if ret =? ERR_NO_MSG then mret tt
      else if negb (ret =? NO_ERROR) then raise Panicked
      else
        '(len, id) ← deref NullDeref info;
        (* local is still 0 *)
        tipc_send_data fuel 0 remote (tx_data_cb chan id) (u16 len) true;;
        on_k (ipc_put_msg chan id);;
        tx_msg_loop n' fuel remote chan
  end.

Definition handle_tx_msg (n fuel : nat) (chan : href) : T unit :=
  cookie ← on_k (handle_get_cookie chan);
  if cookie =? 0 then mret tt
  else
    e ← get_ept (cookie - 1);
    tx_msg_loop n fuel (e_remote e) chan.

(** [handle_hup] up to the message: the local and remote address if the channel
    still had an endpoint. *)
Definition hup_close (chan : href) : T (option (Z * Z)) :=
  cookie ← on_k (handle_get_cookie chan);
  if cookie =? 0 then mret None
  else
    e ← get_ept (cookie - 1);
    let local := slot_to_addr (cookie - 1) in
    detach chan;;
    free_local_addr local;;
    mret (Some (local, e_remote e)).

Definition handle_hup (fuel : nat) (chan : href) : T unit :=
  o ← hup_close chan;
  match o with
  | Some (local, remote) => send_disc_req fuel local remote;; mret tt
  | None => mret tt
  end.

Definition handle_ready (fuel : nat) (chan : href) : T unit :=
  cookie ← on_k (handle_get_cookie chan);
  if cookie =? 0 then mret tt
  else
    e ← get_ept (cookie - 1);
    send_conn_rsp fuel (slot_to_addr (cookie - 1)) (e_remote e) 0 IPC_CHAN_MAX_BUF_SIZE 1;;
    mret tt.

(** One round of [handle_tx]; [false]: no handles are left. *)
Definition handle_tx_round (n fuel : nat) : T bool :=
  '(ret, found) ← list_wait;
  if ret =? ERR_NOT_FOUND then mret false
  else if ret <? 0 then raise Panicked
  else
    '(chan, chan_event) ← deref AssertFailed found;
    x ← on_k (get_handle chan);
    assert_ (ipc_is_channel x);;
    (if has_flag chan_event IPC_HANDLE_POLL_READY then handle_ready fuel chan
     else if has_flag chan_event IPC_HANDLE_POLL_MSG then handle_tx_msg n fuel chan
     else if has_flag chan_event IPC_HANDLE_POLL_HUP then handle_hup fuel chan
     else mret tt);;
    on_k (handle_decref chan);;
    mret true.

(** ** Life cycle *)

(** The loop of [tipc_dev_reset] that closes all channels. *)
Definition reset_slot (slot : Z) : T unit :=
  d ← get_dev;
  if negb (bitmap_test (td_inuse d) slot) then mret tt
  else
    e ← get_ept slot;
    match e_chan e with
    | None => mret tt
    | Some chan => detach chan;; free_local_addr (slot_to_addr slot)
    end.

Definition close_all : T unit := mfor reset_slot (seqZ 0 TIPC_ADDR_MAX_NUM).

Definition tipc_dev_reset : T Z :=
  d ← get_dev;
  if bool_decide (td_state d = VDEV_STATE_RESET) then mret NO_ERROR
  else
    upd_dev (set_td_rx_stop true);;
    on_vq TIPC_VQ_RX vqueue_signal_avail;;
    rc ← join TIPC_VQ_RX;
    if negb (rc =? NO_ERROR) then raise Panicked
    else
      upd_dev (fun d => set_td_rx_stop false (set_td_threads false (td_tx_thread d) d));;
      upd_dev (set_td_tx_stop true);;
      close_all;;
      d ← get_dev;
      on_k (event_signal (td_have_handles d));;
      on_vq TIPC_VQ_TX vqueue_signal_avail;;
      rc ← join TIPC_VQ_TX;
      if negb (rc =? NO_ERROR) then raise Panicked
      else
        upd_dev (fun d => set_td_tx_stop false (set_td_threads (td_rx_thread d) false d));;
        on_vq TIPC_VQ_RX vqueue_destroy;;
        on_vq TIPC_VQ_TX vqueue_destroy;;
        upd_dev (set_td_state VDEV_STATE_RESET);;
        mret NO_ERROR.

Record fw_rsc_vdev_vring := FwVring { fv_da : Z; fv_align : Z; fv_num : Z; fv_notifyid : Z }.

(** [struct tipc_vdev_descr], the fields the device looks at. *)
Record tipc_vdev_descr := Descr {
  de_type : Z;
  de_id : Z;
  de_num_of_vrings : Z;
  de_status : Z;
  de_vring_tx : fw_rsc_vdev_vring;
  de_vring_rx : fw_rsc_vdev_vring;
}.

Definition VIRTIO_CONFIG_S_ACKNOWLEDGE : Z := 1.
Definition VIRTIO_CONFIG_S_DRIVER : Z := 2.
Definition VIRTIO_CONFIG_S_DRIVER_OK : Z := 4.

Definition validate_descr (de : tipc_vdev_descr) : Z :=
  if negb (de_type de =? RSC_VDEV) then ERR_INVALID_ARGS
  else if negb (de_id de =? VIRTIO_ID_TIPC) then ERR_INVALID_ARGS
  else if negb (de_num_of_vrings de =? TIPC_VQ_NUM) then ERR_INVALID_ARGS
  else if negb (de_status de =? Z.lor (Z.lor VIRTIO_CONFIG_S_ACKNOWLEDGE VIRTIO_CONFIG_S_DRIVER) VIRTIO_CONFIG_S_DRIVER_OK)
  then ERR_INVALID_ARGS
  else NO_ERROR.

(** [notify_cbs]: both only signal the queue; any address but 0 stands for one. *)
Definition init_vring (q : vq_sel) (vr : fw_rsc_vdev_vring) : T Z :=
  on_vq q (vqueue_init (fv_notifyid vr) (u32 (fv_da vr)) (fv_num vr) (fv_align vr) 1 1 0).

(** [thread_rx], [thread_tx]: the answers of [thread_create]. *)
Definition tipc_dev_probe (fuel : nat) (thread_rx thread_tx : bool) (de : tipc_vdev_descr) : T Z :=
  d ← get_dev;
  if negb (bool_decide (td_state d = VDEV_STATE_RESET)) then mret ERR_BAD_STATE
  else
    let ret := validate_descr de in
    if negb (ret =? NO_ERROR) then mret ret
    else
      ret ← init_vring TIPC_VQ_TX (de_vring_tx de);
      if negb (ret =? 0) then mret ret
      else
        ret ← init_vring TIPC_VQ_RX (de_vring_rx de);
        if negb (ret =? 0) then on_vq TIPC_VQ_TX vqueue_destroy;; mret ret
        else
          upd_dev (set_td_threads thread_rx thread_tx);;
          ret ← _go_online fuel;
          when (ret =? NO_ERROR) (upd_dev (set_td_state VDEV_STATE_ACTIVE));;
          mret ret.

Definition vqueue_notify (q : vq_sel) : T Z :=
  d ← get_dev;
  if vq_notify_cb (vq_get q d) =? 0 then mret 0
  else on_vq q vqueue_signal_avail;; mret 0.

Definition tipc_vdev_kick_vq (vqid : Z) : T Z :=
  d ← get_dev;
  if vqid =? vq_id (td_tx d) then vqueue_notify TIPC_VQ_TX
  else if vqid =? vq_id (td_rx d) then vqueue_notify TIPC_VQ_RX
  else mret ERR_NOT_FOUND.
End threads.
