(* ===== verification/TipcInv.v ===== *)
(** * The endpoints of the TIPC device and the kernel objects behind them

    The device is a client of the kernel's IPC interface: it owns one reference
    to the channel of every endpoint in use, keeps all of them on a handle list
    of its own, and finds the endpoint of a channel by the channel's cookie.
    Here: handle lists that belong to no app, cookies nobody else changes, and
    the invariant that ties the table of endpoints to both. *)

From stdpp Require Import base tactics list gmap.
From Stdlib Require Import ZArith Lia.
From S2P Require Import Prelude Bitmap Iovec MsgQueue Kernel Channel Handle Uctx Ipc IpcMsg IpcInv IpcSafe IpcCalls IpcSys IpcEnv IpcSystem IpcFrame Shm Vqueue Tipc.

(** ** Ghost references up to order *)

Lemma cnt_ext_elem h l l' : (forall x, cnt x l' = cnt x l) -> h ∈ l' -> h ∈ l.
Proof. intros E. rewrite !cnt_elem. by rewrite E. Qed.

Lemma Inv_cnt g g' s :
  g_ov g' = g_ov g -> (forall h, cnt h (g_own g') = cnt h (g_own g)) -> (forall h, cnt h (g_bor g') = cnt h (g_bor g)) ->
  Inv g s -> Inv g' s.
Proof.
  intros Eov Eo Eb HI. assert (forall c ch, owned (has_uctx s) g c ch -> owned (has_uctx s) g' c ch) as Hown.
  { intros c ch [?|[Hin|[?|[r ?]]]]; unfold owned; [by auto| |by auto|right; right; right; exists r; by rewrite Eov].
    right. left. eapply cnt_ext_elem; [intros x; symmetry; apply Eo|done]. }
  assert (forall c, pinned g c -> pinned g' c) as Hpin by (intros c [r ?]; exists r; by rewrite Eov).
  destruct HI as [Hch Hpt Hrefs Hovs Hheld Hpeer Hpend Hwait Hplist Hext Hfresh Htabs]. split; try done.
  - intros c ch Hc. destruct (Hch c ch Hc) as [H1 H2 H3 H4 H5 H6 H7]. split; try done.
    + by rewrite Eo, Eb.
    + intros Hp. destruct (H3 Hp). auto.
    + unfold state_ok in *. destruct (c_state ch); try done. destruct H4 as [? [?|?]]; auto.
    + auto.
  - intros p pt Hp. destruct (Hpt p pt Hp) as [H1 H2 H3 H4 H5]. split; try done. by rewrite Eo, Eb.
  - intros r. rewrite Hrefs. unfold ref_of. by rewrite Eov.
  - intros r c. rewrite Eov. apply Hovs.
  - intros h Hin. apply Hext. apply elem_of_app. apply elem_of_app in Hin as [H|H]; [left|right]; by (eapply cnt_ext_elem; [|exact H]).
Qed.

(** ** Handle lists of no app *)

Lemma tabs_link hl A H l h hs hs' (o : option Z) :
  tabs_ok hl A H -> A !! l = None -> H !! l = Some hs -> NoDup (hl_handles hs') ->
  hl h = None \/ hl h = Some l -> o = None \/ o = Some l ->
  (forall h', h' ∈ hl_handles hs' <-> (if decide (h' = h) then o else hl h') = Some l) ->
  tabs_ok (fun h' => if decide (h' = h) then o else hl h') A (<[l := hs']> H).
Proof.
  intros [T1 T2 T3 T4] Ha Hl Hnd Hh Ho Hin. split.
  - intros l' x. destruct (decide (l' = l)) as [->|Hne]; [rewrite lookup_insert_eq; by intros [= <-]|].
    rewrite lookup_insert_ne by done. apply T1.
  - intros l' x h'. destruct (decide (l' = l)) as [->|Hne]; [rewrite lookup_insert_eq; intros [= <-]; apply Hin|].
    rewrite lookup_insert_ne by done. intros Hx. rewrite (T2 _ _ _ Hx). destruct (decide (h' = h)) as [->|]; [|done].
    split; intros E; exfalso; [destruct Hh|destruct Ho]; congruence.
  - intros h' l' Hl'. rewrite lookup_insert_is_Some. destruct (decide (l = l')) as [|Hne]; [by left|right]. split; [done|].
    apply (T3 h'). destruct (decide (h' = h)) as [->|]; [|done]. destruct Ho; congruence.
  - intros a x u Hx Hu. destruct (T4 a x u Hx Hu) as (? & ? & Htab). assert (a <> l) by congruence. split; [done|].
    split; [by rewrite lookup_insert_ne by done|]. intros h'. rewrite <- Htab. destruct (decide (h' = h)) as [->|]; [|done].
    split; intros E; exfalso; [destruct Ho|destruct Hh]; congruence.
Qed.

Section dev_list.
Context (l : Z) (hs : handle_list).

Lemma no_uctx s : k_apps s !! l = None -> has_uctx s l = false.
Proof. intros E. unfold has_uctx. rewrite E. by apply bool_decide_eq_false_2, is_Some_None. Qed.

(** Ownership that does not come from a table survives a change of lists. *)
Lemma owned_relist g s h y y' :
  Inv g s -> hview s h = Some y -> k_apps s !! l = None -> h_hlist y = None \/ h_hlist y = Some l -> owned_as s g h y'.
Proof.
  intros HI Hy Ha Hh c ch -> Hc Hs. cbn in Hy. rewrite Hc in Hy. cbn in Hy. simplify_eq.
  destruct (i_chan g s HI c ch Hc) as [H1 H2 H3 H4 H5 H6 H7].
  assert (owned (has_uctx s) g c ch) as Ho by (destruct Hs as [Hs|Hs]; [by apply H3|by apply H7]).
  unfold owned, pinned in *. cbn. destruct Ho as [?|[?|[(l' & E & Hu)|?]]]; [by auto|by auto| |by auto].
  exfalso. destruct Hh as [Hn|Hn]; rewrite Hn in E; [done|]. injection E as <-. by rewrite (no_uctx s Ha) in Hu.
Qed.

Lemma Inv_list_add g s h y :
  Inv g s -> hview s h = Some y -> 0 < h_refcnt y -> h_hlist y = None -> k_hlists s !! l = Some hs -> k_apps s !! l = None ->
  Inv g (set_handle h (linked l y) (put_hlist l (set_hl_handles (hl_handles hs ++ [h]) hs) s)).
Proof.
  intros HI Hy Hr Hn Hl Ha. pose proof (i_tabs g s HI) as HT.
  assert (hl_of s h = None) as Hh by (unfold hl_of; by rewrite Hy).
  assert (Inv g (set_handle h (linked l y) (set_k_hlists (<[l := set_hl_handles (hl_handles hs ++ [h]) hs]> (k_hlists s)) (set_k_apps (k_apps s) s)))) as H;
    [|by destruct s].
  eapply Inv_rehandle; try done.
  - cbn. lia.
  - unfold other_refs, linked. cbn. rewrite Hn. cbn. rewrite (no_uctx s Ha). lia.
  - eapply owned_relist; [done|done|done|by left].
  - eapply tabs_link; [done|done|done| |by left|by right|].
    + cbn. apply NoDup_app. split; [by eapply ta_nodup|]. split; [|by apply NoDup_singleton].
      intros z Hz ->%list_elem_of_singleton. apply (ta_list _ _ _ HT l hs) in Hz; [|done]. congruence.
    + intros h'. cbn. rewrite elem_of_app, list_elem_of_singleton, (ta_list _ _ _ HT l hs h' Hl). destruct (decide _); naive_solver.
Qed.

Lemma Inv_list_del g s h y :
  Inv g s -> hview s h = Some y -> h_hlist y = Some l -> h ∈ g_own g -> k_hlists s !! l = Some hs -> k_apps s !! l = None ->
  Inv (g_bor1 h g) (set_handle h (unlinked y) (put_hlist l (set_hl_handles (hlist_unlink h (hl_handles hs)) hs) s)).
Proof.
  intros HI Hy Hn Hin Hl Ha. pose proof (i_tabs g s HI) as HT.
  assert (0 < h_refcnt y) as Hr by (apply (live_refcnt g s h y); [done..|right; by rewrite Hn]).
  assert (hl_of s h = Some l) as Hh by (unfold hl_of; by rewrite Hy).
  assert (Inv (g_bor1 h g) (set_handle h (unlinked y) (set_k_hlists (<[l := set_hl_handles (hlist_unlink h (hl_handles hs)) hs]> (k_hlists s)) (set_k_apps (k_apps s) s)))) as H;
    [|by destruct s].
  eapply Inv_rehandle; try done.
  - split; [done|]. cbn. intros h' Hne. destruct (decide _); [congruence|lia].
  - unfold other_refs, unlinked. cbn. rewrite Hn. cbn. rewrite (no_uctx s Ha). destruct (decide _); [lia|done].
  - intros c ch -> Hc _. right; left. done.
  - eapply tabs_link; [done|done|done|cbn; apply NoDup_filter; by eapply ta_nodup|by right|by left|].
    intros h'. cbn. rewrite hlist_unlink_elem, (ta_list _ _ _ HT l hs h' Hl). destruct (decide _); naive_solver.
Qed.

(** [handle_list_add] and [handle_list_del], also while somebody waits. *)
Lemma dev_list_add g s h y :
  Inv g s -> hview s h = Some y -> 0 < h_refcnt y -> h_hlist y = None -> k_hlists s !! l = Some hs -> k_apps s !! l = None ->
  exists s', handle_list_add l h s = Ret tt s' /\ Inv g s' /\ k_apps s' = k_apps s /\
    k_hlists s' = <[l := set_hl_handles (hl_handles hs ++ [h]) hs]> (k_hlists s).
Proof.
  intros HI Hy Hr Hn Hl Ha. pose proof (Inv_list_add g s h y HI Hy Hr Hn Hl Ha) as HI1.
  rewrite (handle_list_add_run s l h y hs Hy Hn Hl). set (s1 := set_handle h _ _) in *.
  destruct (set_handle_rest (put_hlist l (set_hl_handles (hl_handles hs ++ [h]) hs) s) h (linked l y)) as (Ea & Eh & _).
  destruct (hl_wait_event hs) as [ev|]; [|by exists s1].
  assert (hview s1 h = Some (linked l y)) as Hv.
  { unfold s1. rewrite (hview_set_handle _ _ _ y); [by rewrite decide_True|]. by destruct h. }
  destruct (list_add_waiter g s1 h (linked l y) ev HI1 Hv) as (s2 & x' & e & R & HI2 & E2); [cbn; lia|].
  exists s2. split; [done|]. split; [done|]. destruct (set_handle_rest s1 h x') as (Ea' & Eh' & _). rewrite E2. cbn.
  rewrite Ea', Eh'. unfold s1. by rewrite Ea, Eh.
Qed.

Lemma dev_list_del g s h y :
  Inv g s -> hview s h = Some y -> h_hlist y = Some l -> h ∈ g_own g -> k_hlists s !! l = Some hs -> k_apps s !! l = None ->
  exists s', handle_list_del l h s = Ret tt s' /\ Inv g s' /\ k_apps s' = k_apps s /\
    k_hlists s' = <[l := set_hl_handles (hlist_unlink h (hl_handles hs)) hs]> (k_hlists s).
Proof.
  intros HI Hy Hn Hin Hl Ha. pose proof (Inv_list_del g s h y HI Hy Hn Hin Hl Ha) as HI2.
  assert (0 < h_refcnt y) as Hr by (apply (live_refcnt g s h y); [done..|right; by rewrite Hn]).
  unfold handle_list_del, handle_list_del_locked. rewrite (run_bind _ _ _ _ _ (get_handle_run _ _ _ Hy)).
  unfold assert_ at 1. rewrite Hn, bool_decide_eq_true_2 by done. rewrite (run_bind _ _ _ tt s) by done.
  rewrite (run_bind _ _ _ _ _ (upd_hlist_run _ _ _ _ Hl)). set (s1 := put_hlist l _ _) in *.
  assert (hview s1 h = Some y) as Hy1 by (by destruct h). rewrite (run_bind _ _ _ _ _ (upd_handle_run _ _ _ _ Hy1)).
  fold (unlinked y). set (s2 := set_handle h _ s1) in *. destruct (set_handle_rest s1 h (unlinked y)) as (Ea & Eh & _).
  assert (hview s2 h = Some (unlinked y)) as Hv2 by (unfold s2; by rewrite (hview_set_handle _ _ _ y), decide_True by done).
  assert (k_hlists s2 !! l = Some (set_hl_handles (hlist_unlink h (hl_handles hs)) hs)) as Hl2.
  { unfold s2. rewrite Eh. cbn. by rewrite lookup_insert_eq. }
  rewrite (run_bind _ _ _ _ _ (get_hlist_run _ _ _ Hl2)). cbn [hl_wait_event set_hl_handles hl_handles].
  destruct (list_del_waiter _ s2 h (unlinked y) (hl_wait_event hs) (hlist_unlink h (hl_handles hs)) HI2 Hv2 Hr) as (s3 & R3 & HI3 & F3 & _).
  unfold list_del_tail in R3. rewrite (run_bind _ _ _ _ _ R3). destruct (handle_decref_spec _ s3 h HI3) as (s4 & R4 & HI4 & F4).
  exists s4. rewrite R4. split; [done|]. split; [done|].
  destruct F4 as (-> & -> & _), F3 as (-> & -> & _). unfold s2. by rewrite Ea, Eh.
Qed.
End dev_list.

(** ** Cookies *)

(** The cookies [J] says the channels have; they are client ends. *)
Definition Marked (J : gmap Z Z) (s : kstate) : Prop :=
  forall c v, J !! c = Some v -> c < k_next s /\
    forall ch, k_chans s !! c = Some ch -> h_cookie (c_handle ch) = v /\ has_flag (c_flags ch) IPC_CHAN_FLAG_SERVER = false.

Section marked.
Context (J : gmap Z Z).
Local Abbreviation keeps m := (pres (Marked J) m (fun _ => True)).

Lemma marked_put_chan s c ch :
  (forall v, J !! c = Some v -> h_cookie (c_handle ch) = v /\ has_flag (c_flags ch) IPC_CHAN_FLAG_SERVER = false) ->
  Marked J s -> Marked J (put_chan c ch s).
Proof.
  intros Hc HM c' v HJ. destruct (HM c' v HJ) as [Hlt Hv]. split; [done|]. cbn. intros ch'.
  destruct (decide (c' = c)) as [->|]; [rewrite lookup_insert_eq; intros [= <-]; by apply Hc|].
  rewrite lookup_insert_ne by done. apply Hv.
Qed.

Lemma marked_upd_chan c f :
  (forall ch v, J !! c = Some v -> h_cookie (c_handle ch) = v /\ has_flag (c_flags ch) IPC_CHAN_FLAG_SERVER = false ->
     h_cookie (c_handle (f ch)) = v /\ has_flag (c_flags (f ch)) IPC_CHAN_FLAG_SERVER = false) -> keeps (upd_chan c f).
Proof.
  intros Hf s [] s' HM. unfold upd_chan, get_chan, mbind, M_bind, get, deref, modify.
  destruct (k_chans s !! c) as [ch|] eqn:Hc; [|done]. cbn. intros [= <-]. split; [|done].
  apply marked_put_chan; [|done]. intros v HJ. apply Hf; [done|]. by apply (HM c v HJ).
Qed.

Lemma marked_is_keeper : Keeper any_list (Marked J).
Proof.
  split.
  - intros c f Hf. apply marked_upd_chan. intros ch v _. by destruct (Hf ch) as (_ & -> & ->).
  - intros p f _ s [] s' HM. unfold upd_port, get_port, mbind, M_bind, get, deref, modify.
    destruct (k_ports s !! p) as [pt|]; [|done]. cbn. by intros [= <-].
  - intros s s' _ Ec _ _ En HM c v HJ. rewrite En, Ec. by apply HM.
  - intros l f _. by apply pres_upd_hlist.
  - intros s c HM c' v HJ. destruct (HM c' v HJ) as [? Hv]. split; [done|]. cbn. intros ch [_ Hd]%lookup_delete_Some. auto.
  - intros s p HM. exact HM.
Qed.

#[export] Instance marked_keeper : SysKeeper any_list (fun c => J !! c = None) (Marked J).
Proof.
  split.
  - apply marked_is_keeper.
  - intros s m HM. exact HM.
  - intros s c s' HM. unfold fresh_addr, mbind, M_bind, get, modify. cbn. intros [= <- <-]. split.
    + intros c v HJ. destruct (HM c v HJ) as [? Hv]. cbn. split; [lia|done].
    + destruct (J !! k_next s) eqn:E; [|done]. apply HM in E as [? _]. lia.
  - intros s c ch Hc. apply marked_put_chan. intros v. congruence.
  - intros s p pt HM. exact HM.
  - intros s c ch HM Hc Hf. destruct (J !! c) as [v|] eqn:E; [|done]. destruct (HM c v E) as [_ H]. destruct (H ch Hc). congruence.
Qed.

Lemma mk_set_cookie c v : J !! c = Some v \/ J !! c = None -> keeps (handle_set_cookie (HChan c) v).
Proof. intros Hc. apply marked_upd_chan. intros ch w Hw [_ Hfl]. split; [|done]. destruct Hc; cbn; congruence. Qed.
End marked.
#[export] Hint Resolve marked_is_keeper marked_keeper fr_port_attach : pres.

(** A new client has cookie 0. *)
Lemma chan_alloc_marked k u r c k' : chan_alloc 0 u r k = Ret (Some c) k' -> Marked {[c := 0]} k'.
Proof.
  unfold chan_alloc, mbind, M_bind. destruct (kmalloc k) as [[] k1|]; [|done..]. cbn. intros [= <- <-].
  intros c' v [<- <-]%lookup_singleton_Some. cbn. split; [lia|]. intros ch. rewrite lookup_insert_eq. by intros [= <-].
Qed.

Lemma mk_client_handle J c : J !! c = Some 0 -> pres (Marked J) (chan_handle_init c) (fun h => h = HChan c).
Proof.
  intros Hc. unfold chan_handle_init, handle_init. eapply pres_bind; [apply marked_upd_chan|].
  - intros ch v Hv [_ Hfl]. split; [cbn; congruence|done].
  - intros _ _. eapply pres_bind; [eauto with pres|]. intros _ _. by apply pres_ret.
Qed.

Lemma connect_async_marked k uuid path mx fl ret h k' :
  ipc_port_connect_async (Some uuid) path mx fl k = Ret (ret, Some h) k' -> exists c, h = HChan c /\ Marked {[c := 0]} k'.
Proof.
  unfold ipc_port_connect_async. destruct (_ || _); [done|]. unfold mbind at 1, M_bind at 1.
  destruct (chan_alloc _ _ _ k) as [[c|] k1|] eqn:Ea; [|done..].
  assert (Marked {[c := 0]} k1) as HM by (by eapply chan_alloc_marked).
  match goal with |- ?m k1 = _ -> _ => assert (pres (Marked {[c := 0]}) m (fun r => forall h, r.2 = Some h -> h = HChan c)) as Hp end.
  { eapply pres_bind; [eauto with pres|]. intros op _. eapply (pres_bind _ _ _ (fun _ => True)); [pres_auto|]. intros r _.
    destruct (negb _); [eapply pres_bind; [eauto with pres|]; intros _ _; by apply pres_ret|].
    eapply pres_bind; [apply (mk_client_handle {[c := 0]} c), lookup_singleton_eq|]. intros h' ->. cbn beta.
    eapply pres_bind; [eauto with pres|]. intros _ _. apply pres_ret. by intros ? [= <-]. }
  intros E. destruct (Hp k1 _ k' HM E) as [HM' Hh]. exists c. split; [by apply Hh|done].
Qed.

(** A handle list nobody but its owner changes. *)
#[export] Instance hlist_keeper l o : SysKeeper (fun l' => l' <> l) (fun _ => True) (fun s => k_hlists s !! l = o).
Proof.
  split.
  - split.
    + intros c f _ s [] s' HE. unfold upd_chan, get_chan, mbind, M_bind, get, deref, modify.
      destruct (k_chans s !! c) as [ch|]; [|done]. cbn. by intros [= <-].
    + intros p f _ s [] s' HE. unfold upd_port, get_port, mbind, M_bind, get, deref, modify.
      destruct (k_ports s !! p) as [ch|]; [|done]. cbn. by intros [= <-].
    + intros s s' _ _ _ El _ HE. by rewrite El.
    + intros l' f Hl. apply pres_upd_hlist. intros s x _ HE. cbn. by rewrite lookup_insert_ne.
    + done.
    + done.
  - done.
  - intros s c s' HE [= <- <-]. done.
  - done.
  - done.
  - done.
Qed.

(** ** The invariant of the device *)

Definition ept_chans (es : list tipc_ept) : list href := omap e_chan es.

(** The device owns the references [hs] on top of [g]. *)
Definition own_all (hs : list href) (g : ghost) : ghost := Ghost (g_ov g) (hs ++ g_own g) (g_bor g).

Definition in_table (d : tipc_dev) (i : nat) (h : href) : Prop :=
  exists e, td_epts d !! i = Some e /\ e_chan e = Some h.

(** The device [d] over the kernel objects [k]: a slot is marked in use exactly
    when it has a channel, whose cookie points back at it; the handle list holds
    exactly the channels of the table; and the device has one reference to each. *)
Record tipc_ok (g : ghost) (d : tipc_dev) (k : kstate) : Prop := {
  to_ov : g_ov g = ∅;
  to_len : length (td_epts d) = 256%nat;
  to_bm : bm_ok 8 (td_inuse d);
  to_inuse : forall i, 0 <= i < 256 -> bitmap_test (td_inuse d) i = true <-> exists h, in_table d (Z.to_nat i) h;
  to_chan : forall i h, in_table d i h -> exists c, h = HChan c /\ Marked {[c := ept_ptr (Z.of_nat i)]} k;
  to_list : exists hl, k_hlists k !! td_handle_list d = Some hl /\ forall h, h ∈ hl_handles hl <-> exists i, in_table d i h;
  to_app : k_apps k !! td_handle_list d = None;
  to_inv : Inv (own_all (ept_chans (td_epts d)) g) k;
}.

Definition tipc_inv (g : ghost) (s : tstate) : Prop := tipc_ok g (ts_dev (v_dev s)) (ts_k (v_dev s)).

(** *** Counting the references of the table *)

Definition cnt1 (h : href) (o : option href) : Z := match o with Some x => cnt h [x] | None => 0 end.

Lemma cnt_ept_chans_cons h e es : cnt h (ept_chans (e :: es)) = cnt1 h (e_chan e) + cnt h (ept_chans es).
Proof. unfold ept_chans. cbn. destruct (e_chan e); cbn; lia. Qed.

Lemma cnt_ept_insert h es i e e' :
  es !! i = Some e -> cnt h (ept_chans (<[i := e']> es)) + cnt1 h (e_chan e) = cnt h (ept_chans es) + cnt1 h (e_chan e').
Proof.
  revert i. induction es as [|x es IH]; intros [|i] Hi; [done..| |].
  - injection Hi as ->. change (<[0%nat := e']> (e :: es)) with (e' :: es). rewrite !cnt_ept_chans_cons. lia.
  - change (<[S i := e']> (x :: es)) with (x :: <[i := e']> es). rewrite !cnt_ept_chans_cons. specialize (IH i Hi). lia.
Qed.

Lemma in_table_own g d i h : in_table d i h -> h ∈ g_own (own_all (ept_chans (td_epts d)) g).
Proof.
  intros (e & He & Hc). apply elem_of_app. left. apply list_elem_of_omap. exists e. split; [|done]. by eapply list_elem_of_lookup_2.
Qed.

(** A channel of the table is alive, on the device's list and has its cookie. *)
Lemma in_table_view g d k i h : tipc_ok g d k -> in_table d i h ->
  exists c ch, h = HChan c /\ k_chans k !! c = Some ch /\ h_hlist (c_handle ch) = Some (td_handle_list d) /\
    h_cookie (c_handle ch) = ept_ptr (Z.of_nat i).
Proof.
  intros HO Hin. destruct (to_chan g d k HO i h Hin) as (c & -> & HM). pose proof (to_inv g d k HO) as HI.
  destruct (i_ext _ k HI (HChan c)) as [y Hy]; [apply elem_of_app; left; by eapply in_table_own|]. cbn in Hy.
  destruct (k_chans k !! c) as [ch|] eqn:Hc; [|done]. exists c, ch. split_and!; [done..| |].
  - destruct (to_list g d k HO) as (hl & Hl & Hm). assert (HChan c ∈ hl_handles hl) as He by (apply Hm; eauto).
    apply (ta_list _ _ _ (i_tabs _ k HI) _ _ _ Hl) in He. unfold hl_of in He. cbn in He. by rewrite Hc in He.
  - destruct (HM c (ept_ptr (Z.of_nat i))) as [_ H]; [apply lookup_singleton_eq|]. by apply H.
Qed.

Lemma in_table_inj g d k i j h : tipc_ok g d k -> in_table d i h -> in_table d j h -> i = j.
Proof.
  intros HO Hi Hj. destruct (in_table_view g d k i h HO Hi) as (c & ch & -> & Hc & _ & E1).
  destruct (in_table_view g d k j _ HO Hj) as (c' & ch' & [= <-] & Hc' & _ & E2). simplify_eq. unfold ept_ptr in *. lia.
Qed.

(** What other routines may do to the kernel objects. *)
Definition kept_by (k k' : kstate) : Prop :=
  k_apps k' = k_apps k /\ k_hlists k' = k_hlists k /\ forall J, Marked J k -> Marked J k'.

Lemma tipc_ok_frame g g' d k k' :
  kept_by k k' -> g_ov g' = ∅ -> Inv (own_all (ept_chans (td_epts d)) g') k' -> tipc_ok g d k -> tipc_ok g' d k'.
Proof.
  intros (Ea & El & HM) Hov HI' [H1 H2 H3 H4 H5 H6 H7 H8]. split; rewrite ?El, ?Ea; try done.
  intros i h Hin. destruct (H5 i h Hin) as (c & -> & Hc). eauto.
Qed.

(** A slot is filled or emptied. *)
Lemma in_table_insert d i e j h bm : (i < length (td_epts d))%nat ->
  in_table (set_td_table (<[i := e]> (td_epts d)) bm d) j h <-> (j = i /\ e_chan e = Some h) \/ (j <> i /\ in_table d j h).
Proof.
  intros Hi. unfold in_table. cbn. split.
  - intros (e' & He & Hc). apply list_lookup_insert_Some in He as [(-> & <- & _)|[? ?]]; [by left|right]. eauto.
  - intros [[-> Hc]|[Hne (e' & He & Hc)]]; [exists e; by rewrite list_lookup_insert_eq|]. exists e'. by rewrite list_lookup_insert_ne.
Qed.
