(* ===== verification/TipcSafe.v ===== *)
(** * The routines of the TIPC device keep its invariant

    Opening and closing connections on request of the non-secure side, closing
    them when the app hangs up, closing all of them on reset, and forwarding
    messages: each, started in a state that satisfies the invariant, runs to its
    end and leaves the invariant. *)

From stdpp Require Import base tactics list gmap.
From Stdlib Require Import ZArith Lia.
From S2P Require Import Prelude Bitmap Iovec MsgQueue Kernel Channel Handle Uctx Ipc IpcMsg IpcInv IpcSafe IpcCalls IpcSys IpcEnv IpcSystem IpcFrame Shm Vqueue Tipc TipcInv.

Lemma wp_on_k {A} (m : K A) (Q : A -> tstate -> Prop) s :
  wp m (fun a k => Q a (set_k k s)) (ts_k (v_dev s)) -> wp (on_k m) Q s.
Proof. unfold wp, on_k. by destruct (m (ts_k (v_dev s))). Qed.

Lemma wp_on_k_run {A} (m : K A) (Q : A -> tstate -> Prop) s a k :
  m (ts_k (v_dev s)) = Ret a k -> Q a (set_k k s) -> wp (on_k m) Q s.
Proof. intros E H. apply wp_on_k. unfold wp. by rewrite E. Qed.

Lemma wp_get_dev (Q : tipc_dev -> tstate -> Prop) s : Q (ts_dev (v_dev s)) s -> wp get_dev Q s.
Proof. done. Qed.

(** The end of a longer sequence. *)
Lemma wp_seq {S A B C} (m : M S A) (n : M S B) (k : M S C) (P : B -> S -> Prop) (Q : C -> S -> Prop) s :
  wp (m;; n) P s -> (forall b s', P b s' -> wp k Q s') -> wp (m;; n;; k) Q s.
Proof. unfold wp, mbind, M_bind. destruct (m s) as [a s1|]; [|done]. destruct (n s1); [|done]. intros HP HQ. by eapply HQ. Qed.

(** ** Slots *)

Lemma slot_addr i : 0 <= i < 256 -> slot_to_addr i = i + 1000 /\ addr_to_slot (slot_to_addr i) = i.
Proof.
  intros Hi. unfold slot_to_addr, addr_to_slot, TIPC_ADDR_BASE, u32. rewrite (Z.mod_small (i + 1000)) by lia.
  split; [done|]. rewrite Z.mod_small; lia.
Qed.

Lemma lookup_ept_slot g d k local slot :
  tipc_ok g d k -> lookup_ept d local = Some slot -> 0 <= slot < 256 /\ exists h, in_table d (Z.to_nat slot) h.
Proof.
  intros HO. unfold lookup_ept, TIPC_ADDR_MAX_NUM. destruct (_ && _) eqn:E; [|done]. intros [= <-].
  apply andb_true_iff in E as [Hlt%Z.ltb_lt Ht]. assert (0 <= addr_to_slot local) by (apply u32_bound).
  split; [done|]. by apply (to_inuse g d k HO).
Qed.

(** [k'] differs from [k] in the cookie of [c] at most. *)
Definition marks_but (c : Z) (k k' : kstate) : Prop := forall J, J !! c = None -> Marked J k -> Marked J k'.

Lemma marks_but_trans c k1 k2 k3 : marks_but c k1 k2 -> marks_but c k2 k3 -> marks_but c k1 k3.
Proof. intros H1 H2 J HJ HM. auto. Qed.

Lemma pres_marks {A} (m : K A) k a k' : (forall J, pres (Marked J) m (fun _ => True)) -> m k = Ret a k' ->
  forall J, Marked J k -> Marked J k'.
Proof. intros Hp E J HM. by apply (Hp J k a k'). Qed.

Lemma set_cookie_marks c v k k' : handle_set_cookie (HChan c) v k = Ret tt k' -> marks_but c k k'.
Proof. intros E J HJ HM. by destruct (mk_set_cookie J c v (or_intror HJ) k tt k' HM E). Qed.

(** The cookie just set. *)
Lemma set_cookie_marked c w v k k' : Marked {[c := w]} k -> handle_set_cookie (HChan c) v k = Ret tt k' -> Marked {[c := v]} k'.
Proof.
  intros HM. destruct (HM c w) as [Hlt Hc]; [apply lookup_singleton_eq|].
  unfold handle_set_cookie, upd_handle, upd_chan, get_chan, mbind, M_bind, get, deref, modify.
  destruct (k_chans k !! c) as [ch|]; [|done]. cbn. intros [= <-]. destruct (Hc ch eq_refl) as [_ Hfl].
  intros c' w' [<- <-]%lookup_singleton_Some. split; [done|]. cbn. intros ch'. rewrite lookup_insert_eq. by intros [= <-].
Qed.

(** ** Filling and clearing a slot *)

Section slots.
Context (g : ghost) (d : tipc_dev) (k k' : kstate) (c : Z).
Context (HO : tipc_ok g d k) (Hmk : marks_but c k k') (Ha : k_apps k' = k_apps k).

Lemma tipc_ok_fill i r hl :
  0 <= i < 256 -> bitmap_test (td_inuse d) i = false -> (forall j, ~ in_table d j (HChan c)) ->
  Marked {[c := ept_ptr i]} k' -> k_hlists k !! td_handle_list d = Some hl ->
  k_hlists k' = <[td_handle_list d := set_hl_handles (hl_handles hl ++ [HChan c]) hl]> (k_hlists k) ->
  Inv (g_own1 (HChan c) (own_all (ept_chans (td_epts d)) g)) k' ->
  tipc_ok g (set_td_table (<[Z.to_nat i := Ept r (Some (HChan c))]> (td_epts d)) (bitmap_set (td_inuse d) i) d) k'.
Proof.
  intros Hi Hf Hnew Hc Hl Hl' HI. pose proof HO as [H1 H2 H3 H4 H5 H6 H7 H8].
  assert (Z.to_nat i < length (td_epts d))%nat as Hlt by (rewrite H2; lia).
  pose proof (in_table_insert d (Z.to_nat i) (Ept r (Some (HChan c)))) as Hins.
  assert (forall h, ~ in_table d (Z.to_nat i) h) as Hno.
  { intros h Hh. assert (bitmap_test (td_inuse d) i = true) by (apply H4; eauto). congruence. }
  split; try done.
  - cbn. by rewrite length_insert.
  - cbn. apply bitmap_set_ok; [lia|done].
  - intros j Hj. cbn [td_inuse set_td_table]. rewrite (bitmap_test_set 8) by done. destruct (Z.eqb_spec j i) as [->|Hne].
    + split; [|done]. intros _. exists (HChan c). apply Hins; [done|]. by left.
    + rewrite H4 by done. apply exist_proper. intros h. rewrite Hins by done.
      assert (Z.to_nat j <> Z.to_nat i) by lia. tauto.
  - intros j h. rewrite Hins by done. intros [[-> [= <-]]|[_ Hin]].
    + exists c. split; [done|]. by rewrite Z2Nat.id by lia.
    + destruct (H5 j h Hin) as (c' & -> & HM). exists c'. split; [done|]. apply Hmk; [|done]. apply lookup_singleton_ne.
      intros ->. by apply (Hnew j).
  - destruct H6 as (hl0 & Hl0 & Hm). cbn [td_handle_list set_td_table]. rewrite Hl0 in Hl. simplify_eq. eexists.
    split; [rewrite Hl'; apply lookup_insert_eq|]. intros h. cbn [hl_handles set_hl_handles].
    rewrite elem_of_app, list_elem_of_singleton, Hm. setoid_rewrite Hins; [|done].
    split; [intros [(j & Hj)| ->]|intros (j & [[-> [= <-]]|[_ Hj]])]; [|by eauto|by right|by eauto].
    exists j. right. split; [|done]. intros ->. by eapply Hno.
  - cbn. by rewrite Ha.
  - refine (Inv_cnt _ _ k' _ _ _ HI); [done| |done]. intros h. cbn -[ept_chans].
    destruct (lookup_lt_is_Some_2 (td_epts d) (Z.to_nat i) Hlt) as [e He].
    pose proof (cnt_ept_insert h (td_epts d) (Z.to_nat i) e (Ept r (Some (HChan c))) He) as Hc'. rewrite !cnt_app.
    destruct (e_chan e) as [x|] eqn:Ec; [exfalso; apply (Hno x); by exists e|]. cbn -[ept_chans] in Hc'. lia.
Qed.

Lemma tipc_ok_clear i hl :
  0 <= i < 256 -> in_table d (Z.to_nat i) (HChan c) -> k_hlists k !! td_handle_list d = Some hl ->
  k_hlists k' = <[td_handle_list d := set_hl_handles (hlist_unlink (HChan c) (hl_handles hl)) hl]> (k_hlists k) ->
  Inv (own_all (ept_chans (<[Z.to_nat i := Ept 0 None]> (td_epts d))) g) k' ->
  tipc_ok g (set_td_table (<[Z.to_nat i := Ept 0 None]> (td_epts d)) (bitmap_clear (td_inuse d) i) d) k'.
Proof.
  intros Hi Hin Hl Hl' HI. pose proof HO as [H1 H2 H3 H4 H5 H6 H7 H8].
  assert (Z.to_nat i < length (td_epts d))%nat as Hlt by (rewrite H2; lia).
  pose proof (in_table_insert d (Z.to_nat i) (Ept 0 None)) as Hins.
  assert (forall j h, in_table (set_td_table (<[Z.to_nat i := Ept 0 None]> (td_epts d)) (bitmap_clear (td_inuse d) i) d) j h <->
            j <> Z.to_nat i /\ in_table d j h) as Htab.
  { intros j h. rewrite Hins by done. split; [intros [[_ ?]|?]; done|by right]. }
  split; try done.
  - cbn. by rewrite length_insert.
  - cbn. by apply bitmap_clear_ok.
  - intros j Hj. cbn [td_inuse set_td_table]. rewrite (bitmap_test_clear 8) by done. setoid_rewrite Htab.
    destruct (Z.eqb_spec j i) as [->|Hne]; [split; [done|]; by intros (h & ? & _)|]. rewrite H4 by done.
    apply exist_proper. intros h. assert (Z.to_nat j <> Z.to_nat i) by lia. tauto.
  - intros j h [Hne Hj]%Htab. destruct (H5 j h Hj) as (c' & -> & HM). exists c'. split; [done|]. apply Hmk; [|done].
    apply lookup_singleton_ne. intros ->. apply Hne. by eapply in_table_inj.
  - destruct H6 as (hl0 & Hl0 & Hm). cbn [td_handle_list set_td_table]. rewrite Hl0 in Hl. simplify_eq. eexists.
    split; [rewrite Hl'; apply lookup_insert_eq|]. intros h. cbn [hl_handles set_hl_handles].
    rewrite hlist_unlink_elem, Hm. setoid_rewrite Htab. split.
    + intros (Hne & j & Hj). exists j. split; [|done]. intros ->. destruct Hin as (e & He & Ec), Hj as (e' & He' & Ec'). congruence.
    + intros (j & Hne & Hj). split; [|by eauto]. intros ->. apply Hne. by eapply in_table_inj.
  - cbn. by rewrite Ha.
Qed.
End slots.

(** ** Closing *)

(** What closing the connection of slot [i] leaves: the device with the slot
    free, a channel without cookie, and the cookies of all others. *)
Definition slot_closed (g : ghost) (i c : Z) (s s' : tstate) : Prop :=
  let d := ts_dev (v_dev s) in
  tipc_inv g s' /\ ts_dev (v_dev s') = set_td_table (<[Z.to_nat i := Ept 0 None]> (td_epts d)) (bitmap_clear (td_inuse d) i) d /\
  Marked {[c := 0]} (ts_k (v_dev s')) /\ marks_but c (ts_k (v_dev s)) (ts_k (v_dev s')) /\
  k_apps (ts_k (v_dev s')) = k_apps (ts_k (v_dev s)) /\
  s' = v_set_dev (v_dev s') s.

Lemma free_local_addr_run i s : 0 <= i < 256 ->
  free_local_addr (slot_to_addr i) s =
    Ret tt (v_set_dev (TSys (ts_k (v_dev s)) (set_td_table (<[Z.to_nat i := Ept 0 None]> (td_epts (ts_dev (v_dev s))))
              (bitmap_clear (td_inuse (ts_dev (v_dev s))) i) (ts_dev (v_dev s)))) s).
Proof.
  intros Hi. unfold free_local_addr. destruct (slot_addr i Hi) as [_ ->]. unfold TIPC_ADDR_MAX_NUM.
  by destruct (Z.ltb_spec i 256); [|lia].
Qed.

(** [handle_list_del], [handle_set_cookie] and [handle_close] on a channel of the
    table. *)
Lemma detach_kernel g d k i c hl :
  tipc_ok g d k -> in_table d i (HChan c) -> k_hlists k !! td_handle_list d = Some hl ->
  exists k1 k2 k3, handle_list_del (td_handle_list d) (HChan c) k = Ret tt k1 /\
    handle_set_cookie (HChan c) 0 k1 = Ret tt k2 /\ handle_close (HChan c) k2 = Ret tt k3 /\
    Inv (own_all (ept_chans (<[i := Ept 0 None]> (td_epts d))) g) k3 /\ k_apps k3 = k_apps k /\
    k_hlists k3 = <[td_handle_list d := set_hl_handles (hlist_unlink (HChan c) (hl_handles hl)) hl]> (k_hlists k) /\
    Marked {[c := 0]} k3 /\ marks_but c k k3.
Proof.
  intros HO Hin Hl. destruct (in_table_view g d k i _ HO Hin) as (c' & ch & [= <-] & Hc & Hh & _).
  pose proof (to_inv g d k HO) as HI. set (G := own_all (ept_chans (td_epts d)) g) in *.
  assert (HChan c ∈ g_own G) as Hown by (by eapply in_table_own).
  assert (hview k (HChan c) = Some (c_handle ch)) as Hy by (cbn; by rewrite Hc).
  destruct (dev_list_del (td_handle_list d) hl G k (HChan c) (c_handle ch) HI Hy Hh Hown Hl (to_app g d k HO)) as (k1 & R1 & HI1 & Ea1 & El1).
  destruct (i_ext G k1 HI1 (HChan c)) as [y1 Hy1]; [apply elem_of_app; by left|].
  assert (0 < h_refcnt y1) as Hr1 by (apply (live_refcnt G k1 (HChan c) y1); [done..|left; apply elem_of_app; by left]).
  pose proof (upd_handle_run k1 (HChan c) y1 (set_h_cookie 0) Hy1) as R2. set (k2 := set_handle _ _ k1) in R2.
  assert (Inv G k2) as HI2 by (by apply (Inv_handle_field G k1 (HChan c) y1)).
  set (G' := own_all (ept_chans (<[i := Ept 0 None]> (td_epts d))) g).
  assert (Inv (g_own1 (HChan c) G') k2) as HI2'.
  { refine (Inv_cnt _ _ k2 _ _ _ HI2); [done| |done]. intros h. cbn -[ept_chans]. rewrite !cnt_app. destruct Hin as (e & He & Ec).
    pose proof (cnt_ept_insert h (td_epts d) i e (Ept 0 None) He) as Hcnt. rewrite Ec in Hcnt. cbn -[ept_chans] in Hcnt. lia. }
  destruct (handle_close_spec G' k2 (HChan c) HI2') as (k3 & R3 & HI3 & (Ea3 & El3 & _)).
  { intros c0. apply no_pins. apply HO. }
  destruct (set_handle_rest k1 (HChan c) (set_h_cookie 0 y1)) as (Ea2 & El2 & _).
  exists k1, k2, k3. split_and!; try done.
  - rewrite Ea3. unfold k2. by rewrite Ea2.
  - rewrite El3. unfold k2. by rewrite El2.
  - eapply pres_marks; [|exact R3|eapply set_cookie_marked; [|exact R2]]; [intros J; apply (pres_handle_close any_list), marked_is_keeper|].
    destruct (to_chan g d k HO i _ Hin) as (c1 & [= <-] & HM). eapply pres_marks; [|exact R1|exact HM].
    intros J. by apply (pres_handle_list_del any_list); [apply marked_is_keeper|].
  - eapply marks_but_trans; [|eapply marks_but_trans; [by eapply set_cookie_marks|]]; intros J _.
    + eapply pres_marks; [|exact R1]. intros J'. by apply (pres_handle_list_del any_list); [apply marked_is_keeper|].
    + eapply pres_marks; [|exact R3]. intros J'. apply (pres_handle_close any_list), marked_is_keeper.
Qed.

Lemma close_slot_spec g s i c :
  tipc_inv g s -> 0 <= i < 256 -> in_table (ts_dev (v_dev s)) (Z.to_nat i) (HChan c) ->
  wp (detach (HChan c);; free_local_addr (slot_to_addr i)) (fun _ s' => slot_closed g i c s s') s.
Proof.
  intros HO Hi Hin. set (d := ts_dev (v_dev s)) in *. set (k := ts_k (v_dev s)). destruct (to_list g d k HO) as (hl & Hl & _).
  destruct (detach_kernel g d k (Z.to_nat i) c hl HO Hin Hl) as (k1 & k2 & k3 & R1 & R2 & R3 & HI & Ea & El & Hm & Hb).
  apply wp_bind. unfold detach. apply wp_bind, wp_get_dev. fold d.
  apply wp_bind. eapply wp_on_k_run; [exact R1|]. apply wp_bind. eapply wp_on_k_run; [exact R2|]. eapply wp_on_k_run; [exact R3|].
  eapply wp_run; [by apply free_local_addr_run|]. unfold slot_closed. split_and!; try done.
  apply (tipc_ok_clear g d k k3 c HO Hb Ea i hl); done.
Qed.

(** Slot [i] is connected to the peer with address [remote] over channel [c]. *)
Definition connected_to (d : tipc_dev) (i remote c : Z) : Prop :=
  0 <= i < 256 /\ td_epts d !! Z.to_nat i = Some (Ept remote (Some (HChan c))).

Lemma connected_in_table d i remote c : connected_to d i remote c -> in_table d (Z.to_nat i) (HChan c).
Proof. intros [_ H]. by eexists. Qed.

Lemma in_use_connected g d k i : tipc_ok g d k -> 0 <= i < 256 -> bitmap_test (td_inuse d) i = true ->
  exists e c, td_epts d !! Z.to_nat i = Some e /\ e_chan e = Some (HChan c) /\ connected_to d i (e_remote e) c.
Proof.
  intros HO Hi Ht. apply (to_inuse g d k HO i Hi) in Ht as (h & e & He & Hc).
  destruct (to_chan g d k HO (Z.to_nat i) h) as (c & -> & _); [by exists e|]. exists e, c. do 3 (split; [done|]).
  rewrite He. f_equal. destruct e. cbn in *. by subst.
Qed.

Lemma connected_in_use g d k i remote c : tipc_ok g d k -> connected_to d i remote c -> bitmap_test (td_inuse d) i = true.
Proof. intros HO Hc. apply (to_inuse g d k HO i (proj1 Hc)). exists (HChan c). by eapply connected_in_table. Qed.

Lemma ept_has_remote_connected d i remote r c : connected_to d i r c -> ept_has_remote d remote i = (r =? remote).
Proof. intros [_ He]. unfold ept_has_remote. by rewrite He. Qed.

Lemma find_remote_spec g d k remote : tipc_ok g d k ->
  match find_remote d remote with
  | Some i => exists c, connected_to d i remote c
  | None => forall i c, ~ connected_to d i remote c
  end.
Proof.
  intros HO. unfold find_remote, TIPC_ADDR_MAX_NUM. destruct (List.find _ _) as [i|] eqn:E.
  - apply List.find_some in E as [Hin E]. apply list_elem_of_In, elem_of_seqZ in Hin. apply andb_true_iff in E as [Ht Hr].
    destruct (in_use_connected g d k i HO) as (e & c & _ & _ & Hc); [lia|done|].
    rewrite (ept_has_remote_connected d i remote _ c Hc) in Hr. apply Z.eqb_eq in Hr. rewrite Hr in Hc. by exists c.
  - intros i c Hc. pose proof Hc as [Hi _].
    assert (i ∈ seqZ 0 256) as Hin by (apply elem_of_seqZ; lia). apply list_elem_of_In in Hin.
    apply (List.find_none _ _ E) in Hin. rewrite (connected_in_use g d k i remote c HO Hc) in Hin. cbn in Hin.
    rewrite (ept_has_remote_connected d i remote _ c Hc), Z.eqb_refl in Hin. done.
Qed.

Lemma disc_target_spec g d k target remote : tipc_ok g d k ->
  match disc_target d target remote with
  | Some i => exists c, connected_to d i remote c
  | None => forall i c, ~ connected_to d i remote c
  end.
Proof.
  intros HO. unfold disc_target. pose proof (find_remote_spec g d k remote HO) as Hf. destruct (lookup_ept d target) as [i|] eqn:E; [|done].
  destruct (lookup_ept_slot g d k target i HO E) as (Hi & h & Ht).
  destruct (in_use_connected g d k i HO Hi) as (e & c & _ & _ & Hc); [apply (to_inuse g d k HO i Hi); eauto|].
  rewrite (ept_has_remote_connected d i remote _ c Hc). destruct (Z.eqb_spec (e_remote e) remote) as [Er|]; [|done].
  rewrite Er in Hc. by exists c.
Qed.

Lemma get_ept_run s i e : td_epts (ts_dev (v_dev s)) !! Z.to_nat i = Some e -> get_ept i s = Ret e s.
Proof. intros E. unfold get_ept, get_dev, gets, mbind, M_bind. by rewrite E. Qed.

Lemma disc_close_spec g s target remote :
  tipc_inv g s ->
  wp (disc_close target remote) (fun _ s' =>
    (exists i c, connected_to (ts_dev (v_dev s)) i remote c /\ slot_closed g i c s s') \/
    ((forall i c, ~ connected_to (ts_dev (v_dev s)) i remote c) /\ s' = s)) s.
Proof.
  intros HO. unfold disc_close. apply wp_bind, wp_get_dev. pose proof (disc_target_spec g _ _ target remote HO) as Ht.
  destruct (disc_target _ _ _) as [i|]; [|apply wp_ret; by right]. destruct Ht as (c & Hc). pose proof Hc as [Hi He].
  wp_with (by apply get_ept_run). cbn [e_chan].
  eapply wp_mono; [apply (close_slot_spec g s i c HO Hi); by eapply connected_in_table|]. intros [] s' H. left. by exists i, c.
Qed.

Lemma get_cookie_run k c ch : k_chans k !! c = Some ch -> handle_get_cookie (HChan c) k = Ret (h_cookie (c_handle ch)) k.
Proof. intros Hc. unfold handle_get_cookie. rewrite (run_bind _ _ _ (c_handle ch) k); [done|]. apply get_handle_run. cbn. by rewrite Hc. Qed.

(** The channel the sending thread works on: an endpoint still, or detached
    meanwhile. *)
Definition tx_held (s : tstate) (c : Z) : Prop :=
  (exists i, in_table (ts_dev (v_dev s)) i (HChan c)) \/ Marked {[c := 0]} (ts_k (v_dev s)).

Lemma hup_close_spec g s c :
  tipc_inv g s -> HChan c ∈ g_bor g -> tx_held s c ->
  wp (hup_close (HChan c)) (fun r s' =>
    (exists i remote, r = Some (slot_to_addr i, remote) /\ connected_to (ts_dev (v_dev s)) i remote c /\ slot_closed g i c s s') \/
    (r = None /\ s' = s /\ forall i, ~ in_table (ts_dev (v_dev s)) i (HChan c))) s.
Proof.
  intros HO Hb Hh. unfold hup_close. pose proof (to_inv g _ _ HO) as HI. set (k := ts_k (v_dev s)) in *.
  destruct (i_ext _ k HI (HChan c)) as [y Hy]; [apply elem_of_app; by right|]. cbn in Hy.
  destruct (k_chans k !! c) as [ch|] eqn:Hc; [|done]. injection Hy as <-.
  apply wp_bind. eapply wp_on_k_run; [exact (get_cookie_run k c ch Hc)|]. assert (set_k k s = s) as -> by (by destruct s as [[] ? ? ? ?]).
  destruct Hh as [[i Hin]|HM].
  - destruct (in_table_view g _ k i _ HO Hin) as (c' & ch' & [= <-] & Hc' & _ & Ek). simplify_eq. rewrite Ek. unfold ept_ptr.
    destruct (Z.eqb_spec (Z.of_nat i + 1) 0); [lia|]. replace (Z.of_nat i + 1 - 1) with (Z.of_nat i) by lia.
    destruct Hin as (e & He & Hec). assert (0 <= Z.of_nat i < 256) as Hi.
    { apply lookup_lt_Some in He. rewrite (to_len g _ _ HO) in He. lia. }
    wp_with (apply get_ept_run; by rewrite Nat2Z.id).
    eapply wp_seq; [apply (close_slot_spec g s (Z.of_nat i) c HO Hi); rewrite Nat2Z.id; by exists e|].
    intros [] s' H. apply wp_ret. left. exists (Z.of_nat i), (e_remote e). split; [done|]. split; [|done]. split; [done|].
    rewrite Nat2Z.id, He. destruct e. cbn in *. by subst.
  - destruct (HM c 0) as [_ H0]; [apply lookup_singleton_eq|]. destruct (H0 ch Hc) as [-> _]. cbn. apply wp_ret. right. split_and!; [done..|].
    intros i Hin. destruct (in_table_view g _ k i _ HO Hin) as (c' & ch' & [= <-] & Hc' & _ & Ek). simplify_eq.
    destruct (H0 ch Hc) as [E0 _]. rewrite E0 in Ek. unfold ept_ptr in Ek. lia.
Qed.

(** ** Reset *)

Lemma reset_slot_spec g s i :
  tipc_inv g s -> 0 <= i < 256 ->
  wp (reset_slot i) (fun _ s' => tipc_inv g s' /\ bitmap_test (td_inuse (ts_dev (v_dev s'))) i = false /\
    forall j, 0 <= j < 256 -> bitmap_test (td_inuse (ts_dev (v_dev s))) j = false -> bitmap_test (td_inuse (ts_dev (v_dev s'))) j = false) s.
Proof.
  intros HO Hi. unfold reset_slot. apply wp_bind, wp_get_dev. destruct (bitmap_test _ i) eqn:Et; cbn [negb]; [|by apply wp_ret].
  destruct (in_use_connected g _ _ i HO Hi Et) as (e & c & He & Ec & Hc). wp_with (by apply get_ept_run). rewrite Ec.
  eapply wp_mono; [apply (close_slot_spec g s i c HO Hi); by eapply connected_in_table|]. intros [] s' (HO' & Ed & _).
  pose proof (to_bm g _ _ HO) as Hbm. split; [done|]. rewrite Ed. cbn [td_inuse set_td_table]. split.
  - rewrite (bitmap_test_clear 8) by done. by rewrite Z.eqb_refl.
  - intros j Hj Hf. rewrite (bitmap_test_clear 8) by done. by destruct (j =? i).
Qed.

Lemma close_all_spec g s :
  tipc_inv g s -> wp close_all (fun _ s' => tipc_inv g s' /\ forall i h, ~ in_table (ts_dev (v_dev s')) i h) s.
Proof.
  intros HO. unfold close_all, TIPC_ADDR_MAX_NUM.
  set (J := fun (l : list Z) s' => tipc_inv g s' /\ (forall i, i ∈ l -> 0 <= i < 256) /\
         forall i, 0 <= i < 256 -> i ∉ l -> bitmap_test (td_inuse (ts_dev (v_dev s'))) i = false).
  assert (J (seqZ 0 256) s) as H0.
  { split; [done|]. split; intros i; rewrite elem_of_seqZ; lia. }
  eapply wp_mono; [apply (wp_mfor _ _ J _ H0)|].
  - intros i l s1 (HO1 & Hl & Hf). eapply wp_mono; [by apply (reset_slot_spec g s1 i HO1), Hl; left|].
    intros [] s2 (HO2 & Hi & Hk). split; [done|]. split; [intros j Hj; apply Hl; by right|]. intros j Hj Hn.
    destruct (decide (j = i)) as [->|]; [done|]. apply Hk; [done|]. apply Hf; [done|]. by apply not_elem_of_cons.
  - intros [] s' (HO' & _ & Hf). split; [done|]. intros i h Hin. pose proof Hin as (e & He & _).
    apply lookup_lt_Some in He. rewrite (to_len g _ _ HO') in He.
    assert (bitmap_test (td_inuse (ts_dev (v_dev s'))) (Z.of_nat i) = true) as Ht.
    { apply (to_inuse g _ _ HO'); [lia|]. exists h. by rewrite Nat2Z.id. }
    rewrite Hf in Ht; [done|lia|by apply not_elem_of_nil].
Qed.

(** ** Opening *)

(** What a new connection leaves: the lowest free slot holds the new channel. *)
Definition slot_opened (g : ghost) (i remote c : Z) (s s' : tstate) : Prop :=
  let d := ts_dev (v_dev s) in
  tipc_inv g s' /\ 0 <= i < 256 /\ bitmap_test (td_inuse d) i = false /\ (forall j, 0 <= j < i -> bitmap_test (td_inuse d) j = true) /\
  ts_dev (v_dev s') = set_td_table (<[Z.to_nat i := Ept remote (Some (HChan c))]> (td_epts d)) (bitmap_set (td_inuse d) i) d /\
  marks_but c (ts_k (v_dev s)) (ts_k (v_dev s')) /\ HChan c ∉ g_bor g /\ s' = v_set_dev (v_dev s') s.

Lemma alloc_local_addr_run g d k remote chan s : tipc_ok g d k -> ts_dev (v_dev s) = d ->
  (alloc_local_addr remote chan s = Ret 0 s /\ forall i, 0 <= i < 256 -> bitmap_test (td_inuse d) i = true) \/
  (exists i, 0 <= i < 256 /\ bitmap_test (td_inuse d) i = false /\ (forall j, 0 <= j < i -> bitmap_test (td_inuse d) j = true) /\
     alloc_local_addr remote chan s =
       Ret (slot_to_addr i) (v_set_dev (TSys (ts_k (v_dev s))
         (set_td_table (<[Z.to_nat i := Ept remote (Some chan)]> (td_epts d)) (bitmap_set (td_inuse d) i) d)) s)).
Proof.
  intros HO Ed. unfold alloc_local_addr, get_dev, gets, mbind, M_bind. cbn. rewrite Ed. unfold TIPC_ADDR_MAX_NUM.
  pose proof (bitmap_ffz_spec 8 (td_inuse d) (to_bm g d k HO)) as Hf. change (32 * Z.of_nat 8) with 256 in Hf.
  destruct Hf as [[-> Hall]|(Hr & Hfree & Hlow)]; [left; split; done|right].
  exists (bitmap_ffz (td_inuse d) 256). split; [done|]. split; [done|]. split; [done|].
  destruct (Z.geb_spec (bitmap_ffz (td_inuse d) 256) 0); [|lia]. unfold upd_dev, modify. cbn. by rewrite Ed.
Qed.

(** A handle nobody but its creator refers to is neither in the table nor held. *)
Lemma new_client_fresh g d k c ch :
  Inv (g_own1 (HChan c) (own_all (ept_chans (td_epts d)) g)) k -> k_chans k !! c = Some ch -> h_refcnt (c_handle ch) = 1 ->
  (forall j, ~ in_table d j (HChan c)) /\ HChan c ∉ g_bor g.
Proof.
  intros HI Hc Hr. pose proof (co_refcnt _ _ _ _ (i_chan _ k HI c ch Hc)) as E. rewrite Hr in E. cbn -[ept_chans] in E.
  rewrite decide_True in E by done. rewrite cnt_app in E.
  pose proof (cnt_nonneg (HChan c) (ept_chans (td_epts d))). pose proof (cnt_nonneg (HChan c) (g_own g)).
  pose proof (cnt_nonneg (HChan c) (g_bor g)).
  assert (0 <= list_refs (has_uctx k) (h_hlist (c_handle ch))) by (unfold list_refs; destruct (h_hlist _) as [l|]; [destruct (has_uctx k l)|]; lia).
  split; [|intros Hb%cnt_elem; lia]. intros j Hin. pose proof (in_table_own (Ghost ∅ [] []) d j _ Hin) as Hel. cbn -[ept_chans] in Hel.
  rewrite app_nil_r in Hel. apply cnt_elem in Hel. lia.
Qed.

(** The cookie is set and the handle put on the list. *)
Lemma attach_kernel l G k c ch v hl :
  Inv G k -> HChan c ∈ g_own G -> k_chans k !! c = Some ch -> h_hlist (c_handle ch) = None -> k_hlists k !! l = Some hl -> k_apps k !! l = None ->
  Marked {[c := 0]} k ->
  exists k1 k2, handle_set_cookie (HChan c) v k = Ret tt k1 /\ handle_list_add l (HChan c) k1 = Ret tt k2 /\
    Inv G k2 /\ k_apps k2 = k_apps k /\ k_hlists k2 = <[l := set_hl_handles (hl_handles hl ++ [HChan c]) hl]> (k_hlists k) /\
    Marked {[c := v]} k2 /\ marks_but c k k2.
Proof.
  intros HI Hown Hc Hn Hl Ha HM0. assert (hview k (HChan c) = Some (c_handle ch)) as Hy by (cbn; by rewrite Hc).
  assert (0 < h_refcnt (c_handle ch)) as Hr by (apply (live_refcnt G k (HChan c)); [done..|left; apply elem_of_app; by left]).
  pose proof (upd_handle_run k (HChan c) _ (set_h_cookie v) Hy) as R1. set (k1 := set_handle _ _ k) in R1.
  assert (Inv G k1) as HI1 by (by apply (Inv_handle_field G k (HChan c) (c_handle ch))).
  destruct (set_handle_rest k (HChan c) (set_h_cookie v (c_handle ch))) as (Ea & El & _). fold k1 in Ea, El.
  assert (hview k1 (HChan c) = Some (set_h_cookie v (c_handle ch))) as Hy1 by (unfold k1; by rewrite (hview_set_handle _ _ _ _ _ Hy), decide_True).
  destruct (dev_list_add l hl G k1 (HChan c) _ HI1 Hy1) as (k2 & R2 & HI2 & Ea2 & El2); [done|done|by rewrite El|by rewrite Ea|].
  exists k1, k2. split_and!; try done.
  - by rewrite Ea2, Ea.
  - by rewrite El2, El.
  - eapply pres_marks; [|exact R2|by eapply set_cookie_marked]. intros J. by apply (pres_handle_list_add any_list); [apply marked_is_keeper|].
  - eapply marks_but_trans; [by eapply set_cookie_marks|]. intros J _. eapply pres_marks; [|exact R2].
    intros J'. by apply (pres_handle_list_add any_list); [apply marked_is_keeper|].
Qed.

Lemma lookup_ept_new d i r chan : length (td_epts d) = 256%nat -> bm_ok 8 (td_inuse d) -> 0 <= i < 256 ->
  lookup_ept (set_td_table (<[Z.to_nat i := Ept r chan]> (td_epts d)) (bitmap_set (td_inuse d) i) d) (slot_to_addr i) = Some i.
Proof.
  intros Hlen Hbm Hi. unfold lookup_ept. destruct (slot_addr i Hi) as [_ ->]. cbn [td_inuse set_td_table].
  rewrite (bitmap_test_set 8) by done. rewrite Z.eqb_refl. unfold TIPC_ADDR_MAX_NUM. by destruct (Z.ltb_spec i 256); [|lia].
Qed.

Lemma conn_open_spec g s remote name :
  tipc_inv g s ->
  wp (conn_open remote name) (fun r s' =>
    (exists i c, r = Some (slot_to_addr i) /\ slot_opened g i remote c s s') \/
    (r = None /\ tipc_inv g s' /\ ts_dev (v_dev s') = ts_dev (v_dev s) /\ kept_by (ts_k (v_dev s)) (ts_k (v_dev s')) /\ s' = v_set_dev (v_dev s') s)) s.
Proof.
  intros HO. unfold conn_open. apply wp_bind, wp_get_dev. set (d := ts_dev (v_dev s)). set (k := ts_k (v_dev s)).
  pose proof (to_inv g d k HO) as HI. set (G := own_all (ept_chans (td_epts d)) g) in *.
  destruct (ipc_port_connect_async_spec G k (td_uuid d) name (Z.of_nat TIPC_MAX_SRV_NAME_LEN) 0 HI (to_ov g d k HO))
    as (ret & o & k1 & R1 & F1 & Hret).
  assert (forall J, Marked J k -> Marked J k1) as M1 by (eapply pres_marks; [|exact R1]; intros J; apply (fr_connect_async any_list (fun c => J !! c = None)), marked_keeper).
  apply wp_bind. eapply wp_on_k_run; [exact R1|]. cbn beta iota. pose proof F1 as (Ea1 & El1 & _).
  destruct Hret as [(Hneg & -> & HI1)|(-> & c & -> & HI1 & Hcl)].
  { unfold NO_ERROR. destruct (Z.eqb_spec ret 0); [lia|]. apply wp_ret. right.
    split; [done|]. split; [by apply (tipc_ok_frame g g d k k1); [|apply HO|..]|]. by split_and!. }
  cbn [negb Z.eqb NO_ERROR]. apply wp_bind. eapply wp_deref; [done|]. destruct Hcl as (ch & Hc & _ & _ & Hn & Hr & _).
  destruct (new_client_fresh g d k1 c ch HI1 Hc Hr) as [Hnew Hnb]. set (s1 := set_k k1 s).
  destruct (alloc_local_addr_run g d k remote (HChan c) s1 HO eq_refl) as [(R2 & _)|(i & Hi & Hf & Hlow & R2)]; wp_with (exact R2).
  - destruct (handle_close_spec G k1 (HChan c) HI1) as (k2 & R3 & HI2 & (Ea2 & El2 & _)); [intros c0; apply no_pins, HO|].
    cbn. apply wp_bind. eapply wp_on_k_run; [exact R3|]. apply wp_ret. right.
    assert (kept_by k k2) as Hk.
    { split; [by rewrite Ea2|]. split; [by rewrite El2|]. intros J HM. eapply pres_marks; [|exact R3|by apply M1].
      intros J'. apply (pres_handle_close any_list), marked_is_keeper. }
    split; [done|]. split; [by apply (tipc_ok_frame g g d k k2); [|apply HO|..]|]. by split_and!.
  - destruct (slot_addr i Hi) as [Eaddr _]. destruct (Z.eqb_spec (slot_to_addr i) 0); [lia|]. apply wp_bind, wp_get_dev. set (s2 := v_set_dev _ s1).
    cbn [v_dev ts_dev v_set_dev s2]. rewrite (lookup_ept_new d i remote (Some (HChan c)) (to_len g d k HO) (to_bm g d k HO) Hi).
    destruct (to_list g d k HO) as (hl & Hl & _).
    destruct (attach_kernel (td_handle_list d) _ k1 c ch (ept_ptr i) hl HI1) as (k2 & k3 & R3 & R4 & HI3 & Ea3 & El3 & Hm & Hb);
      [by left|done|done|by rewrite El1|rewrite Ea1; apply HO|by destruct (connect_async_marked _ _ _ _ _ _ _ _ R1) as (? & [= <-] & ?)|].
    apply wp_bind. eapply wp_on_k_run; [exact R3|]. apply wp_bind. eapply wp_on_k_run; [exact R4|].
    apply wp_bind. eapply wp_on_k_run; [reflexivity|]. apply wp_ret. left. exists i, c. split; [done|].
    assert (marks_but c k k3) as Hb' by (eapply marks_but_trans; [|exact Hb]; intros J _; apply M1).
    unfold slot_opened. split_and!; try done; try lia.
    assert (tipc_ok g (ts_dev (v_dev s2)) k3) as HO3.
    { assert (k_apps k3 = k_apps k) as Ea by congruence. apply (tipc_ok_fill g d k k3 c HO Hb' Ea i remote hl); try done. by rewrite El3, El1. }
    apply (tipc_ok_frame g g _ k3); [done|apply HO| |done]. apply Inv_events, HO3.
Qed.
