(* ===== verification/TipcMsg.v ===== *)
(** * Messages through the TIPC device

    A message of the non-secure side is handed to the IPC routines as a kernel
    buffer in shared memory.  Here: what [handle_chan_msg] delivers to the app
    and what [tx_data_cb] copies out to the non-secure side, both with the
    invariant of the device kept. *)

From stdpp Require Import base tactics list gmap.
From Stdlib Require Import ZArith Lia.
From S2P Require Import Prelude Bitmap Iovec MsgQueue Kernel Channel Handle Uctx Ipc IpcMsg IpcInv IpcSafe IpcCalls IpcSys IpcEnv IpcSystem IpcFrame Shm Vqueue Tipc TipcInv TipcSafe.

(** ** A buffer as kernel memory *)

Lemma mem_seg_read a bs : 0 <= a -> a + Z.of_nat (length bs) <= 2 ^ 32 -> mem_read (mem_seg a bs) a (length bs) = Some bs.
Proof.
  intros Ha Hl. assert (forall n bs' m a', 0 <= a' -> a' + Z.of_nat (length bs') <= 2 ^ 32 -> n = length bs' ->
      (forall i b, bs' !! i = Some b -> m !! (a' + Z.of_nat i) = Some b) -> mem_read m a' n = Some bs') as H.
  { clear. induction n as [|n IH]; intros [|b bs] m a Ha Hl Hn Hm; try done. cbn [mem_read].
    pose proof (Hm 0%nat b eq_refl) as H0. rewrite Z.add_0_r in H0. rewrite H0. cbn. injection Hn as Hn. cbn [length] in Hl.
    destruct bs as [|b' bs]; [by subst|]. cbn [length] in *.
    assert (u32 (a + 1) = a + 1) as -> by (unfold u32; apply Z.mod_small; lia).
    rewrite (IH (b' :: bs)); [done|lia|cbn [length]; lia|done|]. intros i b0 Hi. specialize (Hm (S i) b0 Hi).
    by replace (a + 1 + Z.of_nat i) with (a + Z.of_nat (S i)) by lia. }
  apply H; try done. clear. revert a. induction bs as [|b bs IH]; intros a [|i] b0 Hi; cbn in *; [done..| |].
  - injection Hi as ->. by rewrite Z.add_0_r, lookup_insert_eq.
  - rewrite lookup_insert_ne by lia. replace (a + Z.of_nat (S i)) with (a + 1 + Z.of_nat i) by lia. by apply IH.
Qed.

(** What the buffer holds when it is read. *)
Definition snapshot (s : tstate) (a : Z) (n : nat) : list Z :=
  match interfere s with Ret _ s1 => shm_bytes (v_shm s1) a n | Fault _ => [] end.

Lemma snapshot_ok s a n : mem_ok (v_shm s) -> length (snapshot s a n) = n /\ bytes_ok (snapshot s a n).
Proof.
  intros Hm. unfold snapshot. destruct (interfere_frame s) as (s1 & -> & _ & _ & H1). split; [apply shm_bytes_length|].
  by apply shm_bytes_ok, H1.
Qed.

(** A state with the same mappings, after an access to the [n] bytes at [a]. *)
Definition accessed (a : Z) (n : nat) (s s' : tstate) : Prop :=
  ts_dev (v_dev s') = ts_dev (v_dev s) /\ v_regions s' = v_regions s /\ v_vmm s' = v_vmm s /\ mem_ok (v_shm s') /\
  (v_env s = [] -> v_env s' = [] /\
     forall x m, x + Z.of_nat m <= a \/ a + Z.of_nat n <= x -> shm_bytes (v_shm s') x m = shm_bytes (v_shm s) x m).

Lemma accessed_refl a n s : mem_ok (v_shm s) -> accessed a n s s.
Proof. intros Hm. by split_and!. Qed.

(** The routine runs on a snapshot of the buffer; the kernel's own memory is put
    back, the buffer holds what the routine left in it. *)
Lemma wp_with_kmem {A} a n (m : K A) (Q : A -> tstate -> Prop) s :
  in_regions (v_regions s) a (Z.of_nat n) = true -> mem_ok (v_shm s) ->
  wp m (fun r k => forall s', accessed a n s s' -> ts_k (v_dev s') = set_k_kmem (k_kmem (ts_k (v_dev s))) k ->
          shm_bytes (v_shm s') a n = u8 <$> shm_bytes (k_kmem k) a n -> Q r s')
     (set_k_kmem (mem_seg a (snapshot s a n)) (ts_k (v_dev s))) ->
  wp (with_kmem a n m) Q s.
Proof.
  intros Hr Hok Hm. destruct (interfere_frame s) as (s1 & E & Hf). pose proof Hf as (Ed & Er & Hok1). unfold snapshot in Hm. rewrite E in Hm.
  unfold with_kmem. wp_with (exact E). wp_with (reflexivity). rewrite Er, Hr.
  do 2 (apply wp_bind; eapply wp_on_k_run; [reflexivity|]). apply wp_bind, wp_on_k. cbn [v_dev ts_k set_k v_set_dev]. rewrite Ed.
  eapply wp_mono; [exact Hm|]. intros r k HQ.
  apply wp_bind. eapply wp_on_k_run; [reflexivity|]. wp_with (reflexivity). apply wp_bind. eapply wp_on_k_run; [reflexivity|].
  assert (v_vmm s1 = v_vmm s /\ (v_env s = [] -> s1 = s)) as [Ev Eidle].
  { unfold interfere, modify in E. destruct (v_env s); by simplify_eq/=. }
  set (bs := u8 <$> shm_bytes (k_kmem k) a n). assert (length bs = n) as Hl by (unfold bs; by rewrite length_fmap, shm_bytes_length).
  apply wp_ret. apply HQ.
  - split; [cbn; by rewrite Ed|]. split; [done|]. split; [done|]. split.
    + cbn. apply shm_store_ok; [by apply Hok1|]. apply Forall_fmap, Forall_true. intros b. apply u8_bound.
    + intros Hi. cbn [v_env v_shm v_set_shm set_k v_set_dev]. rewrite (Eidle Hi). split; [done|]. intros x m' Hx. apply shm_store_other. by rewrite length_fmap, shm_bytes_length.
  - done.
  - cbn. fold bs. rewrite <- Hl. apply shm_store_bytes.
Qed.

(** ** From the non-secure side to an app *)

(** A message of one kernel buffer. *)
Definition one_buf (a len : Z) : msg_desc := MsgKern (Some [Iov a len]) 1 0.

(** The queue takes the message unless it is full, cut to the size of its items. *)
Definition enqueues (q : msg_queue) (bs : list Z) (ret : Z) (q' : msg_queue) : Prop :=
  let b := take (Z.to_nat (mq_item_sz q)) bs in
  ret = Z.of_nat (length b) /\ mq_wf q' /\
  exists i, aq_filled (mq_abs q') = aq_filled (mq_abs q) ++ [(i, b)] /\ aq_read (mq_abs q') = aq_read (mq_abs q).

Lemma msg_write_one ms q a bs len :
  mq_wf q -> readable (m_kern ms) (Iov a len) bs ->
  match msg_write ms q (one_buf a len) with
  | WriteFault => False
  | WriteFull => ipc_msg_queue_is_full q = true
  | WriteDone ret q' => ipc_msg_queue_is_full q = false /\ enqueues q bs ret q'
  end.
Proof.
  intros Hwf Hrd. pose proof Hrd as (Hl & _ & Hread). unfold ipc_msg_queue_is_full. destruct (mq_free q) as [|i l] eqn:Ef.
  { unfold msg_write. by rewrite Ef. }
  pose proof (msg_write_spec ms q (one_buf a len) i l Hwf Ef ltac:(by repeat constructor)) as Hw.
  assert (i < length (mq_items q))%nat as Hi by (apply (wf_dom q Hwf); rewrite Ef; by left).
  pose proof (wf_buf q Hwf) as Hbuf. rewrite (wf_num q Hwf) in Hbuf. pose proof (wf_sz q Hwf) as Hsz.
  set (buf := drop _ (mq_buf q)) in Hw. assert (Z.to_nat (mq_item_sz q) <= length buf)%nat as Hfit by (unfold buf; rewrite length_drop; nia).
  set (b := take (Z.to_nat (mq_item_sz q)) bs).
  assert (msg_gather ms (one_buf a len) buf (mq_item_sz q) = Some (inr (Z.of_nat (length b), splice buf 0 b))) as Eg.
  { unfold msg_gather, one_buf. cbn [Z.eqb negb]. unfold kern_iovec_to_membuf. cbn [Z.eqb orb].
    destruct (Z.eqb_spec (mq_item_sz q) 0) as [Ez|].
    - cbn. unfold b. rewrite Ez. cbn. by rewrite splice_nil.
    - rewrite (kern_to_membuf_loop_spec _ _ [bs]); [|cbn; by apply Forall2_cons_2, Forall2_nil_2|cbn; lia|done|cbn; lia]. cbn [concat]. by rewrite app_nil_r. }
  rewrite Eg in Hw. destruct Hw as (q' & -> & Hwf' & Habs). destruct (Z.ltb_spec (Z.of_nat (length b)) 0); [lia|].
  split; [done|]. split; [done|]. split; [done|]. exists i. rewrite Habs. cbn. split; [|done]. do 3 f_equal.
  unfold splice. rewrite take_0. cbn. rewrite Nat2Z.id. by rewrite take_app_length.
Qed.

(** What [handle_chan_msg] does with a message of [bs] for channel [c]: the state
    of the connection decides between an error and the queue of the other end. *)
Definition forwarded (c : Z) (bs : list Z) (k : kstate) (ret : Z) (k' : kstate) : Prop :=
  exists ch, k_chans k !! c = Some ch /\
  match c_state ch with
  | IPC_CHAN_STATE_CONNECTED => exists peer pch q, c_peer ch = Some peer /\ k_chans k !! peer = Some pch /\ c_msg_queue pch = Some q /\
      if ipc_msg_queue_is_full q then
        ret = ERR_NOT_ENOUGH_BUFFER /\
        k_chans k' = <[c := set_c_aux_state (set_flag (c_aux_state ch) IPC_CHAN_AUX_STATE_SEND_BLOCKED) ch]> (k_chans k)
      else exists q', enqueues q bs ret q' /\ k_chans k' = <[peer := set_c_msg_queue (Some q') pch]> (k_chans k)
  | IPC_CHAN_STATE_DISCONNECTING => ret = ERR_CHANNEL_CLOSED /\ k_chans k' = k_chans k
  | _ => ret = ERR_NOT_READY /\ k_chans k' = k_chans k
  end.

Lemma sends_forwarded g k k1 c a len bs ret k' :
  Inv g k -> k_chans k1 = k_chans k -> readable (k_kmem k1) (Iov a len) bs ->
  sends (mems_of k1 None) (HChan c) (one_buf a len) k1 ret k' -> forwarded c bs k ret k'.
Proof.
  intros HI Ec Hrd (ch & Hc & Hs). rewrite Ec in *. exists ch. split; [done|]. destruct (c_state ch); try done.
  destruct Hs as (peer & pch & q & Hpe & Hp & Hq & Hw). exists peer, pch, q. do 3 (split; [done|]).
  pose proof (co_queue _ _ _ _ (i_chan g k HI peer pch Hp) q Hq) as Hwf.
  pose proof (msg_write_one (mems_of k1 None) q a bs len Hwf Hrd) as H. destruct (msg_write _ _ _) as [| |r q']; [done| |].
  - by rewrite H.
  - destruct H as [-> He]. destruct Hw as [-> Hw]. by exists q'.
Qed.

Lemma lookup_ept_addr d local i : 0 <= local < 2 ^ 32 -> lookup_ept d local = Some i -> slot_to_addr i = local.
Proof.
  intros Hl. unfold lookup_ept. destruct (_ && _); [|done]. intros [= <-]. unfold slot_to_addr, addr_to_slot, TIPC_ADDR_BASE, u32.
  rewrite Zplus_mod_idemp_l. rewrite Z.sub_add. by apply Z.mod_small.
Qed.

Lemma lookup_ept_connected g d k i remote c : tipc_ok g d k -> connected_to d i remote c -> lookup_ept d (slot_to_addr i) = Some i.
Proof.
  intros HO Hc. pose proof Hc as [Hi _]. unfold lookup_ept. destruct (slot_addr i Hi) as [_ ->]. rewrite (connected_in_use g d k i remote c HO Hc).
  unfold TIPC_ADDR_MAX_NUM. by destruct (Z.ltb_spec i 256); [|lia].
Qed.

(** Objects as they were, the kernel's memory aside. *)
Lemma same_objects_kmem m k : same_objects k (set_k_kmem m k).
Proof. by repeat split. Qed.

Lemma marked_kmem J m k : Marked J k -> Marked J (set_k_kmem m k).
Proof. done. Qed.

Lemma handle_chan_msg_spec g s remote local ns_data len :
  tipc_inv g s -> mem_ok (v_shm s) -> 0 <= local < 2 ^ 32 -> 0 <= len -> 0 < ns_data -> ns_data + len <= 2 ^ 32 ->
  in_regions (v_regions s) ns_data len = true ->
  wp (handle_chan_msg remote local ns_data len) (fun ret s' => tipc_inv g s' /\ accessed ns_data (Z.to_nat len) s s' /\
    ((exists i c, local = slot_to_addr i /\ connected_to (ts_dev (v_dev s)) i remote c /\
        forwarded c (snapshot s ns_data (Z.to_nat len)) (ts_k (v_dev s)) ret (ts_k (v_dev s'))) \/
     (ret = ERR_NOT_FOUND /\ s' = s /\ forall i c, local = slot_to_addr i -> ~ connected_to (ts_dev (v_dev s)) i remote c))) s.
Proof.
  intros HO Hm Hloc Hlen Hns Hend Hreg. unfold handle_chan_msg. apply wp_bind, wp_get_dev. set (d := ts_dev (v_dev s)). set (k := ts_k (v_dev s)).
  destruct (lookup_ept d local) as [i|] eqn:El.
  2:{ apply wp_ret. split; [done|]. split; [by apply accessed_refl|]. right. do 2 (split; [done|]). intros i c -> Hc.
      by rewrite (lookup_ept_connected g d k i remote c HO Hc) in El. }
  destruct (lookup_ept_slot g d k local i HO El) as (Hi & h & Ht). apply lookup_ept_addr in El as Ea; [|done].
  destruct (in_use_connected g d k i HO Hi) as (e & c & He & Ec & Hc); [apply (to_inuse g d k HO i Hi); eauto|].
  wp_with (by apply get_ept_run). destruct (Z.eqb_spec (e_remote e) remote) as [Er|Hne].
  2:{ apply wp_ret. split; [done|]. split; [by apply accessed_refl|]. right. do 2 (split; [done|]). intros i' c' -> Hc'.
      assert (i' = i) as -> by (destruct (slot_addr i Hi) as [E1 _], (slot_addr i' (proj1 Hc')) as [E2 _]; lia).
      destruct Hc' as [_ E]. rewrite E in He. by injection He as <-. }
  rewrite Ec, Er in *. destruct (snapshot_ok s ns_data (Z.to_nat len) Hm) as [Hsl _].
  apply wp_with_kmem; [by rewrite Z2Nat.id|done|]. set (bs := snapshot _ _ _) in *. clearbody bs. set (k1 := set_k_kmem _ _).
  assert (readable (k_kmem k1) (Iov ns_data len) bs) as Hrd.
  { split; [done|]. split; [cbn; lia|]. cbn. rewrite <- Hsl. apply mem_seg_read; lia. }
  pose proof (to_inv g d k HO) as HI. set (G := own_all (ept_chans (td_epts d)) g) in *.
  assert (Inv G k1) as HI1 by (eapply Inv_same; [apply same_objects_kmem|done]).
  destruct (in_table_view g d k (Z.to_nat i) (HChan c) HO) as (c0 & ch & [= <-] & Hch & _); [by eapply connected_in_table|].
  assert (hview k1 (HChan c) = Some (c_handle ch)) as Hv by (change (c_handle <$> k_chans k !! c = Some (c_handle ch)); by rewrite Hch).
  assert (0 < h_refcnt (c_handle ch)) as Hr.
  { apply (live_refcnt G k1 (HChan c)); [done..|left]. apply elem_of_app. left. eapply in_table_own, connected_in_table, Hc. }
  unfold ipc_send_msg, kern_desc. cbn [km_iov km_num_iov km_num_handles]. fold (one_buf ns_data len).
  pose proof (send_msg_locked_spec G k1 None (HChan c) _ (one_buf ns_data len) HI1 Hv Hr I) as Hs.
  assert (desc_ok (one_buf ns_data len)) as Hok by (apply Forall_cons; by split).
  assert (desc_readable (mems_of k1 None) (one_buf ns_data len)) as Hdr.
  { split; [cbn; lia|]. exists [bs]. cbn. by apply Forall2_cons_2, Forall2_nil_2. }
  specialize (Hs Hok Hdr). destruct (send_msg_locked None (HChan c) (one_buf ns_data len) k1) as [ret k2|] eqn:Es;
    unfold wp in *; rewrite Es in *; [|done]. destruct Hs as (HI2 & Ea2 & (Ep2 & El2 & _) & Hsend).
  intros s' Hacc Ek' _. pose proof Hacc as (Ed' & _).
  assert (kept_by k (ts_k (v_dev s'))) as Hkept.
  { rewrite Ek'. split; [done|]. split; [done|]. intros J HJ. apply marked_kmem.
    eapply (pres_marks _ _ _ _ ltac:(intros J'; apply (fr_send_msg any_list (fun c => J' !! c = None)), marked_keeper) Es). by apply marked_kmem. }
  split; [|split; [done|]].
  - unfold tipc_inv. rewrite Ed'. apply (tipc_ok_frame g g d k); [done|apply HO| |done]. rewrite Ek'. by eapply Inv_same; [apply same_objects_kmem|].
  - left. exists i, c. split; [done|]. split; [done|]. rewrite Ek'. by eapply (sends_forwarded G k k1).
Qed.
