(* ===== verification/TipcRx.v ===== *)
(** * A round of the receiving thread, end to end

    Virtio queue, mapping, dispatch, IPC and the answer in one: what
    [tipc_rx_round] does with one message of the non-secure side, which is idle
    from the moment it handed the buffer over. *)

From stdpp Require Import base tactics list gmap.
From Stdlib Require Import ZArith Lia.
From S2P Require Import Prelude Bitmap Iovec MsgQueue Kernel Channel Handle Uctx Ipc IpcMsg IpcInv IpcSafe IpcCalls IpcSys IpcEnv IpcSystem IpcFrame Shm Vqueue Tipc TipcInv TipcSafe TipcMsg.

(** ** One of the queues *)

Definition vq_state (q : vq_sel) (s : tstate) : vstate :=
  VState (vq_get q (ts_dev (v_dev s))) (v_regions s) (v_shm s) (v_env s) (v_vmm s).

Definition vq_back (q : vq_sel) (s : tstate) (v : vstate) : tstate :=
  VState (TSys (ts_k (v_dev s)) (vq_put q (v_dev v) (ts_dev (v_dev s)))) (v_regions v) (v_shm v) (v_env v) (v_vmm v).

Lemma on_vq_run {A} q (m : M vstate A) s a v : m (vq_state q s) = Ret a v -> on_vq q m s = Ret a (vq_back q s v).
Proof. intros E. unfold on_vq. unfold vq_state in E. by rewrite E. Qed.

(** The queues are no part of the invariant. *)
Lemma tipc_inv_back g q s v : tipc_inv g s -> tipc_inv g (vq_back q s v).
Proof. intros [H1 H2 H3 H4 H5 H6 H7 H8]. by destruct q; split. Qed.

Lemma connected_back q s v i remote c :
  connected_to (ts_dev (v_dev s)) i remote c -> connected_to (ts_dev (v_dev (vq_back q s v))) i remote c.
Proof. by destruct q. Qed.

(** ** A list of one buffer *)

Lemma one_segs l a n : iovs_wf l -> vi_cnt l = 1 -> iovs_segs l = [(a, n)] ->
  exists b, vi_used l = 1 /\ vi_phys l = [a] /\ vi_iovs l = [Iov b n].
Proof.
  intros (Hu & Hi & Hp) Hc. rewrite Hc in *. unfold iovs_segs. destruct (vi_iovs l) as [|[b n'] [|]]; try (cbn in Hi; lia).
  destruct (vi_phys l) as [|a' [|]]; try (cbn in Hp; lia). assert (vi_used l = 0 \/ vi_used l = 1) as [->| ->] by lia; [done|].
  cbn. intros [= -> ->]. by exists b.
Qed.

Lemma map_one l s a b n base answers :
  vi_cnt l = 1 -> vi_used l = 1 -> vi_phys l = [a] -> vi_iovs l = [Iov b n] ->
  a mod PAGE_SIZE = 0 -> iov_mappable (Iov b n) -> v_vmm s = Some base :: answers ->
  vqueue_map_iovs l s = Ret (NO_ERROR, VqueueIovs 1 1 (vi_len l) [a] [Iov base n])
    (v_set_vmm answers (v_set_regions ((base, ROUNDUP n PAGE_SIZE) :: v_regions s) s)).
Proof.
  intros Hc Hu Hp Hi Ha Hm Hv. destruct l as [cnt used len phys iovs]. cbn in *. subst. destruct (iov_mappable_size _ Hm) as [H0 H1]. cbn in H0, H1.
  unfold vqueue_map_iovs. erewrite run_bind by reflexivity. cbn [vi_used Z.to_nat Pos.to_nat Pos.iter_op map_loop].
  change (Z.to_nat 1) with 1%nat. cbn [map_loop vi_iovs vi_phys].
  do 2 (erewrite run_bind by reflexivity). cbv zeta. cbn [iov_len].
  erewrite run_bind by (by apply (vmm_alloc_some _ _ _ _ base answers)). done.
Qed.

Lemma unmap_one s a n base len R :
  base <> 0 -> 0 < n <= 2 ^ 32 - PAGE_SIZE -> v_regions s = (base, ROUNDUP n PAGE_SIZE) :: R -> regions_disj (v_regions s) ->
  exists l', vqueue_unmap_iovs (VqueueIovs 1 1 len [a] [Iov base n]) s = Ret l' (v_set_regions R s).
Proof.
  intros Hb Hn HR Hd. unfold vqueue_unmap_iovs. erewrite run_bind by reflexivity.
  apply unmap_loop_ok; cbn; rewrite ?HR; try done; try lia; try (by rewrite <- HR); by apply Forall_singleton.
Qed.

(** A range mapped before does not meet a new region. *)
Lemma in_regions_apart R r a n : in_regions R a n = true -> Forall (rdisj r) R -> 0 <= n -> a + n <= r.1 \/ r.1 + r.2 <= a.
Proof.
  unfold in_regions. intros (x & Hx & H)%existsb_exists Hd Hn. apply list_elem_of_In in Hx. rewrite Forall_forall in Hd.
  apply andb_true_iff in H as [H1%Z.leb_le H2%Z.leb_le]. destruct (Hd x Hx); lia.
Qed.

(** ** A message in the queue *)

(** The next buffer of the receive queue holds a message of [len] bytes from [src]
    to [dst]: one readable descriptor, page-aligned, that the allocator maps at
    [base], with a header that agrees with the descriptor. *)
Record rx_message (s : tstate) (head base len src dst : Z) (answers : list (option Z)) : Prop := {
  rx_open : vq_vring_addr (td_rx (ts_dev (v_dev s))) <> 0;
  rx_wf : vq_wf (vq_state TIPC_VQ_RX s);
  rx_idle : v_env s = [];
  rx_avail :
    let vq := td_rx (ts_dev (v_dev s)) in
    let idx := le_val (shm_bytes (v_shm s) (avail_idx_at (vq_vring vq)) 2) in
    idx <> vq_last_avail_idx vq /\ u16 (idx - vq_last_avail_idx vq) <= u16 (vr_num (vq_vring vq)) /\
    head = le_val (shm_bytes (v_shm s) (avail_ring_at (vq_vring vq) (vq_last_avail_idx vq mod vr_num (vq_vring vq))) 2);
  rx_desc : exists d, desc_chain (v_shm s) (vq_vring (td_rx (ts_dev (v_dev s)))) head [d] /\
    desc_writable d = false /\ d_len d = sizeof_tipc_hdr + len /\ u32 (d_addr d) mod PAGE_SIZE = 0;
  rx_map : v_vmm s = Some base :: answers /\ 0 < base /\ base + ROUNDUP (sizeof_tipc_hdr + len) PAGE_SIZE <= 2 ^ 32 /\
    regions_disj ((base, ROUNDUP (sizeof_tipc_hdr + len) PAGE_SIZE) :: v_regions s);
  rx_hdr : le_val (shm_bytes (v_shm s) base 4) = src /\ le_val (shm_bytes (v_shm s) (base + 4) 4) = dst /\
    le_val (shm_bytes (v_shm s) (base + 12) 2) = len;
}.

Lemma le_val_shm_bounds s a n : mem_ok (v_shm s) -> 0 <= le_val (shm_bytes (@v_shm tsys s) a n) < 256 ^ Z.of_nat n.
Proof. intros Hm. pose proof (le_val_bounds _ (shm_bytes_ok _ a n Hm)) as H. by rewrite shm_bytes_length in H. Qed.

(** The message, mapped at [base]. *)
Lemma rx_dispatch_msg await fuel g s base len i src c :
  tipc_inv g s -> mem_ok (v_shm s) -> v_env s = [] -> 0 < base -> base + sizeof_tipc_hdr + len <= 2 ^ 32 ->
  in_regions (v_regions s) base (sizeof_tipc_hdr + len) = true ->
  le_val (shm_bytes (v_shm s) base 4) = src -> le_val (shm_bytes (v_shm s) (base + 4) 4) = slot_to_addr i ->
  le_val (shm_bytes (v_shm s) (base + 12) 2) = len -> connected_to (ts_dev (v_dev s)) i src c ->
  wp (rx_dispatch await fuel (Iov base (sizeof_tipc_hdr + len))) (fun ret s' => tipc_inv g s' /\
    accessed (base + sizeof_tipc_hdr) (Z.to_nat len) s s' /\
    forwarded c (shm_bytes (v_shm s) (base + sizeof_tipc_hdr) (Z.to_nat len)) (ts_k (v_dev s)) ret (ts_k (v_dev s'))) s.
Proof.
  intros HO Hm He Hb Hend Hr Hsrc Hdst Hlen Hc. pose proof Hc as [Hi _]. destruct (slot_addr i Hi) as [Ea _].
  assert (0 <= len < 2 ^ 16) as Hl by (rewrite <- Hlen; apply (le_val_shm_bounds s (base + 12) 2 Hm)).
  unfold rx_dispatch. cbn [iov_len iov_base]. unfold sizeof_tipc_hdr in *. destruct (Z.ltb_spec (16 + len) 16); [lia|]. cbv zeta.
  wp_with (apply shm_read_idle; [done|by eapply in_regions_sub; [exact Hr|lia..]]).
  wp_with (apply shm_read_idle; [done|by eapply in_regions_sub; [exact Hr|lia..]]).
  wp_with (apply shm_read_idle; [done|by eapply in_regions_sub; [exact Hr|lia..]]).
  rewrite Hlen, Hsrc, Hdst. destruct (Z.eqb_spec (len + 16) (16 + len)); [|lia]. cbn [negb].
  unfold TIPC_CTRL_ADDR. destruct (Z.eqb_spec (slot_to_addr i) 53); [lia|].
  eapply wp_mono; [apply (handle_chan_msg_spec g s src (slot_to_addr i) (base + 16) len HO Hm); try lia; eapply in_regions_sub; [exact Hr|lia..]|].
  intros ret s' (HO' & Hacc & Hcase). split; [done|]. split; [done|]. destruct Hcase as [(j & c' & Ej & Hc' & Hf)|(_ & _ & Hno)].
  - assert (j = i) as -> by (destruct (slot_addr j (proj1 Hc')) as [E2 _]; lia).
    assert (c' = c) as -> by (destruct Hc as [_ E1], Hc' as [_ E2]; congruence).
    unfold snapshot, interfere, modify in Hf. by rewrite He in Hf.
  - by destruct (Hno i c).
Qed.

(** ** The round *)

(** What the used ring and the queue hold once the answer is published. *)
Definition rx_answered (s s' : tstate) (head ret : Z) : Prop :=
  let vq := td_rx (ts_dev (v_dev s)) in
  let vr := vq_vring vq in
  let idx := le_val (shm_bytes (v_shm s) (used_idx_at vr) 2) in
  let elem := used_ring_at vr (idx mod vr_num vr) in
  td_rx (ts_dev (v_dev s')) = vq_set_last_avail_idx (u16 (vq_last_avail_idx vq + 1)) vq /\
  le_val (shm_bytes (v_shm s') elem 4) = head /\ le_val (shm_bytes (v_shm s') (elem + 4) 4) = u32 ret /\
  le_val (shm_bytes (v_shm s') (used_idx_at vr) 2) = u16 (idx + 1).

(** [handle_rx_msg] on a buffer that holds one descriptor: map, dispatch, unmap. *)
Lemma handle_rx_msg_one await fuel g s buf a len base answers i src c :
  tipc_inv g s -> mem_ok (v_shm s) -> v_env s = [] ->
  iovs_wf (vb_in buf) -> vi_cnt (vb_in buf) = 1 -> iovs_segs (vb_in buf) = [(a, sizeof_tipc_hdr + len)] -> a mod PAGE_SIZE = 0 ->
  v_vmm s = Some base :: answers -> 0 < base -> base + ROUNDUP (sizeof_tipc_hdr + len) PAGE_SIZE <= 2 ^ 32 ->
  regions_disj ((base, ROUNDUP (sizeof_tipc_hdr + len) PAGE_SIZE) :: v_regions s) ->
  le_val (shm_bytes (v_shm s) base 4) = src -> le_val (shm_bytes (v_shm s) (base + 4) 4) = slot_to_addr i ->
  le_val (shm_bytes (v_shm s) (base + 12) 2) = len -> connected_to (ts_dev (v_dev s)) i src c ->
  wp (handle_rx_msg await fuel buf) (fun ret s' => tipc_inv g s' /\ v_regions s' = v_regions s /\ v_env s' = [] /\ v_vmm s' = answers /\
    ts_dev (v_dev s') = ts_dev (v_dev s) /\ mem_ok (v_shm s') /\
    forwarded c (shm_bytes (v_shm s) (base + sizeof_tipc_hdr) (Z.to_nat len)) (ts_k (v_dev s)) ret (ts_k (v_dev s')) /\
    forall x m, in_regions (v_regions s) x (Z.of_nat m) = true -> shm_bytes (v_shm s') x m = shm_bytes (v_shm s) x m) s.
Proof.
  intros HO Hm He Hwf Hcnt Hsegs Ha Hv Hb Hend Hd Hsrc Hdst Hlen Hc.
  assert (0 <= len < 2 ^ 16) as Hl by (rewrite <- Hlen; apply (le_val_shm_bounds s (base + 12) 2 Hm)).
  destruct (one_segs _ _ _ Hwf Hcnt Hsegs) as (b & Hu & Hp & Hi). set (n := sizeof_tipc_hdr + len) in *.
  assert (0 < n <= 2 ^ 32 - PAGE_SIZE) as Hn by (unfold n, sizeof_tipc_hdr, PAGE_SIZE; lia).
  destruct (ROUNDUP_spec n 12) as [Hge _]; [unfold n, sizeof_tipc_hdr; lia..|]. change (2 ^ 12) with PAGE_SIZE in Hge.
  unfold handle_rx_msg. rewrite Hu. cbn [Z.eqb].
  wp_with (by apply on_vq_run, (map_one (vb_in buf) (vq_state TIPC_VQ_RX s) a b n base answers)). set (v2 := v_set_vmm _ _).
  set (s2 := vq_back _ s v2). cbn [negb]. wp_with (reflexivity).
  assert (ts_dev (v_dev s2) = ts_dev (v_dev s)) as Ed2 by (cbn; by destruct (ts_dev (v_dev s))).
  apply wp_bind. eapply wp_mono; [apply (rx_dispatch_msg await fuel g s2 base len i src c); try done|].
  - by apply tipc_inv_back.
  - fold n. lia.
  - cbn. fold n. rewrite Z.leb_refl. by destruct (Z.leb_spec (base + n) (base + ROUNDUP n PAGE_SIZE)); [|lia].
  - intros ret s3 (HO3 & Hacc & Hf). destruct Hacc as (Ed3 & Er3 & Ev3 & Hm3 & Hid). destruct (Hid He) as [He3 Hshm3].
    destruct (unmap_one (vq_state TIPC_VQ_RX s3) a n base (vi_len (vb_in buf)) (v_regions s)) as (l' & Eu);
      [lia|done|done|by cbn; rewrite Er3|].
    wp_with (by apply on_vq_run, Eu). apply wp_ret. split; [by apply tipc_inv_back|].
    split; [done|]. split; [done|]. split; [done|].
    split; [rewrite <- Ed2, <- Ed3; cbn; by destruct (ts_dev (v_dev s3))|]. split; [done|]. split; [done|].
    intros x m Hx. cbn. apply Hshm3. destruct Hd as [Hd _]. apply (in_regions_apart _ _ _ _ Hx) in Hd; [|lia]. cbn in Hd.
    unfold n, sizeof_tipc_hdr in *. lia.
Qed.

Lemma tipc_rx_round_msg await fuel g s0 s buf head base len src answers i c :
  td_rx_stop (ts_dev (v_dev s0)) = false -> await s0 = Ret tt s -> tipc_inv g s ->
  buf_wf buf -> vi_cnt (vb_in buf) = 1 -> vi_cnt (vb_out buf) = 0 ->
  rx_message s head base len src (slot_to_addr i) answers -> connected_to (ts_dev (v_dev s)) i src c ->
  wp (tipc_rx_round await fuel buf) (fun r s' => exists buf' ret, r = Some buf' /\
    buf_wf buf' /\ vi_cnt (vb_in buf') = 1 /\ vi_cnt (vb_out buf') = 0 /\
    tipc_inv g s' /\ v_regions s' = v_regions s /\
    forwarded c (shm_bytes (v_shm s) (base + sizeof_tipc_hdr) (Z.to_nat len)) (ts_k (v_dev s)) ret (ts_k (v_dev s')) /\
    rx_answered s s' head ret) s0.
Proof.
  intros Hstop Haw HO Hb Hci Hco [Hopen Hwf Hidle (Hne & Hcnt & Hhead) (d & Hch & Hw & Hdl & Hda) (Hv & Hbase & Hend & Hdis) (Hs1 & Hs2 & Hs3)] Hc.
  unfold tipc_rx_round. apply wp_bind, wp_get_dev. rewrite Hstop. wp_with (exact Haw).
  destruct (vqueue_get_avail_buf_run buf (vq_state TIPC_VQ_RX s) [d]) as (b' & Eget & Hh & Hin & _ & Hb' & Hci' & Hco'); try done.
  { cbn -[shm_bytes]. by rewrite <- Hhead. }
  { unfold chain_fits. rewrite !filter_cons, decide_True, decide_False by (congruence || done). cbn. lia. }
  rewrite filter_cons, decide_True in Hin by done. cbn in Hin. unfold desc_seg in Hin. rewrite Hdl in Hin.
  wp_with (by apply on_vq_run, Eget). cbn [Z.eqb NO_ERROR ERR_CHANNEL_CLOSED ERR_NOT_ENOUGH_BUFFER]. set (v1 := v_set_vq _ _). set (s1 := vq_back _ s v1).
  apply wp_bind. eapply wp_mono.
  { apply (handle_rx_msg_one await fuel g s1 b' (u32 (d_addr d)) len base answers i src c); try done; try congruence.
    - by apply tipc_inv_back.
    - by apply Hwf.
    - apply Hb'. }
  intros ret s2 (HO2 & Er2 & He2 & Ev2 & Ed2 & Hm2 & Hf & Hsame).
  assert (vq_wf (vq_state TIPC_VQ_RX s2)) as Hwf2.
  { eapply (vq_wf_step (vq_state TIPC_VQ_RX s)); [split_and!|..]; cbn -[u16]; rewrite ?Ed2; try done. apply u16_bound. }
  assert (0 <= vb_head b' < vr_num (vq_vring (td_rx (ts_dev (v_dev s))))) as Hhd.
  { rewrite Hh. cbn -[shm_bytes]. rewrite <- Hhead. by inv Hch. }
  assert (td_rx (ts_dev (v_dev s2)) = vq_set_last_avail_idx (u16 (vq_last_avail_idx (td_rx (ts_dev (v_dev s))) + 1)) (td_rx (ts_dev (v_dev s)))) as Eq2 by (by rewrite Ed2).
  destruct (vqueue_add_buf_run b' ret (vq_state TIPC_VQ_RX s2)) as (m & Eadd & A1 & A2 & A3 & _); try done.
  { cbn. by rewrite Eq2. }
  { cbn. by rewrite Eq2. }
  assert (shm_bytes (v_shm s2) (used_idx_at (vq_vring (td_rx (ts_dev (v_dev s))))) 2 = shm_bytes (v_shm s) (used_idx_at (vq_vring (td_rx (ts_dev (v_dev s))))) 2) as Ei.
  { apply Hsame. cbn. eapply in_regions_sub; [apply (vw_used _ Hwf)| |]; cbn; unfold used_idx_at; [lia|]. pose proof (vw_num _ Hwf). cbn in *. lia. }
  cbn -[shm_bytes Z.modulo u16] in A1, A2, A3. rewrite Eq2 in A1, A2, A3. cbn -[shm_bytes Z.modulo u16] in A1, A2, A3. rewrite Ei in A1, A2, A3.
  wp_with (by apply on_vq_run, Eadd). cbn [Z.eqb NO_ERROR ERR_CHANNEL_CLOSED negb]. apply wp_ret. exists b', ret.
  split; [done|]. split; [done|]. split; [congruence|]. split; [congruence|]. split; [by apply tipc_inv_back|]. split; [done|]. split; [done|].
  unfold rx_answered. split; [cbn; by rewrite Eq2|]. split; [refine (eq_trans A1 (eq_trans Hh (eq_sym Hhead)))|]. done.
Qed.
