(* ===== verification/TipcTx.v ===== *)
(** * Forwarding a message of an app, end to end

    What one turn of the loop of [handle_tx_msg] does: the oldest message of the
    device's end of the channel is fetched, copied behind a header into the next
    buffer the non-secure side has provided, the buffer is handed back, and the
    message is retired. *)

From stdpp Require Import base tactics list gmap.
From Stdlib Require Import ZArith Lia.
From S2P Require Import Prelude Bitmap Iovec MsgQueue Kernel Channel Handle Uctx Ipc IpcMsg IpcInv IpcSafe IpcCalls IpcSys IpcEnv IpcSystem IpcFrame Shm Vqueue Tipc TipcInv TipcSafe TipcMsg TipcRx.

(** ** Copying a message to one buffer *)

Lemma mem_read_shm m a n bs : 0 <= a -> a + Z.of_nat n <= 2 ^ 32 -> mem_read m a n = Some bs -> shm_bytes m a n = bs.
Proof.
  revert a bs. induction n as [|n IH]; intros a bs Ha Hl H; cbn [mem_read] in H; [by injection H as <-|].
  destruct (m !! a) as [b|] eqn:Eb; [|done]. cbn in H. destruct (mem_read m (u32 (a + 1)) n) as [bs'|] eqn:Er; [|done]. cbn in H. injection H as <-.
  unfold shm_bytes. rewrite <- cons_seq, <- fmap_S_seq, fmap_cons, <- list_fmap_compose. f_equal; [by rewrite Z.add_0_r, Eb|].
  destruct n as [|n]; [cbn in Er; by simplify_eq|]. rewrite <- (IH (a + 1) bs'); [|lia|lia|].
  - apply list_fmap_ext. intros _ i _. cbn. do 2 f_equal. lia.
  - rewrite <- Er. f_equal. unfold u32. symmetry. apply Z.mod_small. lia.
Qed.

Lemma shm_bytes_take m a n k : (k <= n)%nat -> take k (shm_bytes m a n) = shm_bytes m a k.
Proof. intros Hk. unfold shm_bytes. by rewrite <- fmap_take, take_seq, Nat.min_l. Qed.

(** [membuf_to_kern_iovec] with one buffer of [n] mapped bytes. *)
Lemma scatter_one ms a n buf len old :
  0 < a -> a + n <= 2 ^ 32 -> 0 <= n -> 0 <= len <= Z.of_nat (length buf) -> mem_read (m_kern ms) a (Z.to_nat n) = Some old ->
  exists ms', msg_scatter ms (one_buf a n) buf len = Some (Z.min len n, ms') /\
    shm_bytes (m_kern ms') a (Z.to_nat (Z.min len n)) = take (Z.to_nat (Z.min len n)) buf.
Proof.
  intros Ha Hn H0 Hl Hrd. unfold msg_scatter, one_buf. cbn [Z.eqb negb]. unfold membuf_to_kern_iovec. cbn [Z.eqb orb].
  destruct (Z.eqb_spec len 0) as [->|Hne].
  { cbn. eexists. split; [rewrite Z.min_l by lia; done|]. rewrite Z.min_l by lia. done. }
  change (Z.to_nat 1) with 1%nat. cbn [membuf_to_kern_loop head tail mbind option_bind iov_len iov_base]. rewrite clamp_min.
  set (t := Z.min len n) in *. destruct (Z.eqb_spec t 0) as [Ht|Ht].
  { cbn. eexists. split; [by rewrite Ht|]. by rewrite Ht. }
  destruct (Z.eqb_spec a 0); [lia|]. set (bs := take (Z.to_nat t) buf).
  assert (length bs = Z.to_nat t) as Hbl by (unfold bs; rewrite length_take; lia).
  pose proof (mem_read_take _ _ _ (Z.to_nat t) _ Hrd ltac:(lia)) as Hrt. rewrite <- Hbl in Hrt.
  pose proof (mem_write_mapped _ _ _ _ Hrt) as Hw. destruct (mem_write (m_kern ms) a bs) as [ok km'] eqn:Ew. cbn in Hw. subst ok.
  pose proof (mem_write_read _ _ _ _ Ew ltac:(lia) ltac:(lia)) as Hr.
  destruct (Z.eqb_spec (len - t) 0); cbn; eexists; (split; [done|]); cbn; rewrite <- Hbl; apply mem_read_shm; done || lia.
Qed.

(** A channel of the table, as the IPC routines want it. *)
Lemma in_table_live g d k i c : tipc_ok g d k -> in_table d i (HChan c) ->
  exists x, hview k (HChan c) = Some x /\ 0 < h_refcnt x.
Proof.
  intros HO Hin. destruct (in_table_view g d k i _ HO Hin) as (c' & ch & [= <-] & Hc & _). exists (c_handle ch).
  assert (hview k (HChan c) = Some (c_handle ch)) as Hv by (cbn; by rewrite Hc). split; [done|].
  apply (live_refcnt _ k (HChan c) _ (to_inv g d k HO) Hv). left. apply elem_of_app. left. by eapply in_table_own.
Qed.

Lemma tx_data_cb_spec g s i c q id b dst sz :
  tipc_inv g s -> mem_ok (v_shm s) -> in_table (ts_dev (v_dev s)) i (HChan c) ->
  queue_of (ts_k (v_dev s)) (HChan c) = Some q -> (id, b) ∈ aq_read (mq_abs q) ->
  0 < dst -> 0 <= sz -> dst + sz <= 2 ^ 32 -> in_regions (v_regions s) dst sz = true ->
  let n := Z.min (Z.of_nat (length b)) sz in
  wp (tx_data_cb (HChan c) (Z.of_nat id) dst sz) (fun ret s' => ret = n /\ tipc_inv g s' /\ accessed dst (Z.to_nat sz) s s' /\
    k_chans (ts_k (v_dev s')) = k_chans (ts_k (v_dev s)) /\
    shm_bytes (v_shm s') dst (Z.to_nat n) = u8 <$> take (Z.to_nat n) b) s.
Proof.
  intros HO Hm Hin Hq Hb Hd Hs Hend Hreg n. set (d := ts_dev (v_dev s)) in *. set (k := ts_k (v_dev s)) in *.
  pose proof (to_inv g d k HO) as HI. set (G := own_all (ept_chans (td_epts d)) g) in *.
  destruct (in_table_live g d k i c HO Hin) as (x & Hx & Hr). pose proof (queue_wf G k _ q HI Hq) as Hwf.
  unfold tx_data_cb. apply wp_bind, wp_assert; [by destruct (Z.eqb_spec dst 0); [lia|]|].
  apply wp_with_kmem; [by rewrite Z2Nat.id|done|]. destruct (snapshot_ok s dst (Z.to_nat sz) Hm) as [Hsl _].
  set (old := snapshot _ _ _) in *. clearbody old. fold k. set (k1 := set_k_kmem _ k).
  assert (Inv G k1) as HI1 by (eapply Inv_same; [apply same_objects_kmem|done]).
  destruct (msg_read_spec (mems_of k1 None) q id b 0 (one_buf dst sz) Hwf Hb ltac:(lia)) as (buf & Ht & Hbl & Er).
  change (Z.to_nat 0) with 0%nat in Ht, Hbl. rewrite Nat.sub_0_r in Ht, Hbl. rewrite drop_0 in Ht.
  destruct (scatter_one (mems_of k1 None) dst sz buf (Z.of_nat (length b)) old) as (ms' & Esc & Hbytes); try lia.
  { cbn. rewrite <- Hsl. apply mem_seg_read; lia. }
  rewrite Z.sub_0_r, Esc in Er. fold n in Er, Hbytes.
  assert (take (Z.to_nat n) buf = take (Z.to_nat n) b) as Etk by (rewrite <- Ht, take_take; f_equal; lia).
  unfold ipc_read_msg, kern_desc. cbn [km_iov km_num_iov km_num_handles]. fold (one_buf dst sz).
  assert (queue_of k1 (HChan c) = Some q) as Hq1 by done.
  pose proof (read_msg_locked_spec G k1 None (HChan c) x (Z.of_nat id) 0 (one_buf dst sz) HI1 Hx Hr) as Hw.
  specialize (Hw ltac:(by eexists) I ltac:(intros q' E; rewrite Hq1 in E; injection E as <-; rewrite Er; by eexists)).
  destruct (read_msg_locked None (HChan c) (Z.of_nat id) 0 (one_buf dst sz) k1) as [ret k2|] eqn:Es; unfold wp in *; rewrite Es in *; [|done].
  destruct Hw as (HI2 & Ht2 & (_ & El2 & _) & Ec2 & Ea2 & Hms). cbn match in Hms. rewrite Hq1 in Hms.
  destruct Hms as (ms2 & E2 & Em2 & _). rewrite Er in E2. injection E2 as <- <-.
  intros s' Hacc Ek' Hsh. pose proof Hacc as (Ed' & _).
  assert (kept_by k (ts_k (v_dev s'))) as Hkept.
  { rewrite Ek'. split; [by apply Ea2|]. split; [done|]. intros J HJ. apply marked_kmem.
    eapply (pres_marks _ _ _ _ ltac:(intros J'; apply (fr_read_msg any_list (fun c => J' !! c = None)), marked_keeper) Es). by apply marked_kmem. }
  split; [done|]. split; [|split; [done|split]].
  - unfold tipc_inv. rewrite Ed'. apply (tipc_ok_frame g g d k); [done|apply HO| |done]. rewrite Ek'. by eapply Inv_same; [apply same_objects_kmem|].
  - by rewrite Ek'.
  - rewrite <- (shm_bytes_take _ _ (Z.to_nat sz)), Hsh, <- fmap_take, shm_bytes_take by lia. by rewrite Em2, Hbytes, Etk.
Qed.

(** ** A header and its data in one buffer *)

Lemma shm_bytes_app m a n k : shm_bytes m a (n + k) = shm_bytes m a n ++ shm_bytes m (a + Z.of_nat n) k.
Proof.
  unfold shm_bytes. rewrite seq_app, fmap_app. f_equal. rewrite Nat.add_0_l. rewrite <- (Nat.add_0_r n) at 1. rewrite <- (fmap_add_seq n 0 k), <- list_fmap_compose.
  apply list_fmap_ext. intros _ i _. cbn. do 2 f_equal. lia.
Qed.

Lemma shm_store_le m a n v : shm_bytes (shm_store m a (le_bytes n v)) a n = le_bytes n v.
Proof. pose proof (shm_store_bytes m a (le_bytes n v)) as H. by rewrite le_bytes_length in H. Qed.

(** The bytes of [struct tipc_hdr]. *)
Definition hdr_bytes (src dst len : Z) : list Z :=
  le_bytes 4 src ++ le_bytes 4 dst ++ le_bytes 4 0 ++ le_bytes 2 len ++ le_bytes 2 0.

Lemma put_hdr_run a src dst len s :
  v_env s = [] -> mem_ok (v_shm s) -> in_regions (v_regions s) a sizeof_tipc_hdr = true ->
  exists m, put_hdr a src dst len s = Ret tt (v_set_shm m s) /\ shm_bytes m a 16 = hdr_bytes src dst len /\ mem_ok m /\
    forall x n, x + Z.of_nat n <= a \/ a + sizeof_tipc_hdr <= x -> shm_bytes m x n = shm_bytes (v_shm s) x n.
Proof.
  intros He Hm Hr. unfold sizeof_tipc_hdr in *. assert (forall off n, 0 <= off -> off + Z.of_nat n <= 16 -> in_regions (v_regions s) (a + off) (Z.of_nat n) = true) as Hin.
  { intros off n ? ?. eapply in_regions_sub; [exact Hr|lia..]. }
  unfold put_hdr. erewrite run_bind by (apply shm_write_idle; [done|rewrite <- (Z.add_0_r a); by apply (Hin 0 4%nat)]).
  erewrite run_bind by (apply shm_write_idle; [done|by apply (Hin 4 4%nat)]).
  erewrite run_bind by (apply shm_write_idle; [done|by apply (Hin 8 4%nat)]).
  erewrite run_bind by (apply shm_write_idle; [done|by apply (Hin 12 2%nat)]).
  rewrite shm_write_idle by (done || by apply (Hin 14 2%nat)). cbn [v_shm v_set_shm]. eexists. split; [done|].
  split; [|split].
  - change 16%nat with (4 + (4 + (4 + (2 + 2))))%nat. rewrite !shm_bytes_app, <- !Z.add_assoc. cbn -[shm_bytes le_bytes shm_store].
    unfold hdr_bytes. repeat f_equal; rewrite ?shm_store_other by (rewrite le_bytes_length; lia); rewrite shm_store_le; done.
  - repeat (apply shm_store_ok; [|apply le_bytes_ok]). done.
  - intros x n Hx. by rewrite !shm_store_other by (rewrite le_bytes_length; lia).
Qed.

(** The next buffer of the transmit queue: one writable descriptor of [n] bytes,
    page-aligned, that the allocator maps at [base]. *)
Record tx_buffer (s : tstate) (head base n : Z) (answers : list (option Z)) : Prop := {
  tx_open : vq_vring_addr (td_tx (ts_dev (v_dev s))) <> 0;
  tx_wf : vq_wf (vq_state TIPC_VQ_TX s);
  tx_idle : v_env s = [];
  tx_avail :
    let vq := td_tx (ts_dev (v_dev s)) in
    let idx := le_val (shm_bytes (v_shm s) (avail_idx_at (vq_vring vq)) 2) in
    idx <> vq_last_avail_idx vq /\ u16 (idx - vq_last_avail_idx vq) <= u16 (vr_num (vq_vring vq)) /\
    head = le_val (shm_bytes (v_shm s) (avail_ring_at (vq_vring vq) (vq_last_avail_idx vq mod vr_num (vq_vring vq))) 2);
  tx_desc : exists d, desc_chain (v_shm s) (vq_vring (td_tx (ts_dev (v_dev s)))) head [d] /\
    desc_writable d = true /\ d_len d = n /\ u32 (d_addr d) mod PAGE_SIZE = 0;
  tx_map : v_vmm s = Some base :: answers /\ 0 < base /\ sizeof_tipc_hdr <= n <= 2 ^ 32 - PAGE_SIZE /\
    base + ROUNDUP n PAGE_SIZE <= 2 ^ 32 /\ regions_disj ((base, ROUNDUP n PAGE_SIZE) :: v_regions s);
}.

(** What the used ring and the queue hold once the buffer is handed back. *)
Definition tx_published (s s' : tstate) (head ret : Z) : Prop :=
  let vq := td_tx (ts_dev (v_dev s)) in
  let vr := vq_vring vq in
  let idx := le_val (shm_bytes (v_shm s) (used_idx_at vr) 2) in
  let elem := used_ring_at vr (idx mod vr_num vr) in
  td_tx (ts_dev (v_dev s')) = vq_set_last_avail_idx (u16 (vq_last_avail_idx vq + 1)) vq /\
  le_val (shm_bytes (v_shm s') elem 4) = head /\ le_val (shm_bytes (v_shm s') (elem + 4) 4) = u32 ret /\
  le_val (shm_bytes (v_shm s') (used_idx_at vr) 2) = u16 (idx + 1).

(** The bytes that fit behind the header of a buffer of [n]. *)
Definition tx_room (len n : Z) : Z := Z.min len (n - sizeof_tipc_hdr).

Lemma tx_room_cut len n : 0 <= len < 2 ^ 16 -> sizeof_tipc_hdr <= n ->
  (if sizeof_tipc_hdr + len >? n then u16 (n - sizeof_tipc_hdr) else len) = tx_room len n.
Proof.
  intros Hl Hn. unfold tx_room. destruct (Z.gtb_spec (sizeof_tipc_hdr + len) n); [|lia].
  rewrite Z.min_r by lia. unfold u16. apply Z.mod_small. lia.
Qed.

(** The callback, called behind the header at [dst] with [sz] bytes of room in a
    state with the endpoints and kernel objects of [s0]: it fills a part of the room. *)
Definition cb_fills (g : ghost) (cb : Z -> Z -> T Z) (s0 : tstate) (dst sz : Z) (P : Z -> tstate -> Prop) : Prop :=
  forall s, tipc_inv g s -> mem_ok (v_shm s) -> v_env s = [] -> ts_k (v_dev s) = ts_k (v_dev s0) ->
    td_epts (ts_dev (v_dev s)) = td_epts (ts_dev (v_dev s0)) -> in_regions (v_regions s) dst sz = true ->
    wp (cb dst sz) (fun ret s' => tipc_inv g s' /\ accessed dst (Z.to_nat sz) s s' /\ P ret s') s.

Lemma fill_tx_buf_one g s buf a n base answers local remote cb len P :
  tipc_inv g s -> mem_ok (v_shm s) -> v_env s = [] -> 0 <= len < 2 ^ 16 ->
  iovs_wf (vb_out buf) -> vi_cnt (vb_out buf) = 1 -> iovs_segs (vb_out buf) = [(a, n)] -> a mod PAGE_SIZE = 0 ->
  v_vmm s = Some base :: answers -> 0 < base -> sizeof_tipc_hdr <= n <= 2 ^ 32 - PAGE_SIZE ->
  regions_disj ((base, ROUNDUP n PAGE_SIZE) :: v_regions s) ->
  let dst := base + sizeof_tipc_hdr in
  let sz := tx_room len n in
  cb_fills g cb s dst sz P ->
  wp (fill_tx_buf local remote cb len buf) (fun ret s' => exists r s2, ret = (if r >=? 0 then r + sizeof_tipc_hdr else r) /\
    P r s2 /\ ts_k (v_dev s') = ts_k (v_dev s2) /\ v_shm s' = v_shm s2 /\
    tipc_inv g s' /\ v_regions s' = v_regions s /\ v_env s' = [] /\ v_vmm s' = answers /\
    ts_dev (v_dev s') = ts_dev (v_dev s) /\ mem_ok (v_shm s') /\
    shm_bytes (v_shm s') base 16 = hdr_bytes local remote len /\
    forall x m, in_regions (v_regions s) x (Z.of_nat m) = true -> shm_bytes (v_shm s') x m = shm_bytes (v_shm s) x m) s.
Proof.
  intros HO Hm He Hl Hwf Hcnt Hsegs Ha Hv Hb Hn Hd dst sz Hcb. destruct (one_segs _ _ _ Hwf Hcnt Hsegs) as (b & Hu & Hp & Hi).
  destruct (ROUNDUP_spec n 12) as [Hge _]; [unfold sizeof_tipc_hdr, PAGE_SIZE in *; lia..|]. change (2 ^ 12) with PAGE_SIZE in Hge.
  unfold fill_tx_buf. cbv zeta. rewrite Hu, Hi. cbn [Z.eqb]. wp_with (reflexivity). cbn [iov_len]. destruct (Z.gtb_spec sizeof_tipc_hdr n); [lia|].
  assert (iov_mappable (Iov b n)) as Hmap by (split; cbn; unfold sizeof_tipc_hdr, PAGE_SIZE in *; lia).
  wp_with (by apply on_vq_run, (map_one (vb_out buf) (vq_state TIPC_VQ_TX s) a b n base answers)). set (v2 := v_set_vmm _ _).
  set (s2 := vq_back _ s v2). cbn [negb Z.eqb NO_ERROR vi_iovs]. wp_with (reflexivity). cbn [iov_base iov_len].
  assert (ts_dev (v_dev s2) = ts_dev (v_dev s)) as Ed2 by (cbn; by destruct (ts_dev (v_dev s))).
  assert (in_regions (v_regions s2) base n = true) as Hr2 by (cbn; rewrite Z.leb_refl; by destruct (Z.leb_spec (base + n) (base + ROUNDUP n PAGE_SIZE)); [|lia]).
  destruct (put_hdr_run base local remote len s2) as (m & Eh & Hh & Hm2 & Hoth); [done|done|eapply in_regions_sub; [exact Hr2|lia..]|].
  wp_with (exact Eh). set (s3 := v_set_shm m s2). rewrite tx_room_cut by lia. fold dst sz.
  assert (0 <= sz /\ sz + sizeof_tipc_hdr <= n) as Hsz by (unfold sz, tx_room; lia).
  apply wp_bind. eapply wp_mono; [apply (Hcb s3); [by apply (tipc_inv_back g TIPC_VQ_TX s v2)|done..|]|].
  { eapply in_regions_sub; [exact Hr2|unfold dst, sizeof_tipc_hdr in *; lia..]. }
  intros r s4 (HO4 & (Ed4 & Er4 & Ev4 & Hm4 & Hid) & HP). destruct (Hid He) as [He4 Hshm4].
  destruct (unmap_one (vq_state TIPC_VQ_TX s4) a n base (vi_len (vb_out buf)) (v_regions s)) as (l' & Eu);
    [lia|unfold sizeof_tipc_hdr in *; lia|done|by cbn; rewrite Er4|].
  wp_with (by apply on_vq_run, Eu). apply wp_ret. exists r, s4. split; [done|]. split; [done|]. split; [done|]. split; [done|].
  split; [by apply tipc_inv_back|]. split; [done|]. split; [done|]. split; [done|].
  split; [rewrite <- Ed2; change (ts_dev (v_dev s2)) with (ts_dev (v_dev s3)); rewrite <- Ed4; cbn; by destruct (ts_dev (v_dev s4))|].
  split; [done|]. split.
  - cbn [v_shm vq_back v_set_regions vq_state]. rewrite Hshm4 by (unfold dst, sizeof_tipc_hdr; lia). exact Hh.
  - intros x k Hx. destruct Hd as [Hd _]. apply (in_regions_apart _ _ _ _ Hx) in Hd; [|lia]. cbn [fst snd] in Hd.
    cbn [v_shm vq_back v_set_regions vq_state]. rewrite Hshm4 by (unfold dst, sizeof_tipc_hdr in *; lia). apply Hoth. unfold sizeof_tipc_hdr in *; lia.
Qed.

Lemma tipc_send_data_one await fuel g s head base n answers local remote cb len P wait :
  tipc_inv g s -> tx_buffer s head base n answers -> 0 <= len < 2 ^ 16 ->
  let dst := base + sizeof_tipc_hdr in
  cb_fills g cb s dst (tx_room len n) P ->
  wp (tipc_send_data await (S fuel) local remote cb len wait) (fun _ s' => exists r s2,
    P r s2 /\ ts_k (v_dev s') = ts_k (v_dev s2) /\ tipc_inv g s' /\ v_regions s' = v_regions s /\ v_env s' = [] /\ v_vmm s' = answers /\
    tx_published s s' head (if r >=? 0 then r + sizeof_tipc_hdr else r) /\
    td_epts (ts_dev (v_dev s')) = td_epts (ts_dev (v_dev s)) /\
    shm_bytes (v_shm s') base 16 = hdr_bytes local remote len /\
    shm_bytes (v_shm s') dst (Z.to_nat (tx_room len n)) = shm_bytes (v_shm s2) dst (Z.to_nat (tx_room len n))) s.
Proof.
  intros HO [Hopen Hwf He (Hne & Hcnt & Hhead) (d & Hch & Hw & Hdl & Hda) (Hv & Hbase & Hn & Hend & Hdis)] Hl dst Hcb.
  unfold tipc_send_data. cbn [get_tx_buf].
  destruct (vqueue_get_avail_buf_run tx_buf (vq_state TIPC_VQ_TX s) [d]) as (b' & Eget & Hh & _ & Hout & Hb' & _ & Hco'); try done.
  { cbn -[shm_bytes]. by rewrite <- Hhead. }
  { unfold chain_fits. rewrite !filter_cons, decide_False, decide_True by (congruence || done). cbn. lia. }
  rewrite filter_cons, decide_True in Hout by done. cbn in Hout. unfold desc_seg in Hout. rewrite Hdl in Hout.
  apply wp_bind. wp_with (by apply on_vq_run, Eget). cbn [Z.eqb NO_ERROR]. set (v1 := v_set_vq _ _). set (s1 := vq_back _ s v1).
  apply wp_ret. apply wp_bind. eapply wp_mono.
  { apply (fill_tx_buf_one g s1 b' (u32 (d_addr d)) n base answers local remote cb len P); try done.
    - by apply tipc_inv_back.
    - by apply Hwf.
    - apply Hb'. }
  intros ret s2 (r & s3 & -> & HP & Ek3 & Em3 & HO2 & Er2 & He2 & Ev2 & Ed2 & Hm2 & Hhdr & Hsame). set (ret := if r >=? 0 then _ else _).
  set (vr := vq_vring (td_tx (ts_dev (v_dev s)))) in *.
  assert (vq_wf (vq_state TIPC_VQ_TX s2)) as Hwf2.
  { eapply (vq_wf_step (vq_state TIPC_VQ_TX s)); [split_and!|..]; cbn -[u16]; rewrite ?Ed2; try done. apply u16_bound. }
  assert (0 <= vb_head b' < vr_num vr) as Hhd.
  { rewrite Hh. cbn -[shm_bytes]. fold vr. rewrite <- Hhead. by inv Hch. }
  assert (td_tx (ts_dev (v_dev s2)) = vq_set_last_avail_idx (u16 (vq_last_avail_idx (td_tx (ts_dev (v_dev s))) + 1)) (td_tx (ts_dev (v_dev s)))) as Eq2 by (by rewrite Ed2).
  destruct (vqueue_add_buf_run b' ret (vq_state TIPC_VQ_TX s2)) as (m & Eadd & A1 & A2 & A3 & A4 & _); try done.
  { cbn. by rewrite Eq2. }
  { cbn. by rewrite Eq2. }
  assert (in_regions (v_regions s) (vr_used vr) (6 + 8 * vr_num vr) = true) as Hused by apply (vw_used _ Hwf).
  assert (shm_bytes (v_shm s2) (used_idx_at vr) 2 = shm_bytes (v_shm s) (used_idx_at vr) 2) as Ei.
  { apply Hsame. cbn. eapply in_regions_sub; [exact Hused| |]; cbn; unfold used_idx_at; [lia|]. pose proof (vw_num _ Hwf) as H. cbn in H. fold vr in H. lia. }
  cbn -[shm_bytes Z.modulo u16] in A1, A2, A3, A4. rewrite Eq2 in A1, A2, A3, A4. cbn -[shm_bytes Z.modulo u16] in A1, A2, A3, A4. fold vr in A1, A2, A3, A4. rewrite Ei in A1, A2, A3.
  assert (vr_used vr + 6 + 8 * vr_num vr <= base \/ base + n <= vr_used vr) as Hap.
  { pose proof (vw_num _ Hwf) as H. cbn in H. fold vr in H. destruct Hdis as [Hdis _]. apply (in_regions_apart _ _ _ _ Hused) in Hdis; [|lia]. cbn [fst snd] in Hdis.
    destruct (ROUNDUP_spec n 12) as [Hge _]; [unfold sizeof_tipc_hdr, PAGE_SIZE in *; lia..|]. change (2 ^ 12) with PAGE_SIZE in Hge. lia. }
  assert (0 <= tx_room len n /\ tx_room len n + sizeof_tipc_hdr <= n) as Hroom by (unfold tx_room; lia).
  eapply wp_run; [by apply on_vq_run, Eadd|]. exists r, s3. split; [done|]. split; [done|]. split; [by apply tipc_inv_back|].
  split; [done|]. split; [done|]. split; [done|]. split; [|split; [|split]].
  - split; [cbn; by rewrite Eq2|]. split; [refine (eq_trans A1 (eq_trans Hh (eq_sym Hhead)))|]. done.
  - cbn. by rewrite Ed2.
  - cbn [v_shm vq_back v_set_shm]. rewrite A4; [done|]. unfold sizeof_tipc_hdr in *. lia.
  - cbn [v_shm vq_back v_set_shm]. rewrite A4; [by rewrite Em3|]. unfold dst, sizeof_tipc_hdr in *. lia.
Qed.

(** ** One turn of the loop *)

(** A routine that leaves the apps, the handle lists and the cookies alone. *)
Lemma wp_on_k_keeps {A} g s (m : K A) (Q : A -> kstate -> Prop) :
  let k := ts_k (v_dev s) in
  tipc_inv g s -> (forall J, pres (Marked J) m (fun _ => True)) ->
  wp m (fun r k' => Inv (own_all (ept_chans (td_epts (ts_dev (v_dev s)))) g) k' /\ k_apps k' = k_apps k /\ frame_m k k' /\ Q r k') k ->
  wp (on_k m) (fun r s' => exists k', s' = set_k k' s /\ tipc_inv g s' /\ Q r k') s.
Proof.
  intros k HO Hp Hm. apply wp_on_k. fold k. unfold wp in *. destruct (m k) as [r k'|] eqn:E; [|done].
  destruct Hm as (HI & Ea & (_ & El & _) & HQ). exists k'. split; [done|]. split; [|done].
  unfold tipc_inv. cbn. apply (tipc_ok_frame g g _ k); [|apply HO|done|exact HO]. split; [done|]. split; [done|]. by apply (pres_marks m k r).
Qed.

Lemma queue_filled_msg q i b rest : aq_filled (mq_abs q) = (i, b) :: rest ->
  exists l, mq_filled q = i :: l /\ mq_msg q i = (i, b) /\ (mq_msg q <$> l) = rest.
Proof. cbn. destruct (mq_filled q) as [|j l]; [done|]. cbn. intros [= -> Eb <-]. exists l. split; [done|]. split; [|done]. unfold mq_msg in *. by f_equal. Qed.

(** Fetching a message and retiring it removes it. *)
Lemma aq_get_put q i b rest : mq_wf q -> aq_filled (mq_abs q) = (i, b) :: rest ->
  aq_put i (AQueue (length (mq_items q)) rest (aq_read (mq_abs q) ++ [(i, b)])) = AQueue (length (mq_items q)) rest (aq_read (mq_abs q)).
Proof.
  intros Hwf (l & El & _ & _)%queue_filled_msg. unfold aq_put. cbn. f_equal. rewrite filter_app, filter_cons, decide_False, app_nil_r by naive_solver.
  pose proof (wf_nodup q Hwf) as Hnd. rewrite El in Hnd. apply NoDup_app in Hnd as (_ & _ & Hnd). cbn in Hnd. apply NoDup_cons in Hnd as [Hi _].
  apply mq_msgs_filter. intros Hr. apply Hi. apply elem_of_app. by right.
Qed.

Lemma msg_put_read_in q i b : mq_wf q -> (i, b) ∈ aq_read (mq_abs q) -> exists q', msg_put_read q (Z.of_nat i) = Some q'.
Proof.
  intros Hwf Hin. cbn in Hin. apply list_elem_of_fmap in Hin as (j & Hj & Hin). unfold mq_msg in Hj. injection Hj as <- _.
  assert (i < length (mq_items q))%nat as Hi by (apply (wf_dom q Hwf); list_mem). apply lookup_lt_is_Some in Hi as [it Hit].
  destruct (msg_put_read_spec q i it) as (q' & E & _); [done|done| |by exists q']. by apply (wf_item q Hwf i it Hit).
Qed.

Lemma tx_buffer_k s k head base n answers : tx_buffer s head base n answers -> tx_buffer (set_k k s) head base n answers.
Proof. intros [H1 H2 H3 H4 H5 H6]. by split. Qed.

Lemma tx_loop_turn await n fuel g s i c remote q id b rest head base sz answers :
  tipc_inv g s -> in_table (ts_dev (v_dev s)) i (HChan c) -> tx_buffer s head base sz answers ->
  queue_of (ts_k (v_dev s)) (HChan c) = Some q -> aq_filled (mq_abs q) = (id, b) :: rest -> Z.of_nat (length b) < 2 ^ 16 ->
  let r := tx_room (Z.of_nat (length b)) sz in
  exists s' q', tx_msg_loop await (S n) (S fuel) remote (HChan c) s = tx_msg_loop await n (S fuel) remote (HChan c) s' /\
    tipc_inv g s' /\ v_regions s' = v_regions s /\ v_vmm s' = answers /\ td_epts (ts_dev (v_dev s')) = td_epts (ts_dev (v_dev s)) /\
    queue_of (ts_k (v_dev s')) (HChan c) = Some q' /\ mq_abs q' = AQueue (length (mq_items q)) rest (aq_read (mq_abs q)) /\
    (forall h, h <> HChan c -> queue_of (ts_k (v_dev s')) h = queue_of (ts_k (v_dev s)) h) /\
    tx_published s s' head (r + sizeof_tipc_hdr) /\
    shm_bytes (v_shm s') base 16 = hdr_bytes 0 remote (Z.of_nat (length b)) /\
    shm_bytes (v_shm s') (base + sizeof_tipc_hdr) (Z.to_nat r) = u8 <$> take (Z.to_nat r) b.
Proof.
  intros HO Hin Hb Hq Hf Hlen r. pose proof (to_inv _ _ _ HO) as HI. destruct (in_table_live g _ _ i c HO Hin) as (x & Hx & Hr).
  pose proof (queue_wf _ _ _ q HI Hq) as Hwf. destruct (queue_filled_msg q id b rest Hf) as (l & El & Emsg & Erest).
  cbn [tx_msg_loop].
  assert (wp (on_k (ipc_get_msg (HChan c))) (fun r s' => exists k', s' = set_k k' s /\ tipc_inv g s' /\
    r = (NO_ERROR, Some (Z.of_nat (length b), Z.of_nat id)) /\ exists q', with_queue_of (HChan c) q' (ts_k (v_dev s)) k' /\
      mq_abs q' = AQueue (length (mq_items q)) rest (aq_read (mq_abs q) ++ [(id, b)])) s) as Hget.
  { apply wp_on_k_keeps; [done|intros J; apply (fr_get_msg any_list (fun c => J !! c = None)), marked_keeper|].
    eapply wp_mono; [apply (get_msg_locked_spec _ _ (HChan c) x HI Hx Hr); unfold has_queue; by rewrite Hq|].
    intros r0 k' (H1 & H2 & H3 & H4). split; [done|]. split; [done|]. split; [done|]. rewrite Hq, El in H4. by rewrite Emsg, Erest in H4. }
  apply wp_ex in Hget as (r1 & s1 & E1 & k1 & -> & HO1 & -> & q1 & Hw1 & Ha1). rewrite (run_bind _ _ _ _ _ E1). cbn [Z.eqb negb NO_ERROR ERR_NO_MSG].
  erewrite run_bind by reflexivity. set (s1 := set_k k1 s) in *.
  cbn beta iota. assert (u16 (Z.of_nat (length b)) = Z.of_nat (length b)) as -> by (unfold u16; apply Z.mod_small; lia).
  pose proof (tipc_send_data_one await fuel g s1 head base sz answers 0 remote (tx_data_cb (HChan c) (Z.of_nat id)) (Z.of_nat (length b))
    (fun ret s' => ret = r /\ k_chans (ts_k (v_dev s')) = k_chans k1 /\ shm_bytes (v_shm s') (base + sizeof_tipc_hdr) (Z.to_nat r) = u8 <$> take (Z.to_nat r) b)
    true HO1 (tx_buffer_k s k1 head base sz answers Hb) ltac:(lia)) as Hs.
  destruct Hb as [_ _ _ _ _ (_ & Hbase & Hsz & Hend & _)].
  apply wp_ex in Hs as (r2 & s2 & E2 & r3 & s3 & (-> & Ec3 & Hb3) & Ek2 & HO2 & Er2 & _ & Ev2 & Hpub & Ee2 & Hhdr & Hdat).
  2:{ intros s' HO' Hm' He' Ek' Ee' Hreg'. destruct (ROUNDUP_spec sz 12) as [Hge _]; [unfold sizeof_tipc_hdr, PAGE_SIZE in *; lia..|].
      change (2 ^ 12) with PAGE_SIZE in Hge. eapply wp_mono; [apply (tx_data_cb_spec g s' i c q1 id b); try done|].
      - destruct Hin as (e & He & Hce). exists e. by rewrite Ee'.
      - rewrite Ek'. apply Hw1.
      - rewrite Ha1. apply elem_of_app. right. by apply list_elem_of_singleton.
      - unfold sizeof_tipc_hdr in *. lia.
      - unfold tx_room, sizeof_tipc_hdr in *. lia.
      - unfold tx_room, sizeof_tipc_hdr in *. lia.
      - fold r. intros ret s4 (-> & HO4 & Hacc & Ec4 & Hb4). rewrite (Z.min_r (Z.of_nat (length b)) r) in * by (unfold r, tx_room; lia).
        rewrite Ek' in Ec4. done. }
  rewrite (run_bind _ _ _ _ _ E2). assert (queue_of (ts_k (v_dev s2)) (HChan c) = Some q1) as Hq2.
  { rewrite Ek2. rewrite <- (proj1 Hw1). by apply queue_of_chans. }
  pose proof (to_inv _ _ _ HO2) as HI2. assert (in_table (ts_dev (v_dev s2)) i (HChan c)) as Hin2.
  { destruct Hin as (e & He & Hce). exists e. by rewrite Ee2. }
  destruct (in_table_live g _ _ i c HO2 Hin2) as (x2 & Hx2 & Hr2).
  assert (wp (on_k (ipc_put_msg (HChan c) (Z.of_nat id))) (fun ret s' => exists k', s' = set_k k' s2 /\ tipc_inv g s' /\
    retires (HChan c) (Z.of_nat id) (ts_k (v_dev s2)) ret k') s2) as Hput.
  { apply wp_on_k_keeps; [done|intros J; apply (pres_put_msg any_list), marked_is_keeper|].
    apply (ipc_put_msg_spec _ _ (HChan c) x2); [done..|unfold has_queue; by rewrite Hq2|lia]. }
  apply wp_ex in Hput as (r4 & s4 & E4 & k4 & -> & HO4 & Hret). rewrite (run_bind _ _ _ _ _ E4).
  unfold retires in Hret. rewrite Hq2 in Hret. pose proof (queue_wf _ _ _ q1 HI2 Hq2) as Hwf1.
  destruct (msg_put_read_in q1 id b Hwf1) as [q' Eq']; [rewrite Ha1; apply elem_of_app; right; by apply list_elem_of_singleton|].
  rewrite Eq' in Hret. destruct Hret as (_ & Hw4 & Ha4 & _). rewrite Nat2Z.id, Ha1, (aq_get_put q id b rest Hwf Hf) in Ha4.
  exists (set_k k4 s2), q'. split; [done|]. split; [done|]. split; [done|]. split; [done|]. split; [done|]. split; [apply Hw4|]. split; [done|]. split.
  { intros h Hh. cbn. rewrite (proj2 Hw4 h Hh), Ek2, (queue_of_chans _ _ _ Ec3). by apply Hw1. }
  assert ((r >=? 0) = true) as Er by (unfold r, tx_room, sizeof_tipc_hdr in *; lia). rewrite Er in Hpub. split; [done|]. split; [done|].
  cbn [v_shm set_k v_set_dev]. fold r in Hdat. by rewrite Hdat.
Qed.
