(* ===== verification/TipcSystem.v ===== *)
(** * The apps and the TIPC device together

    The device shares the kernel objects with the apps.  Here: no call of an app
    disturbs the endpoints of the device, no operation of the device disturbs
    what the calls of the apps rely on, and so every interleaving of the two
    keeps the invariants of both. *)

From stdpp Require Import base tactics list gmap.
From Stdlib Require Import ZArith Lia.
From S2P Require Import Prelude Bitmap Iovec MsgQueue Kernel Channel Handle Uctx Ipc IpcMsg IpcInv IpcSafe IpcCalls IpcSys IpcEnv IpcSystem IpcFrame Shm Vqueue Tipc TipcInv TipcSafe TipcMsg.

(** ** A call of an app *)

Lemma tipc_ok_client g d k k' :
  tipc_ok g d k -> k_apps k' !! td_handle_list d = None -> k_hlists k' !! td_handle_list d = k_hlists k !! td_handle_list d ->
  (forall i c, in_table d i (HChan c) -> Marked {[c := ept_ptr (Z.of_nat i)]} k -> Marked {[c := ept_ptr (Z.of_nat i)]} k') ->
  Inv (own_all (ept_chans (td_epts d)) g) k' -> tipc_ok g d k'.
Proof.
  intros [H1 H2 H3 H4 H5 H6 H7 H8] Ha Hl HM HI. split; try done.
  - intros i h Hin. destruct (H5 i h Hin) as (c & -> & Hc). exists c. split; [done|]. by apply HM.
  - by rewrite Hl.
Qed.

(** The cookie an app sets is not one of the device's. *)
Lemma set_cookie_other g d k a u h y v id i c :
  tipc_ok g d k -> k_apps k !! td_handle_list d = None -> utable k a = Some u -> slot_of u id = Some h -> hview k h = Some y ->
  in_table d i (HChan c) -> Marked {[c := ept_ptr (Z.of_nat i)]} k -> Marked {[c := ept_ptr (Z.of_nat i)]} (set_handle h (set_h_cookie v y) k).
Proof.
  intros HO Ha Hu Hs Hy Hin HM. destruct (in_table_view g d k i _ HO Hin) as (c' & ch & [= <-] & Hc & Hl & _).
  destruct h as [p|ch']; cbn in *; [by destruct (k_ports k !! p)|]. destruct (k_chans k !! ch') as [x|] eqn:Hx; [|done].
  assert (ch' <> c) as Hne.
  { intros ->. rewrite Hx in Hc. injection Hc as ->. apply utable_has in Hu as [ax [Hax Hux]].
    destruct (ta_table _ _ _ (i_tabs _ k (to_inv g d k HO)) a ax u Hax Hux) as (_ & _ & Ht).
    assert (hl_of k (HChan c) = Some a) as Hla.
    { apply Ht. unfold slot_of in Hs. destruct (u_handles u !! Z.to_nat id) as [o|] eqn:E; [|done]. cbn in Hs. subst o. by eexists. }
    unfold hl_of in Hla. cbn in Hla. rewrite Hx in Hla. cbn in Hla. rewrite Hl in Hla. congruence. }
  intros c0 w [<- <-]%lookup_singleton_Some. destruct (HM c (ept_ptr (Z.of_nat i))) as [Hlt Hv]; [apply lookup_singleton_eq|].
  split; [done|]. cbn. intros ch0. rewrite lookup_insert_ne by done. apply Hv.
Qed.

Lemma app_call_tipc D g d k a u c :
  tipc_ok g d k -> Env D k -> td_handle_list d ∉ D -> utable k a = Some u -> args_ok c -> allowed k a u c ->
  exists ret k', do_call a c k = Ret ret k' /\ tipc_ok g d k' /\ Env D k' /\ isolated a k k'.
Proof.
  intros HO HE Hl Hu Hargs Hal. set (G := own_all (ept_chans (td_epts d)) g).
  pose proof (do_call_inv G k a u c (to_ov g d k HO) (to_inv g d k HO) Hu (env_umem D k a HE) (env_clients D k HE) Hargs Hal) as Hw.
  apply wp_ex in Hw as (ret & k' & R & HI' & Hiso). destruct (pres_do_call D a c k ret k' HE R) as [HE' _]. exists ret, k'.
  split; [done|]. split; [|done]. assert (a <> td_handle_list d) as Hne.
  { intros ->. apply Hl. rewrite <- (en_dom D k HE). unfold utable in Hu. apply elem_of_dom. destruct (k_apps k !! _); [by eexists|done]. }
  assert (k_apps k' !! td_handle_list d = None) as Ha' by (apply not_elem_of_dom; by rewrite (en_dom D k' HE')).
  destruct (match c with SetCookie _ _ => true | _ => false end) eqn:Ec.
  - destruct c as [| | | |id v| | | |]; try done. pose proof Hu as [x Ht]%utable_has.
    pose proof (sys_set_cookie_spec G k a x u id v (to_inv g d k HO) Ht Hargs) as Hs. cbn [do_call] in R. unfold wp in Hs. rewrite R in Hs.
    destruct Hs as (_ & _ & Hs). destruct (slot_of u id) as [h|] eqn:Es; [|by destruct Hs as [_ ->]].
    destruct Hs as (_ & y & Hy & ->). apply (tipc_ok_client g d k); try done.
    + by destruct (set_handle_rest k h (set_h_cookie v y)) as (_ & -> & _).
    + intros i c Hin. by eapply (set_cookie_other g d k a u); [|apply HO|..].
  - assert (forall id v, c <> SetCookie id v) as Hc by (intros id v ->; done). apply (tipc_ok_client g d k); try done.
    + apply (fr_do_call _ _ _ (SysKeeper0 := hlist_keeper (td_handle_list d) _) a Hne c Hc k ret k' eq_refl R).
    + intros i c0 _ HM. by apply (fr_do_call _ _ _ (SysKeeper0 := marked_keeper _) a I c Hc k ret k' HM R).
Qed.

(** ** The operations of the device *)

(** [tpres P m]: the routine [m] keeps [P]. *)
Definition tpres (P : tstate -> Prop) {A} (m : T A) : Prop := forall s a s', P s -> m s = Ret a s' -> P s'.

Section tpres.
Context (P : tstate -> Prop).

Lemma tpres_ret {A} (a : A) : tpres P (mret a).
Proof. by intros s b s' HP [= _ <-]. Qed.
Lemma tpres_raise {A} f : tpres P (raise f : T A).
Proof. done. Qed.
Lemma tpres_bind {A B} (m : T A) (k : A -> T B) : tpres P m -> (forall a, tpres P (k a)) -> tpres P (m ≫= k).
Proof. intros Hm Hk s b s' HP. unfold mbind, M_bind. destruct (m s) as [a s1|] eqn:E; [|done]. apply Hk. by eapply Hm. Qed.
Lemma tpres_get_dev : tpres P get_dev.
Proof. by intros s d s' HP [= _ <-]. Qed.
Lemma tpres_get {B} (k : tstate -> T B) : (forall s, P s -> tpres P (k s)) -> tpres P (get ≫= k).
Proof. intros Hk s b s' HP. by apply Hk. Qed.
Lemma tpres_deref {A} f (o : option A) : tpres P (deref f o).
Proof. destruct o; [apply tpres_ret|apply tpres_raise]. Qed.
Lemma tpres_modify f : (forall s, P s -> P (f s)) -> tpres P (modify f).
Proof. intros Hf s [] s' HP [= <-]. auto. Qed.
Lemma tpres_mfor {A} (f : A -> T unit) l : (forall x, tpres P (f x)) -> tpres P (mfor f l).
Proof. intros Hf. induction l as [|x l IH]; cbn; [apply tpres_ret|]. by apply tpres_bind. Qed.
End tpres.

(** What the calls of the apps need and the operations of the device leave. *)
Record apps_ok (D : gset Z) (s : tstate) : Prop := {
  ao_env : Env D (ts_k (v_dev s));
  ao_list : td_handle_list (ts_dev (v_dev s)) ∉ D;
  ao_uuid : known D (Some (td_uuid (ts_dev (v_dev s))));
  ao_shm : mem_ok (v_shm s);
}.

Section apps_ok.
Context (D : gset Z).
Local Abbreviation keeps := (tpres (apps_ok D)).

Lemma apps_ok_on_k {A} (m : K A) : pres (Env D) m (fun _ => True) -> keeps (on_k m).
Proof.
  intros Hm s a s' [H1 H2 H3 H4]. unfold on_k. destruct (m _) as [b k|] eqn:E; [|done]. intros [= <- <-].
  split; try done. by apply (Hm _ _ _ H1 E).
Qed.

Lemma apps_ok_table f : (forall d, td_handle_list (f d) = td_handle_list d /\ td_uuid (f d) = td_uuid d) -> keeps (upd_dev f).
Proof. intros Hf. apply tpres_modify. intros s [H1 H2 H3 H4]. destruct (Hf (ts_dev (v_dev s))) as [E1 E2]. by split; cbn; rewrite ?E1, ?E2. Qed.

Lemma apps_ok_interfere : keeps interfere.
Proof.
  intros s a s' [H1 H2 H3 H4] E. destruct (interfere_frame s) as (s1 & E1 & Ed & _ & Hm). rewrite E in E1. injection E1 as _ <-.
  split; rewrite ?Ed; auto.
Qed.

Lemma apps_ok_kmem {A} a n (m : K A) : pres (Env D) m (fun _ => True) -> keeps (with_kmem a n m).
Proof.
  intros Hm. unfold with_kmem. apply tpres_bind; [apply apps_ok_interfere|]. intros _.
  assert (forall km, keeps (on_k (modify (set_k_kmem km)))) as Hk.
  { intros km. apply apps_ok_on_k. by eapply keep_modify; [apply env_keeper|]. }
  apply tpres_get. intros s Hs. destruct (in_regions _ _ _); [|apply tpres_raise].
  apply tpres_bind; [apply apps_ok_on_k, pres_gets|]. intros km0. apply tpres_bind; [apply Hk|]. intros _.
  apply tpres_bind; [by apply apps_ok_on_k|]. intros r. apply tpres_bind; [apply apps_ok_on_k, pres_gets|]. intros km.
  apply tpres_bind; [|intros _; apply tpres_bind; [apply Hk|intros _; apply tpres_ret]].
  apply tpres_modify. intros s1 [H1 H2 H3 H4]. split; try done. cbn. apply shm_store_ok; [apply Hs|].
  apply Forall_fmap, Forall_true. intros b. apply u8_bound.
Qed.

Lemma apps_ok_get_ept i : keeps (get_ept i).
Proof. apply tpres_bind; [apply tpres_get_dev|]. intros d. apply tpres_deref. Qed.

Lemma apps_ok_detach h : keeps (detach h).
Proof.
  apply tpres_bind; [apply tpres_get_dev|]. intros d.
  repeat (apply tpres_bind; [apply apps_ok_on_k; eauto using pres_handle_set_cookie with pres|]; intros _). apply apps_ok_on_k. eauto with pres.
Qed.

Lemma apps_ok_free a : keeps (free_local_addr a).
Proof. unfold free_local_addr. destruct (_ <? _); [by apply apps_ok_table|apply tpres_ret]. Qed.

Lemma apps_ok_alloc remote h : keeps (alloc_local_addr remote h).
Proof.
  apply tpres_bind; [apply tpres_get_dev|]. intros d. cbv zeta. case_match; [|apply tpres_ret].
  apply tpres_bind; [by apply apps_ok_table|]. intros _. apply tpres_ret.
Qed.

Lemma apps_ok_conn_open remote name : keeps (conn_open remote name).
Proof.
  assert (forall (k : tipc_dev -> T (option Z)), (forall d, known D (Some (td_uuid d)) -> keeps (k d)) -> keeps (get_dev ≫= k)) as Hg.
  { intros k Hk s b s' Hs. unfold mbind, M_bind, get_dev, gets. apply Hk; [apply Hs|done]. }
  apply Hg. intros d Hd. apply tpres_bind; [by apply apps_ok_on_k, pres_connect_async|]. intros [err oc].
  destruct (negb _); [apply tpres_ret|]. apply tpres_bind; [apply tpres_deref|]. intros chan. apply tpres_bind; [apply apps_ok_alloc|].
  intros local. destruct (local =? 0).
  - apply tpres_bind; [apply apps_ok_on_k; eauto with pres|]. intros _. apply tpres_ret.
  - apply tpres_bind; [apply tpres_get_dev|]. intros d'.
    repeat (apply tpres_bind; [apply apps_ok_on_k; eauto using pres_handle_set_cookie with pres|]; intros _). apply tpres_ret.
Qed.

Lemma apps_ok_disc target remote : keeps (disc_close target remote).
Proof.
  apply tpres_bind; [apply tpres_get_dev|]. intros d. destruct (disc_target _ _ _) as [i|]; [|apply tpres_ret].
  apply tpres_bind; [apply apps_ok_get_ept|]. intros e. apply tpres_bind; [|intros _; apply apps_ok_free].
  destruct (e_chan e); [apply apps_ok_detach|apply tpres_ret].
Qed.

Lemma apps_ok_hup h : keeps (hup_close h).
Proof.
  apply tpres_bind; [apply apps_ok_on_k; eauto with pres|]. intros v. destruct (v =? 0); [apply tpres_ret|].
  apply tpres_bind; [apply apps_ok_get_ept|]. intros e. apply tpres_bind; [apply apps_ok_detach|]. intros _.
  apply tpres_bind; [apply apps_ok_free|]. intros _. apply tpres_ret.
Qed.

Lemma apps_ok_chan_msg remote local a len : keeps (handle_chan_msg remote local a len).
Proof.
  apply tpres_bind; [apply tpres_get_dev|]. intros d. destruct (lookup_ept _ _) as [i|]; [|apply tpres_ret].
  apply tpres_bind; [apply apps_ok_get_ept|]. intros e. destruct (_ =? _); [|apply tpres_ret]. destruct (e_chan e); [|apply tpres_ret].
  apply apps_ok_kmem, pres_send_msg_locked.
Qed.

Lemma apps_ok_close_all : keeps close_all.
Proof.
  apply tpres_mfor. intros i. apply tpres_bind; [apply tpres_get_dev|]. intros d. destruct (negb _); [apply tpres_ret|].
  apply tpres_bind; [apply apps_ok_get_ept|]. intros e. destruct (e_chan e); [|apply tpres_ret].
  apply tpres_bind; [apply apps_ok_detach|]. intros _. apply apps_ok_free.
Qed.
End apps_ok.

(** ** Steps of the whole system *)

(** What the apps, the receiving thread, the sending thread and the reset do to
    the shared objects; each runs under the lock of the IPC code or of the
    device. *)
Inductive sysop :=
| AppCall (a : Z) (c : call)
| ConnReq (remote : Z) (name : cstring)
| DiscReq (target remote : Z)
| ChanMsg (remote local ns_data len : Z)
| Hup (c : Z)
| CloseAll.

(** The sending thread holds the reference [handle_list_wait] took to the channel
    it found. *)
Definition run_op (op : sysop) : T Z :=
  match op with
  | AppCall a c => on_k (do_call a c)
  | ConnReq remote name => o ← conn_open remote name; mret (default 0 o)
  | DiscReq target remote => disc_close target remote;; mret NO_ERROR
  | ChanMsg remote local ns_data len => handle_chan_msg remote local ns_data len
  | Hup c => on_k (handle_incref (HChan c));; hup_close (HChan c);; on_k (handle_decref (HChan c));; mret NO_ERROR
  | CloseAll => close_all;; mret NO_ERROR
  end.

Definition op_ok (s : tstate) (op : sysop) : Prop :=
  match op with
  | AppCall a c => exists u, utable (ts_k (v_dev s)) a = Some u /\ args_ok c /\ allowed (ts_k (v_dev s)) a u c
  | ChanMsg _ local ns_data len =>
      0 <= local < 2 ^ 32 /\ 0 <= len /\ 0 < ns_data /\ ns_data + len <= 2 ^ 32 /\ in_regions (v_regions s) ns_data len = true
  | Hup c => exists i, in_table (ts_dev (v_dev s)) i (HChan c)
  | _ => True
  end.

Definition sys_inv (D : gset Z) (s : tstate) : Prop := tipc_inv g_idle s /\ apps_ok D s.

Lemma hup_inv g s c i :
  tipc_inv g s -> in_table (ts_dev (v_dev s)) i (HChan c) -> wp (run_op (Hup c)) (fun _ s' => tipc_inv g s') s.
Proof.
  intros HO Hin. set (k := ts_k (v_dev s)). pose proof (to_inv g _ k HO) as HI. set (G := own_all _ g) in HI.
  destruct (in_table_view g _ k i _ HO Hin) as (c' & ch & [= <-] & Hc & _).
  assert (hview k (HChan c) = Some (c_handle ch)) as Hy by (cbn; by rewrite Hc).
  assert (0 < h_refcnt (c_handle ch)) as Hr.
  { apply (live_refcnt G k (HChan c)); [done..|left]. apply elem_of_app. left. by eapply in_table_own. }
  destruct (handle_incref_spec G k (HChan c) _ HI Hy Hr) as [R1 HI1]. set (k1 := set_handle _ _ k) in *.
  destruct (set_handle_rest k (HChan c) (set_h_refcnt (h_refcnt (c_handle ch) + 1) (c_handle ch))) as (Ea1 & El1 & _).
  cbn [run_op]. apply wp_bind. eapply wp_on_k_run; [exact R1|]. set (s1 := set_k k1 s).
  assert (tipc_inv (g_bor1 (HChan c) g) s1) as HO1.
  { eapply (tipc_ok_frame g); [|apply HO|done|done]. split; [done|]. split; [done|]. intros J.
    eapply pres_marks; [|exact R1]. intros J'. apply (pres_handle_incref any_list), marked_is_keeper. }
  apply wp_bind. eapply wp_mono; [apply (hup_close_spec (g_bor1 (HChan c) g) s1 c HO1); [by left|left; by exists i]|].
  intros r s2 Hcase. assert (tipc_inv (g_bor1 (HChan c) g) s2) as HO2.
  { by destruct Hcase as [(? & ? & _ & _ & (H & _))|(_ & -> & _)]. }
  destruct (handle_decref_spec (own_all (ept_chans (td_epts (ts_dev (v_dev s2)))) g) (ts_k (v_dev s2)) (HChan c) (to_inv _ _ _ HO2)) as (k3 & R3 & HI3 & (Ea3 & El3 & _)).
  apply wp_bind. eapply wp_on_k_run; [exact R3|]. apply wp_ret. eapply (tipc_ok_frame (g_bor1 (HChan c) g)); [|apply HO|done|exact HO2].
  split; [done|]. split; [done|]. intros J. eapply pres_marks; [|exact R3]. intros J'. apply (pres_handle_decref any_list), marked_is_keeper.
Qed.

Lemma run_op_apps D op : (forall a c, op <> AppCall a c) -> tpres (apps_ok D) (run_op op).
Proof.
  intros Hop. destruct op as [a c|r n|t r|r l a n|c|]; cbn [run_op].
  - by destruct (Hop a c).
  - apply tpres_bind; [apply apps_ok_conn_open|]. intros o. apply tpres_ret.
  - apply tpres_bind; [apply apps_ok_disc|]. intros o. apply tpres_ret.
  - apply apps_ok_chan_msg.
  - apply tpres_bind; [apply apps_ok_on_k; eauto with pres|]. intros _. apply tpres_bind; [apply apps_ok_hup|]. intros _.
    apply tpres_bind; [apply apps_ok_on_k; eauto with pres|]. intros _. apply tpres_ret.
  - apply tpres_bind; [apply apps_ok_close_all|]. intros _. apply tpres_ret.
Qed.

Lemma run_op_inv D s op : sys_inv D s -> op_ok s op -> exists ret s', run_op op s = Ret ret s' /\ sys_inv D s'.
Proof.
  intros [HO HA] Hok. destruct (match op with AppCall _ _ => true | _ => false end) eqn:Eop.
  - destruct op as [a c| | | | |]; try done. destruct Hok as (u & Hu & Hargs & Hal). destruct HA as [H1 H2 H3 H4].
    destruct (app_call_tipc D g_idle _ _ a u c HO H1 H2 Hu Hargs Hal) as (ret & k' & R & HO' & HE' & _).
    exists ret, (set_k k' s). cbn [run_op]. unfold on_k. rewrite R. split; [done|]. split; [done|]. by split.
  - assert (wp (run_op op) (fun _ s' => tipc_inv g_idle s') s) as Hw.
    { destruct op as [a c|r n|t r|r l a n|c|]; try done; cbn [run_op op_ok] in *.
      - apply wp_bind. eapply wp_mono; [by apply (conn_open_spec g_idle)|]. intros o s' H. apply wp_ret. by destruct H as [(? & ? & _ & (? & _))|(_ & ? & _)].
      - apply wp_bind. eapply wp_mono; [by apply (disc_close_spec g_idle)|]. intros [] s' H. apply wp_ret. by destruct H as [(? & ? & _ & (? & _))|(_ & ->)].
      - destruct Hok as (? & ? & ? & ? & ?). eapply wp_mono; [apply (handle_chan_msg_spec g_idle); try done; apply HA|].
        intros ret s' (? & _). done.
      - destruct Hok as [i Hin]. by apply (hup_inv g_idle s c i).
      - apply wp_bind. eapply wp_mono; [by apply (close_all_spec g_idle)|]. intros [] s' [? _]. by apply wp_ret. }
    apply wp_ex in Hw as (ret & s' & R & HO'). exists ret, s'. split; [done|]. split; [done|].
    eapply (run_op_apps D op); [|exact HA|exact R]. by intros a c ->.
Qed.

(** *** From boot *)

Record sys_booted (D : gset Z) (s : tstate) : Prop := {
  sb_kernel : booted D (ts_k (v_dev s));
  sb_list : td_handle_list (ts_dev (v_dev s)) ∉ D /\ is_Some (k_hlists (ts_k (v_dev s)) !! td_handle_list (ts_dev (v_dev s)));
  sb_table : td_epts (ts_dev (v_dev s)) = replicate 256 (Ept 0 None) /\ td_inuse (ts_dev (v_dev s)) = replicate 8 0;
  sb_uuid : td_uuid (ts_dev (v_dev s)) = zero_uuid;
  sb_shm : mem_ok (v_shm s);
}.

Inductive sys_reachable (D : gset Z) : tstate -> Prop :=
| sr_boot s : sys_booted D s -> sys_reachable D s
| sr_step s op ret s' : sys_reachable D s -> op_ok s op -> run_op op s = Ret ret s' -> sys_reachable D s'.

Lemma sys_booted_inv D s : sys_booted D s -> sys_inv D s.
Proof.
  intros [Hb [Hl [hl Hhl]] [Ht Hi] Hu Hm]. pose proof (booted_env D _ Hb) as HE. split.
  - assert (forall i h, ~ in_table (ts_dev (v_dev s)) i h) as Hno.
    { intros i h (e & He & Hc). rewrite Ht in He. by apply lookup_replicate in He as [-> _]. }
    assert (ept_chans (td_epts (ts_dev (v_dev s))) = []) as Hec by (by rewrite Ht).
    split; rewrite ?Ht, ?Hi; try done.
    + split; [done|]. by apply Forall_replicate.
    + intros i Hi'. split; [|intros [h Hh]; by apply Hno in Hh]. intros Hbt. rewrite (bitmap_test_spec _ i 0) in Hbt; [by rewrite Z.testbit_0_l in Hbt|lia|].
      apply lookup_replicate. split; [done|]. pose proof (Z.div_pos i 32). pose proof (Z.div_lt_upper_bound i 32 8). lia.
    + intros i h Hh. by apply Hno in Hh.
    + exists hl. split; [done|]. intros h. rewrite (bt_lists D _ Hb _ _ Hhl). split; [by intros ?%elem_of_nil|]. intros [i Hin]. by apply Hno in Hin.
    + apply not_elem_of_dom. by rewrite (proj1 (bt_dom D _ Hb)).
    + by apply (booted_inv D).
  - split; try done. by rewrite Hu.
Qed.

Lemma sys_reachable_inv D s : sys_reachable D s -> sys_inv D s.
Proof.
  induction 1 as [s Hb|s op ret s' _ IH Hok R]; [by apply sys_booted_inv|].
  destruct (run_op_inv D s op IH Hok) as (r & s1 & R1 & H1). rewrite R in R1. by injection R1 as -> ->.
Qed.

(** *** A session

    The kernel of the two apps with a device; app 1 serves [ab], the non-secure
    side connects from address 77 and app 1 accepts. *)
Definition op_okb (s : tstate) (op : sysop) : bool :=
  match op with
  | AppCall a c => match utable (ts_k (v_dev s)) a with Some u => argsb c && allowedb (ts_k (v_dev s)) u c | None => false end
  | ChanMsg _ local ns_data len =>
      (0 <=? local) && (local <? 2 ^ 32) && (0 <=? len) && (0 <? ns_data) && (ns_data + len <=? 2 ^ 32) && in_regions (v_regions s) ns_data len
  | Hup c => existsb (fun e => bool_decide (e_chan e = Some (HChan c))) (td_epts (ts_dev (v_dev s)))
  | _ => true
  end.

Fixpoint sys_session (ops : list sysop) (s : tstate) : option tstate :=
  match ops with
  | [] => Some s
  | op :: ops' => if op_okb s op then match run_op op s with Ret _ s1 => sys_session ops' s1 | Fault _ => None end else None
  end.

Lemma op_okb_ok s op : op_okb s op = true -> op_ok s op.
Proof.
  destruct op as [a c|r n|t r|r l a n|c|]; cbn; try done.
  - destruct (utable _ a) as [u|]; [|done]. intros [? ?]%andb_true_iff. exists u. split; [done|]. split; [by apply argsb_ok|by apply allowedb_ok].
  - rewrite !andb_true_iff, !Z.leb_le, !Z.ltb_lt. tauto.
  - rewrite existsb_exists. intros (e & Hin & He). apply list_elem_of_In, list_elem_of_lookup in Hin as [i Hi]. exists i, e.
    split; [done|]. by apply bool_decide_eq_true_1 in He.
Qed.

Lemma sys_session_reachable D ops s s' : sys_reachable D s -> sys_session ops s = Some s' -> sys_reachable D s'.
Proof.
  revert s. induction ops as [|op ops IH]; intros s Hr; cbn; [by intros [= <-]|]. destruct (op_okb s op) eqn:E; [|done].
  destruct (run_op op s) as [r s1|] eqn:R; [|done]. apply IH. eapply sr_step; [done|by apply op_okb_ok|done].
Qed.

Definition demo_dev (rx tx : vqueue) : tipc_dev :=
  TipcDev VDEV_STATE_ACTIVE 0 zero_uuid tx rx (replicate 256 (Ept 0 None)) (replicate 8 0) 90 50 true true false false.

Definition demo_sys_boot (rx tx : vqueue) (regions : list (Z * Z)) (shm : mem) (answers : list (option Z)) : tstate :=
  VState (TSys (set_k_hlists (<[50 := HandleList [] None]> (k_hlists demo_boot)) demo_boot) (demo_dev rx tx)) regions shm [] answers.

Definition demo_ops : list sysop :=
  [AppCall 1 (PortCreate 100 2 8 (Z.lor IPC_PORT_ALLOW_TA_CONNECT IPC_PORT_ALLOW_NS_CONNECT)); ConnReq 77 [97; 98]; AppCall 1 (Accept 0 200);
   AppCall 1 (SendMsg 1 400)].

Lemma demo_sys_booted rx tx regions shm answers : mem_ok shm -> sys_booted {[1; 2]} (demo_sys_boot rx tx regions shm answers).
Proof.
  intros Hm. split; try done.
  - destruct demo_booted as [H1 [H2 H2'] H3 H4]. split; [exact H1| |exact H3|].
    + split; [exact H2|]. cbn -[demo_boot]. rewrite dom_insert_L. set_solver.
    + intros a l. cbn -[demo_boot]. rewrite lookup_insert_Some. intros [[_ <-]|[_ H]]; [done|]. by apply H4 in H.
Qed.
