(* ===== verification/TipcProps.v ===== *)
(** * What the TIPC device guarantees

    The properties of the device and of its interplay with the apps, each with a
    concrete instance: safety of every interleaving, delivery of a message of
    the non-secure side to the app, what connecting and disconnecting do. *)

From stdpp Require Import base tactics list gmap.
From Stdlib Require Import ZArith Lia.
From S2P Require Import Prelude Bitmap Iovec MsgQueue Kernel Channel Handle Uctx Ipc IpcMsg IpcInv IpcSafe IpcCalls IpcSys IpcEnv IpcSystem Shm Vqueue Tipc TipcInv TipcSafe TipcMsg TipcRx TipcTx TipcSystem.

(** ** A machine with one message under way

    A ring of two descriptors at 4096, a message of five bytes in the page the
    allocator maps at 65536. *)
Definition demo_vring : vring := Vring 2 4096 4128 4160.
Definition demo_vq : vqueue := Vqueue 1 demo_vring 4096 182 0 false 1 0 0 false.
Definition demo_shm : mem :=
  mem_of [(4096, le_bytes 8 131072 ++ le_bytes 4 21 ++ le_bytes 2 0 ++ le_bytes 2 0);
          (4128, le_bytes 2 0 ++ le_bytes 2 1 ++ le_bytes 2 0 ++ le_bytes 2 0);
          (4160, replicate 22 0);
          (65536, le_bytes 4 77 ++ le_bytes 4 1000 ++ le_bytes 4 0 ++ le_bytes 2 5 ++ le_bytes 2 0 ++ [104; 101; 108; 108; 111])].
Definition demo_machine : tstate := demo_sys_boot demo_vq demo_vq [(4096, 4096)] demo_shm [Some 65536].

Definition demo_tsys (n : nat) : tstate := default demo_machine (sys_session (take n demo_ops) demo_machine).

Lemma demo_shm_ok : mem_ok demo_shm.
Proof. apply (bool_decide_eq_true_1 (map_Forall (fun _ b => 0 <= b < 256) demo_shm)). vm_compute. done. Qed.

Lemma demo_tsys_reachable n : sys_reachable {[1; 2]} (demo_tsys n).
Proof.
  assert (sys_reachable {[1; 2]} demo_machine) as Hb by (apply sr_boot, demo_sys_booted, demo_shm_ok).
  unfold demo_tsys. destruct (sys_session _ _) as [s|] eqn:E; [|done]. by eapply sys_session_reachable.
Qed.


(** ** Safety of the whole system *)



(** ** Connections *)

(** A connection request either fails and leaves the device as it was, or
    takes the lowest free slot: the new endpoint is found under the address the
    slot stands for and belongs to the requesting peer; all other endpoints are
    as before. *)
Theorem tipc_connect_takes_lowest_slot D s remote name :
  sys_reachable D s ->
  let d := ts_dev (v_dev s) in
  exists o s', conn_open remote name s = Ret o s' /\ tipc_inv g_idle s' /\
    match o with
    | None => ts_dev (v_dev s') = d
    | Some local => exists i c, local = slot_to_addr i /\ bitmap_test (td_inuse d) i = false /\
        (forall j, 0 <= j < i -> bitmap_test (td_inuse d) j = true) /\ lookup_ept (ts_dev (v_dev s')) local = Some i /\
        connected_to (ts_dev (v_dev s')) i remote c /\
        forall j r c', j <> i -> connected_to (ts_dev (v_dev s')) j r c' <-> connected_to d j r c'
    end.
Proof.
  intros Hr d. destruct (sys_reachable_inv D s Hr) as [HO _]. pose proof (conn_open_spec g_idle s remote name HO) as Hw.
  apply wp_ex in Hw as (o & s' & R & [(i & c & -> & (HO' & Hi & Hf & Hlow & Ed & _))|(-> & HO' & Ed & _)]);
    [exists (Some (slot_to_addr i)), s'|by exists None, s'].
  split; [done|]. split; [done|]. fold d in Ed, Hf, Hlow. exists i, c. assert (length (td_epts d) = 256%nat) as Hlen by apply HO.
  do 3 (split; [done|]). rewrite Ed. split; [apply lookup_ept_new; [done|apply HO|done]|]. split.
  - split; [done|]. cbn. apply list_lookup_insert_eq. lia.
  - intros j r c' Hne. unfold connected_to. cbn. split; intros [Hj He]; (split; [done|]); rewrite list_lookup_insert_ne in *; done || lia.
Qed.

Lemma tipc_connect_takes_lowest_slot_witness :
  exists o s', conn_open 99 [97; 98] (demo_tsys 3) = Ret o s' /\ tipc_inv g_idle s' /\
    match o with
    | None => ts_dev (v_dev s') = ts_dev (v_dev (demo_tsys 3))
    | Some local => exists i c, local = slot_to_addr i /\ bitmap_test (td_inuse (ts_dev (v_dev (demo_tsys 3)))) i = false /\
        (forall j, 0 <= j < i -> bitmap_test (td_inuse (ts_dev (v_dev (demo_tsys 3)))) j = true) /\ lookup_ept (ts_dev (v_dev s')) local = Some i /\
        connected_to (ts_dev (v_dev s')) i 99 c /\
        forall j r c', j <> i -> connected_to (ts_dev (v_dev s')) j r c' <-> connected_to (ts_dev (v_dev (demo_tsys 3))) j r c'
    end.
Proof. apply (tipc_connect_takes_lowest_slot {[1; 2]} (demo_tsys 3) 99 [97; 98]), demo_tsys_reachable. Defined.

(** A disconnection request closes one connection of the requesting peer and
    no other: whatever target address the request names, no connection of another
    peer changes, and when the peer has a connection one of them is closed. *)
Theorem tipc_disconnect_own_only D s target remote :
  sys_reachable D s ->
  let d := ts_dev (v_dev s) in
  exists s', disc_close target remote s = Ret tt s' /\ tipc_inv g_idle s' /\
    (forall j r c, r <> remote -> connected_to (ts_dev (v_dev s')) j r c <-> connected_to d j r c) /\
    ((forall i c, ~ connected_to d i remote c) \/
     exists i c, connected_to d i remote c /\ lookup_ept (ts_dev (v_dev s')) (slot_to_addr i) = None).
Proof.
  intros Hr d. destruct (sys_reachable_inv D s Hr) as [HO _]. pose proof (disc_close_spec g_idle s target remote HO) as Hw.
  apply wp_ex in Hw as ([] & s' & R & [(i & c & Hc & (HO' & Ed & _))|(Hno & ->)]); [exists s'|exists s; by auto].
  fold d in Hc, Ed. pose proof Hc as [Hi He]. split; [done|]. split; [done|]. rewrite Ed. split.
  - intros j r c' Hne. unfold connected_to. cbn. split; intros [Hj Hx]; (split; [done|]).
    + apply list_lookup_insert_Some in Hx as [(_ & ? & _)|[_ ?]]; done.
    + rewrite list_lookup_insert_ne; [done|]. intros E. rewrite <- E, He in Hx. congruence.
  - right. exists i, c. split; [done|]. unfold lookup_ept. destruct (slot_addr i Hi) as [_ ->]. cbn [td_inuse set_td_table].
    rewrite (bitmap_test_clear 8) by (done || apply HO). rewrite Z.eqb_refl. by rewrite andb_false_r.
Qed.

Lemma tipc_disconnect_own_only_witness :
  exists s', disc_close 0 77 (demo_tsys 3) = Ret tt s' /\ tipc_inv g_idle s' /\
    (forall j r c, r <> 77 -> connected_to (ts_dev (v_dev s')) j r c <-> connected_to (ts_dev (v_dev (demo_tsys 3))) j r c) /\
    ((forall i c, ~ connected_to (ts_dev (v_dev (demo_tsys 3))) i 77 c) \/
     exists i c, connected_to (ts_dev (v_dev (demo_tsys 3))) i 77 c /\ lookup_ept (ts_dev (v_dev s')) (slot_to_addr i) = None).
Proof. apply (tipc_disconnect_own_only {[1; 2]} (demo_tsys 3) 0 77), demo_tsys_reachable. Defined.

(** C32: A reset gives everything back: [close_all] ends, no slot is in use, the
    device's handle list is empty, and the kernel objects are consistent without
    any reference held by the device. *)
Theorem tipc_reset_releases D s :
  sys_reachable D s ->
  exists s' hl, close_all s = Ret tt s' /\ (forall i, 0 <= i < 256 -> bitmap_test (td_inuse (ts_dev (v_dev s'))) i = false) /\
    k_hlists (ts_k (v_dev s')) !! td_handle_list (ts_dev (v_dev s')) = Some hl /\ hl_handles hl = [] /\ Inv g_idle (ts_k (v_dev s')).
Proof.
  intros Hr. destruct (sys_reachable_inv D s Hr) as [HO _]. pose proof (close_all_spec g_idle s HO) as Hw.
  apply wp_ex in Hw as ([] & s' & R & HO' & Hno). destruct (to_list _ _ _ HO') as (hl & Hl & Hm). exists s', hl. split; [done|]. split.
  - intros i Hi. destruct (bitmap_test _ i) eqn:E; [|done]. apply (to_inuse _ _ _ HO' i Hi) in E as [h Hh]. by apply Hno in Hh.
  - split; [done|]. split.
    + destruct (hl_handles hl) as [|h l]; [done|]. destruct (Hm h) as [[i Hi] _]; [by left|]. by apply Hno in Hi.
    + pose proof (to_inv _ _ _ HO') as HI. replace (ept_chans (td_epts (ts_dev (v_dev s')))) with (@nil href) in HI; [done|].
      destruct (ept_chans _) as [|h l] eqn:E; [done|]. exfalso. assert (h ∈ ept_chans (td_epts (ts_dev (v_dev s')))) as Hin by (rewrite E; by left).
      apply list_elem_of_omap in Hin as (e & He & Hc). apply list_elem_of_lookup in He as [i Hi]. apply (Hno i h). by exists e.
Qed.

Lemma tipc_reset_releases_witness :
  exists s' hl, close_all (demo_tsys 3) = Ret tt s' /\ (forall i, 0 <= i < 256 -> bitmap_test (td_inuse (ts_dev (v_dev s'))) i = false) /\
    k_hlists (ts_k (v_dev s')) !! td_handle_list (ts_dev (v_dev s')) = Some hl /\ hl_handles hl = [] /\ Inv g_idle (ts_k (v_dev s')).
Proof. apply (tipc_reset_releases {[1; 2]}), demo_tsys_reachable. Defined.

(** ** Messages from the non-secure side *)


(** The queues and the memory of the machine. *)
Definition demo_shared (s : tstate) : Prop :=
  td_rx (ts_dev (v_dev s)) = demo_vq /\ td_tx (ts_dev (v_dev s)) = demo_vq /\ v_regions s = [(4096, 4096)] /\ v_shm s = demo_shm /\
  v_env s = [] /\ v_vmm s = [Some 65536].

Lemma demo_tsys_shared : demo_shared (demo_tsys 3).
Proof. vm_compute. by split_and!. Qed.

Lemma machine_vq_wf q s : demo_shared s -> vq_wf (vq_state q s).
Proof.
  intros (E1 & E2 & E3 & E4 & _ & _). assert (vq_get q (ts_dev (v_dev s)) = demo_vq) as Eq by (by destruct q).
  split; cbn; rewrite ?Eq, ?E3, ?E4; [cbn; lia|by vm_compute|by vm_compute|by vm_compute|cbn; lia|apply demo_shm_ok].
Qed.

Lemma demo_rx_message s : demo_shared s -> rx_message s 0 65536 5 77 (slot_to_addr 0) [].
Proof.
  intros Hs. pose proof Hs as (E1 & E2 & E3 & E4 & E5 & E6). split; rewrite ?E1, ?E3, ?E4, ?E5, ?E6; try done.
  - by apply machine_vq_wf.
  - exists (read_desc demo_shm demo_vring 0). split; [apply chain_last; [cbn; lia|done|by vm_compute]|]. split_and!; by vm_compute.
  - split_and!; [done|lia|by vm_compute|]. split; [|by split]. apply Forall_singleton. right. by vm_compute.
Qed.

Lemma no_await s : (mret tt : T unit) s = Ret tt s.
Proof. done. Qed.


(** ** Messages of an app *)

Lemma tx_loop_empty await n fuel g s i c remote q :
  tipc_inv g s -> in_table (ts_dev (v_dev s)) i (HChan c) -> queue_of (ts_k (v_dev s)) (HChan c) = Some q -> aq_filled (mq_abs q) = [] ->
  tx_msg_loop await (S n) fuel remote (HChan c) s = Ret tt s.
Proof.
  intros HO Hin Hq Hf. cbn in Hf. apply fmap_nil_inv in Hf. destruct (in_table_live g _ _ i c HO Hin) as (x & Hx & Hr).
  pose proof (get_msg_locked_spec _ _ (HChan c) x (to_inv _ _ _ HO) Hx Hr ltac:(unfold has_queue; by rewrite Hq)) as Hw.
  apply wp_ex in Hw as (r & k' & R & _ & _ & _ & H). rewrite Hq, Hf in H. destruct H as [-> ->].
  assert (on_k (ipc_get_msg (HChan c)) s = Ret (ERR_NO_MSG, None) s) as E by (unfold on_k; rewrite R; by destruct s as [[] ? ? ? ?]).
  cbn [tx_msg_loop]. by rewrite (run_bind _ _ _ _ _ E).
Qed.


(** The ring of [demo_vring] with a writable buffer of 64 bytes. *)
Definition demo_tx_shm : mem :=
  mem_of [(4096, le_bytes 8 131072 ++ le_bytes 4 64 ++ le_bytes 2 2 ++ le_bytes 2 0);
          (4128, le_bytes 2 0 ++ le_bytes 2 1 ++ le_bytes 2 0 ++ le_bytes 2 0);
          (4160, replicate 22 0)].
Definition demo_tx_machine : tstate := demo_sys_boot demo_vq demo_vq [(4096, 4096)] demo_tx_shm [Some 65536].
Definition demo_tx_sys : tstate := default demo_tx_machine (sys_session demo_ops demo_tx_machine).

Lemma demo_tx_shm_ok : mem_ok demo_tx_shm.
Proof. apply (bool_decide_eq_true_1 (map_Forall (fun _ b => 0 <= b < 256) demo_tx_shm)). vm_compute. done. Qed.

Lemma demo_tx_reachable : sys_reachable {[1; 2]} demo_tx_sys.
Proof.
  assert (sys_reachable {[1; 2]} demo_tx_machine) as Hb by (apply sr_boot, demo_sys_booted, demo_tx_shm_ok).
  unfold demo_tx_sys. destruct (sys_session _ _) as [s|] eqn:E; [|done]. by eapply sys_session_reachable.
Qed.

Lemma demo_tx_buffer_of s :
  td_tx (ts_dev (v_dev s)) = demo_vq -> v_regions s = [(4096, 4096)] -> v_shm s = demo_tx_shm -> v_env s = [] -> v_vmm s = [Some 65536] ->
  tx_buffer s 0 65536 64 [].
Proof.
  intros E2 E3 E4 E5 E6. split; rewrite ?E2, ?E3, ?E4, ?E5, ?E6; try done.
  - split; cbn; rewrite ?E2, ?E3, ?E4; [cbn; lia|by vm_compute|by vm_compute|by vm_compute|cbn; lia|apply demo_tx_shm_ok].
  - exists (read_desc demo_tx_shm demo_vring 0). split; [apply chain_last; [cbn; lia|done|by vm_compute]|]. split_and!; by vm_compute.
  - split_and!; [done|lia|by vm_compute|by vm_compute|by vm_compute|]. split; [|by split]. apply Forall_singleton. right. by vm_compute.
Qed.

Lemma demo_tx_buffer : tx_buffer demo_tx_sys 0 65536 64 [].
Proof. apply demo_tx_buffer_of; vm_compute; reflexivity. Qed.

Definition demo_tx_queue : msg_queue := default (MsgQueue [] [] [] 0 0 [] []) (queue_of (ts_k (v_dev demo_tx_sys)) (HChan 1001)).

