(* ===== verification/Virtio.v ===== *)
(** * The virtio bus (lib/trusty/trusty_virtio.c)

    Devices register with the bus during start-up.  The first request for the
    description closes the registry and lays out one descriptor per device in a
    resource table; the non-secure side then starts, stops, resets and kicks
    devices by standard calls.  The bus reaches a device only through its
    [vdev_ops]; here they are a record of routines over the state [W] the
    devices keep, an absent entry standing for a null pointer. *)

From stdpp Require Import base tactics list gmap.
From Stdlib Require Import ZArith Lia.
From S2P Require Import Prelude Shm.

(** ** State *)

Inductive bus_state :=
  | VIRTIO_BUS_STATE_UNINITIALIZED
  | VIRTIO_BUS_STATE_IDLE
  | VIRTIO_BUS_STATE_ACTIVATING
  | VIRTIO_BUS_STATE_ACTIVE
  | VIRTIO_BUS_STATE_DEACTIVATING.

#[export] Instance bus_state_eq_dec : EqDecision bus_state.
Proof. solve_decision. Defined.

Definition VIRTIO_FW_RSC_VER : Z := 1.
Definition sizeof_resource_table : Z := 16.

Section bus.
Context {W : Type}.

(** [struct vdev_ops]; the routines get the id of the device.  [get_descr] gets
    the address to write to, [probe] the bytes from the device's descriptor to
    the end of the buffer that holds it. *)
Record vdev_ops := VdevOps {
  descr_sz : option (W -> Z);
  get_descr : option (Z -> Z -> M (shared W) Z);
  probe : option (Z -> list Z -> M (shared W) Z);
  reset : option (Z -> M (shared W) Z);
  kick_vqueue : option (Z -> Z -> M (shared W) Z);
}.

(** [struct vdev]; its [state] is the device's own. *)
Record vdev := Vdev { vd_devid : Z; vd_descr_offset : Z; vd_ops : option vdev_ops }.

Record trusty_virtio_bus := Bus {
  vb_vdev_cnt : Z;
  vb_next_dev_id : Z;
  vb_descr_size : Z;
  vb_state : bus_state;
  vb_vdev_list : list vdev;
}.

Definition set_vb_state (v : bus_state) (b : trusty_virtio_bus) : trusty_virtio_bus :=
  Bus (vb_vdev_cnt b) (vb_next_dev_id b) (vb_descr_size b) v (vb_vdev_list b).

Definition _virtio_bus : trusty_virtio_bus := Bus 0 0 0 VIRTIO_BUS_STATE_UNINITIALIZED [].

(** The bus, the answers of [malloc] to come and the devices. *)
Record bsys := BSys { bs_bus : trusty_virtio_bus; bs_malloc : list bool; bs_w : W }.
Definition bstate : Type := shared bsys.
Abbreviation B := (M bstate).

Definition get_bus : B trusty_virtio_bus := gets (fun s => bs_bus (v_dev s)).
Definition set_bus (b : trusty_virtio_bus) : B unit :=
  modify (fun s => v_set_dev (BSys b (bs_malloc (v_dev s)) (bs_w (v_dev s))) s).

Definition malloc : B bool :=
  s ← get;
  match bs_malloc (v_dev s) with
  | [] => mret true
  | x :: l => modify (v_set_dev (BSys (bs_bus (v_dev s)) l (bs_w (v_dev s))));; mret x
  end.

(** A routine of a device. *)
Definition w_state (s : bstate) : shared W := VState (bs_w (v_dev s)) (v_regions s) (v_shm s) (v_env s) (v_vmm s).
Definition w_back (s : bstate) (v : shared W) : bstate :=
  VState (BSys (bs_bus (v_dev s)) (bs_malloc (v_dev s)) (v_dev v)) (v_regions v) (v_shm v) (v_env v) (v_vmm v).

Definition on_w {A} (m : M (shared W) A) : B A := fun s =>
  match m (w_state s) with
  | Ret a v => Ret a (w_back s v)
  | Fault f => Fault f
  end.

(** ** Descriptor memory *)

(** Status and the pointer left in [*buf_va]. *)
Definition map_descr (buf_pa buf_va sz : Z) : B (Z * Z) :=
  if buf_pa =? 0 then mret (ERR_INVALID_ARGS, buf_va)
  else if negb (Z.land buf_pa (PAGE_SIZE - 1) =? 0) then mret (ERR_INVALID_ARGS, buf_va)
  else if negb (Z.shiftr buf_pa 32 =? 0) then mret (ERR_INVALID_ARGS, buf_va)
  else vmm_alloc_physical (ROUNDUP sz PAGE_SIZE) buf_va (u32 buf_pa).

Definition unmap_descr (va : Z) : B Z := vmm_free_region va.

(** [memset] and [memcpy], a byte at a time. *)
Definition shm_memset (a c : Z) (n : nat) : B unit := mfor (fun i => shm_write 1 (a + i) c) (seqZ 0 (Z.of_nat n)).

Fixpoint shm_copy_in (a : Z) (n : nat) : B (list Z) :=
  match n with
  | O => mret []
  | S n' => b ← shm_read 1 a; bs ← shm_copy_in (a + 1) n'; mret (b :: bs)
  end.

(** ** The registry *)

Definition validate_vdev (vd : option vdev) : Z :=
  match vd with
  | None => ERR_INVALID_ARGS
  | Some vd =>
      match vd_ops vd with
      | None => ERR_INVALID_ARGS
      | Some (VdevOps (Some _) (Some _) (Some _) (Some _) (Some _)) => NO_ERROR
      | Some _ => ERR_INVALID_ARGS
      end
  end.

Definition virtio_register_device (vd : option vdev) : B Z :=
  vb ← get_bus;
  if bool_decide (vb_state vb = VIRTIO_BUS_STATE_UNINITIALIZED) then
    let ret := validate_vdev vd in
    if ret =? NO_ERROR then
      vd ← deref NullDeref vd;
      set_bus (Bus (u32 (vb_vdev_cnt vb + 1)) (u32 (vb_next_dev_id vb + 1)) (vb_descr_size vb) (vb_state vb)
                 (vb_vdev_list vb ++ [Vdev (vb_next_dev_id vb) (vd_descr_offset vd) (vd_ops vd)]));;
      mret ret
    else mret ret
  else mret ERR_BAD_STATE.

(** The ops of a device, [vd->ops->...]. *)
Definition vd_op {A} (f : vdev_ops -> option A) (vd : vdev) : B A :=
  ops ← deref NullDeref (vd_ops vd);
  deref NullDeref (f ops).

Definition descr_sz_of (vd : vdev) : B Z :=
  f ← vd_op descr_sz vd;
  s ← get;
  mret (f (bs_w (v_dev s))).

(** The loop over the devices: their new records and the end of the last one. *)
Fixpoint layout_loop (offset : Z) (l : list vdev) : B (Z * list vdev) :=
  match l with
  | [] => mret (offset, [])
  | vd :: l' =>
      sz ← descr_sz_of vd;
      '(fin, l'') ← layout_loop (u32 (offset + sz)) l';
      mret (fin, Vdev (vd_devid vd) offset (vd_ops vd) :: l'')
  end.

Definition finalize_vdev_registery : B unit :=
  vb ← get_bus;
  if bool_decide (vb_state vb = VIRTIO_BUS_STATE_UNINITIALIZED) then
    let offset := u32 (sizeof_resource_table + 4 * vb_vdev_cnt vb) in
    '(fin, l) ← layout_loop offset (vb_vdev_list vb);
    set_bus (Bus (vb_vdev_cnt vb) (vb_next_dev_id vb) fin VIRTIO_BUS_STATE_IDLE l)
  else mret tt.

(** ** Calls of the non-secure side *)

(** The loop that fills in the table at [va]. *)
Fixpoint descr_loop (va descr_size cnt idx : Z) (l : list vdev) : B unit :=
  match l with
  | [] => mret tt
  | vd :: l' =>
      assert_ (vd_descr_offset vd <=? descr_size);;
      sz ← descr_sz_of vd;
      assert_ (u32 (vd_descr_offset vd + sz) <=? descr_size);;
      assert_ (idx <? cnt);;
      shm_write 4 (va + sizeof_resource_table + 4 * idx) (vd_descr_offset vd);;
      f ← vd_op get_descr vd;
      on_w (f (vd_devid vd) (va + vd_descr_offset vd));;
      descr_loop va descr_size cnt (idx + 1) l'
  end.

Definition virtio_get_description (buf_pa buf_sz : Z) : B Z :=
  finalize_vdev_registery;;
  vb ← get_bus;
  if buf_sz <? vb_descr_size vb then mret ERR_NOT_ENOUGH_BUFFER
  else
    '(ret, va) ← map_descr buf_pa 0 (vb_descr_size vb);
    if negb (ret =? NO_ERROR) then mret ret
    else
      shm_memset va 0 (Z.to_nat (vb_descr_size vb));;
      shm_write 4 va VIRTIO_FW_RSC_VER;;
      shm_write 4 (va + 4) (vb_vdev_cnt vb);;
      descr_loop va (vb_descr_size vb) (vb_vdev_cnt vb) 0 (vb_vdev_list vb);;
      unmap_descr va;;
      mret (vb_descr_size vb).

(** [atomic_cmpxchg] on the state. *)
Definition cmpxchg_state (old new : bus_state) : B bus_state :=
  vb ← get_bus;
  when (bool_decide (vb_state vb = old)) (set_bus (set_vb_state new vb));;
  mret (vb_state vb).

Definition put_state (st : bus_state) : B unit := vb ← get_bus; set_bus (set_vb_state st vb).

Definition probe_vdev (descr : list Z) (vd : vdev) : B unit :=
  f ← vd_op probe vd;
  on_w (f (vd_devid vd) (drop (Z.to_nat (vd_descr_offset vd)) descr));;
  mret tt.

Definition virtio_start (ns_descr_pa descr_sz : Z) : B Z :=
  oldstate ← cmpxchg_state VIRTIO_BUS_STATE_IDLE VIRTIO_BUS_STATE_ACTIVATING;
  if negb (bool_decide (oldstate = VIRTIO_BUS_STATE_IDLE)) then mret ERR_BAD_STATE
  else
    vb ← get_bus;
    if negb (descr_sz =? vb_descr_size vb) then put_state oldstate;; mret ERR_INVALID_ARGS
    else
      descr_va ← malloc;
      if negb descr_va then put_state oldstate;; mret ERR_NO_MEMORY
      else
        '(ret, ns_descr_va) ← map_descr ns_descr_pa 0 (vb_descr_size vb);
        if negb (ret =? NO_ERROR) then put_state oldstate;; mret ret
        else
          (* copied out of non-secure memory before it is parsed *)
          descr ← shm_copy_in ns_descr_va (Z.to_nat descr_sz);
          mfor (probe_vdev descr) (vb_vdev_list vb);;
          unmap_descr ns_descr_va;;
          put_state VIRTIO_BUS_STATE_ACTIVE;;
          mret NO_ERROR.

Definition reset_vdev (vd : vdev) : B Z := f ← vd_op reset vd; on_w (f (vd_devid vd)).

Definition virtio_stop : B Z :=
  oldstate ← cmpxchg_state VIRTIO_BUS_STATE_ACTIVE VIRTIO_BUS_STATE_DEACTIVATING;
  if negb (bool_decide (oldstate = VIRTIO_BUS_STATE_ACTIVE)) then mret ERR_BAD_STATE
  else
    vb ← get_bus;
    mfor (fun vd => reset_vdev vd;; mret tt) (vb_vdev_list vb);;
    put_state VIRTIO_BUS_STATE_IDLE;;
    mret NO_ERROR.

(** The device with an id, the first of the list. *)
Definition find_vdev (devid : Z) (l : list vdev) : option vdev := head (filter (fun vd => vd_devid vd = devid) l).

Definition virtio_device_reset (devid : Z) : B Z :=
  vb ← get_bus;
  if negb (bool_decide (vb_state vb = VIRTIO_BUS_STATE_ACTIVE)) then mret ERR_BAD_STATE
  else
    match find_vdev devid (vb_vdev_list vb) with
    | Some vd => reset_vdev vd
    | None => mret ERR_NOT_FOUND
    end.

Definition virtio_kick_vq (devid vqid : Z) : B Z :=
  vb ← get_bus;
  if negb (bool_decide (vb_state vb = VIRTIO_BUS_STATE_ACTIVE)) then mret ERR_BAD_STATE
  else
    match find_vdev devid (vb_vdev_list vb) with
    | Some vd => f ← vd_op kick_vqueue vd; on_w (f (vd_devid vd) vqid)
    | None => mret ERR_NOT_FOUND
    end.
End bus.
Arguments vdev_ops : clear implicits.
Arguments vdev : clear implicits.
Arguments trusty_virtio_bus : clear implicits.
Arguments bsys : clear implicits.
Arguments bstate : clear implicits.

(** ** Calls, and what they do to the state of the bus *)

Inductive bus_call (W : Type) :=
  | Register (vd : option (vdev W))
  | GetDescription (buf_pa buf_sz : Z)
  | Start (ns_descr_pa descr_sz : Z)
  | Stop
  | DeviceReset (devid : Z)
  | KickVq (devid vqid : Z).
Arguments Register {W} _.
Arguments GetDescription {W} _ _.
Arguments Start {W} _ _.
Arguments Stop {W}.
Arguments DeviceReset {W} _.
Arguments KickVq {W} _ _.

Definition do_bus_call {W} (c : bus_call W) : M (bstate W) Z :=
  match c with
  | Register vd => virtio_register_device vd
  | GetDescription pa sz => virtio_get_description pa sz
  | Start pa sz => virtio_start pa sz
  | Stop => virtio_stop
  | DeviceReset id => virtio_device_reset id
  | KickVq id vq => virtio_kick_vq id vq
  end.

(** The contract of the bus: [cnt] devices, state [st], call, answer, next state. *)
Definition bus_step {W} (cnt : Z) (st : bus_state) (c : bus_call W) (ret : Z) (st' : bus_state) : Prop :=
  match c with
  | Register vd => st' = st /\ ret = if bool_decide (st = VIRTIO_BUS_STATE_UNINITIALIZED) then validate_vdev vd else ERR_BAD_STATE
  | GetDescription _ _ => st' = if bool_decide (st = VIRTIO_BUS_STATE_UNINITIALIZED) then VIRTIO_BUS_STATE_IDLE else st
  | Start _ _ =>
      (ret = NO_ERROR /\ st = VIRTIO_BUS_STATE_IDLE /\ st' = VIRTIO_BUS_STATE_ACTIVE) \/
      (ret <> NO_ERROR /\ st' = st /\ (st <> VIRTIO_BUS_STATE_IDLE -> ret = ERR_BAD_STATE))
  | Stop =>
      (ret = NO_ERROR /\ st = VIRTIO_BUS_STATE_ACTIVE /\ st' = VIRTIO_BUS_STATE_IDLE) \/
      (ret = ERR_BAD_STATE /\ st <> VIRTIO_BUS_STATE_ACTIVE /\ st' = st)
  | DeviceReset id | KickVq id _ =>
      st' = st /\ (st <> VIRTIO_BUS_STATE_ACTIVE -> ret = ERR_BAD_STATE) /\
      (st = VIRTIO_BUS_STATE_ACTIVE -> cnt <= id -> ret = ERR_NOT_FOUND)
  end.

(** ** The region allocator during a call *)

Lemma rdisj_sym r r' : rdisj r r' -> rdisj r' r.
Proof. unfold rdisj. lia. Qed.

#[export] Instance regions_disj_perm : Proper (Permutation ==> iff) regions_disj.
Proof.
  assert (forall l l', Permutation l l' -> regions_disj l -> regions_disj l') as H.
  { induction 1 as [|r l l' Hp IH|r r' l|l1 l2 l3 _ IH1 _ IH2]; cbn; [done| | |by auto].
    - intros [Hr Hd]. split; [by rewrite <- Hp|by apply IH].
    - rewrite !Forall_cons. intros ((H1 & H2) & H3 & H4). split_and!; [by apply rdisj_sym|done..]. }
  intros l l' Hp. split; [by apply H|by apply H; symmetry].
Qed.

(** [R'] lies within [R]. *)
Definition covered (R' R : list (Z * Z)) : Prop :=
  forall r, r ∈ R' -> exists r0, r0 ∈ R /\ r0.1 <= r.1 /\ r.1 + r.2 <= r0.1 + r0.2.

Lemma covered_sub R' R : R' ⊆ R -> covered R' R.
Proof. intros H r Hr. exists r. split; [by apply H|lia]. Qed.

Lemma covered_cons b n n' R' R : n' <= n -> covered R' R -> covered ((b, n') :: R') ((b, n) :: R).
Proof.
  intros Hn H r [->|Hr]%elem_of_cons; [exists (b, n); cbn; split; [by left|lia]|].
  destruct (H r Hr) as (r0 & H0 & H1). exists r0. split; [by right|done].
Qed.

(** What the bus and the devices rely on: an answer of the allocator during a call
    leaves room for [N] bytes apart from what is mapped and from the answers
    before it. *)
Fixpoint vmm_spaced (N : Z) (R : list (Z * Z)) (l : list (option Z)) : Prop :=
  match l with
  | [] => True
  | None :: l' => vmm_spaced N R l'
  | Some b :: l' => 0 < b /\ b + N <= 2 ^ 32 /\ Forall (rdisj (b, N)) R /\ vmm_spaced N ((b, N) :: R) l'
  end.

Lemma vmm_spaced_covered N R R' l : covered R' R -> vmm_spaced N R l -> vmm_spaced N R' l.
Proof.
  revert R R'. induction l as [|[b|] l IH]; intros R R' Hc; cbn; [done| |by eauto].
  intros (H0 & H1 & Hd & Hs). split; [done|]. split; [done|]. split.
  - apply Forall_forall. intros r Hr. destruct (Hc r Hr) as (r0 & Hr0 & ? & ?). rewrite Forall_forall in Hd.
    specialize (Hd r0 Hr0). unfold rdisj in *. cbn in *. lia.
  - eapply IH; [|exact Hs]. by apply covered_cons.
Qed.

(** ** What a device promises to the bus *)

Section laws.
Context {W : Type} (N : Z).

(** The devices' invariant, with the mappings [O] they hold. *)
Context (Iw : W -> list (Z * Z) -> Prop).

(** The state of the devices when the kernel's other mappings are [F]. *)
Record dev_ok (O F : list (Z * Z)) (s : shared W) : Prop := {
  do_inv : Iw (v_dev s) O;
  do_regions : Permutation (v_regions s) (O ++ F);
  do_disj : regions_disj (v_regions s);
  do_mem : mem_ok (v_shm s);
  do_vmm : vmm_spaced N (v_regions s) (v_vmm s);
}.

(** The routines of a device with a descriptor of [sz] bytes: they keep the
    invariant and other mappings, [get_descr] accesses its descriptor only and
    [probe] no more than the [sz] bytes it is given. *)
Class Vdev_laws (o : vdev_ops W) (sz : Z) : Prop := {
  vl_sz : 0 <= sz;
  vl_descr_sz : exists f, descr_sz o = Some f /\ forall w, f w = sz;
  vl_get_descr : exists f, get_descr o = Some f /\ forall id a O F s, dev_ok O F s -> in_regions (v_regions s) a sz = true ->
    wpp (f id a) (fun _ s' => dev_ok O F s' /\ v_regions s' = v_regions s) s;
  vl_probe : exists f, probe o = Some f /\ forall id bs O F s, dev_ok O F s -> sz <= Z.of_nat (length bs) ->
    wpp (f id bs) (fun _ s' => exists O', dev_ok O' F s') s;
  vl_reset : exists f, reset o = Some f /\ forall id O F s, dev_ok O F s -> wpp (f id) (fun _ s' => exists O', dev_ok O' F s') s;
  vl_kick : exists f, kick_vqueue o = Some f /\ forall id vq O F s, dev_ok O F s -> wpp (f id vq) (fun _ s' => exists O', dev_ok O' F s') s;
}.

(** ** The invariant of the bus *)

(** A device of the list and the size of its descriptor. *)
Definition vdev_ok (vd : vdev W) (sz : Z) : Prop := exists o, vd_ops vd = Some o /\ Vdev_laws o sz.

(** Descriptors one behind the other from [offset] to [fin]. *)
Fixpoint laid_out (offset : Z) (l : list (vdev W)) (szs : list Z) (fin : Z) : Prop :=
  match l, szs with
  | [], [] => fin = offset
  | vd :: l', sz :: szs' => vd_descr_offset vd = offset /\ laid_out (offset + sz) l' szs' fin
  | _, _ => False
  end.

Definition table_start (szs : list Z) : Z := sizeof_resource_table + 4 * Z.of_nat (length szs).
Definition table_size (szs : list Z) : Z := table_start szs + foldr Z.add 0 szs.

(** The bus with devices whose descriptors have the sizes [szs]. *)
Record bus_ok (b : trusty_virtio_bus W) (szs : list Z) : Prop := {
  bo_vdevs : Forall2 vdev_ok (vb_vdev_list b) szs;
  bo_cnt : vb_vdev_cnt b = Z.of_nat (length szs);
  bo_next : vb_next_dev_id b = Z.of_nat (length szs);
  bo_ids : vd_devid <$> vb_vdev_list b = seqZ 0 (Z.of_nat (length szs));
  bo_fits : table_size szs + PAGE_SIZE <= N /\ N <= 2 ^ 32;
  bo_layout : vb_state b <> VIRTIO_BUS_STATE_UNINITIALIZED ->
    vb_descr_size b = table_size szs /\ laid_out (table_start szs) (vb_vdev_list b) szs (table_size szs);
}.

(** No call is under way. *)
Definition bus_stable (st : bus_state) : Prop :=
  st = VIRTIO_BUS_STATE_UNINITIALIZED \/ st = VIRTIO_BUS_STATE_IDLE \/ st = VIRTIO_BUS_STATE_ACTIVE.

Definition bus_inv (F : list (Z * Z)) (s : bstate W) : Prop :=
  exists szs O, bus_ok (bs_bus (v_dev s)) szs /\ dev_ok O F (w_state s).

(** *** Rules *)

Lemma wpp_on_w {A} (m : M (shared W) A) (Q : A -> bstate W -> Prop) s :
  wpp m (fun a v => Q a (w_back s v)) (w_state s) -> wpp (on_w m) Q s.
Proof. unfold wpp, on_w. by destruct (m (w_state s)). Qed.

Lemma wpp_run {S A} (m : M (shared S) A) (Q : A -> shared S -> Prop) s a s' : m s = Ret a s' -> Q a s' -> wpp m Q s.
Proof. unfold wpp. by intros ->. Qed.

Lemma wpp_mfor {S A} (f : A -> M (shared S) unit) (l : list A) (I : list A -> shared S -> Prop) s :
  I l s -> (forall x l' s, I (x :: l') s -> wpp (f x) (fun _ s' => I l' s') s) -> wpp (mfor f l) (fun _ => I []) s.
Proof.
  intros Hl Hf. revert s Hl. induction l as [|x l IH]; intros s Hl; [done|]. apply wpp_bind.
  eapply wpp_mono; [by apply Hf|]. intros [] s' H'. by apply IH.
Qed.

(** An access to shared memory, which leaves everything else as it was. *)
Definition touched {S} (s s' : shared S) : Prop := vframe s s' /\ v_vmm s' = v_vmm s.

#[local] Instance touched_refl {S} : Reflexive (@touched S).
Proof. by split. Qed.
#[local] Instance touched_trans {S} : Transitive (@touched S).
Proof. intros s1 s2 s3 [H1 E1] [H2 E2]. split; [by transitivity s2|congruence]. Qed.

Lemma interfere_touched {S} (s : shared S) : exists s', interfere s = Ret tt s' /\ touched s s'.
Proof.
  destruct (interfere_frame s) as (s' & E & Hf). exists s'. split; [done|]. split; [done|].
  unfold interfere, modify in E. destruct (v_env s); by simplify_eq/=.
Qed.

Lemma wpp_write {S} n a v (Q : unit -> shared S -> Prop) s :
  in_regions (v_regions s) a (Z.of_nat n) = true -> (forall s', touched s s' -> Q tt s') -> wpp (shm_write n a v) Q s.
Proof.
  intros Hr HQ. destruct (interfere_touched s) as (s1 & E & (Hd & Hreg & Hok) & Hv).
  unfold wpp, shm_write, mbind, M_bind. rewrite E. cbn. rewrite Hreg, Hr. apply HQ. split; [|done]. split_and!; [done..|].
  intros Hm. apply shm_store_ok; [by apply Hok|apply le_bytes_ok].
Qed.

Lemma wpp_read {S} n a (Q : Z -> shared S -> Prop) s :
  in_regions (v_regions s) a (Z.of_nat n) = true -> (forall v s', touched s s' -> Q v s') -> wpp (shm_read n a) Q s.
Proof.
  intros Hr HQ. destruct (interfere_touched s) as (s1 & E & Ht). pose proof Ht as ((_ & Hreg & _) & _).
  unfold wpp, shm_read, mbind, M_bind. rewrite E. cbn. rewrite Hreg, Hr. by apply HQ.
Qed.

Lemma wpp_memset a c n (Q : unit -> bstate W -> Prop) s :
  in_regions (v_regions s) a (Z.of_nat n) = true -> (forall s', touched s s' -> Q tt s') -> wpp (shm_memset a c n) Q s.
Proof.
  intros Hr HQ. unfold shm_memset.
  eapply wpp_mono; [apply (wpp_mfor _ _ (fun l s' => (forall i, i ∈ l -> 0 <= i < Z.of_nat n) /\ touched s s'))|].
  - split; [|reflexivity]. intros i Hi. apply elem_of_seqZ in Hi. lia.
  - intros i l s1 (Hi & Ht). pose proof (Hi i ltac:(by left)). pose proof Ht as ((_ & Er & _) & _). apply wpp_write.
    + rewrite Er. eapply in_regions_sub; [exact Hr|lia..].
    + intros s2 H2. split; [|by transitivity s1]. intros j Hj. apply Hi. by right.
  - intros [] s' [_ H]. by apply HQ.
Qed.

Lemma wpp_copy_in a n (Q : list Z -> bstate W -> Prop) s :
  in_regions (v_regions s) a (Z.of_nat n) = true -> (forall bs s', touched s s' -> length bs = n -> Q bs s') -> wpp (shm_copy_in a n) Q s.
Proof.
  revert a Q s. induction n as [|n IH]; intros a Q s Hr HQ; cbn [shm_copy_in]; [by apply wpp_ret, HQ|].
  apply wpp_bind, wpp_read; [eapply in_regions_sub; [exact Hr|lia..]|]. intros b s1 H1. pose proof H1 as ((_ & Er & _) & _).
  apply wpp_bind, IH; [rewrite Er; eapply in_regions_sub; [exact Hr|lia..]|]. intros bs s2 H2 Hl.
  apply wpp_ret, HQ; [by transitivity s1|cbn; lia].
Qed.

(** An access of the bus itself leaves the devices in order. *)
Lemma dev_ok_touched O F (s s' : bstate W) : dev_ok O F (w_state s) -> touched s s' -> dev_ok O F (w_state s').
Proof. intros [H1 H2 H3 H4 H5] [(E1 & E2 & E3) Ev]. split; cbn in *; rewrite ?E1, ?E2, ?Ev; auto. Qed.

(** Nor does a change to the bus alone. *)
Lemma dev_ok_bus O F (s : bstate W) b l : dev_ok O F (w_state s) -> dev_ok O F (w_state (v_set_dev (BSys b l (bs_w (v_dev s))) s)).
Proof. intros [H1 H2 H3 H4 H5]. by split. Qed.

Lemma map_descr_ok O F s pa sz (Q : Z * Z -> bstate W -> Prop) :
  dev_ok O F (w_state s) -> 0 < sz -> sz + PAGE_SIZE <= N -> N <= 2 ^ 32 ->
  (forall r s', r.1 <> NO_ERROR -> v_dev s' = v_dev s -> dev_ok O F (w_state s') -> Q r s') ->
  (forall va s', 0 < va -> v_dev s' = v_dev s -> in_regions (v_regions s') va sz = true ->
     dev_ok O ((va, ROUNDUP sz PAGE_SIZE) :: F) (w_state s') -> Q (NO_ERROR, va) s') ->
  wpp (map_descr pa 0 sz) Q s.
Proof.
  intros HO Hsz HN HN' Herr Hok. unfold map_descr. destruct (Z.eqb_spec pa 0); [by apply wpp_ret, Herr|].
  destruct (negb _) eqn:Ea; [by apply wpp_ret, Herr|]. destruct (negb (Z.shiftr pa 32 =? 0)); [by apply wpp_ret, Herr|].
  destruct (ROUNDUP_spec sz 12) as [Hge Hmod]; [unfold PAGE_SIZE in *; lia..|]. change (2 ^ 12) with PAGE_SIZE in *.
  assert (u32 pa mod PAGE_SIZE = 0) as Hpa.
  { apply negb_false_iff, Z.eqb_eq in Ea. change (PAGE_SIZE - 1) with (Z.ones 12) in Ea. rewrite Z.land_ones in Ea by lia.
    unfold u32. change (2 ^ 32) with (PAGE_SIZE * 2 ^ 20). rewrite Z.rem_mul_r by (unfold PAGE_SIZE; lia). change PAGE_SIZE with (2 ^ 12) in *. rewrite Ea. cbn [Z.add].
    rewrite Z.mul_comm. apply Z.mod_mul. lia. }
  set (R := ROUNDUP sz PAGE_SIZE) in *. unfold vmm_alloc_physical. rewrite Hpa, Hmod. destruct (Z.eqb_spec R 0); [lia|].
  pose proof HO as [H1 H2 H3 H4 H5]. cbn in H2, H3, H4, H5. unfold wpp, mbind, M_bind. cbn. destruct (v_vmm s) as [|[b|] l] eqn:Ev.
  - by apply Herr.
  - destruct H5 as (Hb0 & Hb1 & Hbd & Hsp). apply Hok; [done|done| |].
    + cbn. rewrite Z.leb_refl. by destruct (Z.leb_spec (b + sz) (b + R)); [|lia].
    + split; cbn; [done|rewrite H2; apply Permutation_middle| |done|].
      * split; [|done]. eapply Forall_impl; [exact Hbd|]. unfold rdisj. cbn. intros r. lia.
      * eapply vmm_spaced_covered; [|exact Hsp]. apply covered_cons; [lia|by apply covered_sub].
  - apply Herr; [done|done|]. by split.
Qed.

Lemma unmap_descr_ok O F s va R (Q : Z -> bstate W -> Prop) :
  dev_ok O ((va, R) :: F) (w_state s) -> 0 < R ->
  (forall r s', v_dev s' = v_dev s -> dev_ok O F (w_state s') -> Q r s') -> wpp (unmap_descr va) Q s.
Proof.
  intros [H1 H2 H3 H4 H5] HR HQ. cbn in H2, H3, H4, H5.
  assert ((va, R) ∈ v_regions s) as Hin by (rewrite H2; apply elem_of_app; right; by left).
  apply list_elem_of_split in Hin as (l1 & l2 & El). rewrite El in H2, H3, H5.
  eapply wpp_run; [apply (vmm_free_middle va s l1 (va, R) l2); [done|done|cbn; lia]|]. apply HQ; [done|].
  assert (Permutation (l1 ++ l2) (O ++ F)) as Hp.
  { apply (Permutation_cons_inv (a := (va, R))). rewrite Permutation_middle, H2. symmetry. apply Permutation_middle. }
  split; cbn; [done|done|by apply regions_disj_remove in H3|done|].
  eapply vmm_spaced_covered; [|exact H5]. apply covered_sub. intros x. rewrite !elem_of_app, elem_of_cons. tauto.
Qed.

(** *** Devices *)

Lemma vd_op_run {A} (f : vdev_ops W -> option A) vd o x (s : bstate W) : vd_ops vd = Some o -> f o = Some x -> vd_op f vd s = Ret x s.
Proof. intros Ho Hx. unfold vd_op. erewrite run_bind by (by rewrite Ho). by rewrite Hx. Qed.

(** The size of a device's descriptor. *)
Definition sized (vd : vdev W) (sz : Z) : Prop :=
  0 <= sz /\ exists o f, vd_ops vd = Some o /\ descr_sz o = Some f /\ forall w, f w = sz.

Lemma vdev_ok_sized vd sz : vdev_ok vd sz -> sized vd sz.
Proof. intros (o & Ho & HL). split; [apply HL|]. destruct (vl_descr_sz (Vdev_laws := HL)) as (f & Hf & E). by exists o, f. Qed.

Lemma descr_sz_of_run vd sz (s : bstate W) : sized vd sz -> descr_sz_of vd s = Ret sz s.
Proof.
  intros (_ & o & f & Ho & Hf & E). unfold descr_sz_of.
  rewrite (run_bind _ _ _ _ _ (vd_op_run _ _ _ _ s Ho Hf)). unfold mbind, M_bind. cbn. by rewrite E.
Qed.

Lemma sized_sizes l szs : Forall2 sized l szs -> Forall (fun sz => 0 <= sz) szs.
Proof. induction 1 as [|vd sz l szs [H _] _ IH]; by constructor. Qed.

Lemma vdev_ok_sizes l szs : Forall2 vdev_ok l szs -> Forall (fun sz => 0 <= sz) szs.
Proof. intros H. eapply sized_sizes, Forall2_impl; [exact H|]. apply vdev_ok_sized. Qed.

(** What is known of a device's ops does not depend on the rest of its record. *)
Lemma Forall2_ops (P : vdev W -> Z -> Prop) l l' szs : (forall vd vd' sz, vd_ops vd = vd_ops vd' -> P vd sz -> P vd' sz) ->
  vd_ops <$> l' = vd_ops <$> l -> Forall2 P l szs -> Forall2 P l' szs.
Proof.
  intros HP E H. revert l' E. induction H as [|vd sz l szs Hv _ IH]; intros [|vd' l'] [=]; constructor; [by eapply HP|by apply IH].
Qed.

Lemma sizes_sum szs : Forall (fun sz => 0 <= sz) szs -> 0 <= foldr Z.add 0 szs.
Proof. induction 1; cbn; lia. Qed.

Lemma laid_out_bounds off l szs fin i vd sz :
  Forall (fun sz => 0 <= sz) szs -> laid_out off l szs fin -> l !! i = Some vd -> szs !! i = Some sz ->
  off <= vd_descr_offset vd /\ vd_descr_offset vd + sz <= fin.
Proof.
  intros Hs. revert off l i. induction Hs as [|z szs Hz Hs IH]; intros off [|v l] [|i]; cbn; try done.
  - intros [Ev Hl] [= ->] [= ->]. split; [lia|]. clear -Hl Hs Ev. rewrite Ev. revert Hl. generalize (off + sz). revert l.
    induction Hs as [|z szs Hz Hs IH]; intros [|v l] off'; cbn; try done; [lia|]. intros [_ H]. specialize (IH _ _ H). lia.
  - intros [_ Hl] Hv Hsz. destruct (IH _ _ _ Hl Hv Hsz). lia.
Qed.

(** Two descriptors do not overlap. *)
Lemma laid_out_order off l szs fin i j vd vd' sz :
  Forall (fun sz => 0 <= sz) szs -> laid_out off l szs fin -> (i < j)%nat -> l !! i = Some vd -> l !! j = Some vd' -> szs !! i = Some sz ->
  vd_descr_offset vd + sz <= vd_descr_offset vd'.
Proof.
  intros Hs. revert off l i j. induction Hs as [|z szs Hz Hs IH]; intros off [|v l] [|i] [|j]; cbn; try done; try lia.
  - intros [Ev Hl] _ [= ->] Hv' [= ->]. assert (is_Some (szs !! j)) as [sz' Hsz'].
    { clear -Hl Hv'. revert l j Hl Hv'. generalize (off + sz). induction szs as [|z szs IH]; intros o [|v l] [|j]; cbn; try done. intros [_ H] H'. by eapply IH. }
    destruct (laid_out_bounds _ _ _ _ _ _ _ Hs Hl Hv' Hsz'). lia.
  - intros [_ Hl] Hij. apply (IH _ _ _ _ Hl). lia.
Qed.

Lemma layout_loop_run l szs off (s : bstate W) : Forall2 sized l szs -> 0 <= off -> off + foldr Z.add 0 szs < 2 ^ 32 ->
  exists l', layout_loop off l s = Ret (off + foldr Z.add 0 szs, l') s /\ laid_out off l' szs (off + foldr Z.add 0 szs) /\
    vd_ops <$> l' = vd_ops <$> l /\ vd_devid <$> l' = vd_devid <$> l.
Proof.
  intros Hl. revert off. induction Hl as [|vd sz l szs Hvd Hl IH]; intros off H0 Hf; cbn [layout_loop foldr] in *.
  { exists []. rewrite Z.add_0_r. by split. }
  rewrite (run_bind _ _ _ _ _ (descr_sz_of_run vd sz s Hvd)). pose proof (sizes_sum _ (sized_sizes _ _ Hl)). pose proof (proj1 Hvd).
  assert (u32 (off + sz) = off + sz) as -> by (unfold u32; apply Z.mod_small; lia).
  destruct (IH (off + sz)) as (l' & E & Hlo & Hop & Hid); [lia|lia|]. rewrite (run_bind _ _ _ _ _ E).
  exists (Vdev (vd_devid vd) off (vd_ops vd) :: l'). rewrite Z.add_assoc. split; [done|]. split; [by split|]. cbn. by rewrite Hop, Hid.
Qed.

(** ** The calls *)

(** The bus is [b], with devices in order. *)
Definition bus_at (b : trusty_virtio_bus W) (O F : list (Z * Z)) (s : bstate W) : Prop := bs_bus (v_dev s) = b /\ dev_ok O F (w_state s).

Lemma set_bus_at b b' O F s : bus_at b O F s -> exists s', set_bus b' s = Ret tt s' /\ bus_at b' O F s' /\ v_regions s' = v_regions s.
Proof. intros [_ HO]. eexists. split; [done|]. split; [|done]. split; [done|]. by apply dev_ok_bus. Qed.

Lemma bus_at_touched b O F s s' : bus_at b O F s -> touched s s' -> bus_at b O F s'.
Proof. intros [Hb HO] Ht. split; [by destruct Ht as [(-> & _) _]|by eapply dev_ok_touched]. Qed.

Lemma on_w_at {A} (m : M (shared W) A) b O F s (Q : A -> bstate W -> Prop) :
  bus_at b O F s -> wpp m (fun a v => exists O', dev_ok O' F v /\ Q a (w_back s v)) (w_state s) ->
  wpp (on_w m) (fun a s' => (exists O', bus_at b O' F s') /\ Q a s') s.
Proof.
  intros [Hb HO] Hm. apply wpp_on_w. eapply wpp_mono; [exact Hm|]. intros a v (O' & HO' & HQ). split; [|done].
  exists O'. split; [done|]. destruct HO'. by split.
Qed.

Lemma finalize_ok b szs O F s : bus_at b O F s -> bus_ok b szs ->
  wpp finalize_vdev_registery (fun _ s' => exists b', bus_at b' O F s' /\ bus_ok b' szs /\ vb_state b' <> VIRTIO_BUS_STATE_UNINITIALIZED /\
    vb_state b' = if bool_decide (vb_state b = VIRTIO_BUS_STATE_UNINITIALIZED) then VIRTIO_BUS_STATE_IDLE else vb_state b) s.
Proof.
  intros [Hb HO] [H1 H2 H3 H4 H5 H6]. unfold finalize_vdev_registery. apply wpp_bind. eapply wpp_run; [reflexivity|]. rewrite Hb.
  case_bool_decide as Hst; [|by apply wpp_ret; exists b].
  pose proof (sizes_sum _ (vdev_ok_sizes _ _ H1)) as Hsum. unfold table_size, table_start, sizeof_resource_table, PAGE_SIZE in *.
  assert (u32 (16 + 4 * vb_vdev_cnt b) = table_start szs) as Eoff by (rewrite H2; unfold table_start, sizeof_resource_table, u32; apply Z.mod_small; lia).
  unfold sizeof_resource_table. rewrite Eoff.
  destruct (layout_loop_run (vb_vdev_list b) szs (table_start szs) s) as (l' & E & Hlo & Hop & Hid);
    [eapply Forall2_impl; [exact H1|apply vdev_ok_sized]|unfold table_start, sizeof_resource_table; lia..|].
  apply wpp_bind. eapply wpp_run; [exact E|]. eapply wpp_run; [reflexivity|].
  eexists. split; [split; [reflexivity|by apply dev_ok_bus]|]. split; [|by split].
  split; cbn; try done; [|by rewrite Hid]. eapply Forall2_ops; [|exact Hop|exact H1]. intros vd vd' sz Ev (o & Ho & HL). exists o. by rewrite <- Ev.
Qed.

Lemma descr_loop_ok b O F va size cnt l szs idx off s :
  bus_at b O F s -> Forall2 vdev_ok l szs -> laid_out off l szs size -> 0 <= idx -> idx + Z.of_nat (length l) = cnt ->
  sizeof_resource_table + 4 * cnt <= off -> off <= size < 2 ^ 32 -> in_regions (v_regions s) va size = true ->
  wpp (descr_loop va size cnt idx l) (fun _ s' => bus_at b O F s' /\ v_regions s' = v_regions s) s.
Proof.
  intros Hb Hl. revert idx off s Hb. induction Hl as [|vd sz l szs Hvd Hl IH]; intros idx off s Hb Hlo H0 Hc Hh Hsz Hr; cbn [descr_loop].
  { by apply wpp_ret. }
  assert (Forall (fun sz => 0 <= sz) (sz :: szs)) as Hs by (by eapply vdev_ok_sizes; constructor).
  destruct (laid_out_bounds off (vd :: l) (sz :: szs) size 0 vd sz Hs Hlo eq_refl eq_refl) as [Hb1 Hb2]. destruct Hlo as [Eoff Hlo].
  cbn [length] in Hc. pose proof Hvd as (o & Ho & HL). pose proof (vl_sz (Vdev_laws := HL)) as Hsz0.
  unfold assert_. destruct (Z.leb_spec (vd_descr_offset vd) size); [|lia]. apply wpp_bind, wpp_ret.
  apply wpp_bind. eapply wpp_run; [by apply descr_sz_of_run, vdev_ok_sized|].
  assert (u32 (vd_descr_offset vd + sz) = vd_descr_offset vd + sz) as -> by (unfold u32, sizeof_resource_table in *; apply Z.mod_small; lia).
  destruct (Z.leb_spec (vd_descr_offset vd + sz) size); [|lia]. apply wpp_bind, wpp_ret.
  destruct (Z.ltb_spec idx cnt); [|lia]. apply wpp_bind, wpp_ret.
  apply wpp_bind, wpp_write; [eapply in_regions_sub; [exact Hr|unfold sizeof_resource_table in *; lia..]|]. intros s1 Ht.
  pose proof (bus_at_touched b O F s s1 Hb Ht) as Hb1'. pose proof Ht as ((_ & Er1 & _) & _).
  destruct (vl_get_descr (Vdev_laws := HL)) as (f & Hf & Hget). apply wpp_bind. eapply wpp_run; [by eapply vd_op_run|].
  apply wpp_bind, wpp_on_w. eapply wpp_mono; [apply (Hget (vd_devid vd) (va + vd_descr_offset vd) O F); [apply Hb1'|]|].
  { cbn. rewrite Er1. eapply in_regions_sub; [exact Hr|unfold sizeof_resource_table in *; lia..]. }
  intros _ v [HO2 Er2]. eapply wpp_mono; [apply (IH (idx + 1) (off + sz) (w_back s1 v)); try done; try lia|].
  - split; [apply Hb1'|by destruct HO2; split].
  - cbn. rewrite Er2. cbn. by rewrite Er1.
  - intros _ s' [HB E]. split; [done|]. cbn in E. by rewrite E, Er2, <- Er1.
Qed.

Lemma table_size_pos szs : Forall (fun sz => 0 <= sz) szs -> 0 < table_size szs.
Proof. intros H. pose proof (sizes_sum _ H). unfold table_size, table_start, sizeof_resource_table. lia. Qed.

Lemma get_description_ok b szs O F s pa sz : bus_at b O F s -> bus_ok b szs ->
  wpp (virtio_get_description pa sz) (fun ret s' => exists b', bus_at b' O F s' /\ bus_ok b' szs /\
    bus_step (Z.of_nat (length szs)) (vb_state b) (GetDescription (W := W) pa sz) ret (vb_state b')) s.
Proof.
  intros Hat Hok. unfold virtio_get_description. apply wpp_bind. eapply wpp_mono; [by apply (finalize_ok b szs O F)|].
  intros [] s1 (b1 & Hat1 & Hok1 & Hun & Hst1). apply wpp_bind. eapply wpp_run; [reflexivity|].
  pose proof Hat1 as [Eb1 HO1]. rewrite Eb1. destruct (bo_layout _ _ Hok1 Hun) as [Esz Hlo]. rewrite Esz.
  destruct (sz <? table_size szs); [apply wpp_ret; by exists b1|].
  pose proof (bo_vdevs _ _ Hok1) as Hvd. pose proof (vdev_ok_sizes _ _ Hvd) as Hszs. pose proof (table_size_pos szs Hszs) as Hpos.
  destruct (bo_fits _ _ Hok1) as [HN HN']. apply wpp_bind. eapply map_descr_ok; [exact HO1|done..| |].
  { intros [ret va] s2 Hne Ed HO2. cbn in Hne. destruct (Z.eqb_spec ret NO_ERROR); [done|]. cbn [negb].
    apply wpp_ret. exists b1. split; [|done]. split; [by rewrite Ed|done]. }
  intros va s2 Hva Ed Hr HO2. cbn [Z.eqb NO_ERROR negb]. set (R := ROUNDUP _ _) in *. set (F' := (va, R) :: F) in *.
  assert (bus_at b1 O F' s2) as Hat2 by (split; [by rewrite Ed|done]).
  apply wpp_bind, wpp_memset; [rewrite Z2Nat.id by lia; done|]. intros s3 H3.
  pose proof (sizes_sum _ Hszs). assert (16 <= table_start szs <= table_size szs) by (unfold table_size, table_start, sizeof_resource_table in *; lia).
  pose proof H3 as ((_ & E3 & _) & _). apply wpp_bind, wpp_write; [rewrite E3; eapply in_regions_sub; [exact Hr|lia..]|]. intros s4 H4.
  pose proof H4 as ((_ & E4 & _) & _). apply wpp_bind, wpp_write; [rewrite E4, E3; eapply in_regions_sub; [exact Hr|lia..]|]. intros s5 H5.
  pose proof H5 as ((_ & E5 & _) & _).
  assert (bus_at b1 O F' s5) as Hat5 by (eapply bus_at_touched; [exact Hat2|]; transitivity s3; [done|]; by transitivity s4).
  apply wpp_bind. eapply wpp_mono; [eapply (descr_loop_ok b1 O F'); try done|].
  - rewrite (bo_cnt _ _ Hok1), (Forall2_length _ _ _ Hvd). lia.
  - rewrite (bo_cnt _ _ Hok1). done.
  - unfold PAGE_SIZE in *. lia.
  - by rewrite E5, E4, E3.
  - intros [] s6 [[Eb6 HO6] _]. destruct (ROUNDUP_spec (table_size szs) 12) as [Hge _]; [unfold PAGE_SIZE in *; lia..|].
    change (2 ^ 12) with PAGE_SIZE in Hge. fold R in Hge. apply wpp_bind. eapply unmap_descr_ok; [exact HO6|lia|].
    intros _ s7 Ed7 HO7. apply wpp_ret. exists b1. split; [|done]. split; [by rewrite Ed7|done].
Qed.

(** Changing the state of the bus, to one in which the registry is closed. *)
Lemma bus_ok_state b szs st : bus_ok b szs -> vb_state b <> VIRTIO_BUS_STATE_UNINITIALIZED -> bus_ok (set_vb_state st b) szs.
Proof. intros [H1 H2 H3 H4 H5 H6] Hb. split; try done. intros _. by apply H6. Qed.

Lemma put_state_at b O F s st : bus_at b O F s -> exists s', put_state st s = Ret tt s' /\ bus_at (set_vb_state st b) O F s'.
Proof. intros [<- HO]. eexists. split; [done|]. split; [done|]. by apply dev_ok_bus. Qed.

Lemma set_state_twice st st' (b : trusty_virtio_bus W) : set_vb_state st (set_vb_state st' b) = set_vb_state st b.
Proof. done. Qed.

Lemma set_state_id (b : trusty_virtio_bus W) st : vb_state b = st -> set_vb_state st b = b.
Proof. intros <-. by destruct b. Qed.

Lemma cmpxchg_at b O F s old new : bus_at b O F s ->
  exists s', cmpxchg_state old new s = Ret (vb_state b) s' /\ bus_at (if bool_decide (vb_state b = old) then set_vb_state new b else b) O F s'.
Proof.
  intros [<- HO]. unfold cmpxchg_state. erewrite run_bind by reflexivity. case_bool_decide; cbn.
  - eexists. split; [done|]. split; [done|]. by apply dev_ok_bus.
  - by exists s.
Qed.

(** A loop that runs a routine of every device. *)
Lemma each_vdev_ok (f : vdev W -> M (bstate W) unit) b F l szs s :
  Forall2 vdev_ok l szs -> (exists O, bus_at b O F s) ->
  (forall i vd sz O s, l !! i = Some vd -> szs !! i = Some sz -> vdev_ok vd sz -> bus_at b O F s -> wpp (f vd) (fun _ s' => exists O', bus_at b O' F s') s) ->
  wpp (mfor f l) (fun _ s' => exists O', bus_at b O' F s') s.
Proof.
  intros Hl. revert s. induction Hl as [|vd sz l szs Hvd Hl IH]; intros s (O & Hb) Hf; [apply wpp_ret; by exists O|].
  apply wpp_bind. eapply wpp_mono; [by apply (Hf 0%nat vd sz O)|]. intros [] s1 Hb1. apply IH; [done|].
  intros i vd' sz' O' s' Hi Hi'. by apply (Hf (S i)).
Qed.

Lemma malloc_at b O F s : bus_at b O F s -> exists x s', malloc s = Ret x s' /\ bus_at b O F s'.
Proof.
  intros [Hb HO]. unfold malloc, mbind, M_bind. cbn. destruct (bs_malloc (v_dev s)) as [|x l]; cbn; eexists _, _; (split; [done|]).
  - by split.
  - split; [done|]. by apply dev_ok_bus.
Qed.

Lemma start_ok b szs O F s pa sz : bus_at b O F s -> bus_ok b szs ->
  wpp (virtio_start pa sz) (fun ret s' => exists b' O', bus_at b' O' F s' /\ bus_ok b' szs /\
    bus_step (Z.of_nat (length szs)) (vb_state b) (Start (W := W) pa sz) ret (vb_state b')) s.
Proof.
  intros Hat Hok. unfold virtio_start.
  destruct (cmpxchg_at b O F s VIRTIO_BUS_STATE_IDLE VIRTIO_BUS_STATE_ACTIVATING Hat) as (s1 & E1 & Hat1).
  apply wpp_bind. eapply wpp_run; [exact E1|]. case_bool_decide as Hidle; cbn [negb].
  2:{ apply wpp_ret. exists b, O. split; [done|]. split; [done|]. by right. }
  assert (vb_state b <> VIRTIO_BUS_STATE_UNINITIALIZED) as Hun by congruence.
  destruct (bo_layout _ _ Hok Hun) as [Esz Hlo]. set (b1 := set_vb_state VIRTIO_BUS_STATE_ACTIVATING b) in *.
  assert (forall s2 ret, bus_at b1 O F s2 -> ret <> NO_ERROR -> wpp (put_state (vb_state b);; mret ret) (fun ret s' => exists b' O',
    bus_at b' O' F s' /\ bus_ok b' szs /\ bus_step (Z.of_nat (length szs)) (vb_state b) (Start (W := W) pa sz) ret (vb_state b')) s2) as Hback.
  { intros s2 ret H2 Hne. destruct (put_state_at b1 O F s2 (vb_state b) H2) as (s3 & E3 & H3). apply wpp_bind. eapply wpp_run; [exact E3|].
    apply wpp_ret. unfold b1 in H3. rewrite set_state_twice, set_state_id in H3 by done. exists b, O. split; [done|]. split; [done|]. right. by split. }
  apply wpp_bind. eapply wpp_run; [reflexivity|]. rewrite (proj1 Hat1). change (vb_descr_size b1) with (vb_descr_size b). rewrite Esz.
  change (vb_vdev_list b1) with (vb_vdev_list b). destruct (Z.eqb_spec sz (table_size szs)) as [->|]; cbn [negb]; [|by apply Hback].
  destruct (malloc_at b1 O F s1 Hat1) as (x & s2 & E2 & Hat2). apply wpp_bind. eapply wpp_run; [exact E2|].
  destruct x; cbn [negb]; [|by apply Hback].
  pose proof (bo_vdevs _ _ Hok) as Hvd. pose proof (vdev_ok_sizes _ _ Hvd) as Hszs. pose proof (table_size_pos szs Hszs) as Hpos.
  destruct (bo_fits _ _ Hok) as [HN HN']. apply wpp_bind. eapply map_descr_ok; [apply Hat2|done..| |].
  { intros [ret va] s3 Hne Ed HO3. cbn in Hne. destruct (Z.eqb_spec ret NO_ERROR); [done|]. cbn [negb].
    apply Hback; [|done]. split; [rewrite Ed; apply Hat2|done]. }
  intros va s3 Hva Ed Hr HO3. cbn [Z.eqb NO_ERROR negb]. set (R := ROUNDUP _ _) in *. set (F' := (va, R) :: F) in *.
  assert (bus_at b1 O F' s3) as Hat3 by (split; [rewrite Ed; apply Hat2|done]).
  apply wpp_bind, wpp_copy_in; [rewrite Z2Nat.id by lia; done|]. intros bs s4 H4 Hbs.
  apply wpp_bind. eapply wpp_mono; [apply (each_vdev_ok _ b1 F' _ szs); [done|exists O; by eapply bus_at_touched|]|].
  - intros i vd sz O' s5 Hi Hi' (o & Ho & HL) Hat5. destruct (vl_probe (Vdev_laws := HL)) as (f & Hf & Hp).
    destruct (laid_out_bounds _ _ _ _ _ _ _ Hszs Hlo Hi Hi') as [Hb1 Hb2].
    unfold probe_vdev. apply wpp_bind. eapply wpp_run; [by eapply vd_op_run|].
    apply wpp_bind. eapply wpp_mono; [apply (on_w_at _ b1 O' F' s5 (fun _ _ => True) Hat5)|by intros _ s' [H _]; apply wpp_ret].
    eapply wpp_mono; [apply (Hp _ _ O' F'); [apply Hat5|]|by intros _ v (O2 & H2); exists O2].
    rewrite length_drop, Hbs. unfold table_start, sizeof_resource_table in *. lia.
  - intros [] s5 (O' & Hat5). destruct (ROUNDUP_spec (table_size szs) 12) as [Hge _]; [unfold PAGE_SIZE in *; lia..|].
    change (2 ^ 12) with PAGE_SIZE in Hge. fold R in Hge. apply wpp_bind. eapply unmap_descr_ok; [apply Hat5|lia|].
    intros _ s6 Ed6 HO6. assert (bus_at b1 O' F s6) as Hat6 by (split; [rewrite Ed6; apply Hat5|done]).
    destruct (put_state_at b1 O' F s6 VIRTIO_BUS_STATE_ACTIVE Hat6) as (s7 & E7 & H7). apply wpp_bind. eapply wpp_run; [exact E7|].
    apply wpp_ret. eexists _, O'. split; [exact H7|]. split; [by apply (bus_ok_state b)|]. by left.
Qed.

Lemma reset_vdev_ok vd sz b O F s : vdev_ok vd sz -> bus_at b O F s -> wpp (reset_vdev vd) (fun _ s' => exists O', bus_at b O' F s') s.
Proof.
  intros (o & Ho & HL) Hat. destruct (vl_reset (Vdev_laws := HL)) as (f & Hf & Hp). unfold reset_vdev.
  apply wpp_bind. eapply wpp_run; [by eapply vd_op_run|].
  eapply wpp_mono; [apply (on_w_at _ b O F s (fun _ _ => True) Hat)|by intros _ s' [H _]].
  eapply wpp_mono; [apply (Hp _ O F), Hat|]. intros _ v (O2 & H2). by exists O2.
Qed.

Lemma stop_ok b szs O F s : bus_at b O F s -> bus_ok b szs ->
  wpp virtio_stop (fun ret s' => exists b' O', bus_at b' O' F s' /\ bus_ok b' szs /\
    bus_step (Z.of_nat (length szs)) (vb_state b) (Stop (W := W)) ret (vb_state b')) s.
Proof.
  intros Hat Hok. unfold virtio_stop.
  destruct (cmpxchg_at b O F s VIRTIO_BUS_STATE_ACTIVE VIRTIO_BUS_STATE_DEACTIVATING Hat) as (s1 & E1 & Hat1).
  apply wpp_bind. eapply wpp_run; [exact E1|]. case_bool_decide as Hact; cbn [negb].
  2:{ apply wpp_ret. exists b, O. split; [done|]. split; [done|]. by right. }
  set (b1 := set_vb_state _ b) in *. apply wpp_bind. eapply wpp_run; [reflexivity|]. rewrite (proj1 Hat1).
  apply wpp_bind. eapply wpp_mono; [apply (each_vdev_ok _ b1 F _ szs); [apply Hok|by exists O|]|].
  - intros i vd sz O' s2 _ _ Hvd Hat2. apply wpp_bind. eapply wpp_mono; [by eapply reset_vdev_ok|]. intros r s3 H3. by apply wpp_ret.
  - intros [] s2 (O' & Hat2). destruct (put_state_at b1 O' F s2 VIRTIO_BUS_STATE_IDLE Hat2) as (s3 & E3 & H3). apply wpp_bind.
    eapply wpp_run; [exact E3|]. apply wpp_ret. eexists _, O'. split; [exact H3|]. split; [apply (bus_ok_state b); [done|congruence]|]. by left.
Qed.

(** *** Finding a device *)

Lemma find_vdev_at b szs id : bus_ok b szs ->
  find_vdev id (vb_vdev_list b) = if bool_decide (0 <= id < Z.of_nat (length szs)) then vb_vdev_list b !! Z.to_nat id else None.
Proof.
  intros Hok. pose proof (bo_ids _ _ Hok) as Hid. pose proof (Forall2_length _ _ _ (bo_vdevs _ _ Hok)) as Hlen. rewrite <- Hlen in *. clear Hok Hlen.
  assert (forall (l : list (vdev W)) k, vd_devid <$> l = seqZ k (Z.of_nat (length l)) ->
    find_vdev id l = if bool_decide (k <= id < k + Z.of_nat (length l)) then l !! Z.to_nat (id - k) else None) as H.
  { clear. unfold find_vdev. induction l as [|vd l IH]; intros k E.
    - rewrite bool_decide_false; [done|cbn; lia].
    - cbn [length] in *. rewrite Nat2Z.inj_succ, seqZ_cons, fmap_cons, Z.pred_succ in E by lia. injection E as Ek El. rewrite filter_cons. destruct (decide (vd_devid vd = id)) as [Ei|Ne].
      + rewrite bool_decide_true by lia. replace (id - k) with 0 by lia. done.
      + rewrite (IH (Z.succ k) El). repeat case_bool_decide; try done; try lia.
        replace (Z.to_nat (id - k)) with (S (Z.to_nat (id - Z.succ k))) by lia. done. }
  rewrite (H _ 0 Hid). rewrite Z.sub_0_r. done.
Qed.

Lemma find_vdev_ok b szs id vd : bus_ok b szs -> find_vdev id (vb_vdev_list b) = Some vd -> exists sz, vdev_ok vd sz.
Proof.
  intros Hok. rewrite (find_vdev_at b szs id Hok). case_bool_decide; [|done]. intros Hv.
  destruct (Forall2_lookup_l _ _ _ _ _ (bo_vdevs _ _ Hok) Hv) as (sz & _ & H'). by exists sz.
Qed.

Lemma find_vdev_lt b szs id vd : bus_ok b szs -> find_vdev id (vb_vdev_list b) = Some vd -> id < Z.of_nat (length szs).
Proof. intros Hok. rewrite (find_vdev_at b szs id Hok). case_bool_decide; [lia|done]. Qed.

Lemma device_reset_ok b szs O F s id : bus_at b O F s -> bus_ok b szs ->
  wpp (virtio_device_reset id) (fun ret s' => exists O', bus_at b O' F s' /\ bus_step (Z.of_nat (length szs)) (vb_state b) (DeviceReset (W := W) id) ret (vb_state b)) s.
Proof.
  intros Hat Hok. unfold virtio_device_reset. apply wpp_bind. eapply wpp_run; [reflexivity|]. rewrite (proj1 Hat).
  case_bool_decide as Hact; cbn [negb]; [|apply wpp_ret; by exists O].
  destruct (find_vdev id (vb_vdev_list b)) as [vd|] eqn:Ef; [|apply wpp_ret; by exists O].
  pose proof (find_vdev_lt b szs id vd Hok Ef) as Hlt.
  destruct (find_vdev_ok b szs id vd Hok Ef) as [sz Hvd]. eapply wpp_mono; [by eapply reset_vdev_ok|]. intros ret s' (O' & H). exists O'.
  split; [done|]. split; [done|]. split; [done|]. intros _ H'. lia.
Qed.

Lemma kick_vq_ok b szs O F s id vq : bus_at b O F s -> bus_ok b szs ->
  wpp (virtio_kick_vq id vq) (fun ret s' => exists O', bus_at b O' F s' /\ bus_step (Z.of_nat (length szs)) (vb_state b) (KickVq (W := W) id vq) ret (vb_state b)) s.
Proof.
  intros Hat Hok. unfold virtio_kick_vq. apply wpp_bind. eapply wpp_run; [reflexivity|]. rewrite (proj1 Hat).
  case_bool_decide as Hact; cbn [negb]; [|apply wpp_ret; by exists O].
  destruct (find_vdev id (vb_vdev_list b)) as [vd|] eqn:Ef; [|apply wpp_ret; by exists O].
  pose proof (find_vdev_lt b szs id vd Hok Ef) as Hlt.
  destruct (find_vdev_ok b szs id vd Hok Ef) as [sz (o & Ho & HL)]. destruct (vl_kick (Vdev_laws := HL)) as (f & Hf & Hp).
  apply wpp_bind. eapply wpp_run; [by eapply vd_op_run|].
  eapply wpp_mono; [apply (on_w_at _ b O F s (fun _ _ => True) Hat)|].
  - eapply wpp_mono; [apply (Hp _ _ O F), Hat|]. intros _ v (O2 & H2). by exists O2.
  - intros ret s' [(O' & H) _]. exists O'. split; [done|]. split; [done|]. split; [done|]. intros _ H'. lia.
Qed.

Lemma register_ok b szs O F s vd :
  bus_at b O F s -> bus_ok b szs -> (validate_vdev vd = NO_ERROR -> exists vd' sz, vd = Some vd' /\ vdev_ok vd' sz /\ table_size (szs ++ [sz]) + PAGE_SIZE <= N) ->
  wpp (virtio_register_device vd) (fun ret s' => exists b' szs', bus_at b' O F s' /\ bus_ok b' szs' /\
    bus_step (Z.of_nat (length szs)) (vb_state b) (Register vd) ret (vb_state b')) s.
Proof.
  intros Hat Hok Hvd. unfold virtio_register_device. apply wpp_bind. eapply wpp_run; [reflexivity|]. rewrite (proj1 Hat).
  unfold bus_step. case_bool_decide as Hst; [|apply wpp_ret; by exists b, szs].
  destruct (Z.eqb_spec (validate_vdev vd) NO_ERROR) as [E|]; [|apply wpp_ret; by exists b, szs].
  destruct (Hvd E) as (vd' & sz & -> & Hv & Hfit). apply wpp_bind. eapply wpp_run; [reflexivity|]. apply wpp_bind.
  match goal with |- wpp (set_bus ?b2) _ _ => destruct (set_bus_at b b2 O F s Hat) as (s' & E' & Hat' & _) end.
  eapply wpp_run; [exact E'|]. apply wpp_ret. eexists _, (szs ++ [sz]). split; [exact Hat'|]. split; [|by split]. destruct Hok as [H1 H2 H3 H4 [H5 H5'] H6].
  assert (Z.of_nat (length szs) + 1 < 2 ^ 32) as Hlen.
  { pose proof (sizes_sum _ (vdev_ok_sizes _ _ H1)). assert (0 <= sz) by (by destruct Hv as (o & _ & []); lia).
    unfold table_size, table_start, sizeof_resource_table, PAGE_SIZE in *. lia. }
  split; cbn.
  - apply Forall2_app; [done|]. constructor; [exact Hv|constructor].
  - rewrite H2, length_app. unfold u32. rewrite Z.mod_small by lia. cbn. lia.
  - rewrite H3, length_app. unfold u32. rewrite Z.mod_small by lia. cbn. lia.
  - rewrite fmap_app, H4, H3, length_app, Nat2Z.inj_add, seqZ_app by lia. done.
  - done.
  - by rewrite Hst.
Qed.

(** ** Every sequence of calls *)

(** The registry takes devices that keep their promises and fit the table. *)
Definition call_ok (c : bus_call W) (s : bstate W) : Prop :=
  match c with
  | Register vd => forall szs, Forall2 vdev_ok (vb_vdev_list (bs_bus (v_dev s))) szs -> validate_vdev vd = NO_ERROR ->
      exists vd' sz, vd = Some vd' /\ vdev_ok vd' sz /\ table_size (szs ++ [sz]) + PAGE_SIZE <= N
  | _ => True
  end.

(** The machine when a call arrives: what the allocator will answer and the other
    side will do during the call. *)
Definition arrive (answers : list (option Z)) (env : list (list (Z * Z))) (s : bstate W) : bstate W :=
  VState (v_dev s) (v_regions s) (v_shm s) env answers.

(** [F]: mappings of the kernel that are not the devices'.  Between two calls the
    devices' threads run. *)
Inductive bus_reachable (F : list (Z * Z)) : bstate W -> Prop :=
  | br_boot s O : bs_bus (v_dev s) = _virtio_bus -> dev_ok O F (w_state s) -> sizeof_resource_table + PAGE_SIZE <= N <= 2 ^ 32 -> bus_reachable F s
  | br_devices s s' O : bus_reachable F s -> bs_bus (v_dev s') = bs_bus (v_dev s) -> dev_ok O F (w_state s') -> bus_reachable F s'
  | br_call s c answers env ret s' : bus_reachable F s -> call_ok c s -> vmm_spaced N (v_regions s) answers ->
      do_bus_call c (arrive answers env s) = Ret ret s' -> bus_reachable F s'.

Lemma do_bus_call_ok b szs O F s c : bus_at b O F s -> bus_ok b szs -> call_ok c s ->
  wpp (do_bus_call c) (fun ret s' => exists b' szs' O', bus_at b' O' F s' /\ bus_ok b' szs' /\ bus_step (Z.of_nat (length szs)) (vb_state b) c ret (vb_state b')) s.
Proof.
  intros Hat Hok Hc. destruct c as [vd|pa sz|pa sz| |id|id vq].
  - eapply wpp_mono; [apply (register_ok b szs O F s vd Hat Hok); apply Hc; rewrite (proj1 Hat); apply Hok|].
    intros ret s' (b' & szs' & H). by exists b', szs', O.
  - eapply wpp_mono; [by apply (get_description_ok b szs O F)|]. intros ret s' (b' & H). by exists b', szs, O.
  - eapply wpp_mono; [by apply (start_ok b szs O F)|]. intros ret s' (b' & O' & H). by exists b', szs, O'.
  - eapply wpp_mono; [by apply (stop_ok b szs O F)|]. intros ret s' (b' & O' & H). by exists b', szs, O'.
  - eapply wpp_mono; [by apply (device_reset_ok b szs O F)|]. intros ret s' (O' & H1 & H2). by exists b, szs, O'.
  - eapply wpp_mono; [by apply (kick_vq_ok b szs O F)|]. intros ret s' (O' & H1 & H2). by exists b, szs, O'.
Qed.

Lemma bus_step_stable cnt st (c : bus_call W) ret st' : bus_step cnt st c ret st' -> bus_stable st -> bus_stable st'.
Proof.
  unfold bus_step, bus_stable. destruct c; try (intros [-> _]; done).
  - intros ->. case_bool_decide; auto.
  - intros [(_ & _ & ->)|(_ & -> & _)]; auto.
  - intros [(_ & _ & ->)|(_ & _ & ->)]; auto.
Qed.

Lemma arrive_at b O F s answers env : bus_at b O F s -> vmm_spaced N (v_regions s) answers -> bus_at b O F (arrive answers env s).
Proof. intros [Hb [H1 H2 H3 H4 H5]] Hv. split; [done|]. by split. Qed.

Lemma bus_reachable_inv F s : bus_reachable F s ->
  exists b szs O, bus_at b O F s /\ bus_ok b szs /\ bus_stable (vb_state b).
Proof.
  induction 1 as [s O Hb HO HN|s s' O _ (b & szs & O0 & [Hb _] & Hok & Hst) Eb HO|s c ans env ret s' _ (b & szs & O & Hat & Hok & Hst) Hc Hv E].
  - exists _virtio_bus, [], O. split; [done|]. split; [|by left]. by split.
  - exists b, szs, O. split; [|done]. split; [congruence|done].
  - pose proof (do_bus_call_ok b szs O F (arrive ans env s) c (arrive_at _ _ _ _ ans env Hat Hv) Hok) as Hw. specialize (Hw ltac:(by destruct c)).
    unfold wpp in Hw. rewrite E in Hw. destruct Hw as (b' & szs' & O' & H1 & H2 & H3). exists b', szs', O'. split; [done|]. split; [done|].
    by eapply bus_step_stable.
Qed.
End laws.


(** ** The resource table *)

(** A device whose description is the bytes [D id]. *)
Class Vdev_descr {W} (o : vdev_ops W) (sz : Z) (D : Z -> list Z) : Prop := {
  ds_len : forall id, Z.of_nat (length (D id)) = sz;
  ds_sz : exists f, descr_sz o = Some f /\ forall w, f w = sz;
  ds_get : exists f, get_descr o = Some f /\ forall id a s, v_env s = [] -> in_regions (v_regions s) a sz = true ->
    exists r, f id a s = Ret r (v_set_shm (shm_store (v_shm s) a (D id)) s);
}.

Section table.
Context {W : Type}.

Definition described (vd : vdev W) (d : Z * (Z -> list Z)) : Prop := exists o, vd_ops vd = Some o /\ Vdev_descr o d.1 d.2.

Lemma described_sized vd d : described vd d -> sized vd d.1.
Proof.
  intros (o & Ho & HD). split; [rewrite <- (ds_len (Vdev_descr := HD) 0); lia|]. destruct (ds_sz (Vdev_descr := HD)) as (f & Hf & E). by exists o, f.
Qed.

Lemma described_all l ds : Forall2 described l ds -> Forall2 sized l ds.*1.
Proof. induction 1; cbn; constructor; [by apply described_sized|done]. Qed.

(** Entry [idx] of the table at [va] and the descriptor it points to. *)
Definition table_entry (m : mem) (va idx : Z) (vd : vdev W) (d : Z * (Z -> list Z)) : Prop :=
  le_val (shm_bytes m (va + sizeof_resource_table + 4 * idx) 4) = vd_descr_offset vd /\
  shm_bytes m (va + vd_descr_offset vd) (Z.to_nat d.1) = d.2 (vd_devid vd).

Lemma memset_idle a c n (s : bstate W) : v_env s = [] -> in_regions (v_regions s) a (Z.of_nat n) = true ->
  exists m, shm_memset a c n s = Ret tt (v_set_shm m s).
Proof.
  intros He Hr. unfold shm_memset. assert (forall i, i ∈ seqZ 0 (Z.of_nat n) -> 0 <= i < Z.of_nat n) as Hi by (intros i ?%elem_of_seqZ; lia).
  revert Hi. generalize (seqZ 0 (Z.of_nat n)). intros l. revert s He Hr. induction l as [|i l IH]; intros s He Hr Hi; cbn [mfor].
  - exists (v_shm s). by destruct s.
  - pose proof (Hi i ltac:(by left)). erewrite run_bind by (apply shm_write_idle; [done|eapply in_regions_sub; [exact Hr|lia..]]).
    apply (IH (v_set_shm _ s)); [done|done|]. intros j Hj. apply Hi. by right.
Qed.

Lemma descr_loop_idle l ds va size cnt idx off (s : bstate W) :
  Forall2 described l ds -> laid_out off l ds.*1 size -> v_env s = [] -> 0 <= idx -> idx + Z.of_nat (length l) = cnt ->
  sizeof_resource_table + 4 * cnt <= off -> size < 2 ^ 32 -> in_regions (v_regions s) va size = true ->
  exists m, descr_loop va size cnt idx l s = Ret tt (v_set_shm m s) /\
    (forall i vd d, l !! i = Some vd -> ds !! i = Some d -> table_entry m va (idx + Z.of_nat i) vd d) /\
    forall x n, x + Z.of_nat n <= va + sizeof_resource_table + 4 * idx \/
      (va + sizeof_resource_table + 4 * cnt <= x /\ x + Z.of_nat n <= va + off) -> shm_bytes m x n = shm_bytes (v_shm s) x n.
Proof.
  intros Hl. revert idx off s. induction Hl as [|vd d l ds Hd Hl IH]; intros idx off s Hlo He H0 Hc Hh Hsz Hr; cbn [descr_loop].
  { exists (v_shm s). split; [by destruct s|]. done. }
  pose proof (sized_sizes _ _ (described_all _ _ (@Forall2_cons_2 _ _ described _ _ _ _ Hd Hl))) as Hs. cbn in Hs.
  destruct (laid_out_bounds off (vd :: l) (d.1 :: ds.*1) size 0 vd d.1 Hs Hlo eq_refl eq_refl) as [Hb1 Hb2]. destruct Hlo as [Eoff Hlo].
  pose proof (described_sized _ _ Hd) as [Hd0 _]. cbn [length] in Hc.
  unfold assert_. destruct (Z.leb_spec (vd_descr_offset vd) size); [|lia]. erewrite run_bind by reflexivity.
  rewrite (run_bind _ _ _ _ _ (descr_sz_of_run vd d.1 s (described_sized _ _ Hd))).
  assert (u32 (vd_descr_offset vd + d.1) = vd_descr_offset vd + d.1) as -> by (unfold u32, sizeof_resource_table in *; apply Z.mod_small; lia).
  destruct (Z.leb_spec (vd_descr_offset vd + d.1) size); [|lia]. erewrite run_bind by reflexivity.
  destruct (Z.ltb_spec idx cnt); [|lia]. erewrite run_bind by reflexivity.
  erewrite run_bind by (apply shm_write_idle; [done|eapply in_regions_sub; [exact Hr|unfold sizeof_resource_table in *; lia..]]).
  destruct Hd as (o & Ho & HD). destruct (ds_get (Vdev_descr := HD)) as (f & Hf & Hget).
  rewrite (run_bind _ _ _ _ _ (vd_op_run _ _ _ _ _ Ho Hf)). set (m1 := shm_store _ _ _). set (s1 := v_set_shm m1 s).
  destruct (Hget (vd_devid vd) (va + vd_descr_offset vd) (w_state s1)) as (r & Er); [done|eapply in_regions_sub; [exact Hr|unfold sizeof_resource_table in *; lia..]|].
  assert (on_w (f (vd_devid vd) (va + vd_descr_offset vd)) s1 = Ret r (v_set_shm (shm_store m1 (va + vd_descr_offset vd) (d.2 (vd_devid vd))) s)) as E1.
  { unfold on_w. rewrite Er. unfold w_back. cbn. by destruct s as [[] ? ? ? ?]. }
  rewrite (run_bind _ _ _ _ _ E1). set (m2 := shm_store m1 _ _). destruct (IH (idx + 1) (off + d.1) (v_set_shm m2 s)) as (m & E & Hent & Hoth); try done; try lia.
  assert (length (d.2 (vd_devid vd)) = Z.to_nat d.1) as Hlen by (pose proof (ds_len (Vdev_descr := HD) (vd_devid vd)); lia).
  exists m. split; [exact E|]. unfold sizeof_resource_table in *. split.
  - intros [|i] vd' d' Hv Hd'; cbn in Hv, Hd'.
    + injection Hv as <-. injection Hd' as <-. rewrite Z.add_0_r. split; rewrite Hoth by (unfold sizeof_resource_table; lia); cbn [v_shm v_set_shm]; unfold m2.
      * rewrite shm_store_other by (unfold sizeof_resource_table; lia). unfold m1. rewrite le_val_store. apply Z.mod_small. unfold sizeof_resource_table in *. lia.
      * rewrite <- Hlen. apply shm_store_bytes.
    + replace (idx + Z.of_nat (S i)) with (idx + 1 + Z.of_nat i) by lia. by apply Hent.
  - intros x n Hx. rewrite Hoth by lia. cbn [v_shm v_set_shm]. unfold m2. rewrite shm_store_other by lia. unfold m1. apply shm_store_other. rewrite le_bytes_length. unfold sizeof_resource_table in *. lia.
Qed.

Lemma map_descr_run pa sz base answers (s : bstate W) :
  0 < pa < 2 ^ 32 -> pa mod PAGE_SIZE = 0 -> 0 < sz -> sz + PAGE_SIZE <= 2 ^ 32 -> v_vmm s = Some base :: answers ->
  map_descr pa 0 sz s = Ret (NO_ERROR, base) (v_set_vmm answers (v_set_regions ((base, ROUNDUP sz PAGE_SIZE) :: v_regions s) s)).
Proof.
  intros Hpa Ha Hsz HN Hv. unfold map_descr. destruct (Z.eqb_spec pa 0); [lia|].
  change (PAGE_SIZE - 1) with (Z.ones 12). rewrite Z.land_ones by lia. change (2 ^ 12) with PAGE_SIZE. rewrite Ha.
  rewrite Z.shiftr_div_pow2, Z.div_small by lia. cbn [Z.eqb negb]. destruct (ROUNDUP_spec sz 12) as [Hge Hmod]; [unfold PAGE_SIZE in *; lia..|].
  change (2 ^ 12) with PAGE_SIZE in *. apply vmm_alloc_some; [|done|lia|done]. unfold u32. by rewrite (Z.mod_small pa) by lia.
Qed.

(** The bus after start-up: the devices [ds] registered, the registry still open. *)
Record registered (b : trusty_virtio_bus W) (ds : list (Z * (Z -> list Z))) : Prop := {
  rg_state : vb_state b = VIRTIO_BUS_STATE_UNINITIALIZED;
  rg_vdevs : Forall2 described (vb_vdev_list b) ds;
  rg_cnt : vb_vdev_cnt b = Z.of_nat (length ds);
  rg_ids : vd_devid <$> vb_vdev_list b = seqZ 0 (Z.of_nat (length ds));
}.

Lemma finalize_run b ds (s : bstate W) : bs_bus (v_dev s) = b -> registered b ds -> table_size ds.*1 < 2 ^ 32 ->
  exists l, finalize_vdev_registery s =
      Ret tt (v_set_dev (BSys (Bus (vb_vdev_cnt b) (vb_next_dev_id b) (table_size ds.*1) VIRTIO_BUS_STATE_IDLE l) (bs_malloc (v_dev s)) (bs_w (v_dev s))) s) /\
    laid_out (table_start ds.*1) l ds.*1 (table_size ds.*1) /\ Forall2 described l ds /\ vd_devid <$> l = seqZ 0 (Z.of_nat (length ds)).
Proof.
  intros Hb [H1 H2 H3 H4] Hfit. unfold finalize_vdev_registery. erewrite run_bind by reflexivity. rewrite Hb, H1, bool_decide_true by done.
  pose proof (described_all _ _ H2) as Hsz. pose proof (sizes_sum _ (sized_sizes _ _ Hsz)) as Hsum.
  assert (u32 (sizeof_resource_table + 4 * vb_vdev_cnt b) = table_start ds.*1) as ->.
  { rewrite H3. unfold table_size, table_start, sizeof_resource_table, u32 in *. rewrite length_fmap in *. apply Z.mod_small. lia. }
  destruct (layout_loop_run (vb_vdev_list b) ds.*1 (table_start ds.*1) s Hsz) as (l & E & Hlo & Hop & Hid);
    [unfold table_start, sizeof_resource_table; lia|done|].
  rewrite (run_bind _ _ _ _ _ E). exists l. split; [done|]. split; [done|]. split; [|by rewrite Hid].
  clear -H2 Hop. revert l Hop. induction H2 as [|vd d l0 ds (o & Ho & HD) _ IH]; intros [|vd' l] [=]; constructor; [exists o; by split; [congruence|]|by apply IH].
Qed.

(** A bus of [n] devices answers with a table that says where their descriptors
    are. *)
Lemma get_description_run b ds (s : bstate W) pa sz base answers :
  let size := table_size ds.*1 in
  bs_bus (v_dev s) = b -> registered b ds -> size + PAGE_SIZE <= 2 ^ 32 -> v_env s = [] -> v_vmm s = Some base :: answers ->
  regions_disj ((base, ROUNDUP size PAGE_SIZE) :: v_regions s) -> 0 < pa < 2 ^ 32 -> pa mod PAGE_SIZE = 0 -> size <= sz ->
  exists s' l, virtio_get_description pa sz s = Ret size s' /\ v_regions s' = v_regions s /\
    vb_state (bs_bus (v_dev s')) = VIRTIO_BUS_STATE_IDLE /\ vb_descr_size (bs_bus (v_dev s')) = size /\ vb_vdev_list (bs_bus (v_dev s')) = l /\
    laid_out (table_start ds.*1) l ds.*1 size /\ vd_devid <$> l = seqZ 0 (Z.of_nat (length ds)) /\
    le_val (shm_bytes (v_shm s') base 4) = VIRTIO_FW_RSC_VER /\ le_val (shm_bytes (v_shm s') (base + 4) 4) = Z.of_nat (length ds) /\
    forall i vd d, l !! i = Some vd -> ds !! i = Some d -> table_entry (v_shm s') base (Z.of_nat i) vd d.
Proof.
  intros size Hb Hreg HN He Hv Hd Hpa Ha Hsz. destruct (finalize_run b ds s Hb Hreg) as (l & E & Hlo & Hds & Hid); [unfold PAGE_SIZE in *; fold size; lia|].
  pose proof (sized_sizes _ _ (described_all _ _ Hds)) as Hszs. pose proof (sizes_sum _ Hszs) as Hsum. pose proof (Forall2_length _ _ _ Hds) as Hlen.
  assert (table_start ds.*1 = 16 + 4 * Z.of_nat (length ds)) as Ets by (unfold table_start, sizeof_resource_table; by rewrite length_fmap).
  assert (16 + 4 * Z.of_nat (length ds) <= size) as Hge by (unfold size, table_size; lia).
  destruct (ROUNDUP_spec size 12) as [Hru _]; [unfold PAGE_SIZE in *; lia..|]. change (2 ^ 12) with PAGE_SIZE in Hru.
  unfold virtio_get_description. rewrite (run_bind _ _ _ _ _ E). erewrite run_bind by reflexivity. cbn [bs_bus v_dev v_set_dev vb_descr_size].
  fold size. destruct (Z.ltb_spec sz size); [lia|]. rewrite (rg_cnt _ _ Hreg).
  erewrite run_bind by (apply map_descr_run; [done|done|lia|done|exact Hv]). cbn [Z.eqb NO_ERROR negb]. set (R := ROUNDUP size PAGE_SIZE) in *.
  set (b1 := BSys _ _ _). set (s1 := v_set_vmm _ _). assert (in_regions (v_regions s1) base size = true) as Hr.
  { cbn. rewrite Z.leb_refl. by destruct (Z.leb_spec (base + size) (base + R)); [|lia]. }
  destruct (memset_idle base 0 (Z.to_nat size) s1) as (m0 & E0); [done|rewrite Z2Nat.id by lia; done|].
  rewrite (run_bind _ _ _ _ _ E0). erewrite run_bind by (apply shm_write_idle; [done|eapply in_regions_sub; [exact Hr|lia..]]).
  erewrite run_bind by (apply shm_write_idle; [done|eapply in_regions_sub; [exact Hr|lia..]]).
  change (v_shm (v_set_shm m0 s1)) with m0. set (m1 := shm_store m0 _ _). change (v_shm (v_set_shm m1 (v_set_shm m0 s1))) with m1. set (m2 := shm_store m1 _ _).
  change (v_set_shm m2 _) with (v_set_shm m2 s1). unfold b1. cbn [vb_vdev_cnt vb_vdev_list]. fold b1.
  destruct (descr_loop_idle l ds base size (Z.of_nat (length ds)) 0 (table_start ds.*1) (v_set_shm m2 s1)) as (m & Ed & Hent & Hoth);
    try done; [by rewrite Hlen|rewrite Ets; done|unfold PAGE_SIZE in *; lia|].
  rewrite (run_bind _ _ _ _ _ Ed). change (v_set_shm m (v_set_shm m2 s1)) with (v_set_shm m s1).
  assert (unmap_descr base (v_set_shm m s1) = Ret NO_ERROR (v_set_regions (v_regions s) (v_set_shm m s1))) as Eu.
  { apply (vmm_free_middle base (v_set_shm m s1) [] (base, R) (v_regions s)); [done|done|cbn; lia]. }
  rewrite (run_bind _ _ _ _ _ Eu). eexists _, l. split; [done|]. do 6 (split; [done|]). cbn [v_shm v_set_regions v_set_shm]. split; [|split].
  - rewrite Hoth by (unfold sizeof_resource_table; lia). unfold m2. cbn [v_shm v_set_shm]. rewrite shm_store_other by lia. unfold m1. by rewrite le_val_store.
  - rewrite Hoth by (unfold sizeof_resource_table; lia). unfold m2. cbn [v_shm v_set_shm]. rewrite le_val_store. apply Z.mod_small. unfold PAGE_SIZE in *. lia.
  - intros i vd d Hi Hi'. apply (Hent i vd d Hi Hi').
Qed.
End table.

(** What the non-secure side is told.  On a bus with [n] registered devices,
    the first request for the description answers with the size of a table that
    starts with the version and the number of devices; entry [i] is the offset of
    the descriptor of device [i], which holds what the device wrote; descriptors
    lie one behind the other after the entries, up to the size returned; and the
    buffer is no longer mapped. *)
Theorem virtio_description_table {W} b ds (s : bstate W) pa sz base answers :
  let size := table_size ds.*1 in
  bs_bus (v_dev s) = b -> registered b ds -> size + PAGE_SIZE <= 2 ^ 32 -> v_env s = [] -> v_vmm s = Some base :: answers ->
  regions_disj ((base, ROUNDUP size PAGE_SIZE) :: v_regions s) -> 0 < pa < 2 ^ 32 -> pa mod PAGE_SIZE = 0 -> size <= sz ->
  exists s' l, virtio_get_description pa sz s = Ret size s' /\ v_regions s' = v_regions s /\
    vb_state (bs_bus (v_dev s')) = VIRTIO_BUS_STATE_IDLE /\ vb_descr_size (bs_bus (v_dev s')) = size /\ vb_vdev_list (bs_bus (v_dev s')) = l /\
    laid_out (table_start ds.*1) l ds.*1 size /\ vd_devid <$> l = seqZ 0 (Z.of_nat (length ds)) /\
    le_val (shm_bytes (v_shm s') base 4) = VIRTIO_FW_RSC_VER /\ le_val (shm_bytes (v_shm s') (base + 4) 4) = Z.of_nat (length ds) /\
    forall i vd d, l !! i = Some vd -> ds !! i = Some d -> table_entry (v_shm s') base (Z.of_nat i) vd d.
Proof. apply get_description_run. Qed.

(** ** A bus with one device

    Its descriptor is its id in eight bytes; it keeps no state. *)
Definition demo_vdev_ops : vdev_ops unit :=
  VdevOps (Some (fun _ => 8)) (Some (fun id a => shm_write 8 a id;; mret 8)) (Some (fun _ _ => mret NO_ERROR))
          (Some (fun _ => mret NO_ERROR)) (Some (fun _ vq => mret vq)).
Definition demo_vdev : vdev unit := Vdev 0 0 (Some demo_vdev_ops).
Definition demo_N : Z := 2 ^ 20.
Definition demo_Iw (w : unit) (O : list (Z * Z)) : Prop := O = [].

#[export] Instance demo_laws : Vdev_laws demo_N demo_Iw demo_vdev_ops 8.
Proof.
  split; [lia|by eexists| | | |]; (eexists; split; [done|]).
  - intros id a O F s HO Hr. apply wpp_bind, wpp_write; [done|]. intros s' [(E1 & E2 & E3) Ev]. apply wpp_ret. split; [|done].
    destruct HO as [H1 H2 H3 H4 H5]. split; rewrite ?E1, ?E2, ?Ev; auto.
  - intros id bs O F s HO _. apply wpp_ret. by exists O.
  - intros id O F s HO. apply wpp_ret. by exists O.
  - intros id vq O F s HO. apply wpp_ret. by exists O.
Qed.

#[export] Instance demo_descr : Vdev_descr demo_vdev_ops 8 (fun id => le_bytes 8 id).
Proof.
  split; [intros id; by rewrite le_bytes_length|by eexists|]. eexists. split; [done|]. intros id a s He Hr. exists 8.
  by erewrite run_bind by (by apply shm_write_idle).
Qed.

Definition demo_bus_boot : bstate unit := VState (BSys _virtio_bus [] tt) [(4096, 4096)] ∅ [] [].
Definition demo_step (c : bus_call unit) (answers : list (option Z)) (s : bstate unit) : bstate unit :=
  match do_bus_call c (arrive answers [] s) with Ret _ s' => s' | Fault _ => s end.
Definition demo_registered : bstate unit := demo_step (Register (Some demo_vdev)) [] demo_bus_boot.

Lemma demo_step_reachable F c answers s : bus_reachable demo_N demo_Iw F s -> call_ok demo_N demo_Iw c s -> vmm_spaced demo_N (v_regions s) answers ->
  bus_reachable demo_N demo_Iw F (demo_step c answers s).
Proof. intros H Hc Hv. unfold demo_step. destruct (do_bus_call _ _) as [r s'|] eqn:E; [by eapply br_call|done]. Qed.

Lemma demo_spaced : vmm_spaced demo_N [(4096, 4096)] [Some 2097152].
Proof. split_and!; [lia|done| |done]. apply Forall_singleton. right. done. Qed.

Lemma demo_registered_reachable : bus_reachable demo_N demo_Iw [(4096, 4096)] demo_registered.
Proof.
  apply demo_step_reachable; [|intros szs Hs _|done].
  - apply (br_boot _ _ _ _ []); [done| |split; by vm_compute]. by split.
  - apply Forall2_nil_inv_l in Hs as ->. exists demo_vdev, 8. split; [done|]. split; [by exists demo_vdev_ops; split; [|apply _]|by vm_compute].
Qed.


Lemma virtio_description_table_witness :
  let s := arrive [Some 65536] [] demo_registered in
  exists s' l, virtio_get_description 8192 4096 s = Ret 28 s' /\ v_regions s' = [(4096, 4096)] /\
    vb_state (bs_bus (v_dev s')) = VIRTIO_BUS_STATE_IDLE /\ vb_descr_size (bs_bus (v_dev s')) = 28 /\ vb_vdev_list (bs_bus (v_dev s')) = l /\
    laid_out 20 l [8] 28 /\ vd_devid <$> l = seqZ 0 1 /\
    le_val (shm_bytes (v_shm s') 65536 4) = VIRTIO_FW_RSC_VER /\ le_val (shm_bytes (v_shm s') (65536 + 4) 4) = 1 /\
    forall i vd d, l !! i = Some vd -> [(8, le_bytes 8)] !! i = Some d -> table_entry (v_shm s') 65536 (Z.of_nat i) vd d.
Proof.
  refine (virtio_description_table _ [(8, le_bytes 8)] (arrive [Some 65536] [] demo_registered) 8192 4096 65536 [] eq_refl _ _ eq_refl eq_refl _ _ _ _).
  - split; try done. apply Forall2_cons_2; [|by apply Forall2_nil_2]. exists demo_vdev_ops. split; [done|]. apply demo_descr.
  - by vm_compute.
  - split; [|by split]. apply Forall_singleton. right. by vm_compute.
  - lia.
  - done.
  - by vm_compute.
Defined.
