(* ===== verification/VirtioTipc.v ===== *)
(** * The TIPC device on the virtio bus, and the calls of the trusted OS

    The rest of tipc_dev.c: the device's description and its [vdev_ops], its
    creation and registration; tipc_config.c; and smcall.c, which turns the
    standard calls of the trusted OS into calls of the bus. *)

From stdpp Require Import base tactics list gmap.
From Stdlib Require Import ZArith Lia.
From S2P Require Import Prelude Bitmap Kernel Handle Shm Vqueue Sm Tipc Virtio.

(** ** The description *)

Definition TIPC_MAX_DEV_NAME_LEN : nat := 32.
Definition sizeof_tipc_dev_config : Z := 40.
Definition sizeof_tipc_vdev_descr : Z := 108.

Definition vring_bytes (da align num notifyid : Z) : list Z :=
  le_bytes 4 da ++ le_bytes 4 align ++ le_bytes 4 num ++ le_bytes 4 notifyid ++ le_bytes 4 0.

(** [DECLARE_TIPC_DEVICE_DESCR] *)
Definition tipc_device_descr (nid txvq_sz rxvq_sz : Z) (nd_name : list Z) : list Z :=
  le_bytes 4 RSC_VDEV ++
  (le_bytes 4 VIRTIO_ID_TIPC ++ le_bytes 4 nid ++ le_bytes 4 0 ++ le_bytes 4 0 ++ le_bytes 4 sizeof_tipc_dev_config ++
   [0] ++ [TIPC_VQ_NUM] ++ [0; 0]) ++
  (vring_bytes 0 PAGE_SIZE txvq_sz 1 ++ vring_bytes 0 PAGE_SIZE rxvq_sz 2) ++
  (le_bytes 4 PAGE_SIZE ++ le_bytes 4 PAGE_SIZE ++
   take TIPC_MAX_DEV_NAME_LEN (nd_name ++ replicate TIPC_MAX_DEV_NAME_LEN 0)).

(** [_descr0]: dev0, 32 buffers each way. *)
Definition _descr0 : list Z := tipc_device_descr 0 32 32 [100; 101; 118; 48].

(** The fields of a descriptor in memory. *)
Definition field (off n : nat) (bs : list Z) : Z := le_val (take n (drop off bs)).

Definition fw_vring_at (off : nat) (bs : list Z) : fw_rsc_vdev_vring :=
  FwVring (field off 4 bs) (field (off + 4) 4 bs) (field (off + 8) 4 bs) (field (off + 12) 4 bs).

Definition decode_descr (bs : list Z) : tipc_vdev_descr :=
  Descr (field 0 4 bs) (field 4 4 bs) (field 25 1 bs) (field 24 1 bs) (fw_vring_at 28 bs) (fw_vring_at 48 bs).

(** ** The device's operations *)

Section tipc_ops.
Variable await : T unit.
Variable join : vq_sel -> T Z.
(** Bounds on loops, and the answers of [thread_create]. *)
Variable fuel : nat.
Variable thread_rx : bool.
Variable thread_tx : bool.

(** [dev->descr_ptr] and [dev->descr_size]: the bytes of the template. *)
Variable descr : list Z.

Definition tipc_descr_size (s : tsys) : Z := Z.of_nat (length descr).

(** [memcpy] to shared memory *)
Fixpoint shm_copy_out (a : Z) (bs : list Z) : T unit :=
  match bs with
  | [] => mret tt
  | b :: bs' => shm_write 1 a b;; shm_copy_out (a + 1) bs'
  end.

Definition tipc_get_vdev_descr (devid a : Z) : T Z :=
  shm_copy_out a descr;;
  shm_write 4 (a + 8) devid;;
  mret (Z.of_nat (length descr)).

Definition tipc_vdev_probe (devid : Z) (bs : list Z) : T Z := tipc_dev_probe await fuel thread_rx thread_tx (decode_descr bs).

Definition tipc_vdev_reset (devid : Z) : T Z := tipc_dev_reset join.

Definition _tipc_dev_ops : vdev_ops tsys :=
  VdevOps (Some tipc_descr_size) (Some tipc_get_vdev_descr) (Some tipc_vdev_probe) (Some tipc_vdev_reset)
          (Some (fun _ vqid => tipc_vdev_kick_vq vqid)).

(** The device [calloc] returns, with its ops, uuid, event and handle list. *)
Definition zero_vqueue : vqueue := Vqueue 0 (Vring 0 0 0 0) 0 0 0 false 0 0 0 false.
Definition new_tipc_dev (uuid : uuid_ptr) (have_handles handle_list : Z) : tipc_dev :=
  TipcDev VDEV_STATE_RESET 0 uuid zero_vqueue zero_vqueue (replicate 256 (Ept 0 None)) (replicate 8 0) have_handles handle_list
    false false false false.

(** [have_handles], [handle_list]: names of the two objects in the device;
    [ok]: the answer of [calloc].  On an error the device is freed. *)
Definition create_tipc_device (uuid : uuid_ptr) (have_handles handle_list : Z) (ok : bool) : M (bstate tsys) Z :=
  assert_ (negb (Z.of_nat (length descr) =? 0));;
  if negb ok then mret ERR_NO_MEMORY
  else
    vb ← get_bus;
    ret ← virtio_register_device (Some (Vdev 0 0 (Some _tipc_dev_ops)));
    if negb (ret =? NO_ERROR) then mret ret
    else
      on_w (on_k (handle_list_init handle_list);;
            upd_dev (fun _ => let d := new_tipc_dev uuid have_handles handle_list in
              TipcDev (td_state d) (vb_next_dev_id vb) (td_uuid d) (td_tx d) (td_rx d) (td_epts d) (td_inuse d) (td_have_handles d)
                (td_handle_list d) (td_rx_thread d) (td_tx_thread d) (td_tx_stop d) (td_rx_stop d)));;
      mret NO_ERROR.
End tipc_ops.

(** [tipc_init] of tipc_config.c; a failure is only reported. *)
Definition tipc_init (await : T unit) (join : vq_sel -> T Z) (fuel : nat) (trx ttx : bool) (have_handles handle_list : Z) (ok : bool) : M (bstate tsys) unit :=
  create_tipc_device await join fuel trx ttx _descr0 zero_uuid have_handles handle_list ok;;
  mret tt.

(** ** Standard calls of the trusted OS (smcall.c) *)

Definition SMC_ENTITY_TRUSTED_OS : Z := 50.
Definition SMC_SC_VIRTIO_GET_DESCR : Z := SMC_STDCALL_NR SMC_ENTITY_TRUSTED_OS 20.
Definition SMC_SC_VIRTIO_START : Z := SMC_STDCALL_NR SMC_ENTITY_TRUSTED_OS 21.
Definition SMC_SC_VIRTIO_STOP : Z := SMC_STDCALL_NR SMC_ENTITY_TRUSTED_OS 22.
Definition SMC_SC_VDEV_RESET : Z := SMC_STDCALL_NR SMC_ENTITY_TRUSTED_OS 23.
Definition SMC_SC_VDEV_KICK_VQ : Z := SMC_STDCALL_NR SMC_ENTITY_TRUSTED_OS 24.
Definition ARCH_MMU_FLAG_CACHE_MASK : Z := 3.

(** Address, size and mmu flags of the buffer, or an error. *)
Definition get_ns_mem_buf (args : smc32_args) : Z + Z * Z * Z :=
  match smc32_decode_mem_buf_info args with
  | (rc, Some (pa, sz, flags)) =>
      if negb (rc =? NO_ERROR) then inl rc
      else
        let mem_type := Z.land flags ARCH_MMU_FLAG_CACHE_MASK in
        if negb (mem_type =? ARCH_MMU_FLAG_CACHED) && negb (mem_type =? ARCH_MMU_FLAG_UNCACHED) then inl ERR_INVALID_ARGS
        else if has_flag flags ARCH_MMU_FLAG_PERM_RO || has_flag flags ARCH_MMU_FLAG_PERM_USER then inl ERR_INVALID_ARGS
        else inr (pa, sz, flags)
  | (rc, None) => inl rc
  end.

Definition trusty_sm_stdcall {W} (args : smc32_args) : M (bstate W) Z :=
  let on_buf (f : Z -> Z -> M (bstate W) Z) : M (bstate W) Z :=
    match get_ns_mem_buf args with
    | inl res => mret res
    | inr (ns_pa, ns_sz, _) => f ns_pa ns_sz
    end in
  if smc_nr args =? SMC_SC_VIRTIO_GET_DESCR then on_buf virtio_get_description
  else if smc_nr args =? SMC_SC_VIRTIO_START then on_buf virtio_start
  else if smc_nr args =? SMC_SC_VIRTIO_STOP then on_buf (fun _ _ => virtio_stop)
  else if smc_nr args =? SMC_SC_VDEV_RESET then virtio_device_reset (param 0 args)
  else if smc_nr args =? SMC_SC_VDEV_KICK_VQ then virtio_kick_vq (param 0 args) (param 1 args)
  else mret ERR_NOT_SUPPORTED.

(** ** What the device writes *)

Lemma shm_store_lookup bs m a x :
  shm_store m a bs !! x = if bool_decide (a <= x < a + Z.of_nat (length bs)) then bs !! Z.to_nat (x - a) else m !! x.
Proof.
  revert m a. induction bs as [|b bs IH]; intros m a; cbn [shm_store length].
  { rewrite bool_decide_false; [done|lia]. }
  rewrite IH. destruct (decide (x = a)) as [->|Hne].
  - rewrite bool_decide_false, bool_decide_true by lia. rewrite lookup_insert_eq, Z.sub_diag. done.
  - rewrite lookup_insert_ne by done. repeat case_bool_decide; try done; try lia.
    replace (Z.to_nat (x - a)) with (S (Z.to_nat (x - (a + 1)))) by lia. done.
Qed.

(** [cs] stored over a part of [bs]. *)
Lemma shm_store_patch m a bs cs k : (k + length cs <= length bs)%nat ->
  shm_store (shm_store m a bs) (a + Z.of_nat k) cs = shm_store m a (take k bs ++ cs ++ drop (k + length cs) bs).
Proof.
  intros Hk. apply map_eq. intros x. rewrite !shm_store_lookup. rewrite !length_app, length_take, length_drop.
  replace (k `min` length bs + (length cs + (length bs - (k + length cs))))%nat with (length bs) by lia.
  destruct (decide (a <= x < a + Z.of_nat (length bs))) as [Hx|Hx]; [|by rewrite !bool_decide_false by lia].
  rewrite (bool_decide_true (a <= x < a + _)) by done. case_bool_decide as Hc.
  - rewrite lookup_app_r; rewrite length_take; [|lia]. rewrite lookup_app_l by lia. f_equal. lia.
  - destruct (decide (x < a + Z.of_nat k)) as [Hl|Hl].
    + rewrite lookup_app_l by (rewrite length_take; lia). by rewrite lookup_take_lt by lia.
    + rewrite lookup_app_r; rewrite length_take; [|lia]. rewrite lookup_app_r by lia. rewrite lookup_drop. f_equal. lia.
Qed.

Lemma shm_copy_out_idle bs a (s : tstate) : bytes_ok bs -> v_env s = [] -> in_regions (v_regions s) a (Z.of_nat (length bs)) = true ->
  shm_copy_out a bs s = Ret tt (v_set_shm (shm_store (v_shm s) a bs) s).
Proof.
  intros Hb. revert a s. induction Hb as [|b bs Hb _ IH]; intros a s He Hr; cbn [shm_copy_out shm_store]; [by destruct s|]. cbn [length] in Hr.
  erewrite run_bind by (apply shm_write_idle; [done|eapply in_regions_sub; [exact Hr|lia..]]).
  rewrite IH; [|done|eapply in_regions_sub; [exact Hr|lia..]]. cbn [le_bytes shm_store v_shm v_set_shm]. by rewrite Z.mod_small by lia.
Qed.

(** The template with the id of the device. *)
Definition descr_of (descr : list Z) (id : Z) : list Z := take 8 descr ++ le_bytes 4 id ++ drop 12 descr.

#[export] Instance tipc_descr_ok await join fuel trx ttx descr : bytes_ok descr -> (12 <= length descr)%nat ->
  Vdev_descr (_tipc_dev_ops await join fuel trx ttx descr) (Z.of_nat (length descr)) (descr_of descr).
Proof.
  intros Hb Hl. split.
  - intros id. unfold descr_of. rewrite !length_app, le_bytes_length, length_take, length_drop. lia.
  - by eexists.
  - eexists. split; [done|]. intros id a s He Hr. unfold tipc_get_vdev_descr. rewrite (run_bind _ _ _ _ _ (shm_copy_out_idle descr a s Hb He Hr)).
    erewrite run_bind by (apply shm_write_idle; [done|eapply in_regions_sub; [exact Hr|lia..]]). eexists. cbn [v_shm v_set_shm].
    change (a + 8) with (a + Z.of_nat 8). rewrite shm_store_patch by (rewrite le_bytes_length; lia). rewrite le_bytes_length. done.
Qed.

(** ** What the driver gives back *)

Lemma field_agree off n bs bs' : (forall i, (off <= i < off + n)%nat -> bs !! i = bs' !! i) -> field off n bs = field off n bs'.
Proof.
  intros H. unfold field. f_equal. apply list_eq. intros i. destruct (decide (i < n)%nat).
  - rewrite !lookup_take_lt by done. rewrite !lookup_drop. apply H. lia.
  - by rewrite !lookup_take_ge by lia.
Qed.

(** The bytes a driver fills in: the status and the addresses of the rings. *)
Definition driver_byte (i : nat) : Prop := (i = 24 \/ 28 <= i < 32 \/ 48 <= i < 52)%nat.

(** The description of the device with an id and queue sizes, given back with a
    status and ring addresses, is accepted exactly when the driver is ready, and
    the device finds the rings it announced. *)
Lemma descr_accepted id txsz rxsz name bs status : 0 <= txsz < 2 ^ 32 -> 0 <= rxsz < 2 ^ 32 ->
  (forall i, ~ driver_byte i -> (i < 108)%nat -> bs !! i = descr_of (tipc_device_descr 0 txsz rxsz name) id !! i) -> bs !! 24%nat = Some status ->
  let de := decode_descr bs in
  (validate_descr de = NO_ERROR <-> status = 7) /\
  de_vring_tx de = FwVring (field 28 4 bs) PAGE_SIZE txsz 1 /\ de_vring_rx de = FwVring (field 48 4 bs) PAGE_SIZE rxsz 2.
Proof.
  intros Ht Hr Hbs H24 de. set (D := descr_of _ _) in *.
  assert (forall off n, (off + n <= 108)%nat -> (forall i, (off <= i < off + n)%nat -> ~ driver_byte i) -> field off n bs = field off n D) as Hf.
  { intros off n Hn Hd. apply field_agree. intros i Hi. apply Hbs; [by apply Hd|lia]. }
  assert (field 24 1 bs = status) as Es.
  { unfold field. rewrite (drop_S _ _ _ H24). cbn [take]. rewrite take_0. unfold le_val. lia. }
  assert (forall z, 0 <= z < 2 ^ 32 -> le_val (le_bytes 4 z) = z) as Hle by (intros z Hz; rewrite le_val_bytes; by apply Z.mod_small).
  assert (de = Descr RSC_VDEV VIRTIO_ID_TIPC TIPC_VQ_NUM status (FwVring (field 28 4 bs) PAGE_SIZE txsz 1) (FwVring (field 48 4 bs) PAGE_SIZE rxsz 2)) as ->.
  { unfold de, decode_descr, fw_vring_at. rewrite Es.
    rewrite (Hf 0%nat 4%nat), (Hf 4%nat 4%nat), (Hf 25%nat 1%nat), (Hf (28 + 4)%nat 4%nat), (Hf (28 + 8)%nat 4%nat), (Hf (28 + 12)%nat 4%nat),
      (Hf (48 + 4)%nat 4%nat), (Hf (48 + 8)%nat 4%nat), (Hf (48 + 12)%nat 4%nat) by (try (intros i; unfold driver_byte); lia).
    repeat f_equal; try (by apply Hle); done. }
  split; [|done]. unfold validate_descr. cbn. change (Z.lor _ _) with 7. by destruct (Z.eqb_spec status 7).
Qed.

(** ** The default device *)

(** [tipc_init] and the first request of the non-secure side, on a bus that has
    no device yet.  [have_handles], [handle_list]: the objects in the device. *)
Definition boot_and_describe (await : T unit) (join : vq_sel -> T Z) (fuel : nat) (trx ttx : bool) (have_handles handle_list pa sz : Z) : M (bstate tsys) Z :=
  tipc_init await join fuel trx ttx have_handles handle_list true;;
  virtio_get_description pa sz.

Lemma _descr0_ok : bytes_ok _descr0 /\ length _descr0 = 108%nat.
Proof. split; [|done]. apply (bool_decide_eq_true_1 (Forall (fun b => 0 <= b < 256) _descr0)). by vm_compute. Qed.

Lemma create_run await join fuel trx ttx hh hl (s : bstate tsys) : bs_bus (v_dev s) = _virtio_bus ->
  let ops := _tipc_dev_ops await join fuel trx ttx _descr0 in
  exists s', tipc_init await join fuel trx ttx hh hl true s = Ret tt s' /\
    bs_bus (v_dev s') = Bus 1 1 0 VIRTIO_BUS_STATE_UNINITIALIZED [Vdev 0 0 (Some ops)] /\
    v_regions s' = v_regions s /\ v_env s' = v_env s /\ v_vmm s' = v_vmm s /\
    ts_dev (bs_w (v_dev s')) = new_tipc_dev zero_uuid hh hl /\
    k_hlists (ts_k (bs_w (v_dev s'))) !! hl = Some (HandleList [] None).
Proof.
  intros Hb ops. destruct s as [[b mal [k d]] reg shm env vmm]. cbn in Hb. subst b. eexists. split; [done|].
  do 5 (split; [done|]). cbn. by rewrite lookup_insert_eq.
Qed.


(** ** Standard calls *)

(** Memory the bus maps for the non-secure side: normal memory, writable, not
    the user's. *)
Lemma get_ns_mem_buf_ok args pa sz flags : get_ns_mem_buf args = inr (pa, sz, flags) ->
  smc32_decode_mem_buf_info args = (NO_ERROR, Some (pa, sz, flags)) /\
  has_flag flags ARCH_MMU_FLAG_PERM_RO = false /\ has_flag flags ARCH_MMU_FLAG_PERM_USER = false /\
  (Z.land flags ARCH_MMU_FLAG_CACHE_MASK = ARCH_MMU_FLAG_CACHED \/ Z.land flags ARCH_MMU_FLAG_CACHE_MASK = ARCH_MMU_FLAG_UNCACHED).
Proof.
  unfold get_ns_mem_buf. destruct (smc32_decode_mem_buf_info args) as [rc [[[pa' sz'] fl]|]]; [|done].
  destruct (Z.eqb_spec rc NO_ERROR) as [->|]; [|done]. cbn [negb]. destruct (_ && _) eqn:Em; [done|]. destruct (_ || _) eqn:Ef; [done|].
  intros [= -> -> ->]. apply orb_false_iff in Ef as [-> ->]. do 3 (split; [done|]).
  apply andb_false_iff in Em as [?%negb_false_iff%Z.eqb_eq|?%negb_false_iff%Z.eqb_eq]; auto.
Qed.

(** A standard call of the trusted OS is one call of the bus, never [Register],
    or fails without one. *)
Theorem trusty_stdcall_routes {W} args (s : bstate W) :
  (exists c : bus_call W, trusty_sm_stdcall args s = do_bus_call c s /\ match c with Register _ => False | _ => True end) \/
  exists err, trusty_sm_stdcall args s = Ret err s.
Proof.
  unfold trusty_sm_stdcall. cbv zeta. destruct (get_ns_mem_buf args) as [err|[[pa sz] fl]];
    repeat (case_match; [first [by right; eexists|by left; eexists (GetDescription pa sz)|by left; eexists (Start pa sz)|by left; eexists Stop
      |by left; eexists (DeviceReset (param 0 args))|by left; eexists (KickVq (param 0 args) (param 1 args))]|]); by right; eexists.
Qed.

Definition demo_tipc_boot : bstate tsys :=
  VState (BSys _virtio_bus [] (TSys (KState ∅ ∅ ∅ [] [] ∅ ∅ ∅ ∅ 1000 [] 0) (new_tipc_dev zero_uuid 90 50))) [(4096, 4096)] ∅ [] [Some 65536].

(** The default description, given back by a driver that is ready. *)
Definition demo_ready_descr : list Z := take 24 (descr_of _descr0 0) ++ [7] ++ drop 25 (descr_of _descr0 0).

