(* ===== verification/Rpmb.v ===== *)
(** * The replay-protected storage device (app/storage/rpmb.c)

    The storage app keeps its roots in an RPMB partition.  It reaches the device
    only through the non-secure side, which may answer whatever it likes: requests
    and responses carry a MAC under a key the two ends share, reads and counter
    requests a nonce.  The partition's size is found by probing
    ([rpmb_search_size] of block_device_tipc.c). *)

From stdpp Require Import base tactics list.
From Stdlib Require Import ZArith Lia.
From S2P Require Import Prelude.

(** ** Packets *)

(** [struct rpmb_packet] *)
Record rpmb_packet := Packet {
  pk_pad : list Z;
  pk_key_mac : list Z;
  pk_data : list Z;
  pk_nonce : list Z;
  pk_write_counter : list Z;
  pk_address : list Z;
  pk_block_count : list Z;
  pk_result : list Z;
  pk_req_resp : list Z;
}.

Definition zero_packet : rpmb_packet :=
  Packet (replicate 196 0) (replicate 32 0) (replicate 256 0) (replicate 16 0) (replicate 4 0) (replicate 2 0) (replicate 2 0) (replicate 2 0) (replicate 2 0).

Definition RPMB_REQ_GET_COUNTER : Z := 2.
Definition RPMB_REQ_DATA_WRITE : Z := 3.
Definition RPMB_REQ_DATA_READ : Z := 4.
Definition RPMB_REQ_RESULT_READ : Z := 5.
Definition RPMB_RESP_GET_COUNTER : Z := 512.
Definition RPMB_RESP_DATA_WRITE : Z := 768.
Definition RPMB_RESP_DATA_READ : Z := 1024.
Definition RPMB_RES_OK : Z := 0.
Definition RPMB_RES_COUNT_FAILURE : Z := 3.
Definition RPMB_RES_ADDR_FAILURE : Z := 4.
Definition RPMB_BUF_SIZE : Z := 256.

Definition ENOENT : Z := 2.
Definition ENOMEM : Z := 12.

(** Big-endian fields. *)
Definition byte_of (z : Z) : Z := z mod 256.
Definition rpmb_u16 (val : Z) : list Z := [byte_of (Z.shiftr val 8); byte_of val].
Definition rpmb_u32 (val : Z) : list Z := [byte_of (Z.shiftr val 24); byte_of (Z.shiftr val 16); byte_of (Z.shiftr val 8); byte_of val].
Definition rpmb_get_u16 (bs : list Z) : Z := foldl (fun val b => u16 (Z.lor (Z.shiftl val 8) b)) 0 bs.
Definition rpmb_get_u32 (bs : list Z) : Z := foldl (fun val b => u32 (Z.lor (Z.shiftl val 8) b)) 0 bs.

(** The 284 bytes from [data] to the end, which the MAC covers. *)
Definition packet_body (p : rpmb_packet) : list Z :=
  pk_data p ++ pk_nonce p ++ pk_write_counter p ++ pk_address p ++ pk_block_count p ++ pk_result p ++ pk_req_resp p.
Definition bodies (ps : list rpmb_packet) : list Z := ps ≫= packet_body.

(** The packets of the requests. *)
Definition counter_cmd (nonce : list Z) : rpmb_packet :=
  Packet (pk_pad zero_packet) (pk_key_mac zero_packet) (pk_data zero_packet) nonce (pk_write_counter zero_packet)
    (pk_address zero_packet) (pk_block_count zero_packet) (pk_result zero_packet) (rpmb_u16 RPMB_REQ_GET_COUNTER).
Definition read_cmd (nonce : list Z) (addr : Z) : rpmb_packet :=
  Packet (pk_pad zero_packet) (pk_key_mac zero_packet) (pk_data zero_packet) nonce (pk_write_counter zero_packet)
    (rpmb_u16 addr) (pk_block_count zero_packet) (pk_result zero_packet) (rpmb_u16 RPMB_REQ_DATA_READ).

Section rpmb.
(** The channel to the device is the non-secure side's: any state machine.
    [send rel wr n c]: the status [rpmb_send] returns and the [n] packets that are in
    the read buffer afterwards; TipcNs.v has the routine and proves these theorems
    for it.  Its last argument, [sync], is true for writes only, the ones with a
    [rel].  [rand]: RAND_bytes. *)
Context {C : Type}.
Variable send : list rpmb_packet -> list rpmb_packet -> nat -> C -> Z * list rpmb_packet * C.
Variable rand : C -> list Z * C.
(** HMAC-SHA256 of the library; [None] when it fails. *)
Variable hmac : list Z -> list Z -> option (list Z).
Variable key : list Z.

(** [struct rpmb_state] and the channel; [rs_sent]: what was sent, latest first. *)
Record rpmb_state := RState {
  rs_write_counter : Z;
  rs_chan : C;
  rs_sent : list (list rpmb_packet * list rpmb_packet);
}.

Definition rs_set_counter (v : Z) (s : rpmb_state) : rpmb_state := RState v (rs_chan s) (rs_sent s).
Definition rs_set_chan (v : C) (s : rpmb_state) : rpmb_state := RState (rs_write_counter s) v (rs_sent s).

Abbreviation R := (M rpmb_state).

Definition rpmb_nonce_init : R (list Z) := fun s => let '(n, c) := rand (rs_chan s) in Ret n (rs_set_chan c s).

Definition exchange (rel wr : list rpmb_packet) (n : nat) : R (Z * list rpmb_packet) := fun s =>
  let '(ret, res, c) := send rel wr n (rs_chan s) in
  Ret (ret, resize n zero_packet res) (RState (rs_write_counter s) c ((rel, wr) :: rs_sent s)).

(** The MAC over some packets, [None] on failure; a MAC of another size ends the
    program. *)
Definition rpmb_mac (ps : list rpmb_packet) : R (option (list Z)) :=
  match hmac key (bodies ps) with
  | None => mret None
  | Some mac => if bool_decide (length mac = 32%nat) then mret (Some mac) else raise Panicked
  end.

Fixpoint rpmb_check_response (response_type : Z) (res : list rpmb_packet) (mac nonce : option (list Z)) (addrp : option Z) : Z :=
  match res with
  | [] => 0
  | p :: res' =>
      if negb (rpmb_get_u16 (pk_req_resp p) =? response_type) then -1
      else if negb (rpmb_get_u16 (pk_result p) =? RPMB_RES_OK) then
        if rpmb_get_u16 (pk_result p) =? RPMB_RES_ADDR_FAILURE then - ENOENT else -1
      else if bool_decide (res' = []) && match mac with Some m => negb (bool_decide (pk_key_mac p = m)) | None => false end then -1
      else if match nonce with Some n => negb (bool_decide (pk_nonce p = n)) | None => false end then -1
      else if match addrp with Some a => negb (a =? rpmb_get_u16 (pk_address p)) | None => false end then -1
      else rpmb_check_response response_type res' mac nonce addrp
  end.

(** [rpmb_read_counter(state, &state->write_counter)], the only use. *)
Definition rpmb_read_counter : R Z :=
  nonce ← rpmb_nonce_init;
  let cmd := counter_cmd nonce in
  '(ret, res) ← exchange [] [cmd] 1;
  if ret <? 0 then mret ret
  else
    mac ← rpmb_mac res;
    match mac with
    | None => mret (-1)
    | Some mac =>
        r ← deref BadPointer (res !! 0%nat);
        modify (rs_set_counter (rpmb_get_u32 (pk_write_counter r)));;
        mret (rpmb_check_response RPMB_RESP_GET_COUNTER res (Some mac) (Some nonce) None)
    end.

(** Status and the bytes read; a read that fails leaves the buffer alone. *)
Definition rpmb_read (addr count : Z) : R (Z * list Z) :=
  nonce ← rpmb_nonce_init;
  let cmd := read_cmd nonce addr in
  '(ret, res) ← exchange [] [cmd] (Z.to_nat count);
  if ret <? 0 then mret (ret, [])
  else
    mac ← rpmb_mac res;
    match mac with
    | None => mret (-1, [])
    | Some mac =>
        let ret := rpmb_check_response RPMB_RESP_DATA_READ res (Some mac) (Some nonce) (Some addr) in
        if ret <? 0 then mret (ret, []) else mret (0, res ≫= pk_data)
    end.

(** The commands for the blocks of [buf], without the MAC. *)
Definition write_cmds (counter addr count : Z) (buf : list Z) : list rpmb_packet :=
  (fun i => Packet (pk_pad zero_packet) (pk_key_mac zero_packet) (take 256 (drop (i * 256) buf)) (pk_nonce zero_packet)
              (rpmb_u32 counter) (rpmb_u16 addr) (rpmb_u16 count) (pk_result zero_packet) (rpmb_u16 RPMB_REQ_DATA_WRITE)) <$> seq 0 (Z.to_nat count).

Definition set_key_mac (mac : list Z) (p : rpmb_packet) : rpmb_packet :=
  Packet (pk_pad p) mac (pk_data p) (pk_nonce p) (pk_write_counter p) (pk_address p) (pk_block_count p) (pk_result p) (pk_req_resp p).

Definition result_cmd : rpmb_packet :=
  Packet (pk_pad zero_packet) (pk_key_mac zero_packet) (pk_data zero_packet) (pk_nonce zero_packet) (pk_write_counter zero_packet)
    (pk_address zero_packet) (pk_block_count zero_packet) (pk_result zero_packet) (rpmb_u16 RPMB_REQ_RESULT_READ).

Definition rpmb_write_data (buf : list Z) (addr count : Z) : R Z :=
  s ← get;
  let cmd := write_cmds (rs_write_counter s) addr count buf in
  _ ← deref BadPointer (cmd !! (Z.to_nat count - 1)%nat);
  mac ← rpmb_mac cmd;
  match mac with
  | None => mret (-1)
  | Some mac =>
      '(ret, res) ← exchange (alter (set_key_mac mac) (Z.to_nat count - 1)%nat cmd) [result_cmd] 1;
      if ret <? 0 then mret ret
      else
        mac ← rpmb_mac res;
        match mac with
        | None => mret (-1)
        | Some mac =>
            r ← deref BadPointer (res !! 0%nat);
            let ret := rpmb_check_response RPMB_RESP_DATA_WRITE res (Some mac) None (Some addr) in
            if ret <? 0 then
              when (rpmb_get_u16 (pk_result r) =? RPMB_RES_COUNT_FAILURE) (modify (rs_set_counter 0));; mret ret
            else
              modify (fun s => rs_set_counter (u32 (rs_write_counter s + 1)) s);; mret 0
        end
  end.

Definition rpmb_write (buf : list Z) (addr count : Z) : R Z :=
  s ← get;
  ret ← (if rs_write_counter s =? 0 then rpmb_read_counter else mret 0 : R Z);
  if ret <? 0 then mret ret else rpmb_write_data buf addr count.

(** [rpmb_init]: [mem] is the answer of malloc. *)
Definition rpmb_init (mem : option unit) (c : C) : Z * option rpmb_state :=
  match mem with
  | None => (- ENOMEM, None)
  | Some _ => (0, Some (RState 0 c []))
  end.

(** ** The size of the partition (block_device_tipc.c) *)

Definition rpmb_check (block : Z) : R Z := '(ret, _) ← rpmb_read block 1; mret ret.

Fixpoint search_loop (fuel : nat) (low high curr hint : Z) : R Z :=
  match fuel with
  | O => raise OutOfFuel
  | S fuel' =>
      if negb (low <=? high) then assert_ (high + 1 =? low);; mret low
      else
        ret ← rpmb_check curr;
        let next (low high : Z) :=
          if negb (ret =? 0) || negb (curr =? hint)
          then let curr := u16 (low + u32 (high - low) / 2) in search_loop fuel' low high curr curr
          else search_loop fuel' low high (u16 (curr + 1)) hint in
        if ret =? 0 then next (curr + 1) high
        else if ret =? - ENOENT then next low (u16 (curr - 1))
        else mret 0
  end.

Definition rpmb_search_size (fuel : nat) (hint : Z) : R Z :=
  search_loop fuel 0 (u16 (Z.lnot 0)) (u16 (hint - 1)) hint.
End rpmb.

Arguments rs_write_counter {C}.
Arguments rs_chan {C}.
Arguments rs_sent {C}.
Arguments RState {C}.

(** ** Fields and bodies *)

Lemma get_u16_u16 v : 0 <= v < 2 ^ 16 -> rpmb_get_u16 (rpmb_u16 v) = v.
Proof.
  intros Hv. unfold rpmb_get_u16, rpmb_u16, byte_of. cbn [foldl]. rewrite Z.shiftr_div_pow2 by lia. change 256 with (2 ^ 8).
  rewrite !lor_shift by (try apply Z.mod_pos_bound; lia). unfold u16. change (2 ^ 8) with 256. change (2 ^ 16) with 65536 in *.
  Z.to_euclidean_division_equations; lia.
Qed.

Lemma get_u32_u32 v : 0 <= v < 2 ^ 32 -> rpmb_get_u32 (rpmb_u32 v) = v.
Proof.
  intros Hv. unfold rpmb_get_u32, rpmb_u32, byte_of. cbn [foldl]. rewrite !Z.shiftr_div_pow2 by lia. change 256 with (2 ^ 8).
  rewrite !lor_shift by (try apply Z.mod_pos_bound; lia). unfold u32.
  change (2 ^ 8) with 256; change (2 ^ 16) with 65536; change (2 ^ 24) with 16777216; change (2 ^ 32) with 4294967296 in *.
  Z.to_euclidean_division_equations; lia.
Qed.

Lemma get_u16_bounds bs : 0 <= rpmb_get_u16 bs < 2 ^ 16.
Proof.
  unfold rpmb_get_u16. assert (forall v, 0 <= v < 2 ^ 16 -> 0 <= foldl (fun val b => u16 (Z.lor (Z.shiftl val 8) b)) v bs < 2 ^ 16) as H; [|apply H; lia].
  induction bs as [|b bs IH]; intros v Hv; cbn [foldl]; [done|]. apply IH. apply Z.mod_pos_bound. lia.
Qed.

(** The sizes of the fields. *)
Definition packet_ok (p : rpmb_packet) : Prop :=
  length (pk_data p) = 256%nat /\ length (pk_nonce p) = 16%nat /\ length (pk_write_counter p) = 4%nat /\ length (pk_address p) = 2%nat /\
  length (pk_block_count p) = 2%nat /\ length (pk_result p) = 2%nat /\ length (pk_req_resp p) = 2%nat.

Lemma zero_packet_ok : packet_ok zero_packet.
Proof. by split_and!. Qed.

Lemma body_length p : packet_ok p -> length (packet_body p) = 284%nat.
Proof. intros (H1 & H2 & H3 & H4 & H5 & H6 & H7). unfold packet_body. rewrite !length_app. lia. Qed.

(** What the MAC covers determines the fields. *)
Lemma body_inj p q : packet_ok p -> packet_ok q -> packet_body p = packet_body q ->
  pk_data p = pk_data q /\ pk_nonce p = pk_nonce q /\ pk_write_counter p = pk_write_counter q /\ pk_address p = pk_address q /\
  pk_result p = pk_result q /\ pk_req_resp p = pk_req_resp q.
Proof.
  intros (P1 & P2 & P3 & P4 & P5 & P6 & P7) (Q1 & Q2 & Q3 & Q4 & Q5 & Q6 & Q7) E. unfold packet_body in E.
  apply app_inj_1 in E as [E1 E]; [|congruence]. apply app_inj_1 in E as [E2 E]; [|congruence]. apply app_inj_1 in E as [E3 E]; [|congruence].
  apply app_inj_1 in E as [E4 E]; [|congruence]. apply app_inj_1 in E as [E5 E]; [|congruence]. apply app_inj_1 in E as [E6 E]; [|congruence]. done.
Qed.

Lemma bodies_inj ps qs : Forall packet_ok ps -> Forall packet_ok qs -> bodies ps = bodies qs -> Forall2 (fun p q => packet_body p = packet_body q) ps qs.
Proof.
  intros Hp. revert qs. induction Hp as [|p ps Hp _ IH]; intros qs Hq E.
  - destruct Hq as [|q qs Hq _]; [constructor|]. apply (f_equal length) in E. cbn in E. rewrite length_app, (body_length q Hq) in E. lia.
  - destruct Hq as [|q qs Hq Hqs]; cbn in E.
    { apply (f_equal length) in E. rewrite length_app, (body_length p Hp) in E. cbn in E. lia. }
    apply app_inj_1 in E as [E1 E2]; [|by rewrite !body_length]. constructor; [done|]. by apply IH.
Qed.

(** What a response that passes the checks looks like. *)
Lemma check_response_inv ty res mac nonce addrp : rpmb_check_response ty res mac nonce addrp = 0 ->
  Forall (fun p => rpmb_get_u16 (pk_req_resp p) = ty /\ rpmb_get_u16 (pk_result p) = RPMB_RES_OK /\
    (forall n, nonce = Some n -> pk_nonce p = n) /\ (forall a, addrp = Some a -> rpmb_get_u16 (pk_address p) = a)) res /\
  forall p m, last res = Some p -> mac = Some m -> pk_key_mac p = m.
Proof.
  induction res as [|p res IH]; cbn [rpmb_check_response]; [by intros _|].
  destruct (Z.eqb_spec (rpmb_get_u16 (pk_req_resp p)) ty) as [Et|]; [|done]. cbn [negb].
  destruct (Z.eqb_spec (rpmb_get_u16 (pk_result p)) RPMB_RES_OK) as [Er|]; cbn [negb]; [|by destruct (_ =? _)].
  destruct (bool_decide (res = []) && _) eqn:Em; [done|]. destruct (match nonce with Some n => _ | None => _ end) eqn:En; [done|].
  destruct (match addrp with Some a => _ | None => _ end) eqn:Ea; [done|]. intros H. destruct (IH H) as [H1 H2]. split.
  - constructor; [|done]. split; [done|]. split; [done|]. split.
    + intros n ->. apply negb_false_iff, bool_decide_eq_true in En. done.
    + intros a ->. apply negb_false_iff, Z.eqb_eq in Ea. done.
  - intros q m Hl ->. destruct res as [|r res]; [|by apply (H2 q m)]. cbn in Hl. injection Hl as <-. cbn in Em. apply negb_false_iff, bool_decide_eq_true in Em. done.
Qed.

Lemma check_response_nonpos ty res mac nonce addrp : rpmb_check_response ty res mac nonce addrp <= 0.
Proof.
  induction res as [|p res IH]; cbn [rpmb_check_response]; [done|]. unfold ENOENT.
  repeat match goal with |- (if ?b then _ else _) <= 0 => destruct b end; lia.
Qed.

(** ** Reads are authentic *)

(** The device's response to a read, by block. *)
Definition read_response (store : Z -> list Z) (nonce : list Z) (addr : Z) (count : nat) : list rpmb_packet :=
  (fun i => Packet (pk_pad zero_packet) (pk_key_mac zero_packet) (store (addr + Z.of_nat i)) nonce (pk_write_counter zero_packet)
              (rpmb_u16 addr) (rpmb_u16 (Z.of_nat count)) (rpmb_u16 RPMB_RES_OK) (rpmb_u16 RPMB_RESP_DATA_READ)) <$> seq 0 count.

Definition store_ok (store : Z -> list Z) : Prop := forall a, length (store a) = 256%nat.

(** The strings that the holders of the key compute a MAC of.  A response to a read
    with our nonce is made from the blocks the device has now; everything else --
    counters, results of writes, the app's own commands, errors -- is of another
    type or reports an error. *)
Inductive genuine (store : Z -> list Z) (nonce : list Z) : list Z -> Prop :=
  | genuine_read st n a c : store_ok st -> length n = 16%nat -> 0 <= a < 2 ^ 16 -> (n = nonce -> st = store) ->
      genuine store nonce (bodies (read_response st n a c))
  | genuine_other ps : Forall packet_ok ps ->
      Exists (fun p => rpmb_get_u16 (pk_req_resp p) <> RPMB_RESP_DATA_READ \/ rpmb_get_u16 (pk_result p) <> RPMB_RES_OK) ps ->
      genuine store nonce (bodies ps).

(** Nobody else computes a MAC that verifies: what the channel returns in answer to
    a request either has a wrong MAC or is genuine.  [store c]: the blocks of the
    device when the channel is in state [c]. *)
Definition unforgeable {C} (send : list rpmb_packet -> list rpmb_packet -> nat -> C -> Z * list rpmb_packet * C)
    (hmac : list Z -> list Z -> option (list Z)) (key : list Z) (store : C -> Z -> list Z) : Prop :=
  forall cmd n c ret res c', send [] [cmd] n c = (ret, res, c') ->
    length res = n /\ Forall packet_ok res /\
    forall p, last res = Some p -> hmac key (bodies res) = Some (pk_key_mac p) -> genuine (store c) (pk_nonce cmd) (bodies res).

Lemma read_response_ok st n a c : store_ok st -> length n = 16%nat -> Forall packet_ok (read_response st n a c).
Proof. intros Hs Hn. unfold read_response. apply Forall_fmap, Forall_true. intros i. split_and!; (done || apply Hs). Qed.

Lemma read_response_data st n a c : read_response st n a c ≫= pk_data = seq 0 c ≫= (fun i => st (a + Z.of_nat i)).
Proof. unfold read_response. by rewrite list_fmap_bind. Qed.

Lemma bind_data_eq ps qs : Forall packet_ok ps -> Forall packet_ok qs -> Forall2 (fun p q => packet_body p = packet_body q) ps qs -> ps ≫= pk_data = qs ≫= pk_data.
Proof.
  intros Hp Hq H. induction H as [|p q ps qs E _ IH]; [done|]. apply Forall_cons in Hp as [Hp Hps]. apply Forall_cons in Hq as [Hq Hqs]. cbn.
  rewrite IH by done. by destruct (body_inj p q Hp Hq E) as [-> _].
Qed.

Lemma genuine_read_data store nonce addr res : Forall packet_ok res -> res <> [] -> genuine store nonce (bodies res) ->
  Forall (fun p => rpmb_get_u16 (pk_req_resp p) = RPMB_RESP_DATA_READ /\ rpmb_get_u16 (pk_result p) = RPMB_RES_OK /\ pk_nonce p = nonce /\ rpmb_get_u16 (pk_address p) = addr) res ->
  res ≫= pk_data = seq 0 (length res) ≫= (fun i => store (addr + Z.of_nat i)).
Proof.
  intros Hok Hne Hg Hchk. inversion Hg as [st n a c Hst Hn Ha Hfresh E|ps Hps Hex E].
  - pose proof (read_response_ok st n a c Hst Hn) as Hr. symmetry in E. pose proof (bodies_inj _ _ Hok Hr E) as H2. rewrite (bind_data_eq _ _ Hok Hr H2), read_response_data.
    pose proof (Forall2_length _ _ _ H2) as Hl. unfold read_response in Hl. rewrite length_fmap, length_seq in Hl. rewrite <- Hl.
    destruct res as [|p res]; [done|]. apply Forall_cons in Hchk as [(_ & _ & Hnn & Haa) _]. apply Forall_cons in Hok as [Hp _].
    destruct c as [|c]; [cbn in Hl; lia|]. unfold read_response in H2. cbn [seq fmap list_fmap] in H2. apply Forall2_cons in H2 as [Hb _]. unfold read_response in Hr. cbn [seq fmap list_fmap] in Hr. apply Forall_cons in Hr as [Hq _].
    destruct (body_inj _ _ Hp Hq Hb) as (_ & En & _ & Ea & _). cbn [pk_nonce pk_address] in En, Ea. rewrite Ea, get_u16_u16 in Haa by done.
    rewrite (Hfresh ltac:(congruence)), Haa. done.
  - exfalso. symmetry in E. pose proof (bodies_inj _ _ Hok Hps E) as H2. apply Exists_exists in Hex as (q & Hq & Hbad). apply list_elem_of_lookup in Hq as [i Hi].
    destruct (Forall2_lookup_r _ _ _ _ _ H2 Hi) as (p & Hpi & Eb). rewrite Forall_lookup in Hok, Hps, Hchk. destruct (Hchk _ _ Hpi) as (H1 & H3 & _).
    destruct (body_inj p q (Hok _ _ Hpi) (Hps _ _ Hi) Eb) as (_ & _ & _ & _ & Er & Et). rewrite <- Er, <- Et in Hbad. by destruct Hbad.
Qed.

(** C17: What [rpmb_read] returns is what the device has.  Over any channel on
    which nobody but the device and the app can compute MACs, a read of blocks
    that reports success returns the device's current contents of exactly these
    blocks; otherwise it reports an error and returns nothing. *)
Theorem rpmb_read_authentic {C} (send : list rpmb_packet -> list rpmb_packet -> nat -> C -> Z * list rpmb_packet * C) rand hmac key store addr count s :
  unforgeable send hmac key store -> (forall m mac, hmac key m = Some mac -> length mac = 32%nat) -> 1 <= count < 2 ^ 16 ->
  exists ret buf s', rpmb_read send rand hmac key addr count s = Ret (ret, buf) s' /\
    ((ret = 0 /\ buf = seq 0 (Z.to_nat count) ≫= (fun i => store (rand (rs_chan s)).2 (addr + Z.of_nat i))) \/ (ret < 0 /\ buf = [])).
Proof.
  intros Hunf Hmac Hc. unfold rpmb_read, rpmb_nonce_init, exchange, mbind, M_bind. destruct (rand (rs_chan s)) as [nonce c] eqn:Er. cbn [rs_set_chan rs_chan snd].
  set (cmd := read_cmd nonce addr). destruct (send [] [cmd] (Z.to_nat count) c) as [[ret res] c'] eqn:Es. destruct (Hunf _ _ _ _ _ _ Es) as (Hlen & Hok & Hg).
  rewrite resize_all_alt by done. destruct (Z.ltb_spec ret 0); [by eexists ret, [], _; split; [done|right]|]. unfold rpmb_mac.
  destruct (hmac key (bodies res)) as [mac|] eqn:Em; [|by eexists (-1), [], _; split; [done|right]]. rewrite bool_decide_true by (by apply (Hmac (bodies res))).
  cbn [mret M_ret]. pose proof (check_response_nonpos RPMB_RESP_DATA_READ res (Some mac) (Some nonce) (Some addr)) as Hnp.
  destruct (Z.ltb_spec (rpmb_check_response RPMB_RESP_DATA_READ res (Some mac) (Some nonce) (Some addr)) 0) as [Hl|Hl]; [by eexists _, [], _; split; [done|right]|].
  destruct (check_response_inv RPMB_RESP_DATA_READ res (Some mac) (Some nonce) (Some addr)) as [H1 H2]; [lia|].
  eexists 0, _, _. split; [done|]. left. split; [done|]. assert (res <> []) as Hne by (intros ->; cbn in Hlen; lia).
  destruct (last res) as [p|] eqn:El; [|by apply last_None in El]. rewrite <- Hlen. apply (genuine_read_data _ nonce); [done..| |].
  - apply (Hg p eq_refl). by rewrite (H2 p mac eq_refl eq_refl).
  - eapply Forall_impl; [exact H1|]. intros q (? & ? & Hn & Ha). split; [done|]. split; [done|]. split; [by apply Hn|by apply Ha].
Qed.

(** ** The size of the partition *)

(** Whatever the state of the channel, the device has [n] blocks. *)
Definition has_blocks {C} (send : list rpmb_packet -> list rpmb_packet -> nat -> C -> Z * list rpmb_packet * C) rand hmac key (n : Z) : Prop :=
  forall b s, 0 <= b < 2 ^ 16 -> exists s', rpmb_check send rand hmac key b s = Ret (if b <? n then 0 else - ENOENT) s'.

Section search.
Context {C : Type} (send : list rpmb_packet -> list rpmb_packet -> nat -> C -> Z * list rpmb_packet * C) (rand : C -> list Z * C).
Context (hmac : list Z -> list Z -> option (list Z)) (key : list Z) (n : Z).
Context (Hdev : has_blocks send rand hmac key n) (Hn : 1 <= n <= 2 ^ 16).

Lemma u16_small v : 0 <= v < 2 ^ 16 -> u16 v = v.
Proof. apply Z.mod_small. Qed.

Lemma mid_range low high : 0 <= low <= high -> high < 2 ^ 16 -> low <= u16 (low + u32 (high - low) / 2) <= high.
Proof. intros Hl Hh. unfold u32. rewrite (Z.mod_small (high - low)) by lia. rewrite u16_small; Z.to_euclidean_division_equations; lia. Qed.

Lemma search_loop_ok fuel low high curr hint s : 0 <= low <= n -> n <= high + 1 -> high < 2 ^ 16 -> (low <= high -> low <= curr <= high) ->
  high + 1 - low < Z.of_nat fuel -> exists s', search_loop send rand hmac key fuel low high curr hint s = Ret n s'.
Proof.
  revert low high curr hint s. induction fuel as [|fuel IH]; intros low high curr hint s Hl Hh Hm Hc Hf; [lia|]. cbn [search_loop].
  destruct (Z.leb_spec low high) as [Hlh|Hlh]; cbn [negb].
  2:{ assert (high + 1 = low /\ low = n) as [E ->] by lia. unfold assert_. rewrite (proj2 (Z.eqb_eq _ _) E). by exists s. }
  destruct (Hc Hlh) as [Hc1 Hc2]. destruct (Hdev curr s) as (s1 & E1); [lia|]. rewrite (run_bind _ _ _ _ _ E1). destruct (Z.ltb_spec curr n) as [Hcn|Hcn].
  - cbn [Z.eqb negb orb]. destruct (negb (curr =? hint)); apply IH; try lia.
    + intros H. pose proof (mid_range (curr + 1) high). lia.
    + intros H. rewrite u16_small; lia.
  - assert (u16 (curr - 1) = curr - 1) as Eu by (apply u16_small; lia). cbn [ENOENT Z.opp Z.eqb Pos.eqb negb orb]. rewrite Eu. apply IH; try lia.
    intros H. pose proof (mid_range low (curr - 1)). lia.
Qed.
End search.

(** C29: The search finds the size.  For a device of 1 to 65536 blocks and any hint,
    [rpmb_search_size] ends with the number of blocks, without failing its
    assertion. *)
Theorem rpmb_search_size_finds {C} (send : list rpmb_packet -> list rpmb_packet -> nat -> C -> Z * list rpmb_packet * C) rand hmac key n hint s :
  has_blocks send rand hmac key n -> 1 <= n <= 2 ^ 16 -> 0 <= hint < 2 ^ 16 ->
  exists s', rpmb_search_size send rand hmac key (Z.to_nat (2 ^ 16 + 1)) hint s = Ret n s'.
Proof.
  intros Hdev Hn Hh. unfold rpmb_search_size. change (u16 (Z.lnot 0)) with (2 ^ 16 - 1). apply (search_loop_ok send rand hmac key n Hdev Hn); try lia.
  intros _. pose proof (Z.mod_pos_bound (hint - 1) (2 ^ 16) ltac:(lia)). unfold u16. lia.
Qed.

(** A device without blocks, or a channel that says so: the search does not end,
    since the bound below block 0 wraps to the last block. *)
Lemma search_loop_empty {C} (send : list rpmb_packet -> list rpmb_packet -> nat -> C -> Z * list rpmb_packet * C) rand hmac key fuel high curr hint s :
  has_blocks send rand hmac key 0 -> 0 <= high < 2 ^ 16 -> 0 <= curr <= high -> search_loop send rand hmac key fuel 0 high curr hint s = Fault OutOfFuel.
Proof.
  intros Hdev. revert high curr hint s. induction fuel as [|fuel IH]; intros high curr hint s Hh Hc; cbn [search_loop]; [done|].
  destruct (Z.leb_spec 0 high); [|lia]. cbn [negb]. destruct (Hdev curr s) as (s1 & E1); [lia|]. rewrite (run_bind _ _ _ _ _ E1). destruct (Z.ltb_spec curr 0); [lia|].
  cbn [ENOENT Z.opp Z.eqb Pos.eqb negb orb]. pose proof (Z.mod_pos_bound (curr - 1) (2 ^ 16) ltac:(lia)) as Hb. fold (u16 (curr - 1)) in Hb.
  apply IH; [done|]. apply mid_range; lia.
Qed.

Theorem rpmb_search_empty_hangs {C} (send : list rpmb_packet -> list rpmb_packet -> nat -> C -> Z * list rpmb_packet * C) rand hmac key fuel hint s :
  has_blocks send rand hmac key 0 -> rpmb_search_size send rand hmac key fuel hint s = Fault OutOfFuel.
Proof.
  intros Hdev. unfold rpmb_search_size. change (u16 (Z.lnot 0)) with (2 ^ 16 - 1). pose proof (Z.mod_pos_bound (hint - 1) (2 ^ 16) ltac:(lia)) as Hb.
  apply search_loop_empty; [done|lia|]. unfold u16. lia.
Qed.

(** ** Over a device that answers *)

(** The MAC is in the last packet. *)
Definition sign (hmac : list Z -> list Z -> option (list Z)) (key : list Z) (ps : list rpmb_packet) : list rpmb_packet :=
  match hmac key (bodies ps) with
  | Some mac => alter (set_key_mac mac) (length ps - 1)%nat ps
  | None => ps
  end.

Definition counter_response (nonce : list Z) (k : Z) : rpmb_packet :=
  Packet (pk_pad zero_packet) (pk_key_mac zero_packet) (pk_data zero_packet) nonce (rpmb_u32 k)
    (pk_address zero_packet) (pk_block_count zero_packet) (rpmb_u16 RPMB_RES_OK) (rpmb_u16 RPMB_RESP_GET_COUNTER).
Definition write_response (addr k : Z) : rpmb_packet :=
  Packet (pk_pad zero_packet) (pk_key_mac zero_packet) (pk_data zero_packet) (pk_nonce zero_packet) (rpmb_u32 k)
    (rpmb_u16 addr) (pk_block_count zero_packet) (rpmb_u16 RPMB_RES_OK) (rpmb_u16 RPMB_RESP_DATA_WRITE).

(** Blocks [a] to [a + count - 1] replaced by the contents of [buf]. *)
Definition overwrite (store : Z -> list Z) (a : Z) (count : nat) (buf : list Z) (x : Z) : list Z :=
  if (a <=? x) && (x <? a + Z.of_nat count) then take 256 (drop (Z.to_nat (x - a) * 256) buf) else store x.

(** A device behind a channel that delivers: what the eMMC standard says of reads,
    counter requests and authenticated writes. *)
Record rpmb_device {C} (send : list rpmb_packet -> list rpmb_packet -> nat -> C -> Z * list rpmb_packet * C) (rand : C -> list Z * C)
    (hmac : list Z -> list Z -> option (list Z)) (key : list Z) (store : C -> Z -> list Z) (counter : C -> Z) : Prop := {
  dv_hmac : forall m, exists mac, hmac key m = Some mac /\ length mac = 32%nat;
  dv_rand : forall c, length (rand c).1 = 16%nat /\ store (rand c).2 = store c /\ counter (rand c).2 = counter c;
  dv_read : forall nonce addr n c, length nonce = 16%nat -> 0 <= addr < 2 ^ 16 -> Z.of_nat n < 2 ^ 16 ->
    send [] [read_cmd nonce addr] n c = (0, sign hmac key (read_response (store c) nonce addr n), c);
  dv_counter : forall nonce c, length nonce = 16%nat ->
    send [] [counter_cmd nonce] 1%nat c = (0, sign hmac key [counter_response nonce (counter c)], c);
  dv_write : forall a count buf c, 0 <= a < 2 ^ 16 -> 1 <= count < 2 ^ 16 -> length buf = (Z.to_nat count * 256)%nat -> 0 <= counter c < 2 ^ 32 - 1 ->
    exists c', send (sign hmac key (write_cmds (counter c) a count buf)) [result_cmd] 1%nat c = (0, sign hmac key [write_response a (counter c + 1)], c') /\
      counter c' = counter c + 1 /\ forall x, store c' x = overwrite (store c) a (Z.to_nat count) buf x;
}.

Lemma bodies_alter_mac mac i ps : bodies (alter (set_key_mac mac) i ps) = bodies ps.
Proof.
  revert i. induction ps as [|p ps IH]; intros i; [done|]. destruct i as [|i]; [done|]. unfold bodies in *. cbn. f_equal. apply IH.
Qed.

Lemma sign_length hmac key ps : length (sign hmac key ps) = length ps.
Proof. unfold sign. destruct (hmac key (bodies ps)); [by rewrite length_alter|done]. Qed.

Lemma sign_bodies hmac key ps : bodies (sign hmac key ps) = bodies ps.
Proof. unfold sign. destruct (hmac key (bodies ps)); [by rewrite bodies_alter_mac|done]. Qed.

(** Signed responses of the right kind pass. *)
Lemma check_signed hmac key ty res mac nonce addrp : hmac key (bodies res) = Some mac -> 
  Forall (fun p => rpmb_get_u16 (pk_req_resp p) = ty /\ rpmb_get_u16 (pk_result p) = RPMB_RES_OK /\
    (forall n, nonce = Some n -> pk_nonce p = n) /\ (forall a, addrp = Some a -> rpmb_get_u16 (pk_address p) = a)) res ->
  rpmb_check_response ty (sign hmac key res) (Some mac) nonce addrp = 0.
Proof.
  intros Em. unfold sign. rewrite Em. clear Em. induction res as [|p res IH]; intros Hf; [done|]. apply Forall_cons in Hf as [(H1 & H2 & H3 & H4) Hf].
  assert (forall q res', pk_req_resp q = pk_req_resp p -> pk_result q = pk_result p -> pk_nonce q = pk_nonce p -> pk_address q = pk_address p ->
    (res' = [] -> pk_key_mac q = mac) -> rpmb_check_response ty (q :: res') (Some mac) nonce addrp = rpmb_check_response ty res' (Some mac) nonce addrp) as Hstep.
  { intros q res' E1 E2 E3 E4 Hm. cbn [rpmb_check_response]. rewrite E1, E2, E3, E4, H1, H2, !Z.eqb_refl. cbn [negb].
    assert (bool_decide (res' = []) && negb (bool_decide (pk_key_mac q = mac)) = false) as ->.
    { destruct (decide (res' = [])) as [->|]; [|by rewrite bool_decide_false]. rewrite (bool_decide_true (pk_key_mac q = mac)) by auto. by rewrite andb_false_r. }
    destruct nonce as [n|]; [rewrite (bool_decide_true (pk_nonce p = n)) by auto|]; cbn [negb]; (destruct addrp as [a|]; [rewrite (H4 a eq_refl), Z.eqb_refl|]); done. }
  destruct res as [|r res].
  - change (alter (set_key_mac mac) (length [p] - 1)%nat [p]) with [set_key_mac mac p]. by rewrite (Hstep (set_key_mac mac p) []).
  - replace (length (p :: r :: res) - 1)%nat with (S (length (r :: res) - 1)) by (cbn; lia).
    change (alter (set_key_mac mac) (S (length (r :: res) - 1)) (p :: r :: res)) with (p :: alter (set_key_mac mac) (length (r :: res) - 1)%nat (r :: res)). rewrite (Hstep p); [by apply IH|done..|].
    intros E. apply (f_equal length) in E. rewrite length_alter in E. done.
Qed.

Section device.
Context {C : Type} (send : list rpmb_packet -> list rpmb_packet -> nat -> C -> Z * list rpmb_packet * C) (rand : C -> list Z * C).
Context (hmac : list Z -> list Z -> option (list Z)) (key : list Z) (store : C -> Z -> list Z) (counter : C -> Z).
Context (Hd : rpmb_device send rand hmac key store counter).

Lemma mac_signed ps (s : @rpmb_state C) : exists mac, hmac key (bodies ps) = Some mac /\ rpmb_mac hmac key (sign hmac key ps) s = Ret (Some mac) s.
Proof.
  destruct (dv_hmac _ _ _ _ _ _ Hd (bodies ps)) as (mac & Em & Hl). exists mac. split; [done|]. unfold rpmb_mac. rewrite sign_bodies, Em. by rewrite bool_decide_true.
Qed.

Lemma nonce_run (s : @rpmb_state C) : exists n s', rpmb_nonce_init rand s = Ret n s' /\ length n = 16%nat /\ rs_write_counter s' = rs_write_counter s /\
  store (rs_chan s') = store (rs_chan s) /\ counter (rs_chan s') = counter (rs_chan s).
Proof.
  unfold rpmb_nonce_init. pose proof (dv_rand _ _ _ _ _ _ Hd (rs_chan s)) as (Hl & Hs & Hk). destruct (rand (rs_chan s)) as [n c]. by exists n, (rs_set_chan c s).
Qed.

Lemma rpmb_read_runs addr count (s : @rpmb_state C) : 0 <= addr < 2 ^ 16 -> 0 <= count < 2 ^ 16 ->
  exists s', rpmb_read send rand hmac key addr count s = Ret (0, seq 0 (Z.to_nat count) ≫= (fun i => store (rs_chan s) (addr + Z.of_nat i))) s' /\
    rs_write_counter s' = rs_write_counter s /\ store (rs_chan s') = store (rs_chan s) /\ counter (rs_chan s') = counter (rs_chan s).
Proof.
  intros Ha Hc. destruct (nonce_run s) as (n & s1 & E1 & Hn & Ek & Es & Ecn). unfold rpmb_read. rewrite (run_bind _ _ _ _ _ E1). set (cmd := read_cmd n addr).
  set (res := read_response (store (rs_chan s)) n addr (Z.to_nat count)).
  assert (exchange send [] [cmd] (Z.to_nat count) s1 = Ret (0, sign hmac key res) (RState (rs_write_counter s1) (rs_chan s1) (([], [cmd]) :: rs_sent s1))) as E2.
  { unfold exchange. unfold cmd. rewrite (dv_read _ _ _ _ _ _ Hd n addr (Z.to_nat count) (rs_chan s1) Hn Ha ltac:(lia)), Es. fold res cmd.
    rewrite resize_all_alt; [done|]. rewrite sign_length. unfold res, read_response. by rewrite length_fmap, length_seq. }
  rewrite (run_bind _ _ _ _ _ E2). set (s2 := RState _ _ _). destruct (mac_signed res s2) as (mac & Em & E3). cbn [Z.ltb Z.compare]. rewrite (run_bind _ _ _ _ _ E3).
  rewrite check_signed; [|done|].
  - exists s2. split; [|done]. cbn. do 2 f_equal. unfold sign. rewrite Em. rewrite <- (read_response_data (store (rs_chan s)) n addr). fold res.
    clear. generalize (length res - 1)%nat. induction res as [|p ps IH]; intros i; [done|]. destruct i; cbn; [done|]. f_equal. apply IH.
  - unfold res, read_response. apply Forall_fmap, Forall_true. intros i. cbn. split; [done|]. split; [done|]. split; [by intros ? [= <-]|].
    intros ? [= <-]. by apply get_u16_u16.
Qed.

Lemma rpmb_read_counter_runs (s : @rpmb_state C) : 0 <= counter (rs_chan s) < 2 ^ 32 ->
  exists s', rpmb_read_counter send rand hmac key s = Ret 0 s' /\ rs_write_counter s' = counter (rs_chan s) /\ store (rs_chan s') = store (rs_chan s) /\ counter (rs_chan s') = counter (rs_chan s).
Proof.
  intros Hk. destruct (nonce_run s) as (n & s1 & E1 & Hn & Ek & Es & Ecn). unfold rpmb_read_counter. rewrite (run_bind _ _ _ _ _ E1). set (cmd := counter_cmd n).
  set (r := counter_response n (counter (rs_chan s))).
  assert (exchange send [] [cmd] 1 s1 = Ret (0, sign hmac key [r]) (RState (rs_write_counter s1) (rs_chan s1) (([], [cmd]) :: rs_sent s1))) as E2.
  { unfold exchange. unfold cmd. rewrite (dv_counter _ _ _ _ _ _ Hd n (rs_chan s1) Hn), Ecn. fold r cmd. by rewrite resize_all_alt by (by rewrite sign_length). }
  rewrite (run_bind _ _ _ _ _ E2). set (s2 := RState _ _ _). destruct (mac_signed [r] s2) as (mac & Em & E3). cbn [Z.ltb Z.compare]. rewrite (run_bind _ _ _ _ _ E3).
  rewrite (check_signed hmac key RPMB_RESP_GET_COUNTER [r] mac (Some n) None Em) by (repeat constructor; by intros ? [= <-]).
  unfold sign. rewrite Em. cbn [length Nat.sub]. change (alter (set_key_mac mac) 0%nat [r]) with [set_key_mac mac r]. cbn [lookup list_lookup]. erewrite run_bind by reflexivity. erewrite run_bind by reflexivity.
  eexists. split; [done|]. cbn. split; [by apply get_u32_u32|done].
Qed.

Lemma write_cmds_length k a count buf : length (write_cmds k a count buf) = Z.to_nat count.
Proof. unfold write_cmds. by rewrite length_fmap, length_seq. Qed.

Lemma rpmb_write_data_runs buf addr count (s : @rpmb_state C) : rs_write_counter s = counter (rs_chan s) -> 0 <= counter (rs_chan s) < 2 ^ 32 - 1 -> 0 <= addr < 2 ^ 16 -> 1 <= count < 2 ^ 16 -> length buf = (Z.to_nat count * 256)%nat ->
  exists s', rpmb_write_data send hmac key buf addr count s = Ret 0 s' /\ rs_write_counter s' = counter (rs_chan s') /\ counter (rs_chan s') = counter (rs_chan s) + 1 /\
    forall x, store (rs_chan s') x = overwrite (store (rs_chan s)) addr (Z.to_nat count) buf x.
Proof.
  intros Ek Hk Ha Hc Hbuf. unfold rpmb_write_data. erewrite run_bind by reflexivity. rewrite Ek. set (cmd := write_cmds _ _ _ _).
  assert (length cmd = Z.to_nat count) as Hl by apply write_cmds_length. destruct (cmd !! (Z.to_nat count - 1)%nat) as [p|] eqn:Ep; [|apply lookup_ge_None in Ep; lia].
  erewrite run_bind by reflexivity. destruct (dv_hmac _ _ _ _ _ _ Hd (bodies cmd)) as (mac & Em & Hm). 
  assert (rpmb_mac hmac key cmd s = Ret (Some mac) s) as Emac by (unfold rpmb_mac; rewrite Em; by rewrite bool_decide_true). rewrite (run_bind _ _ _ _ _ Emac).
  assert (alter (set_key_mac mac) (Z.to_nat count - 1)%nat cmd = sign hmac key cmd) as -> by (unfold sign; by rewrite Em, Hl).
  destruct (dv_write _ _ _ _ _ _ Hd addr count buf (rs_chan s) Ha Hc Hbuf Hk) as (c' & Es & Ek' & Hst). set (r := write_response addr (counter (rs_chan s) + 1)) in *.
  assert (exchange send (sign hmac key cmd) [result_cmd] 1 s = Ret (0, sign hmac key [r]) (RState (rs_write_counter s) c' ((sign hmac key cmd, [result_cmd]) :: rs_sent s))) as E2.
  { unfold exchange. unfold cmd. rewrite Es. by rewrite resize_all_alt by (by rewrite sign_length). }
  rewrite (run_bind _ _ _ _ _ E2). set (s2 := RState _ _ _). destruct (mac_signed [r] s2) as (mac2 & Em2 & E3). cbn [Z.ltb Z.compare]. rewrite (run_bind _ _ _ _ _ E3).
  rewrite (check_signed hmac key RPMB_RESP_DATA_WRITE [r] mac2 None (Some addr) Em2).
  2:{ repeat constructor; [done|]. intros ? [= <-]. cbn. by apply get_u16_u16. }
  unfold sign at 1. rewrite Em2. change (alter (set_key_mac mac2) (length [r] - 1)%nat [r]) with [set_key_mac mac2 r]. cbn [lookup list_lookup].
  erewrite run_bind by reflexivity. cbn [Z.ltb Z.compare]. erewrite run_bind by reflexivity.
  eexists. split; [done|]. cbn. rewrite Ek'. split; [|done]. rewrite Ek. unfold u32. apply Z.mod_small. lia.
Qed.

(** A write from a state whose counter is not known or in step. *)
Lemma rpmb_write_runs buf addr count (s : @rpmb_state C) : rs_write_counter s = 0 \/ rs_write_counter s = counter (rs_chan s) -> 0 <= counter (rs_chan s) < 2 ^ 32 - 1 ->
  0 <= addr < 2 ^ 16 -> 1 <= count < 2 ^ 16 -> length buf = (Z.to_nat count * 256)%nat ->
  exists s', rpmb_write send rand hmac key buf addr count s = Ret 0 s' /\ rs_write_counter s' = counter (rs_chan s') /\ counter (rs_chan s') = counter (rs_chan s) + 1 /\
    forall x, store (rs_chan s') x = overwrite (store (rs_chan s)) addr (Z.to_nat count) buf x.
Proof.
  intros Hs Hk Ha Hc Hl.
  assert (exists s0, (if rs_write_counter s =? 0 then rpmb_read_counter send rand hmac key else mret 0) s = Ret 0 s0 /\
    rs_write_counter s0 = counter (rs_chan s0) /\ store (rs_chan s0) = store (rs_chan s) /\ counter (rs_chan s0) = counter (rs_chan s)) as (s0 & E0 & Ek0 & Es0 & Ec0).
  { destruct (Z.eqb_spec (rs_write_counter s) 0) as [E|E]; [|exists s; split; [done|]; split; [lia|done]].
    destruct (rpmb_read_counter_runs s) as (s0 & E0 & Ek & Es & Ec); [lia|]. exists s0. split; [done|]. by rewrite Ek, Ec. }
  destruct (rpmb_write_data_runs buf addr count s0) as (s1 & E1 & Ek1 & Ec1 & Hst); [done|by rewrite Ec0|done..|].
  exists s1. split; [unfold rpmb_write; erewrite run_bind by reflexivity; by rewrite (run_bind _ _ _ _ _ E0)|]. split; [done|]. split; [congruence|].
  intros x. by rewrite Hst, Es0.
Qed.

Lemma overwrite_blocks st a count buf : length buf = (count * 256)%nat -> seq 0 count ≫= (fun i => overwrite st a count buf (a + Z.of_nat i)) = buf.
Proof.
  intros Hl. assert (forall k n, (k + n = count)%nat -> seq k n ≫= (fun i => overwrite st a count buf (a + Z.of_nat i)) = drop (k * 256) buf) as H; [|by apply (H 0%nat count)].
  intros k n. revert k. induction n as [|n IH]; intros k Hk; cbn [seq mbind list_bind]; [by rewrite drop_ge by lia|].
  rewrite (IH (S k)) by lia. unfold overwrite. destruct (Z.leb_spec a (a + Z.of_nat k)); [|lia]. destruct (Z.ltb_spec (a + Z.of_nat k) (a + Z.of_nat count)); [|lia]. cbn [andb].
  replace (Z.to_nat (a + Z.of_nat k - a)) with k by lia. rewrite <- (take_drop 256 (drop (k * 256) buf)) at 2. by rewrite drop_drop, Nat.mul_succ_l.
Qed.
End device.

(** What is written is read back.  Over a device that answers, a write from a
    state whose counter is not yet known or in step returns 0 and leaves the
    counter in step; a read of the same blocks then returns what was written, and
    the other blocks are as before. *)
Theorem rpmb_write_read {C} (send : list rpmb_packet -> list rpmb_packet -> nat -> C -> Z * list rpmb_packet * C) rand hmac key store counter buf addr count s :
  rpmb_device send rand hmac key store counter -> rs_write_counter s = 0 \/ rs_write_counter s = counter (rs_chan s) -> 0 <= counter (rs_chan s) < 2 ^ 32 - 1 ->
  0 <= addr < 2 ^ 16 -> 1 <= count < 2 ^ 16 -> length buf = (Z.to_nat count * 256)%nat ->
  exists s1 s2, rpmb_write send rand hmac key buf addr count s = Ret 0 s1 /\ rs_write_counter s1 = counter (rs_chan s1) /\
    (forall x, x < addr \/ addr + count <= x -> store (rs_chan s1) x = store (rs_chan s) x) /\
    rpmb_read send rand hmac key addr count s1 = Ret (0, buf) s2.
Proof.
  intros Hd Hs Hk Ha Hc Hl. destruct (rpmb_write_runs send rand hmac key store counter Hd buf addr count s Hs Hk Ha Hc Hl) as (s1 & E1 & Ek1 & _ & Hst).
  destruct (rpmb_read_runs send rand hmac key store counter Hd addr count s1) as (s2 & E2 & _); [done|lia|]. exists s1, s2.
  split; [done|]. split; [done|]. split.
  - intros x Hx. rewrite Hst. unfold overwrite. destruct (Z.leb_spec addr x), (Z.ltb_spec x (addr + Z.of_nat (Z.to_nat count))); (done || lia).
  - rewrite E2. do 2 f_equal. etransitivity; [|exact (overwrite_blocks (store (rs_chan s)) addr (Z.to_nat count) buf Hl)]. apply list_bind_ext; [|done]. intros i. by rewrite Hst.
Qed.

(** ** What the checks leave open *)

(** The result of a write is not tied to the write: a channel that delivers nothing
    and always answers with one genuine result for the address makes every write
    to it succeed. *)
Theorem rpmb_write_accepts_old_result {C} (send : list rpmb_packet -> list rpmb_packet -> nat -> C -> Z * list rpmb_packet * C) hmac key p buf addr count s :
  (forall rel wr n c, send rel wr n c = (0, [p], c)) -> (forall m, exists mac, hmac key m = Some mac /\ length mac = 32%nat) -> 1 <= count ->
  hmac key (bodies [p]) = Some (pk_key_mac p) -> rpmb_get_u16 (pk_req_resp p) = RPMB_RESP_DATA_WRITE -> rpmb_get_u16 (pk_result p) = RPMB_RES_OK ->
  rpmb_get_u16 (pk_address p) = addr ->
  exists s', rpmb_write_data send hmac key buf addr count s = Ret 0 s' /\ rs_chan s' = rs_chan s.
Proof.
  intros Hs Hh Hc Em Ht Hr Ha. unfold rpmb_write_data. erewrite run_bind by reflexivity. set (cmd := write_cmds _ _ _ _).
  assert (length cmd = Z.to_nat count) as Hl by (unfold cmd, write_cmds; by rewrite length_fmap, length_seq). destruct (cmd !! (Z.to_nat count - 1)%nat) as [q|] eqn:Eq; [|apply lookup_ge_None in Eq; lia].
  erewrite run_bind by reflexivity. destruct (Hh (bodies cmd)) as (mac & Emc & Hm).
  assert (rpmb_mac hmac key cmd s = Ret (Some mac) s) as Emac by (unfold rpmb_mac; rewrite Emc; by rewrite bool_decide_true). rewrite (run_bind _ _ _ _ _ Emac).
  erewrite run_bind by (unfold exchange; by rewrite Hs). cbn [Z.ltb Z.compare]. destruct (Hh (bodies [p])) as (mac2 & Emc2 & Hm2). rewrite Em in Emc2. injection Emc2 as <-.
  change (resize 1 zero_packet [p]) with [p]. set (s2 := RState _ _ _).
  assert (rpmb_mac hmac key [p] s2 = Ret (Some (pk_key_mac p)) s2) as Emac2 by (unfold rpmb_mac; rewrite Em; by rewrite bool_decide_true). rewrite (run_bind _ _ _ _ _ Emac2).
  erewrite run_bind by reflexivity. cbn [rpmb_check_response]. rewrite Ht, Hr, Ha, Z.eqb_refl, (bool_decide_true (pk_key_mac p = pk_key_mac p)) by done.
  cbn. rewrite Z.eqb_refl. cbn. eexists. by split.
Qed.

(** The counter is taken from a response before the response is checked: the call
    fails, but the next write is signed with the counter the channel chose. *)
Theorem rpmb_counter_unchecked {C} (send : list rpmb_packet -> list rpmb_packet -> nat -> C -> Z * list rpmb_packet * C) rand hmac key p k buf addr count s mac0 mac1 :
  (forall rel wr n c, send rel wr n c = (0, [p], c)) -> pk_write_counter p = rpmb_u32 k -> 0 < k < 2 ^ 32 -> rpmb_get_u16 (pk_req_resp p) <> RPMB_RESP_GET_COUNTER ->
  hmac key (bodies [p]) = Some mac0 -> length mac0 = 32%nat -> hmac key (bodies (write_cmds k addr count buf)) = Some mac1 -> length mac1 = 32%nat ->
  rs_write_counter s = 0 -> 1 <= count ->
  exists s1, rpmb_write send rand hmac key buf addr count s = Ret (-1) s1 /\
    match rpmb_write send rand hmac key buf addr count s1 with
    | Ret _ s2 => head (rs_sent s2) = Some (sign hmac key (write_cmds k addr count buf), [result_cmd])
    | Fault _ => False
    end.
Proof.
  intros Hs Hk Hkr Ht Em0 Hl0 Em1 Hl1 H0 Hc. 
  assert (forall s2 : @rpmb_state C, rpmb_mac hmac key [p] s2 = Ret (Some mac0) s2) as Emac by (intros s2; unfold rpmb_mac; rewrite Em0; by rewrite bool_decide_true).
  assert (exists s1, rpmb_read_counter send rand hmac key s = Ret (-1) s1 /\ rs_write_counter s1 = k) as (s1 & E1 & Ek1).
  { unfold rpmb_read_counter, rpmb_nonce_init. unfold mbind at 1, M_bind at 1. destruct (rand (rs_chan s)) as [n c]. erewrite run_bind by (unfold exchange; by rewrite Hs).
    change (resize 1 zero_packet [p]) with [p]. cbn [Z.ltb Z.compare]. rewrite (run_bind _ _ _ _ _ (Emac _)). erewrite run_bind by reflexivity. erewrite run_bind by reflexivity.
    cbn [rpmb_check_response]. destruct (Z.eqb_spec (rpmb_get_u16 (pk_req_resp p)) RPMB_RESP_GET_COUNTER); [done|]. eexists. split; [done|]. cbn. rewrite Hk. apply get_u32_u32. lia. }
  exists s1. split; [unfold rpmb_write; erewrite run_bind by reflexivity; rewrite H0; cbn [Z.eqb]; by rewrite (run_bind _ _ _ _ _ E1)|].
  unfold rpmb_write. erewrite run_bind by reflexivity. rewrite Ek1. destruct (Z.eqb_spec k 0); [lia|]. erewrite run_bind by reflexivity. cbn [Z.ltb Z.compare].
  unfold rpmb_write_data. erewrite run_bind by reflexivity. rewrite Ek1. set (cmd := write_cmds k addr count buf) in *.
  assert (length cmd = Z.to_nat count) as Hl by (unfold cmd, write_cmds; by rewrite length_fmap, length_seq). destruct (cmd !! (Z.to_nat count - 1)%nat) as [q|] eqn:Eq; [|apply lookup_ge_None in Eq; lia].
  erewrite run_bind by reflexivity.
  assert (rpmb_mac hmac key cmd s1 = Ret (Some mac1) s1) as Em by (unfold rpmb_mac; rewrite Em1; by rewrite bool_decide_true). rewrite (run_bind _ _ _ _ _ Em).
  erewrite run_bind by (unfold exchange; by rewrite Hs). change (resize 1 zero_packet [p]) with [p]. cbn [Z.ltb Z.compare]. rewrite (run_bind _ _ _ _ _ (Emac _)). erewrite run_bind by reflexivity.
  assert (alter (set_key_mac mac1) (Z.to_nat count - 1)%nat cmd = sign hmac key cmd) as -> by (unfold sign; by rewrite Em1, Hl).
  destruct (_ <? 0); [|done]. unfold when. destruct (_ =? RPMB_RES_COUNT_FAILURE); done.
Qed.

(** ** A device *)

Record demo_dev := DemoDev { dd_blocks : Z -> list Z; dd_counter : Z }.

Definition demo_store (c : demo_dev) (a : Z) : list Z := resize 256 0 (dd_blocks c a).
Definition demo_mac (m : list Z) : list Z := replicate 32 (foldl (fun h b => (31 * h + b) mod 256) 7 m).
Definition demo_hmac (key m : list Z) : option (list Z) := Some (demo_mac (key ++ m)).
Definition demo_key : list Z := replicate 32 5.
Definition demo_rand (c : demo_dev) : list Z * demo_dev := (replicate 16 (dd_counter c mod 256), c).

Definition addr_failure (nonce : list Z) (addr : Z) : rpmb_packet :=
  Packet (pk_pad zero_packet) (pk_key_mac zero_packet) (pk_data zero_packet) nonce (pk_write_counter zero_packet)
    (rpmb_u16 addr) (pk_block_count zero_packet) (rpmb_u16 RPMB_RES_ADDR_FAILURE) (rpmb_u16 RPMB_RESP_DATA_READ).

(** A device of [size] blocks behind a channel that delivers. *)
Definition demo_send (size : Z) (rel wr : list rpmb_packet) (n : nat) (c : demo_dev) : Z * list rpmb_packet * demo_dev :=
  match rel, wr with
  | [], [cmd] =>
      let nonce := resize 16 0 (pk_nonce cmd) in
      let a := rpmb_get_u16 (pk_address cmd) in
      if bool_decide (pk_req_resp cmd = rpmb_u16 RPMB_REQ_DATA_READ) then
        if a <? size then (0, sign demo_hmac demo_key (read_response (demo_store c) nonce a n), c)
        else (0, sign demo_hmac demo_key (replicate n (addr_failure nonce a)), c)
      else (0, sign demo_hmac demo_key (replicate n (counter_response nonce (dd_counter c))), c)
  | p :: _, _ =>
      let a := rpmb_get_u16 (pk_address p) in
      if rpmb_get_u32 (pk_write_counter p) =? dd_counter c
      then (0, sign demo_hmac demo_key (replicate n (write_response a (dd_counter c + 1))), DemoDev (overwrite (demo_store c) a (length rel) (rel ≫= pk_data)) (dd_counter c + 1))
      else (-1, replicate n zero_packet, c)
  | _, _ => (-1, replicate n zero_packet, c)
  end.

Lemma demo_store_ok c : store_ok (demo_store c).
Proof. intros a. apply length_resize. Qed.

Lemma set_key_mac_ok m p : packet_ok p -> packet_ok (set_key_mac m p).
Proof. done. Qed.

Lemma sign_ok hmac key ps : Forall packet_ok ps -> Forall packet_ok (sign hmac key ps).
Proof.
  intros H. unfold sign. destruct (hmac key (bodies ps)); [|done]. generalize (length ps - 1)%nat. induction H as [|p ps Hp Hps IH]; intros i; [done|].
  destruct i; cbn; constructor; [done..|apply IH].
Qed.

Lemma demo_unforgeable size : unforgeable (demo_send size) demo_hmac demo_key demo_store.
Proof.
  intros cmd n c ret res c'. unfold demo_send. set (nonce := resize 16 0 (pk_nonce cmd)). set (a := rpmb_get_u16 (pk_address cmd)).
  assert (forall ps : list rpmb_packet, length ps = n -> Forall packet_ok ps -> (ps <> [] -> genuine (demo_store c) (pk_nonce cmd) (bodies ps)) ->
    (0, sign demo_hmac demo_key ps, c) = (ret, res, c') -> length res = n /\ Forall packet_ok res /\
    forall p, last res = Some p -> demo_hmac demo_key (bodies res) = Some (pk_key_mac p) -> genuine (demo_store c) (pk_nonce cmd) (bodies res)) as H.
  { intros ps Hl Hok Hg [= <- <- <-]. split; [by rewrite sign_length|]. split; [by apply sign_ok|]. intros p Hp _. rewrite sign_bodies. apply Hg. intros ->. done. }
  assert (forall q, packet_ok q -> rpmb_get_u16 (pk_req_resp q) <> RPMB_RESP_DATA_READ \/ rpmb_get_u16 (pk_result q) <> RPMB_RES_OK ->
    replicate n q <> [] -> genuine (demo_store c) (pk_nonce cmd) (bodies (replicate n q))) as Hother.
  { intros q Hq Hbad Hne. apply genuine_other; [by apply Forall_replicate|]. destruct n; [done|]. by left. }
  assert (length nonce = 16%nat) as Hn by apply length_resize.
  destruct (bool_decide _); [destruct (a <? size)|]; apply H; try apply length_replicate; try (apply Forall_replicate; by split_and!).
  - unfold read_response. by rewrite length_fmap, length_seq.
  - apply read_response_ok; [apply demo_store_ok|done].
  - intros _. apply genuine_read; [apply demo_store_ok|done|apply get_u16_bounds|done].
  - apply Hother; [by split_and!|]. right. done.
  - apply Hother; [by split_and!|]. left. done.
Qed.

Lemma demo_hmac_size m mac : demo_hmac demo_key m = Some mac -> length mac = 32%nat.
Proof. intros H. apply Some_inj in H. rewrite <- H. apply length_replicate. Qed.

Definition demo_rpmb : @rpmb_state demo_dev := RState 0 (DemoDev (fun a => replicate 256 (a mod 256)) 41) [].

Lemma rpmb_read_authentic_witness :
  exists ret buf s', rpmb_read (demo_send 65536) demo_rand demo_hmac demo_key 7 2 demo_rpmb = Ret (ret, buf) s' /\
    ((ret = 0 /\ buf = seq 0 (Z.to_nat 2) ≫= (fun i => demo_store (demo_rand (rs_chan demo_rpmb)).2 (7 + Z.of_nat i))) \/ (ret < 0 /\ buf = [])).
Proof. exact (rpmb_read_authentic (demo_send 65536) demo_rand demo_hmac demo_key demo_store 7 2 demo_rpmb (demo_unforgeable 65536) demo_hmac_size ltac:(lia)). Defined.

Lemma write_cmds_data k a count buf : length buf = (Z.to_nat count * 256)%nat -> write_cmds k a count buf ≫= pk_data = buf.
Proof.
  intros Hl. etransitivity; [|exact (overwrite_blocks (fun _ => []) 0 (Z.to_nat count) buf Hl)]. unfold write_cmds. rewrite list_fmap_bind.
  assert (forall l : list nat, Forall (fun i => (i < Z.to_nat count)%nat) l -> (l ≫= (fun i => take 256 (drop (i * 256) buf))) = l ≫= (fun i => overwrite (fun _ => []) 0 (Z.to_nat count) buf (0 + Z.of_nat i))) as H.
  { intros l Hf. induction Hf as [|i l Hi _ IH]; [done|]. cbn [mbind list_bind]. rewrite IH. f_equal. unfold overwrite. destruct (Z.leb_spec 0 (0 + Z.of_nat i)); [|lia].
    destruct (Z.ltb_spec (0 + Z.of_nat i) (0 + Z.of_nat (Z.to_nat count))); [|lia]. cbn [andb]. by replace (Z.to_nat (0 + Z.of_nat i - 0)) with i by lia. }
  apply H. apply Forall_seq. lia.
Qed.

Lemma sign_data hmac key ps : sign hmac key ps ≫= pk_data = ps ≫= pk_data.
Proof.
  unfold sign. destruct (hmac key (bodies ps)); [|done]. generalize (length ps - 1)%nat. induction ps as [|p ps IH]; intros i; [done|]. destruct i; cbn; [done|]. f_equal. apply IH.
Qed.

Lemma demo_device : rpmb_device (demo_send 65536) demo_rand demo_hmac demo_key demo_store dd_counter.
Proof.
  split.
  - intros m. exists (demo_mac (demo_key ++ m)). split; [reflexivity|]. apply length_replicate.
  - intros c. split; [apply length_replicate|done].
  - intros nonce addr n c Hn Ha Hl. unfold demo_send. rewrite bool_decide_true by done. cbn [read_cmd pk_nonce pk_address]. rewrite resize_all_alt, get_u16_u16 by done.
    destruct (Z.ltb_spec addr 65536); [done|lia].
  - intros nonce c Hn. unfold demo_send. rewrite bool_decide_false by done. cbn [counter_cmd pk_nonce]. by rewrite resize_all_alt by done.
  - intros a count buf c Ha Hc Hl Hk. set (cmd := write_cmds (dd_counter c) a count buf).
    assert (exists p ps, sign demo_hmac demo_key cmd = p :: ps /\ pk_address p = rpmb_u16 a /\ pk_write_counter p = rpmb_u32 (dd_counter c)) as (p & ps & Es & Ea & Ek).
    { unfold cmd, write_cmds. destruct (Z.to_nat count) as [|n] eqn:En; [lia|]. unfold sign. destruct (demo_hmac _ _) as [mac|]; cbn [seq fmap list_fmap].
      - destruct (length _ - 1)%nat; cbn; eexists _, _; by split_and!.
      - by eexists _, _; split_and!. }
    assert (length (sign demo_hmac demo_key cmd) = Z.to_nat count) as Hlen by (rewrite sign_length; unfold cmd, write_cmds; by rewrite length_fmap, length_seq).
    assert (sign demo_hmac demo_key cmd ≫= pk_data = buf) as Hdata by (rewrite sign_data; by apply write_cmds_data).
    eexists. split; [unfold demo_send; rewrite Es, Ea, Ek, get_u16_u16, get_u32_u32, Z.eqb_refl by lia; reflexivity|]. split; [done|]. intros x. unfold demo_store at 1. cbn [dd_blocks].
    rewrite <- Es, Hlen, Hdata. rewrite resize_all_alt; [done|]. unfold overwrite. destruct (Z.leb_spec a x), (Z.ltb_spec x (a + Z.of_nat (Z.to_nat count))); cbn [andb]; try (symmetry; apply demo_store_ok).
    rewrite length_take, length_drop. lia.
Qed.

Lemma rpmb_write_read_witness :
  exists s1 s2, rpmb_write (demo_send 65536) demo_rand demo_hmac demo_key (replicate 512 9) 7 2 demo_rpmb = Ret 0 s1 /\ rs_write_counter s1 = dd_counter (rs_chan s1) /\
    (forall x, x < 7 \/ 7 + 2 <= x -> demo_store (rs_chan s1) x = demo_store (rs_chan demo_rpmb) x) /\
    rpmb_read (demo_send 65536) demo_rand demo_hmac demo_key 7 2 s1 = Ret (0, replicate 512 9) s2.
Proof.
  exact (rpmb_write_read (demo_send 65536) demo_rand demo_hmac demo_key demo_store dd_counter (replicate 512 9) 7 2 demo_rpmb demo_device
    (or_introl eq_refl) ltac:(cbn; lia) ltac:(lia) ltac:(lia) (length_replicate 512 9)).
Defined.

Lemma demo_mac_run (ps : list rpmb_packet) (s : @rpmb_state demo_dev) : rpmb_mac demo_hmac demo_key ps s = Ret (Some (demo_mac (demo_key ++ bodies ps))) s.
Proof. unfold rpmb_mac, demo_hmac. by rewrite bool_decide_true by apply length_replicate. Qed.

Lemma demo_has_blocks n : has_blocks (demo_send n) demo_rand demo_hmac demo_key n.
Proof.
  intros b s Hb. set (nonce := replicate 16 (dd_counter (rs_chan s) mod 256)).
  assert (rpmb_nonce_init demo_rand s = Ret nonce (rs_set_chan (rs_chan s) s)) as E1 by reflexivity. set (s1 := rs_set_chan _ s) in E1.
  assert (exists s2, exchange (demo_send n) [] [read_cmd nonce b] (Z.to_nat 1) s1 =
    Ret (0, sign demo_hmac demo_key (if b <? n then read_response (demo_store (rs_chan s)) nonce b 1 else [addr_failure nonce b])) s2) as (s2 & E2).
  { eexists. unfold exchange, demo_send. rewrite bool_decide_true by done. cbn [read_cmd pk_nonce pk_address]. rewrite resize_all_alt, get_u16_u16 by (done || apply length_replicate).
    destruct (b <? n); rewrite resize_all_alt by (by rewrite sign_length); reflexivity. }
  assert (exists buf, rpmb_read (demo_send n) demo_rand demo_hmac demo_key b 1 s = Ret (if b <? n then 0 else - ENOENT, buf) s2) as (buf & E).
  { unfold rpmb_read. rewrite (run_bind _ _ _ _ _ E1), (run_bind _ _ _ _ _ E2). cbn [Z.ltb Z.compare]. rewrite (run_bind _ _ _ _ _ (demo_mac_run _ _)), sign_bodies. destruct (b <? n).
    - rewrite check_signed; [by eexists|done|]. repeat constructor; [by intros ? [= <-]|]. intros ? [= <-]. by apply get_u16_u16.
    - eexists. reflexivity. }
  exists s2. unfold rpmb_check. by rewrite (run_bind _ _ _ _ _ E).
Qed.

Lemma rpmb_search_size_finds_witness : exists s', rpmb_search_size (demo_send 500) demo_rand demo_hmac demo_key (Z.to_nat (2 ^ 16 + 1)) 0 demo_rpmb = Ret 500 s'.
Proof. exact (rpmb_search_size_finds (demo_send 500) demo_rand demo_hmac demo_key 500 0 demo_rpmb (demo_has_blocks 500) ltac:(lia) ltac:(lia)). Defined.

(** Two channels that cheat: one reports a counter of its own, the other drops every
    write and answers with an old result. *)
Definition liar : rpmb_packet :=
  Packet (pk_pad zero_packet) (pk_key_mac zero_packet) (pk_data zero_packet) (pk_nonce zero_packet) (rpmb_u32 1000)
    (pk_address zero_packet) (pk_block_count zero_packet) (pk_result zero_packet) (pk_req_resp zero_packet).
Definition old_result : rpmb_packet := set_key_mac (demo_mac (demo_key ++ bodies [write_response 7 42])) (write_response 7 42).
Definition answer_with {C} (p : rpmb_packet) (rel wr : list rpmb_packet) (n : nat) (c : C) : Z * list rpmb_packet * C := (0, [p], c).

Example demo_counter_chosen : exists s1, rpmb_write (answer_with liar) demo_rand demo_hmac demo_key (replicate 256 9) 7 1 demo_rpmb = Ret (-1) s1 /\
  match rpmb_write (answer_with liar) demo_rand demo_hmac demo_key (replicate 256 9) 7 1 s1 with
  | Ret _ s2 => head (rs_sent s2) = Some (sign demo_hmac demo_key (write_cmds 1000 7 1 (replicate 256 9)), [result_cmd])
  | Fault _ => False
  end.
Proof.
  apply (rpmb_counter_unchecked (answer_with liar) demo_rand demo_hmac demo_key liar 1000 (replicate 256 9) 7 1 demo_rpmb
    (demo_mac (demo_key ++ bodies [liar])) (demo_mac (demo_key ++ bodies (write_cmds 1000 7 1 (replicate 256 9))))); (done || lia).
Qed.

Example demo_write_dropped : exists s', rpmb_write_data (answer_with old_result) demo_hmac demo_key (replicate 256 9) 7 1 demo_rpmb = Ret 0 s' /\ rs_chan s' = rs_chan demo_rpmb.
Proof.
  apply (rpmb_write_accepts_old_result (answer_with old_result) demo_hmac demo_key old_result (replicate 256 9) 7 1 demo_rpmb); [done| |lia|vm_compute; reflexivity..].
  intros m. exists (demo_mac (demo_key ++ m)). split; [reflexivity|apply length_replicate].
Qed.
