(* ===== verification/Super.v ===== *)
(** * The storage app's roots (app/storage/super.c, block_mac.c, block_range.h)

    A file system has two copies of its root block.  A transaction commits by
    writing the copy that is not in use, with the next version; at start the newer
    of the valid copies is loaded.  The blocks are stored encrypted, with a fresh
    initial value in front; a write that is interrupted leaves a prefix of the new
    stored block followed by the rest of the old one.  Of a block the first 128
    bytes are modelled, which the root fills; the rest is padding. *)

From stdpp Require Import base tactics list.
From Stdlib Require Import ZArith Lia.
From S2P Require Import Prelude.

(** ** Ranges of blocks (block_range.h) *)

Record block_range := BlockRange { br_start : Z; br_end : Z }.
#[export] Instance block_range_eq_dec : EqDecision block_range.
Proof. solve_decision. Defined.

Section ranges.
Context {S : Type}.

Definition block_range_empty (r : block_range) : M S bool :=
  assert_ (br_end r >=? br_start r);; mret (br_start r =? br_end r).
Definition block_in_range (r : block_range) (block : Z) : M S bool :=
  assert_ (br_end r >=? br_start r);; mret ((block >=? br_start r) && (block <? br_end r)).
Definition block_range_overlap (a b : block_range) : M S bool :=
  x ← block_in_range a (br_start b);
  if x : bool then mret true else block_in_range b (br_start a).
Definition block_range_before (a b : block_range) : M S bool :=
  ea ← block_range_empty a;
  if ea : bool then mret false
  else eb ← block_range_empty b; if eb : bool then mret true else mret (br_start a <? br_start b).
Definition block_range_is_sub_range (range sub : block_range) : M S bool :=
  e ← block_range_empty sub;
  assert_ (negb e);;
  x ← block_in_range range (br_start sub);
  if x : bool then block_in_range range (br_end sub - 1) else mret false.
Definition block_range_eq (a b : block_range) : M S bool :=
  assert_ (br_end a >=? br_start a);; assert_ (br_end b >=? br_start b);;
  mret ((br_start a =? br_start b) && (br_end a =? br_end b)).
End ranges.

Definition block_range_init_single (block : Z) : block_range := BlockRange block ((block + 1) mod 2 ^ 64).
Definition block_range_clear : block_range := BlockRange 0 0.

(** ** Packed block numbers and MACs (block_mac.c) *)

(** [bm] are the bytes of a [struct block_mac], [bns] and [ms] the sizes of the file
    system. *)
Section block_mac.
Context {S : Type} (bns ms : Z).

Definition block_mac_block_size : M S Z := assert_ (negb (bns =? 0));; assert_ (bns <=? 8);; mret bns.
Definition block_mac_mac_size : M S Z := assert_ (negb (ms =? 0));; assert_ (ms <=? 16);; mret ms.

(** [memcpy] of [n] bytes of [src] to [dst] at an offset. *)
Definition put_bytes (off n : nat) (src dst : list Z) : list Z := take off dst ++ take n src ++ drop (off + n) dst.

Definition block_mac_clear (bm : list Z) : M S (list Z) :=
  b ← block_mac_block_size; m ← block_mac_mac_size; mret (put_bytes 0 (Z.to_nat (b + m)) (replicate 24 0) bm).
Definition block_mac_to_block (bm : list Z) : M S Z :=
  b ← block_mac_block_size; mret (le_val (take (Z.to_nat b) bm)).
Definition block_mac_to_mac (bm : list Z) : M S (list Z) := b ← block_mac_block_size; mret (drop (Z.to_nat b) bm).
Definition block_mac_set_block (bm : list Z) (block : Z) : M S (list Z) :=
  b ← block_mac_block_size; mret (put_bytes 0 (Z.to_nat b) (le_bytes 8 block) bm).
Definition block_mac_set_mac (bm mac : list Z) : M S (list Z) :=
  b ← block_mac_block_size; m ← block_mac_mac_size; mret (put_bytes (Z.to_nat b) (Z.to_nat m) mac bm).
Definition block_mac_eq (x y : list Z) : M S bool :=
  b ← block_mac_block_size; m ← block_mac_mac_size;
  mret (bool_decide (take (Z.to_nat (b + m)) x = take (Z.to_nat (b + m)) y)).
Definition block_mac_copy (dest src : list Z) : M S (list Z) :=
  b ← block_mac_block_size; m ← block_mac_mac_size; mret (put_bytes 0 (Z.to_nat (b + m)) src dest).
Definition block_mac_valid (bm : list Z) : M S bool := b ← block_mac_to_block bm; mret (negb (b =? 0)).
Definition block_mac_same_block (x y : list Z) : M S bool :=
  a ← block_mac_to_block x; b ← block_mac_to_block y; mret (a =? b).
Definition block_mac_copy_mac (dest src : list Z) : M S (list Z) :=
  same ← block_mac_same_block dest src;
  assert_ same;;
  mac ← block_mac_to_mac src;
  block_mac_set_mac dest mac.
End block_mac.

(** ** Root blocks (super.c) *)

Definition SUPER_BLOCK_MAGIC : Z := 32503163381969524.
Definition SUPER_BLOCK_FLAGS_VERSION_MASK : Z := 3.
Definition SUPER_BLOCK_FLAGS_BLOCK_INDEX_MASK : Z := 1.
Definition SUPER_BLOCK_FS_VERSION : Z := 0.
Definition sizeof_super_block : Z := 128.

(** [struct block_device], what the file system uses of it. *)
Record block_device := BDev {
  bd_block_count : Z;
  bd_block_size : Z;
  bd_block_num_size : Z;
  bd_mac_size : Z;
  bd_tamper_detecting : bool;
}.

(** [struct super_block]; the reserved fields are written as 0 and ignored. *)
Record super_block := Super {
  sb_iv : list Z;
  sb_magic : Z;
  sb_flags : Z;
  sb_fs_version : Z;
  sb_block_size : Z;
  sb_block_num_size : Z;
  sb_mac_size : Z;
  sb_block_count : Z;
  sb_free : list Z;
  sb_free_count : Z;
  sb_files : list Z;
  sb_flags2 : Z;
}.

(** The fields by offset. *)
Definition field (off n : nat) (bs : list Z) : list Z := take n (drop off bs).

Definition decode_super (bs : list Z) : super_block :=
  Super (field 0 16 bs) (le_val (field 16 8 bs)) (le_val (field 24 4 bs)) (le_val (field 28 4 bs)) (le_val (field 32 4 bs))
    (le_val (field 36 1 bs)) (le_val (field 37 1 bs)) (le_val (field 40 8 bs)) (field 48 24 bs) (le_val (field 72 8 bs)) (field 80 24 bs) (le_val (field 124 4 bs)).

Definition encode_super (sb : super_block) : list Z :=
  concat [sb_iv sb; le_bytes 8 (sb_magic sb); le_bytes 4 (sb_flags sb); le_bytes 4 (sb_fs_version sb); le_bytes 4 (sb_block_size sb);
          le_bytes 1 (sb_block_num_size sb); le_bytes 1 (sb_mac_size sb); replicate 2 0; le_bytes 8 (sb_block_count sb); sb_free sb;
          le_bytes 8 (sb_free_count sb); sb_files sb; replicate 20 0; le_bytes 4 (sb_flags2 sb)].

(** [struct fs], what super.c reads and writes.  The free set and the tree of files
    are given by their roots; [fs_initial_range] is the free set of an empty file
    system. *)
Record fs := FS {
  fs_dev : option block_device;
  fs_super_dev : option block_device;
  fs_super_block_version : Z;
  fs_written_super_block_version : Z;
  fs_min_block_num : Z;
  fs_block_num_size : Z;
  fs_mac_size : Z;
  fs_reserved_count : Z;
  fs_free_root : list Z;
  fs_initial_range : block_range;
  fs_files_root : list Z;
}.

(** What [calloc] makes of it. *)
Definition zero_fs : fs := FS None None 0 0 0 0 0 0 (replicate 24 0) (BlockRange 0 0) (replicate 24 0).

Definition fs_set_devs (d sd : option block_device) (f : fs) : fs := FS d sd (fs_super_block_version f) (fs_written_super_block_version f) (fs_min_block_num f) (fs_block_num_size f) (fs_mac_size f) (fs_reserved_count f) (fs_free_root f) (fs_initial_range f) (fs_files_root f).
Definition fs_set_version (v : Z) (f : fs) : fs := FS (fs_dev f) (fs_super_dev f) v (fs_written_super_block_version f) (fs_min_block_num f) (fs_block_num_size f) (fs_mac_size f) (fs_reserved_count f) (fs_free_root f) (fs_initial_range f) (fs_files_root f).
Definition fs_set_written (v : Z) (f : fs) : fs := FS (fs_dev f) (fs_super_dev f) (fs_super_block_version f) v (fs_min_block_num f) (fs_block_num_size f) (fs_mac_size f) (fs_reserved_count f) (fs_free_root f) (fs_initial_range f) (fs_files_root f).
Definition fs_set_min (v : Z) (f : fs) : fs := FS (fs_dev f) (fs_super_dev f) (fs_super_block_version f) (fs_written_super_block_version f) v (fs_block_num_size f) (fs_mac_size f) (fs_reserved_count f) (fs_free_root f) (fs_initial_range f) (fs_files_root f).
Definition fs_set_sizes (b m : Z) (f : fs) : fs := FS (fs_dev f) (fs_super_dev f) (fs_super_block_version f) (fs_written_super_block_version f) (fs_min_block_num f) b m (fs_reserved_count f) (fs_free_root f) (fs_initial_range f) (fs_files_root f).
Definition fs_set_reserved (v : Z) (f : fs) : fs := FS (fs_dev f) (fs_super_dev f) (fs_super_block_version f) (fs_written_super_block_version f) (fs_min_block_num f) (fs_block_num_size f) (fs_mac_size f) v (fs_free_root f) (fs_initial_range f) (fs_files_root f).
Definition fs_set_roots (free : list Z) (range : block_range) (files : list Z) (f : fs) : fs := FS (fs_dev f) (fs_super_dev f) (fs_super_block_version f) (fs_written_super_block_version f) (fs_min_block_num f) (fs_block_num_size f) (fs_mac_size f) (fs_reserved_count f) free range files.

Abbreviation F := (M fs).

(** The version to write, the copy it goes to and its contents.  [iv]: what the
    encryption puts into the block; [cleared]: whether the cache could provide a
    block. *)
Definition update_super_block (cleared : bool) (iv free files : list Z) : F (option (Z * list Z)) :=
  f ← get;
  sd ← deref NullDeref (fs_super_dev f);
  d ← deref NullDeref (fs_dev f);
  assert_ (bd_block_size sd >=? sizeof_super_block);;
  let ver := Z.land (u32 (fs_super_block_version f + 1)) SUPER_BLOCK_FLAGS_VERSION_MASK in
  let index := Z.land ver SUPER_BLOCK_FLAGS_BLOCK_INDEX_MASK in
  if negb cleared then mret None
  else
    let sb := Super iv SUPER_BLOCK_MAGIC ver SUPER_BLOCK_FS_VERSION (bd_block_size d) (fs_block_num_size f) (fs_mac_size f) (bd_block_count d)
                free 0 files ver in
    modify (fs_set_written ver);;
    mret (Some (index, encode_super sb)).

(** The end of [transaction_complete]: the roots are in use once the block is
    written. *)
Definition transaction_roots (free files : list Z) : F unit :=
  modify (fs_set_roots free block_range_clear files);;
  modify (fun f => fs_set_version (fs_written_super_block_version f) f).

Definition super_block_valid (dev : block_device) (super : super_block) : bool :=
  if negb (sb_magic super =? SUPER_BLOCK_MAGIC) then false
  else if negb (sb_flags super =? sb_flags2 super) then false
  else if sb_fs_version super >? SUPER_BLOCK_FS_VERSION then true
  else if negb (Z.ldiff (sb_flags super) SUPER_BLOCK_FLAGS_VERSION_MASK =? 0) then false
  else if negb (sb_block_size super =? bd_block_size dev) then false
  else if (sb_block_num_size super <? bd_block_num_size dev) || (sb_block_num_size super >? 8) then false
  else if (sb_mac_size super <? bd_mac_size dev) || (sb_mac_size super >? 16) then false
  else if negb (bd_tamper_detecting dev) && negb (sb_mac_size super =? 16) then false
  else negb (sb_block_count super >? bd_block_count dev).

Definition use_new_super (dev : block_device) (new_super : super_block) (new_super_index : Z) (old_super : option super_block) : bool :=
  if negb (super_block_valid dev new_super) then false
  else if negb (Z.land (sb_flags new_super) SUPER_BLOCK_FLAGS_BLOCK_INDEX_MASK =? new_super_index) then false
  else
    match old_super with
    | None => true
    | Some old => Z.land (u32 (sb_flags new_super - sb_flags old)) SUPER_BLOCK_FLAGS_VERSION_MASK =? 1
    end.

Definition fs_init_empty : F unit :=
  f ← get;
  d ← deref NullDeref (fs_dev f);
  e ← block_range_empty (fs_initial_range f);
  assert_ e;;
  modify (fun f => fs_set_roots (fs_free_root f) (BlockRange (fs_min_block_num f) (bd_block_count d)) (fs_files_root f) f).

Definition fs_init_from_super (super : option super_block) (clear : bool) : F Z :=
  f ← get;
  d ← deref NullDeref (fs_dev f);
  if match super with Some sb => sb_fs_version sb >? SUPER_BLOCK_FS_VERSION | None => false end then mret (-1)
  else
    let super := if clear then None else super in
    modify (match super with
            | Some sb => fs_set_sizes (sb_block_num_size sb) (sb_mac_size sb)
            | None => fs_set_sizes (bd_block_num_size d) (bd_mac_size d)
            end);;
    (* [block_set_init] and [block_tree_init] *)
    modify (fs_set_roots (replicate 24 0) (BlockRange 0 0) (replicate 24 0));;
    modify (fs_set_reserved (bd_block_count d / 8 * 5));;
    (match super with
     | Some sb =>
         modify (fs_set_roots (sb_free sb) (BlockRange 0 0) (sb_files sb));;
         modify (fs_set_version (Z.land (sb_flags sb) SUPER_BLOCK_FLAGS_VERSION_MASK))
     | None => fs_init_empty
     end : F unit);;
    f ← get;
    assert_ (fs_block_num_size f >=? bd_block_num_size d);;
    assert_ (fs_block_num_size f <=? 8);;
    assert_ (fs_mac_size f >=? bd_mac_size d);;
    assert_ (fs_mac_size f <=? 16);;
    assert_ ((fs_mac_size f =? 16) || bd_tamper_detecting d);;
    mret 0.

(** [blocks]: the two copies, [None] for one that can not be read. *)
Fixpoint load_loop (dev : block_device) (blocks : list (option (list Z))) (i : Z) (old : option super_block) : option (option super_block) :=
  match blocks with
  | [] => Some old
  | None :: _ => None
  | Some bs :: blocks' =>
      let new_super := decode_super bs in
      load_loop dev blocks' (i + 1) (if use_new_super dev new_super i old then Some new_super else old)
  end.

Definition load_super_block (blocks : list (option (list Z))) (clear : bool) : F Z :=
  f ← get;
  sd ← deref NullDeref (fs_super_dev f);
  d ← deref NullDeref (fs_dev f);
  assert_ (bd_block_size sd >=? sizeof_super_block);;
  match load_loop d blocks 0 None with
  | None => mret (-1)
  | Some old => fs_init_from_super old clear
  end.

(** [same]: the roots are on the device of the file system itself. *)
Definition fs_init (dev super_dev : block_device) (same : bool) (blocks : list (option (list Z))) (clear : bool) : F Z :=
  if bd_block_size super_dev <? sizeof_super_block then mret (-1)
  else if bd_block_count super_dev <? 2 then mret (-1)
  else
    modify (fs_set_devs (Some dev) (Some super_dev));;
    modify (fs_set_min (if same then 2 else 1));;
    ret ← load_super_block blocks clear;
    if negb (ret =? 0) then modify (fs_set_devs None None);; mret ret
    else mret 0.

(** ** Stored blocks (crypt.c, block_cache.c) *)

Section cipher.
(** AES-128-CTR under the key of the file system: byte [i] of the key stream that
    starts from an initial value. *)
Variable ks : list Z -> nat -> Z.

Definition crypt (data iv : list Z) : list Z := imap (fun i b => Z.lxor b (ks iv i)) data.
Definition encrypt (data iv : list Z) : list Z := crypt data iv.
Definition decrypt (data iv : list Z) : list Z := crypt data iv.

(** The data of a cache entry before and after; the initial value is in front. *)
Definition block_cache_entry_encrypt (data : list Z) : list Z := let iv := take 16 data in iv ++ encrypt (drop 16 data) iv.
Definition block_cache_entry_decrypt (data : list Z) : list Z := let iv := take 16 data in iv ++ decrypt (drop 16 data) iv.

Lemma crypt_crypt data iv : crypt (crypt data iv) iv = data.
Proof.
  unfold crypt. apply list_eq. intros i. rewrite !list_lookup_imap. destruct (data !! i) as [b|]; [|done]. cbn. f_equal.
  by rewrite Z.lxor_assoc, Z.lxor_nilpotent, Z.lxor_0_r.
Qed.

(** What is stored is what is loaded again. *)
Lemma decrypt_encrypt data : block_cache_entry_decrypt (block_cache_entry_encrypt data) = data.
Proof.
  unfold block_cache_entry_decrypt, block_cache_entry_encrypt. destruct (Nat.le_gt_cases 16 (length data)) as [H|H].
  - rewrite take_app_length', drop_app_length' by (rewrite length_take; lia). unfold encrypt, decrypt. rewrite crypt_crypt. apply take_drop.
  - unfold encrypt, decrypt, crypt. rewrite (drop_ge data), (take_ge data) by lia. cbn [imap]. rewrite app_nil_r, (drop_ge data), (take_ge data) by lia. apply app_nil_r.
Qed.

Lemma entry_encrypt_length data : length (block_cache_entry_encrypt data) = length data.
Proof. unfold block_cache_entry_encrypt, encrypt, crypt. rewrite length_app, length_imap, length_take, length_drop. lia. Qed.
End cipher.

(** ** Fields of blocks *)

Lemma lookup_field off n bs i : field off n bs !! i = if decide (i < n)%nat then bs !! (off + i)%nat else None.
Proof. unfold field. case_decide; [rewrite lookup_take_lt by done; apply lookup_drop|apply lookup_take_ge; lia]. Qed.

Lemma field_app_l off n a b : (off + n <= length a)%nat -> field off n (a ++ b) = field off n a.
Proof. intros H. apply list_eq. intros i. rewrite !lookup_field. case_decide; [|done]. apply lookup_app_l. lia. Qed.

Lemma field_app_r off n a b : (length a <= off)%nat -> field off n (a ++ b) = field (off - length a) n b.
Proof. intros H. apply list_eq. intros i. rewrite !lookup_field. case_decide; [|done]. rewrite lookup_app_r by lia. f_equal. lia. Qed.

Lemma field_all n a : length a = n -> field 0 n a = a.
Proof. intros <-. unfold field. rewrite drop_0. apply firstn_all. Qed.

Lemma field_split off n m bs : (off + n <= length bs)%nat -> field off (n + m) bs = field off n bs ++ field (off + n) m bs.
Proof. intros H. unfold field. rewrite <- drop_drop. rewrite <- (take_drop n (drop off bs)) at 1. rewrite take_app_ge by (rewrite length_take, length_drop; lia).
  f_equal. f_equal. rewrite length_take, length_drop. lia. Qed.

(** An interrupted write of [new] over [old]. *)
Definition torn (k : nat) (new old : list Z) : list Z := take k new ++ drop k old.

Section torn.
Context (k : nat) (new old : list Z) (Hlen : length new = length old).

Lemma torn_length : length (torn k new old) = length old.
Proof. unfold torn. rewrite length_app, length_take, length_drop. lia. Qed.

Lemma lookup_torn i : torn k new old !! i = if decide (i < k)%nat then new !! i else old !! i.
Proof.
  unfold torn. case_decide.
  - destruct (decide (i < length new)%nat); [rewrite lookup_app_l by (rewrite length_take; lia); by apply lookup_take_lt|].
    rewrite lookup_app_r by (rewrite length_take; lia). rewrite (lookup_ge_None_2 new) by lia. apply lookup_ge_None_2. rewrite length_take, length_drop. lia.
  - destruct (decide (k <= length new)%nat); [rewrite lookup_app_r, lookup_drop by (rewrite length_take; lia); f_equal; rewrite length_take; lia|].
    rewrite lookup_app_r by (rewrite length_take; lia). rewrite (lookup_ge_None_2 old) by lia. apply lookup_ge_None_2. rewrite length_take, length_drop. lia.
Qed.

Lemma field_torn_old off n : (k <= off)%nat -> field off n (torn k new old) = field off n old.
Proof. intros Hk. apply list_eq. intros i. rewrite !lookup_field. case_decide; [|done]. rewrite lookup_torn. case_decide; [lia|done]. Qed.

Lemma field_torn_new off n : (off + n <= k)%nat -> field off n (torn k new old) = field off n new.
Proof. intros Hk. apply list_eq. intros i. rewrite !lookup_field. case_decide; [|done]. rewrite lookup_torn. case_decide; [done|lia]. Qed.

Lemma field_torn_same off n : field off n new = field off n old -> field off n (torn k new old) = field off n old.
Proof.
  intros E. apply list_eq. intros i. rewrite !lookup_field. case_decide; [|done]. rewrite lookup_torn. case_decide; [|done].
  apply (f_equal (.!! i)) in E. rewrite !lookup_field in E. by case_decide.
Qed.
End torn.

(** The block that is written. *)
Section encode.
Context (sb : super_block) (Hiv : length (sb_iv sb) = 16%nat) (Hfree : length (sb_free sb) = 24%nat) (Hfiles : length (sb_files sb) = 24%nat).

Lemma encode_length : length (encode_super sb) = 128%nat.
Proof. unfold encode_super. cbn [concat]. rewrite !length_app, !le_bytes_length, Hiv, Hfree, Hfiles, !length_replicate. reflexivity. Qed.

Ltac skip_field := repeat (rewrite field_app_r by (rewrite ?le_bytes_length, ?length_replicate; lia); rewrite ?le_bytes_length, ?length_replicate, ?Hiv, ?Hfree, ?Hfiles; cbn [Nat.sub]).
Ltac get_field := unfold encode_super; cbn [concat]; skip_field; rewrite field_app_l by (rewrite ?le_bytes_length, ?length_replicate, ?Hiv, ?Hfree, ?Hfiles; lia).

Lemma encode_fields :
  field 16 8 (encode_super sb) = le_bytes 8 (sb_magic sb) /\ field 24 4 (encode_super sb) = le_bytes 4 (sb_flags sb) /\
  field 28 4 (encode_super sb) = le_bytes 4 (sb_fs_version sb) /\ field 32 4 (encode_super sb) = le_bytes 4 (sb_block_size sb) /\
  field 36 1 (encode_super sb) = le_bytes 1 (sb_block_num_size sb) /\ field 37 1 (encode_super sb) = le_bytes 1 (sb_mac_size sb) /\
  field 40 8 (encode_super sb) = le_bytes 8 (sb_block_count sb) /\ field 48 24 (encode_super sb) = sb_free sb /\
  field 72 8 (encode_super sb) = le_bytes 8 (sb_free_count sb) /\ field 80 24 (encode_super sb) = sb_files sb /\
  field 124 4 (encode_super sb) = le_bytes 4 (sb_flags2 sb).
Proof.
  split_and!; try (get_field; apply field_all; first [apply le_bytes_length|done]).
Qed.

(** The fields are in range. *)
Record super_ok : Prop := {
  so_magic : 0 <= sb_magic sb < 2 ^ 64;
  so_flags : 0 <= sb_flags sb < 2 ^ 32;
  so_version : 0 <= sb_fs_version sb < 2 ^ 32;
  so_block_size : 0 <= sb_block_size sb < 2 ^ 32;
  so_num_size : 0 <= sb_block_num_size sb < 256;
  so_mac_size : 0 <= sb_mac_size sb < 256;
  so_count : 0 <= sb_block_count sb < 2 ^ 64;
  so_free_count : 0 <= sb_free_count sb < 2 ^ 64;
  so_flags2 : 0 <= sb_flags2 sb < 2 ^ 32;
}.

Lemma le_val_le_bytes n z : 0 <= z < 256 ^ Z.of_nat n -> le_val (le_bytes n z) = z.
Proof. intros H. rewrite le_val_bytes. by apply Z.mod_small. Qed.

(** A block that is written is read back. *)
Lemma decode_encode : super_ok -> decode_super (encode_super sb) = sb.
Proof.
  intros [H1 H2 H3 H4 H5 H6 H7 H8 H9]. destruct encode_fields as (E1 & E2 & E3 & E4 & E5 & E6 & E7 & E8 & E9 & E10 & E11). unfold decode_super.
  assert (field 0 16 (encode_super sb) = sb_iv sb) as -> by (get_field; by apply field_all).
  rewrite E1, E2, E3, E4, E5, E6, E7, E8, E9, E10, E11. rewrite !le_val_le_bytes by done. by destruct sb.
Qed.
End encode.

(** ** Which copy is loaded *)

(** If the other copy has valid contents, they are those of the version before. *)
Definition harmless (dev : block_device) (v : Z) (sb : super_block) : Prop :=
  super_block_valid dev sb = true -> sb_flags sb = (v - 1) mod 4.

(** The two copies, with the one of version [v] in its place. *)
Definition two {A} (v : Z) (cur other : A) : list A := if Z.land v 1 =? 0 then [cur; other] else [other; cur].

Lemma two_fmap {A B} (g : A -> B) v x y : g <$> two v x y = two v (g x) (g y).
Proof. unfold two. by destruct (_ =? 0). Qed.

Lemma load_current dev v cur other : 0 <= v < 4 -> super_block_valid dev (decode_super cur) = true -> sb_flags (decode_super cur) = v ->
  harmless dev v (decode_super other) -> load_loop dev (Some <$> two v cur other) 0 None = Some (Some (decode_super cur)).
Proof.
  intros Hv Hval Hfl Hh. assert (forall i o, use_new_super dev (decode_super other) i o = true -> sb_flags (decode_super other) = (v - 1) mod 4 /\ Z.land ((v - 1) mod 4) 1 = i) as Ho.
  { intros i o. unfold use_new_super. destruct (super_block_valid dev (decode_super other)) eqn:Ev; [|done]. cbn [negb].
    rewrite (Hh Ev). destruct (Z.eqb_spec (Z.land ((v - 1) mod 4) SUPER_BLOCK_FLAGS_BLOCK_INDEX_MASK) i); [|done]. by intros _. }
  assert (forall i o, Z.land v 1 = i -> (forall sb, o = Some sb -> sb_flags sb = (v - 1) mod 4) -> use_new_super dev (decode_super cur) i o = true) as Hc.
  { intros i o Hi Hold. unfold use_new_super. rewrite Hval, Hfl. unfold SUPER_BLOCK_FLAGS_BLOCK_INDEX_MASK. rewrite Hi, Z.eqb_refl. cbn [negb]. destruct o as [sb|]; [|done].
    rewrite (Hold sb eq_refl). assert (v = 0 \/ v = 1 \/ v = 2 \/ v = 3) as [-> | [-> | [-> | ->]]] by lia; reflexivity. }
  unfold two. destruct (Z.eqb_spec (Z.land v 1) 0) as [E|E]; cbn [fmap list_fmap load_loop].
  - rewrite (Hc 0 None) by done. destruct (use_new_super dev (decode_super other) (0 + 1) (Some (decode_super cur))) eqn:Eo; [|done]. exfalso.
    destruct (Ho _ _ Eo) as [Hfo _]. unfold use_new_super in Eo. destruct (super_block_valid dev (decode_super other)); [|done]. cbn [negb] in Eo.
    destruct (_ =? 0 + 1); [|done]. cbn [negb] in Eo. rewrite Hfo, Hfl in Eo. assert (v = 0 \/ v = 1 \/ v = 2 \/ v = 3) as [-> | [-> | [-> | ->]]] by lia; discriminate.
  - rewrite (Hc (0 + 1)); [done| |].
    + assert (v = 0 \/ v = 1 \/ v = 2 \/ v = 3) as [-> | [-> | [-> | ->]]] by lia; done.
    + intros sb. destruct (use_new_super dev (decode_super other) 0 None) eqn:Eo; [|done]. intros [= <-]. by destruct (Ho _ _ Eo).
Qed.

(** ** Interrupted writes *)

(** The version that is written next. *)
Definition next_version (v : Z) : Z := Z.land (u32 (v + 1)) 3.

Lemma next_version_eq v : 0 <= v < 4 -> next_version v = (v + 1) mod 4.
Proof. intros H. assert (v = 0 \/ v = 1 \/ v = 2 \/ v = 3) as [-> | [-> | [-> | ->]]] by lia; done. Qed.

Lemma one_byte off b : (off < length b)%nat -> exists x, field off 1 b = [x].
Proof.
  intros H. destruct (b !! off) as [x|] eqn:E; [|apply lookup_ge_None in E; lia]. exists x. apply list_eq. intros [|i]; rewrite lookup_field; cbn.
  - by rewrite Nat.add_0_r.
  - by rewrite decide_False by lia.
Qed.

Lemma flags_bytes off b : length b = 128%nat -> (off + 4 <= 128)%nat -> field (off + 1) 3 b = [0; 0; 0] -> exists x, field off 1 b = [x] /\ le_val (field off 4 b) = x.
Proof.
  intros Hl Ho Hz. destruct (one_byte off b ltac:(lia)) as [x Hx]. exists x. split; [done|]. rewrite (field_split off 1 3) by lia. rewrite Hx, Hz. cbn. lia.
Qed.

Lemma small_flags v : 0 <= v < 4 -> le_bytes 4 v = [v; 0; 0; 0].
Proof. intros H. assert (v = 0 \/ v = 1 \/ v = 2 \/ v = 3) as [-> | [-> | [-> | ->]]] by lia; done. Qed.

(** A block as [update_super_block] writes it. *)
Record written (ver : Z) (sb : super_block) : Prop := {
  wr_iv : length (sb_iv sb) = 16%nat;
  wr_free : length (sb_free sb) = 24%nat;
  wr_files : length (sb_files sb) = 24%nat;
  wr_ok : super_ok sb;
  wr_ver : 0 <= ver < 4;
  wr_flags : sb_flags sb = ver;
  wr_flags2 : sb_flags2 sb = ver;
}.

Lemma written_flags ver sb : written ver sb ->
  length (encode_super sb) = 128%nat /\ field 24 1 (encode_super sb) = [ver] /\ field 25 3 (encode_super sb) = [0; 0; 0] /\
  field 124 1 (encode_super sb) = [ver] /\ field 125 3 (encode_super sb) = [0; 0; 0].
Proof.
  intros [H1 H2 H3 H4 H5 H6 H7]. pose proof (encode_length sb H1 H2 H3) as Hl. split; [done|].
  destruct (encode_fields sb H1 H2 H3) as (_ & E1 & _ & _ & _ & _ & _ & _ & _ & _ & E2). rewrite H6, small_flags in E1 by done. rewrite H7, small_flags in E2 by done.
  assert (forall off, (off + 4 <= 128)%nat -> field off 4 (encode_super sb) = [ver; 0; 0; 0] -> field off 1 (encode_super sb) = [ver] /\ field (off + 1) 3 (encode_super sb) = [0; 0; 0]) as H.
  { intros off Ho E. rewrite (field_split off 1 3) in E by lia. destruct (one_byte off (encode_super sb)) as [x Hx]; [lia|]. rewrite Hx in E. injection E as -> E. by split. }
  destruct (H 24%nat ltac:(lia) E1), (H 124%nat ltac:(lia) E2). done.
Qed.

(** What the second copy of the flags is for: where blocks are stored as they are, a
    root of another version that was written up to byte [k] over a root is not
    valid, unless nothing but the initial value and the magic number was written,
    or all that differs. *)
Theorem torn_super_block_seen dev ver ver' sb sb' k : written ver sb -> written ver' sb' -> ver <> ver' ->
  let b := torn k (encode_super sb) (encode_super sb') in
  super_block_valid dev (decode_super b) = true -> ((k <= 24)%nat /\ sb_flags (decode_super b) = ver') \/ b = encode_super sb.
Proof.
  intros Hw Hw' Hne b Hval. destruct (written_flags ver sb Hw) as (Hln & F1 & F2 & F3 & F4). destruct (written_flags ver' sb' Hw') as (Hln' & F1' & F2' & F3' & F4').
  assert (length (encode_super sb) = length (encode_super sb')) as Hll by congruence. assert (length b = 128%nat) as Hlb by (unfold b; by rewrite torn_length).
  assert (field 25 3 b = [0; 0; 0]) as Hb1 by (unfold b; rewrite field_torn_same; congruence). assert (field 125 3 b = [0; 0; 0]) as Hb2 by (unfold b; rewrite field_torn_same; congruence).
  destruct (flags_bytes 24 b Hlb ltac:(lia) Hb1) as (x & Hx & Ex). destruct (flags_bytes 124 b Hlb ltac:(lia) Hb2) as (y & Hy & Ey).
  assert (x = y) as <-.
  { unfold super_block_valid in Hval. destruct (negb _) in Hval; [done|]. cbn in Hval. rewrite Ex, Ey in Hval. by destruct (Z.eqb_spec x y). }
  destruct (Nat.le_gt_cases k 24) as [Hk|Hk]; [left|right].
  - split; [done|]. cbn. rewrite Ex. unfold b in Hx. rewrite field_torn_old, F1' in Hx by lia. by injection Hx.
  - unfold b in Hx. rewrite field_torn_new, F1 in Hx by lia. injection Hx as <-. destruct (Nat.le_gt_cases k 124) as [Hk2|Hk2].
    + unfold b in Hy. rewrite field_torn_old, F3' in Hy by lia. congruence.
    + apply list_eq. intros i. unfold b. rewrite lookup_torn by done. case_decide as Hi; [done|].
      assert (forall c, length c = 128%nat -> field 125 3 c = [0; 0; 0] -> c !! i = if decide (i < 128)%nat then Some 0 else None) as H; [|by rewrite !H].
      intros c Hc Hf. case_decide; [|apply lookup_ge_None_2; lia]. apply (f_equal (.!! (i - 125)%nat)) in Hf. rewrite lookup_field in Hf. rewrite decide_True in Hf by lia.
      replace (125 + (i - 125))%nat with i in Hf by lia. rewrite Hf. assert (i - 125 = 0 \/ i - 125 = 1 \/ i - 125 = 2)%nat as [-> | [-> | ->]] by lia; done.
Qed.

(** ** Mounting *)

Section mount.
Context (dev sdev : block_device) (same : bool) (ks : list Z -> nat -> Z).

(** What a stored block holds. *)
Abbreviation root_of b := (decode_super (block_cache_entry_decrypt ks b)).

(** The copy that is written next, when the one in use has version [v]. *)
Definition stale (v : Z) (b : list Z) : Prop := length b = 128%nat /\ harmless dev v (root_of b).

(** A copy that is no root. *)
Definition blank (b : list Z) : Prop := length b = 128%nat /\ super_block_valid dev (root_of b) = false.

Lemma blank_stale v b : blank b -> stale v b.
Proof. intros [H1 H2]. split; [done|]. intros Hv. congruence. Qed.

(** The copy in use, once the next version is written. *)
Lemma stale_written v sb : 0 <= v < 4 -> written v sb -> stale (next_version v) (block_cache_entry_encrypt ks (encode_super sb)).
Proof.
  intros Hv Hw. split; [rewrite entry_encrypt_length; apply encode_length; apply Hw|]. intros _. rewrite decrypt_encrypt, decode_encode by apply Hw. rewrite (wr_flags _ _ Hw), next_version_eq by done.
  assert (v = 0 \/ v = 1 \/ v = 2 \/ v = 3) as [-> | [-> | [-> | ->]]] by lia; done.
Qed.

(** The devices the app sets up. *)
Record devs_ok : Prop := {
  do_size : 0 < bd_block_size dev < 2 ^ 32;
  do_count : 0 <= bd_block_count dev < 2 ^ 64;
  do_num : 0 < bd_block_num_size dev <= 8;
  do_mac : 0 < bd_mac_size dev <= 16;
  do_tamper : bd_tamper_detecting dev = true \/ bd_mac_size dev = 16;
  do_super_size : 128 <= bd_block_size sdev;
  do_super_count : 2 <= bd_block_count sdev;
}.

(** A mounted file system. *)
Record fs_ok (f : fs) : Prop := {
  fo_dev : fs_dev f = Some dev;
  fo_super_dev : fs_super_dev f = Some sdev;
  fo_version : 0 <= fs_super_block_version f < 4;
  fo_min : fs_min_block_num f = (if same then 2 else 1);
  fo_num : bd_block_num_size dev <= fs_block_num_size f <= 8;
  fo_mac : bd_mac_size dev <= fs_mac_size f <= 16;
  fo_tamper : bd_tamper_detecting dev = true \/ fs_mac_size f = 16;
  fo_reserved : fs_reserved_count f = bd_block_count dev / 8 * 5;
  fo_free : length (fs_free_root f) = 24%nat;
  fo_files : length (fs_files_root f) = 24%nat;
}.

(** The block [update_super_block] writes. *)
Definition super_of (f : fs) (iv : list Z) (ver : Z) (free files : list Z) : super_block :=
  Super iv SUPER_BLOCK_MAGIC ver SUPER_BLOCK_FS_VERSION (bd_block_size dev) (fs_block_num_size f) (fs_mac_size f) (bd_block_count dev) free 0 files ver.

(** What is on disk when [f] is mounted: nothing valid, or its roots and the copy
    that is written next. *)
Inductive on_disk (f : fs) : list (list Z) -> Prop :=
  | on_disk_empty b0 b1 : fs_super_block_version f = 0 -> fs_free_root f = replicate 24 0 -> fs_files_root f = replicate 24 0 ->
      fs_initial_range f = BlockRange (fs_min_block_num f) (bd_block_count dev) -> fs_block_num_size f = bd_block_num_size dev -> fs_mac_size f = bd_mac_size dev ->
      blank b0 -> blank b1 -> on_disk f [b0; b1]
  | on_disk_roots iv other : length iv = 16%nat -> fs_initial_range f = BlockRange 0 0 -> stale (fs_super_block_version f) other ->
      on_disk f (two (fs_super_block_version f) (block_cache_entry_encrypt ks (encode_super (super_of f iv (fs_super_block_version f) (fs_free_root f) (fs_files_root f)))) other).

Context (Hd : devs_ok).

Lemma super_of_written f iv ver free files : fs_ok f -> length iv = 16%nat -> 0 <= ver < 4 -> length free = 24%nat -> length files = 24%nat -> written ver (super_of f iv ver free files).
Proof.
  intros Hf Hiv Hv Hfr Hfi. split; try done. destruct Hd, Hf. split; cbn; unfold SUPER_BLOCK_MAGIC, SUPER_BLOCK_FS_VERSION; lia.
Qed.

Lemma super_of_valid f iv ver free files : fs_ok f -> 0 <= ver < 4 -> super_block_valid dev (super_of f iv ver free files) = true.
Proof.
  intros Hf Hv. destruct Hd, Hf. unfold super_block_valid, super_of. cbn [sb_magic sb_flags sb_flags2 sb_fs_version sb_block_size sb_block_num_size sb_mac_size sb_block_count].
  rewrite !Z.eqb_refl. cbn [negb]. destruct (Z.gtb_spec SUPER_BLOCK_FS_VERSION SUPER_BLOCK_FS_VERSION); [done|].
  assert (Z.ldiff ver SUPER_BLOCK_FLAGS_VERSION_MASK = 0) as -> by (assert (ver = 0 \/ ver = 1 \/ ver = 2 \/ ver = 3) as [-> | [-> | [-> | ->]]] by lia; done).
  cbn [Z.eqb negb]. destruct (Z.ltb_spec (fs_block_num_size f) (bd_block_num_size dev)); [lia|]. destruct (Z.gtb_spec (fs_block_num_size f) 8); [lia|].
  destruct (Z.ltb_spec (fs_mac_size f) (bd_mac_size dev)); [lia|]. destruct (Z.gtb_spec (fs_mac_size f) 16); [lia|]. cbn [orb].
  destruct (Z.gtb_spec (bd_block_count dev) (bd_block_count dev)); [lia|]. destruct fo_tamper0 as [-> | ->]; [done|]. by destruct (bd_tamper_detecting dev).
Qed.

(** The file system a mount gives from a root block, or from none. *)
Definition fs_from (super : option super_block) : fs :=
  match super with
  | Some sb => FS (Some dev) (Some sdev) (Z.land (sb_flags sb) 3) 0 (if same then 2 else 1) (sb_block_num_size sb) (sb_mac_size sb) (bd_block_count dev / 8 * 5)
                 (sb_free sb) (BlockRange 0 0) (sb_files sb)
  | None => FS (Some dev) (Some sdev) 0 0 (if same then 2 else 1) (bd_block_num_size dev) (bd_mac_size dev) (bd_block_count dev / 8 * 5)
              (replicate 24 0) (BlockRange (if same then 2 else 1) (bd_block_count dev)) (replicate 24 0)
  end.

Lemma fs_init_loads blocks super : load_loop dev blocks 0 None = Some super ->
  (forall sb, super = Some sb -> sb_fs_version sb = 0 /\ bd_block_num_size dev <= sb_block_num_size sb <= 8 /\ bd_mac_size dev <= sb_mac_size sb <= 16 /\
    (bd_tamper_detecting dev = true \/ sb_mac_size sb = 16)) ->
  fs_init dev sdev same blocks false zero_fs = Ret 0 (fs_from super).
Proof.
  intros E Hsb. destruct Hd. unfold fs_init. destruct (Z.ltb_spec (bd_block_size sdev) sizeof_super_block) as [Hc|Hc]; [unfold sizeof_super_block in Hc; lia|].
  destruct (Z.ltb_spec (bd_block_count sdev) 2); [lia|]. erewrite run_bind by reflexivity. erewrite run_bind by reflexivity.
  set (f0 := fs_set_min _ _). assert (load_super_block blocks false f0 = Ret 0 (fs_from super)) as El; [|by rewrite (run_bind _ _ _ _ _ El)].
  unfold load_super_block. do 3 (erewrite run_bind by reflexivity). unfold assert_. destruct (Z.geb_spec (bd_block_size sdev) sizeof_super_block); [|lia]. erewrite run_bind by reflexivity.
  rewrite E. unfold fs_init_from_super. do 2 (erewrite run_bind by reflexivity).
  assert (forall b m f1, bd_block_num_size dev <= b <= 8 -> bd_mac_size dev <= m <= 16 -> bd_tamper_detecting dev = true \/ m = 16 -> fs_block_num_size f1 = b -> fs_mac_size f1 = m ->
    (f ← get; assert_ (fs_block_num_size f >=? bd_block_num_size dev);; assert_ (fs_block_num_size f <=? 8);; assert_ (fs_mac_size f >=? bd_mac_size dev);;
     assert_ (fs_mac_size f <=? 16);; assert_ ((fs_mac_size f =? 16) || bd_tamper_detecting dev);; mret 0) f1 = Ret 0 f1) as Hass.
  { intros b m f1 Hb Hm Ht Eb Em. erewrite run_bind by reflexivity. rewrite Eb, Em. unfold assert_. destruct (Z.geb_spec b (bd_block_num_size dev)); [|lia]. destruct (Z.leb_spec b 8); [|lia].
    destruct (Z.geb_spec m (bd_mac_size dev)); [|lia]. destruct (Z.leb_spec m 16); [|lia]. destruct Ht as [-> | ->]; [rewrite orb_true_r; done|done]. }
  destruct super as [sb|].
  - destruct (Hsb sb eq_refl) as (Hv & Hn & Hm & Ht). rewrite Hv. cbn [Z.gtb Z.compare SUPER_BLOCK_FS_VERSION]. do 3 (erewrite run_bind by reflexivity). erewrite run_bind by reflexivity.
    apply (Hass (sb_block_num_size sb) (sb_mac_size sb)); done.
  - do 3 (erewrite run_bind by reflexivity). erewrite run_bind by reflexivity. apply (Hass (bd_block_num_size dev) (bd_mac_size dev)); (done || lia).
Qed.

Lemma blank_unused b i o : blank b -> use_new_super dev (root_of b) i o = false.
Proof. intros [_ Hb]. unfold use_new_super. by rewrite Hb. Qed.

(** Mounting gives the file system that was in use. *)
Lemma mount_on_disk f blocks : fs_ok f -> on_disk f blocks ->
  fs_init dev sdev same ((fun b => Some (block_cache_entry_decrypt ks b)) <$> blocks) false zero_fs = Ret 0 (fs_set_written 0 f).
Proof.
  intros Hf Ho. pose proof Hf as [O1 O2 O3 O4 O5 O6 O7 O8 O9 O10]. destruct Ho as [b0 b1 E1 E2 E3 E4 E5 E6 Hb0 Hb1|iv other Hiv E Hst].
  - rewrite (fs_init_loads _ None); [|cbn; by rewrite !blank_unused|done]. f_equal. unfold fs_from, fs_set_written. rewrite O1, O2, E1, O4, E5, E6, O8, E2, E4, E3, O4. done.
  - set (v := fs_super_block_version f) in *. pose proof (super_of_written f iv v (fs_free_root f) (fs_files_root f) Hf Hiv O3 O9 O10) as Hw. set (sb := super_of f iv v (fs_free_root f) (fs_files_root f)) in *.
    assert (decode_super (encode_super sb) = sb) as Ed by (apply decode_encode; apply Hw).
    rewrite (fs_init_loads _ (Some sb)).
    + f_equal. unfold fs_from, fs_set_written, sb, super_of. cbn [sb_flags sb_block_num_size sb_mac_size sb_free sb_files]. rewrite O1, O2, O4, O8, E.
      assert (Z.land v 3 = v) as -> by (assert (v = 0 \/ v = 1 \/ v = 2 \/ v = 3) as [-> | [-> | [-> | ->]]] by lia; done). done.
    + rewrite (list_fmap_compose (block_cache_entry_decrypt ks) Some), two_fmap, decrypt_encrypt.
      rewrite load_current; [by rewrite Ed|done|rewrite Ed; by apply super_of_valid|by rewrite Ed|by apply Hst].
    + intros sb' [= <-]. cbn. split; [done|]. split; [lia|]. split; [lia|done].
Qed.

Lemma update_runs f iv free files : fs_ok f -> let ver := next_version (fs_super_block_version f) in
  update_super_block true iv free files f = Ret (Some (Z.land ver 1, encode_super (super_of f iv ver free files))) (fs_set_written ver f).
Proof.
  intros Hf ver. pose proof Hf as [O1 O2 O3 O4 O5 O6 O7 O8 O9 O10]. destruct Hd. unfold update_super_block. erewrite run_bind by reflexivity. rewrite O1, O2. do 2 (erewrite run_bind by reflexivity).
  unfold assert_. destruct (Z.geb_spec (bd_block_size sdev) sizeof_super_block) as [|Hc]; [|unfold sizeof_super_block in Hc; lia]. erewrite run_bind by reflexivity. cbn [negb]. erewrite run_bind by reflexivity. done.
Qed.

(** The file system with new roots. *)
Definition committed (f : fs) (free files : list Z) : fs :=
  fs_set_version (next_version (fs_super_block_version f)) (fs_set_roots free block_range_clear files (fs_set_written (next_version (fs_super_block_version f)) f)).

Lemma next_version_range v : 0 <= v < 4 -> 0 <= next_version v < 4.
Proof. intros H. rewrite next_version_eq by done. apply Z.mod_pos_bound. lia. Qed.

Lemma committed_ok f free files : fs_ok f -> length free = 24%nat -> length files = 24%nat -> fs_ok (committed f free files).
Proof. intros Hf Hfr Hfi. pose proof Hf as [O1 O2 O3 O4 O5 O6 O7 O8 O9 O10]. split; try done. cbn. by apply next_version_range. Qed.

(** What may become of the copy that is written: the disk holds the old roots or the
    new ones. *)
Lemma write_on_disk f blocks iv free files : fs_ok f -> on_disk f blocks -> length iv = 16%nat -> length free = 24%nat -> length files = 24%nat ->
  let ver := next_version (fs_super_block_version f) in
  let i := Z.to_nat (Z.land ver 1) in
  (forall b, blocks !! i = Some b \/ blank b -> on_disk f (<[i := b]> blocks)) /\
  on_disk (committed f free files) (<[i := block_cache_entry_encrypt ks (encode_super (super_of f iv ver free files))]> blocks).
Proof.
  intros Hf Ho Hiv Hfr Hfi ver i. pose proof Hf as [O1 O2 O3 O4 O5 O6 O7 O8 O9 O10]. set (v := fs_super_block_version f) in *.
  pose proof (next_version_range v O3) as Hnv. fold ver in Hnv. set (new := block_cache_entry_encrypt ks (encode_super (super_of f iv ver free files))).
  destruct Ho as [b0 b1 E1 E2 E3 E4 E5 E6 Hb0 Hb1|iv0 other Hiv0 E Hst].
  - fold v in E1. assert (ver = 1) as Ev by (unfold ver; by rewrite E1). assert (i = 1%nat) as -> by (unfold i; by rewrite Ev). cbn [insert list_insert]. split.
    + intros b [[= ->]|Hb]; by apply on_disk_empty.
    + pose proof (on_disk_roots (committed f free files) iv b0 Hiv eq_refl (blank_stale _ _ Hb0)) as H. cbn [committed fs_set_version fs_super_block_version] in H. fold v ver in H. rewrite Ev in H.
      unfold new. rewrite Ev. exact H.
  - fold v. fold v in Hst. set (cur := block_cache_entry_encrypt ks (encode_super (super_of f iv0 v (fs_free_root f) (fs_files_root f)))).
    assert (forall b, <[i := b]> (two v cur other) = two v cur b /\ two v cur b = two ver b cur /\ two v cur other !! i = Some other) as Hal.
    { intros b. unfold i, ver. assert (v = 0 \/ v = 1 \/ v = 2 \/ v = 3) as [-> | [-> | [-> | ->]]] by lia; done. }
    split.
    + intros b Hb. destruct (Hal b) as (-> & _ & Hl). apply (on_disk_roots f iv0 b Hiv0 E). fold v. destruct Hb as [Hb|Hb]; [|by apply blank_stale].
      rewrite Hl in Hb. by injection Hb as <-.
    + destruct (Hal new) as (-> & -> & _). apply (on_disk_roots (committed f free files) iv cur Hiv eq_refl).
      exact (stale_written v _ O3 (super_of_written f iv0 v (fs_free_root f) (fs_files_root f) Hf Hiv0 O3 O9 O10)).
Qed.

Lemma on_disk_copies f blocks v : on_disk f blocks -> fs_ok f -> 0 <= v < 4 -> exists b, blocks !! Z.to_nat (Z.land v 1) = Some b /\ length b = 128%nat.
Proof.
  intros Ho Hf Hv. assert (exists x y, blocks = [x; y] /\ length x = 128%nat /\ length y = 128%nat) as (x & y & -> & Hx & Hy).
  { destruct Ho as [b0 b1 _ _ _ _ _ _ [Hb0 _] [Hb1 _]|iv other Hiv E [Hst _]]; [by exists b0, b1|].
    assert (length (block_cache_entry_encrypt ks (encode_super (super_of f iv (fs_super_block_version f) (fs_free_root f) (fs_files_root f)))) = 128%nat) as Hl
      by (rewrite entry_encrypt_length; apply encode_length; [done|apply Hf|apply Hf]).
    unfold two. destruct (_ =? 0); by eexists _, _. }
  assert (v = 0 \/ v = 1 \/ v = 2 \/ v = 3) as [-> | [-> | [-> | ->]]] by lia; by eexists.
Qed.
End mount.

(** ** Commits, interruptions and restarts *)

(** [Interrupted k]: the power fails after [k] bytes of the root block were written,
    and the app starts again. *)
Inductive sop :=
  | Commit (iv free files : list Z)
  | Interrupted (k : nat) (iv free files : list Z)
  | Restart.

Section session.
Context (dev sdev : block_device) (same : bool) (ks : list Z -> nat -> Z).

(** The app starts over what is stored. *)
Definition mount (blocks : list (list Z)) : option (fs * list (list Z)) :=
  match fs_init dev sdev same ((fun b => Some (block_cache_entry_decrypt ks b)) <$> blocks) false zero_fs with
  | Ret ret f => if ret =? 0 then Some (f, blocks) else None
  | Fault _ => None
  end.

(** The copy that is written and its new stored contents. *)
Definition root_write (iv free files : list Z) (f : fs) : option (nat * list Z) :=
  match update_super_block true iv free files f with
  | Ret (Some (idx, blk)) _ => Some (Z.to_nat idx, block_cache_entry_encrypt ks blk)
  | _ => None
  end.

Definition sop_step (op : sop) (st : fs * list (list Z)) : option (fs * list (list Z)) :=
  match op with
  | Commit iv free files =>
      match (o ← update_super_block true iv free files; transaction_roots free files;; mret o) st.1 with
      | Ret (Some (idx, blk)) f => Some (f, <[Z.to_nat idx := block_cache_entry_encrypt ks blk]> st.2)
      | _ => None
      end
  | Interrupted k iv free files =>
      '(i, new) ← root_write iv free files st.1;
      old ← st.2 !! i;
      mount (<[i := torn k new old]> st.2)
  | Restart => mount st.2
  end.

Fixpoint session (ops : list sop) (st : fs * list (list Z)) : option (fs * list (list Z)) :=
  match ops with
  | [] => Some st
  | op :: ops' => sop_step op st ≫= session ops'
  end.

(** A write that is interrupted in the middle is seen: what the two halves decrypt
    to is not a valid root by accident. *)
Definition tear_seen (k : nat) (new old : list Z) : bool :=
  (k =? 0)%nat || (128 <=? k)%nat || negb (super_block_valid dev (decode_super (block_cache_entry_decrypt ks (torn k new old)))).

Definition sop_ok (op : sop) (st : fs * list (list Z)) : bool :=
  match op with
  | Commit iv free files => (length iv =? 16)%nat && (length free =? 24)%nat && (length files =? 24)%nat
  | Interrupted k iv free files => (length iv =? 16)%nat && (length free =? 24)%nat && (length files =? 24)%nat &&
      match ('(i, new) ← root_write iv free files st.1; old ← st.2 !! i; Some (tear_seen k new old)) with Some b => b | None => true end
  | Restart => true
  end.

(** Every step of a session is such a step. *)
Fixpoint session_ok (ops : list sop) (st : fs * list (list Z)) : bool :=
  match ops with
  | [] => true
  | op :: ops' => sop_ok op st && match sop_step op st with Some st' => session_ok ops' st' | None => true end
  end.

(** The roots in use, [None] for an empty file system. *)
Definition view (f : fs) : option (list Z * list Z) :=
  if bool_decide (fs_initial_range f = BlockRange 0 0) then Some (fs_free_root f, fs_files_root f) else None.
End session.

(** The specification: a commit replaces the roots; one that is interrupted does so
    or does nothing; a restart changes nothing. *)
Inductive spec_step : option (list Z * list Z) -> sop -> option (list Z * list Z) -> Prop :=
  | spec_commit r iv free files : spec_step r (Commit iv free files) (Some (free, files))
  | spec_lost r k iv free files : spec_step r (Interrupted k iv free files) r
  | spec_done r k iv free files : spec_step r (Interrupted k iv free files) (Some (free, files))
  | spec_restart r : spec_step r Restart r.

Inductive spec_run : option (list Z * list Z) -> list sop -> option (list Z * list Z) -> Prop :=
  | spec_nil r : spec_run r [] r
  | spec_cons r op r1 ops r2 : spec_step r op r1 -> spec_run r1 ops r2 -> spec_run r (op :: ops) r2.

Section refinement.
Context (dev sdev : block_device) (same : bool) (ks : list Z -> nat -> Z) (Hd : devs_ok dev sdev).

Lemma fs_ok_written f v : fs_ok dev sdev same f -> fs_ok dev sdev same (fs_set_written v f).
Proof. intros [O1 O2 O3 O4 O5 O6 O7 O8 O9 O10]. by split. Qed.
Lemma on_disk_written f v blocks : on_disk dev ks f blocks -> on_disk dev ks (fs_set_written v f) blocks.
Proof.
  intros [b0 b1 E1 E2 E3 E4 E5 E6 Hb0 Hb1|iv other Hiv E Hst]; [by apply on_disk_empty|]. exact (on_disk_roots dev ks (fs_set_written v f) iv other Hiv E Hst).
Qed.

Lemma mount_runs f blocks : fs_ok dev sdev same f -> on_disk dev ks f blocks -> mount dev sdev same ks blocks = Some (fs_set_written 0 f, blocks).
Proof. intros Hf Ho. unfold mount. by rewrite (mount_on_disk dev sdev same ks Hd f blocks Hf Ho). Qed.

(** A mount after the disk has come to hold [f]. *)
Lemma mount_steps f blocks : fs_ok dev sdev same f -> on_disk dev ks f blocks ->
  exists f' blocks', mount dev sdev same ks blocks = Some (f', blocks') /\ fs_ok dev sdev same f' /\ on_disk dev ks f' blocks' /\ view f' = view f.
Proof. intros Hf Ho. exists (fs_set_written 0 f), blocks. split; [by apply mount_runs|]. split; [by apply fs_ok_written|]. split; [by apply on_disk_written|done]. Qed.

Lemma torn_ends k new old : length new = 128%nat -> length old = 128%nat -> (k = 0%nat -> torn k new old = old) /\ ((128 <= k)%nat -> torn k new old = new).
Proof. intros Hn Ho. unfold torn. split; [by intros ->|]. intros Hk. rewrite take_ge, drop_ge by lia. apply app_nil_r. Qed.

Lemma step_refines f blocks op : fs_ok dev sdev same f -> on_disk dev ks f blocks -> sop_ok dev ks op (f, blocks) = true ->
  exists f' blocks', sop_step dev sdev same ks op (f, blocks) = Some (f', blocks') /\ fs_ok dev sdev same f' /\ on_disk dev ks f' blocks' /\ spec_step (view f) op (view f').
Proof.
  intros Hf Ho Hop. set (ver := next_version (fs_super_block_version f)). destruct op as [iv free files|k iv free files|]; cbn [sop_step sop_ok fst snd] in *.
  - rewrite !andb_true_iff, !Nat.eqb_eq in Hop. destruct Hop as [[Hiv Hfr] Hfi]. rewrite (run_bind _ _ _ _ _ (update_runs dev sdev same Hd f iv free files Hf)). fold ver.
    destruct (write_on_disk dev sdev same ks Hd f blocks iv free files Hf Ho Hiv Hfr Hfi) as [_ Hw].
    eexists (committed f free files), _. split; [reflexivity|]. split; [by apply committed_ok|]. split; [exact Hw|constructor].
  - unfold root_write in *. rewrite (update_runs dev sdev same Hd f iv free files Hf) in *. fold ver in Hop |- *. cbn [mbind option_bind] in *.
    rewrite !andb_true_iff, !Nat.eqb_eq in Hop. destruct Hop as [[[Hiv Hfr] Hfi] Hseen].
    destruct (write_on_disk dev sdev same ks Hd f blocks iv free files Hf Ho Hiv Hfr Hfi) as [Hold Hnew]. fold ver in Hold, Hnew.
    destruct (on_disk_copies dev sdev same ks f blocks ver Ho Hf ltac:(apply next_version_range, Hf)) as (old & El & Hlen). rewrite El in *. cbn [mbind option_bind] in *.
    set (new := block_cache_entry_encrypt ks (encode_super (super_of dev f iv ver free files))) in *.
    assert (length new = 128%nat) as Hln by (unfold new; rewrite entry_encrypt_length; by apply encode_length). destruct (torn_ends k new old Hln Hlen) as [T0 T1].
    unfold tear_seen in Hseen. apply orb_true_iff in Hseen as [Hseen|Hseen]; [apply orb_true_iff in Hseen as [Hk|Hk]|].
    + apply Nat.eqb_eq in Hk. rewrite T0 by done. destruct (mount_steps f (<[Z.to_nat (Z.land ver 1) := old]> blocks)) as (f' & bl & E & H1 & H2 & Hv); [done|apply Hold; by left|].
      exists f', bl. rewrite Hv. split; [done|]. split; [done|]. split; [done|constructor].
    + apply Nat.leb_le in Hk. rewrite T1 by done. destruct (mount_steps (committed f free files) _ (committed_ok dev sdev same f free files Hf Hfr Hfi) Hnew) as (f' & bl & E & H1 & H2 & Hv).
      exists f', bl. rewrite Hv. split; [done|]. split; [done|]. split; [done|constructor].
    + apply negb_true_iff in Hseen. destruct (mount_steps f (<[Z.to_nat (Z.land ver 1) := torn k new old]> blocks)) as (f' & bl & E & H1 & H2 & Hv); [done| |].
      { apply Hold. right. split; [rewrite torn_length by congruence; done|done]. }
      exists f', bl. rewrite Hv. split; [done|]. split; [done|]. split; [done|constructor].
  - destruct (mount_steps f blocks Hf Ho) as (f' & bl & E & H1 & H2 & Hv). exists f', bl. rewrite Hv. split; [done|]. split; [done|]. split; [done|constructor].
Qed.

Lemma session_refines ops : forall f blocks, fs_ok dev sdev same f -> on_disk dev ks f blocks -> session_ok dev sdev same ks ops (f, blocks) = true ->
  exists f' blocks', session dev sdev same ks ops (f, blocks) = Some (f', blocks') /\ fs_ok dev sdev same f' /\ on_disk dev ks f' blocks' /\ spec_run (view f) ops (view f').
Proof.
  induction ops as [|op ops IH]; intros f blocks Hf Ho Hok; [exists f, blocks; do 3 (split; [done|]); constructor|]. cbn [session session_ok] in *. apply andb_true_iff in Hok as [Hop Hok].
  destruct (step_refines f blocks op Hf Ho Hop) as (f1 & bl1 & E1 & Hf1 & Ho1 & Hs1). rewrite E1 in *. destruct (IH f1 bl1 Hf1 Ho1 Hok) as (f2 & bl2 & E2 & Hf2 & Ho2 & Hs2).
  exists f2, bl2. do 3 (split; [done|]). by eapply spec_cons.
Qed.
End refinement.

(** The file system of an empty disk. *)
Definition empty_fs (dev sdev : block_device) (same : bool) : fs := fs_from dev sdev same None.

Lemma empty_fs_ok dev sdev same : devs_ok dev sdev -> fs_ok dev sdev same (empty_fs dev sdev same).
Proof. intros []. split; cbn; (done || lia). Qed.


(** The device of the app's data on the non-secure side, and its roots. *)
Definition demo_dev : block_device := BDev 536870912 2048 8 16 false.
Definition demo_sdev : block_device := BDev 2 512 2 2 true.
Definition zero_block : list Z := replicate 128 0.
Definition demo_iv : list Z := replicate 16 77.
Definition root (x : Z) : list Z := le_bytes 8 x ++ replicate 16 x.

Lemma demo_devs_ok : devs_ok demo_dev demo_sdev.
Proof. split; cbn; (done || lia || auto). Qed.

Definition demo_ks (iv : list Z) (i : nat) : Z := (7 * foldr Z.add 0 iv + 13 * Z.of_nat i) mod 256.

Lemma demo_blank : blank demo_dev demo_ks zero_block.
Proof. split; vm_compute; reflexivity. Qed.

Definition demo_sops : list sop :=
  [Commit demo_iv (root 10) (root 11); Interrupted 60 (replicate 16 78) (root 20) (root 21); Commit demo_iv (root 30) (root 31); Interrupted 128 demo_iv (root 40) (root 41);
   Interrupted 126 (replicate 16 80) (root 50) (root 51); Restart].

(** A start, and then a session. *)
Definition run (ops : list sop) : option (fs * list (list Z)) :=
  mount demo_dev demo_sdev false demo_ks [zero_block; zero_block] ≫= session demo_dev demo_sdev false demo_ks ops.

Lemma demo_sops_ok st : mount demo_dev demo_sdev false demo_ks [zero_block; zero_block] = Some st -> session_ok demo_dev demo_sdev false demo_ks demo_sops st = true.
Proof.
  assert (from_option (session_ok demo_dev demo_sdev false demo_ks demo_sops) true (mount demo_dev demo_sdev false demo_ks [zero_block; zero_block]) = true) as H by (vm_compute; reflexivity).
  intros E. by rewrite E in H.
Qed.

Lemma demo_run : (view ∘ fst) <$> run demo_sops = Some (Some (root 40, root 41)).
Proof. vm_compute. reflexivity. Qed.


(** ** Where the code falls short *)

(** After some commits the file system is cleared, as for an empty file on the
    non-secure side, and new roots are committed: the roots before, after clearing,
    and those the next start finds. *)
Definition clear_run (ops : list sop) (iv free files : list Z) : option (option (list Z * list Z) * option (list Z * list Z) * option (list Z * list Z)) :=
  st ← run ops;
  match fs_init demo_dev demo_sdev false ((fun b => Some (block_cache_entry_decrypt demo_ks b)) <$> st.2) true zero_fs with
  | Ret ret f1 =>
      st2 ← sop_step demo_dev demo_sdev false demo_ks (Commit iv free files) (f1, st.2);
      st3 ← mount demo_dev demo_sdev false demo_ks st2.2;
      if ret =? 0 then Some (view st.1, view f1, view st3.1) else None
  | Fault _ => None
  end.

(** Clearing starts over at version 0, whatever versions are on the disk.  With a
    copy of version 2 there, the commit of version 1 that follows is taken for an
    older one: the next start brings the roots from before back. *)
Theorem clear_brings_back_old_roots :
  clear_run [Commit demo_iv (root 10) (root 11); Commit demo_iv (root 20) (root 21)] demo_iv (root 30) (root 31) =
  Some (Some (root 20, root 21), None, Some (root 20, root 21)).
Proof. vm_compute. reflexivity. Qed.

(** A root block of a later version of the format is not overwritten, cleared or
    not. *)
Theorem future_super_block_kept dev sdev same blocks clear sb f :
  devs_ok dev sdev -> load_loop dev blocks 0 None = Some (Some sb) -> SUPER_BLOCK_FS_VERSION < sb_fs_version sb ->
  exists f', fs_init dev sdev same blocks clear f = Ret (-1) f' /\ fs_dev f' = None.
Proof.
  intros [] E Hv. unfold fs_init. destruct (Z.ltb_spec (bd_block_size sdev) sizeof_super_block) as [Hc|Hc]; [unfold sizeof_super_block in Hc; lia|].
  destruct (Z.ltb_spec (bd_block_count sdev) 2); [lia|]. do 2 (erewrite run_bind by reflexivity). set (f0 := fs_set_min _ _).
  assert (load_super_block blocks clear f0 = Ret (-1) f0) as El.
  { unfold load_super_block. do 3 (erewrite run_bind by reflexivity). unfold assert_. destruct (Z.geb_spec (bd_block_size sdev) sizeof_super_block); [|lia]. erewrite run_bind by reflexivity.
    rewrite E. unfold fs_init_from_super. do 2 (erewrite run_bind by reflexivity). destruct (Z.gtb_spec (sb_fs_version sb) SUPER_BLOCK_FS_VERSION); [done|lia]. }
  rewrite (run_bind _ _ _ _ _ El). cbn [Z.eqb negb]. erewrite run_bind by reflexivity. by eexists.
Qed.

(** ** Ranges and packed entries *)

(** Ranges overlap when they share a block; both have to be non-empty. *)
Theorem block_range_overlap_spec {S} a b (s : S) : br_start a < br_end a -> br_start b < br_end b ->
  exists r, block_range_overlap a b s = Ret r s /\ (r = true <-> exists x, br_start a <= x < br_end a /\ br_start b <= x < br_end b).
Proof.
  intros Ha Hb. unfold block_range_overlap, block_in_range, assert_, mbind, M_bind. destruct (Z.geb_spec (br_end a) (br_start a)); [|lia]. cbn [mret M_ret].
  destruct (Z.geb_spec (br_end b) (br_start b)); [|lia].
  destruct (Z.geb_spec (br_start b) (br_start a)), (Z.ltb_spec (br_start b) (br_end a)), (Z.geb_spec (br_start a) (br_start b)), (Z.ltb_spec (br_start a) (br_end b)); cbn;
    eexists; (split; [reflexivity|]); split; try done; try (intros (x & ? & ?); lia); intros _; (exists (br_start b); lia) || (exists (br_start a); lia).
Qed.

(** An empty range inside another counts as overlapping it. *)
Theorem empty_range_overlaps {S} (s : S) : block_range_overlap (BlockRange 10 20) (BlockRange 15 15) s = Ret true s.
Proof. reflexivity. Qed.

(** A block number that is packed is read back, and the MAC after it stays. *)
Theorem block_mac_roundtrip {S} bns bm block (s : S) : 0 < bns <= 8 -> length bm = 24%nat -> 0 <= block < 256 ^ bns ->
  exists bm', block_mac_set_block bns bm block s = Ret bm' s /\ block_mac_to_block bns bm' s = Ret block s /\
    block_mac_to_mac bns bm' s = block_mac_to_mac bns bm s.
Proof.
  intros Hb Hl Hr. unfold block_mac_set_block, block_mac_to_block, block_mac_to_mac, block_mac_block_size, assert_, mbind, M_bind.
  destruct (Z.eqb_spec bns 0) as [|_]; [lia|]. destruct (Z.leb_spec bns 8); [|lia]. cbn [negb mret M_ret]. eexists. split; [reflexivity|]. set (n := Z.to_nat bns).
  unfold put_bytes. cbn [Nat.add]. rewrite take_0. cbn [app].
  assert (length (take n (le_bytes 8 block)) = n) as Hn by (rewrite length_take, le_bytes_length; lia). split.
  - f_equal. rewrite take_app_le by lia. rewrite take_take, Nat.min_id. 
    assert (forall k m z, (k <= m)%nat -> take k (le_bytes m z) = le_bytes k z) as Ht.
    { induction k as [|k IH]; intros m z Hk; [done|]. destruct m as [|m]; [lia|]. cbn. f_equal. apply IH. lia. }
    rewrite Ht by lia. apply le_val_le_bytes. unfold n. by rewrite Z2Nat.id by lia.
  - f_equal. rewrite drop_app_ge by lia. rewrite Hn, Nat.sub_diag. done.
Qed.
