(* ===== verification/BlockDev.v ===== *)
(** * Block devices on the RPMB partition (app/storage/block_device_tipc.c)

    The partition holds two devices: two blocks with the roots of the file system on
    the non-secure side, and the file system that is kept on the partition itself
    in the rest.  Both address it by blocks of two RPMB blocks. *)

From stdpp Require Import base tactics list.
From Stdlib Require Import ZArith Lia.
From S2P Require Import Prelude Rpmb Super.

Definition BLOCK_SIZE_RPMB : Z := 512.
Definition BLOCK_SIZE_RPMB_BLOCKS : Z := BLOCK_SIZE_RPMB / RPMB_BUF_SIZE.

(** [struct block_device_rpmb] *)
Record block_device_rpmb := DevRpmb { dr_dev : block_device; dr_base : Z }.

Definition block_device_tipc_init_dev_rpmb (base block_count : Z) : block_device_rpmb :=
  DevRpmb (BDev block_count BLOCK_SIZE_RPMB 2 2 true) base.

Section dev.
Context {C : Type}.
Variable send : list rpmb_packet -> list rpmb_packet -> nat -> C -> Z * list rpmb_packet * C.
Variable rand : C -> list Z * C.
Variable hmac : list Z -> list Z -> option (list Z).
Variable key : list Z.

Abbreviation R := (M (@rpmb_state C)).

(** The read completes with the data and whether it failed. *)
Definition block_device_tipc_rpmb_start_read (d : block_device_rpmb) (block : Z) : R (list Z * bool) :=
  assert_ (block <? bd_block_count (dr_dev d));;
  let rpmb_block := u16 (block + dr_base d) in
  '(ret, tmp) ← rpmb_read send rand hmac key (u16 (rpmb_block * BLOCK_SIZE_RPMB_BLOCKS)) BLOCK_SIZE_RPMB_BLOCKS;
  mret (tmp, negb (ret =? 0)).

(** The write completes with whether it failed. *)
Definition block_device_tipc_rpmb_start_write (d : block_device_rpmb) (block : Z) (data : list Z) : R bool :=
  assert_ (Z.of_nat (length data) =? BLOCK_SIZE_RPMB);;
  assert_ (block <? bd_block_count (dr_dev d));;
  let rpmb_block := u16 (block + dr_base d) in
  ret ← rpmb_write send rand hmac key data (u16 (rpmb_block * BLOCK_SIZE_RPMB_BLOCKS)) BLOCK_SIZE_RPMB_BLOCKS;
  mret (negb (ret =? 0)).

(** The first part of [block_device_tipc_init], from an initialised RPMB state: the
    devices on the partition and the [ret] the function has at that point.  The size
    is probed (no size is configured); when it is too small the function leaves for
    its error path with the [ret] of [rpmb_init], which is 0. *)
Definition rpmb_layout (fuel : nat) : R (Z * option (block_device_rpmb * block_device_rpmb)) :=
  let ret := 0 in
  let part1_block_count := 2 in
  let part1_base := 1 in
  let part2_base := u16 (part1_base + part1_block_count) in
  size ← rpmb_search_size send rand hmac key fuel 0;
  let rpmb_block_count := size / BLOCK_SIZE_RPMB_BLOCKS in
  if rpmb_block_count <? part2_base then mret (ret, None)
  else mret (ret, Some (block_device_tipc_init_dev_rpmb part1_base part1_block_count,
                   block_device_tipc_init_dev_rpmb part2_base (u32 (rpmb_block_count - part2_base)))).

(** ** The layout *)

(** The RPMB blocks of a block. *)
Definition rpmb_addr (d : block_device_rpmb) (block : Z) : Z := BLOCK_SIZE_RPMB_BLOCKS * (block + dr_base d).

(** A device within a partition of [n] RPMB blocks. *)
Definition dev_fits (n : Z) (d : block_device_rpmb) : Prop :=
  0 <= dr_base d /\ 0 <= bd_block_count (dr_dev d) /\ 2 * (dr_base d + bd_block_count (dr_dev d)) <= n /\ n <= 2 ^ 16.

Lemma rpmb_addr_u16 n d block : dev_fits n d -> 0 <= block < bd_block_count (dr_dev d) ->
  u16 (u16 (block + dr_base d) * BLOCK_SIZE_RPMB_BLOCKS) = rpmb_addr d block /\ 0 <= rpmb_addr d block /\ rpmb_addr d block + 2 <= n.
Proof.
  intros (H1 & H2 & H3 & H4) Hb. unfold rpmb_addr. change BLOCK_SIZE_RPMB_BLOCKS with 2. unfold u16. rewrite (Z.mod_small (block + dr_base d)) by lia. rewrite Z.mod_small by lia. lia.
Qed.

Lemma layout_fits n : has_blocks send rand hmac key n -> 1 <= n <= 2 ^ 16 -> forall s : @rpmb_state C,
  exists r s', rpmb_layout (Z.to_nat (2 ^ 16 + 1)) s = Ret (0, r) s' /\
    match r with
    | Some (d1, d2) => dev_fits n d1 /\ dev_fits n d2 /\ dr_base d1 + bd_block_count (dr_dev d1) <= dr_base d2
    | None => n < 6
    end.
Proof.
  intros Hdev Hn s. unfold rpmb_layout. unfold rpmb_search_size. change (u16 (Z.lnot 0)) with (2 ^ 16 - 1).
  destruct (search_loop_ok send rand hmac key n Hdev Hn (Z.to_nat (2 ^ 16 + 1)) 0 (2 ^ 16 - 1) (u16 (0 - 1)) 0 s) as (s' & E); [lia|lia|lia|intros _; vm_compute; split; congruence|lia|].
  rewrite (run_bind _ _ _ _ _ E). change BLOCK_SIZE_RPMB_BLOCKS with 2. change (u16 (1 + 2)) with 3. destruct (Z.ltb_spec (n / 2) 3) as [Hl|Hl].
  - exists None, s'. split; [done|]. Z.to_euclidean_division_equations; lia.
  - eexists _, s'. split; [done|]. unfold dev_fits. cbn [block_device_tipc_init_dev_rpmb dr_base dr_dev bd_block_count].
    assert (u32 (n / 2 - 3) = n / 2 - 3) as -> by (unfold u32; apply Z.mod_small; Z.to_euclidean_division_equations; lia).
    Z.to_euclidean_division_equations; lia.
Qed.

(** ** Blocks over a device that answers *)

Context (store : C -> Z -> list Z) (counter : C -> Z) (Hd : rpmb_device send rand hmac key store counter).

Lemma device_has_blocks : has_blocks send rand hmac key (2 ^ 16).
Proof.
  intros b s Hb. destruct (rpmb_read_runs send rand hmac key store counter Hd b 1 s Hb ltac:(lia)) as (s' & E & _). exists s'. unfold rpmb_check. rewrite (run_bind _ _ _ _ _ E).
  destruct (Z.ltb_spec b (2 ^ 16)); [done|lia].
Qed.

(** The contents of a block of a device. *)
Definition block_data (d : block_device_rpmb) (block : Z) (c : C) : list Z := seq 0 2 ≫= (fun i => store c (rpmb_addr d block + Z.of_nat i)).

Lemma start_read_runs n d block (s : @rpmb_state C) : dev_fits n d -> 0 <= block < bd_block_count (dr_dev d) ->
  exists s', block_device_tipc_rpmb_start_read d block s = Ret (block_data d block (rs_chan s), false) s' /\ store (rs_chan s') = store (rs_chan s).
Proof.
  intros Hf Hb. destruct (rpmb_addr_u16 n d block Hf Hb) as (Ea & Ha0 & Ha1). destruct Hf as (_ & _ & _ & Hn). unfold block_device_tipc_rpmb_start_read. unfold assert_.
  destruct (Z.ltb_spec block (bd_block_count (dr_dev d))); [|lia]. erewrite run_bind by reflexivity. rewrite Ea.
  destruct (rpmb_read_runs send rand hmac key store counter Hd (rpmb_addr d block) BLOCK_SIZE_RPMB_BLOCKS s ltac:(lia) ltac:(vm_compute; split; congruence)) as (s' & E & _ & Es & _).
  rewrite (run_bind _ _ _ _ _ E). by exists s'.
Qed.

(** The counter is not known, or in step. *)
Definition in_step (s : @rpmb_state C) : Prop :=
  (rs_write_counter s = 0 \/ rs_write_counter s = counter (rs_chan s)) /\ 0 <= counter (rs_chan s) < 2 ^ 32 - 1.

Lemma start_write_runs n d block data (s : @rpmb_state C) : dev_fits n d -> 0 <= block < bd_block_count (dr_dev d) -> length data = 512%nat -> in_step s ->
  exists s', block_device_tipc_rpmb_start_write d block data s = Ret false s' /\ rs_write_counter s' = counter (rs_chan s') /\ counter (rs_chan s') = counter (rs_chan s) + 1 /\
    forall x, store (rs_chan s') x = overwrite (store (rs_chan s)) (rpmb_addr d block) 2 data x.
Proof.
  intros Hf Hb Hl [Hs Hk]. destruct (rpmb_addr_u16 n d block Hf Hb) as (Ea & Ha0 & Ha1). destruct Hf as (_ & _ & _ & Hn). unfold block_device_tipc_rpmb_start_write. unfold assert_.
  rewrite Hl. change (Z.of_nat 512 =? BLOCK_SIZE_RPMB) with true. erewrite run_bind by reflexivity. destruct (Z.ltb_spec block (bd_block_count (dr_dev d))); [|lia].
  erewrite run_bind by reflexivity. rewrite Ea.
  destruct (rpmb_write_runs send rand hmac key store counter Hd data (rpmb_addr d block) BLOCK_SIZE_RPMB_BLOCKS s Hs Hk ltac:(lia) ltac:(vm_compute; done) Hl) as (s' & E & E1 & E2 & E3).
  rewrite (run_bind _ _ _ _ _ E). by exists s'.
Qed.

Lemma block_data_written d block d' block' c c' data : length data = 512%nat -> (forall x, store c' x = overwrite (store c) (rpmb_addr d block) 2 data x) ->
  block_data d block c' = data /\ (block' + dr_base d' <> block + dr_base d -> block_data d' block' c' = block_data d' block' c).
Proof.
  intros Hl Hst. split.
  - etransitivity; [|exact (overwrite_blocks (store c) (rpmb_addr d block) 2 data Hl)]. unfold block_data. apply list_bind_ext; [|done]. intros i. by rewrite Hst.
  - intros Hne. unfold block_data. cbn [seq mbind list_bind]. rewrite !Hst. unfold overwrite, rpmb_addr. change BLOCK_SIZE_RPMB_BLOCKS with 2.
    repeat match goal with |- context [(?a <=? ?b) && (?c <? ?d)] => destruct (Z.leb_spec a b), (Z.ltb_spec c d); cbn [andb]; try lia end; done.
Qed.
End dev.



(** A partition with room for neither device, and one whose size cannot be read at all
    (every probe fails), are reported as a successful start-up: the caller sees 0 and
    keeps a session without devices. *)
Theorem rpmb_too_small_reported_ok {C} (send : list rpmb_packet -> list rpmb_packet -> nat -> C -> Z * list rpmb_packet * C) rand hmac key fuel (s : @rpmb_state C) :
  (forall b s, exists s', rpmb_check send rand hmac key b s = Ret (-1) s') ->
  exists s', rpmb_layout send rand hmac key (S fuel) s = Ret (0, None) s'.
Proof.
  intros Hfail. unfold rpmb_layout, rpmb_search_size. cbn [search_loop]. change (0 <=? u16 (Z.lnot 0)) with true. cbn [negb].
  destruct (Hfail (u16 (0 - 1)) s) as (s' & E). exists s'. erewrite run_bind; [|erewrite run_bind by exact E; reflexivity]. reflexivity.
Qed.
