(* ===== verification/TipcNs.v ===== *)
(** * Requests to the non-secure proxy (app/storage/tipc_ns.c, ipc.c)

    The storage app reaches the device and the files of the non-secure side through
    a proxy there: it sends a request over a channel, waits, and reads the answer
    into its buffers.  [sync_ipc_send_msg] is that exchange, the rest of the file
    the requests made of it.  The proxy, and what it answers, is the other side's. *)

From stdpp Require Import base tactics list.
From Stdlib Require Import ZArith Lia.
From S2P Require Import Prelude Kernel Rpmb Super BlockDev.

Definition ERR_IO : Z := -20.
Definition ERR_BAD_LEN : Z := -32.
Definition ERR_BUSY : Z := -33.

(** ** Messages (interface/storage/storage.h) *)

Definition STORAGE_RESP_BIT : Z := 1.
Definition STORAGE_FILE_OPEN : Z := Z.shiftl 2 1.
Definition STORAGE_FILE_CLOSE : Z := Z.shiftl 3 1.
Definition STORAGE_FILE_READ : Z := Z.shiftl 4 1.
Definition STORAGE_FILE_WRITE : Z := Z.shiftl 5 1.
Definition STORAGE_RPMB_SEND : Z := Z.shiftl 8 1.
Definition STORAGE_NO_ERROR : Z := 0.
Definition STORAGE_ERR_NOT_VALID : Z := 2.
Definition STORAGE_FILE_OPEN_CREATE : Z := 1.
Definition STORAGE_MSG_FLAG_PRE_COMMIT : Z := 2.
Definition STORAGE_MSG_FLAG_POST_COMMIT : Z := 4.

(** [struct storage_msg], without its payload *)
Record storage_msg := StorageMsg {
  sm_cmd : Z;
  sm_op_id : Z;
  sm_flags : Z;
  sm_size : Z;
  sm_result : Z;
  sm_reserved : Z;
}.

Definition sizeof_storage_msg : Z := 24.

Definition encode_msg (m : storage_msg) : list Z :=
  concat [le_bytes 4 (sm_cmd m); le_bytes 4 (sm_op_id m); le_bytes 4 (sm_flags m); le_bytes 4 (sm_size m); le_bytes 4 (sm_result m); le_bytes 4 (sm_reserved m)].

Definition decode_msg (bs : list Z) : storage_msg :=
  StorageMsg (le_val (field 0 4 bs)) (le_val (field 4 4 bs)) (le_val (field 8 4 bs)) (le_val (field 12 4 bs)) (s32 (le_val (field 16 4 bs))) (le_val (field 20 4 bs)).

(** The structures of the requests, as bytes. *)
Definition storage_rpmb_send_req (reliable_write_size write_size read_size : Z) : list Z :=
  le_bytes 4 reliable_write_size ++ le_bytes 4 write_size ++ le_bytes 4 read_size ++ le_bytes 4 0.
Definition storage_file_open_req (flags : Z) : list Z := le_bytes 4 flags.
Definition storage_file_close_req (handle : Z) : list Z := le_bytes 4 handle.
Definition storage_file_read_req (handle size offset : Z) : list Z := le_bytes 4 handle ++ le_bytes 4 size ++ le_bytes 8 offset.
Definition storage_file_write_req (offset handle : Z) : list Z := le_bytes 8 offset ++ le_bytes 4 handle ++ le_bytes 4 0.

(** ** Packets on the wire *)

(** The 512 bytes of [struct rpmb_packet]. *)
Definition packet_bytes (p : rpmb_packet) : list Z :=
  concat [pk_pad p; pk_key_mac p; pk_data p; pk_nonce p; pk_write_counter p; pk_address p; pk_block_count p; pk_result p; pk_req_resp p].
Definition bytes_packet (bs : list Z) : rpmb_packet :=
  Packet (field 0 196 bs) (field 196 32 bs) (field 228 256 bs) (field 484 16 bs) (field 500 4 bs) (field 504 2 bs) (field 506 2 bs) (field 508 2 bs) (field 510 2 bs).

Definition frames (ps : list rpmb_packet) : list Z := ps ≫= packet_bytes.
Definition packets (n : nat) (bs : list Z) : list rpmb_packet := (fun i => bytes_packet (take 512 (drop (i * 512) bs))) <$> seq 0 n.

(** ** The exchange (ipc.c) *)

(** The system calls on the channel, as the app sees them; [C] is the state of the
    kernel and of all that is behind the channel.  A message is the bytes of its
    vector; [read_msg id room] gives the status and the bytes copied into buffers
    with [room] bytes in all. *)
Record ipc_calls (C : Type) := IpcCalls {
  send_msg : list Z -> C -> Z * C;
  wait : C -> Z * Z * C;
  get_msg : C -> Z * (Z * Z) * C;
  read_msg : Z -> nat -> C -> Z * list Z * C;
  put_msg : Z -> C -> C;
}.
Arguments send_msg {C}.
Arguments wait {C}.
Arguments get_msg {C}.
Arguments read_msg {C}.
Arguments put_msg {C}.

(** Bytes into buffers, one after the other; what is left of them stays. *)
Fixpoint scatter (bufs : list (list Z)) (data : list Z) : list (list Z) :=
  match bufs with
  | [] => []
  | b :: bufs' => (take (length b) data ++ drop (length data) b) :: scatter bufs' (drop (length b) data)
  end.
Definition room (bufs : list (list Z)) : nat := length (concat bufs).

Section ipc.
Context {C : Type} (k : ipc_calls C).
Abbreviation N := (M C).

Definition sys_send (msg : list Z) : N Z := fun c => let '(rc, c') := send_msg k msg c in Ret rc c'.
Definition sys_wait : N (Z * Z) := fun c => let '(rc, ev, c') := wait k c in Ret (rc, ev) c'.
Definition sys_get : N (Z * (Z * Z)) := fun c => let '(rc, inf, c') := get_msg k c in Ret (rc, inf) c'.
Definition sys_read (id : Z) (n : nat) : N (Z * list Z) := fun c => let '(rc, bs, c') := read_msg k id n c in Ret (rc, bs) c'.
Definition sys_put (id : Z) : N unit := modify (put_msg k id).

Definition read_response (msg_id : Z) (bufs : list (list Z)) : N (Z * list (list Z)) :=
  '(rc, data) ← sys_read msg_id (room bufs);
  sys_put msg_id;;
  mret (rc, scatter bufs data).

Definition await_response : N (Z * (Z * Z)) :=
  '(rc, _) ← sys_wait;
  if negb (rc =? NO_ERROR) then mret (rc, (0, 0)) else sys_get.

Definition wait_to_send (msg : list Z) : N Z :=
  '(rc, event) ← sys_wait;
  if rc <? 0 then mret rc
  else if has_flag event IPC_HANDLE_POLL_SEND_UNBLOCKED then sys_send msg
  else if has_flag event IPC_HANDLE_POLL_MSG then mret ERR_BUSY
  else if has_flag event IPC_HANDLE_POLL_HUP then mret ERR_CHANNEL_CLOSED
  else mret rc.

(** The status and the receive buffers afterwards. *)
Definition sync_ipc_send_msg (tx rx : list (list Z)) : N (Z * list (list Z)) :=
  rc ← sys_send (concat tx);
  rc ← (if rc =? ERR_NOT_ENOUGH_BUFFER then wait_to_send (concat tx) else mret rc : N Z);
  if rc <? 0 then mret (rc, rx)
  else
    match rx with
    | [] => mret (NO_ERROR, rx)
    | hdr :: _ =>
        '(rc, (id, len)) ← await_response;
        if rc <? 0 then mret (rc, rx)
        else if len <? Z.of_nat (length hdr) then sys_put id;; mret (ERR_NOT_VALID, rx)
        else if u32 (Z.of_nat (room rx)) <? len then sys_put id;; mret (ERR_BAD_LEN, rx)
        else
          '(rc, rx') ← read_response id rx;
          sys_put id;;
          if rc <? 0 then mret (rc, rx')
          else if negb (u32 rc =? len) then mret (ERR_IO, rx')
          else mret (rc, rx')
    end.

(** ** The requests (tipc_ns.c) *)

Definition translate_error (err : Z) : Z :=
  if err =? STORAGE_NO_ERROR then NO_ERROR else if err =? STORAGE_ERR_NOT_VALID then ERR_NOT_VALID else ERR_GENERIC.

Definition check_response (cmd : Z) (msg : storage_msg) (read_len : Z) : Z :=
  if read_len <? sizeof_storage_msg then ERR_IO
  else if negb (sm_cmd msg =? Z.lor cmd STORAGE_RESP_BIT) then ERR_IO
  else translate_error (sm_result msg).

(** The header buffer after the exchange. *)
Definition hdr_of (bufs : list (list Z)) : storage_msg := decode_msg (nth 0 bufs []).

Definition rpmb_send (reliable_write_buf write_buf read_buf : list Z) (sync : bool) : N (Z * list Z) :=
  let reliable_write_size := Z.of_nat (length reliable_write_buf) in
  let write_size := Z.of_nat (length write_buf) in
  let req := storage_rpmb_send_req reliable_write_size write_size (Z.of_nat (length read_buf)) in
  let msg := encode_msg (StorageMsg STORAGE_RPMB_SEND 0 (if sync then Z.lor STORAGE_MSG_FLAG_PRE_COMMIT STORAGE_MSG_FLAG_POST_COMMIT else 0)
                           (sizeof_storage_msg + Z.of_nat (length req) + reliable_write_size + write_size) 0 0) in
  '(rc, bufs) ← sync_ipc_send_msg [msg; req; reliable_write_buf; write_buf] [msg; read_buf];
  let read_buf' := nth 1 bufs [] in
  if rc <? 0 then mret (rc, read_buf')
  else mret (check_response STORAGE_RPMB_SEND (hdr_of bufs) rc, read_buf').

(** The status, and the handle on success. *)
Definition ns_open_file (fname : list Z) (create : bool) : N (Z * option Z) :=
  let req := storage_file_open_req (if create then STORAGE_FILE_OPEN_CREATE else 0) in
  let msg := encode_msg (StorageMsg STORAGE_FILE_OPEN 0 0 (sizeof_storage_msg + Z.of_nat (length req) + Z.of_nat (length fname)) 0 0) in
  '(rc, bufs) ← sync_ipc_send_msg [msg; req; fname] [msg; replicate 4 0];
  if rc <? 0 then mret (rc, None)
  else
    let bytes_read := rc in
    let rc := check_response STORAGE_FILE_OPEN (hdr_of bufs) bytes_read in
    if negb (rc =? NO_ERROR) then mret (rc, None)
    else if negb (bytes_read =? sizeof_storage_msg + 4) then mret (ERR_NOT_VALID, None)
    else mret (NO_ERROR, Some (le_val (nth 1 bufs []))).

Definition ns_close_file (handle : Z) : N unit :=
  let req := storage_file_close_req handle in
  let msg := encode_msg (StorageMsg STORAGE_FILE_CLOSE 0 0 (sizeof_storage_msg + Z.of_nat (length req)) 0 0) in
  '(rc, _) ← sync_ipc_send_msg [msg; req] [msg];
  mret tt.

(** The status, and the buffer afterwards. *)
Definition ns_read_pos (handle pos : Z) (data : list Z) : N (Z * list Z) :=
  let data_size := Z.of_nat (length data) in
  let req := storage_file_read_req handle data_size pos in
  let msg := encode_msg (StorageMsg STORAGE_FILE_READ 0 0 (sizeof_storage_msg + Z.of_nat (length req)) 0 0) in
  '(rc, bufs) ← sync_ipc_send_msg [msg; req] [msg; data];
  let data' := nth 1 bufs [] in
  if rc <? 0 then mret (rc, data')
  else if negb (rc =? sizeof_storage_msg + data_size) then mret (ERR_NOT_VALID, data')
  else
    let data_len := rc in
    let rc := check_response STORAGE_FILE_READ (hdr_of bufs) data_len in
    if negb (rc =? NO_ERROR) then mret (rc, data') else mret (data_len - sizeof_storage_msg, data').

Definition ns_write_pos (handle pos : Z) (data : list Z) : N Z :=
  let data_size := Z.of_nat (length data) in
  let req := storage_file_write_req pos handle in
  let msg := encode_msg (StorageMsg STORAGE_FILE_WRITE 0 0 (sizeof_storage_msg + Z.of_nat (length req) + data_size) 0 0) in
  '(rc, bufs) ← sync_ipc_send_msg [msg; req; data] [msg];
  if rc <? 0 then mret rc
  else
    let rc := check_response STORAGE_FILE_WRITE (hdr_of bufs) rc in
    if negb (rc =? NO_ERROR) then mret rc else mret data_size.
End ipc.

(** ** The non-secure device (block_device_tipc.c) *)

Definition BLOCK_SIZE_MAIN : Z := 2048.

Section ns_device.
Context {C : Type} (k : ipc_calls C) (ns_handle : Z).

(** The read completes with the buffer and whether it failed; [tmp]: the buffer
    before, on the stack. *)
Definition block_device_tipc_ns_start_read (block : Z) (tmp : list Z) : M C (list Z * bool) :=
  '(ret, tmp) ← ns_read_pos k ns_handle ((block * BLOCK_SIZE_MAIN) mod 2 ^ 64) (resize (Z.to_nat BLOCK_SIZE_MAIN) 0 tmp);
  mret (tmp, negb (ret =? BLOCK_SIZE_MAIN)).

Definition block_device_tipc_ns_start_write (block : Z) (data : list Z) : M C bool :=
  assert_ (Z.of_nat (length data) =? BLOCK_SIZE_MAIN);;
  ret ← ns_write_pos k ns_handle ((block * BLOCK_SIZE_MAIN) mod 2 ^ 64) data;
  mret (negb (ret =? BLOCK_SIZE_MAIN)).
End ns_device.

(** ** Bytes and buffers *)

Lemma scatter_full bufs data : length data = room bufs -> concat (scatter bufs data) = data.
Proof.
  unfold room. revert data. induction bufs as [|b bufs IH]; intros data Hl; cbn [scatter concat] in *; [by destruct data|]. rewrite length_app in Hl.
  rewrite (drop_ge b) by lia. rewrite app_nil_r, IH by (rewrite length_drop; lia). apply take_drop.
Qed.

Lemma scatter_lengths bufs data : length <$> scatter bufs data = length <$> bufs.
Proof.
  revert data. induction bufs as [|b bufs IH]; intros data; [done|]. cbn. f_equal; [|apply IH]. rewrite length_app, length_take, length_drop. lia.
Qed.

Lemma scatter_two h b hd data : length hd = length h -> scatter [h; b] (hd ++ data) = [hd; take (length b) data ++ drop (length data) b].
Proof.
  intros Hl. cbn [scatter]. rewrite length_app, <- Hl, take_app_length, drop_app_length. rewrite (drop_ge h) by lia. by rewrite app_nil_r.
Qed.

Lemma encode_msg_length m : length (encode_msg m) = 24%nat.
Proof. unfold encode_msg. cbn [concat]. by rewrite !length_app, !le_bytes_length. Qed.

(** A header that is written is read back. *)
Lemma decode_encode_msg m : Forall (fun z => 0 <= z < 2 ^ 32) [sm_cmd m; sm_op_id m; sm_flags m; sm_size m; sm_reserved m] -> - 2 ^ 31 <= sm_result m < 2 ^ 31 ->
  decode_msg (encode_msg m) = m.
Proof.
  intros H Hr. repeat (apply Forall_cons in H as [? H]). unfold decode_msg, encode_msg. cbn [concat].
  assert (forall z, 0 <= z < 2 ^ 32 -> le_val (le_bytes 4 z) = z) as Hle by (intros z Hz; rewrite le_val_bytes; by apply Z.mod_small).
  destruct m as [a b c d r e]. cbn [sm_cmd sm_op_id sm_flags sm_size sm_result sm_reserved] in *.
  f_equal; repeat (rewrite field_app_r by (rewrite ?le_bytes_length; lia); rewrite le_bytes_length; cbn [Nat.sub]); rewrite field_app_l by (rewrite le_bytes_length; lia);
    rewrite field_all by apply le_bytes_length; try (by apply Hle).
  rewrite le_val_bytes. unfold s32. change (256 ^ Z.of_nat 4) with (2 ^ 32). rewrite Zplus_mod_idemp_l, Z.mod_small by lia. lia.
Qed.

(** A packet with all fields of their size. *)
Definition wire_packet (p : rpmb_packet) : Prop := packet_ok p /\ length (pk_pad p) = 196%nat /\ length (pk_key_mac p) = 32%nat.
Definition wire_ok (ps : list rpmb_packet) : Prop := Forall wire_packet ps /\ Z.of_nat (length ps) < 2 ^ 16.

Lemma packet_bytes_length p : wire_packet p -> length (packet_bytes p) = 512%nat.
Proof. intros ((H1 & H2 & H3 & H4 & H5 & H6 & H7) & H8 & H9). unfold packet_bytes. cbn [concat]. rewrite !length_app. cbn. lia. Qed.

Lemma bytes_packet_bytes p : wire_packet p -> bytes_packet (packet_bytes p) = p.
Proof.
  intros ((H1 & H2 & H3 & H4 & H5 & H6 & H7) & H8 & H9). unfold bytes_packet, packet_bytes. cbn [concat].
  destruct p as [p1 p2 p3 p4 p5 p6 p7 p8 p9]. cbn [pk_pad pk_key_mac pk_data pk_nonce pk_write_counter pk_address pk_block_count pk_result pk_req_resp] in *.
  f_equal; repeat (rewrite field_app_r by lia; rewrite ?H1, ?H2, ?H3, ?H4, ?H5, ?H6, ?H7, ?H8, ?H9; cbn [Nat.sub]); rewrite field_app_l by lia; by apply field_all.
Qed.

Lemma frames_cons p ps : frames (p :: ps) = packet_bytes p ++ frames ps.
Proof. done. Qed.

Lemma frames_length ps : Forall wire_packet ps -> length (frames ps) = (length ps * 512)%nat.
Proof. induction 1 as [|p ps Hp _ IH]; [done|]. rewrite frames_cons, length_app, packet_bytes_length, IH by done. cbn [length]. lia. Qed.

(** What is sent as frames is the packets again. *)
Lemma packets_frames ps rest : Forall wire_packet ps -> packets (length ps) (frames ps ++ rest) = ps.
Proof.
  unfold packets. induction 1 as [|p ps Hp Hps IH]; [done|]. rewrite frames_cons, <- app_assoc. cbn [length seq fmap list_fmap]. f_equal.
  - change (0 * 512)%nat with 0%nat. rewrite drop_0, take_app_length' by (by rewrite packet_bytes_length). by apply bytes_packet_bytes.
  - rewrite <- fmap_S_seq, <- list_fmap_compose. etransitivity; [|exact IH]. apply list_fmap_ext. intros i j _. cbn [compose]. do 2 f_equal.
    replace (S j * 512)%nat with (512 + j * 512)%nat by lia. rewrite <- drop_drop. f_equal. apply drop_app_length'. by rewrite packet_bytes_length.
Qed.

(** ** An answer that is taken is whole *)

(** What the kernel says of reading: an error, or the number of bytes copied. *)
Definition reads_fit {C} (k : ipc_calls C) : Prop :=
  forall id n c rc bs c', read_msg k id n c = (rc, bs, c') -> rc < 0 \/ (rc = Z.of_nat (length bs) /\ (length bs <= n)%nat).

Section whole.
Context {C : Type} (k : ipc_calls C) (Hk : reads_fit k).

(** The calls return, and nothing is known of what. *)
Definition returns {A} (m : M C A) : Prop := forall c, exists a c', m c = Ret a c'.

Lemma wp_any {A} (m : M C A) (Q : A -> C -> Prop) c : returns m -> (forall a c', Q a c') -> wp m Q c.
Proof. intros H HQ. destruct (H c) as (a & c' & E). eapply wp_run; [exact E|apply HQ]. Qed.

Lemma returns_bind {A B} (m : M C A) (f : A -> M C B) : returns m -> (forall a, returns (f a)) -> returns (m ≫= f).
Proof. intros H Hf c. destruct (H c) as (a & c' & E). rewrite (run_bind _ _ _ _ _ E). apply Hf. Qed.

Lemma returns_send msg : returns (sys_send k msg).
Proof. intros c. unfold sys_send. destruct (send_msg k msg c). by eexists _, _. Qed.
Lemma returns_wait : returns (sys_wait k).
Proof. intros c. unfold sys_wait. destruct (wait k c) as [[? ?] ?]. by eexists _, _. Qed.
Lemma returns_get : returns (sys_get k).
Proof. intros c. unfold sys_get. destruct (get_msg k c) as [[? ?] ?]. by eexists _, _. Qed.
Lemma returns_put id : returns (sys_put k id).
Proof. intros c. by eexists _, _. Qed.
Lemma returns_ret {A} (a : A) : returns (mret a).
Proof. intros c. by eexists _, _. Qed.

Lemma returns_wait_to_send msg : returns (wait_to_send k msg).
Proof. apply returns_bind; [apply returns_wait|]. intros [rc ev]. repeat case_match; first [apply returns_ret|apply returns_send]. Qed.
Lemma returns_await : returns (await_response k).
Proof. apply returns_bind; [apply returns_wait|]. intros [rc ev]. case_match; [apply returns_ret|apply returns_get]. Qed.

(** Whatever happens the buffers keep their sizes; a status that is not an error is the
    length of a message that was copied into them. *)
Lemma sync_whole tx h rest c : wp (sync_ipc_send_msg k tx (h :: rest))
  (fun '(rc, rx') _ => length <$> rx' = length <$> h :: rest /\
     (0 <= rc -> exists data, rc = Z.of_nat (length data) /\ (length data <= room (h :: rest))%nat /\ rx' = scatter (h :: rest) data /\
       exists id n c0 c1, read_msg k id n c0 = (rc, data, c1))) c.
Proof.
  unfold sync_ipc_send_msg. apply wp_bind, wp_any; [apply returns_send|]. intros rc1 c1. apply wp_bind, wp_any; [case_match; [apply returns_wait_to_send|apply returns_ret]|]. intros rc2 c2.
  destruct (Z.ltb_spec rc2 0) as [H|_]; [apply wp_ret; split; [done|lia]|]. apply wp_bind, wp_any; [apply returns_await|]. intros [rc3 [id len]] c3.
  destruct (Z.ltb_spec rc3 0); [apply wp_ret; split; [done|lia]|]. destruct (len <? _); [apply wp_bind, wp_any; [apply returns_put|]; intros ? ?; apply wp_ret; split; [done|unfold ERR_NOT_VALID; lia]|].
  destruct (_ <? len); [apply wp_bind, wp_any; [apply returns_put|]; intros ? ?; apply wp_ret; split; [done|unfold ERR_BAD_LEN; lia]|].
  unfold read_response. apply wp_bind, wp_bind. unfold sys_read. unfold wp at 1. destruct (read_msg k id (room (h :: rest)) c3) as [[rc bs] c4] eqn:E.
  apply wp_bind, wp_any; [apply returns_put|]. intros ? ?. apply wp_ret. apply wp_bind, wp_any; [apply returns_put|]. intros ? ?.
  destruct (Z.ltb_spec rc 0); [apply wp_ret; split; [apply scatter_lengths|lia]|]. destruct (negb _); apply wp_ret; (split; [apply scatter_lengths|]); [unfold ERR_IO; lia|].
  intros _. destruct (Hk _ _ _ _ _ _ E) as [|[-> Hl]]; [lia|]. exists bs. do 3 (split; [done|]). by eexists _, _, _, _.
Qed.
End whole.

(** A message of the kernel that answers [cmd] without an error, and its payload. *)
Definition answered {C} (k : ipc_calls C) (cmd : Z) (payload : list Z) : Prop :=
  exists id n c0 c1 hdr, read_msg k id n c0 = (Z.of_nat (length (hdr ++ payload)), hdr ++ payload, c1) /\ length hdr = 24%nat /\
    sm_cmd (decode_msg hdr) = Z.lor cmd STORAGE_RESP_BIT /\ sm_result (decode_msg hdr) = STORAGE_NO_ERROR.

Lemma check_response_ok cmd msg len : check_response cmd msg len = NO_ERROR -> sm_cmd msg = Z.lor cmd STORAGE_RESP_BIT /\ sm_result msg = STORAGE_NO_ERROR.
Proof.
  unfold check_response, translate_error. destruct (_ <? _); [done|]. destruct (Z.eqb_spec (sm_cmd msg) (Z.lor cmd STORAGE_RESP_BIT)); [|done]. cbn [negb].
  destruct (Z.eqb_spec (sm_result msg) STORAGE_NO_ERROR); [done|]. by destruct (_ =? _).
Qed.

Lemma ns_read_pos_whole {C} (k : ipc_calls C) handle pos data c : reads_fit k ->
  wp (ns_read_pos k handle pos data) (fun '(rc, data') _ => length data' = length data /\ (0 <= rc -> rc = Z.of_nat (length data) /\ answered k STORAGE_FILE_READ data')) c.
Proof.
  intros Hk. unfold ns_read_pos. set (msg := encode_msg _). pose proof (encode_msg_length _ : length msg = 24%nat) as Hm. apply wp_bind. eapply wp_mono; [apply sync_whole, Hk|].
  intros [rc bufs] c' [Hl Hw]. assert (exists h d, bufs = [h; d] /\ length h = 24%nat /\ length d = length data) as (h & d & -> & Hh & Hd).
  { destruct bufs as [|h [|d [|]]]; try discriminate. injection Hl as H1 H2. exists h, d. split; [done|]. split; [congruence|done]. }
  cbn [nth hdr_of]. destruct (Z.ltb_spec rc 0); [apply wp_ret; split; [done|lia]|]. destruct (Z.eqb_spec rc (sizeof_storage_msg + Z.of_nat (length data))) as [Erc|]; cbn [negb]; [|apply wp_ret; split; [done|by unfold ERR_NOT_VALID]].
  destruct (Hw ltac:(lia)) as (ans & Ea & Hr & Es & id & n & c0 & c1 & Ecall).
  destruct (check_response STORAGE_FILE_READ (hdr_of [h; d]) rc =? NO_ERROR) eqn:Ec; cbn [negb].
  2:{ apply wp_ret. split; [done|]. intros Hc. exfalso. unfold check_response, translate_error in *. repeat case_match; try discriminate; cbv in Hc; congruence. }
  apply wp_ret. split; [done|]. intros _. split; [unfold sizeof_storage_msg in *; lia|]. apply Z.eqb_eq, check_response_ok in Ec as [Ec1 Ec2].
  assert (h ++ d = ans) as Eans. { rewrite <- (scatter_full [msg; data] ans), <- Es by (unfold room, sizeof_storage_msg in *; cbn; rewrite !length_app; cbn; lia). cbn. by rewrite app_nil_r. }
  exists id, n, c0, c1, h. rewrite Eans, <- Ea. done.
Qed.

Lemma ns_write_pos_answered {C} (k : ipc_calls C) handle pos data c : reads_fit k ->
  wp (ns_write_pos k handle pos data) (fun rc _ => 0 <= rc -> rc = Z.of_nat (length data) /\ answered k STORAGE_FILE_WRITE []) c.
Proof.
  intros Hk. unfold ns_write_pos. set (msg := encode_msg _). pose proof (encode_msg_length _ : length msg = 24%nat) as Hm. apply wp_bind. eapply wp_mono; [apply sync_whole, Hk|].
  intros [rc bufs] c' [Hl Hw]. assert (exists h, bufs = [h] /\ length h = 24%nat) as (h & -> & Hh).
  { destruct bufs as [|h [|]]; try discriminate. injection Hl as H1. exists h. split; [done|]. congruence. }
  destruct (Z.ltb_spec rc 0); [apply wp_ret; lia|]. destruct (Hw ltac:(lia)) as (ans & Ea & Hr & Es & id & n & c0 & c1 & Ecall).
  destruct (check_response STORAGE_FILE_WRITE (hdr_of [h]) rc =? NO_ERROR) eqn:Ec; cbn [negb].
  2:{ apply wp_ret. intros Hc. exfalso. unfold check_response, translate_error in *. repeat case_match; try discriminate; cbv in Hc; congruence. }
  apply wp_ret. intros _. split; [done|]. apply Z.eqb_eq in Ec. pose proof (check_response_ok _ _ _ Ec) as [Ec1 Ec2].
  assert (24 <= length ans)%nat. { unfold check_response in Ec. destruct (Z.ltb_spec rc sizeof_storage_msg); [done|]. unfold sizeof_storage_msg in *. lia. }
  assert (h = ans) as Eans. { unfold room in Hr. cbn [concat] in Hr. rewrite app_nil_r in Hr. cbn [scatter] in Es. injection Es as ->. rewrite take_ge, drop_ge by lia. apply app_nil_r. }
  subst ans. exists id, n, c0, c1, h. rewrite app_nil_r, <- Ea. done.
Qed.

(** C28: Blocks of the non-secure file system are taken from whole answers.  Whatever
    the kernel and the proxy answer, reading a block returns; unless it reports a
    failure its 2048 bytes are the payload of one message that answers a read
    without an error, and none of them is left over from the stack.  A write is
    reported as done only on a message that answers a write without an error. *)
Theorem ns_block_answered {C} (k : ipc_calls C) ns_handle block tmp data c :
  reads_fit k -> length data = 2048%nat ->
  (exists bs failed c', block_device_tipc_ns_start_read k ns_handle block tmp c = Ret (bs, failed) c' /\
     (failed = false -> length bs = 2048%nat /\ answered k STORAGE_FILE_READ bs)) /\
  (exists failed c', block_device_tipc_ns_start_write k ns_handle block data c = Ret failed c' /\
     (failed = false -> answered k STORAGE_FILE_WRITE [])).
Proof.
  intros Hk Hl. split.
  - pose proof (ns_read_pos_whole k ns_handle ((block * BLOCK_SIZE_MAIN) mod 2 ^ 64) (resize (Z.to_nat BLOCK_SIZE_MAIN) 0 tmp) c Hk) as H. unfold block_device_tipc_ns_start_read. unfold wp in H.
    destruct (ns_read_pos _ _ _ _ c) as [[rc bs] c'|] eqn:E; [|done]. rewrite (run_bind _ _ _ _ _ E). eexists _, _, _. split; [reflexivity|]. intros Hf. apply negb_false_iff, Z.eqb_eq in Hf.
    destruct H as [H1 H2]. rewrite length_resize in H1. split; [exact H1|]. apply H2. rewrite Hf. done.
  - pose proof (ns_write_pos_answered k ns_handle ((block * BLOCK_SIZE_MAIN) mod 2 ^ 64) data c Hk) as H. unfold block_device_tipc_ns_start_write. unfold wp in H.
    unfold assert_. rewrite Hl. change (Z.of_nat 2048 =? BLOCK_SIZE_MAIN) with true. erewrite run_bind by reflexivity.
    destruct (ns_write_pos _ _ _ _ c) as [rc c'|] eqn:E; [|done]. rewrite (run_bind _ _ _ _ _ E). eexists _, _. split; [reflexivity|]. intros Hf. apply negb_false_iff, Z.eqb_eq in Hf.
    apply H. rewrite Hf. done.
Qed.

(** ** A proxy that serves *)

(** The kernel delivers and the other side answers at once: a request leads to the
    answer of [serve], which is read and retired. *)
Definition serves {C} (k : ipc_calls C) (serve : list Z -> C -> list Z * C) : Prop :=
  forall req c, exists rc c1 ev c2 id c3 c4,
    send_msg k req c = (rc, c1) /\ 0 <= rc /\ wait k c1 = (NO_ERROR, ev, c2) /\
    get_msg k c2 = (NO_ERROR, (id, Z.of_nat (length (serve req c).1)), c3) /\
    (forall n, (length (serve req c).1 <= n)%nat -> read_msg k id n c3 = (Z.of_nat (length (serve req c).1), (serve req c).1, c4)) /\
    put_msg k id (put_msg k id c4) = (serve req c).2.

Lemma sync_served {C} (k : ipc_calls C) serve tx h rest c ans c' : serves k serve -> serve (concat tx) c = (ans, c') ->
  (length h <= length ans <= room (h :: rest))%nat -> Z.of_nat (room (h :: rest)) < 2 ^ 31 ->
  sync_ipc_send_msg k tx (h :: rest) c = Ret (Z.of_nat (length ans), scatter (h :: rest) ans) c'.
Proof.
  intros Hs Ea Hl Hr. destruct (Hs (concat tx) c) as (rc & c1 & ev & c2 & id & c3 & c4 & E1 & Hrc & E2 & E3 & E4 & E5). rewrite Ea in *. cbn [fst snd] in *.
  unfold sync_ipc_send_msg. erewrite run_bind by (unfold sys_send; by rewrite E1). destruct (Z.eqb_spec rc ERR_NOT_ENOUGH_BUFFER) as [->|_]; [by cbv in Hrc|]. erewrite run_bind by reflexivity.
  destruct (Z.ltb_spec rc 0); [lia|]. erewrite run_bind by (unfold await_response; erewrite run_bind by (unfold sys_wait; by rewrite E2); cbn [Z.eqb negb NO_ERROR]; unfold sys_get; by rewrite E3).
  cbn [Z.ltb Z.compare NO_ERROR]. destruct (Z.ltb_spec (Z.of_nat (length ans)) (Z.of_nat (length h))); [lia|]. unfold u32. rewrite !Z.mod_small by lia.
  destruct (Z.ltb_spec (Z.of_nat (room (h :: rest))) (Z.of_nat (length ans))); [lia|].
  assert (read_response k id (h :: rest) c3 = Ret (Z.of_nat (length ans), scatter (h :: rest) ans) (put_msg k id c4)) as Er.
  { unfold read_response, sys_read, mbind, M_bind. by rewrite E4 by lia. }
  rewrite (run_bind _ _ _ _ _ Er).
  erewrite run_bind by reflexivity. rewrite E5. destruct (Z.ltb_spec (Z.of_nat (length ans)) 0); [lia|]. rewrite Z.mod_small, Z.eqb_refl by lia. done.
Qed.

(** The request [rpmb_send] makes. *)
Definition rpmb_request (rel wr : list Z) (read_size : nat) (sync : bool) : list Z :=
  let req := storage_rpmb_send_req (Z.of_nat (length rel)) (Z.of_nat (length wr)) (Z.of_nat read_size) in
  concat [encode_msg (StorageMsg STORAGE_RPMB_SEND 0 (if sync then Z.lor STORAGE_MSG_FLAG_PRE_COMMIT STORAGE_MSG_FLAG_POST_COMMIT else 0)
            (sizeof_storage_msg + Z.of_nat (length req) + Z.of_nat (length rel) + Z.of_nat (length wr)) 0 0); req; rel; wr].

Definition header_ok (cmd : Z) (hdr : list Z) : Prop :=
  length hdr = 24%nat /\ sm_cmd (decode_msg hdr) = Z.lor cmd STORAGE_RESP_BIT /\ sm_result (decode_msg hdr) = STORAGE_NO_ERROR.

Lemma check_header cmd hdr bufs len : header_ok cmd hdr -> 24 <= len -> check_response cmd (hdr_of (hdr :: bufs)) len = NO_ERROR.
Proof.
  intros (_ & H1 & H2) Hl. unfold check_response, hdr_of. cbn [nth]. destruct (Z.ltb_spec len sizeof_storage_msg) as [H|_]; [unfold sizeof_storage_msg in H; lia|]. by rewrite H1, Z.eqb_refl, H2.
Qed.

(** [rpmb_send] takes an answer of any length that fits: what the answer does not
    reach of the read buffer stays as it was. *)
Lemma rpmb_send_served {C} (k : ipc_calls C) serve rel wr buf sync c hdr data c' : serves k serve -> serve (rpmb_request rel wr (length buf) sync) c = (hdr ++ data, c') ->
  header_ok STORAGE_RPMB_SEND hdr -> (length data <= length buf)%nat -> Z.of_nat (length buf) < 2 ^ 30 ->
  rpmb_send k rel wr buf sync c = Ret (0, data ++ drop (length data) buf) c'.
Proof.
  intros Hs Ea Hh Hl Hb. pose proof Hh as (Hlh & _ & _). unfold rpmb_send. set (msg := encode_msg _). pose proof (encode_msg_length _ : length msg = 24%nat) as Hm.
  erewrite run_bind; [|apply (sync_served k serve _ msg [buf] c (hdr ++ data) c' Hs)]; [|exact Ea| |].
  2, 3: unfold room; cbn [concat]; rewrite ?length_app; cbn [length]; lia.
  rewrite scatter_two by lia. rewrite check_header by (try done; rewrite length_app; lia). cbn [nth]. rewrite (take_ge data) by lia. destruct (Z.ltb_spec (Z.of_nat (length (hdr ++ data))) 0); [lia|done].
Qed.

(** The proxy hands the packets to the device and its answer back. *)
Definition relays {C} (serve : list Z -> C -> list Z * C) (D : list rpmb_packet -> list rpmb_packet -> nat -> C -> Z * list rpmb_packet * C) : Prop :=
  forall rel wr n sync c res c', wire_ok rel -> wire_ok wr -> Z.of_nat n < 2 ^ 16 -> D rel wr n c = (0, res, c') ->
    Forall wire_packet res /\ length res = n /\
    exists hdr, serve (rpmb_request (frames rel) (frames wr) (n * 512) sync) c = (hdr ++ frames res, c') /\ header_ok STORAGE_RPMB_SEND hdr.

(** [rpmb_send] on packets; [stack]: the read buffer before. *)
Definition tipc_send {C} (k : ipc_calls C) (stack : list Z) (rel wr : list rpmb_packet) (n : nat) (c : C) : Z * list rpmb_packet * C :=
  match rpmb_send k (frames rel) (frames wr) (resize (n * 512) 0 stack) (negb (bool_decide (rel = []))) c with
  | Ret (rc, buf) c' => (rc, packets n buf, c')
  | Fault _ => (ERR_GENERIC, [], c)
  end.

Lemma tipc_send_relays {C} (k : ipc_calls C) serve D stack rel wr n c res c' : serves k serve -> relays serve D -> wire_ok rel -> wire_ok wr -> Z.of_nat n < 2 ^ 16 ->
  D rel wr n c = (0, res, c') -> tipc_send k stack rel wr n c = (0, res, c').
Proof.
  intros Hs Hr Hrel Hwr Hn E. destruct (Hr rel wr n (negb (bool_decide (rel = []))) c res c' Hrel Hwr Hn E) as (Hres & Hlen & hdr & Ea & Hh). unfold tipc_send.
  pose proof (frames_length res Hres) as Hfl. set (buf := resize (n * 512) 0 stack). assert (length buf = n * 512)%nat as Hb by apply length_resize.
  rewrite (rpmb_send_served k serve _ _ buf _ c hdr (frames res) c' Hs) by (rewrite ?Hb; first [done|lia]). rewrite drop_ge, app_nil_r by lia. do 2 f_equal.
  rewrite <- Hlen. rewrite <- (app_nil_r (frames res)). by apply packets_frames.
Qed.

Lemma set_mac_wire mac p : length mac = 32%nat -> wire_packet p -> wire_packet (set_key_mac mac p).
Proof. by intros Hm (H1 & H2 & H3). Qed.

Lemma sign_wire hmac key ps : (forall m mac, hmac key m = Some mac -> length mac = 32%nat) -> Forall wire_packet ps -> Forall wire_packet (sign hmac key ps).
Proof.
  intros Hm Hps. unfold sign. destruct (hmac key (bodies ps)) as [mac|] eqn:E; [|done]. specialize (Hm _ _ E). generalize (length ps - 1)%nat. clear E.
  induction Hps as [|p ps Hp Hps IH]; intros i; [by destruct i|]. destruct i as [|i]; cbn; (constructor; [|done || apply IH]); [by apply set_mac_wire|done].
Qed.

Lemma write_cmds_wire kc a count buf : length buf = (Z.to_nat count * 256)%nat -> Forall wire_packet (write_cmds kc a count buf).
Proof.
  intros Hl. unfold write_cmds. apply Forall_fmap, Forall_forall. intros i Hi. apply elem_of_seq in Hi. repeat split; cbn [compose pk_data]; try done. rewrite length_take, length_drop. lia.
Qed.

Lemma wire_ok_nil : wire_ok [].
Proof. by split. Qed.
Lemma wire_ok_one p : wire_packet p -> wire_ok [p].
Proof. intros H. split; [by constructor|done]. Qed.

Section over_proxy.
Context {C : Type} (k : ipc_calls C) (serve : list Z -> C -> list Z * C) (D : list rpmb_packet -> list rpmb_packet -> nat -> C -> Z * list rpmb_packet * C).
Context (rand : C -> list Z * C) (hmac : list Z -> list Z -> option (list Z)) (key : list Z) (store : C -> Z -> list Z) (counter : C -> Z) (stack : list Z).

(** A device behind a proxy is a device. *)
Lemma tipc_device : serves k serve -> relays serve D -> rpmb_device D rand hmac key store counter -> rpmb_device (tipc_send k stack) rand hmac key store counter.
Proof.
  intros Hs Hr [H1 H2 H3 H4 H5]. assert (forall m mac, hmac key m = Some mac -> length mac = 32%nat) as Hm. { intros m mac E. destruct (H1 m) as (mac' & E' & Hl). congruence. }
  split; [done|done| | |].
  - intros nonce addr n c Hn Ha Hl. apply (tipc_send_relays k serve D stack); try done; [apply wire_ok_one; by repeat split|by apply H3].
  - intros nonce c Hn. apply (tipc_send_relays k serve D stack); try done; [apply wire_ok_one; by repeat split|by apply H4].
  - intros a count buf c Ha Hc Hl Hk. destruct (H5 a count buf c Ha Hc Hl Hk) as (c' & E & Ek & Est). exists c'. split; [|done].
    apply (tipc_send_relays k serve D stack); try done; [|apply wire_ok_one; by repeat split]. split; [by apply sign_wire, write_cmds_wire|]. rewrite sign_length, write_cmds_length. lia.
Qed.
End over_proxy.


(** A header alone is taken for an answer: the app then checks whatever was on the
    stack. *)
Theorem rpmb_send_takes_header_only {C} (k : ipc_calls C) serve rel wr buf sync c hdr c' :
  serves k serve -> serve (rpmb_request rel wr (length buf) sync) c = (hdr, c') -> header_ok STORAGE_RPMB_SEND hdr -> Z.of_nat (length buf) < 2 ^ 30 ->
  rpmb_send k rel wr buf sync c = Ret (0, buf) c'.
Proof. intros Hs Ea Hh Hb. rewrite (rpmb_send_served k serve rel wr buf sync c hdr [] c' Hs); [done|by rewrite app_nil_r|done|cbn; lia|done]. Qed.

(** ** A proxy *)

(** The device of Rpmb.v behind a proxy; the messages that were not retired. *)
Definition proxied : Type := Rpmb.demo_dev * list (list Z).

Definition proxied_send (rel wr : list rpmb_packet) (n : nat) (c : proxied) : Z * list rpmb_packet * proxied :=
  let '(ret, res, d) := demo_send 65536 rel wr n c.1 in (ret, res, (d, c.2)).

Definition demo_serve (req : list Z) (c : proxied) : list Z * proxied :=
  let rs := Z.to_nat (le_val (field 24 4 req)) in
  let ws := Z.to_nat (le_val (field 28 4 req)) in
  let n := (Z.to_nat (le_val (field 32 4 req)) / 512)%nat in
  let payload := drop 40 req in
  let '(_, res, c') := proxied_send (packets (rs / 512) payload) (packets (ws / 512) (drop rs payload)) n c in
  (encode_msg (StorageMsg (Z.lor STORAGE_RPMB_SEND STORAGE_RESP_BIT) 0 0 (24 + 512 * Z.of_nat n) 0 0) ++ frames res, c').

Definition demo_calls : ipc_calls proxied :=
  IpcCalls proxied
    (fun req c => let '(ans, c') := demo_serve req c in (Z.of_nat (length req), (c'.1, c'.2 ++ [ans])))
    (fun c => (NO_ERROR, IPC_HANDLE_POLL_MSG, c))
    (fun c => match last c.2 with
              | Some ans => (NO_ERROR, (Z.of_nat (length c.2 - 1), Z.of_nat (length ans)), c)
              | None => (ERR_NO_MSG, (0, 0), c)
              end)
    (fun id n c => match c.2 !! Z.to_nat id with
                   | Some ans => (Z.of_nat (length (take n ans)), take n ans, c)
                   | None => (ERR_INVALID_ARGS, [], c)
                   end)
    (fun id c => (c.1, take (Z.to_nat id) c.2)).

Lemma demo_reads_fit : reads_fit demo_calls.
Proof.
  intros id n c rc bs c'. cbn. destruct (c.2 !! Z.to_nat id) as [ans|]; intros [= <- <- <-]; [right; split; [done|rewrite length_take; lia]|left; done].
Qed.

Lemma demo_serve_keeps req c : (demo_serve req c).2.2 = c.2.
Proof. unfold demo_serve, proxied_send. by destruct (demo_send _ _ _ _ _) as [[? ?] ?]. Qed.

Lemma demo_serves : serves demo_calls demo_serve.
Proof.
  intros req c. pose proof (demo_serve_keeps req c) as Hk. destruct (demo_serve req c) as [ans [d p]] eqn:E. cbn in Hk. subst p.
  set (c1 := (d, c.2 ++ [ans])). exists (Z.of_nat (length req)), c1, IPC_HANDLE_POLL_MSG, c1, (Z.of_nat (length c.2)), c1, c1.
  split; [cbn; by rewrite E|]. split; [lia|]. split; [done|]. split; [|split].
  - cbn. rewrite last_snoc, length_app. cbn. by rewrite Nat.add_sub.
  - intros n Hn. cbn in *. rewrite Nat2Z.id, list_lookup_middle by done. by rewrite take_ge.
  - cbn. rewrite Nat2Z.id, take_app_length. by rewrite take_ge.
Qed.

Lemma demo_wire_answer rel wr n c ret res c' : proxied_send rel wr n c = (ret, res, c') -> Forall wire_packet res /\ length res = n.
Proof.
  unfold proxied_send, demo_send. intros E.
  assert (forall ps d, (0, sign demo_hmac demo_key ps, (d, c.2)) = (ret, res, c') -> Forall wire_packet ps -> length ps = n -> Forall wire_packet res /\ length res = n) as H.
  { intros ps d [= <- <- <-] Hw Hl. rewrite sign_length. split; [|done]. apply sign_wire; [|done]. intros m mac Hm. by apply (demo_hmac_size m). }
  assert (forall p d r, (r, replicate n p, (d, c.2)) = (ret, res, c') -> wire_packet p -> Forall wire_packet res /\ length res = n) as H0.
  { intros p d r [= <- <- <-] Hp. rewrite length_replicate. split; [by apply Forall_replicate|done]. }
  assert (wire_packet zero_packet) as Hz by (by repeat split).
  destruct rel as [|p rel]; [destruct wr as [|cmd [|]]|].
  - by eapply H0.
  - destruct (bool_decide _); [destruct (_ <? _)|]; (eapply H; [exact E|..]); try (rewrite ?length_replicate; done).
    + unfold Rpmb.read_response. apply Forall_fmap, Forall_true. intros i. repeat split; cbn; first [by apply demo_store_ok|by rewrite ?length_resize].
    + unfold Rpmb.read_response. by rewrite length_fmap, length_seq.
    + apply Forall_replicate. repeat split; cbn; by rewrite ?length_resize.
    + apply Forall_replicate. repeat split; cbn; by rewrite ?length_resize.
  - by eapply H0.
  - destruct (_ =? _); [|by eapply H0]. eapply H; [exact E| |apply length_replicate]. apply Forall_replicate. by repeat split.
Qed.

Lemma request_fields rel wr n sync : Z.of_nat (length rel) < 2 ^ 32 -> Z.of_nat (length wr) < 2 ^ 32 -> Z.of_nat n < 2 ^ 32 ->
  le_val (field 24 4 (rpmb_request rel wr n sync)) = Z.of_nat (length rel) /\ le_val (field 28 4 (rpmb_request rel wr n sync)) = Z.of_nat (length wr) /\
  le_val (field 32 4 (rpmb_request rel wr n sync)) = Z.of_nat n /\ drop 40 (rpmb_request rel wr n sync) = rel ++ wr.
Proof.
  intros H1 H2 H3. unfold rpmb_request. set (req := storage_rpmb_send_req _ _ _). set (msg := encode_msg _). pose proof (encode_msg_length _ : length msg = 24%nat) as Hm.
  assert (length req = 16%nat) as Hq by (unfold req, storage_rpmb_send_req; by rewrite !length_app, !le_bytes_length). cbn [concat]. rewrite app_nil_r.
  assert (forall off z, (off + 4 <= 16)%nat -> field off 4 req = le_bytes 4 (Z.of_nat z) -> Z.of_nat z < 2 ^ 32 -> le_val (field (24 + off) 4 (msg ++ req ++ rel ++ wr)) = Z.of_nat z) as H.
  { intros off z Ho E Hz. rewrite field_app_r by lia. rewrite Hm. replace (24 + off - 24)%nat with off by lia. rewrite field_app_l by lia. rewrite E. apply le_val_le_bytes. lia. }
  assert (forall a b c d, length a = 4%nat -> length b = 4%nat -> length c = 4%nat -> field 0 4 (a ++ b ++ c ++ d) = a /\ field 4 4 (a ++ b ++ c ++ d) = b /\ field 8 4 (a ++ b ++ c ++ d) = c) as Hf.
  { intros a b c d Ha Hb Hc. split_and!; repeat (rewrite field_app_r by lia; rewrite ?Ha, ?Hb; cbn [Nat.sub]); rewrite field_app_l by lia; by apply field_all. }
  destruct (Hf (le_bytes 4 (Z.of_nat (length rel))) (le_bytes 4 (Z.of_nat (length wr))) (le_bytes 4 (Z.of_nat n)) (le_bytes 4 0)) as (F1 & F2 & F3); [apply le_bytes_length..|].
  split; [by apply (H 0%nat); [lia|..]|]. split; [by apply (H 4%nat); [lia|..]|]. split; [by apply (H 8%nat); [lia|..]|].
  rewrite app_assoc. apply drop_app_length'. rewrite length_app. lia.
Qed.

Lemma demo_relays : relays demo_serve proxied_send.
Proof.
  intros rel wr n sync c res c' [Hrel Lrel] [Hwr Lwr] Hn E. destruct (demo_wire_answer rel wr n c 0 res c' E) as [Hres Hlen]. split; [done|]. split; [done|].
  pose proof (frames_length rel Hrel) as Fr. pose proof (frames_length wr Hwr) as Fw.
  destruct (request_fields (frames rel) (frames wr) (n * 512) sync) as (F1 & F2 & F3 & F4); [lia..|]. unfold demo_serve. rewrite F1, F2, F3, F4, !Nat2Z.id, Fr, Fw, !Nat.div_mul by done.
  rewrite packets_frames, <- Fr, drop_app_length by done. rewrite <- (app_nil_r (frames wr)), packets_frames by done. rewrite E.
  eexists. split; [reflexivity|]. split; [apply encode_msg_length|]. rewrite decode_encode_msg; [done| |done]. cbn. repeat constructor; try done; lia.
Qed.

Definition proxied_rand (c : proxied) : list Z * proxied := let '(n, d) := demo_rand c.1 in (n, (d, c.2)).
Definition proxied_store (c : proxied) : Z -> list Z := demo_store c.1.
Definition proxied_counter (c : proxied) : Z := dd_counter c.1.

Lemma proxied_device : rpmb_device proxied_send proxied_rand demo_hmac demo_key proxied_store proxied_counter.
Proof.
  pose proof demo_device as [H1 H2 H3 H4 H5]. split; [done| | | |].
  - intros c. split; [apply length_replicate|done].
  - intros nonce addr n [d p] Hn Ha Hl. unfold proxied_send. cbn [fst snd]. by rewrite H3.
  - intros nonce [d p] Hn. unfold proxied_send. cbn [fst snd]. by rewrite H4.
  - intros a count buf [d p] Ha Hc Hl Hk. destruct (H5 a count buf d Ha Hc Hl Hk) as (d' & E & Ek & Est). exists (d', p). split; [|done]. unfold proxied_send, proxied_counter. cbn [fst snd]. by rewrite E.
Qed.

Definition demo_proxied : @rpmb_state proxied := RState 0 (rs_chan demo_rpmb, []) [].


(** A kernel that answers every read of a file with a block of sevens. *)
Definition seven_calls : ipc_calls unit :=
  let ans := encode_msg (StorageMsg (Z.lor STORAGE_FILE_READ STORAGE_RESP_BIT) 0 0 2072 0 0) ++ replicate 2048 7 in
  IpcCalls unit (fun req c => (Z.of_nat (length req), c)) (fun c => (NO_ERROR, IPC_HANDLE_POLL_MSG, c)) (fun c => (NO_ERROR, (1, Z.of_nat (length ans)), c))
    (fun id n c => (Z.of_nat (length (take n ans)), take n ans, c)) (fun id c => c).

Lemma seven_reads_fit : reads_fit seven_calls.
Proof. intros id n c rc bs c'. cbn. intros [= <- <- <-]. right. split; [done|]. rewrite length_take. lia. Qed.

Lemma seven_read : block_device_tipc_ns_start_read seven_calls 5 3 [] tt = Ret (replicate 2048 7, false) tt.
Proof. vm_compute. reflexivity. Qed.

Lemma ns_block_answered_witness : length (replicate 2048 7) = 2048%nat /\ answered seven_calls STORAGE_FILE_READ (replicate 2048 7).
Proof.
  destruct (ns_block_answered seven_calls 5 3 [] (replicate 2048 1) tt seven_reads_fit (length_replicate 2048 1)) as [(bs & failed & c' & E & H) _].
  rewrite seven_read in E. injection E as <- <- _. exact (H eq_refl).
Defined.
