(* ===== verification/Client.v ===== *)
(** * The sessions of the storage app (app/storage/client_tipc.c)

    An app connects to the storage app and sends requests about its files.  A session
    keeps a table of open files and a transaction (transaction.c); the handlers parse
    the requests, whose every byte is the client's, and work on files one block at a
    time.  The layer below (file.c and the trees under it) is an interface,
    [file_layer]: the theorems hold for every one, those about contents for one that
    keeps them ([keeps_contents]). *)

From stdpp Require Import base tactics list sets.
From Stdlib Require Import ZArith Lia.
From S2P Require Import Prelude Super TipcNs.

Definition STORAGE_RESP_MSG_ERR : Z := STORAGE_RESP_BIT.
Definition STORAGE_FILE_DELETE : Z := Z.shiftl 1 1.
Definition STORAGE_FILE_GET_SIZE : Z := Z.shiftl 6 1.
Definition STORAGE_FILE_SET_SIZE : Z := Z.shiftl 7 1.
Definition STORAGE_END_TRANSACTION : Z := Z.shiftl 9 1.
Definition STORAGE_ERR_GENERIC : Z := 1.
Definition STORAGE_ERR_UNIMPLEMENTED : Z := 3.
Definition STORAGE_ERR_NOT_FOUND : Z := 5.
Definition STORAGE_ERR_EXIST : Z := 6.
Definition STORAGE_ERR_TRANSACT : Z := 7.
Definition STORAGE_FILE_DELETE_MASK : Z := 0.
Definition STORAGE_FILE_OPEN_CREATE_EXCLUSIVE : Z := 2.
Definition STORAGE_FILE_OPEN_TRUNCATE : Z := 4.
Definition STORAGE_FILE_OPEN_MASK : Z := 7.
Definition STORAGE_MSG_FLAG_TRANSACT_COMPLETE : Z := STORAGE_MSG_FLAG_POST_COMMIT.
Definition STORAGE_MAX_BUFFER_SIZE : Z := 4096.
Definition STORAGE_MAX_OPEN_FILES : Z := 128.
Definition FS_PATH_MAX : Z := 64 + 128.

(** ** Names and paths *)

(** [uuid_t] *)
Record uuid := Uuid { time_low : Z; time_mid : Z; time_hi_and_version : Z; clock_seq_and_node : list Z }.

Definition valid_char (c : Z) : bool :=
  ((97 <=? c) && (c <=? 122)) || ((65 <=? c) && (c <=? 90)) || ((48 <=? c) && (c <=? 57)) || (c =? 46) || (c =? 45) || (c =? 95).
Definition is_valid_name (name : list Z) : bool := negb (bool_decide (name = [])) && forallb valid_char name.

(** printf's %x in lower case, with [n] digits. *)
Definition hex_digit (d : Z) : Z := if d <? 10 then 48 + d else 87 + d.
Fixpoint hex (n : nat) (v : Z) : list Z :=
  match n with
  | O => []
  | S n' => hex n' (v / 16) ++ [hex_digit (v mod 16)]
  end.

Definition path_dir (u : uuid) : list Z :=
  hex 8 (time_low u) ++ hex 4 (time_mid u) ++ hex 4 (time_hi_and_version u) ++ (clock_seq_and_node u ≫= hex 2) ++ [47].

(** The status and the path that is left in the buffer. *)
Definition get_path (path_out_size : Z) (u : uuid) (file_name : list Z) : Z * list Z :=
  let rc := Z.of_nat (length (path_dir u)) in
  if rc + Z.of_nat (length file_name) >=? path_out_size then (STORAGE_ERR_NOT_VALID, []) else (STORAGE_NO_ERROR, path_dir u ++ file_name).

(** ** The layer below *)

Inductive file_create_mode := FILE_OPEN_NO_CREATE | FILE_OPEN_CREATE | FILE_OPEN_CREATE_EXCLUSIVE.

(** file.c as the sessions use it, on its state [T].  A file is named by the address
    of its [struct file_handle].  The [bool] next to the result of an operation tells
    that it has failed the transaction. *)
Record file_layer (T : Type) := FileLayer {
  file_block_size : Z;
  fl_open : list Z -> Z -> file_create_mode -> T -> bool * bool * T;
  fl_close : Z -> T -> T;
  fl_delete : list Z -> T -> bool * bool * T;
  fl_size : T -> Z -> Z;
  fl_get_block : Z -> Z -> T -> option (list Z) * bool * T;
  fl_get_block_write : Z -> Z -> bool -> T -> option (list Z) * bool * T;
  fl_put_dirty : Z -> Z -> list Z -> T -> bool * T;
  fl_get_size : Z -> T -> option Z * T;
  fl_set_size : Z -> Z -> T -> bool * T;
  (** The commit of [transaction_complete]: whether it went through. *)
  fl_commit : T -> bool * T;
  (** What [transaction_fail] discards. *)
  fl_discard : T -> T;
  (** [transaction_activate] *)
  fl_activate : T -> T;
}.
Arguments file_block_size {T}.
Arguments fl_open {T}.
Arguments fl_close {T}.
Arguments fl_delete {T}.
Arguments fl_size {T}.
Arguments fl_get_block {T}.
Arguments fl_get_block_write {T}.
Arguments fl_put_dirty {T}.
Arguments fl_get_size {T}.
Arguments fl_set_size {T}.
Arguments fl_commit {T}.
Arguments fl_discard {T}.
Arguments fl_activate {T}.

(** ** State *)

(** [struct transaction], what its users see: whether it is on the active list and its
    flags. *)
Record transaction := Tr { tr_active : bool; tr_failed : bool; tr_complete : bool }.

(** [struct storage_client_session] and what it lives in: [cs_files] is the table,
    [cs_live] the file handles that are allocated, [cs_open] those on the open_files
    list of the transaction.  [cs_allocs]: the answers of the allocator to come,
    [cs_status]: those of [send_msg]; [cs_sent]: what was sent, latest first. *)
Record cstate {T : Type} := CS {
  cs_uuid : uuid;
  cs_tr : transaction;
  cs_files : list (option Z);
  cs_live : list Z;
  cs_open : list Z;
  cs_next : Z;
  cs_allocs : list bool;
  cs_status : list Z;
  cs_sent : list (list Z);
  cs_fs : T;
}.
Arguments cstate T : clear implicits.
Arguments CS {T}.

Section client.
Context {T : Type} (fl : file_layer T).
Abbreviation K := (M (cstate T)).

Definition set_tr (v : transaction) (s : cstate T) : cstate T := CS (cs_uuid s) v (cs_files s) (cs_live s) (cs_open s) (cs_next s) (cs_allocs s) (cs_status s) (cs_sent s) (cs_fs s).
Definition set_files (v : list (option Z)) (s : cstate T) : cstate T := CS (cs_uuid s) (cs_tr s) v (cs_live s) (cs_open s) (cs_next s) (cs_allocs s) (cs_status s) (cs_sent s) (cs_fs s).
Definition set_live (v : list Z) (s : cstate T) : cstate T := CS (cs_uuid s) (cs_tr s) (cs_files s) v (cs_open s) (cs_next s) (cs_allocs s) (cs_status s) (cs_sent s) (cs_fs s).
Definition set_open (v : list Z) (s : cstate T) : cstate T := CS (cs_uuid s) (cs_tr s) (cs_files s) (cs_live s) v (cs_next s) (cs_allocs s) (cs_status s) (cs_sent s) (cs_fs s).
Definition set_next (v : Z) (s : cstate T) : cstate T := CS (cs_uuid s) (cs_tr s) (cs_files s) (cs_live s) (cs_open s) v (cs_allocs s) (cs_status s) (cs_sent s) (cs_fs s).
Definition set_allocs (v : list bool) (s : cstate T) : cstate T := CS (cs_uuid s) (cs_tr s) (cs_files s) (cs_live s) (cs_open s) (cs_next s) v (cs_status s) (cs_sent s) (cs_fs s).
Definition set_sent (st : list Z) (v : list (list Z)) (s : cstate T) : cstate T := CS (cs_uuid s) (cs_tr s) (cs_files s) (cs_live s) (cs_open s) (cs_next s) (cs_allocs s) st v (cs_fs s).
Definition set_fs (v : T) (s : cstate T) : cstate T := CS (cs_uuid s) (cs_tr s) (cs_files s) (cs_live s) (cs_open s) (cs_next s) (cs_allocs s) (cs_status s) (cs_sent s) v.

(** Whether an allocation succeeds. *)
Definition alloc : K bool := fun s =>
  match cs_allocs s with
  | b :: bs => Ret b (set_allocs bs s)
  | [] => Ret true s
  end.

(** ** Transactions (transaction.c) *)

Definition transaction_delete_active : K unit :=
  s ← get;
  assert_ (tr_active (cs_tr s));;
  modify (fun s => set_tr (Tr false (tr_failed (cs_tr s)) (tr_complete (cs_tr s))) s).

Definition transaction_fail : K unit :=
  s ← get;
  assert_ (negb (tr_failed (cs_tr s)));;
  modify (fun s => set_tr (Tr (tr_active (cs_tr s)) true (tr_complete (cs_tr s))) s);;
  if tr_complete (cs_tr s) then mret tt
  else
    modify (fun s => set_fs (fl_discard fl (cs_fs s)) s);;
    transaction_delete_active.

(** An operation of the layer below that may fail the transaction: one that has
    failed before is left alone. *)
Definition may_fail (failed : bool) : K unit :=
  s ← get;
  when (failed && negb (tr_failed (cs_tr s))) transaction_fail.

Definition transaction_activate : K unit :=
  s ← get;
  assert_ (negb (tr_active (cs_tr s)));;
  modify (fun s => set_fs (fl_activate fl (cs_fs s)) (set_tr (Tr true false false) s)).

Definition transaction_complete : K unit :=
  s ← get;
  assert_ (negb (tr_complete (cs_tr s)));;
  if tr_failed (cs_tr s) then mret tt
  else
    assert_ (tr_active (cs_tr s));;
    let '(done, t) := fl_commit fl (cs_fs s) in
    modify (set_fs t);;
    if negb done then transaction_fail
    else
      transaction_delete_active;;
      modify (fun s => set_tr (Tr (tr_active (cs_tr s)) (tr_failed (cs_tr s)) true) s).

Definition transaction_free : K unit :=
  s ← get;
  assert_ (negb (tr_active (cs_tr s)));;
  assert_ (bool_decide (cs_open s = [])).

(** ** Files (file.c), on live handles *)

Definition live (h : Z) : K unit := s ← get; if bool_decide (h ∈ cs_live s) then mret tt else raise BadPointer.

Definition file_open (path : list Z) (h : Z) (mode : file_create_mode) : K bool :=
  live h;;
  s ← get;
  let '(found, failed, t) := fl_open fl path h mode (cs_fs s) in
  modify (set_fs t);;
  may_fail failed;;
  when found (modify (fun s => set_open (h :: cs_open s) s));;
  mret found.

(** [list_delete] of a node that is on no list follows NULL. *)
Definition file_close (h : Z) : K unit :=
  live h;;
  s ← get;
  if bool_decide (h ∈ cs_open s) then modify (fun s => set_fs (fl_close fl h (cs_fs s)) (set_open (filter (fun x => x <> h) (cs_open s)) s))
  else raise NullDeref.

Definition file_delete (path : list Z) : K bool :=
  s ← get;
  let '(found, failed, t) := fl_delete fl path (cs_fs s) in
  modify (set_fs t);; may_fail failed;; mret found.

Definition file_size (h : Z) : K Z := live h;; s ← get; mret (fl_size fl (cs_fs s) h).

Definition file_set_size (h size : Z) : K unit :=
  live h;;
  s ← get;
  let '(failed, t) := fl_set_size fl h size (cs_fs s) in
  modify (set_fs t);; may_fail failed.

Definition file_get_size (h : Z) : K (option Z) :=
  live h;;
  s ← get;
  if tr_failed (cs_tr s) then mret None
  else let '(r, t) := fl_get_size fl h (cs_fs s) in modify (set_fs t);; mret r.

Definition file_get_block (h b : Z) : K (option (list Z)) :=
  live h;;
  s ← get;
  let '(r, failed, t) := fl_get_block fl h b (cs_fs s) in
  modify (set_fs t);; may_fail failed;; mret r.

Definition file_get_block_write (h b : Z) (read : bool) : K (option (list Z)) :=
  live h;;
  s ← get;
  let '(r, failed, t) := fl_get_block_write fl h b read (cs_fs s) in
  modify (set_fs t);; may_fail failed;; mret r.

Definition file_block_put_dirty (h b : Z) (data : list Z) : K unit :=
  live h;;
  s ← get;
  let '(failed, t) := fl_put_dirty fl h b data (cs_fs s) in
  modify (set_fs t);; may_fail failed.

(** ** The table of files *)

Definition session_set_files_count (files_count : Z) : K Z :=
  if files_count >? STORAGE_MAX_OPEN_FILES then mret STORAGE_ERR_NOT_VALID
  else
    ok ← alloc;
    if negb ok then mret STORAGE_ERR_GENERIC
    else modify (fun s => set_files (resize (Z.to_nat files_count) None (cs_files s)) s);; mret STORAGE_NO_ERROR.

(** The length of the table without the free slots at its end.  ([realloc] to no bytes
    returns a table of none: dlmalloc is built without REALLOC_ZERO_BYTES_FREES.) *)
Fixpoint used_length (files : list (option Z)) : nat :=
  match files with
  | [] => 0%nat
  | f :: files' => match used_length files', f with O, None => O | n, _ => S n end
  end.

Definition session_shrink_files : K unit :=
  s ← get;
  let handle := used_length (cs_files s) in
  if (handle <? length (cs_files s))%nat then _ ← session_set_files_count (Z.of_nat handle); mret tt else mret tt.

(** free() *)
Definition free_file (h : Z) : K unit :=
  live h;; modify (fun s => set_live (filter (fun x => x <> h) (cs_live s)) s).

Fixpoint close_loop (files : list (option Z)) : K unit :=
  match files with
  | [] => mret tt
  | None :: files' => close_loop files'
  | Some file :: files' => file_close file;; free_file file;; close_loop files'
  end.

Definition session_close_all_files : K unit :=
  s ← get;
  close_loop (cs_files s);;
  modify (set_files []).

(** The first free slot, or the length of the table. *)
Fixpoint first_free (files : list (option Z)) : nat :=
  match files with
  | [] => 0%nat
  | None :: _ => 0%nat
  | Some _ :: files' => S (first_free files')
  end.

(** The status, the handle and the file. *)
Definition create_file_handle : K (Z * (Z * Z)) :=
  s ← get;
  let handle := first_free (cs_files s) in
  result ← (if (length (cs_files s) <=? handle)%nat then session_set_files_count (Z.of_nat handle + 1) else mret STORAGE_NO_ERROR : K Z);
  if negb (result =? STORAGE_NO_ERROR) then mret (result, (0, 0))
  else
    ok ← alloc;
    if negb ok then mret (STORAGE_ERR_GENERIC, (0, 0))
    else
      s ← get;
      let file := cs_next s in
      modify (fun s => set_next (file + 1) (set_live (file :: cs_live s) s));;
      if (handle <? length (cs_files s))%nat then
        modify (fun s => set_files (<[handle := Some file]> (cs_files s)) s);;
        mret (STORAGE_NO_ERROR, (Z.of_nat handle, file))
      else raise BadPointer.

Definition free_file_handle (handle : Z) : K unit :=
  s ← get;
  if handle >=? Z.of_nat (length (cs_files s)) then mret tt
  else
    slot ← deref BadPointer (cs_files s !! Z.to_nat handle);
    match slot with
    | None => mret tt
    | Some file =>
        free_file file;;
        modify (fun s => set_files (<[Z.to_nat handle := None]> (cs_files s)) s);;
        session_shrink_files
    end.

Definition get_file_handle (handle : Z) : K (option Z) :=
  s ← get;
  if handle >=? Z.of_nat (length (cs_files s)) then mret None
  else deref BadPointer (cs_files s !! Z.to_nat handle).

(** ** The requests

    A request is its header and the bytes after it; the result is a status, with the
    payload of the answer where there is one. *)

Definition flag_complete (msg : storage_msg) : bool := has_flag (sm_flags msg) STORAGE_MSG_FLAG_TRANSACT_COMPLETE.

(** Complete the transaction where the request says so, and the status then. *)
Definition finish (msg : storage_msg) : K Z :=
  if flag_complete msg then
    transaction_complete;;
    s ← get;
    mret (if tr_failed (cs_tr s) then STORAGE_ERR_GENERIC else STORAGE_NO_ERROR)
  else mret STORAGE_NO_ERROR.

Definition storage_file_delete (msg : storage_msg) (req : list Z) : K Z :=
  if Z.of_nat (length req) <? 4 then mret STORAGE_ERR_NOT_VALID
  else
    let flags := le_val (field 0 4 req) in
    if negb (Z.ldiff flags STORAGE_FILE_DELETE_MASK =? 0) then mret STORAGE_ERR_NOT_VALID
    else
      let fname := drop 4 req in
      if negb (is_valid_name fname) then mret STORAGE_ERR_NOT_VALID
      else
        s ← get;
        let '(result, path_buf) := get_path FS_PATH_MAX (cs_uuid s) fname in
        if negb (result =? STORAGE_NO_ERROR) then mret result
        else
          deleted ← file_delete path_buf;
          s ← get;
          if tr_failed (cs_tr s) then mret STORAGE_ERR_GENERIC
          else if negb deleted then mret STORAGE_ERR_NOT_FOUND
          else finish msg.

Definition open_mode (flags : Z) : file_create_mode :=
  if has_flag flags STORAGE_FILE_OPEN_CREATE then
    if has_flag flags STORAGE_FILE_OPEN_CREATE_EXCLUSIVE then FILE_OPEN_CREATE_EXCLUSIVE else FILE_OPEN_CREATE
  else FILE_OPEN_NO_CREATE.

(** [err_transaction_failed] *)
Definition open_failed (file f_handle : Z) : K (Z * list Z) :=
  file_close file;; free_file_handle f_handle;; mret (STORAGE_ERR_GENERIC, []).

Definition storage_file_open (msg : storage_msg) (req : list Z) : K (Z * list Z) :=
  if Z.of_nat (length req) <? 4 then mret (STORAGE_ERR_NOT_VALID, [])
  else
    let flags := le_val (field 0 4 req) in
    if negb (Z.ldiff flags STORAGE_FILE_OPEN_MASK =? 0) then mret (STORAGE_ERR_NOT_VALID, [])
    else
      let fname := drop 4 req in
      if negb (is_valid_name fname) then mret (STORAGE_ERR_NOT_VALID, [])
      else
        s ← get;
        let '(result, path_buf) := get_path FS_PATH_MAX (cs_uuid s) fname in
        if negb (result =? STORAGE_NO_ERROR) then mret (result, [])
        else
          '(result, (f_handle, file)) ← create_file_handle;
          if negb (result =? STORAGE_NO_ERROR) then mret (result, [])
          else
            found ← file_open path_buf file (open_mode flags);
            if negb found then
              s ← get;
              free_file_handle f_handle;;
              mret ((if tr_failed (cs_tr s) then STORAGE_ERR_GENERIC
                     else if has_flag flags STORAGE_FILE_OPEN_CREATE then STORAGE_ERR_EXIST else STORAGE_ERR_NOT_FOUND), [])
            else
              size ← file_size file;
              when (has_flag flags STORAGE_FILE_OPEN_TRUNCATE && negb (size =? 0)) (file_set_size file 0);;
              s ← get;
              if tr_failed (cs_tr s) then open_failed file f_handle
              else
                result ← finish msg;
                if negb (result =? STORAGE_NO_ERROR) then open_failed file f_handle
                else mret (STORAGE_NO_ERROR, le_bytes 4 f_handle).

Definition storage_file_close (msg : storage_msg) (req : list Z) : K Z :=
  if Z.of_nat (length req) <? 4 then mret STORAGE_ERR_NOT_VALID
  else
    let handle := le_val (field 0 4 req) in
    file ← get_file_handle handle;
    match file with
    | None => mret STORAGE_ERR_NOT_VALID
    | Some file => file_close file;; free_file_handle handle;; finish msg
    end.

(** The bytes of a block from [off] on; outside of the block is a fault. *)
Definition from_block (data : list Z) (off len : Z) : K (list Z) :=
  if (0 <=? off) && (0 <=? len) && (off + len <=? Z.of_nat (length data)) then mret (take (Z.to_nat len) (drop (Z.to_nat off) data)) else raise BadPointer.
Definition into_block (data : list Z) (off : Z) (bytes : list Z) : K (list Z) :=
  if (0 <=? off) && (off + Z.of_nat (length bytes) <=? Z.of_nat (length data))
  then mret (take (Z.to_nat off) data ++ bytes ++ drop (Z.to_nat off + length bytes) data) else raise BadPointer.

(** How much of the block at [offset] is used. *)
Definition chunk (offset bytes_left : Z) : Z :=
  let block_offset := offset mod file_block_size fl in
  if block_offset + bytes_left >? file_block_size fl then file_block_size fl - block_offset else bytes_left.

(** [None]: a block could not be read.  [pos]: the offset in the message buffer, which
    is [STORAGE_MAX_BUFFER_SIZE] long. *)
Fixpoint read_loop (fuel : nat) (file offset bytes_left pos : Z) (acc : list Z) : K (option (list Z)) :=
  match fuel with
  | O => raise OutOfFuel
  | S fuel' =>
      if bytes_left =? 0 then mret (Some acc)
      else
        block_data ← file_get_block file (offset / file_block_size fl);
        match block_data with
        | None => mret None
        | Some block_data =>
            let len := chunk offset bytes_left in
            bytes ← from_block block_data (offset mod file_block_size fl) len;
            if pos + len >? STORAGE_MAX_BUFFER_SIZE then raise BadPointer
            else read_loop fuel' file (u64 (offset + len)) (bytes_left - len) (pos + len) (acc ++ bytes)
        end
  end.

Definition storage_file_read (msg : storage_msg) (req : list Z) : K (Z * list Z) :=
  if Z.of_nat (length req) <? 16 then mret (STORAGE_ERR_NOT_VALID, [])
  else
    let handle := le_val (field 0 4 req) in
    file ← get_file_handle handle;
    match file with
    | None => mret (STORAGE_ERR_NOT_VALID, [])
    | Some file =>
        let buflen := le_val (field 4 4 req) in
        if buflen >? STORAGE_MAX_BUFFER_SIZE - sizeof_storage_msg then mret (STORAGE_ERR_NOT_VALID, [])
        else
          let offset := le_val (field 8 8 req) in
          size ← file_size file;
          if offset >? size then mret (STORAGE_ERR_NOT_VALID, [])
          else
            let bytes_left := if u64 (offset + buflen) >? size then u32 (size - offset) else buflen in
            r ← read_loop (S (Z.to_nat bytes_left)) file offset bytes_left sizeof_storage_msg [];
            match r with
            | None => mret (STORAGE_ERR_GENERIC, [])
            | Some bytes => mret (STORAGE_NO_ERROR, bytes)
            end
    end.

(** The offset after the last byte, [None] when a block could not be had. *)
Fixpoint write_loop (fuel : nat) (file offset : Z) (buf : list Z) : K (option Z) :=
  match fuel with
  | O => raise OutOfFuel
  | S fuel' =>
      let bytes_left := Z.of_nat (length buf) in
      if bytes_left =? 0 then mret (Some offset)
      else
        let block_num := offset / file_block_size fl in
        let len := chunk offset bytes_left in
        block_data ← file_get_block_write file block_num (negb (len =? file_block_size fl));
        match block_data with
        | None => mret None
        | Some block_data =>
            data ← into_block block_data (offset mod file_block_size fl) (take (Z.to_nat len) buf);
            file_block_put_dirty file block_num data;;
            write_loop fuel' file (u64 (offset + len)) (drop (Z.to_nat len) buf)
        end
  end.

Definition storage_file_write (msg : storage_msg) (req : list Z) : K Z :=
  if Z.of_nat (length req) <=? 16 then mret STORAGE_ERR_NOT_VALID
  else
    file ← get_file_handle (le_val (field 8 4 req));
    match file with
    | None => mret STORAGE_ERR_NOT_VALID
    | Some file =>
        let offset := le_val (field 0 8 req) in
        size ← file_size file;
        if offset >? size then mret STORAGE_ERR_NOT_VALID
        else
          let buf := drop 16 req in
          r ← write_loop (S (length buf)) file offset buf;
          match r with
          | None =>
              s ← get;
              when (negb (tr_failed (cs_tr s))) (transaction_fail);;
              mret STORAGE_ERR_GENERIC
          | Some offset =>
              size ← file_size file;
              when (offset >? size) (file_set_size file offset);;
              s ← get;
              if tr_failed (cs_tr s) then mret STORAGE_ERR_GENERIC else finish msg
          end
    end.

(** The size is compared with that of a pointer, 4 on 32-bit ARM. *)
Definition storage_file_get_size (req : list Z) : K (Z * list Z) :=
  if negb (Z.of_nat (length req) =? 4) then mret (STORAGE_ERR_NOT_VALID, [])
  else
    file ← get_file_handle (le_val (field 0 4 req));
    match file with
    | None => mret (STORAGE_ERR_NOT_VALID, [])
    | Some file =>
        r ← file_get_size file;
        match r with
        | None => mret (STORAGE_ERR_NOT_VALID, [])
        | Some size => mret (STORAGE_NO_ERROR, le_bytes 8 size)
        end
    end.

Definition storage_file_set_size (msg : storage_msg) (req : list Z) : K Z :=
  if negb (Z.of_nat (length req) =? 16) then mret STORAGE_ERR_NOT_VALID
  else
    let new_size := le_val (field 0 8 req) in
    file ← get_file_handle (le_val (field 8 4 req));
    match file with
    | None => mret STORAGE_ERR_NOT_VALID
    | Some file =>
        size ← file_size file;
        if new_size >? size then mret STORAGE_ERR_NOT_VALID
        else
          when (negb (new_size =? size)) (file_set_size file new_size);;
          when (flag_complete msg) (transaction_complete);;
          s ← get;
          mret (if tr_failed (cs_tr s) then STORAGE_ERR_GENERIC else STORAGE_NO_ERROR)
    end.

(** ** Messages *)

Definition send_msg (bytes : list Z) : K Z := fun s =>
  match cs_status s with
  | r :: rs => Ret r (set_sent rs (bytes :: cs_sent s) s)
  | [] => Ret NO_ERROR (set_sent [] (bytes :: cs_sent s) s)
  end.

Definition send_response (result : Z) (msg : storage_msg) (out : list Z) : K Z :=
  let msg' := StorageMsg (Z.lor (sm_cmd msg) STORAGE_RESP_BIT) (sm_op_id msg) 0 (sizeof_storage_msg + Z.of_nat (length out)) result (sm_reserved msg) in
  send_msg (encode_msg msg' ++ (if result =? STORAGE_NO_ERROR then out else [])).

Definition send_result (msg : storage_msg) (result : Z) : K Z := send_response result msg [].

(** [session->tr.failed = false] *)
Definition clear_failed : K unit := modify (fun s => set_tr (Tr (tr_active (cs_tr s)) false (tr_complete (cs_tr s))) s).

Definition end_transaction (msg : storage_msg) : K Z :=
  s ← get;
  if flag_complete msg then
    when (tr_active (cs_tr s)) (transaction_complete);;
    s ← get;
    if tr_failed (cs_tr s) then clear_failed;; send_result msg STORAGE_ERR_TRANSACT
    else send_result msg STORAGE_NO_ERROR
  else
    when (tr_active (cs_tr s)) (transaction_fail);;
    clear_failed;;
    send_result msg STORAGE_NO_ERROR.

Definition dispatch (msg : storage_msg) (payload : list Z) : K Z :=
  let cmd := sm_cmd msg in
  if cmd =? STORAGE_FILE_DELETE then result ← storage_file_delete msg payload; send_result msg result
  else if cmd =? STORAGE_FILE_OPEN then '(result, out) ← storage_file_open msg payload; send_response result msg out
  else if cmd =? STORAGE_FILE_CLOSE then result ← storage_file_close msg payload; send_result msg result
  else if cmd =? STORAGE_FILE_WRITE then result ← storage_file_write msg payload; send_result msg result
  else if cmd =? STORAGE_FILE_READ then '(result, out) ← storage_file_read msg payload; send_response result msg out
  else if cmd =? STORAGE_FILE_GET_SIZE then '(result, out) ← storage_file_get_size payload; send_response result msg out
  else if cmd =? STORAGE_FILE_SET_SIZE then result ← storage_file_set_size msg payload; send_result msg result
  else send_result msg STORAGE_ERR_UNIMPLEMENTED.

Definition client_handle_msg (msg_buf : list Z) : K Z :=
  if Z.of_nat (length msg_buf) <? sizeof_storage_msg then
    _ ← send_result (StorageMsg STORAGE_RESP_MSG_ERR 0 0 0 0 0) STORAGE_ERR_NOT_VALID;
    mret ERR_NOT_VALID
  else
    let msg := decode_msg (take 24 msg_buf) in
    let payload := drop 24 msg_buf in
    if sm_cmd msg =? STORAGE_END_TRANSACTION then end_transaction msg
    else
      s ← get;
      if tr_failed (cs_tr s) then
        when (flag_complete msg) clear_failed;;
        send_result msg STORAGE_ERR_TRANSACT
      else
        when (negb (tr_active (cs_tr s))) (transaction_activate);;
        dispatch msg payload.

Definition client_disconnect : K unit :=
  s ← get;
  when (tr_active (cs_tr s) && negb (tr_failed (cs_tr s))) (transaction_fail);;
  session_close_all_files;;
  transaction_free.
End client.

(** [client_connect], when there is memory. *)
Definition client_connect {T} (peer_uuid : uuid) (allocs : list bool) (status : list Z) (t : T) : cstate T :=
  CS peer_uuid (Tr false false false) [] [] [] 1 allocs status [] t.

(** ** A session

    Messages of the client, commits of other sessions that fail this one's
    transaction, and the end of the connection: the client hangs up, or a handler
    returned an error (ipc.c then disconnects it). *)
Inductive event := Message (bytes : list Z) | Conflict | Hangup.

Section run.
Context {T : Type} (fl : file_layer T).

Definition conflict : M (cstate T) unit := s ← get; when (tr_active (cs_tr s)) (transaction_fail fl).

(** Whether the session has ended. *)
Fixpoint client_run (evs : list event) : M (cstate T) bool :=
  match evs with
  | [] => mret false
  | Message bytes :: evs' =>
      rc ← client_handle_msg fl bytes;
      if rc <? 0 then client_disconnect fl;; mret true else client_run evs'
  | Conflict :: evs' => conflict;; client_run evs'
  | Hangup :: _ => client_disconnect fl;; mret true
  end.
End run.

(** ** The invariant *)

(** Between requests, and within one. *)
Definition tr_ok (t : transaction) : Prop := (tr_failed t = true -> tr_active t = false) /\ (tr_active t = true -> tr_complete t = false).
Definition tr_busy (t : transaction) : Prop := tr_complete t = false /\ tr_active t = negb (tr_failed t).

Lemma busy_ok t : tr_busy t -> tr_ok t.
Proof. intros [H1 H2]. split; [|done]. intros Hf. by rewrite H2, Hf. Qed.

(** The handles in the table. *)
Definition handles (files : list (option Z)) : list Z := omap id files.

(** The handles of the table are those that are allocated, and all but [pend] are
    open. *)
Record files_ok {T} (pend : list Z) (s : cstate T) : Prop := {
  fk_nodup : NoDup (handles (cs_files s));
  fk_live : forall h, h ∈ cs_live s <-> h ∈ handles (cs_files s);
  fk_open : forall h, h ∈ cs_open s <-> h ∈ handles (cs_files s) /\ h ∉ pend;
  fk_next : forall h, h ∈ handles (cs_files s) -> h < cs_next s;
  fk_count : Z.of_nat (length (cs_files s)) <= STORAGE_MAX_OPEN_FILES;
}.

(** What an operation on the layer below leaves alone. *)
Definition same {T} (s s' : cstate T) : Prop :=
  cs_uuid s' = cs_uuid s /\ cs_files s' = cs_files s /\ cs_live s' = cs_live s /\ cs_open s' = cs_open s /\ cs_next s' = cs_next s /\
  cs_sent s' = cs_sent s.

#[export] Instance same_preorder {T} : PreOrder (@same T).
Proof. split; [by intros s|]. intros s1 s2 s3 (A1 & A2 & A3 & A4 & A5 & A6) (B1 & B2 & B3 & B4 & B5 & B6). repeat split; congruence. Qed.

Lemma same_files_ok {T} pend (s s' : cstate T) : same s s' -> files_ok pend s -> files_ok pend s'.
Proof. intros (E0 & E1 & E2 & E3 & E4 & _) [H1 H2 H3 H4 H5]. split; rewrite ?E1, ?E2, ?E3, ?E4; done. Qed.

Section steps.
Context {T : Type} (fl : file_layer T).
Implicit Types (s : cstate T).

(** Within a request: the operations that leave the table alone. *)
Definition quiet {A} (m : M (cstate T) A) : Prop := forall s, tr_busy (cs_tr s) -> wp m (fun _ s' => tr_busy (cs_tr s') /\ same s s') s.

Lemma quiet_fail s : tr_active (cs_tr s) = true -> tr_failed (cs_tr s) = false -> tr_complete (cs_tr s) = false ->
  wp (transaction_fail fl) (fun _ s' => cs_tr s' = Tr false true false /\ same s s') s.
Proof.
  intros Ha Hf Hc. unfold transaction_fail, transaction_delete_active. apply wp_bind, wp_get. apply wp_bind, wp_assert; [by rewrite Hf|]. apply wp_bind, wp_modify. rewrite Hc.
  apply wp_bind, wp_modify. apply wp_bind, wp_get. apply wp_bind, wp_assert; [exact Ha|]. apply wp_modify. split; [|done]. cbn. by rewrite ?Hc.
Qed.

Lemma quiet_may_fail b : quiet (may_fail fl b).
Proof.
  intros s [Hc Ha]. unfold may_fail. apply wp_bind, wp_get. apply wp_when; [|intros _; done].
  intros H. apply andb_true_iff in H as [_ H]. apply negb_true_iff in H. rewrite H in Ha. eapply wp_mono; [by apply quiet_fail|]. intros _ s' [E Hs]. rewrite E. done.
Qed.

Lemma quiet_bind {A B} (m : M (cstate T) A) (k : A -> M (cstate T) B) : quiet m -> (forall a, quiet (k a)) -> quiet (m ≫= k).
Proof.
  intros Hm Hk s Hb. apply wp_bind. eapply wp_mono; [by apply Hm|]. intros a s1 [Hb1 Hs1]. eapply wp_mono; [by apply Hk|]. intros b s2 [Hb2 Hs2]. split; [done|]. by transitivity s1.
Qed.
Lemma quiet_ret {A} (a : A) : quiet (mret a).
Proof. intros s Hb. apply wp_ret. done. Qed.
Lemma quiet_set_fs t : quiet (modify (set_fs t)).
Proof. intros s Hb. by apply wp_modify. Qed.

(** An operation of the layer below, from a state of its own. *)
Lemma quiet_get {A} (k : cstate T -> M (cstate T) A) : (forall s, quiet (k s)) -> quiet (s ← get; k s).
Proof. intros Hk s Hb. apply wp_bind, wp_get. by apply Hk. Qed.

(** The same with a live file. *)
Definition quiet_on {A} (h : Z) (m : M (cstate T) A) : Prop := forall s, tr_busy (cs_tr s) -> h ∈ cs_live s -> wp m (fun _ s' => tr_busy (cs_tr s') /\ same s s') s.

Lemma quiet_live {A} h (m : M (cstate T) A) : quiet m -> quiet_on h (live h;; m).
Proof. intros Hm s Hb Hl. unfold live. apply wp_bind, wp_bind, wp_get. rewrite bool_decide_true by done. apply wp_ret. by apply Hm. Qed.
Lemma quiet_quiet_on {A} h (m : M (cstate T) A) : quiet m -> quiet_on h m.
Proof. intros Hm s Hb _. by apply Hm. Qed.
Lemma quiet_on_bind {A B} h (m : M (cstate T) A) (k : A -> M (cstate T) B) : quiet_on h m -> (forall a, quiet_on h (k a)) -> quiet_on h (m ≫= k).
Proof.
  intros Hm Hk s Hb Hl. apply wp_bind. eapply wp_mono; [by apply Hm|]. intros a s1 [Hb1 Hs1]. eapply wp_mono; [apply Hk; [done|]|].
  - destruct Hs1 as (_ & _ & E & _). by rewrite E.
  - intros b s2 [Hb2 Hs2]. split; [done|]. by transitivity s1.
Qed.

Ltac quiet_step :=
  lazymatch goal with
  | |- quiet (mret _) => apply quiet_ret
  | |- quiet (may_fail _ _) => apply quiet_may_fail
  | |- quiet (modify (set_fs _)) => apply quiet_set_fs
  | |- quiet (get ≫= _) => apply quiet_get; intros ?
  | |- quiet (_ ≫= _) => apply quiet_bind; [|intros ?]
  | |- quiet (match ?e with _ => _ end) => destruct e
  end.

Lemma quiet_delete path : quiet (file_delete fl path).
Proof. unfold file_delete. repeat quiet_step. Qed.
Lemma quiet_size h : quiet_on h (file_size fl h).
Proof. apply quiet_live. repeat quiet_step. Qed.
Lemma quiet_set_size h n : quiet_on h (file_set_size fl h n).
Proof. apply quiet_live. repeat quiet_step. Qed.
Lemma quiet_get_size h : quiet_on h (file_get_size fl h).
Proof. apply quiet_live. repeat quiet_step. Qed.
Lemma quiet_put_dirty h b data : quiet_on h (file_block_put_dirty fl h b data).
Proof. apply quiet_live. repeat quiet_step. Qed.

(** Blocks have the size of a block. *)
Record blocks_ok : Prop := {
  bk_size : 0 < file_block_size fl;
  bk_read : forall h b t data f t', fl_get_block fl h b t = (Some data, f, t') -> Z.of_nat (length data) = file_block_size fl;
  bk_write : forall h b r t data f t', fl_get_block_write fl h b r t = (Some data, f, t') -> Z.of_nat (length data) = file_block_size fl;
}.
Context (Hbk : blocks_ok).

Definition block_of (o : option (list Z)) : Prop := match o with Some d => Z.of_nat (length d) = file_block_size fl | None => True end.

Lemma get_block_wp h b s : tr_busy (cs_tr s) -> h ∈ cs_live s -> wp (file_get_block fl h b) (fun r s' => block_of r /\ tr_busy (cs_tr s') /\ same s s') s.
Proof.
  intros Hb Hl. unfold file_get_block, live. apply wp_bind, wp_bind, wp_get. rewrite bool_decide_true by done. apply wp_ret. apply wp_bind, wp_get.
  destruct (fl_get_block fl h b (cs_fs s)) as [[r f] t] eqn:E. apply wp_bind, wp_modify. apply wp_bind. eapply wp_mono; [by apply quiet_may_fail|]. intros _ s1 [Hb1 Hs1]. apply wp_ret.
  split; [|done]. destruct r as [d|]; [|done]. by eapply bk_read.
Qed.
Lemma get_block_write_wp h b r s : tr_busy (cs_tr s) -> h ∈ cs_live s -> wp (file_get_block_write fl h b r) (fun r s' => block_of r /\ tr_busy (cs_tr s') /\ same s s') s.
Proof.
  intros Hb Hl. unfold file_get_block_write, live. apply wp_bind, wp_bind, wp_get. rewrite bool_decide_true by done. apply wp_ret. apply wp_bind, wp_get.
  destruct (fl_get_block_write fl h b r (cs_fs s)) as [[o f] t] eqn:E. apply wp_bind, wp_modify. apply wp_bind. eapply wp_mono; [by apply quiet_may_fail|]. intros _ s1 [Hb1 Hs1]. apply wp_ret.
  split; [|done]. destruct o as [d|]; [|done]. by eapply bk_write.
Qed.

(** A chunk is within its block and makes progress. *)
Lemma chunk_bounds offset n : 0 < n -> 0 < chunk fl offset n <= n /\ 0 <= offset mod file_block_size fl /\ offset mod file_block_size fl + chunk fl offset n <= file_block_size fl.
Proof.
  intros Hn. destruct Hbk as [Hp _ _]. pose proof (Z.mod_pos_bound offset (file_block_size fl) Hp). unfold chunk. destruct (Z.gtb_spec (offset mod file_block_size fl + n) (file_block_size fl)); lia.
Qed.

Lemma read_loop_quiet fuel : forall h offset n pos acc s, 0 <= n < Z.of_nat fuel -> pos + n <= STORAGE_MAX_BUFFER_SIZE -> tr_busy (cs_tr s) -> h ∈ cs_live s ->
  wp (read_loop fl fuel h offset n pos acc) (fun _ s' => tr_busy (cs_tr s') /\ same s s') s.
Proof.
  induction fuel as [|fuel IH]; intros h offset n pos acc s Hn Hp Hb Hl; [lia|]. cbn [read_loop]. destruct (Z.eqb_spec n 0); [by apply wp_ret|].
  apply wp_bind. eapply wp_mono; [by apply get_block_wp|]. intros [d|] s1 (Hd & Hb1 & Hs1); [|by apply wp_ret]. cbn in Hd. destruct (chunk_bounds offset n ltac:(lia)) as (C1 & C2 & C3).
  unfold from_block. destruct (Z.leb_spec 0 (offset mod file_block_size fl)); [|lia]. destruct (Z.leb_spec 0 (chunk fl offset n)); [|lia].
  destruct (Z.leb_spec (offset mod file_block_size fl + chunk fl offset n) (Z.of_nat (length d))); [|lia]. cbn [andb]. apply wp_bind, wp_ret.
  destruct (Z.gtb_spec (pos + chunk fl offset n) STORAGE_MAX_BUFFER_SIZE); [lia|]. eapply wp_mono; [apply IH; [lia|lia|done|]|].
  - destruct Hs1 as (_ & _ & E & _). by rewrite E.
  - intros r s2 [Hb2 Hs2]. split; [done|]. by transitivity s1.
Qed.

Lemma write_loop_quiet fuel : forall h offset buf s, (length buf < fuel)%nat -> tr_busy (cs_tr s) -> h ∈ cs_live s ->
  wp (write_loop fl fuel h offset buf) (fun _ s' => tr_busy (cs_tr s') /\ same s s') s.
Proof.
  induction fuel as [|fuel IH]; intros h offset buf s Hn Hb Hl; [lia|]. cbn [write_loop]. destruct (Z.eqb_spec (Z.of_nat (length buf)) 0); [by apply wp_ret|].
  apply wp_bind. eapply wp_mono; [by apply get_block_write_wp|]. intros [d|] s1 (Hd & Hb1 & Hs1); [|by apply wp_ret]. cbn in Hd.
  destruct (chunk_bounds offset (Z.of_nat (length buf)) ltac:(lia)) as (C1 & C2 & C3). set (len := chunk fl offset (Z.of_nat (length buf))) in *.
  unfold into_block. destruct (Z.leb_spec 0 (offset mod file_block_size fl)); [|lia]. rewrite length_take, Nat.min_l, Z2Nat.id by lia.
  destruct (Z.leb_spec (offset mod file_block_size fl + len) (Z.of_nat (length d))); [|lia]. cbn [andb]. apply wp_bind, wp_ret. apply wp_bind.
  assert (h ∈ cs_live s1) as Hl1 by (destruct Hs1 as (_ & _ & E & _); by rewrite E). eapply wp_mono; [by apply quiet_put_dirty|]. intros _ s2 [Hb2 Hs2].
  eapply wp_mono; [apply IH; [rewrite length_drop; lia|done|]|].
  - destruct Hs2 as (_ & _ & E & _). by rewrite E.
  - intros r s3 [Hb3 Hs3]. split; [done|]. by transitivity s2; [transitivity s1|].
Qed.
End steps.

(** ** The table *)

Lemma handles_app a b : handles (a ++ b) = handles a ++ handles b.
Proof. unfold handles. apply omap_app. Qed.

Lemma handles_split files i o : files !! i = Some o -> handles files = handles (take i files) ++ handles [o] ++ handles (drop (S i) files).
Proof. intros E. rewrite <- (take_drop_middle files i o E) at 1. change (o :: drop (S i) files) with ([o] ++ drop (S i) files). by rewrite !handles_app. Qed.

Lemma handles_set files i o o' : files !! i = Some o -> handles (<[i := o']> files) = handles (take i files) ++ handles [o'] ++ handles (drop (S i) files).
Proof.
  intros E. assert (i < length files)%nat as Hi by (by eapply lookup_lt_Some). rewrite (handles_split (<[i := o']> files) i o') by (by apply list_lookup_insert_eq).
  by rewrite take_insert_ge, drop_insert_lt by lia.
Qed.

Lemma handles_fill files i h : files !! i = Some None -> handles (<[i := Some h]> files) ≡ₚ h :: handles files.
Proof. intros E. rewrite (handles_set files i None _ E), (handles_split files i None E). cbn. by rewrite Permutation_middle. Qed.

Lemma handles_empty files i h : files !! i = Some (Some h) -> handles files ≡ₚ h :: handles (<[i := None]> files).
Proof. intros E. rewrite (handles_set files i (Some h) _ E), (handles_split files i (Some h) E). cbn. by rewrite Permutation_middle. Qed.

Lemma handles_nones n : handles (replicate n None) = [].
Proof. by induction n. Qed.

Lemma used_length_spec files : exists n, files = take (used_length files) files ++ replicate n None.
Proof.
  induction files as [|f files [n IH]]; [by exists 0%nat|]. cbn [used_length]. destruct (used_length files) as [|m] eqn:E.
  - change (files = replicate n None) in IH. subst files. destruct f as [h|]; [by exists n|by exists (S n)].
  - exists n. assert (f :: files = f :: take (S m) files ++ replicate n None) as H by (by rewrite <- IH). destruct f; exact H.
Qed.
Lemma used_length_le files : (used_length files <= length files)%nat.
Proof. induction files as [|[h|] files IH]; cbn; [lia| |]; destruct (used_length files); lia. Qed.

Lemma handles_shrink files : handles (resize (used_length files) None files) = handles files.
Proof.
  rewrite resize_le by apply used_length_le. destruct (used_length_spec files) as [n E]. rewrite E at 3. by rewrite handles_app, handles_nones, app_nil_r.
Qed.
Lemma handles_grow files n : (length files <= n)%nat -> handles (resize n None files) = handles files.
Proof. intros H. rewrite resize_ge by done. by rewrite handles_app, handles_nones, app_nil_r. Qed.

Lemma first_free_spec files : (first_free files <= length files)%nat /\ ((first_free files < length files)%nat -> files !! first_free files = Some None).
Proof. induction files as [|[h|] files [IH1 IH2]]; cbn; [lia| |split; [lia|done]]. split; [lia|]. intros H. apply IH2. lia. Qed.

Lemma lookup_handle files i h : files !! i = Some (Some h) -> h ∈ handles files.
Proof. intros E. unfold handles. apply list_elem_of_omap. exists (Some h). split; [by eapply list_elem_of_lookup_2|done]. Qed.

Section table.
Context {T : Type} (fl : file_layer T).
Implicit Types (s : cstate T).

(** What the operations on the table leave alone. *)
Definition calm s s' : Prop := cs_uuid s' = cs_uuid s /\ cs_tr s' = cs_tr s.

#[export] Instance calm_preorder : PreOrder calm.
Proof. split; [done|]. intros s1 s2 s3 [A1 A2] [B1 B2]. split; congruence. Qed.

(** A table with the same handles. *)
Lemma files_ok_table pend s s' : files_ok pend s -> handles (cs_files s') = handles (cs_files s) -> cs_live s' = cs_live s -> cs_open s' = cs_open s -> cs_next s' = cs_next s ->
  Z.of_nat (length (cs_files s')) <= STORAGE_MAX_OPEN_FILES -> files_ok pend s'.
Proof. intros [H1 H2 H3 H4 H5] E1 E2 E3 E4 Hc. split; rewrite ?E1, ?E2, ?E3, ?E4; done. Qed.

Lemma set_count_wp n s : 0 <= n -> wp (session_set_files_count n)
  (fun r s' => calm s s' /\ cs_live s' = cs_live s /\ cs_open s' = cs_open s /\ cs_next s' = cs_next s /\
    ((r = STORAGE_NO_ERROR /\ n <= STORAGE_MAX_OPEN_FILES /\ cs_files s' = resize (Z.to_nat n) None (cs_files s)) \/ (r <> STORAGE_NO_ERROR /\ cs_files s' = cs_files s))) s.
Proof.
  intros Hn. unfold session_set_files_count. destruct (Z.gtb_spec n STORAGE_MAX_OPEN_FILES); [apply wp_ret; repeat split; by right|]. apply wp_bind. unfold alloc, wp at 1.
  destruct (cs_allocs s) as [|[] bs]; cbn [negb]; try (apply wp_bind, wp_modify, wp_ret; repeat split; left; repeat split; lia || done). apply wp_ret. repeat split. by right.
Qed.

Lemma shrink_wp pend s : files_ok pend s -> wp session_shrink_files (fun _ s' => calm s s' /\ files_ok pend s') s.
Proof.
  intros Hf. unfold session_shrink_files. apply wp_bind, wp_get. destruct (Nat.ltb_spec (used_length (cs_files s)) (length (cs_files s))); [|by apply wp_ret].
  apply wp_bind. eapply wp_mono; [apply set_count_wp; lia|]. intros r s' (Hc & E1 & E2 & E3 & Hr). apply wp_ret. split; [done|]. pose proof (fk_count _ _ Hf).
  apply (files_ok_table pend s); try done; destruct Hr as [(_ & _ & E)|[_ E]]; rewrite E, ?Nat2Z.id; try done; [apply handles_shrink|]. rewrite length_resize. lia.
Qed.

Lemma live_wp h s (Q : unit -> cstate T -> Prop) : h ∈ cs_live s -> Q tt s -> wp (live h) Q s.
Proof. intros H HQ. unfold live. apply wp_bind, wp_get. rewrite bool_decide_true by done. by apply wp_ret. Qed.

Lemma close_wp h s : files_ok [] s -> h ∈ handles (cs_files s) -> wp (file_close fl h) (fun _ s' => calm s s' /\ cs_files s' = cs_files s /\ files_ok [h] s') s.
Proof.
  intros Hf Hh. unfold file_close. apply wp_bind, live_wp; [by apply Hf|]. apply wp_bind, wp_get. rewrite bool_decide_true by (apply Hf; set_solver). apply wp_modify. split; [done|]. split; [done|].
  destruct Hf as [H1 H2 H3 H4 H5]. split; try done. intros x. cbn. rewrite list_elem_of_filter, H3. set_solver.
Qed.

Lemma free_handle_wp i h s : files_ok [h] s -> cs_files s !! Z.to_nat i = Some (Some h) -> 0 <= i -> wp (free_file_handle i) (fun _ s' => calm s s' /\ files_ok [] s') s.
Proof.
  intros Hf El Hi. unfold free_file_handle. apply wp_bind, wp_get. pose proof (lookup_lt_Some _ _ _ El). destruct (Z.geb_spec i (Z.of_nat (length (cs_files s)))); [lia|].
  rewrite El. apply wp_bind. cbn [deref]. apply wp_ret. pose proof (lookup_handle _ _ _ El) as Hh. unfold free_file. apply wp_bind, wp_bind, live_wp; [by apply Hf|]. apply wp_modify. apply wp_bind, wp_modify.
  eapply wp_mono; [apply (shrink_wp [])|]; [|intros _ s' [Hc Hok]; done].
  destruct Hf as [H1 H2 H3 H4 H5]. pose proof (handles_empty _ _ _ El) as Hp. rewrite Hp in H1. apply NoDup_cons in H1 as [Hnot Hnd].
  assert (forall x, x ∈ handles (cs_files s) <-> x = h \/ x ∈ handles (<[Z.to_nat i := None]> (cs_files s))) as Hin by (intros x; rewrite Hp; set_solver).
  split; cbn.
  - done.
  - intros x. rewrite list_elem_of_filter, H2, Hin. set_solver.
  - intros x. rewrite H3, Hin. set_solver.
  - intros x Hx. apply H4, Hin. by right.
  - rewrite length_insert. done.
Qed.

Lemma create_wp s : files_ok [] s -> wp create_file_handle
  (fun '(r, (i, h)) s' => calm s s' /\ ((r <> STORAGE_NO_ERROR /\ files_ok [] s') \/
     (r = STORAGE_NO_ERROR /\ files_ok [h] s' /\ 0 <= i /\ cs_files s' !! Z.to_nat i = Some (Some h)))) s.
Proof.
  intros Hf. unfold create_file_handle. apply wp_bind, wp_get. destruct (first_free_spec (cs_files s)) as [F1 F2]. set (i := first_free (cs_files s)) in *. apply wp_bind.
  assert (wp (if (length (cs_files s) <=? i)%nat then session_set_files_count (Z.of_nat i + 1) else mret STORAGE_NO_ERROR)
    (fun r s' => calm s s' /\ files_ok [] s' /\ (r = STORAGE_NO_ERROR -> cs_files s' !! i = Some None)) s) as Hgrow.
  { destruct (Nat.leb_spec (length (cs_files s)) i); [|apply wp_ret; split; [done|]; split; [done|]; intros _; by apply F2].
    eapply wp_mono; [apply set_count_wp; lia|]. intros r s' (Hc & E1 & E2 & E3 & Hr). split; [done|]. assert (length (cs_files s) = i) as Hl by lia.
    destruct Hr as [(Er & Hmax & E)|[Er E]].
    - split; [apply (files_ok_table [] s); try done; rewrite E; [apply handles_grow; lia|rewrite length_resize; lia]|].
      intros _. rewrite E, resize_ge, lookup_app_r by lia. apply lookup_replicate. split; [done|lia].
    - split; [apply (files_ok_table [] s); try done; rewrite E; [done|apply Hf]|]. intros; congruence. }
  eapply wp_mono; [exact Hgrow|]. intros r s1 (Hc1 & Hf1 & Hslot). destruct (Z.eqb_spec r STORAGE_NO_ERROR) as [Er|Er]; cbn [negb]; [|apply wp_ret; split; [done|]; left; done].
  specialize (Hslot Er). apply wp_bind. unfold alloc, wp at 1.
  assert (forall s2, calm s1 s2 -> files_ok [] s2 -> cs_files s2 !! i = Some None -> wp (s ← get; let file := cs_next s in
      modify (fun s => set_next (file + 1) (set_live (file :: cs_live s) s));;
      if (i <? length (cs_files s))%nat then modify (fun s => set_files (<[i := Some file]> (cs_files s)) s);; mret (STORAGE_NO_ERROR, (Z.of_nat i, file)) else raise BadPointer)
    (fun '(r, (i, h)) s' => calm s s' /\ ((r <> STORAGE_NO_ERROR /\ files_ok [] s') \/ (r = STORAGE_NO_ERROR /\ files_ok [h] s' /\ 0 <= i /\ cs_files s' !! Z.to_nat i = Some (Some h)))) s2) as Hgo.
  { intros s2 Hc2 Hf2 Hsl. pose proof (lookup_lt_Some _ _ _ Hsl). apply wp_bind, wp_get. apply wp_bind, wp_modify. destruct (Nat.ltb_spec i (length (cs_files s2))); [|lia].
    apply wp_bind, wp_modify, wp_ret. split; [transitivity s1; [done|]; exact Hc2|]. right. split; [done|]. cbn. rewrite Nat2Z.id, list_lookup_insert_eq by done. split; [|split; [lia|done]].
    destruct Hf2 as [H1 H2 H3 H4 H5]. pose proof (handles_fill _ i (cs_next s2) Hsl) as Hp.
    assert (cs_next s2 ∉ handles (cs_files s2)) as Hnew by (intros Hx; specialize (H4 _ Hx); lia).
    split; cbn; [rewrite Hp; by constructor| | | |by rewrite length_insert].
    - intros x. rewrite Hp. set_solver.
    - intros x. rewrite Hp, H3. set_solver.
    - intros x. rewrite Hp. intros [->|Hx]%elem_of_cons; [lia|]. specialize (H4 _ Hx). lia. }
  destruct (cs_allocs s1) as [|[] bs]; cbn [negb]; [by apply Hgo|by apply Hgo; [|destruct Hf1|]|]. apply wp_ret. split; [transitivity s1; done|]. left. split; [done|]. by destruct Hf1.
Qed.

Lemma open_wp path h mode s : files_ok [h] s -> h ∈ handles (cs_files s) -> tr_busy (cs_tr s) ->
  wp (file_open fl path h mode) (fun found s' => cs_uuid s' = cs_uuid s /\ cs_files s' = cs_files s /\ tr_busy (cs_tr s') /\ files_ok (if found : bool then [] else [h]) s') s.
Proof.
  intros Hf Hh Hb. unfold file_open. apply wp_bind, live_wp; [by apply Hf|]. apply wp_bind, wp_get. destruct (fl_open fl path h mode (cs_fs s)) as [[found failed] t].
  apply wp_bind, wp_modify. apply wp_bind. eapply wp_mono; [by apply quiet_may_fail|]. intros _ s1 [Hb1 Hs1]. assert (same s s1) as Hs by exact Hs1. pose proof (same_files_ok _ _ _ Hs Hf) as Hf1.
  destruct Hs as (E0 & E1 & _). destruct found; cbn [when]; [|apply wp_bind, wp_ret, wp_ret; done]. apply wp_bind, wp_modify, wp_ret. repeat (split; [done|]).
  destruct Hf1 as [H1 H2 H3 H4 H5]. split; try done. intros x. cbn. rewrite elem_of_cons, H3, E1. destruct (decide (x = h)) as [->|]; clear H1 H2 H3 H4 H5 Hb Hb1 Hs1; set_solver.
Qed.
End table.

(** ** The requests keep the invariant *)

Section requests.
Context {T : Type} (fl : file_layer T) (Hbk : blocks_ok fl).
Implicit Types (s : cstate T).

(** After a request. *)
Definition good s s' : Prop := files_ok [] s' /\ tr_ok (cs_tr s') /\ cs_uuid s' = cs_uuid s.

Lemma same_good s s' : files_ok [] s -> tr_ok (cs_tr s') -> same s s' -> good s s'.
Proof. intros Hf Ht Hs. split; [by eapply same_files_ok|]. split; [done|]. by destruct Hs. Qed.
Lemma busy_good s s' : files_ok [] s -> tr_busy (cs_tr s') /\ same s s' -> good s s'.
Proof. intros Hf [Ht Hs]. apply same_good; try done. by apply busy_ok. Qed.
Lemma good_uuid s s1 s' : cs_uuid s1 = cs_uuid s -> good s1 s' -> good s s'.
Proof. intros E (H1 & H2 & H3). split; [done|]. split; [done|]. congruence. Qed.

Lemma complete_wp s : tr_busy (cs_tr s) -> wp (transaction_complete fl) (fun _ s' => tr_ok (cs_tr s') /\ same s s') s.
Proof.
  intros Hb. pose proof Hb as [Hc Ha]. unfold transaction_complete. apply wp_bind, wp_get. apply wp_bind, wp_assert; [by rewrite Hc|]. destruct (tr_failed (cs_tr s)) eqn:Ef; [apply wp_ret; split; [by apply busy_ok|done]|].
  apply wp_bind, wp_assert; [done|]. destruct (fl_commit fl (cs_fs s)) as [done t]. apply wp_bind, wp_modify. destruct done; cbn [negb].
  - unfold transaction_delete_active. apply wp_bind, wp_bind, wp_get. apply wp_bind, wp_assert; [done|]. apply wp_modify, wp_modify. by split.
  - eapply wp_mono; [by apply quiet_fail|]. intros _ s' [E Hs]. rewrite E. by split.
Qed.

Lemma finish_wp msg s : tr_busy (cs_tr s) -> wp (finish fl msg) (fun _ s' => tr_ok (cs_tr s') /\ same s s') s.
Proof.
  intros Hb. unfold finish. destruct (flag_complete msg); [|apply wp_ret; split; [by apply busy_ok|done]]. apply wp_bind. eapply wp_mono; [by apply complete_wp|]. intros [] s1 H1.
  by apply wp_bind, wp_get, wp_ret.
Qed.

Lemma get_handle_wp i s (Q : option Z -> cstate T -> Prop) : 0 <= i -> Q None s -> (forall h, cs_files s !! Z.to_nat i = Some (Some h) -> Q (Some h) s) -> wp (get_file_handle i) Q s.
Proof.
  intros Hi Hn Hs. unfold get_file_handle. apply wp_bind, wp_get. destruct (Z.geb_spec i (Z.of_nat (length (cs_files s)))); [by apply wp_ret|].
  destruct (lookup_lt_is_Some_2 (cs_files s) (Z.to_nat i)) as [o Eo]; [lia|]. rewrite Eo. cbn [deref]. apply wp_ret. destruct o; auto.
Qed.

Lemma field_nonneg off n req : bytes_ok req -> 0 <= le_val (field off n req).
Proof. intros H. apply le_val_bounds. unfold field. by apply bytes_ok_take, bytes_ok_drop. Qed.

Lemma delete_good msg req s : files_ok [] s -> tr_busy (cs_tr s) -> wp (storage_file_delete fl msg req) (fun _ s' => good s s') s.
Proof.
  intros Hf Hb. assert (good s s) as Hg by (apply busy_good; done). unfold storage_file_delete. do 3 (case_match; [by apply wp_ret|]). apply wp_bind, wp_get. destruct (get_path _ _ _) as [r path].
  case_match; [by apply wp_ret|]. apply wp_bind. eapply wp_mono; [by apply quiet_delete|]. intros d s1 [Hb1 Hs1]. apply wp_bind, wp_get. pose proof (same_files_ok _ _ _ Hs1 Hf) as Hf1.
  case_match; [apply wp_ret; by apply busy_good|]. case_match; [apply wp_ret; by apply busy_good|]. eapply wp_mono; [by apply finish_wp|]. intros _ s2 [Ht2 Hs2]. apply (good_uuid s s1); [by destruct Hs1|]. by apply same_good.
Qed.

(** Closing a file and giving its handle back. *)
Lemma close_free_wp i h s : files_ok [] s -> cs_files s !! Z.to_nat i = Some (Some h) -> 0 <= i -> wp (file_close fl h;; free_file_handle i) (fun _ s' => calm s s' /\ files_ok [] s') s.
Proof.
  intros Hf El Hi. apply wp_bind. eapply wp_mono; [apply close_wp; [done|by eapply lookup_handle]|]. intros _ s1 (Hc1 & E1 & Hf1).
  eapply wp_mono; [apply (free_handle_wp i h); [done|by rewrite E1|done]|]. intros _ s2 [Hc2 Hf2]. split; [by transitivity s1|done].
Qed.

Lemma close_good msg req s : bytes_ok req -> files_ok [] s -> tr_busy (cs_tr s) -> wp (storage_file_close fl msg req) (fun _ s' => good s s') s.
Proof.
  intros Hr Hf Hb. assert (good s s) as Hg by (apply busy_good; done). unfold storage_file_close. case_match; [by apply wp_ret|]. pose proof (field_nonneg 0 4 req Hr) as Hi. apply wp_bind, get_handle_wp; [done|by apply wp_ret|].
  intros h El. pose proof (close_free_wp _ _ _ Hf El Hi) as Hw. apply wp_bind. unfold wp in Hw |- * at 1. unfold mbind, M_bind in Hw. destruct (file_close fl h s) as [[] s1|]; [|done].
  apply wp_bind. unfold wp in Hw |- * at 1. destruct (free_file_handle _ s1) as [[] s2|]; [|done]. destruct Hw as [[Eu Et] Hf2].
  eapply wp_mono; [apply finish_wp; by rewrite Et|]. intros _ s3 [Ht3 Hs3]. apply (good_uuid s s2); [done|]. by apply same_good.
Qed.

Lemma open_failed_good i h s : files_ok [] s -> cs_files s !! Z.to_nat i = Some (Some h) -> 0 <= i -> tr_ok (cs_tr s) -> wp (open_failed fl h i) (fun _ s' => good s s') s.
Proof.
  intros Hf El Hi Ht. pose proof (close_free_wp _ _ _ Hf El Hi) as Hw. unfold open_failed. apply wp_bind. unfold wp in Hw |- * at 1. unfold mbind, M_bind in Hw. destruct (file_close fl h s) as [[] s1|]; [|done].
  apply wp_bind. unfold wp in Hw |- * at 1. destruct (free_file_handle i s1) as [[] s2|]; [|done]. destruct Hw as [[Eu Et] Hf2]. apply wp_ret. split; [done|]. by rewrite Et.
Qed.

Lemma open_good msg req s : files_ok [] s -> tr_busy (cs_tr s) -> wp (storage_file_open fl msg req) (fun _ s' => good s s') s.
Proof.
  intros Hf Hb. assert (good s s) as Hg by (apply busy_good; done). unfold storage_file_open. do 3 (case_match; [by apply wp_ret|]). apply wp_bind, wp_get. destruct (get_path _ _ _) as [r path].
  case_match; [by apply wp_ret|]. apply wp_bind. eapply wp_mono; [by apply create_wp|]. intros [r1 [i h]] s1 [[Eu1 Et1] Hc]. destruct (Z.eqb_spec r1 STORAGE_NO_ERROR) as [->|Hne]; cbn [negb].
  2:{ apply wp_ret. destruct Hc as [[_ Hf1]|[? _]]; [|done]. split; [done|]. rewrite Et1. by split; [apply busy_ok|]. }
  destruct Hc as [[? _]|(_ & Hf1 & Hi & El)]; [done|]. apply wp_bind. eapply wp_mono; [apply open_wp; [done|by eapply lookup_handle|by rewrite Et1]|].
  intros found s2 (Eu2 & E2 & Hb2 & Hf2). rewrite <- E2 in El. apply (wp_mono _ (fun _ s' => good s2 s')); [|intros ? s' Hg'; apply (good_uuid s s2); [congruence|done]].
  destruct found; cbn [negb].
  - apply wp_bind. eapply wp_mono; [apply quiet_size; [done|by apply Hf2, (lookup_handle _ _ _ El)]|]. intros size s3 [Hb3 Hs3].
    pose proof (same_files_ok _ _ _ Hs3 Hf2) as Hf3. assert (h ∈ cs_live s3) as Hl3. { apply Hf3. destruct Hs3 as (_ & E & _). rewrite E. by eapply lookup_handle. }
    apply wp_bind. apply (wp_mono _ (fun _ s' => tr_busy (cs_tr s') /\ same s2 s')).
    { apply wp_when; [|intros _; done]. intros _. eapply wp_mono; [by apply quiet_set_size|]. intros _ s4 [Hb4 Hs4]. split; [done|]. by transitivity s3. }
    intros _ s4 [Hb4 Hs4]. pose proof (same_files_ok _ _ _ Hs4 Hf2) as Hf4. assert (cs_files s4 !! Z.to_nat i = Some (Some h)) as El4 by (destruct Hs4 as (_ & E & _); by rewrite E).
    apply (wp_mono _ (fun _ s' => good s4 s')); [|intros ? s' Hg'; apply (good_uuid s2 s4); [by destruct Hs4|done]].
    apply wp_bind, wp_get. case_match; [apply open_failed_good; try done; by apply busy_ok|]. apply wp_bind. eapply wp_mono; [by apply finish_wp|]. intros res s5 [Ht5 Hs5].
    pose proof (same_files_ok _ _ _ Hs5 Hf4) as Hf5. case_match.
    + eapply wp_mono; [apply open_failed_good; try done; destruct Hs5 as (_ & E & _); by rewrite E|]. intros ? s6 Hg6. apply (good_uuid s4 s5); [by destruct Hs5|done].
    + apply wp_ret. by apply same_good.
  - apply wp_bind, wp_get. apply wp_bind. eapply wp_mono; [by apply (free_handle_wp i h)|]. intros _ s3 [[Eu Et] Hf3]. apply wp_ret. split; [done|]. rewrite Et. split; [by apply busy_ok|done].
Qed.

Lemma read_good msg req s : bytes_ok req -> files_ok [] s -> tr_busy (cs_tr s) -> wp (storage_file_read fl msg req) (fun _ s' => good s s') s.
Proof.
  intros Hr Hf Hb. assert (good s s) as Hg by (apply busy_good; done). unfold storage_file_read. case_match; [by apply wp_ret|]. apply wp_bind, get_handle_wp; [by apply field_nonneg|by apply wp_ret|].
  intros h El. pose proof (field_nonneg 4 4 req Hr). pose proof (field_nonneg 8 8 req Hr). set (buflen := le_val (field 4 4 req)) in *. set (offset := le_val (field 8 8 req)) in *.
  destruct (Z.gtb_spec buflen (STORAGE_MAX_BUFFER_SIZE - sizeof_storage_msg)) as [|Hmax]; [by apply wp_ret|]. assert (h ∈ cs_live s) as Hl by (by apply Hf, (lookup_handle _ _ _ El)).
  apply wp_bind. eapply wp_mono; [by apply quiet_size|]. intros size s1 [Hb1 Hs1]. destruct (Z.gtb_spec offset size); [apply wp_ret; by apply busy_good|].
  set (n := if u64 (offset + buflen) >? size then u32 (size - offset) else buflen). assert (0 <= n <= buflen) as Hn.
  { unfold n. destruct (Z.gtb_spec (u64 (offset + buflen)) size) as [Hgt|]; [|lia]. unfold u64 in Hgt. pose proof (Z.mod_le (offset + buflen) (2 ^ 64) ltac:(lia) ltac:(lia)).
    unfold u32. rewrite Z.mod_small; unfold STORAGE_MAX_BUFFER_SIZE, sizeof_storage_msg in Hmax; lia. }
  apply wp_bind. eapply wp_mono; [apply read_loop_quiet; [done|lia|lia|done|]|].
  - destruct Hs1 as (_ & _ & E & _). by rewrite E.
  - intros r s2 [Hb2 Hs2]. assert (good s s2) by (apply busy_good; [done|split; [done|by transitivity s1]]). destruct r; by apply wp_ret.
Qed.

Lemma write_good msg req s : bytes_ok req -> files_ok [] s -> tr_busy (cs_tr s) -> wp (storage_file_write fl msg req) (fun _ s' => good s s') s.
Proof.
  intros Hr Hf Hb. assert (good s s) as Hg by (apply busy_good; done). unfold storage_file_write. case_match; [by apply wp_ret|]. apply wp_bind, get_handle_wp; [by apply field_nonneg|by apply wp_ret|].
  intros h El. assert (h ∈ cs_live s) as Hl by (by apply Hf, (lookup_handle _ _ _ El)). apply wp_bind. eapply wp_mono; [by apply quiet_size|]. intros size s1 [Hb1 Hs1].
  assert (forall s', same s s' -> h ∈ cs_live s') as Hlive by (intros s' (_ & _ & E & _); by rewrite E). case_match; [apply wp_ret; by apply busy_good|].
  apply wp_bind. eapply wp_mono; [apply write_loop_quiet; [done|lia|done|by apply Hlive]|]. intros r s2 [Hb2 Hs12]. assert (same s s2) as Hs2 by (by transitivity s1). destruct r as [off|].
  - apply wp_bind. eapply wp_mono; [apply quiet_size; [done|by apply Hlive]|]. intros size2 s3 [Hb3 Hs23]. assert (same s s3) as Hs3 by (by transitivity s2).
    apply wp_bind. apply (wp_mono _ (fun _ s' => tr_busy (cs_tr s') /\ same s s')).
    { apply wp_when; [|intros _; done]. intros _. eapply wp_mono; [apply quiet_set_size; [done|by apply Hlive]|]. intros _ s4 [Hb4 Hs4]. split; [done|]. by transitivity s3. }
    intros _ s4 [Hb4 Hs4]. apply wp_bind, wp_get. case_match; [apply wp_ret; by apply busy_good|]. eapply wp_mono; [by apply finish_wp|]. intros _ s5 [Ht5 Hs5].
    apply same_good; [done|done|]. by transitivity s4.
  - apply wp_bind, wp_get. apply wp_bind. apply (wp_mono _ (fun _ s' => good s s')); [|intros ? s' Hs'; by apply wp_ret].
    apply wp_when; [|intros _; by apply busy_good]. intros Hnf. apply negb_true_iff in Hnf. destruct Hb2 as [Hc2 Ha2]. rewrite Hnf in Ha2. eapply wp_mono; [by apply quiet_fail|].
    intros _ s3 [E Hs3]. apply same_good; [done|by rewrite E; split|by transitivity s2].
Qed.

Lemma get_size_good req s : bytes_ok req -> files_ok [] s -> tr_busy (cs_tr s) -> wp (storage_file_get_size fl req) (fun _ s' => good s s') s.
Proof.
  intros Hr Hf Hb. assert (good s s) as Hg by (apply busy_good; done). unfold storage_file_get_size. case_match; [by apply wp_ret|]. apply wp_bind, get_handle_wp; [by apply field_nonneg|by apply wp_ret|].
  intros h El. apply wp_bind. eapply wp_mono; [apply quiet_get_size; [done|by apply Hf, (lookup_handle _ _ _ El)]|]. intros r s1 H1. destruct r; apply wp_ret; by apply busy_good.
Qed.

Lemma set_size_good msg req s : bytes_ok req -> files_ok [] s -> tr_busy (cs_tr s) -> wp (storage_file_set_size fl msg req) (fun _ s' => good s s') s.
Proof.
  intros Hr Hf Hb. assert (good s s) as Hg by (apply busy_good; done). unfold storage_file_set_size. case_match; [by apply wp_ret|]. apply wp_bind, get_handle_wp; [by apply field_nonneg|by apply wp_ret|].
  intros h El. assert (h ∈ cs_live s) as Hl by (by apply Hf, (lookup_handle _ _ _ El)). assert (forall s', same s s' -> h ∈ cs_live s') as Hlive by (intros s' (_ & _ & E & _); by rewrite E).
  apply wp_bind. eapply wp_mono; [by apply quiet_size|]. intros size s1 [Hb1 Hs1]. case_match; [apply wp_ret; by apply busy_good|].
  apply wp_bind. apply (wp_mono _ (fun _ s' => tr_busy (cs_tr s') /\ same s s')).
  { apply wp_when; [|intros _; done]. intros _. eapply wp_mono; [apply quiet_set_size; [done|by apply Hlive]|]. intros _ s4 [Hb4 Hs4]. split; [done|]. by transitivity s1. }
  intros _ s2 [Hb2 Hs2]. apply wp_bind. apply (wp_mono _ (fun _ s' => good s s')); [|intros ? s' Hs'; by apply wp_bind, wp_get, wp_ret].
  apply wp_when; [|intros _; by apply busy_good]. intros _. eapply wp_mono; [by apply complete_wp|]. intros _ s3 [Ht3 Hs3]. apply same_good; [done|done|by transitivity s2].
Qed.

Lemma send_good s0 r msg out s : good s0 s -> wp (send_response r msg out) (fun _ s' => good s0 s') s.
Proof.
  intros ([H1 H2 H3 H4 H5] & Ht & Hu). unfold send_response, send_msg, wp. destruct (cs_status s); (split; [by split|]); by split.
Qed.

(** The request, and its answer. *)
Lemma answer_good {A} s (m : M (cstate T) A) (f : A -> M (cstate T) Z) : wp m (fun _ s' => good s s') s -> (forall a, exists r msg out, f a = send_response r msg out) ->
  wp (m ≫= f) (fun _ s' => good s s') s.
Proof. intros Hm Hf. apply wp_bind. eapply wp_mono; [exact Hm|]. intros a s1 H1. destruct (Hf a) as (r & msg & out & ->). by apply send_good. Qed.

Lemma dispatch_good msg payload s : bytes_ok payload -> files_ok [] s -> tr_busy (cs_tr s) -> wp (dispatch fl msg payload) (fun _ s' => good s s') s.
Proof.
  intros Hp Hf Hb. unfold dispatch, send_result.
  case_match; [apply answer_good; [by apply delete_good|eauto]|]. case_match; [apply answer_good; [by apply open_good|intros []; eauto]|]. case_match; [apply answer_good; [by apply close_good|eauto]|].
  case_match; [apply answer_good; [by apply write_good|eauto]|]. case_match; [apply answer_good; [by apply read_good|intros []; eauto]|]. case_match; [apply answer_good; [by apply get_size_good|intros []; eauto]|].
  case_match; [apply answer_good; [by apply set_size_good|eauto]|]. apply send_good. by apply busy_good.
Qed.

Lemma clear_failed_good s0 s : good s0 s -> wp clear_failed (fun _ s' => good s0 s') s.
Proof. intros ([H1 H2 H3 H4 H5] & [Ht1 Ht2] & Hu). apply wp_modify. split; [by split|]. by split; [split|]. Qed.

Lemma end_transaction_good msg s : files_ok [] s -> tr_ok (cs_tr s) -> wp (end_transaction fl msg) (fun _ s' => good s s') s.
Proof.
  intros Hf Ht. assert (good s s) as Hg by done. assert (tr_active (cs_tr s) = true -> tr_failed (cs_tr s) = false /\ tr_complete (cs_tr s) = false) as Hact.
  { intros Ha. destruct Ht as [H1 H2]. split; [|by apply H2]. apply not_true_iff_false. intros Hx. specialize (H1 Hx). congruence. }
  unfold end_transaction. apply wp_bind, wp_get. case_match.
  - apply wp_bind. apply (wp_mono _ (fun _ s' => good s s')).
    { apply wp_when; [|intros _; done]. intros Ha. destruct (Hact Ha) as [Hnf Hnc]. eapply wp_mono; [apply complete_wp; split; [done|by rewrite Hnf]|]. intros _ s1 [Ht1 Hs1]. by apply same_good. }
    intros ? s1 Hg1. apply wp_bind, wp_get. case_match; [|by apply send_good]. apply wp_bind. eapply wp_mono; [by apply clear_failed_good|]. intros ? s2 Hg2. by apply send_good.
  - apply wp_bind. apply (wp_mono _ (fun _ s' => good s s')).
    { apply wp_when; [|intros _; done]. intros Ha. destruct (Hact Ha) as [Hnf Hnc]. eapply wp_mono; [by apply quiet_fail|]. intros _ s1 [E Hs1]. apply same_good; [done|by rewrite E; split|done]. }
    intros ? s1 Hg1. apply wp_bind. eapply wp_mono; [by apply clear_failed_good|]. intros ? s2 Hg2. by apply send_good.
Qed.

Lemma handle_msg_good bytes s : bytes_ok bytes -> files_ok [] s -> tr_ok (cs_tr s) -> wp (client_handle_msg fl bytes) (fun _ s' => good s s') s.
Proof.
  intros Hby Hf Ht. assert (good s s) as Hg by done. unfold client_handle_msg, send_result. case_match.
  { apply wp_bind. eapply wp_mono; [by apply send_good|]. intros ? s1 Hg1. by apply wp_ret. }
  case_match; [by apply end_transaction_good|]. apply wp_bind, wp_get. case_match.
  - apply wp_bind. apply (wp_mono _ (fun _ s' => good s s')); [|intros ? s1 Hg1; by apply send_good]. apply wp_when; [|intros _; done]. intros _. by apply clear_failed_good.
  - apply wp_bind. apply (wp_mono _ (fun _ s' => tr_busy (cs_tr s') /\ same s s')).
    { apply wp_when.
      - intros Ha. unfold transaction_activate. apply wp_bind, wp_get. apply wp_bind, wp_assert; [done|]. by apply wp_modify.
      - intros Ha. apply negb_false_iff in Ha. split; [|done]. split; [by apply Ht|]. rewrite Ha. by destruct (tr_failed (cs_tr s)). }
    intros _ s1 [Hb1 Hs1]. eapply wp_mono; [apply dispatch_good; [by apply bytes_ok_drop|by eapply same_files_ok|done]|]. intros ? s2 Hg2. apply (good_uuid s s1); [by destruct Hs1|done].
Qed.

Lemma close_loop_wp files : forall s, handles files = handles (cs_files s) -> NoDup (handles files) -> (forall h, h ∈ cs_live s <-> h ∈ handles files) -> (forall h, h ∈ cs_open s <-> h ∈ handles files) ->
  wp (close_loop fl files) (fun _ s' => calm s s' /\ (forall h, h ∉ cs_live s') /\ (forall h, h ∉ cs_open s')) s.
Proof.
  assert (forall files s, NoDup (handles files) -> (forall h, h ∈ cs_live s <-> h ∈ handles files) -> (forall h, h ∈ cs_open s <-> h ∈ handles files) ->
    wp (close_loop fl files) (fun _ s' => calm s s' /\ (forall h, h ∉ cs_live s') /\ (forall h, h ∉ cs_open s')) s) as H; [|intros s _; by apply H].
  clear files. induction files as [|[h|] files IH]; intros s Hnd Hl Ho; cbn [close_loop].
  - apply wp_ret. split; [done|]. split; intros h; [rewrite Hl|rewrite Ho]; by intros ?%elem_of_nil.
  - change (handles (Some h :: files)) with (h :: handles files) in *. apply NoDup_cons in Hnd as [Hnot Hnd]. unfold file_close.
    apply wp_bind, wp_bind, live_wp; [apply Hl; by left|]. apply wp_bind, wp_get. rewrite bool_decide_true by (apply Ho; by left). apply wp_modify. unfold free_file.
    apply wp_bind, wp_bind, live_wp; [apply Hl; by left|]. apply wp_modify. eapply wp_mono; [apply IH; [done|..]|].
    + intros x. cbn. rewrite list_elem_of_filter, Hl, elem_of_cons. split; [intros [? [?|?]]; done|]. intros Hx. split; [|by right]. by intros ->.
    + intros x. cbn. rewrite list_elem_of_filter, Ho, elem_of_cons. split; [intros [? [?|?]]; done|]. intros Hx. split; [|by right]. by intros ->.
    + intros _ s' (Hc & H1 & H2). split; [exact Hc|done].
  - by apply IH.
Qed.

Lemma disconnect_wp s : files_ok [] s -> tr_ok (cs_tr s) -> wp (client_disconnect fl) (fun _ s' => cs_files s' = [] /\ cs_live s' = [] /\ cs_open s' = [] /\ tr_active (cs_tr s') = false) s.
Proof.
  intros Hf [Ht1 Ht2]. unfold client_disconnect. apply wp_bind, wp_get. apply wp_bind. apply (wp_mono _ (fun _ s' => tr_active (cs_tr s') = false /\ same s s')).
  { apply wp_when.
    - intros H. apply andb_true_iff in H as [Ha Hn]. apply negb_true_iff in Hn. eapply wp_mono; [apply quiet_fail; auto|]. intros _ s1 [E Hs]. by rewrite E.
    - intros H. split; [|done]. destruct (tr_active (cs_tr s)) eqn:Ha; [|done]. cbn in H. apply negb_false_iff in H. specialize (Ht1 H). congruence. }
  intros _ s1 [Ha Hs]. pose proof (same_files_ok _ _ _ Hs Hf) as [H1 H2 H3 H4 H5]. unfold session_close_all_files. apply wp_bind, wp_bind, wp_get. apply wp_bind. eapply wp_mono; [apply (close_loop_wp (cs_files s1) s1); try done|].
  { intros h. rewrite H3. split; [by intros [? _]|]. intros Hh. split; [done|]. apply not_elem_of_nil. }
  intros _ s2 ([_ Et] & Hl & Ho). apply wp_modify. unfold transaction_free. apply wp_bind, wp_get. cbn [set_files cs_tr cs_open].
  assert (forall l : list Z, (forall h, h ∉ l) -> l = []) as Hnil. { intros l Hx. destruct l as [|x l]; [done|]. exfalso. apply (Hx x). by left. }
  apply wp_bind, wp_assert; [by rewrite Et, Ha|]. apply wp_assert; [apply bool_decide_true; by apply Hnil|]. cbn. rewrite Et. split; [done|]. split; [by apply Hnil|]. split; [by apply Hnil|done].
Qed.
End requests.

(** What the environment sends: bytes. *)
Definition event_ok (e : event) : Prop := match e with Message bytes => bytes_ok bytes | _ => True end.

Lemma conflict_good {T} (fl : file_layer T) s : files_ok [] s -> tr_ok (cs_tr s) -> wp (conflict fl) (fun _ s' => good s s') s.
Proof.
  intros Hf Ht. unfold conflict. apply wp_bind, wp_get. apply wp_when; [|intros _; done]. intros Ha. destruct Ht as [Ht1 Ht2]. eapply wp_mono; [apply quiet_fail; [done| |by apply Ht2]|].
  - apply not_true_iff_false. intros Hx. specialize (Ht1 Hx). congruence.
  - intros _ s1 [E Hs1]. apply same_good; [done|by rewrite E; split|done].
Qed.

Lemma client_run_wp {T} (fl : file_layer T) evs : blocks_ok fl -> Forall event_ok evs -> forall s, files_ok [] s -> tr_ok (cs_tr s) ->
  wp (client_run fl evs) (fun ended s' => if ended : bool then cs_files s' = [] /\ cs_live s' = [] /\ cs_open s' = [] /\ tr_active (cs_tr s') = false else good s s') s.
Proof.
  intros Hbk. induction 1 as [|e evs He Hevs IH]; intros s Hf Ht; cbn [client_run]; [by apply wp_ret|].
  assert (wp (client_disconnect fl;; mret true) (fun ended s' => if ended : bool then cs_files s' = [] /\ cs_live s' = [] /\ cs_open s' = [] /\ tr_active (cs_tr s') = false else good s s') s) as Hd.
  { apply wp_bind. eapply wp_mono; [by apply disconnect_wp|]. intros ? s1 H1. by apply wp_ret. }
  destruct e as [bytes| |]; [|..|done].
  - apply wp_bind. eapply wp_mono; [by apply handle_msg_good|]. intros rc s1 (Hf1 & Ht1 & Hu1). case_match.
    + apply wp_bind. eapply wp_mono; [by apply disconnect_wp|]. intros ? s2 H2. by apply wp_ret.
    + eapply wp_mono; [by apply IH|]. intros [] s2 H2; [done|]. by apply (good_uuid s s1).
  - apply wp_bind. eapply wp_mono; [by apply conflict_good|]. intros ? s1 (Hf1 & Ht1 & Hu1). eapply wp_mono; [by apply IH|]. intros [] s2 H2; [done|]. by apply (good_uuid s s1).
Qed.

Lemma connect_ok {T} peer allocs status (t : T) : files_ok [] (client_connect peer allocs status t).
Proof. split; cbn; [constructor|done|set_solver|set_solver|done]. Qed.

(** ** Confinement *)

(** The paths a session may name. *)
Definition in_dir (u : uuid) (p : list Z) : Prop := exists name, p = path_dir u ++ name /\ is_valid_name name = true.

(** A layer that treats some paths in another way. *)
Definition with_paths {T} (fl : file_layer T) (o : list Z -> Z -> file_create_mode -> T -> bool * bool * T) (d : list Z -> T -> bool * bool * T) : file_layer T :=
  FileLayer T (file_block_size fl) o (fl_close fl) d (fl_size fl) (fl_get_block fl) (fl_get_block_write fl) (fl_put_dirty fl) (fl_get_size fl) (fl_set_size fl)
    (fl_commit fl) (fl_discard fl) (fl_activate fl).

Record uuid_ok (u : uuid) : Prop := {
  uo_low : 0 <= time_low u < 2 ^ 32;
  uo_mid : 0 <= time_mid u < 2 ^ 16;
  uo_hi : 0 <= time_hi_and_version u < 2 ^ 16;
  uo_len : length (clock_seq_and_node u) = 8%nat;
  uo_bytes : bytes_ok (clock_seq_and_node u);
}.

Lemma hex_length n v : length (hex n v) = n.
Proof. revert v. induction n as [|n IH]; intros v; [done|]. cbn. rewrite length_app, IH. cbn. lia. Qed.

Lemma hex_digit_inj a b : 0 <= a < 16 -> 0 <= b < 16 -> hex_digit a = hex_digit b -> a = b.
Proof. unfold hex_digit. intros Ha Hb. destruct (Z.ltb_spec a 10), (Z.ltb_spec b 10); lia. Qed.

Lemma hex_inj n v w : 0 <= v < 16 ^ Z.of_nat n -> 0 <= w < 16 ^ Z.of_nat n -> hex n v = hex n w -> v = w.
Proof.
  revert v w. induction n as [|n IH]; intros v w Hv Hw E; [cbn in *; lia|]. cbn [hex] in E. apply app_inj_tail in E as [E1 E2].
  rewrite Nat2Z.inj_succ, Z.pow_succ_r in Hv, Hw by lia. apply hex_digit_inj in E2; [|apply Z.mod_pos_bound; lia..].
  apply IH in E1; [|Z.to_euclidean_division_equations; lia..]. rewrite (Z.div_mod v 16), (Z.div_mod w 16) by lia. congruence.
Qed.

Lemma seq_hex_inj a b : bytes_ok a -> bytes_ok b -> length a = length b -> a ≫= hex 2 = b ≫= hex 2 -> a = b.
Proof.
  intros Ha. revert b. induction Ha as [|x a Hx Ha IH]; intros b Hb Hl E; [by destruct b|]. destruct b as [|y b]; [done|]. apply Forall_cons in Hb as [Hy Hb].
  rewrite !bind_cons in E. apply app_inj_1 in E as [E1 E2]; [|by rewrite !hex_length]. apply hex_inj in E1; [|done..]. f_equal; [done|]. apply IH; [done|by injection Hl|done].
Qed.

Lemma seq_hex_length a : length (a ≫= hex 2) = (2 * length a)%nat.
Proof. induction a as [|x a IH]; [done|]. rewrite bind_cons, length_app, hex_length, IH. cbn. lia. Qed.

Lemma path_dir_length u : uuid_ok u -> length (path_dir u) = 33%nat.
Proof. intros []. unfold path_dir. rewrite !length_app, !hex_length, seq_hex_length, uo_len0. reflexivity. Qed.

(** Different identities have different directories. *)
Lemma dirs_disjoint u u' p : uuid_ok u -> uuid_ok u' -> in_dir u p -> in_dir u' p -> u = u'.
Proof.
  intros Hu Hu' (n & -> & _) (n' & E & _). apply app_inj_1 in E as [E _]; [|by rewrite !path_dir_length]. destruct Hu as [A1 A2 A3 A4 A5], Hu' as [B1 B2 B3 B4 B5]. unfold path_dir in E.
  apply app_inj_1 in E as [E1 E]; [|by rewrite !hex_length]. apply app_inj_1 in E as [E2 E]; [|by rewrite !hex_length]. apply app_inj_1 in E as [E3 E]; [|by rewrite !hex_length].
  apply app_inj_1 in E as [E4 _]; [|by rewrite !seq_hex_length, A4, B4]. apply hex_inj in E1, E2, E3; try done. apply seq_hex_inj in E4; try done; [|congruence]. destruct u, u'. cbn in *. congruence.
Qed.

Section confined.
Context {T : Type} (fl : file_layer T) (o : list Z -> Z -> file_create_mode -> T -> bool * bool * T) (d : list Z -> T -> bool * bool * T).
Abbreviation fl' := (with_paths fl o d).

Lemma get_bind {S A} (k : S -> M S A) s : (get ≫= k) s = k s s.
Proof. reflexivity. Qed.
Lemma bind_eq {S A B} (m m' : M S A) (f : A -> M S B) s : m s = m' s -> (m ≫= f) s = (m' ≫= f) s.
Proof. intros E. unfold mbind, M_bind. by rewrite E. Qed.
Lemma bind_ext {S A B} (m : M S A) (f f' : A -> M S B) s : (forall a s', f a s' = f' a s') -> (m ≫= f) s = (m ≫= f') s.
Proof. intros E. unfold mbind, M_bind. destruct (m s); [apply E|done]. Qed.

(** The two layers are one on the paths of a directory. *)
Definition agree (u : uuid) : Prop := forall p, in_dir u p -> o p = fl_open fl p /\ d p = fl_delete fl p.

Lemma get_path_in u name path r : is_valid_name name = true -> get_path FS_PATH_MAX u name = (r, path) -> r = STORAGE_NO_ERROR -> in_dir u path.
Proof. intros Hn. unfold get_path. destruct (_ >=? _); intros [= <- <-]; [done|]. intros _. by exists name. Qed.

Lemma delete_confined msg req s : agree (cs_uuid s) -> storage_file_delete fl' msg req s = storage_file_delete fl msg req s.
Proof.
  intros Hag. unfold storage_file_delete. do 2 (case_match; [done|]). destruct (is_valid_name (drop 4 req)) eqn:Hn; [|done]. cbn [negb]. rewrite !get_bind.
  destruct (get_path FS_PATH_MAX (cs_uuid s) (drop 4 req)) as [r path] eqn:E. destruct (Z.eqb_spec r STORAGE_NO_ERROR) as [Er|]; [|done]. cbn [negb].
  destruct (Hag path) as [_ Hd]; [by eapply get_path_in|]. assert (file_delete fl' path = file_delete fl path) as ->; [|done]. unfold file_delete. cbn [with_paths fl_delete]. by rewrite Hd.
Qed.

Lemma open_confined msg req s : agree (cs_uuid s) -> storage_file_open fl' msg req s = storage_file_open fl msg req s.
Proof.
  intros Hag. unfold storage_file_open. do 2 (case_match; [done|]). destruct (is_valid_name (drop 4 req)) eqn:Hn; [|done]. cbn [negb]. rewrite !get_bind.
  destruct (get_path FS_PATH_MAX (cs_uuid s) (drop 4 req)) as [r path] eqn:E. destruct (Z.eqb_spec r STORAGE_NO_ERROR) as [Er|]; [|done]. cbn [negb].
  destruct (Hag path) as [Ho _]; [by eapply get_path_in|]. assert (forall h mode, file_open fl' path h mode = file_open fl path h mode) as Hop.
  { intros h mode. unfold file_open. cbn [with_paths fl_open]. by rewrite Ho. }
  apply bind_ext. intros [r1 [i h]] s1. case_match; [done|]. rewrite Hop. reflexivity.
Qed.

Lemma dispatch_confined msg payload s : agree (cs_uuid s) -> dispatch fl' msg payload s = dispatch fl msg payload s.
Proof.
  intros Hag. unfold dispatch. case_match; [apply bind_eq; by apply delete_confined|]. case_match; [apply bind_eq; by apply open_confined|]. reflexivity.
Qed.

Lemma handle_msg_confined bytes s : agree (cs_uuid s) -> client_handle_msg fl' bytes s = client_handle_msg fl bytes s.
Proof.
  intros Hag. unfold client_handle_msg. do 2 (case_match; [done|]). rewrite !get_bind. case_match; [done|].
  destruct (tr_active (cs_tr s)) eqn:Ha; cbn [negb when]; [by apply dispatch_confined|]. set (s1 := set_fs (fl_activate fl (cs_fs s)) (set_tr (Tr true false false) s)).
  assert (transaction_activate fl s = Ret tt s1) as E by (unfold transaction_activate; rewrite get_bind, Ha; reflexivity).
  transitivity (dispatch fl' (decode_msg (take 24 bytes)) (drop 24 bytes) s1); [|transitivity (dispatch fl (decode_msg (take 24 bytes)) (drop 24 bytes) s1)].
  - unfold mbind at 1, M_bind at 1. change (transaction_activate fl' s) with (transaction_activate fl s). by rewrite E.
  - by apply dispatch_confined.
  - unfold mbind at 1, M_bind at 1. by rewrite E.
Qed.

Lemma run_confined evs : blocks_ok fl -> Forall event_ok evs -> forall s, files_ok [] s -> tr_ok (cs_tr s) -> agree (cs_uuid s) -> client_run fl' evs s = client_run fl evs s.
Proof.
  intros Hbk. induction 1 as [|e evs He Hevs IH]; intros s Hf Ht Hag; [done|]. destruct e as [bytes| |]; cbn [client_run]; [| |done].
  - unfold mbind, M_bind. rewrite handle_msg_confined by done. pose proof (handle_msg_good fl Hbk bytes s He Hf Ht) as Hg. unfold wp in Hg. destruct (client_handle_msg fl bytes s) as [rc s1|]; [|done].
    destruct Hg as (Hf1 & Ht1 & Hu1). case_match; [done|]. apply IH; [done|done|by rewrite Hu1].
  - pose proof (conflict_good fl s Hf Ht) as Hg. unfold mbind, M_bind. change (conflict fl' s) with (conflict fl s). unfold wp in Hg. destruct (conflict fl s) as [[] s1|]; [|done].
    destruct Hg as (Hf1 & Ht1 & Hu1). apply IH; [done|done|by rewrite Hu1].
Qed.
End confined.
