(* ===== verification/ClientProps.v ===== *)
(** * What a session of the storage app reads and writes

    Over a layer of files that keeps what is put into it ([keeps_contents]), the
    requests to read and to write implement reads and writes of a sequence of bytes:
    the loops of [storage_file_read] and [storage_file_write], which go block by block,
    are the operations on the file's bytes. *)

From stdpp Require Import base tactics list sets numbers.
From Stdlib Require Import ZArith Lia.
From S2P Require Import Prelude Super TipcNs Client.

Section contents.
Context {T : Type} (fl : file_layer T).

(** [raw t x]: byte [x] of the file with handle [h] in state [t], which is open all
    along. *)
Context (h : Z) (raw : T -> Z -> Z).
Implicit Types (s : cstate T) (t : T).

Abbreviation bs := (file_block_size fl).
Definition block_bytes t (b : Z) : list Z := (fun i => raw t (b * bs + i)) <$> seqZ 0 bs.
Definition same_file t t' : Prop := fl_size fl t' h = fl_size fl t h /\ forall x, raw t' x = raw t x.

(** What the sessions rely on: a block that is returned is the file's, a dirty block is
    put where it was taken, and a new size, a commit and a new transaction change no
    byte of the file. *)
Record keeps_contents : Prop := {
  kc_size : forall t, 0 <= fl_size fl t h < 2 ^ 64;
  kc_read : forall b t data f t', fl_get_block fl h b t = (Some data, f, t') -> f = false /\ data = block_bytes t b /\ same_file t t';
  kc_write : forall b rd t data t', fl_get_block_write fl h b rd t = (Some data, false, t') ->
    (rd = true -> data = block_bytes t b) /\ fl_size fl t' h = fl_size fl t h /\ forall x, x / bs <> b -> raw t' x = raw t x;
  kc_put : forall b data t t', fl_put_dirty fl h b data t = (false, t') -> Z.of_nat (length data) = bs ->
    fl_size fl t' h = fl_size fl t h /\ (forall x, x / bs <> b -> raw t' x = raw t x) /\
    forall i, 0 <= i < bs -> data !! Z.to_nat i = Some (raw t' (b * bs + i));
  kc_set_size : forall n t t', fl_set_size fl h n t = (false, t') -> fl_size fl t h <= n -> fl_size fl t' h = n /\ forall x, x < n -> raw t' x = raw t x;
  kc_commit : forall t t', fl_commit fl t = (true, t') -> same_file t t';
  kc_activate : forall t, same_file t (fl_activate fl t);
}.
Context (Hbk : blocks_ok fl) (Hkc : keeps_contents).

#[export] Instance same_file_preorder : PreOrder same_file.
Proof. split; [by intros t|]. intros t1 t2 t3 [A1 A2] [B1 B2]. split; [congruence|]. intros x. by rewrite B2. Qed.

(** The bytes of the file from [off] on. *)
Definition file_bytes t (off n : Z) : list Z := (fun i => raw t (off + i)) <$> seqZ 0 n.

Lemma file_bytes_lookup t off n i : 0 <= i < n -> file_bytes t off n !! Z.to_nat i = Some (raw t (off + i)).
Proof. intros Hi. unfold file_bytes. rewrite list_lookup_fmap, lookup_seqZ_lt by lia. cbn. f_equal. f_equal. lia. Qed.
Lemma file_bytes_length t off n : 0 <= n -> Z.of_nat (length (file_bytes t off n)) = n.
Proof. intros Hn. unfold file_bytes. rewrite length_fmap, length_seqZ. lia. Qed.

(** A list of [n] bytes is read off the file when it agrees byte by byte. *)
Lemma file_bytes_eq t off n (l : list Z) : Z.of_nat (length l) = n -> (forall i, 0 <= i < n -> l !! Z.to_nat i = Some (raw t (off + i))) -> l = file_bytes t off n.
Proof.
  intros Hl H. apply list_eq. intros i. destruct (decide (i < length l)%nat) as [Hi|Hi].
  - rewrite <- (Nat2Z.id i), H, file_bytes_lookup by lia. done.
  - rewrite !lookup_ge_None_2; [done| |lia]. pose proof (file_bytes_length t off n ltac:(lia)). lia.
Qed.

Lemma file_bytes_app t off n m : 0 <= n -> 0 <= m -> file_bytes t off (n + m) = file_bytes t off n ++ file_bytes t (off + n) m.
Proof.
  intros Hn Hm. symmetry. apply file_bytes_eq.
  - rewrite length_app. rewrite Nat2Z.inj_add, !file_bytes_length by done. done.
  - intros i Hi. destruct (decide (i < n)) as [Hlt|Hge].
    + rewrite lookup_app_l by (pose proof (file_bytes_length t off n Hn); lia). apply file_bytes_lookup; lia.
    + rewrite lookup_app_r by (pose proof (file_bytes_length t off n Hn); lia). pose proof (file_bytes_length t off n Hn). replace (Z.to_nat i - length (file_bytes t off n))%nat with (Z.to_nat (i - n)) by lia.
      rewrite file_bytes_lookup by lia. f_equal. f_equal. lia.
Qed.

Lemma file_bytes_same t t' off n : same_file t t' -> file_bytes t' off n = file_bytes t off n.
Proof. intros [_ H]. unfold file_bytes. apply list_fmap_ext. intros i x _. apply H. Qed.

(** A piece of a block. *)
Lemma block_piece t off len : 0 <= off mod bs -> 0 <= len -> off mod bs + len <= bs -> 0 < bs ->
  take (Z.to_nat len) (drop (Z.to_nat (off mod bs)) (block_bytes t (off / bs))) = file_bytes t off len.
Proof.
  intros Ho Hl Hb Hp. apply file_bytes_eq.
  - rewrite length_take, length_drop. unfold block_bytes. rewrite length_fmap, length_seqZ. lia.
  - intros i Hi. rewrite lookup_take_lt by lia. rewrite lookup_drop. unfold block_bytes. rewrite list_lookup_fmap, lookup_seqZ_lt by lia. cbn. f_equal. f_equal.
    pose proof (Z.div_mod off bs ltac:(lia)). lia.
Qed.

(** ** One block *)

Lemma may_fail_wp f s : tr_busy (cs_tr s) -> wp (may_fail fl f) (fun _ s' => tr_busy (cs_tr s') /\ same s s' /\ (tr_failed (cs_tr s') = false -> f = false) /\ (f = false -> s' = s)) s.
Proof.
  intros Hb. destruct f; [|unfold may_fail; apply wp_bind, wp_get, wp_ret; done]. unfold may_fail. apply wp_bind, wp_get. pose proof Hb as [Hc Ha]. apply wp_when; cbn [andb].
  - intros Hf. apply negb_true_iff in Hf. rewrite Hf in Ha. eapply wp_mono; [by apply quiet_fail|]. intros _ s' [E Hs]. rewrite E. done.
  - intros Hf. apply negb_false_iff in Hf. split; [done|]. split; [done|]. split; [by rewrite Hf|done].
Qed.

(** No block is unreadable. *)
Definition reads_all : Prop := forall b t, exists data f t', fl_get_block fl h b t = (Some data, f, t').

Lemma get_block_contents b s : tr_busy (cs_tr s) -> h ∈ cs_live s -> wp (file_get_block fl h b)
  (fun r s' => tr_busy (cs_tr s') /\ same s s' /\ (reads_all -> r <> None) /\ forall data, r = Some data -> cs_tr s' = cs_tr s /\ data = block_bytes (cs_fs s) b /\ same_file (cs_fs s) (cs_fs s')) s.
Proof.
  intros Hb Hl. unfold file_get_block. apply wp_bind, live_wp; [done|]. apply wp_bind, wp_get. destruct (fl_get_block fl h b (cs_fs s)) as [[r f] t] eqn:E.
  apply wp_bind, wp_modify. apply wp_bind. eapply wp_mono; [by apply may_fail_wp|]. intros _ s1 (Hb1 & Hs1 & Hf & Hn). apply wp_ret. split; [done|]. split; [done|]. split.
  - intros Hall ->. destruct (Hall b (cs_fs s)) as (? & ? & ? & E'). congruence.
  - intros data ->. destruct (kc_read Hkc _ _ _ _ _ E) as (-> & -> & Hsf). by rewrite (Hn eq_refl).
Qed.

Lemma get_block_write_contents b rd s : tr_busy (cs_tr s) -> h ∈ cs_live s -> wp (file_get_block_write fl h b rd)
  (fun r s' => tr_busy (cs_tr s') /\ same s s' /\ block_of fl r /\ (tr_failed (cs_tr s') = false -> tr_failed (cs_tr s) = false /\ forall data, r = Some data ->
    (rd = true -> data = block_bytes (cs_fs s) b) /\ fl_size fl (cs_fs s') h = fl_size fl (cs_fs s) h /\ forall x, x / bs <> b -> raw (cs_fs s') x = raw (cs_fs s) x)) s.
Proof.
  intros Hb Hl. unfold file_get_block_write. apply wp_bind, live_wp; [done|]. apply wp_bind, wp_get. destruct (fl_get_block_write fl h b rd (cs_fs s)) as [[r f] t] eqn:E.
  apply wp_bind, wp_modify. apply wp_bind. eapply wp_mono; [by apply may_fail_wp|]. intros _ s1 (Hb1 & Hs1 & Hf & Hn). apply wp_ret. split; [done|]. split; [done|]. split.
  - destruct r as [data|]; [|done]. by eapply (bk_write fl Hbk).
  - intros Hnf. specialize (Hf Hnf). subst f. rewrite (Hn eq_refl) in Hnf |- *. split; [done|]. intros data ->. by apply (kc_write Hkc).
Qed.

Lemma put_dirty_contents b data s : tr_busy (cs_tr s) -> h ∈ cs_live s -> Z.of_nat (length data) = bs -> wp (file_block_put_dirty fl h b data)
  (fun _ s' => tr_busy (cs_tr s') /\ same s s' /\ (tr_failed (cs_tr s') = false -> tr_failed (cs_tr s) = false /\
    fl_size fl (cs_fs s') h = fl_size fl (cs_fs s) h /\ (forall x, x / bs <> b -> raw (cs_fs s') x = raw (cs_fs s) x) /\
    forall i, 0 <= i < bs -> data !! Z.to_nat i = Some (raw (cs_fs s') (b * bs + i)))) s.
Proof.
  intros Hb Hl Hd. unfold file_block_put_dirty. apply wp_bind, live_wp; [done|]. apply wp_bind, wp_get. destruct (fl_put_dirty fl h b data (cs_fs s)) as [f t] eqn:E.
  apply wp_bind, wp_modify. eapply wp_mono; [by apply may_fail_wp|]. intros _ s1 (Hb1 & Hs1 & Hf & Hn). split; [done|]. split; [done|].
  intros Hnf. specialize (Hf Hnf). subst f. rewrite (Hn eq_refl) in Hnf |- *. split; [done|]. by apply (kc_put Hkc).
Qed.

Lemma set_size_contents n s : tr_busy (cs_tr s) -> h ∈ cs_live s -> fl_size fl (cs_fs s) h <= n -> wp (file_set_size fl h n)
  (fun _ s' => tr_busy (cs_tr s') /\ same s s' /\ (tr_failed (cs_tr s') = false -> tr_failed (cs_tr s) = false /\
    fl_size fl (cs_fs s') h = n /\ forall x, x < n -> raw (cs_fs s') x = raw (cs_fs s) x)) s.
Proof.
  intros Hb Hl Hd. unfold file_set_size. apply wp_bind, live_wp; [done|]. apply wp_bind, wp_get. destruct (fl_set_size fl h n (cs_fs s)) as [f t] eqn:E.
  apply wp_bind, wp_modify. eapply wp_mono; [by apply may_fail_wp|]. intros _ s1 (Hb1 & Hs1 & Hf & Hn). split; [done|]. split; [done|].
  intros Hnf. specialize (Hf Hnf). subst f. rewrite (Hn eq_refl) in Hnf |- *. split; [done|]. by apply (kc_set_size Hkc).
Qed.

(** ** The loops *)

Lemma same_live s s' : same s s' -> h ∈ cs_live s -> h ∈ cs_live s'.
Proof. intros (_ & _ & E & _). by rewrite E. Qed.

Lemma read_loop_contents fuel : forall off n pos acc s, 0 <= n < Z.of_nat fuel -> pos + n <= STORAGE_MAX_BUFFER_SIZE -> 0 <= off -> off + n < 2 ^ 64 ->
  tr_busy (cs_tr s) -> h ∈ cs_live s -> wp (read_loop fl fuel h off n pos acc)
  (fun r s' => tr_busy (cs_tr s') /\ same s s' /\ (reads_all -> r <> None) /\ forall l, r = Some l -> cs_tr s' = cs_tr s /\ l = acc ++ file_bytes (cs_fs s) off n /\ same_file (cs_fs s) (cs_fs s')) s.
Proof.
  induction fuel as [|fuel IH]; intros off n pos acc s Hn Hp Ho Hw Hb Hl; [lia|]. cbn [read_loop]. destruct (Z.eqb_spec n 0) as [->|Hn0].
  { apply wp_ret. do 3 (split; [done|]). intros l [= <-]. split; [done|]. by rewrite app_nil_r. }
  apply wp_bind. eapply wp_mono; [by apply get_block_contents|]. intros [data|] s1 (Hb1 & Hs1 & Hne & Hd); [|by apply wp_ret].
  destruct (Hd _ eq_refl) as (Et1 & -> & Hsf). destruct (chunk_bounds fl Hbk off n ltac:(lia)) as (C1 & C2 & C3). set (len := chunk fl off n) in *. pose proof (bk_size fl Hbk) as Hp0.
  assert (Z.of_nat (length (block_bytes (cs_fs s) (off / bs))) = bs) as Hlen by (unfold block_bytes; rewrite length_fmap, length_seqZ; lia).
  unfold from_block. destruct (Z.leb_spec 0 (off mod bs)); [|lia]. destruct (Z.leb_spec 0 len); [|lia]. rewrite Hlen. destruct (Z.leb_spec (off mod bs + len) bs); [|lia]. cbn [andb].
  apply wp_bind, wp_ret. destruct (Z.gtb_spec (pos + len) STORAGE_MAX_BUFFER_SIZE); [lia|]. rewrite block_piece by lia. unfold u64. rewrite Z.mod_small by lia.
  eapply wp_mono; [apply IH; try lia; [done|by eapply same_live]|]. intros r s2 (Hb2 & Hs2 & Hne2 & Hr). split; [done|]. split; [by transitivity s1|]. split; [done|].
  intros l El. destruct (Hr l El) as (Et2 & -> & Hsf2). split; [congruence|]. split; [|by transitivity (cs_fs s1)].
  rewrite (file_bytes_same _ _ _ _ Hsf), <- app_assoc, <- file_bytes_app by lia. do 2 f_equal. lia.
Qed.

(** [buf] is at [off] in the file, and nothing else has changed. *)
Definition written t t' off (buf : list Z) : Prop :=
  fl_size fl t' h = fl_size fl t h /\ file_bytes t' off (Z.of_nat (length buf)) = buf /\ forall x, x < off \/ off + Z.of_nat (length buf) <= x -> raw t' x = raw t x.

(** The bytes of a block after a piece of it was replaced. *)
Lemma into_block_lookup (data bytes : list Z) o i : (o + length bytes <= length data)%nat ->
  (take o data ++ bytes ++ drop (o + length bytes) data) !! i = if decide (o <= i < o + length bytes)%nat then bytes !! (i - o)%nat else data !! i.
Proof.
  intros H. case_decide as Hc.
  - rewrite lookup_app_r by (rewrite length_take; lia). rewrite length_take, Nat.min_l by lia. apply lookup_app_l. lia.
  - destruct (decide (i < o)%nat) as [Hi|Hi]; [rewrite lookup_app_l by (rewrite length_take; lia); apply lookup_take_lt; lia|].
    rewrite lookup_app_r by (rewrite length_take; lia). rewrite length_take, Nat.min_l by lia. rewrite lookup_app_r by lia. rewrite lookup_drop. f_equal. lia.
Qed.

(** One step of the write: the block is taken (with its contents when only a part of
    it is written), changed and put back. *)
Lemma write_step t t1 t2 off (data buf : list Z) : 0 < bs -> 0 <= off -> 0 <= off mod bs -> off mod bs + Z.of_nat (length buf) <= bs -> Z.of_nat (length data) = bs ->
  (Z.of_nat (length buf) <> bs -> data = block_bytes t (off / bs)) -> fl_size fl t1 h = fl_size fl t h -> (forall x, x / bs <> off / bs -> raw t1 x = raw t x) ->
  fl_size fl t2 h = fl_size fl t1 h -> (forall x, x / bs <> off / bs -> raw t2 x = raw t1 x) ->
  (forall i, 0 <= i < bs -> (take (Z.to_nat (off mod bs)) data ++ buf ++ drop (Z.to_nat (off mod bs) + length buf) data) !! Z.to_nat i = Some (raw t2 (off / bs * bs + i))) ->
  written t t2 off buf.
Proof.
  intros Hp Ho Hm Hfit Hd Hold Es1 Hr1 Es2 Hr2 Hnew. pose proof (Z.div_mod off bs ltac:(lia)) as Hdm. split; [congruence|]. split.
  - symmetry. apply file_bytes_eq; [done|]. intros i Hi. specialize (Hnew (off mod bs + i) ltac:(lia)). rewrite into_block_lookup in Hnew by lia. rewrite decide_True in Hnew by lia.
    replace (Z.to_nat (off mod bs + i) - Z.to_nat (off mod bs))%nat with (Z.to_nat i) in Hnew by lia. rewrite Hnew. do 2 f_equal. lia.
  - intros x Hx. destruct (decide (x / bs = off / bs)) as [Ex|Ex]; [|by rewrite Hr2, Hr1].
    assert (x = off / bs * bs + x mod bs) as Hxm by (rewrite <- Ex; pose proof (Z.div_mod x bs ltac:(lia)); lia). pose proof (Z.mod_pos_bound x bs Hp) as Hxb.
    specialize (Hnew (x mod bs) Hxb). rewrite into_block_lookup in Hnew by lia. rewrite decide_False in Hnew by lia. rewrite <- Hxm in Hnew.
    rewrite Hold in Hnew by lia. unfold block_bytes in Hnew. rewrite list_lookup_fmap, lookup_seqZ_lt in Hnew by lia. cbn in Hnew. injection Hnew as <-. f_equal. lia.
Qed.

Lemma written_app t t1 t2 off a b : written t t1 off a -> written t1 t2 (off + Z.of_nat (length a)) b -> written t t2 off (a ++ b).
Proof.
  intros (A1 & A2 & A3) (B1 & B2 & B3). split; [congruence|]. rewrite length_app, Nat2Z.inj_add. split.
  - rewrite file_bytes_app by lia. rewrite B2. f_equal. rewrite <- A2 at 2. unfold file_bytes. apply list_fmap_ext. intros i x Hx. apply B3. apply lookup_seqZ in Hx. lia.
  - intros x Hx. rewrite B3, A3 by lia. done.
Qed.

Lemma write_loop_contents fuel : forall off buf s, (length buf < fuel)%nat -> 0 <= off -> off + Z.of_nat (length buf) < 2 ^ 64 -> tr_busy (cs_tr s) -> h ∈ cs_live s ->
  wp (write_loop fl fuel h off buf)
  (fun r s' => tr_busy (cs_tr s') /\ same s s' /\ (tr_failed (cs_tr s') = false -> tr_failed (cs_tr s) = false /\ forall o, r = Some o -> o = off + Z.of_nat (length buf) /\ written (cs_fs s) (cs_fs s') off buf)) s.
Proof.
  induction fuel as [|fuel IH]; intros off buf s Hn Ho Hw Hb Hl; [lia|]. cbn [write_loop]. destruct (Z.eqb_spec (Z.of_nat (length buf)) 0) as [E0|Hn0].
  { apply wp_ret. split; [done|]. split; [done|]. intros Hnf. split; [done|]. intros o [= <-]. split; [lia|]. destruct buf; [|cbn in E0; lia]. by split. }
  destruct (chunk_bounds fl Hbk off (Z.of_nat (length buf)) ltac:(lia)) as (C1 & C2 & C3). set (len := chunk fl off (Z.of_nat (length buf))) in *. pose proof (bk_size fl Hbk) as Hp0.
  apply wp_bind. eapply wp_mono; [by apply get_block_write_contents|]. intros [data|] s1 (Hb1 & Hs1 & Hd & Hr1); [|apply wp_ret; split; [done|]; split; [done|]; intros Hnf; split; [by apply Hr1|done]]. cbn in Hd.
  assert (length (take (Z.to_nat len) buf) = Z.to_nat len) as Hlen by (rewrite length_take; lia).
  unfold into_block. destruct (Z.leb_spec 0 (off mod bs)); [|lia]. rewrite Hlen. destruct (Z.leb_spec (off mod bs + Z.of_nat (Z.to_nat len)) (Z.of_nat (length data))); [|lia]. cbn [andb].
  apply wp_bind, wp_ret. apply wp_bind. eapply wp_mono; [apply put_dirty_contents; [done|by eapply same_live|]|].
  { rewrite !length_app, length_take, length_drop, Hlen. lia. }
  intros _ s2 (Hb2 & Hs2 & Hr2). assert (same s s2) as Hs02 by (by transitivity s1). unfold u64. rewrite Z.mod_small by lia.
  eapply wp_mono; [apply IH; [rewrite length_drop; lia|lia|rewrite length_drop; lia|done|by eapply same_live]|]. intros r s3 (Hb3 & Hs3 & Hr3). split; [done|]. split; [by transitivity s2|].
  intros Hnf. destruct (Hr3 Hnf) as [Hnf2 Hr3']. destruct (Hr2 Hnf2) as (Hnf1 & Es2 & Hout2 & Hin2). destruct (Hr1 Hnf1) as (Hnf0 & Hr1'). destruct (Hr1' _ eq_refl) as (Hrd & Es1 & Hout1). split; [done|].
  intros o Eo. destruct (Hr3' o Eo) as [-> Hwr]. split; [rewrite length_drop; lia|]. rewrite <- (take_drop (Z.to_nat len) buf). apply (written_app _ (cs_fs s2)); [|by rewrite Hlen, Z2Nat.id by lia].
  apply (write_step (cs_fs s) (cs_fs s1) (cs_fs s2) off data); try done; try lia.
  - intros Hne. apply Hrd. apply negb_true_iff, Z.eqb_neq. lia.
  - intros i Hi. rewrite Hlen. by apply Hin2.
Qed.

(** ** The requests *)

(** [buf] was written at [off] to the file, which has grown where that was needed. *)
Definition wrote t t' off (buf : list Z) : Prop :=
  fl_size fl t' h = Z.max (fl_size fl t h) (off + Z.of_nat (length buf)) /\ file_bytes t' off (Z.of_nat (length buf)) = buf /\
  forall x, x < fl_size fl t h -> x < off \/ off + Z.of_nat (length buf) <= x -> raw t' x = raw t x.

Lemma wrote_same t t1 t2 off buf : wrote t t1 off buf -> same_file t1 t2 -> wrote t t2 off buf.
Proof. intros (H1 & H2 & H3) Hs. pose proof Hs as [Es Hr]. split; [congruence|]. split; [by rewrite (file_bytes_same _ _ _ _ Hs)|]. intros x Hx Hout. rewrite Hr. by apply H3. Qed.

Lemma finish_contents msg s : tr_busy (cs_tr s) -> tr_failed (cs_tr s) = false -> wp (finish fl msg)
  (fun r s' => same s s' /\ 0 <= r < 8 /\ (r = STORAGE_NO_ERROR -> tr_failed (cs_tr s') = false /\ tr_ok (cs_tr s') /\ same_file (cs_fs s) (cs_fs s'))) s.
Proof.
  intros Hb Hnf. pose proof Hb as [Hc Ha]. unfold finish. destruct (flag_complete msg); [|apply wp_ret; split; [done|]; split; [done|]; intros _; split; [done|]; split; [by apply busy_ok|done]].
  unfold transaction_complete. apply wp_bind, wp_bind, wp_get. apply wp_bind, wp_assert; [by rewrite Hc|]. rewrite Hnf. apply wp_bind, wp_assert; [by rewrite Ha, Hnf|].
  destruct (fl_commit fl (cs_fs s)) as [ok t] eqn:Ec. apply wp_bind, wp_modify. destruct ok; cbn [negb].
  - unfold transaction_delete_active. apply wp_bind, wp_bind, wp_get. apply wp_bind, wp_assert; [cbn; by rewrite Ha, Hnf|]. apply wp_modify, wp_modify. apply wp_bind, wp_get, wp_ret. cbn. rewrite Hnf.
    split; [done|]. split; [done|]. intros _. split; [done|]. split; [done|]. by apply (kc_commit Hkc).
  - eapply wp_mono; [apply quiet_fail; cbn; [by rewrite Ha, Hnf|done|done]|]. intros ? s' [E Hs]. apply wp_bind, wp_get, wp_ret. rewrite E. cbn. done.
Qed.

(** The four fields of the two requests. *)
Lemma write_fields off i x buf : 0 <= off < 2 ^ 64 -> 0 <= i < 2 ^ 32 -> let req := le_bytes 8 off ++ le_bytes 4 i ++ le_bytes 4 x ++ buf in
  le_val (field 0 8 req) = off /\ le_val (field 8 4 req) = i /\ drop 16 req = buf /\ length req = (16 + length buf)%nat.
Proof.
  intros Ho Hi req. unfold req. split_and!.
  - rewrite field_app_l, field_all by (rewrite ?le_bytes_length; lia). by apply le_val_le_bytes.
  - rewrite field_app_r, le_bytes_length by (rewrite ?le_bytes_length; lia). rewrite field_app_l, field_all by (rewrite ?le_bytes_length; lia). by apply le_val_le_bytes.
  - rewrite !app_assoc. apply drop_app_length'. by rewrite !length_app, !le_bytes_length.
  - rewrite !length_app, !le_bytes_length. lia.
Qed.
Lemma read_fields off i n : 0 <= off < 2 ^ 64 -> 0 <= i < 2 ^ 32 -> 0 <= n < 2 ^ 32 -> let req := le_bytes 4 i ++ le_bytes 4 n ++ le_bytes 8 off in
  le_val (field 0 4 req) = i /\ le_val (field 4 4 req) = n /\ le_val (field 8 8 req) = off /\ length req = 16%nat.
Proof.
  intros Ho Hi Hn req. unfold req. split_and!.
  - rewrite field_app_l, field_all by (rewrite ?le_bytes_length; lia). by apply le_val_le_bytes.
  - rewrite field_app_r, le_bytes_length by (rewrite ?le_bytes_length; lia). rewrite field_app_l, field_all by (rewrite ?le_bytes_length; lia). by apply le_val_le_bytes.
  - do 2 (rewrite field_app_r, le_bytes_length by (rewrite ?le_bytes_length; lia)). rewrite field_all by (rewrite ?le_bytes_length; lia). by apply le_val_le_bytes.
  - by rewrite !length_app, !le_bytes_length.
Qed.

Lemma session_handle_run i s : cs_files s !! Z.to_nat i = Some (Some h) -> 0 <= i -> get_file_handle i s = Ret (Some h) s.
Proof.
  intros E Hi. unfold get_file_handle. rewrite get_bind. pose proof (lookup_lt_Some _ _ _ E). destruct (Z.geb_spec i (Z.of_nat (length (cs_files s)))); [lia|]. rewrite E. reflexivity.
Qed.

Lemma size_wp s (Q : Z -> cstate T -> Prop) : h ∈ cs_live s -> Q (fl_size fl (cs_fs s) h) s -> wp (file_size fl h) Q s.
Proof. intros Hl HQ. unfold file_size. apply wp_bind, live_wp; [done|]. by apply wp_bind, wp_get, wp_ret. Qed.

(** A write that is answered with success has written. *)
Lemma write_request_contents msg off i x buf s : 0 <= off -> off + Z.of_nat (length buf) < 2 ^ 64 -> 0 <= i < 2 ^ 32 -> tr_busy (cs_tr s) -> h ∈ cs_live s ->
  cs_files s !! Z.to_nat i = Some (Some h) -> wp (storage_file_write fl msg (le_bytes 8 off ++ le_bytes 4 i ++ le_bytes 4 x ++ buf))
  (fun r s' => same s s' /\ 0 <= r < 8 /\ (r = STORAGE_NO_ERROR -> tr_failed (cs_tr s') = false /\ tr_ok (cs_tr s') /\ wrote (cs_fs s) (cs_fs s') off buf)) s.
Proof.
  intros Ho Hw Hi Hb Hl El. destruct (write_fields off i x buf ltac:(lia) Hi) as (F1 & F2 & F3 & F4). unfold storage_file_write. rewrite F1, F2, F3. case_match; [by apply wp_ret|].
  apply wp_bind. apply (wp_run _ _ _ _ _ (session_handle_run i s El ltac:(lia))). apply wp_bind, size_wp; [done|]. destruct (Z.gtb_spec off (fl_size fl (cs_fs s) h)) as [|Hsz]; [by apply wp_ret|].
  apply wp_bind. eapply wp_mono; [apply write_loop_contents; try done; lia|]. intros [o|] s1 (Hb1 & Hs1 & Hr1).
  - apply wp_bind, size_wp; [by eapply same_live|]. apply wp_bind.
    apply (wp_mono _ (fun _ s' => tr_busy (cs_tr s') /\ same s s' /\ (tr_failed (cs_tr s') = false -> wrote (cs_fs s) (cs_fs s') off buf))).
    { apply wp_when.
      - intros Hgt. apply Z.gtb_lt in Hgt. eapply wp_mono; [apply set_size_contents; [done|by eapply same_live|lia]|]. intros _ s2 (Hb2 & Hs2 & Hr2). split; [done|]. split; [by transitivity s1|].
        intros Hnf. destruct (Hr2 Hnf) as (Hnf1 & Es & Hraw). destruct (Hr1 Hnf1) as [_ Hr1']. destruct (Hr1' o eq_refl) as [-> (W1 & W2 & W3)]. split; [lia|]. split.
        + rewrite <- W2 at 2. unfold file_bytes. apply list_fmap_ext. intros j y Hy. apply Hraw. apply lookup_seqZ in Hy. lia.
        + intros y Hy Hout. rewrite Hraw, W3 by lia. done.
      - intros Hle. split; [done|]. split; [done|]. intros Hnf. destruct (Hr1 Hnf) as [_ Hr1']. destruct (Hr1' o eq_refl) as [-> (W1 & W2 & W3)]. rewrite Z.gtb_ltb in Hle. apply Z.ltb_ge in Hle.
        split; [lia|]. split; [done|]. intros y _ Hout. by apply W3. }
    intros ? s2 (Hb2 & Hs2 & Hwr). apply wp_bind, wp_get. destruct (tr_failed (cs_tr s2)) eqn:Ef; [by apply wp_ret|]. eapply wp_mono; [by apply finish_contents|].
    intros r s3 (Hs3 & Hr & Hok). split; [by transitivity s2|]. split; [done|]. intros Er. destruct (Hok Er) as (Hnf & Ht & Hsf). split; [done|]. split; [done|]. by eapply wrote_same; [apply Hwr|].
  - apply wp_bind, wp_get. apply wp_bind. apply (wp_mono _ (fun _ s' => same s s')); [|intros ? s' Hs'; by apply wp_ret]. apply wp_when; [|done]. intros Hnf. apply negb_true_iff in Hnf.
    destruct Hb1 as [Hc1 Ha1]. rewrite Hnf in Ha1. eapply wp_mono; [by apply quiet_fail|]. intros ? s2 [_ Hs2]. by transitivity s1.
Qed.

(** A read returns the bytes of the file up to its end, or an error. *)
Lemma read_request_contents msg off i n s : 0 <= off -> off <= fl_size fl (cs_fs s) h -> off + n < 2 ^ 64 -> 0 <= n <= STORAGE_MAX_BUFFER_SIZE - sizeof_storage_msg -> 0 <= i < 2 ^ 32 ->
  tr_busy (cs_tr s) -> h ∈ cs_live s -> cs_files s !! Z.to_nat i = Some (Some h) -> wp (storage_file_read fl msg (le_bytes 4 i ++ le_bytes 4 n ++ le_bytes 8 off))
  (fun '(r, out) s' => same s s' /\ ((r = STORAGE_NO_ERROR /\ out = file_bytes (cs_fs s) off (Z.min n (fl_size fl (cs_fs s) h - off))) \/ (r = STORAGE_ERR_GENERIC /\ out = [] /\ ~ reads_all))) s.
Proof.
  intros Ho Hsz Hw Hn Hi Hb Hl El. pose proof (kc_size Hkc (cs_fs s)) as Hks. unfold STORAGE_MAX_BUFFER_SIZE, sizeof_storage_msg in Hn. destruct (read_fields off i n ltac:(lia) Hi ltac:(lia)) as (F1 & F2 & F3 & F4).
  unfold storage_file_read. rewrite F1, F2, F3, F4. cbn [Z.of_nat Z.ltb]. change (_ <? 16) with false. cbv iota.
  apply wp_bind. apply (wp_run _ _ _ _ _ (session_handle_run i s El ltac:(lia))). destruct (Z.gtb_spec n (STORAGE_MAX_BUFFER_SIZE - sizeof_storage_msg)) as [Hx|_]; [unfold STORAGE_MAX_BUFFER_SIZE, sizeof_storage_msg in Hx; lia|].
  apply wp_bind, size_wp; [done|]. destruct (Z.gtb_spec off (fl_size fl (cs_fs s) h)); [lia|]. set (size := fl_size fl (cs_fs s) h) in *.
  assert ((if u64 (off + n) >? size then u32 (size - off) else n) = Z.min n (size - off)) as ->.
  { unfold u64, u32. rewrite (Z.mod_small (off + n)) by lia. destruct (Z.gtb_spec (off + n) size); [rewrite Z.mod_small; lia|lia]. }
  apply wp_bind. eapply wp_mono; [apply read_loop_contents; unfold STORAGE_MAX_BUFFER_SIZE, sizeof_storage_msg; try done; lia|]. intros [l|] s1 (Hb1 & Hs1 & Hne & Hr); apply wp_ret; split; try done.
  - left. split; [done|]. by destruct (Hr l eq_refl) as (_ & -> & _).
  - right. split; [done|]. split; [done|]. intros Hall. by apply Hne.
Qed.

(** ** The messages *)

Definition write_msg (op flags off i : Z) (buf : list Z) : list Z :=
  encode_msg (StorageMsg STORAGE_FILE_WRITE op flags 0 0 0) ++ le_bytes 8 off ++ le_bytes 4 i ++ le_bytes 4 0 ++ buf.
Definition read_msg (op flags off i n : Z) : list Z :=
  encode_msg (StorageMsg STORAGE_FILE_READ op flags 0 0 0) ++ le_bytes 4 i ++ le_bytes 4 n ++ le_bytes 8 off.
Definition answer (cmd op result : Z) (out : list Z) : list Z :=
  encode_msg (StorageMsg (Z.lor cmd STORAGE_RESP_BIT) op 0 (sizeof_storage_msg + Z.of_nat (length out)) result 0) ++ out.

Lemma encode_result a b : 0 <= sm_result a < 8 -> 0 <= sm_result b < 8 -> encode_msg a = encode_msg b -> sm_result a = sm_result b.
Proof.
  intros Ha Hb E. assert (forall m, field 16 4 (encode_msg m) = le_bytes 4 (sm_result m)) as Hf by reflexivity.
  apply (f_equal (fun l => le_val (field 16 4 l))) in E. rewrite !Hf, !le_val_le_bytes in E by lia. done.
Qed.

Definition hdr_ok (op flags : Z) : Prop := 0 <= op < 2 ^ 32 /\ 0 <= flags < 2 ^ 32.

(** A request that finds the transaction not failed gets to its handler. *)
Lemma handle_dispatch cmd op flags payload s : hdr_ok op flags -> 0 <= cmd < 2 ^ 32 -> cmd <> STORAGE_END_TRANSACTION -> tr_ok (cs_tr s) -> tr_failed (cs_tr s) = false ->
  exists s0, client_handle_msg fl (encode_msg (StorageMsg cmd op flags 0 0 0) ++ payload) s = dispatch fl (StorageMsg cmd op flags 0 0 0) payload s0 /\
    tr_busy (cs_tr s0) /\ same s s0 /\ same_file (cs_fs s) (cs_fs s0).
Proof.
  intros [Hop Hfl] Hcmd Hne Ht Hnf. set (m := StorageMsg cmd op flags 0 0 0). pose proof (encode_msg_length m) as Hlen.
  assert (decode_msg (encode_msg m) = m) as Hdec by (apply decode_encode_msg; cbn; [repeat constructor; done || lia|lia]).
  unfold client_handle_msg. rewrite length_app, Hlen. destruct (Z.ltb_spec (Z.of_nat (24 + length payload)) sizeof_storage_msg) as [Hx|_]; [unfold sizeof_storage_msg in Hx; lia|].
  rewrite take_app_length', drop_app_length', Hdec by done. destruct (Z.eqb_spec (sm_cmd m) STORAGE_END_TRANSACTION) as [Hx|_]; [done|].
  unfold mbind at 1, M_bind at 1, get at 1. cbv beta iota. rewrite Hnf. destruct (tr_active (cs_tr s)) eqn:Ha; cbn [negb when].
  - exists s. split; [done|]. split; [|done]. split; [by apply Ht|]. by rewrite Ha, Hnf.
  - exists (set_fs (fl_activate fl (cs_fs s)) (set_tr (Tr true false false) s)). split; [|split; [done|]; split; [done|]; by apply (kc_activate Hkc)].
    unfold mbind at 1, M_bind at 1. unfold transaction_activate. rewrite get_bind, Ha. reflexivity.
Qed.

Lemma send_run r msg out s : exists rc st, send_response r msg out s = Ret rc (set_sent st ((encode_msg (StorageMsg (Z.lor (sm_cmd msg) STORAGE_RESP_BIT) (sm_op_id msg) 0 (sizeof_storage_msg + Z.of_nat (length out)) r (sm_reserved msg)) ++
  (if r =? STORAGE_NO_ERROR then out else [])) :: cs_sent s) s).
Proof. unfold send_response, send_msg. destruct (cs_status s); eauto. Qed.

(** A failed transaction answers nothing with success. *)
Lemma handle_failed cmd op flags payload s rc s1 : hdr_ok op flags -> 0 <= cmd < 2 ^ 32 -> cmd <> STORAGE_END_TRANSACTION -> tr_failed (cs_tr s) = true ->
  client_handle_msg fl (encode_msg (StorageMsg cmd op flags 0 0 0) ++ payload) s = Ret rc s1 -> cs_sent s1 = answer cmd op STORAGE_NO_ERROR [] :: cs_sent s -> False.
Proof.
  intros [Hop Hfl] Hcmd Hne Hf. set (m := StorageMsg cmd op flags 0 0 0). pose proof (encode_msg_length m) as Hlen.
  assert (decode_msg (encode_msg m) = m) as Hdec by (apply decode_encode_msg; cbn; [repeat constructor; done || lia|lia]).
  unfold client_handle_msg. rewrite length_app, Hlen. destruct (Z.ltb_spec (Z.of_nat (24 + length payload)) sizeof_storage_msg) as [Hx|_]; [unfold sizeof_storage_msg in Hx; lia|].
  rewrite take_app_length', drop_app_length', Hdec by done. destruct (Z.eqb_spec (sm_cmd m) STORAGE_END_TRANSACTION) as [Hx|_]; [done|]. rewrite get_bind, Hf.
  assert (forall s0, send_result m STORAGE_ERR_TRANSACT s0 = Ret rc s1 -> cs_sent s0 = cs_sent s -> cs_sent s1 = answer cmd op STORAGE_NO_ERROR [] :: cs_sent s -> False) as Hsend.
  { intros s0. destruct (send_run STORAGE_ERR_TRANSACT m [] s0) as (rc0 & st & E). unfold send_result. rewrite E. intros [= <- <-] Es. cbn [set_sent cs_sent]. rewrite Es. by intros [=]. }
  destruct (flag_complete m); cbn [when].
  - unfold mbind at 1, M_bind at 1. unfold clear_failed, modify. intros E. by eapply Hsend.
  - unfold mbind at 1, M_bind at 1. intros E. by apply (Hsend s).
Qed.

Lemma cons_head {A} (x y : A) l l' : x :: l = y :: l' -> x = y.
Proof. by intros [=]. Qed.

Lemma cmd_write_ok : 0 <= STORAGE_FILE_WRITE < 2 ^ 32.
Proof. done. Qed.
Lemma cmd_write_not_end : STORAGE_FILE_WRITE <> STORAGE_END_TRANSACTION.
Proof. done. Qed.

Lemma write_answered op flags off i buf s rc s1 : hdr_ok op flags -> 0 <= off -> off + Z.of_nat (length buf) < 2 ^ 64 -> 0 <= i < 2 ^ 32 -> h ∈ cs_live s -> tr_ok (cs_tr s) ->
  cs_files s !! Z.to_nat i = Some (Some h) -> client_handle_msg fl (write_msg op flags off i buf) s = Ret rc s1 -> cs_sent s1 = answer STORAGE_FILE_WRITE op STORAGE_NO_ERROR [] :: cs_sent s ->
  cs_live s1 = cs_live s /\ cs_files s1 = cs_files s /\ tr_failed (cs_tr s1) = false /\ tr_ok (cs_tr s1) /\ wrote (cs_fs s) (cs_fs s1) off buf.
Proof.
  intros Hh Ho Hw Hi Hl Ht El. unfold write_msg. destruct (tr_failed (cs_tr s)) eqn:Hf; [intros E1 E2; exfalso; by apply (handle_failed _ _ _ _ s _ _ Hh cmd_write_ok cmd_write_not_end Hf E1 E2)|].
  destruct (handle_dispatch STORAGE_FILE_WRITE op flags (le_bytes 8 off ++ le_bytes 4 i ++ le_bytes 4 0 ++ buf) s Hh) as (s0 & -> & Hb0 & Hs0 & Hsf0); try done.
  set (m := StorageMsg STORAGE_FILE_WRITE op flags 0 0 0). change (dispatch fl m (le_bytes 8 off ++ le_bytes 4 i ++ le_bytes 4 0 ++ buf) s0) with
    ((result ← storage_file_write fl m (le_bytes 8 off ++ le_bytes 4 i ++ le_bytes 4 0 ++ buf); send_result m result) s0). unfold mbind, M_bind.
  pose proof Hs0 as (_ & E0 & E1 & _ & _ & E2). pose proof (write_request_contents m off i 0 buf s0 Ho Hw Hi Hb0 (same_live _ _ Hs0 Hl) ltac:(by rewrite E0)) as Hwp. unfold wp in Hwp.
  destruct (storage_file_write fl m _ s0) as [r s2|]; [|done]. destruct Hwp as (Hs2 & Hr & Hok). destruct (send_run r m [] s2) as (rc0 & st & E). unfold send_result. rewrite E.
  intros [= <- <-]. cbn [set_sent cs_sent cs_live cs_files cs_tr cs_fs]. pose proof Hs2 as (_ & F0 & F1 & _ & _ & F2). rewrite F2, E2. intros Ean. apply cons_head in Ean. unfold answer in Ean.
  assert ((if r =? STORAGE_NO_ERROR then [] else []) = @nil Z) as Hnil by (by case_match). rewrite Hnil, !app_nil_r in Ean.
  set (hdr := StorageMsg (Z.lor STORAGE_FILE_WRITE STORAGE_RESP_BIT) op 0 (sizeof_storage_msg + 0)). change (encode_msg (hdr r 0) = encode_msg (hdr STORAGE_NO_ERROR 0)) in Ean. apply encode_result in Ean; [|done..]. cbn in Ean.
  destruct (Hok Ean) as (Hnf & Ht2 & (W1 & W2 & W3)). destruct Hsf0 as [Esz Eraw]. split; [congruence|]. split; [congruence|]. split; [done|]. split; [done|]. split; [by rewrite <- Esz|]. split; [done|].
  intros x Hx Hout. rewrite W3 by (by rewrite ?Esz). apply Eraw.
Qed.

Lemma read_answered op flags off i n s : hdr_ok op flags -> 0 <= off <= fl_size fl (cs_fs s) h -> off + n < 2 ^ 64 -> 0 <= n <= STORAGE_MAX_BUFFER_SIZE - sizeof_storage_msg -> 0 <= i < 2 ^ 32 -> h ∈ cs_live s ->
  tr_ok (cs_tr s) -> tr_failed (cs_tr s) = false -> cs_files s !! Z.to_nat i = Some (Some h) ->
  exists rc s1 result out, client_handle_msg fl (read_msg op flags off i n) s = Ret rc s1 /\ cs_sent s1 = answer STORAGE_FILE_READ op result out :: cs_sent s /\
    ((result = STORAGE_NO_ERROR /\ out = file_bytes (cs_fs s) off (Z.min n (fl_size fl (cs_fs s) h - off))) \/ (result = STORAGE_ERR_GENERIC /\ out = [] /\ ~ reads_all)).
Proof.
  intros Hh Ho Hw Hn Hi Hl Ht Hf El. unfold read_msg. destruct (handle_dispatch STORAGE_FILE_READ op flags (le_bytes 4 i ++ le_bytes 4 n ++ le_bytes 8 off) s Hh) as (s0 & -> & Hb0 & Hs0 & Hsf0); try done.
  set (m := StorageMsg STORAGE_FILE_READ op flags 0 0 0). change (dispatch fl m (le_bytes 4 i ++ le_bytes 4 n ++ le_bytes 8 off) s0) with
    (('(result, out) ← storage_file_read fl m (le_bytes 4 i ++ le_bytes 4 n ++ le_bytes 8 off); send_response result m out) s0). unfold mbind, M_bind.
  pose proof Hs0 as (_ & E0 & E1 & _ & _ & E2). pose proof Hsf0 as [Esz _].
  pose proof (read_request_contents m off i n s0 ltac:(lia) ltac:(lia) Hw Hn Hi Hb0 (same_live _ _ Hs0 Hl) ltac:(by rewrite E0)) as Hwp. unfold wp in Hwp.
  destruct (storage_file_read fl m _ s0) as [[r out] s2|]; [|done]. destruct Hwp as (Hs2 & Hr). rewrite Esz, (file_bytes_same _ _ _ _ Hsf0) in Hr.
  pose proof Hs2 as (_ & F0 & F1 & _ & _ & F2). destruct (send_run r m out s2) as (rc0 & st & E). exists rc0, (set_sent st ((encode_msg (StorageMsg (Z.lor (sm_cmd m) STORAGE_RESP_BIT) (sm_op_id m) 0
    (sizeof_storage_msg + Z.of_nat (length out)) r (sm_reserved m)) ++ (if r =? STORAGE_NO_ERROR then out else [])) :: cs_sent s2) s2), r, out. split; [exact E|]. split; [|done].
  cbn [set_sent cs_sent]. rewrite F2, E2. f_equal. unfold answer. f_equal. destruct Hr as [[-> _]|(-> & -> & _)]; done.
Qed.
End contents.

(** ** What a session promises *)

(** C18: A session is safe.  Whatever a client sends, in whatever order, whichever
    allocations and answers fail, whatever the layer below returns (blocks of its
    block size), and whenever other sessions' commits fail the transaction: no
    handler fails an assertion, leaves a buffer or a block, or uses a file handle
    that was freed.  While the session lasts the files in its table are exactly the
    allocated and open ones, at most 128; when it has ended none is left. *)
Theorem client_session_safe {T} (fl : file_layer T) peer allocs status t evs :
  blocks_ok fl -> Forall event_ok evs ->
  exists ended s, client_run fl evs (client_connect peer allocs status t) = Ret ended s /\
    if ended : bool then cs_files s = [] /\ cs_live s = [] /\ cs_open s = [] /\ tr_active (cs_tr s) = false
    else files_ok [] s /\ tr_ok (cs_tr s) /\ cs_uuid s = peer.
Proof.
  intros Hbk Hev. pose proof (client_run_wp fl evs Hbk Hev (client_connect peer allocs status t) (connect_ok _ _ _ _)) as H. unfold wp in H.
  destruct (client_run fl evs _) as [ended s|]; [|exfalso; by apply H]. exists ended, s. split; [done|]. by apply H.
Qed.

(** C19: A client reaches its own directory only.  A session of client [u] does the same
    step by step, with the same answers and the same files, on a file system that
    opens and deletes in any other way every path outside of [u]'s directory; and the
    directories of two identities have no path in common. *)
Theorem client_confined {T} (fl : file_layer T) o d u allocs status t evs :
  blocks_ok fl -> Forall event_ok evs -> agree fl o d u ->
  client_run (with_paths fl o d) evs (client_connect u allocs status t) = client_run fl evs (client_connect u allocs status t) /\
  (forall u' p, uuid_ok u -> uuid_ok u' -> u <> u' -> in_dir u p -> ~ in_dir u' p).
Proof.
  intros Hbk Hev Hag. split.
  - apply run_confined; try done. by apply connect_ok.
  - intros u' p Hu Hu' Hne H1 H2. apply Hne. by eapply dirs_disjoint.
Qed.

(** C20: What a client has written it reads back.  When a request to write [buf] at an
    offset of an open file is answered with success, a request to read from there,
    of at most as many bytes and as fit a message, is answered with the bytes of
    [buf], however the range lies across blocks and whether or not the write ended
    its transaction; with an error and without data only when the layer below
    cannot read some block. *)
Theorem client_write_read {T} (fl : file_layer T) h raw s op flags op' flags' off i buf n rc s1 :
  blocks_ok fl -> keeps_contents fl h raw -> files_ok [] s -> tr_ok (cs_tr s) -> 0 <= i -> cs_files s !! Z.to_nat i = Some (Some h) -> hdr_ok op flags -> hdr_ok op' flags' ->
  0 <= off -> off + Z.of_nat (length buf) < 2 ^ 64 -> 0 <= n <= Z.of_nat (length buf) -> n <= STORAGE_MAX_BUFFER_SIZE - sizeof_storage_msg ->
  client_handle_msg fl (write_msg op flags off i buf) s = Ret rc s1 -> cs_sent s1 = answer STORAGE_FILE_WRITE op STORAGE_NO_ERROR [] :: cs_sent s ->
  exists rc' s2 result out, client_handle_msg fl (read_msg op' flags' off i n) s1 = Ret rc' s2 /\ cs_sent s2 = answer STORAGE_FILE_READ op' result out :: cs_sent s1 /\
    ((result = STORAGE_NO_ERROR /\ out = take (Z.to_nat n) buf) \/ (result = STORAGE_ERR_GENERIC /\ out = [] /\ ~ reads_all fl h)).
Proof.
  intros Hbk Hkc Hf Ht Hi El Hh Hh' Ho Hw Hn Hmax E Es. pose proof (lookup_lt_Some _ _ _ El). pose proof (fk_count _ _ Hf) as Hc. unfold STORAGE_MAX_OPEN_FILES in Hc.
  assert (h ∈ cs_live s) as Hl by (by apply Hf, (lookup_handle _ _ _ El)).
  destruct (write_answered fl h raw Hbk Hkc op flags off i buf s rc s1) as (E1 & E2 & Hnf & Ht1 & (W1 & W2 & W3)); try done; [lia|].
  destruct (read_answered fl h raw Hbk Hkc op' flags' off i n s1) as (rc' & s2 & result & out & R1 & R2 & R3); try done; try lia; [by rewrite E1|by rewrite E2|].
  exists rc', s2, result, out. split; [done|]. split; [done|]. destruct R3 as [[-> ->]|R3]; [|by right]. left. split; [done|].
  rewrite W1, Z.min_l by lia. rewrite <- W2. replace (Z.of_nat (length buf)) with (n + (Z.of_nat (length buf) - n)) by lia. rewrite file_bytes_app by lia.
  rewrite take_app_length'; [done|]. pose proof (file_bytes_length raw (cs_fs s1) off n). lia.
Qed.

(** ** A layer in memory, and a session on it *)

Module Demo.
Record fs := Fs { fs_path : Z -> list Z; fs_file : list Z -> option (Z * (Z -> Z)); fs_saved : list Z -> option (Z * (Z -> Z)) }.

Definition put (p : list Z) (f : option (Z * (Z -> Z))) (t : fs) : fs := Fs (fs_path t) (fun q => if bool_decide (q = p) then f else fs_file t q) (fs_saved t).
Definition of_handle (t : fs) (h : Z) : option (Z * (Z -> Z)) := fs_file t (fs_path t h).
Definition raw (h : Z) (t : fs) (x : Z) : Z := match of_handle t h with Some (_, f) => f x | None => 0 end.
Definition get_block (h b : Z) (t : fs) : option (list Z) * bool * fs := (Some ((fun i => raw h t (b * 8 + i)) <$> seqZ 0 8), false, t).

Definition layer : file_layer fs := {|
  file_block_size := 8;
  fl_open p h mode t :=
    match fs_file t p, mode with
    | None, FILE_OPEN_NO_CREATE => (false, false, t)
    | Some _, FILE_OPEN_CREATE_EXCLUSIVE => (false, false, t)
    | f, _ =>
        let t' := put p (Some (default (0, fun _ => 0) f)) t in
        (true, false, Fs (fun h' => if h' =? h then p else fs_path t' h') (fs_file t') (fs_saved t'))
    end;
  fl_close h t := t;
  fl_delete p t := (bool_decide (is_Some (fs_file t p)), false, put p None t);
  fl_size t h := u64 (match of_handle t h with Some (n, _) => n | None => 0 end);
  fl_get_block := get_block;
  fl_get_block_write h b rd t := get_block h b t;
  fl_put_dirty h b data t :=
    match of_handle t h with
    | Some (n, f) => (false, put (fs_path t h) (Some (n, fun x => if x / 8 =? b then nth (Z.to_nat (x mod 8)) data 0 else f x)) t)
    | None => (true, t)
    end;
  fl_get_size h t := (fst <$> of_handle t h, t);
  fl_set_size h n t :=
    match of_handle t h with
    | Some (_, f) => if (0 <=? n) && (n <? 2 ^ 64) then (false, put (fs_path t h) (Some (n, f)) t) else (true, t)
    | None => (true, t)
    end;
  fl_commit t := (true, Fs (fs_path t) (fs_file t) (fs_file t));
  fl_discard t := Fs (fs_path t) (fs_saved t) (fs_saved t);
  fl_activate t := t;
|}.

Lemma layer_blocks : blocks_ok layer.
Proof.
  split; [done| |].
  - intros h b t data f t'. cbn. unfold get_block. intros [= <- _ _]. reflexivity.
  - intros h b r t data f t'. cbn. unfold get_block. intros [= <- _ _]. reflexivity.
Qed.

Lemma of_put t h f : of_handle (put (fs_path t h) f t) h = f.
Proof. unfold of_handle, put. cbn. by rewrite bool_decide_true. Qed.

Lemma layer_keeps h : keeps_contents layer h (raw h).
Proof.
  split.
  - intros t. apply Z.mod_pos_bound. lia.
  - intros b t data f t'. cbn. unfold get_block. intros [= <- <- <-]. split; [done|]. split; [done|]. by split.
  - intros b rd t data t'. cbn. unfold get_block. intros [= <- <-]. split; [done|]. by split.
  - intros b data t t'. cbn. destruct (of_handle t h) as [[n f]|] eqn:E; [|done]. intros [= <-] Hl. rewrite of_put. split; [done|]. unfold raw. rewrite of_put, E. split.
    + intros x Hx. destruct (Z.eqb_spec (x / 8) b); done.
    + intros i Hi. replace ((b * 8 + i) / 8) with b by (Z.to_euclidean_division_equations; lia). rewrite Z.eqb_refl. replace ((b * 8 + i) mod 8) with i by (Z.to_euclidean_division_equations; lia).
      rewrite nth_lookup. cbn in Hl. destruct (lookup_lt_is_Some_2 data (Z.to_nat i)) as [x ->]; [lia|done].
  - intros n t t'. cbn. destruct (of_handle t h) as [[m f]|] eqn:E; [|done]. destruct (Z.leb_spec 0 n); [|done]. destruct (Z.ltb_spec n (2 ^ 64)); [|done]. intros [= <-] _. rewrite of_put.
    split; [apply Z.mod_small; lia|]. intros x _. unfold raw. by rewrite of_put, E.
  - intros t t'. cbn. intros [= <-]. by split.
  - intros t. by split.
Qed.
Definition peer : uuid := Uuid 3735928559 4660 22136 [1; 2; 3; 4; 5; 6; 7; 8].
Definition empty : fs := Fs (fun _ => []) (fun _ => None) (fun _ => None).
Definition connected : cstate fs := client_connect peer [] [] empty.

(** Open the file "a.b", creating it. *)
Definition open_msg : list Z := encode_msg (StorageMsg STORAGE_FILE_OPEN 1 0 0 0 0) ++ le_bytes 4 STORAGE_FILE_OPEN_CREATE ++ [97; 46; 98].
Definition data : list Z := [10; 11; 12; 13; 14; 15; 16; 17; 18; 19].
Definition events : list event :=
  [Message open_msg; Message (write_msg 2 0 0 0 data); Message (write_msg 3 1 5 0 data); Message (read_msg 4 0 5 0 10); Conflict; Message (read_msg 5 0 0 0 10); Message [1; 2]].

(** The answers, latest first: the last message is too short, the read before it meets
    the failed transaction. *)
Example session_answers : match client_run layer events connected with Ret ended s => Some (ended, cs_sent s) | _ => None end = Some (true,
  [answer STORAGE_RESP_BIT 0 STORAGE_ERR_NOT_VALID []; answer STORAGE_FILE_READ 5 STORAGE_ERR_TRANSACT []; answer STORAGE_FILE_READ 4 STORAGE_NO_ERROR data;
    answer STORAGE_FILE_WRITE 3 STORAGE_NO_ERROR []; answer STORAGE_FILE_WRITE 2 STORAGE_NO_ERROR []; answer STORAGE_FILE_OPEN 1 STORAGE_NO_ERROR [0; 0; 0; 0]]).
Proof. vm_compute. reflexivity. Qed.

Definition after (bytes : list Z) (s : cstate fs) : cstate fs := match client_handle_msg layer bytes s with Ret _ s' => s' | _ => s end.
Definition opened : cstate fs := after open_msg connected.
Definition overwritten : cstate fs := after (write_msg 3 1 5 0 data) (after (write_msg 2 0 0 0 data) opened).

Lemma after_run bytes s rc : match client_handle_msg layer bytes s with Ret r _ => Some r | _ => None end = Some rc -> client_handle_msg layer bytes s = Ret rc (after bytes s).
Proof. unfold after. destruct (client_handle_msg layer bytes s); [|done]. by intros [= ->]. Qed.

(** Layers that know of no file outside of [peer]'s directory. *)
Definition open_own (p : list Z) : Z -> file_create_mode -> fs -> bool * bool * fs := if bool_decide (take 33 p = path_dir peer) then fl_open layer p else fun _ _ t => (false, false, t).
Definition delete_own (p : list Z) : fs -> bool * bool * fs := if bool_decide (take 33 p = path_dir peer) then fl_delete layer p else fun t => (false, false, t).

Lemma own_agree : agree layer open_own delete_own peer.
Proof. intros p (name & -> & _). unfold open_own, delete_own. rewrite bool_decide_true by (by apply take_app_length'). done. Qed.

Lemma events_ok : Forall event_ok events.
Proof.
  assert (forall l, bool_decide (Forall (fun b => 0 <= b < 256) l) = true -> event_ok (Message l)) as H by (intros l; apply bool_decide_eq_true).
  unfold events. repeat (apply Forall_cons; [first [exact I|apply H; vm_compute; reflexivity]|]). constructor.
Qed.
End Demo.

Lemma client_session_safe_witness : exists ended s, client_run Demo.layer Demo.events (client_connect Demo.peer [] [] Demo.empty) = Ret ended s /\
  if ended : bool then cs_files s = [] /\ cs_live s = [] /\ cs_open s = [] /\ tr_active (cs_tr s) = false else files_ok [] s /\ tr_ok (cs_tr s) /\ cs_uuid s = Demo.peer.
Proof. apply client_session_safe; [exact Demo.layer_blocks|exact Demo.events_ok]. Defined.

Lemma client_confined_witness :
  client_run (with_paths Demo.layer Demo.open_own Demo.delete_own) Demo.events (client_connect Demo.peer [] [] Demo.empty) = client_run Demo.layer Demo.events (client_connect Demo.peer [] [] Demo.empty) /\
  (forall u' p, uuid_ok Demo.peer -> uuid_ok u' -> Demo.peer <> u' -> in_dir Demo.peer p -> ~ in_dir u' p).
Proof. apply client_confined; [exact Demo.layer_blocks|exact Demo.events_ok|exact Demo.own_agree]. Defined.

(** A write across the end of the file and of two blocks, which ends its transaction. *)
Lemma client_write_read_witness :
  exists rc' s2 result out, client_handle_msg Demo.layer (read_msg 4 0 5 0 9) Demo.overwritten = Ret rc' s2 /\ cs_sent s2 = answer STORAGE_FILE_READ 4 result out :: cs_sent Demo.overwritten /\
    ((result = STORAGE_NO_ERROR /\ out = take 9 Demo.data) \/ (result = STORAGE_ERR_GENERIC /\ out = [] /\ ~ reads_all Demo.layer 1)).
Proof.
  apply (client_write_read Demo.layer 1 (Demo.raw 1) (Demo.after (write_msg 2 0 0 0 Demo.data) Demo.opened) 3 1 4 0 5 0 Demo.data 9 0 Demo.overwritten).
  - exact Demo.layer_blocks.
  - exact (Demo.layer_keeps 1).
  - split.
    + vm_compute. constructor; [set_solver|constructor].
    + vm_compute. done.
    + change (cs_open (Demo.after (write_msg 2 0 0 0 Demo.data) Demo.opened)) with [1]. vm_compute. set_solver.
    + vm_compute. set_solver.
    + vm_compute. done.
  - done.
  - done.
  - reflexivity.
  - done.
  - done.
  - done.
  - done.
  - done.
  - done.
  - apply Demo.after_run. vm_compute. reflexivity.
  - vm_compute. reflexivity.
Defined.
