(* ===== verification/BlockSet.v ===== *)
(** * Sets of blocks (app/storage/block_set.c)

    The free and the allocated blocks of the file system are kept as sets of ranges: a
    B+ tree maps the start of a range to its end.  The tree (block_tree.c) is an
    interface, [block_tree], with the laws the sets rely on, [block_tree_laws]; a list
    is an instance.  Every access to the tree may find a block unreadable, which fails
    the transaction: [ts_answers] tells which.

    The sets refine finite sets of block numbers ([in_blocks]): the searches find the
    least block in or out of the set, adding and removing change just the given range,
    keep the ranges sorted, apart and not adjacent, and fail no assertion of the set or
    of the tree.  Blocks that the tree itself allocates while it changes (the set of a
    tree's own blocks) are not part of this model. *)

From stdpp Require Import base tactics list sets.
From Stdlib Require Import ZArith Lia Sorted.
From S2P Require Import Prelude Super.

(** ** The tree *)

(** A tree as its users see it: its entries in the order of the keys.  [bt_walk t k] are
    the entries from the one that a walk to [k] finds; [bt_broken] is what a change
    leaves behind that failed half way. *)
Class block_tree (T : Type) := {
  bt_empty : T;
  bt_valid : T -> bool;
  bt_entries : T -> list (Z * Z);
  bt_walk : T -> Z -> list (Z * Z);
  bt_insert : Z * Z -> T -> T;
  bt_update : Z * Z -> Z * Z -> T -> T;
  bt_remove : Z * Z -> T -> T;
  bt_broken : T -> T;
}.

(** [struct block_tree_path]: whether it has nodes, and the entries from its position. *)
Record path := Path { p_count : bool; p_rest : list (Z * Z) }.

(** Of [struct transaction]: whether it has failed; and which accesses succeed. *)
Record tstate := TS { ts_failed : bool; ts_answers : list bool }.
Definition set_failed (b : bool) (s : tstate) : tstate := TS b (ts_answers s).

Abbreviation B := (M tstate).

(** An access to the tree: whether it succeeds. *)
Definition access : B bool := fun s =>
  match ts_answers s with
  | [] => Ret true s
  | true :: l => Ret true (TS (ts_failed s) l)
  | false :: l => Ret false (TS true l)
  end.
Definition failed : B bool := gets ts_failed.

Definition block_tree_path_get_key (p : path) : Z := match p_rest p with (k, _) :: _ => if p_count p then k else 0 | [] => 0 end.
Definition block_tree_path_get_data (p : path) : Z := match p_rest p with (_, d) :: _ => d | [] => 0 end.

(** The assertions of block_tree.c and a step along the entries. *)
Definition block_tree_path_next (p : path) : B path :=
  assert_ (p_count p);;
  assert_ (negb (block_tree_path_get_key p =? 0));;
  ok ← access;
  mret (if ok : bool then Path true (tail (p_rest p)) else Path false []).

(** The keys next to an entry, as the update of a key checks them. *)
Definition fits (l : list (Z * Z)) (old : Z * Z) (new_key : Z) : bool :=
  forallb (fun e => if fst e <? fst old then fst e <=? new_key else if fst old <? fst e then new_key <=? fst e else true) l.

Section set.
Context {T : Type} {bt : block_tree T}.

Definition block_tree_walk (t : T) (key : Z) : B path :=
  if bt_valid t then
    ok ← access;
    mret (if ok : bool then Path true (bt_walk t key) else Path false [])
  else mret (Path false []).

Definition changed (t' t : T) : B T := ok ← access; mret (if ok : bool then t' else bt_broken t).

(** The assertions at the head of [block_tree_insert_block_mac] and a change of the
    entries; the same for the next two. *)
Definition block_tree_insert (t : T) (key data : Z) : B T :=
  f ← failed;
  assert_ (negb f);;
  assert_ (negb (key =? 0));;
  assert_ (negb (data =? 0));;
  changed (bt_insert (key, data) t) t.

(** The search for the entry asserts that there is one. *)
Definition block_tree_remove (t : T) (key data : Z) : B T :=
  f ← failed;
  assert_ (negb f);;
  assert_ (bt_valid t);;
  assert_ (negb (key =? 0));;
  assert_ (negb (data =? 0));;
  assert_ (bool_decide ((key, data) ∈ bt_entries t));;
  changed (bt_remove (key, data) t) t.

(** Either the key or the data changes, and the entry stays in its place. *)
Definition block_tree_update (t : T) (old_key old_data new_key new_data : Z) : B T :=
  f ← failed;
  assert_ (negb f);;
  assert_ (bt_valid t);;
  assert_ (negb (old_key =? 0));;
  assert_ (negb (old_data =? 0));;
  assert_ (negb (new_key =? 0));;
  assert_ (negb (new_data =? 0));;
  assert_ ((old_key =? new_key) || (old_data =? new_data));;
  assert_ (negb (old_key =? new_key) || negb (old_data =? new_data));;
  assert_ (bool_decide ((old_key, old_data) ∈ bt_entries t));;
  assert_ (fits (bt_entries t) (old_key, old_data) new_key);;
  changed (bt_update (old_key, old_data) (new_key, new_data) t) t.

(** ** Sets *)

(** [struct block_set] *)
Record block_set := BlockSet { bs_tree : T; bs_initial : block_range; bs_updating : bool }.
Definition bs_set_tree (t : T) (b : block_set) : block_set := BlockSet t (bs_initial b) (bs_updating b).
Definition bs_set_updating (u : bool) (b : block_set) : block_set := BlockSet (bs_tree b) (bs_initial b) u.

Definition block_range_init_from_path (p : path) : B block_range :=
  if negb (p_count p) then mret block_range_clear
  else
    let range := BlockRange (block_tree_path_get_key p) (block_tree_path_get_data p) in
    assert_ (Bool.eqb (br_end range =? 0) (br_start range =? 0));;
    mret range.

(** Whether it could be extended, and the range then. *)
Definition block_range_extend (range add_range : block_range) : B (bool * block_range) :=
  e ← block_range_empty add_range;
  assert_ (negb e);;
  o ← block_range_overlap range add_range;
  assert_ (negb o);;
  e ← block_range_empty range;
  if e : bool then mret (false, range)
  else if br_end add_range =? br_start range then mret (true, BlockRange (br_start add_range) (br_end range))
  else if br_start add_range =? br_end range then mret (true, BlockRange (br_start range) (br_end add_range))
  else mret (false, range).

Definition block_range_shrink (range remove_range : block_range) : B (bool * block_range) :=
  x ← block_range_is_sub_range range remove_range;
  assert_ x;;
  if br_start remove_range =? br_start range then
    e ← block_range_empty range;
    assert_ (negb e);;
    mret (true, BlockRange (br_end remove_range) (br_end range))
  else if br_end remove_range =? br_end range then
    e ← block_range_empty range;
    assert_ (negb e);;
    mret (true, BlockRange (br_start range) (br_start remove_range))
  else mret (false, range).

(** The walk over the entries; the path gets shorter with every step. *)
Fixpoint check_loop (fuel : nat) (max min : Z) (p : path) (range : block_range) : B bool :=
  match fuel with
  | O => raise OutOfFuel
  | S fuel' =>
      e ← block_range_empty range;
      if e : bool then mret true
      else if br_start range <? min then mret false
      else if br_end range <=? br_start range then mret false
      else if br_end range >? max then mret false
      else
        p' ← block_tree_path_next p;
        range' ← block_range_init_from_path p';
        check_loop fuel' max (u64 (br_end range + 1)) p' range'
  end.

Definition block_set_check_ranges (min max : Z) (set : block_set) : B bool :=
  p ← block_tree_walk (bs_tree set) 0;
  range ← block_range_init_from_path p;
  check_loop (S (length (p_rest p))) max min p range.

Definition block_set_find_next_block (set : block_set) (min_block : Z) (in_set : bool) : B Z :=
  p ← block_tree_walk (bs_tree set) min_block;
  range ← block_range_init_from_path p;
  e ← block_range_empty range;
  range ← (if negb e && (br_end range <=? min_block) then p' ← block_tree_path_next p; block_range_init_from_path p' else mret range : B block_range);
  e ← block_range_empty range;
  let range := if e : bool then if br_end (bs_initial set) <=? min_block then block_range_clear else bs_initial set else range in
  e ← block_range_empty range;
  assert_ (negb e || (br_start range =? 0));;
  x ← block_in_range range min_block;
  if Bool.eqb x in_set then mret min_block
  else if negb in_set then e ← block_range_empty range; assert_ (negb e);; mret (br_end range)
  else mret (br_start range).

Definition block_set_find_next_range (set : block_set) (min_block : Z) : B block_range :=
  start ← block_set_find_next_block set min_block true;
  if negb (start =? 0) then end_ ← block_set_find_next_block set start false; mret (BlockRange start end_)
  else mret (BlockRange start 0).

Definition block_set_block_in_set (set : block_set) (block : Z) : B bool :=
  b ← block_set_find_next_block set block true; mret (b =? block).

Definition block_set_range_in_set (set : block_set) (range : block_range) : B bool :=
  b ← block_set_find_next_block set (br_start range) true;
  if negb (b =? br_start range) then mret false
  else b' ← block_set_find_next_block set (br_start range) false; mret (b' >=? br_end range).

Definition block_set_range_not_in_set (set : block_set) (range : block_range) : B bool :=
  block ← block_set_find_next_block set (br_start range) true;
  mret ((block =? 0) || (block >=? br_end range)).

Fixpoint overlap_loop (fuel : nat) (set_a set_b : block_set) (range_b : block_range) : B bool :=
  match fuel with
  | O => raise OutOfFuel
  | S fuel' =>
      range_a ← block_set_find_next_range set_a (br_start range_b);
      e ← block_range_empty range_a;
      if e : bool then mret false
      else
        x ← block_in_range range_b (br_start range_a);
        if x : bool then mret true
        else
          assert_ (br_start range_a >=? br_start range_b);;
          range_b' ← block_set_find_next_range set_b (br_start range_a);
          e ← block_range_empty range_b';
          if e : bool then mret false
          else
            x ← block_in_range range_a (br_start range_b');
            if x : bool then mret true
            else
              assert_ (br_start range_b' >? br_start range_a);;
              overlap_loop fuel' set_a set_b range_b'
  end.

(** Every round moves past a range of [set_b]. *)
Definition block_set_overlap (set_a set_b : block_set) : B bool :=
  overlap_loop (2 + length (bt_entries (bs_tree set_b))) set_a set_b (BlockRange 0 0).

(** The entry at [p] becomes [new_tree_range], and takes in the entry that follows when
    the two are adjacent.  The result of this and of the next two: whether it was done,
    and the tree then. *)
Definition extend_entry (t : T) (p : path) (tree_range new_tree_range : block_range) : B (bool * T) :=
  p ← block_tree_path_next p;
  f ← failed;
  if f : bool then mret (false, t)
  else
    let merge := block_tree_path_get_key p =? br_end new_tree_range in
    when merge (assert_ (block_tree_path_get_data p >? br_end new_tree_range));;
    let new_tree_range := if merge then BlockRange (br_start new_tree_range) (block_tree_path_get_data p) else new_tree_range in
    t' ← block_tree_update t (br_start tree_range) (br_end tree_range) (br_start new_tree_range) (br_end new_tree_range);
    f ← failed;
    if f : bool then mret (false, t')
    else if merge then
      t'' ← block_tree_remove t' (block_tree_path_get_key p) (block_tree_path_get_data p);
      f ← failed;
      mret (negb f, t'')
    else mret (true, t').

Definition add_at (t : T) (range : block_range) (extend_left : bool) (p : path) (tree_range : block_range) : B (bool * T) :=
  f ← failed;
  if f : bool then mret (false, t)
  else
    o ← (if br_end tree_range =? 0 then mret false else block_range_overlap tree_range range : B bool);
    assert_ (negb o);;
    '(extended, new_tree_range) ← block_range_extend tree_range range;
    if negb extended then
      assert_ (negb extend_left);;
      t' ← block_tree_insert t (br_start range) (br_end range);
      f ← failed;
      mret (negb f, t')
    else extend_entry t p tree_range new_tree_range.

Definition add_to_tree (t : T) (range : block_range) : B (bool * T) :=
  p ← block_tree_walk t (u64 (br_start range - 1));
  tree_range ← block_range_init_from_path p;
  e ← block_range_empty tree_range;
  if negb e && (br_end tree_range <? br_start range) then
    p' ← block_tree_path_next p;
    tree_range' ← block_range_init_from_path p';
    if br_start tree_range' =? br_end range then add_at t range true p' tree_range'
    else
      p'' ← block_tree_walk t (u64 (br_start range - 1));
      tree_range'' ← block_range_init_from_path p'';
      add_at t range false p'' tree_range''
  else add_at t range false p tree_range.

(** The set, which stays marked when the transaction fails on the way. *)
Definition block_set_add_range (set : block_set) (range : block_range) : B block_set :=
  e ← block_range_empty range;
  assert_ (negb e);;
  e ← block_range_empty (bs_initial set);
  assert_ e;;
  f ← failed;
  if f : bool then mret set
  else
    assert_ (negb (bs_updating set));;
    x ← block_set_range_not_in_set set range;
    assert_ x;;
    '(done, t) ← add_to_tree (bs_tree set) range;
    mret (BlockSet t (bs_initial set) (negb done)).

Definition remove_from_tree (t : T) (range : block_range) : B (bool * T) :=
  p ← block_tree_walk t (br_start range);
  tree_range ← block_range_init_from_path p;
  f ← failed;
  if f : bool then mret (false, t)
  else
    assert_ (p_count p);;
    x ← block_range_is_sub_range tree_range range;
    assert_ x;;
    '(shrunk, new_tree_range) ← block_range_shrink tree_range range;
    t1 ← (if shrunk : bool then mret t else block_tree_insert t (br_end range) (br_end tree_range) : B T);
    f ← failed;
    if f : bool then mret (false, t1)
    else
      let new_tree_range := if shrunk : bool then new_tree_range else BlockRange (br_start new_tree_range) (br_start range) in
      e ← block_range_empty new_tree_range;
      t2 ← (if e : bool then block_tree_remove t1 (br_start tree_range) (br_end tree_range)
            else block_tree_update t1 (br_start tree_range) (br_end tree_range) (br_start new_tree_range) (br_end new_tree_range));
      f ← failed;
      mret (negb f, t2).

Definition block_set_remove_range (set : block_set) (range : block_range) : B block_set :=
  e ← block_range_empty range;
  assert_ (negb e);;
  e ← block_range_empty (bs_initial set);
  assert_ e;;
  f ← failed;
  if f : bool then mret set
  else
    x ← block_set_range_in_set set range;
    f ← failed;
    assert_ (x || f);;
    assert_ (negb (bs_updating set));;
    '(done, t) ← remove_from_tree (bs_tree set) range;
    mret (BlockSet t (bs_initial set) (negb done)).

Definition block_set_add_block (set : block_set) (block : Z) : B block_set := block_set_add_range set (block_range_init_single block).
Definition block_set_remove_block (set : block_set) (block : Z) : B block_set := block_set_remove_range set (block_range_init_single block).

Definition block_set_init : block_set := BlockSet bt_empty block_range_clear false.

Definition block_set_add_initial_range (set : block_set) (range : block_range) : B block_set :=
  e ← block_range_empty (bs_initial set);
  assert_ e;;
  mret (BlockSet (bs_tree set) range (bs_updating set)).

(** [src] is a copy-on-write set that is not written to, so that the tree is shared. *)
Definition block_set_copy (src : block_set) : B block_set :=
  let dest := BlockSet (bs_tree src) block_range_clear false in
  if negb (bt_valid (bs_tree dest)) then
    e ← block_range_empty (bs_initial src);
    assert_ (negb e);;
    block_set_add_range dest (bs_initial src)
  else
    e ← block_range_empty (bs_initial src);
    assert_ e;;
    mret dest.
End set.
Arguments block_set T : clear implicits.

(** ** The laws of the tree *)

(** A walk to [k] finds the last entry with a key up to [k], or else the first one. *)
Fixpoint walk_from (k : Z) (l : list (Z * Z)) : list (Z * Z) :=
  match l with
  | [] => []
  | _ :: l' => match l' with (k2, _) :: _ => if k2 <=? k then walk_from k l' else l | [] => l end
  end.

Fixpoint insert_entry (e : Z * Z) (l : list (Z * Z)) : list (Z * Z) :=
  match l with
  | [] => [e]
  | x :: l' => if fst x <? fst e then x :: insert_entry e l' else e :: l
  end.

Definition keys_sorted (l : list (Z * Z)) : Prop := StronglySorted (fun a b => fst a < fst b) l.

Class block_tree_laws (T : Type) {bt : block_tree T} : Prop := {
  bl_empty : bt_entries bt_empty = [] /\ bt_valid bt_empty = false;
  bl_valid : forall t, bt_valid t = false -> bt_entries t = [];
  bl_walk : forall t k, keys_sorted (bt_entries t) -> bt_walk t k = walk_from k (bt_entries t);
  bl_insert : forall t e, keys_sorted (bt_entries t) -> fst e ∉ (bt_entries t).*1 -> bt_entries (bt_insert e t) = insert_entry e (bt_entries t) /\ bt_valid (bt_insert e t) = true;
  bl_update : forall t l1 e e' l2, bt_entries t = l1 ++ e :: l2 -> keys_sorted (l1 ++ e :: l2) -> keys_sorted (l1 ++ e' :: l2) -> bt_entries (bt_update e e' t) = l1 ++ e' :: l2 /\ bt_valid (bt_update e e' t) = true;
  bl_remove : forall t l1 e l2, bt_entries t = l1 ++ e :: l2 -> keys_sorted (l1 ++ e :: l2) -> bt_entries (bt_remove e t) = l1 ++ l2 /\ bt_valid (bt_remove e t) = true;
}.

(** ** Ranges *)

(** Sorted, not empty, apart and not adjacent, within [[min, max)]: what
    [block_set_check_ranges] looks for. *)
Fixpoint ranges_ok (min max : Z) (l : list (Z * Z)) : Prop :=
  match l with
  | [] => True
  | (s, e) :: l' => min <= s /\ s < e <= max /\ ranges_ok (e + 1) max l'
  end.

Definition in_entries (l : list (Z * Z)) (b : Z) : Prop := exists s e, (s, e) ∈ l /\ s <= b < e.

Lemma in_entries_nil b : ~ in_entries [] b.
Proof. intros (s & e & H & _). by apply elem_of_nil in H. Qed.
Lemma in_entries_cons s e l b : in_entries ((s, e) :: l) b <-> s <= b < e \/ in_entries l b.
Proof.
  split.
  - intros (s' & e' & H & Hb). apply elem_of_cons in H as [[= -> ->]|H]; [by left|right; by exists s', e'].
  - intros [H|(s' & e' & H & Hb)]; [exists s, e|exists s', e']; split; try done; apply elem_of_cons; [by left|by right].
Qed.
Lemma in_entries_app l1 l2 b : in_entries (l1 ++ l2) b <-> in_entries l1 b \/ in_entries l2 b.
Proof.
  split.
  - intros (s & e & H & Hb). apply elem_of_app in H as [H|H]; [left|right]; by exists s, e.
  - intros [(s & e & H & Hb)|(s & e & H & Hb)]; exists s, e; split; try done; apply elem_of_app; [by left|by right].
Qed.

(** The least start of a range that follows. *)
Fixpoint last_end (min : Z) (l : list (Z * Z)) : Z :=
  match l with
  | [] => min
  | (_, e) :: l' => last_end (e + 1) l'
  end.

Lemma last_end_app min l1 l2 : last_end min (l1 ++ l2) = last_end (last_end min l1) l2.
Proof. revert min. induction l1 as [|[s e] l1 IH]; intros min; [done|]. apply IH. Qed.

Lemma ranges_ok_app min max l1 l2 : ranges_ok min max (l1 ++ l2) <-> ranges_ok min max l1 /\ ranges_ok (last_end min l1) max l2.
Proof. revert min. induction l1 as [|[s e] l1 IH]; intros min; cbn; [tauto|]. rewrite IH. tauto. Qed.

Lemma ranges_ok_mono min min' max l : ranges_ok min max l -> min' <= min -> ranges_ok min' max l.
Proof. destruct l as [|[s e] l]; cbn; [done|]. intros (H1 & H2) Hm. split; [lia|done]. Qed.

Lemma ranges_ok_bounds min max l b : ranges_ok min max l -> in_entries l b -> min <= b < max /\ b < last_end min l - 1.
Proof.
  revert min. induction l as [|[s e] l IH]; intros min; cbn; [by intros _ ?%in_entries_nil|]. intros (H1 & H2 & H3) Hb.
  assert (forall l m, ranges_ok m max l -> m <= last_end m l) as Hle.
  { clear. induction l as [|[s e] l IH]; intros m; cbn; [lia|]. intros (? & ? & Hl). apply IH in Hl. lia. }
  pose proof (Hle _ _ H3). apply in_entries_cons in Hb as [Hb|Hb]; [lia|]. destruct (IH (e + 1) H3 Hb). lia.
Qed.

Lemma ranges_sorted min max l : ranges_ok min max l -> keys_sorted l.
Proof.
  revert min. induction l as [|[s e] l IH]; intros min; cbn; [constructor|]. intros (H1 & H2 & H3). constructor; [by eapply IH|].
  clear IH. assert (forall m, s < m -> ranges_ok m max l -> Forall (fun b => s < fst b) l) as H; [|by apply (H (e + 1)); [lia|]].
  clear. induction l as [|[s' e'] l IH]; intros m Hm; cbn; [constructor|]. intros (H1 & H2 & H3). constructor; [cbn; lia|]. apply (IH (e' + 1)); [lia|done].
Qed.

(** The entries up to a key and those after it. *)
Lemma split_at k l : keys_sorted l -> exists l1 l2, l = l1 ++ l2 /\ Forall (fun e => fst e <= k) l1 /\ Forall (fun e => k < fst e) l2.
Proof.
  induction 1 as [|[s e] l Hs IH Hf]; [by exists [], []|]. destruct IH as (l1 & l2 & -> & H1 & H2). destruct (Z.le_gt_cases s k).
  - exists ((s, e) :: l1), l2. split; [done|]. split; [by constructor|done].
  - exists [], ((s, e) :: l1 ++ l2). split; [done|]. split; [constructor|]. constructor; [done|]. eapply Forall_impl; [exact Hf|]. cbn. lia.
Qed.

Lemma walk_from_first k l : Forall (fun e => k < fst e) l -> walk_from k l = l.
Proof. intros H. destruct l as [|e [|[s2 e2] l]]; [done|done|]. cbn. inversion H as [|? ? _ H2]. inversion H2. subst. cbn in *. destruct (Z.leb_spec s2 k); [lia|done]. Qed.

Lemma walk_from_last k l1 e l2 : Forall (fun e => fst e <= k) (l1 ++ [e]) -> Forall (fun e => k < fst e) l2 -> walk_from k (l1 ++ e :: l2) = e :: l2.
Proof.
  intros H1 H2. induction l1 as [|x l1 IH]; cbn [app].
  - destruct l2 as [|[s2 e2] l2]; [done|]. cbn. inversion H2. subst. cbn in *. destruct (Z.leb_spec s2 k); [lia|done].
  - cbn in H1. inversion H1 as [|? ? Hx H1']. subst. cbn [walk_from]. rewrite <- (IH H1') at 2. destruct (l1 ++ e :: l2) as [|[s2 e2] l'] eqn:E; [by destruct l1|].
    destruct (Z.leb_spec s2 k); [done|]. destruct l1 as [|[s3 e3] l1]; cbn in E; injection E as E1 E2; [rewrite E1 in H1'; inversion H1'|inversion H1' as [|? ? Hy]; subst; cbn in Hy]; subst; cbn in *; lia.
Qed.

(** ** Searches *)

Lemma wp_access (Q : bool -> tstate -> Prop) s : (forall s', ts_failed s' = ts_failed s -> Q true s') -> (forall s', ts_failed s' = true -> Q false s') -> wp access Q s.
Proof. intros Ht Hf. unfold wp, access. destruct (ts_answers s) as [|[] l]; [by apply Ht|by apply Ht|by apply Hf]. Qed.
Lemma wp_failed (Q : bool -> tstate -> Prop) s : Q (ts_failed s) s -> wp failed Q s.
Proof. apply wp_gets. Qed.
Lemma wp_empty {S} r (Q : bool -> S -> Prop) s : br_start r <= br_end r -> Q (br_start r =? br_end r) s -> wp (block_range_empty r) Q s.
Proof. intros H HQ. unfold block_range_empty. apply wp_bind, wp_assert; [apply Z.geb_le; lia|]. by apply wp_ret. Qed.
Lemma wp_in_range {S} r b (Q : bool -> S -> Prop) s : br_start r <= br_end r -> Q ((b >=? br_start r) && (b <? br_end r)) s -> wp (block_in_range r b) Q s.
Proof. intros H HQ. unfold block_in_range. apply wp_bind, wp_assert; [apply Z.geb_le; lia|]. by apply wp_ret. Qed.

(** The range of an entry; none, and none at the end of a path. *)
Definition entry_range (l : list (Z * Z)) : block_range := match l with (s, e) :: _ => BlockRange s e | [] => block_range_clear end.

Lemma wp_from_path p (Q : block_range -> tstate -> Prop) s : (p_count p = false -> p_rest p = []) -> (forall a b l, p_rest p = (a, b) :: l -> 0 < a /\ 0 < b) ->
  Q (entry_range (p_rest p)) s -> wp (block_range_init_from_path p) Q s.
Proof.
  intros Hc Hp HQ. unfold block_range_init_from_path, block_tree_path_get_key, block_tree_path_get_data. destruct (p_count p); cbn [negb]; [|rewrite Hc in HQ by done; by apply wp_ret].
  destruct (p_rest p) as [|[a b] l] eqn:E; [apply wp_bind, wp_assert; [done|by apply wp_ret]|]. destruct (Hp _ _ _ eq_refl). cbn [br_start br_end]. apply wp_bind, wp_assert; [|by apply wp_ret].
  destruct (Z.eqb_spec a 0), (Z.eqb_spec b 0); lia || done.
Qed.

Section search.
Context {T : Type} {bt : block_tree T} {laws : block_tree_laws T}.
Implicit Types (set : block_set T) (t : T).

(** The ranges of a set: those of its tree, or of a new file system the initial one. *)
Definition set_ranges set : list (Z * Z) :=
  bt_entries (bs_tree set) ++ (if br_start (bs_initial set) =? br_end (bs_initial set) then [] else [(br_start (bs_initial set), br_end (bs_initial set))]).
Definition in_blocks set (b : Z) : Prop := in_entries (set_ranges set) b.

Record set_ok (min max : Z) set : Prop := {
  so_min : 1 <= min;
  so_max : max < 2 ^ 64;
  so_ranges : ranges_ok min max (bt_entries (bs_tree set));
  so_initial : bs_initial set = block_range_clear \/
    (bt_entries (bs_tree set) = [] /\ min <= br_start (bs_initial set) < br_end (bs_initial set) /\ br_end (bs_initial set) <= max);
}.

(** The entries of a path into a good tree. *)
Lemma suffix_entries min max l1 l2 a b l : 1 <= min -> ranges_ok min max (l1 ++ l2) -> l2 = (a, b) :: l -> 0 < a < b.
Proof.
  intros Hm Hr ->. assert (in_entries (l1 ++ (a, b) :: l) a \/ b <= a) as [H|H].
  { destruct (Z.le_gt_cases b a); [by right|left]. apply in_entries_app. right. apply in_entries_cons. left. lia. }
  - apply ranges_ok_bounds with (min := min) (max := max) in H; [|done]. apply ranges_ok_app in Hr as [_ Hr]. cbn in Hr. lia.
  - apply ranges_ok_app in Hr as [_ Hr]. cbn in Hr. lia.
Qed.

(** A walk: a position among the entries, or a failed transaction. *)
Lemma walk_wp min max t k (Q : path -> tstate -> Prop) s : 1 <= min -> ranges_ok min max (bt_entries t) ->
  (forall s', ts_failed s' = ts_failed s -> Q (Path (bt_valid t) (walk_from k (bt_entries t))) s') -> (forall s', ts_failed s' = true -> Q (Path false []) s') -> wp (block_tree_walk t k) Q s.
Proof.
  intros Hm Hr Hok Hf. unfold block_tree_walk. destruct (bt_valid t) eqn:Ev.
  - apply wp_bind, wp_access; intros s' Hs; apply wp_ret; [|by apply Hf]. rewrite bl_walk by (by eapply ranges_sorted). by apply Hok.
  - apply wp_ret. rewrite (bl_valid t Ev) in Hok. by apply Hok.
Qed.

Lemma valid_entries t : bt_entries t <> [] -> bt_valid t = true.
Proof. intros H. destruct (bt_valid t) eqn:E; [done|]. by apply bl_valid in E. Qed.

Lemma next_wp e l (Q : path -> tstate -> Prop) s : fst e <> 0 -> (forall s', ts_failed s' = ts_failed s -> Q (Path true l) s') -> (forall s', ts_failed s' = true -> Q (Path false []) s') ->
  wp (block_tree_path_next (Path true (e :: l))) Q s.
Proof.
  intros He Hok Hf. unfold block_tree_path_next. destruct e as [a b]. apply wp_bind, wp_assert; [done|]. apply wp_bind, wp_assert; [by apply negb_true_iff, Z.eqb_neq|].
  apply wp_bind, wp_access; intros s' Hs; apply wp_ret; [by apply Hok|by apply Hf].
Qed.

(** What the search looks at in the end: the range that [m] is in or that follows it. *)
Definition picked (l : list (Z * Z)) (m : Z) (r : block_range) : Prop :=
  (r = block_range_clear /\ forall b, m <= b -> ~ in_entries l b) \/
  (0 < br_start r < br_end r /\ m < br_end r /\ (forall b, br_start r <= b < br_end r -> in_entries l b) /\ (forall b, m <= b < br_start r -> ~ in_entries l b) /\ ~ in_entries l (br_end r)).

(** The first block of the set from [m] on, 0 if there is none; and the first that is not
    in the set. *)
Definition next_in (X : Z -> Prop) (m r : Z) : Prop := (r = 0 /\ forall b, m <= b -> ~ X b) \/ (0 < r /\ m <= r /\ X r /\ forall b, m <= b < r -> ~ X b).
Definition next_out (X : Z -> Prop) (m r : Z) : Prop := m <= r /\ ~ X r /\ forall b, m <= b < r -> X b.
Definition next_block (in_set : bool) (X : Z -> Prop) (m r : Z) : Prop := if in_set then next_in X m r else next_out X m r.

#[export] Instance next_block_proper in_set : Proper (pointwise_relation Z iff ==> eq ==> eq ==> iff) (next_block in_set).
Proof.
  intros X Y HXY m _ <- r _ <-. destruct in_set; cbn; [unfold next_in|unfold next_out].
  - split; (intros [[? H]|(? & ? & ? & H)]; [left; split; [done|]; intros b Hb Hx; apply (H b Hb); by apply HXY|right; split; [done|]; split; [done|]; split; [by apply HXY|]; intros b Hb Hx; apply (H b Hb); by apply HXY]).
  - split; (intros (? & H1 & H2); split; [done|]; split; [intros Hx; apply H1; by apply HXY|intros b Hb; apply HXY; by apply H2]).
Qed.

Lemma picked_pos l min max m a b rest : 1 <= min -> ranges_ok min max l -> (exists pre, l = pre ++ (a, b) :: rest /\ forall x, in_entries pre x -> x < m) -> m < b ->
  picked l m (BlockRange a b).
Proof.
  intros Hm Hr (pre & -> & Hpre) Hb. right. pose proof (suffix_entries _ _ _ _ _ _ _ Hm Hr eq_refl) as Hab. cbn [br_start br_end]. split; [done|]. split; [done|].
  apply ranges_ok_app in Hr as [Hr1 Hr2]. cbn in Hr2. destruct Hr2 as (R1 & R2 & R3). split_and!.
  - intros x Hx. apply in_entries_app. right. apply in_entries_cons. by left.
  - intros x Hx H. apply in_entries_app in H as [H|H]; [apply Hpre in H; lia|]. apply in_entries_cons in H as [H|H]; [lia|]. apply ranges_ok_bounds with (min := b + 1) (max := max) in H; [lia|done].
  - intros H. apply in_entries_app in H as [H|H]; [apply Hpre in H; lia|]. apply in_entries_cons in H as [H|H]; [lia|]. apply ranges_ok_bounds with (min := b + 1) (max := max) in H; [lia|done].
Qed.

(** The end of the search, on the range it has found. *)
Definition find_tail (range : block_range) (min_block : Z) (in_set : bool) : B Z :=
  e ← block_range_empty range;
  assert_ (negb e || (br_start range =? 0));;
  x ← block_in_range range min_block;
  if Bool.eqb x in_set then mret min_block
  else if negb in_set then e ← block_range_empty range; assert_ (negb e);; mret (br_end range)
  else mret (br_start range).

Definition dflt (in_set : bool) (m : Z) : Z := if in_set then 0 else m.

Lemma tail_clear m in_set (Q : Z -> tstate -> Prop) s : 0 <= m -> Q (dflt in_set m) s -> wp (find_tail block_range_clear m in_set) Q s.
Proof.
  intros Hm HQ. unfold find_tail. apply wp_bind, wp_empty; [done|]. apply wp_bind, wp_assert; [done|]. apply wp_bind, wp_in_range; [done|]. cbn [br_start br_end block_range_clear].
  destruct (Z.ltb_spec m 0); [lia|]. rewrite andb_false_r. destruct in_set; by apply wp_ret.
Qed.

Lemma tail_picked l m range in_set (Q : Z -> tstate -> Prop) s : 0 <= m -> picked l m range -> (forall r, next_block in_set (in_entries l) m r -> Q r s) -> wp (find_tail range m in_set) Q s.
Proof.
  intros Hm [[-> Hno]|(H1 & H2 & H3 & H4 & H5)] HQ.
  - apply tail_clear; [done|]. apply HQ. destruct in_set; cbn; [by left|]. split; [lia|]. split; [apply Hno; lia|lia].
  - unfold find_tail. apply wp_bind, wp_empty; [lia|]. destruct (Z.eqb_spec (br_start range) (br_end range)); [lia|]. apply wp_bind, wp_assert; [done|]. apply wp_bind, wp_in_range; [lia|].
    rewrite Z.geb_leb. destruct (Z.ltb_spec m (br_end range)); [|lia]. rewrite andb_true_r. destruct (Z.leb_spec (br_start range) m), in_set; cbn [Bool.eqb negb].
    + apply wp_ret, HQ. right. split; [lia|]. split; [lia|]. split; [apply H3; lia|lia].
    + apply wp_bind, wp_empty; [lia|]. destruct (Z.eqb_spec (br_start range) (br_end range)); [lia|]. apply wp_bind, wp_assert; [done|]. apply wp_ret, HQ. split; [lia|]. split; [done|]. intros b Hb. apply H3. lia.
    + apply wp_ret, HQ. right. split; [lia|]. split; [lia|]. split; [apply H3; lia|done].
    + apply wp_ret, HQ. split; [lia|]. split; [apply H4; lia|lia].
Qed.

(** With no range left in the tree the initial one is looked at. *)
Definition or_initial set (m : Z) : block_range := if br_end (bs_initial set) <=? m then block_range_clear else bs_initial set.

Lemma picked_initial min max set m l1 : set_ok min max set -> bt_entries (bs_tree set) = l1 -> (forall x, in_entries l1 x -> x < m) -> picked (set_ranges set) m (or_initial set m).
Proof.
  intros [Hm Hx Hr Hi] <- Hpre. unfold or_initial, set_ranges. destruct Hi as [->|[E Hi]].
  - cbn. rewrite app_nil_r. left. split; [by case_match|]. intros b Hb H. apply Hpre in H. lia.
  - rewrite E. cbn [app]. destruct (Z.eqb_spec (br_start (bs_initial set)) (br_end (bs_initial set))); [lia|]. destruct (Z.leb_spec (br_end (bs_initial set)) m).
    + left. split; [done|]. intros b Hb Hin. apply in_entries_cons in Hin as [Hin|Hin%in_entries_nil]; [lia|done].
    + destruct (bs_initial set) as [a b] eqn:Eab. cbn in *. eapply (picked_pos [(a, b)] 1 b); [lia|cbn; lia|exists []; split; [done|]; intros x Hin; by apply in_entries_nil in Hin|lia].
Qed.

Lemma set_ranges_tree min max set : set_ok min max set -> bt_entries (bs_tree set) <> [] -> set_ranges set = bt_entries (bs_tree set).
Proof. intros [_ _ _ [E|[E _]]] Hne; [|done]. unfold set_ranges. rewrite E. apply app_nil_r. Qed.

(** The outcome of a search: right, or the transaction has failed on the way. *)
Definition found set (in_set : bool) (m : Z) s r s' : Prop :=
  (ts_failed s' = ts_failed s /\ next_block in_set (in_blocks set) m r) \/
  (ts_failed s' = true /\ (next_block in_set (in_blocks set) m r \/ (bs_initial set = block_range_clear /\ r = dflt in_set m))).

Lemma tail_lost min max set in_set m s s' : set_ok min max set -> 0 <= m -> ts_failed s' = true -> wp (find_tail (or_initial set m) m in_set) (found set in_set m s) s'.
Proof.
  intros Hok Hm Hf. destruct (so_initial _ _ _ Hok) as [E|[E Hi]].
  - assert (or_initial set m = block_range_clear) as -> by (unfold or_initial; rewrite E; by case_match). apply tail_clear; [done|]. right. split; [done|]. by right.
  - apply (tail_picked (set_ranges set)); [done| |].
    + eapply picked_initial; [done|exact E|]. intros x Hin. by apply in_entries_nil in Hin.
    + intros r Hr. right. split; [done|]. by left.
Qed.

Lemma find_wp min max set m in_set s : set_ok min max set -> 0 <= m -> wp (block_set_find_next_block set m in_set) (found set in_set m s) s.
Proof.
  intros Hok Hm. pose proof Hok as [Hmin Hmax Hr Hi].
  change (block_set_find_next_block set m in_set) with
    (p ← block_tree_walk (bs_tree set) m; range ← block_range_init_from_path p; e ← block_range_empty range;
     range ← (if negb e && (br_end range <=? m) then p' ← block_tree_path_next p; block_range_init_from_path p' else mret range : B block_range);
     e ← block_range_empty range; find_tail (if e : bool then or_initial set m else range) m in_set).
  apply wp_bind. eapply walk_wp; [done|done| |].
  2:{ intros s' Hs. apply wp_bind, wp_from_path; [done|done|]. apply wp_bind, wp_empty; [done|]. cbn. apply wp_bind, wp_ret. apply wp_bind, wp_empty; [done|]. cbn. by eapply tail_lost. }
  intros s1 Hs1. destruct (split_at m (bt_entries (bs_tree set)) (ranges_sorted _ _ _ Hr)) as (l1 & l2 & El & Hl1 & Hl2).
  assert (forall r, next_block in_set (in_blocks set) m r -> found set in_set m s r s1) as Hgood by (intros r H; left; by split).
  (* the range that follows, if [l2] is what is left *)
  assert (forall s2, ts_failed s2 = ts_failed s -> (forall x, in_entries l1 x -> x < m) ->
    wp (e ← block_range_empty (entry_range l2); find_tail (if e : bool then or_initial set m else entry_range l2) m in_set) (found set in_set m s) s2) as Hnext.
  { intros s2 Hs2 Hpre. destruct l2 as [|[a b] l2].
    - apply wp_bind, wp_empty; [done|]. cbn. eapply tail_picked; [done|eapply picked_initial; [done|exact El|rewrite app_nil_r; done]|]. intros r H. left. by split; [rewrite Hs2|].
    - rewrite El in Hr. pose proof (suffix_entries _ _ _ _ _ _ _ Hmin Hr eq_refl). apply wp_bind, wp_empty; [cbn; lia|]. cbn [entry_range br_start br_end]. destruct (Z.eqb_spec a b); [lia|].
      eapply tail_picked; [done| |intros r H'; left; by split; [rewrite Hs2|]]. erewrite set_ranges_tree, El; [|done|rewrite El; by destruct l1].
      eapply picked_pos; [done|done|by exists l1|]. inversion Hl2. subst. cbn in *. lia. }
  assert (p_count (Path (bt_valid (bs_tree set)) (walk_from m (bt_entries (bs_tree set)))) = false -> p_rest (Path (bt_valid (bs_tree set)) (walk_from m (bt_entries (bs_tree set)))) = []) as Hcnt.
  { cbn. intros Hv. by rewrite (bl_valid _ Hv). }
  destruct l1 as [|[a b] l1 _] using rev_ind.
  - cbn [app] in El. rewrite El in Hcnt, Hr |- *. rewrite walk_from_first in Hcnt |- * by done. apply wp_bind, wp_from_path; [done| |].
    + cbn. intros a b l E. pose proof (suffix_entries _ _ [] _ _ _ _ Hmin Hr E). lia.
    + cbn [p_rest]. assert (br_start (entry_range l2) <= br_end (entry_range l2) /\ (br_start (entry_range l2) <> br_end (entry_range l2) -> m < br_end (entry_range l2))) as [He1 He2].
      { destruct l2 as [|[a b] l2]; [done|]. pose proof (suffix_entries _ _ [] _ _ _ _ Hmin Hr eq_refl). inversion Hl2. subst. cbn in *. lia. }
      apply wp_bind, wp_empty; [done|]. assert (negb (br_start (entry_range l2) =? br_end (entry_range l2)) && (br_end (entry_range l2) <=? m) = false) as ->.
      { destruct (Z.eqb_spec (br_start (entry_range l2)) (br_end (entry_range l2))) as [|Hne]; [done|]. specialize (He2 Hne). apply Z.leb_gt. lia. }
      apply wp_bind, wp_ret. apply Hnext; [done|]. intros x Hin. by apply in_entries_nil in Hin.
  - rewrite <- app_assoc in El. cbn [app] in El. rewrite El in Hcnt, Hr |- *. rewrite walk_from_last in Hcnt |- * by done. pose proof (suffix_entries _ _ _ _ _ _ _ Hmin Hr eq_refl) as Hab.
    assert (bt_valid (bs_tree set) = true) as Hv by (apply valid_entries; rewrite El; by destruct l1). rewrite Hv. apply wp_bind, wp_from_path; [done| |].
    + cbn. intros ? ? ? [= <- <- _]. lia.
    + cbn [p_rest entry_range]. apply wp_bind, wp_empty; [cbn; lia|]. cbn [br_start br_end]. destruct (Z.eqb_spec a b); [lia|]. cbn [negb andb].
      assert (forall x, in_entries l1 x -> x < a) as Hl1a. { intros x Hin. apply ranges_ok_app in Hr as [Hr1 Hr2]. pose proof (ranges_ok_bounds _ _ _ _ Hr1 Hin). cbn in Hr2. lia. }
      destruct (Z.leb_spec b m) as [Hbm|Hbm].
      * apply wp_bind, wp_bind. apply next_wp; [cbn; lia| |].
        -- intros s2 Hs2. apply wp_from_path; [done| |].
           ++ cbn. intros a' b' l E. assert (ranges_ok min max ((l1 ++ [(a, b)]) ++ l2)) as Hr' by (by rewrite <- app_assoc). pose proof (suffix_entries _ _ _ _ _ _ _ Hmin Hr' E). lia.
           ++ cbn [p_rest]. apply Hnext; [congruence|]. intros x Hin. apply in_entries_app in Hin as [Hin%Hl1a|Hin]; [lia|]. apply in_entries_cons in Hin as [Hin|Hin%in_entries_nil]; [lia|done].
        -- intros s2 Hs2. apply wp_from_path; [done|done|]. apply wp_bind, wp_empty; [done|]. cbn. by eapply tail_lost.
      * apply wp_bind, wp_ret. apply wp_bind, wp_empty; [cbn; lia|]. cbn [br_start br_end]. destruct (Z.eqb_spec a b); [lia|]. eapply tail_picked; [done| |exact Hgood].
        erewrite set_ranges_tree, El; [|done|rewrite El; by destruct l1]. eapply picked_pos; [done|done| |done]. exists l1. split; [done|]. intros x Hin. apply Hl1a in Hin.
        apply Forall_app in Hl1 as [_ Hl1]. inversion Hl1. subst. cbn in *. lia.
Qed.
End search.

(** ** Changes *)

Section changes.
Context {T : Type} {bt : block_tree T} {laws : block_tree_laws T} (min max : Z) (Hmin : 1 <= min).
Implicit Types (set : block_set T) (t : T).

Lemma changed_wp t' t (Q : T -> tstate -> Prop) s : (forall s', ts_failed s' = ts_failed s -> Q t' s') -> (forall t'' s', ts_failed s' = true -> Q t'' s') -> wp (changed t' t) Q s.
Proof. intros H1 H2. unfold changed. apply wp_bind, wp_access; intros s' Hs; apply wp_ret; auto. Qed.

Lemma insert_wp t k d (Q : T -> tstate -> Prop) s : ts_failed s = false -> 0 < k -> 0 < d ->
  (forall s', ts_failed s' = false -> Q (bt_insert (k, d) t) s') -> (forall t' s', ts_failed s' = true -> Q t' s') -> wp (block_tree_insert t k d) Q s.
Proof.
  intros Hf Hk Hd H1 H2. unfold block_tree_insert. apply wp_bind, wp_failed. rewrite Hf. do 3 (apply wp_bind, wp_assert; [done || (apply negb_true_iff, Z.eqb_neq; lia)|]).
  apply changed_wp; [|done]. intros s' Hs. apply H1. congruence.
Qed.

Lemma remove_wp t l1 k d l2 (Q : T -> tstate -> Prop) s : bt_entries t = l1 ++ (k, d) :: l2 -> ts_failed s = false -> 0 < k -> 0 < d ->
  (forall s', ts_failed s' = false -> Q (bt_remove (k, d) t) s') -> (forall t' s', ts_failed s' = true -> Q t' s') -> wp (block_tree_remove t k d) Q s.
Proof.
  intros El Hf Hk Hd H1 H2. unfold block_tree_remove. apply wp_bind, wp_failed. rewrite Hf. apply wp_bind, wp_assert; [done|]. apply wp_bind, wp_assert; [apply valid_entries; rewrite El; by destruct l1|].
  do 2 (apply wp_bind, wp_assert; [apply negb_true_iff, Z.eqb_neq; lia|]). apply wp_bind, wp_assert; [apply bool_decide_true; rewrite El; apply elem_of_app; right; by left|].
  apply changed_wp; [|done]. intros s' Hs. apply H1. congruence.
Qed.

Lemma sorted_middle l1 (e : Z * Z) l2 : keys_sorted (l1 ++ e :: l2) -> Forall (fun x => fst x < fst e) l1 /\ Forall (fun x => fst e < fst x) l2.
Proof.
  induction l1 as [|x l1 IH]; cbn; intros H; apply StronglySorted_inv in H as [H1 H2]; [by split|]. destruct (IH H1) as [A B]. split; [|done]. constructor; [|done].
  rewrite Forall_forall in H2. apply H2, elem_of_app. right. by left.
Qed.

Lemma sorted_data l1 k d d' l2 : keys_sorted (l1 ++ (k, d) :: l2) -> keys_sorted (l1 ++ (k, d') :: l2).
Proof.
  induction l1 as [|x l1 IH]; cbn; intros H; apply StronglySorted_inv in H as [H1 H2]; constructor; auto; [by apply IH|]. apply Forall_app in H2 as [A B]. apply Forall_app. split; [done|].
  inversion B. subst. by constructor.
Qed.

Lemma fits_sorted l1 k d k' d' l2 : keys_sorted (l1 ++ (k, d) :: l2) -> keys_sorted (l1 ++ (k', d') :: l2) -> fits (l1 ++ (k, d) :: l2) (k, d) k' = true.
Proof.
  intros H H'. apply sorted_middle in H as [A B], H' as [A' B']. unfold fits. apply forallb_forall. intros x Hx. apply list_elem_of_In, elem_of_app in Hx. cbn [fst] in *. destruct Hx as [Hx|Hx].
  - rewrite Forall_forall in A, A'. specialize (A x Hx). specialize (A' x Hx). cbn in *. destruct (Z.ltb_spec (fst x) k); [|lia]. apply Z.leb_le. lia.
  - apply elem_of_cons in Hx as [->|Hx]; [by rewrite !Z.ltb_irrefl|]. rewrite Forall_forall in B, B'. specialize (B x Hx). specialize (B' x Hx). cbn in *. destruct (Z.ltb_spec (fst x) k); [lia|].
    destruct (Z.ltb_spec k (fst x)); [|lia]. apply Z.leb_le. lia.
Qed.

Lemma update_wp t l1 k d l2 k' d' (Q : T -> tstate -> Prop) s : bt_entries t = l1 ++ (k, d) :: l2 -> keys_sorted (l1 ++ (k, d) :: l2) -> keys_sorted (l1 ++ (k', d') :: l2) ->
  ts_failed s = false -> 0 < k -> 0 < d -> 0 < k' -> 0 < d' -> (k = k' /\ d <> d' \/ k <> k' /\ d = d') ->
  (forall s', ts_failed s' = false -> Q (bt_update (k, d) (k', d') t) s') -> (forall t' s', ts_failed s' = true -> Q t' s') -> wp (block_tree_update t k d k' d') Q s.
Proof.
  intros El Hs1 Hs2 Hf Hk Hd Hk' Hd' Hone H1 H2. unfold block_tree_update. apply wp_bind, wp_failed. rewrite Hf. apply wp_bind, wp_assert; [done|]. apply wp_bind, wp_assert; [apply valid_entries; rewrite El; by destruct l1|].
  do 4 (apply wp_bind, wp_assert; [apply negb_true_iff, Z.eqb_neq; lia|]). do 2 (apply wp_bind, wp_assert; [destruct (Z.eqb_spec k k'), (Z.eqb_spec d d'); done || lia|]).
  apply wp_bind, wp_assert; [apply bool_decide_true; rewrite El; apply elem_of_app; right; by left|]. apply wp_bind, wp_assert; [rewrite El; by eapply fits_sorted|].
  apply changed_wp; [|done]. intros s' Hs. apply H1. congruence.
Qed.

Lemma insert_entry_middle l1 e l2 : Forall (fun x => fst x < fst e) l1 -> Forall (fun x => fst e < fst x) l2 -> insert_entry e (l1 ++ l2) = l1 ++ e :: l2.
Proof.
  intros H1 H2. induction H1 as [|x l1 Hx H1 IH]; cbn.
  - destruct H2 as [|y l2 Hy H2]; [done|]. cbn. destruct (Z.ltb_spec (fst y) (fst e)); [lia|done].
  - destruct (Z.ltb_spec (fst x) (fst e)); [|lia]. by rewrite IH.
Qed.

Lemma bt_insert_middle t l1 e l2 : bt_entries t = l1 ++ l2 -> keys_sorted (l1 ++ l2) -> keys_sorted (l1 ++ e :: l2) -> bt_entries (bt_insert e t) = l1 ++ e :: l2 /\ bt_valid (bt_insert e t) = true.
Proof.
  intros El Hs Hs'. apply sorted_middle in Hs' as [A B]. destruct (bl_insert t e) as [-> ->]; [by rewrite El| |by rewrite El, insert_entry_middle].
  rewrite El. intros Hin. apply list_elem_of_fmap in Hin as (x & E & Hx). apply elem_of_app in Hx as [Hx|Hx]; rewrite Forall_forall in A, B; [specialize (A x Hx)|specialize (B x Hx)]; lia.
Qed.

(** The tree after a change of the blocks: done, or the transaction has failed. *)
Definition now (X : Z -> Prop) (r : bool * T) (s' : tstate) : Prop :=
  (r.1 = true /\ ts_failed s' = false /\ (ranges_ok min max (bt_entries r.2) /\ bt_valid r.2 = true) /\ forall x, in_entries (bt_entries r.2) x <-> X x) \/ (r.1 = false /\ ts_failed s' = true).

Lemma now_failed X t s : ts_failed s = true -> now X (false, t) s.
Proof. intros H. by right. Qed.
Lemma now_done X t s l : bt_entries t = l /\ bt_valid t = true -> ts_failed s = false -> ranges_ok min max l -> (forall x, in_entries l x <-> X x) -> now X (true, t) s.
Proof. intros [El Hv] Hf Hr HX. left. cbn. rewrite El. done. Qed.

Lemma insert_done t l1 l2 a b X s : bt_entries t = l1 ++ l2 -> ranges_ok min max (l1 ++ l2) -> ranges_ok min max (l1 ++ (a, b) :: l2) -> ts_failed s = false ->
  (forall x, in_entries (l1 ++ (a, b) :: l2) x <-> X x) -> wp (t' ← block_tree_insert t a b; f ← failed; mret (negb f, t')) (now X) s.
Proof.
  intros El Hr Hr' Hf HX. pose proof (suffix_entries _ _ _ _ _ _ _ Hmin Hr' eq_refl). apply wp_bind, insert_wp; [done|lia|lia| |].
  - intros s' Hs. apply wp_bind, wp_failed, wp_ret. rewrite Hs. eapply now_done; [|done|done|done]. apply bt_insert_middle; [done|by eapply ranges_sorted..].
  - intros t' s' Hs. apply wp_bind, wp_failed, wp_ret. rewrite Hs. by apply now_failed.
Qed.

(** A range that ends where the one that follows starts is joined with it. *)
Definition joined (a b : Z) (l2 : list (Z * Z)) : list (Z * Z) :=
  match l2 with
  | (a2, b2) :: l2' => if a2 =? b then (a, b2) :: l2' else (a, b) :: l2
  | [] => [(a, b)]
  end.

Lemma extend_wp t l1 a b l2 a' b' X s : bt_entries t = l1 ++ (a, b) :: l2 -> ranges_ok min max (l1 ++ (a, b) :: l2) -> ranges_ok min max (l1 ++ joined a' b' l2) -> ts_failed s = false ->
  (a' = a /\ b < b' \/ a' < a /\ b' = b) -> 0 < a' -> (forall x, in_entries (l1 ++ joined a' b' l2) x <-> X x) ->
  wp (extend_entry t (Path true ((a, b) :: l2)) (BlockRange a b) (BlockRange a' b')) (now X) s.
Proof.
  intros El Hr Hr' Hf Hone Ha' HX. pose proof (suffix_entries _ _ _ _ _ _ _ Hmin Hr eq_refl) as Hab. assert (ranges_ok (b + 1) max l2) as Hr2 by (apply ranges_ok_app in Hr as [_ Hr]; cbn in Hr; tauto).
  unfold extend_entry. apply wp_bind. apply next_wp; [cbn; lia| |].
  2:{ intros s1 Hs1. apply wp_bind, wp_failed. rewrite Hs1. apply wp_ret. by apply now_failed. }
  intros s1 Hs1. apply wp_bind, wp_failed. rewrite Hs1, Hf. unfold block_tree_path_get_key, block_tree_path_get_data. cbn [p_rest p_count br_start br_end].
  assert (forall k' d' lx, lx = l1 ++ (k', d') :: l2 -> keys_sorted lx -> ranges_ok min max (l1 ++ joined a' b' l2) -> (a = k' /\ b <> d' \/ a <> k' /\ b = d') -> 0 < k' -> 0 < d' ->
    (forall t' s', bt_entries t' = lx /\ bt_valid t' = true -> ts_failed s' = false -> wp (if match l2 with (k, _) :: _ => k | [] => 0 end =? b' then
        t'' ← block_tree_remove t' (match l2 with (k, _) :: _ => k | [] => 0 end) (match l2 with (_, d) :: _ => d | [] => 0 end); f ← failed; mret (negb f, t'') else mret (true, t')) (now X) s') ->
    wp (t' ← block_tree_update t a b k' d'; f ← failed; if f : bool then mret (false, t') else if match l2 with (k, _) :: _ => k | [] => 0 end =? b' then
        t'' ← block_tree_remove t' (match l2 with (k, _) :: _ => k | [] => 0 end) (match l2 with (_, d) :: _ => d | [] => 0 end); f ← failed; mret (negb f, t'') else mret (true, t')) (now X) s1) as Hup.
  { intros k' d' lx -> Hs _ Hone' Hk Hd Hk2. apply wp_bind. eapply update_wp; [exact El|by eapply ranges_sorted|exact Hs|congruence|lia|lia|done|done|done| |].
    - intros s2 Hs2. apply wp_bind, wp_failed. rewrite Hs2. apply Hk2; [|done]. eapply bl_update; [done|by eapply ranges_sorted|done].
    - intros t' s2 Hs2. apply wp_bind, wp_failed. rewrite Hs2. apply wp_ret. by apply now_failed. }
  destruct l2 as [|[a2 b2] l2]; cbn [joined] in *.
  - destruct (Z.eqb_spec 0 b') as [|_]; [lia|]. cbn [when]. apply wp_bind, wp_ret. cbn [br_start br_end]. eapply Hup; [done|by eapply ranges_sorted|done|lia|lia|lia|].
    intros t' s' Et Hs. apply wp_ret. by eapply now_done.
  - cbn in Hr2. destruct (Z.eqb_spec a2 b') as [Em|Em]; cbn [when].
    + apply wp_bind, wp_assert; [apply Z.gtb_lt; lia|]. cbn [br_start br_end]. assert (a' = a) as -> by lia.
      assert (keys_sorted (l1 ++ (a, b2) :: (a2, b2) :: l2)) as Hks by (eapply sorted_data; by eapply ranges_sorted).
      eapply Hup; [done|done|done|lia|lia|lia|]. intros t' s' Et Hs. apply wp_bind. eapply (remove_wp t' (l1 ++ [(a, b2)])); [rewrite <- app_assoc; apply Et|done|lia|lia| |].
      * intros s2 Hs2. apply wp_bind, wp_failed, wp_ret. rewrite Hs2. eapply now_done; [|done|exact Hr'|done].
        destruct Et as [Et _]. destruct (bl_remove t' (l1 ++ [(a, b2)]) (a2, b2) l2) as [-> ->]; [by rewrite <- app_assoc|by rewrite <- app_assoc|by rewrite <- app_assoc].
      * intros t'' s2 Hs2. apply wp_bind, wp_failed, wp_ret. rewrite Hs2. by apply now_failed.
    + apply wp_bind, wp_ret. cbn [br_start br_end]. eapply Hup; [done|by eapply ranges_sorted|done|lia|lia|lia|]. intros t' s' Et Hs. apply wp_ret. by eapply now_done.
Qed.

(** Adding *)

Context (Hmax : max < 2 ^ 64) (a0 b0 : Z) (Hab0 : min <= a0 /\ a0 < b0 <= max).

Lemma overlap_apart {S} a b (Q : bool -> S -> Prop) s : a < b -> b <= a0 \/ b0 <= a -> Q false s -> wp (block_range_overlap (BlockRange a b) (BlockRange a0 b0)) Q s.
Proof.
  intros Hab Hd HQ. unfold block_range_overlap. apply wp_bind, wp_in_range; [cbn; lia|]. cbn [br_start br_end]. rewrite Z.geb_leb.
  assert ((a <=? a0) && (a0 <? b) = false) as -> by (destruct (Z.leb_spec a a0), (Z.ltb_spec a0 b); done || lia). apply wp_in_range; [cbn; lia|]. cbn [br_start br_end]. rewrite Z.geb_leb.
  assert ((a0 <=? a) && (a <? b0) = false) as -> by (destruct (Z.leb_spec a0 a), (Z.ltb_spec a b0); done || lia). done.
Qed.

Lemma range_extend_wp a b (Q : bool * block_range -> tstate -> Prop) s : a < b -> b <= a0 \/ b0 <= a ->
  Q (if b0 =? a then (true, BlockRange a0 b) else if a0 =? b then (true, BlockRange a b0) else (false, BlockRange a b)) s -> wp (block_range_extend (BlockRange a b) (BlockRange a0 b0)) Q s.
Proof.
  intros Hab Hd HQ. unfold block_range_extend. apply wp_bind, wp_empty; [cbn; lia|]. cbn [br_start br_end]. destruct (Z.eqb_spec a0 b0); [lia|]. apply wp_bind, wp_assert; [done|].
  apply wp_bind, overlap_apart; [done|done|]. apply wp_bind, wp_assert; [done|]. apply wp_bind, wp_empty; [cbn; lia|]. cbn [br_start br_end]. destruct (Z.eqb_spec a b); [lia|].
  repeat case_match; by apply wp_ret.
Qed.

Definition plus (l : list (Z * Z)) (x : Z) : Prop := in_entries l x \/ a0 <= x < b0.

Lemma plus_middle l1 l2 x : in_entries (l1 ++ (a0, b0) :: l2) x <-> plus (l1 ++ l2) x.
Proof. unfold plus. rewrite !in_entries_app, in_entries_cons. tauto. Qed.

Lemma add_at_failed t el p r X s : ts_failed s = true -> wp (add_at t (BlockRange a0 b0) el p r) (now X) s.
Proof. intros Hf. unfold add_at. apply wp_bind, wp_failed. rewrite Hf. apply wp_ret. by apply now_failed. Qed.

(** Into an empty tree. *)
Lemma add_at_empty t p s : bt_entries t = [] -> wp (add_at t (BlockRange a0 b0) false p block_range_clear) (now (plus [])) s.
Proof.
  intros El. destruct (ts_failed s) eqn:Hf; [by apply add_at_failed|]. unfold add_at. apply wp_bind, wp_failed. rewrite Hf. cbn [br_end block_range_clear Z.eqb]. apply wp_bind, wp_ret. apply wp_bind, wp_assert; [done|]. apply wp_bind.
  unfold block_range_extend, block_range_overlap. apply wp_bind, wp_empty; [cbn; lia|]. cbn [br_start br_end]. destruct (Z.eqb_spec a0 b0); [lia|]. apply wp_bind, wp_assert; [done|].
  apply wp_bind, wp_bind, wp_in_range; [done|]. cbn [br_start br_end block_range_clear]. destruct (Z.ltb_spec a0 0); [lia|]. rewrite andb_false_r.
  apply wp_in_range; [cbn; lia|]. cbn [br_start br_end]. rewrite Z.geb_leb. destruct (Z.leb_spec a0 0); [lia|]. cbn [andb]. apply wp_bind, wp_assert; [done|]. apply wp_bind, wp_empty; [done|]. cbn. apply wp_ret.
  eapply (insert_done t [] []); [done|done|cbn; lia|done|]. intros x. apply (plus_middle [] []).
Qed.

(** Next to an entry. *)
Lemma add_at_wp t l1 a b l2 el s : bt_entries t = l1 ++ (a, b) :: l2 -> ranges_ok min max (l1 ++ (a, b) :: l2) ->
  (b = a0 /\ ranges_ok b0 max l2 /\ el = false) \/ (b < a0 /\ ranges_ok (b0 + 1) max l2 /\ el = false) \/ (b0 = a /\ last_end min l1 <= a0) \/ (b0 < a /\ l1 = [] /\ el = false) ->
  wp (add_at t (BlockRange a0 b0) el (Path true ((a, b) :: l2)) (BlockRange a b)) (now (plus (l1 ++ (a, b) :: l2))) s.
Proof.
  intros El Hr Hpos. destruct (ts_failed s) eqn:Hf; [by apply add_at_failed|]. pose proof (suffix_entries _ _ _ _ _ _ _ Hmin Hr eq_refl) as Hab. pose proof Hr as Hr0. apply ranges_ok_app in Hr0 as [R1 (R2 & R3 & R4)]. unfold add_at. apply wp_bind, wp_failed. rewrite Hf.
  assert (b <= a0 \/ b0 <= a) as Hd by lia. cbn [br_start br_end]. destruct (Z.eqb_spec b 0); [lia|]. apply wp_bind, overlap_apart; [lia|done|]. apply wp_bind, wp_assert; [done|]. apply wp_bind, range_extend_wp; [lia|done|].
  destruct (Z.eqb_spec b0 a) as [Ea|Ea]; cbn [negb].
  - destruct Hpos as [|[|[[_ Hl]|]]]; [lia|lia| |lia]. assert (joined a0 b l2 = (a0, b) :: l2) as Ej. { destruct l2 as [|[a2 b2] l2]; [done|]. cbn in R4 |- *. destruct (Z.eqb_spec a2 b); [lia|done]. }
    eapply extend_wp; [done|done| |done|lia|lia|]; rewrite Ej.
    + apply ranges_ok_app. cbn. split; [done|]. split; [lia|]. split; [lia|done].
    + intros x. unfold plus. rewrite !in_entries_app, !in_entries_cons. split; [intros [?|[?|?]]|intros [[?|[?|?]]|?]]; try tauto; [|right; left; lia|right; left; lia].
      destruct (Z.lt_ge_cases x a); [right; lia|]. left. right. left. lia.
  - destruct (Z.eqb_spec a0 b) as [Eb|Eb]; cbn [negb].
    + destruct Hpos as [(_ & Hl2 & _)|]; [|lia]. subst b. eapply extend_wp; [done|done| |done|lia|lia|].
      * apply ranges_ok_app. split; [done|]. destruct l2 as [|[a2 b2] l2]; [cbn; lia|]. cbn in *. destruct (Z.eqb_spec a2 b0); cbn; lia || (split; [lia|]; split; [lia|]; tauto || (split; [lia|]; tauto)).
      * intros x. unfold plus. rewrite !in_entries_app, !in_entries_cons. assert (in_entries (joined a b0 l2) x <-> a <= x < b0 \/ in_entries l2 x) as ->.
        { destruct l2 as [|[a2 b2] l2]; [cbn; by rewrite in_entries_cons|]. cbn in *. destruct (Z.eqb_spec a2 b0); rewrite !in_entries_cons; [|tauto]. split; [intros [?|?]|intros [?|[?|?]]]; try tauto; [|left; lia|left; lia].
          destruct (Z.lt_ge_cases x b0); [by left; lia|]. right. left. lia. }
        split; [intros [?|[?|?]]|intros [[?|[?|?]]|?]]; try tauto; [|right; left; lia|right; left; lia]. destruct (Z.lt_ge_cases x a0); [|right; lia]. left. right. left. lia.
    + destruct Hpos as [|[(Hb & Hl2 & ->)|[|(Hlt & -> & ->)]]]; [lia| |lia|]; (apply wp_bind, wp_assert; [done|]).
      * change (l1 ++ (a, b) :: l2) with (l1 ++ [(a, b)] ++ l2) in *. rewrite app_assoc in *. eapply insert_done; [done|done| |done|by intros x; apply plus_middle].
        apply ranges_ok_app. rewrite last_end_app. cbn. split; [apply ranges_ok_app; cbn; lia || done|]. split; [lia|]. split; [lia|done].
      * cbn [app] in *. eapply (insert_done t []); [done|done| |done|intros x; apply (plus_middle [])]. cbn. split_and!; try lia. done.
Qed.

Lemma path_entries {l1 l2 : list (Z * Z)} : ranges_ok min max (l1 ++ l2) -> forall a b l, l2 = (a, b) :: l -> 0 < a /\ 0 < b.
Proof. intros Hr a b l E. pose proof (suffix_entries _ _ _ _ _ _ _ Hmin Hr E). lia. Qed.

Lemma add_wp t s : ranges_ok min max (bt_entries t) -> (forall x, a0 <= x < b0 -> ~ in_entries (bt_entries t) x) ->
  wp (add_to_tree t (BlockRange a0 b0)) (now (plus (bt_entries t))) s.
Proof.
  intros Hr Hno. unfold add_to_tree. cbn [br_start br_end]. unfold u64. rewrite Z.mod_small by lia.
  assert (forall X s1, ts_failed s1 = true -> wp (tree_range ← block_range_init_from_path (Path false []); add_at t (BlockRange a0 b0) false (Path false []) tree_range) (now X) s1) as Hlost.
  { intros X s1 Hs1. apply wp_bind, wp_from_path; [done|done|]. by apply add_at_failed. }
  destruct (split_at (a0 - 1) (bt_entries t) (ranges_sorted _ _ _ Hr)) as (l1 & l2 & El & Hl1 & Hl2). rewrite El in Hr, Hno |- *.
  assert (ranges_ok b0 max l2) as Hr2.
  { apply ranges_ok_app in Hr as [_ Hr]. destruct l2 as [|[a2 b2] l2]; [done|]. cbn in Hr |- *. inversion Hl2. subst. cbn in *. split; [|tauto]. destruct (Z.le_gt_cases b0 a2); [done|].
    exfalso. apply (Hno a2); [lia|]. apply in_entries_app. right. apply in_entries_cons. left. lia. }
  apply wp_bind. eapply walk_wp; [exact Hmin|by rewrite El| |].
  2:{ intros s1 Hs1. apply wp_bind, wp_from_path; [done|done|]. apply wp_bind, wp_empty; [done|]. cbn. by apply add_at_failed. }
  intros s1 Hs1. rewrite El. destruct l1 as [|[a b] l1 _] using rev_ind.
  - cbn [app] in *. rewrite walk_from_first by done. destruct l2 as [|[a b] l2].
    + apply wp_bind, wp_from_path; [done|done|]. apply wp_bind, wp_empty; [done|]. cbn. by apply add_at_empty.
    + rewrite valid_entries by (by rewrite El). apply wp_bind, wp_from_path; [done|cbn; apply (path_entries (l1 := []) Hr)|]. cbn in Hr2. cbn [p_rest entry_range]. apply wp_bind, wp_empty; [cbn; lia|].
      cbn [br_start br_end]. destruct (Z.ltb_spec b a0); [lia|]. rewrite andb_false_r. apply (add_at_wp t []); [done|done|]. cbn [last_end]. destruct (Z.eq_dec b0 a); [right; right; left; lia|]. right. right. right. split; [lia|done].
  - rewrite <- app_assoc in *. cbn [app] in *. rewrite walk_from_last by done. rewrite valid_entries by (rewrite El; by destruct l1). pose proof (suffix_entries _ _ _ _ _ _ _ Hmin Hr eq_refl) as Hab.
    assert (b <= a0) as Hba. { destruct (Z.le_gt_cases b a0); [done|]. exfalso. apply (Hno a0); [lia|]. apply in_entries_app. right. apply in_entries_cons. left. apply Forall_app in Hl1 as [_ Hl1]. inversion Hl1. subst. cbn in *. lia. }
    apply wp_bind, wp_from_path; [done|cbn; apply (path_entries Hr)|]. cbn [p_rest entry_range]. apply wp_bind, wp_empty; [cbn; lia|]. cbn [br_start br_end]. destruct (Z.eqb_spec a b); [lia|]. cbn [negb andb].
    destruct (Z.ltb_spec b a0) as [Hlt|Hge]; [|apply add_at_wp; [done|done|left; split; [lia|done]]].
    apply wp_bind, next_wp; [cbn; lia| |].
    2:{ intros s2 Hs2. apply wp_bind, wp_from_path; [done|done|]. cbn [p_rest entry_range br_start block_range_clear]. destruct (Z.eqb_spec 0 b0); [lia|].
        apply wp_bind. eapply walk_wp; [exact Hmin|by rewrite El| |].
        - intros s3 Hs3. rewrite El, walk_from_last by done. rewrite valid_entries by (rewrite El; by destruct l1). apply wp_bind, wp_from_path; [done|cbn; apply (path_entries Hr)|]. apply add_at_failed. congruence.
        - intros s3 Hs3. by apply Hlost. }
    intros s2 Hs2. assert (ranges_ok min max ((l1 ++ [(a, b)]) ++ l2)) as Hr' by (by rewrite <- app_assoc). apply wp_bind, wp_from_path; [done|cbn; apply (path_entries Hr')|]. cbn [p_rest].
    destruct (Z.eqb_spec (br_start (entry_range l2)) b0) as [E2|E2].
    + destruct l2 as [|[a2 b2] l2]; [cbn in E2; lia|]. cbn [entry_range br_start] in *. change (l1 ++ (a, b) :: (a2, b2) :: l2) with (l1 ++ [(a, b)] ++ (a2, b2) :: l2) in *. rewrite app_assoc in *.
      apply add_at_wp; [done|done|]. right. right. left. split; [done|]. rewrite last_end_app. cbn. lia.
    + assert (ranges_ok (b0 + 1) max l2) as Hr3. { destruct l2 as [|[a2 b2] l2]; [done|]. cbn in Hr2, E2 |- *. split; [lia|]. tauto. }
      apply wp_bind. eapply walk_wp; [exact Hmin|by rewrite El| |]; intros s3 Hs3; [|by apply Hlost]. rewrite El, walk_from_last by done. rewrite valid_entries by (rewrite El; by destruct l1).
      apply wp_bind, wp_from_path; [done|cbn; apply (path_entries Hr)|]. apply add_at_wp; [done|done|]. right. left. done.
Qed.

(** Removing *)

Definition minus (l : list (Z * Z)) (x : Z) : Prop := in_entries l x /\ ~ (a0 <= x < b0).

(** The entry that the range is part of, at a walk to its start. *)
Lemma covering l : ranges_ok min max l -> (forall x, a0 <= x < b0 -> in_entries l x) ->
  exists l1 a b l2, l = l1 ++ (a, b) :: l2 /\ a <= a0 /\ b0 <= b /\ walk_from a0 l = (a, b) :: l2.
Proof.
  intros Hr Hall. destruct (split_at a0 l (ranges_sorted _ _ _ Hr)) as (l1 & l2 & -> & Hl1 & Hl2). pose proof (Hall a0 ltac:(lia)) as Hin.
  assert (~ in_entries l2 a0) as Hn2. { intros (s & e & He & Hb). rewrite Forall_forall in Hl2. specialize (Hl2 _ He). cbn in Hl2. lia. }
  apply in_entries_app in Hin as [Hin|Hin]; [|done]. destruct l1 as [|[a b] l1 _] using rev_ind; [by apply in_entries_nil in Hin|].
  rewrite <- app_assoc in Hr, Hall |- *. cbn [app] in *. exists l1, a, b, l2. split; [done|]. assert (a <= a0) as Ha by (apply Forall_app in Hl1 as [_ Hl1]; inversion Hl1; subst; cbn in *; lia). split; [done|].
  split; [|by apply walk_from_last]. apply ranges_ok_app in Hr as [R1 (R2 & R3 & R4)]. assert (a0 < b) as Hb.
  { apply in_entries_app in Hin as [Hin|Hin]; [pose proof (ranges_ok_bounds _ _ _ _ R1 Hin); lia|]. apply in_entries_cons in Hin as [Hin|Hin%in_entries_nil]; [lia|done]. }
  destruct (Z.le_gt_cases b0 b); [done|]. exfalso. specialize (Hall b ltac:(lia)). apply in_entries_app in Hall as [Hx|Hx]; [pose proof (ranges_ok_bounds _ _ _ _ R1 Hx); lia|].
  apply in_entries_cons in Hx as [Hx|Hx]; [lia|]. pose proof (ranges_ok_bounds _ _ _ _ R4 Hx). lia.
Qed.

Lemma sub_range_wp {S} a b (Q : bool -> S -> Prop) s : a <= a0 -> b0 <= b -> Q true s -> wp (block_range_is_sub_range (BlockRange a b) (BlockRange a0 b0)) Q s.
Proof.
  intros Ha Hb HQ. unfold block_range_is_sub_range. apply wp_bind, wp_empty; [cbn; lia|]. cbn [br_start br_end]. destruct (Z.eqb_spec a0 b0); [lia|]. apply wp_bind, wp_assert; [done|].
  apply wp_bind, wp_in_range; [cbn; lia|]. cbn [br_start br_end]. rewrite Z.geb_leb. destruct (Z.leb_spec a a0); [|lia]. destruct (Z.ltb_spec a0 b); [|lia]. cbn [andb].
  apply wp_in_range; [cbn; lia|]. cbn [br_start br_end]. rewrite Z.geb_leb. destruct (Z.leb_spec a (b0 - 1)); [|lia]. destruct (Z.ltb_spec (b0 - 1) b); [|lia]. done.
Qed.

Lemma range_shrink_wp a b (Q : bool * block_range -> tstate -> Prop) s : a <= a0 -> b0 <= b ->
  Q (if a0 =? a then (true, BlockRange b0 b) else if b0 =? b then (true, BlockRange a a0) else (false, BlockRange a b)) s -> wp (block_range_shrink (BlockRange a b) (BlockRange a0 b0)) Q s.
Proof.
  intros Ha Hb HQ. unfold block_range_shrink. apply wp_bind, sub_range_wp; [done|done|]. apply wp_bind, wp_assert; [done|]. cbn [br_start br_end].
  destruct (Z.eqb_spec a0 a); [|destruct (Z.eqb_spec b0 b); [|by apply wp_ret]]; (apply wp_bind, wp_empty; [cbn; lia|]; cbn [br_start br_end]; destruct (Z.eqb_spec a b); [lia|]; apply wp_bind, wp_assert; [done|]; by apply wp_ret).
Qed.

(** The entry [(a, b)] becomes the ranges [new], the last of them by an update. *)
Lemma minus_middle l1 a b l2 x : ranges_ok min max (l1 ++ (a, b) :: l2) -> a <= a0 -> b0 <= b ->
  minus (l1 ++ (a, b) :: l2) x <-> in_entries l1 x \/ (a <= x < a0 \/ b0 <= x < b) \/ in_entries l2 x.
Proof.
  intros Hr Ha Hb. unfold minus. rewrite in_entries_app, in_entries_cons. apply ranges_ok_app in Hr as [R1 (R2 & R3 & R4)].
  assert (in_entries l1 x -> x < a) by (intros H; pose proof (ranges_ok_bounds _ _ _ _ R1 H); lia). assert (in_entries l2 x -> b < x) by (intros H'; pose proof (ranges_ok_bounds _ _ _ _ R4 H'); lia).
  split; [intros [[?|[?|?]] ?]; [tauto| |tauto]; right; left; lia|]. intros [?|[?|?]]; (split; [|lia || (intros ?; intuition lia)]); [tauto|right; left; lia|tauto].
Qed.

Lemma update_done t l1 a b a' b' l2 X s : bt_entries t = l1 ++ (a, b) :: l2 -> keys_sorted (l1 ++ (a, b) :: l2) -> ranges_ok min max (l1 ++ (a', b') :: l2) -> ts_failed s = false -> 0 < a -> 0 < b ->
  (a = a' /\ b <> b' \/ a <> a' /\ b = b') -> (forall x, in_entries (l1 ++ (a', b') :: l2) x <-> X x) -> wp (t' ← block_tree_update t a b a' b'; f ← failed; mret (negb f, t')) (now X) s.
Proof.
  intros El Hs Hr' Hf Ha Hb Hone HX. pose proof (suffix_entries _ _ _ _ _ _ _ Hmin Hr' eq_refl). apply wp_bind. eapply update_wp; [exact El|exact Hs|by eapply ranges_sorted|done|done|done|lia|lia|done| |].
  - intros s' Hs'. apply wp_bind, wp_failed, wp_ret. rewrite Hs'. eapply now_done; [|done|exact Hr'|done]. eapply bl_update; [exact El|exact Hs|by eapply ranges_sorted].
  - intros t' s' Hs'. apply wp_bind, wp_failed, wp_ret. rewrite Hs'. by apply now_failed.
Qed.

Lemma remove_range_wp t s : ranges_ok min max (bt_entries t) -> (forall x, a0 <= x < b0 -> in_entries (bt_entries t) x) ->
  wp (remove_from_tree t (BlockRange a0 b0)) (fun r s' => now (minus (bt_entries t)) r s') s.
Proof.
  intros Hr Hall. destruct (covering _ Hr Hall) as (l1 & a & b & l2 & El & Ha & Hb & Hw). unfold remove_from_tree. cbn [br_start br_end]. apply wp_bind. eapply walk_wp; [exact Hmin|done| |].
  2:{ intros s1 Hs1. apply wp_bind, wp_from_path; [done|done|]. apply wp_bind, wp_failed. rewrite Hs1. apply wp_ret. by apply now_failed. }
  intros s1 Hs1. rewrite Hw. rewrite El in Hr |- *. rewrite valid_entries by (rewrite El; by destruct l1). pose proof (suffix_entries _ _ _ _ _ _ _ Hmin Hr eq_refl) as Hab.
  apply wp_bind, wp_from_path; [done|cbn; apply (path_entries Hr)|]. cbn [p_rest p_count entry_range]. apply wp_bind, wp_failed. destruct (ts_failed s1) eqn:Hf; [apply wp_ret; by apply now_failed|].
  apply wp_bind, wp_assert; [done|]. apply wp_bind, sub_range_wp; [done|done|]. apply wp_bind, wp_assert; [done|]. apply wp_bind, range_shrink_wp; [done|done|]. cbn [br_start br_end].
  pose proof (fun x => minus_middle l1 a b l2 x Hr Ha Hb) as HX. pose proof Hr as Hr0. apply ranges_ok_app in Hr0 as [R1 (R2 & R3 & R4)]. destruct (Z.eqb_spec a0 a) as [Ea|Ea].
  - apply wp_bind, wp_ret. apply wp_bind, wp_failed. rewrite Hf. apply wp_bind, wp_empty; [cbn; lia|]. cbn [br_start br_end]. destruct (Z.eqb_spec b0 b) as [Eb|Eb].
    + apply wp_bind. eapply remove_wp; [exact El|done|lia|lia| |].
      * intros s2 Hs2. apply wp_bind, wp_failed, wp_ret. rewrite Hs2. eapply now_done; [eapply bl_remove; [exact El|by eapply ranges_sorted]|done| |].
        -- apply ranges_ok_app. split; [done|]. eapply ranges_ok_mono; [done|lia].
        -- intros x. rewrite HX, in_entries_app. split; [tauto|]. intros [?|[?|?]]; [tauto|lia|tauto].
      * intros t' s2 Hs2. apply wp_bind, wp_failed, wp_ret. rewrite Hs2. by apply now_failed.
    + eapply update_done; [exact El|by eapply ranges_sorted| |done|lia|lia|lia|].
      * apply ranges_ok_app. cbn. split; [done|]. split; [lia|]. split; [lia|done].
      * intros x. rewrite HX, in_entries_app, in_entries_cons. split; [tauto|]. intros [?|[[?|?]|?]]; [tauto|lia|tauto|tauto].
  - destruct (Z.eqb_spec b0 b) as [Eb|Eb].
    + apply wp_bind, wp_ret. apply wp_bind, wp_failed. rewrite Hf. apply wp_bind, wp_empty; [cbn; lia|]. cbn [br_start br_end]. destruct (Z.eqb_spec a a0); [lia|].
      eapply update_done; [exact El|by eapply ranges_sorted| |done|lia|lia|lia|].
      * apply ranges_ok_app. cbn. split; [done|]. split; [lia|]. split; [lia|]. eapply ranges_ok_mono; [done|lia].
      * intros x. rewrite HX, in_entries_app, in_entries_cons. split; [tauto|]. intros [?|[[?|?]|?]]; [tauto|tauto|lia|tauto].
    + assert (ranges_ok min max (l1 ++ (a, a0) :: (b0, b) :: l2)) as Hr'. { apply ranges_ok_app. cbn. split_and!; done || lia. }
      assert (keys_sorted (l1 ++ (a, b) :: (b0, b) :: l2)) as Hks by (eapply sorted_data; by eapply ranges_sorted).
      apply wp_bind, insert_wp; [done|lia|lia| |].
      2:{ intros t' s2 Hs2. apply wp_bind, wp_failed. rewrite Hs2. apply wp_ret. by apply now_failed. }
      intros s2 Hs2. apply wp_bind, wp_failed. rewrite Hs2. apply wp_bind, wp_empty; [cbn; lia|]. cbn [br_start br_end]. destruct (Z.eqb_spec a a0); [lia|].
      eapply (update_done _ l1); [|exact Hks|exact Hr'|done|lia|lia|lia|].
      * change (l1 ++ (a, b) :: (b0, b) :: l2) with (l1 ++ [(a, b)] ++ (b0, b) :: l2) in *. rewrite app_assoc in *. apply bt_insert_middle; [rewrite El; by rewrite <- app_assoc| |done].
        rewrite <- app_assoc. by eapply ranges_sorted.
      * intros x. rewrite HX, in_entries_app, !in_entries_cons. tauto.
Qed.
End changes.

(** ** Sets *)

Section sets.
Context {T : Type} {bt : block_tree T} {laws : block_tree_laws T} (min max : Z).
Implicit Types (set : block_set T).

(** Within a transaction: the set is good unless the transaction has failed. *)
Definition set_inv set (s : tstate) : Prop :=
  bs_initial set = block_range_clear /\ (ts_failed s = true \/ (set_ok min max set /\ bs_updating set = false)).

Lemma blocks_tree set x : bs_initial set = block_range_clear -> in_blocks set x <-> in_entries (bt_entries (bs_tree set)) x.
Proof. intros E. unfold in_blocks, set_ranges. rewrite E. cbn. by rewrite app_nil_r. Qed.

Definition range_ok (r : block_range) : Prop := min <= br_start r /\ br_start r < br_end r <= max.

Lemma not_in_wp set r s : set_ok min max set -> range_ok r -> (forall x, br_start r <= x < br_end r -> ~ in_blocks set x) ->
  wp (block_set_range_not_in_set set r) (fun x _ => x = true) s.
Proof.
  intros Hok Hr Hno. pose proof (so_min _ _ _ Hok). unfold range_ok in Hr. unfold block_set_range_not_in_set. apply wp_bind. eapply wp_mono; [eapply find_wp; [exact Hok|lia]|]. intros b s' Hb. apply wp_ret.
  assert (b = 0 \/ next_in (in_blocks set) (br_start r) b) as [->|Hn] by (destruct Hb as [[_ Hb]|[_ [Hb|[_ Hb]]]]; tauto); [done|].
  destruct Hn as [[-> _]|(Hb0 & Hle & Hin & _)]; [done|]. apply orb_true_iff. right. rewrite Z.geb_leb. apply Z.leb_le. destruct (Z.le_gt_cases (br_end r) b); [done|]. exfalso. by apply (Hno b).
Qed.

Lemma in_wp set r s : set_ok min max set -> range_ok r -> (forall x, br_start r <= x < br_end r -> in_blocks set x) ->
  wp (block_set_range_in_set set r) (fun x s' => x = true \/ ts_failed s' = true) s.
Proof.
  intros Hok Hr Hall. pose proof (so_min _ _ _ Hok). unfold range_ok in Hr. unfold block_set_range_in_set. apply wp_bind. eapply wp_mono; [eapply find_wp; [exact Hok|lia]|]. intros b s' Hb.
  destruct (Z.eqb_spec b (br_start r)) as [->|Hne]; cbn [negb].
  - apply wp_bind. eapply wp_mono; [eapply find_wp; [exact Hok|lia]|]. intros b' s'' Hb'. apply wp_ret. assert (ts_failed s'' = true \/ next_out (in_blocks set) (br_start r) b') as [?|(H1 & H2 & _)] by (destruct Hb' as [[_ ?]|[? _]]; tauto); [by right|].
    left. rewrite Z.geb_leb. apply Z.leb_le. destruct (Z.le_gt_cases (br_end r) b'); [done|]. exfalso. apply H2. apply Hall. lia.
  - apply wp_ret. right. assert (ts_failed s' = true \/ next_in (in_blocks set) (br_start r) b) as [?|Hn] by (destruct Hb as [[_ ?]|[? _]]; tauto); [done|]. exfalso.
    assert (in_blocks set (br_start r)) as Hs by (apply Hall; lia). destruct Hn as [[_ Hn]|(_ & H1 & _ & Hn)]; [by apply (Hn (br_start r))|]. apply (Hn (br_start r)); [lia|done].
Qed.

(** The outcome of a change. *)
Definition set_now (X : Z -> Prop) set' (s s' : tstate) : Prop :=
  (set_inv set' s' /\ (ts_failed s' = false -> bt_valid (bs_tree set') = true)) /\ (ts_failed s' = false -> ts_failed s = false /\ forall x, in_blocks set' x <-> X x).

Lemma set_now_intro set X (r : bool * T) (s s' : tstate) : bs_initial set = block_range_clear -> 1 <= min -> max < 2 ^ 64 -> ts_failed s = false -> now min max X r s' ->
  set_now X (BlockSet r.2 (bs_initial set) (negb r.1)) s s'.
Proof.
  intros Ei Hmin Hmax Hf [(E & Hf' & [Hr Hv] & HX)|[E Hf']].
  - rewrite E. split; [split; [split; [done|]; right; split; [|done]; split; try done; by left|done]|]. intros _. split; [done|]. intros x. rewrite blocks_tree by done. apply HX.
  - split; [split; [split; [done|]; by left|congruence]|]. congruence.
Qed.

Lemma set_add_wp set r s : set_inv set s -> range_ok r -> (ts_failed s = false -> forall x, br_start r <= x < br_end r -> ~ in_blocks set x) ->
  wp (block_set_add_range set r) (fun set' s' => set_now (fun x => in_blocks set x \/ br_start r <= x < br_end r) set' s s') s.
Proof.
  intros [Ei Hs] Hr Hno. unfold block_set_add_range. pose proof Hr as [Hr1 Hr2]. apply wp_bind, wp_empty; [lia|]. destruct (Z.eqb_spec (br_start r) (br_end r)); [lia|]. apply wp_bind, wp_assert; [done|].
  apply wp_bind, wp_empty; [by rewrite Ei|]. apply wp_bind, wp_assert; [by rewrite Ei|]. apply wp_bind, wp_failed. destruct (ts_failed s) eqn:Hf.
  { apply wp_ret. split; [split; [split; [done|by left]|congruence]|]. congruence. }
  destruct Hs as [|[Hok Hu]]; [done|]. apply wp_bind, wp_assert; [by rewrite Hu|]. specialize (Hno eq_refl). apply wp_bind. eapply wp_mono; [by apply not_in_wp|]. intros x s1 ->. apply wp_bind, wp_assert; [done|].
  destruct r as [a0 b0]. cbn [br_start br_end] in *. pose proof Hok as [Hmin Hmax Hrs _]. apply wp_bind. eapply wp_mono; [apply (add_wp min max); try done; intros y Hy Hin; apply (Hno y Hy); by apply blocks_tree|].
  intros [done t] s2 Hnow. apply wp_ret. apply (set_now_intro set _ (done, t)); try done. unfold now in *. cbn in *. destruct Hnow as [(? & ? & [? ?] & HX)|]; [left|by right]. split_and!; try done.
  intros y. rewrite HX. unfold plus. by rewrite blocks_tree.
Qed.

Lemma set_remove_wp set r s : set_inv set s -> range_ok r -> (ts_failed s = false -> forall x, br_start r <= x < br_end r -> in_blocks set x) ->
  wp (block_set_remove_range set r) (fun set' s' => set_now (fun x => in_blocks set x /\ ~ (br_start r <= x < br_end r)) set' s s') s.
Proof.
  intros [Ei Hs] Hr Hall. unfold block_set_remove_range. pose proof Hr as [Hr1 Hr2]. apply wp_bind, wp_empty; [lia|]. destruct (Z.eqb_spec (br_start r) (br_end r)); [lia|]. apply wp_bind, wp_assert; [done|].
  apply wp_bind, wp_empty; [by rewrite Ei|]. apply wp_bind, wp_assert; [by rewrite Ei|]. apply wp_bind, wp_failed. destruct (ts_failed s) eqn:Hf.
  { apply wp_ret. split; [split; [split; [done|by left]|congruence]|]. congruence. }
  destruct Hs as [|[Hok Hu]]; [done|]. specialize (Hall eq_refl). apply wp_bind. eapply wp_mono; [by apply in_wp|]. intros x s1 Hx. apply wp_bind, wp_failed. apply wp_bind, wp_assert; [destruct Hx as [->| ->]; [done|apply orb_true_r]|].
  apply wp_bind, wp_assert; [by rewrite Hu|]. destruct r as [a0 b0]. cbn [br_start br_end] in *. pose proof Hok as [Hmin Hmax Hrs _].
  apply wp_bind. eapply wp_mono; [apply (remove_range_wp min max); try done; intros y Hy; apply blocks_tree; auto|].
  intros [done t] s2 Hnow. apply wp_ret. apply (set_now_intro set _ (done, t)); try done. unfold now in *. cbn in *. destruct Hnow as [(? & ? & [? ?] & HX)|]; [left|by right]. split_and!; try done.
  intros y. rewrite HX. unfold minus. by rewrite blocks_tree.
Qed.

(** ** Overlap *)

(** A whole range of the set, the first from [m] on. *)
Definition whole (l : list (Z * Z)) (m : Z) (r : block_range) : Prop :=
  m <= br_start r /\ 0 < br_start r < br_end r /\ (forall x, br_start r <= x < br_end r -> in_entries l x) /\ (forall x, m <= x < br_start r -> ~ in_entries l x) /\ ~ in_entries l (br_end r).

Lemma next_range_wp set m s : set_ok min max set -> 0 <= m -> wp (block_set_find_next_range set m)
  (fun r s' => (ts_failed s = true -> ts_failed s' = true) /\
    ((br_start r = br_end r /\ (br_start r = 0 \/ in_blocks set (br_start r)) /\ (ts_failed s' = true \/ forall x, m <= x -> ~ in_blocks set x)) \/ whole (set_ranges set) m r)) s.
Proof.
  intros Hok Hm. unfold block_set_find_next_range. apply wp_bind. eapply wp_mono; [eapply find_wp; [exact Hok|done]|]. intros a s1 Ha.
  assert ((next_in (in_blocks set) m a \/ (a = 0 /\ ts_failed s1 = true)) /\ (ts_failed s = true -> ts_failed s1 = true)) as [Ha' Hf1] by (destruct Ha as [[? ?]|[? [?|[_ ?]]]]; split; try tauto; congruence).
  destruct (Z.eqb_spec a 0) as [->|Hne]; cbn [negb].
  - apply wp_ret. split; [done|]. left. split; [done|]. split; [by left|]. destruct Ha' as [[[_ Hno]|[? _]]|[_ ?]]; [by right|lia|by left].
  - destruct Ha' as [[[? _]|(Hpos & Hle & Hin & Hno)]|[? _]]; [done| |done]. apply wp_bind. eapply wp_mono; [eapply find_wp; [exact Hok|lia]|]. intros b s2 Hb. apply wp_ret.
    assert ((next_out (in_blocks set) a b \/ (b = a /\ ts_failed s2 = true)) /\ (ts_failed s1 = true -> ts_failed s2 = true)) as [Hb' Hf2] by (destruct Hb as [[? ?]|[? [?|[_ ?]]]]; split; try tauto; congruence).
    split; [tauto|]. destruct Hb' as [(H1 & H2 & H3)|[-> ?]]; [|left; cbn; tauto]. right. unfold whole. cbn [br_start br_end]. assert (a <> b) by (intros ->; done). split_and!; try done; lia.
Qed.

Lemma in_blocks_bounds set x : set_ok min max set -> in_blocks set x -> min <= x < max.
Proof.
  intros Hok Hx. destruct (so_initial _ _ _ Hok) as [E|[E Hi]].
  - rewrite blocks_tree in Hx by done. pose proof (ranges_ok_bounds _ _ _ _ (so_ranges _ _ _ Hok) Hx). lia.
  - unfold in_blocks, set_ranges in Hx. rewrite E in Hx. cbn [app] in Hx. case_match; [by apply in_entries_nil in Hx|]. apply in_entries_cons in Hx as [Hx|Hx%in_entries_nil]; [lia|done].
Qed.

Lemma whole_bounds set m r : set_ok min max set -> whole (set_ranges set) m r -> range_ok r.
Proof.
  intros Hok (_ & H2 & H3 & _). pose proof (in_blocks_bounds _ _ Hok (H3 (br_start r) ltac:(lia))). pose proof (in_blocks_bounds _ _ Hok (H3 (br_end r - 1) ltac:(lia))). split; lia.
Qed.

(** The ranges that end after [x]: what is left to look at. *)
Definition left_after (l : list (Z * Z)) (x : Z) : nat := length (filter (fun e => x < snd e) l).

Lemma left_after_mono l x y : x <= y -> (left_after l y <= left_after l x)%nat.
Proof. intros H. unfold left_after. induction l as [|e l IH]; [done|]. rewrite !filter_cons. repeat case_decide; cbn; lia. Qed.
Lemma left_after_lt l m r y : whole l m r -> br_end r <= y -> (left_after l y < left_after l (br_start r))%nat.
Proof.
  intros (_ & Hp & Hin & _ & Hout) Hy. destruct (Hin (br_start r) ltac:(lia)) as (a & b & Hab & Hb). assert (b <= br_end r) as Hbr.
  { destruct (Z.le_gt_cases b (br_end r)); [done|]. exfalso. apply Hout. exists a, b. split; [done|lia]. }
  clear Hin Hout. unfold left_after. induction l as [|e l IH]; [by apply elem_of_nil in Hab|]. rewrite !filter_cons. apply elem_of_cons in Hab as [<-|Hab].
  - cbn [snd]. rewrite decide_False, decide_True by lia. cbn. pose proof (left_after_mono l (br_start r) y ltac:(lia)) as H. unfold left_after in H. lia.
  - specialize (IH Hab). repeat case_decide; cbn; lia.
Qed.

Definition common set_a set_b (x : Z) : Prop := in_blocks set_a x /\ in_blocks set_b x.

(** What an answer means. *)
Definition overlaps set_a set_b (r : bool) (s' : tstate) : Prop := if r then exists x, common set_a set_b x else ts_failed s' = true \/ forall x, ~ common set_a set_b x.

Lemma overlap_loop_wp fuel : forall set_a set_b rb s, set_ok min max set_a -> set_ok min max set_b ->
  (forall x, x < br_start rb -> ~ common set_a set_b x) ->
  (rb = BlockRange 0 0 /\ (left_after (set_ranges set_b) 0 < fuel)%nat /\ (1 < fuel)%nat) \/ (exists m, whole (set_ranges set_b) m rb) /\ (left_after (set_ranges set_b) (br_start rb) <= fuel)%nat ->
  wp (overlap_loop fuel set_a set_b rb) (overlaps set_a set_b) s.
Proof.
  induction fuel as [|fuel IH]; intros set_a set_b rb s Ha Hb Hno Hrb.
  { exfalso. destruct Hrb as [(_ & ? & _)|[[m Hw] Hl]]; [lia|]. pose proof (left_after_lt _ _ _ (br_end rb) Hw ltac:(lia)). lia. }
  assert (0 <= br_start rb <= br_end rb) as Hord by (destruct Hrb as [[-> _]|[[m (_ & ? & _)] _]]; cbn; lia). cbn [overlap_loop]. apply wp_bind. eapply wp_mono; [eapply next_range_wp; [exact Ha|lia]|].
  intros ra s1 [_ Hra]. destruct Hra as [(E & _ & Hra)|Hra].
  { apply wp_bind, wp_empty; [lia|]. rewrite E, Z.eqb_refl. apply wp_ret. destruct Hra as [?|Hra]; [by left|]. right. intros x [Hx1 Hx2]. destruct (Z.lt_ge_cases x (br_start rb)); [by apply (Hno x)|by apply (Hra x)]. }
  pose proof Hra as (A1 & A2 & A3 & A4 & A5). apply wp_bind, wp_empty; [lia|]. destruct (Z.eqb_spec (br_start ra) (br_end ra)); [lia|]. apply wp_bind, wp_in_range; [lia|].
  destruct ((br_start ra >=? br_start rb) && (br_start ra <? br_end rb)) eqn:Ein.
  { apply wp_ret. apply andb_true_iff in Ein as [E1%Z.geb_le E2%Z.ltb_lt]. exists (br_start ra). split; [apply A3; lia|]. destruct Hrb as [[-> _]|[[m (_ & _ & B3 & _)] _]]; [cbn in E2; lia|]. apply B3. lia. }
  assert (br_end rb <= br_start ra) as Hab. { apply andb_false_iff in Ein as [E1|E1%Z.ltb_ge]; [|done]. rewrite Z.geb_leb in E1. apply Z.leb_gt in E1. lia. }
  apply wp_bind, wp_assert; [apply Z.geb_le; lia|]. assert (forall x, x < br_start ra -> ~ common set_a set_b x) as Hno'.
  { intros x Hx [Hx1 Hx2]. destruct (Z.lt_ge_cases x (br_start rb)); [by apply (Hno x)|]. by apply (A4 x). }
  apply wp_bind. eapply wp_mono; [eapply next_range_wp; [exact Hb|lia]|]. intros rb' s2 [_ [(E & _ & Hb')|Hb']].
  { apply wp_bind, wp_empty; [lia|]. rewrite E, Z.eqb_refl. apply wp_ret. destruct Hb' as [?|Hb']; [by left|]. right. intros x [Hx1 Hx2]. destruct (Z.lt_ge_cases x (br_start ra)); [by apply (Hno' x)|by apply (Hb' x)]. }
  pose proof Hb' as (B1 & B2 & B3 & B4 & B5). apply wp_bind, wp_empty; [lia|]. destruct (Z.eqb_spec (br_start rb') (br_end rb')); [lia|]. apply wp_bind, wp_in_range; [lia|]. rewrite Z.geb_leb.
  destruct (Z.leb_spec (br_start ra) (br_start rb')); [|lia]. cbn [andb]. destruct (Z.ltb_spec (br_start rb') (br_end ra)).
  { apply wp_ret. exists (br_start rb'). split; [apply A3; lia|apply B3; lia]. }
  apply wp_bind, wp_assert; [apply Z.gtb_lt; lia|]. apply IH; [done|done| |].
  - intros x Hx [Hx1 Hx2]. destruct (Z.lt_ge_cases x (br_start ra)); [by apply (Hno' x)|]. by apply (B4 x).
  - right. split; [by eexists|]. destruct Hrb as [(-> & Hl & Hf)|[[m Hw] Hl]].
    + pose proof (left_after_mono (set_ranges set_b) 0 (br_start rb') ltac:(lia)). lia.
    + pose proof (left_after_lt _ _ _ (br_start rb') Hw ltac:(lia)). lia.
Qed.

Lemma overlap_wp set_a set_b s : set_ok min max set_a -> set_ok min max set_b -> wp (block_set_overlap set_a set_b) (overlaps set_a set_b) s.
Proof.
  intros Ha Hb. unfold block_set_overlap. apply overlap_loop_wp; [done|done| |].
  - intros x Hx [Ha' _]. cbn in Hx. pose proof (in_blocks_bounds _ _ Ha Ha'). pose proof (so_min _ _ _ Ha). lia.
  - left. split; [done|]. split; [|lia]. unfold left_after. eapply Nat.le_lt_trans; [apply length_filter|]. unfold set_ranges. rewrite length_app. case_match; cbn; lia.
Qed.
End sets.

(** ** The check *)

Section check.
Context {T : Type} {bt : block_tree T} {laws : block_tree_laws T}.

Lemma check_loop_wp fuel : forall l max min p s, (length l < fuel)%nat -> Forall (fun e => 0 < fst e < snd e /\ snd e < 2 ^ 64 - 1) l -> p_rest p = l -> (l <> [] -> p_count p = true) ->
  wp (check_loop fuel max min p (entry_range l)) (fun r s' => ts_failed s' = true \/ (r = true <-> ranges_ok min max l)) s.
Proof.
  induction fuel as [|fuel IH]; intros l max min p s Hl Hf Hp Hc; [lia|]. cbn [check_loop]. destruct Hf as [|[a b] l [Hab Hb] Hf]; cbn [fst snd] in *.
  { apply wp_bind, wp_empty; [done|]. cbn. apply wp_ret. right. done. }
  apply wp_bind, wp_empty; [cbn; lia|]. cbn [entry_range br_start br_end]. destruct (Z.eqb_spec a b); [lia|]. cbn [ranges_ok].
  destruct (Z.ltb_spec a min); [apply wp_ret; right; split; [done|lia]|]. destruct (Z.leb_spec b a); [lia|]. destruct (Z.gtb_spec b max); [apply wp_ret; right; split; [done|lia]|].
  apply wp_bind. destruct p as [c rest]. cbn in Hp, Hc. subst rest. rewrite Hc by done. apply next_wp; [cbn; lia| |].
  - intros s1 Hs1. apply wp_bind, wp_from_path; [done| |].
    + cbn. intros a' b' l' ->. inversion Hf as [|? ? H']. cbn in H'. lia.
    + cbn [p_rest]. unfold u64. rewrite Z.mod_small by lia. eapply wp_mono; [apply IH; [cbn in Hl; lia|done|done|done]|]. cbn. intros r s2 [?|Hr]; [by left|]. right. rewrite Hr. intuition lia.
  - intros s1 Hs1. apply wp_bind, wp_from_path; [done|done|]. destruct fuel as [|fuel]; [cbn in Hl; lia|]. cbn [check_loop p_rest]. apply wp_bind, wp_empty; [done|]. apply wp_ret. by left.
Qed.

(** Unless the transaction fails, the check of a tree of non-empty ranges tells whether
    they are in order, apart and within bounds. *)
Theorem block_set_check_decides (set : block_set T) min max s : keys_sorted (bt_entries (bs_tree set)) -> Forall (fun e => 0 < fst e < snd e /\ snd e < 2 ^ 64 - 1) (bt_entries (bs_tree set)) ->
  wp (block_set_check_ranges min max set) (fun r s' => ts_failed s' = true \/ (r = true <-> ranges_ok min max (bt_entries (bs_tree set)))) s.
Proof.
  intros Hs Hf. unfold block_set_check_ranges, block_tree_walk. assert (walk_from 0 (bt_entries (bs_tree set)) = bt_entries (bs_tree set)) as Hw.
  { apply walk_from_first. eapply Forall_impl; [exact Hf|]. cbn. lia. }
  assert (forall a b l, bt_entries (bs_tree set) = (a, b) :: l -> 0 < a /\ 0 < b) as Hpos by (intros a b l E; rewrite E in Hf; inversion Hf as [|? ? H]; cbn in H; lia).
  apply wp_bind. destruct (bt_valid (bs_tree set)) eqn:Ev.
  - rewrite bl_walk, Hw by done. apply wp_bind, wp_access; intros s1 Hs1; apply wp_ret.
    + apply wp_bind, wp_from_path; [done|exact Hpos|]. cbn [p_rest]. eapply wp_mono; [apply check_loop_wp; [cbn; lia|done|done|done]|]. done.
    + apply wp_bind, wp_from_path; [done|done|]. cbn [check_loop p_rest length]. apply wp_bind, wp_empty; [done|]. apply wp_ret. by left.
  - apply wp_ret. rewrite (bl_valid _ Ev). apply wp_bind, wp_from_path; [done|done|]. cbn [check_loop p_rest length]. apply wp_bind, wp_empty; [done|]. apply wp_ret. by right.
Qed.
End check.

(** ** Runs of changes *)

Inductive set_op := AddRange (r : block_range) | RemoveRange (r : block_range) | AddBlock (b : Z) | RemoveBlock (b : Z).

Definition op_range (o : set_op) : block_range :=
  match o with AddRange r | RemoveRange r => r | AddBlock b | RemoveBlock b => BlockRange b (b + 1) end.
Definition op_adds (o : set_op) : bool := match o with AddRange _ | AddBlock _ => true | _ => false end.
Definition op_blocks (o : set_op) (x : Z) : Prop := br_start (op_range o) <= x < br_end (op_range o).

(** The abstract set after a change, and the changes that are allowed: adding what is
    not in the set, removing what is. *)
Definition spec_op (o : set_op) (X : Z -> Prop) (x : Z) : Prop := if op_adds o then X x \/ op_blocks o x else X x /\ ~ op_blocks o x.
Definition op_allowed (min max : Z) (X : Z -> Prop) (o : set_op) : Prop := range_ok min max (op_range o) /\ forall x, op_blocks o x -> if op_adds o then ~ X x else X x.

Fixpoint spec_run (ops : list set_op) (X : Z -> Prop) : Z -> Prop := match ops with [] => X | o :: ops' => spec_run ops' (spec_op o X) end.
Fixpoint run_allowed (min max : Z) (ops : list set_op) (X : Z -> Prop) : Prop :=
  match ops with [] => True | o :: ops' => op_allowed min max X o /\ run_allowed min max ops' (spec_op o X) end.

Section runs.
Context {T : Type} {bt : block_tree T} {laws : block_tree_laws T}.

Definition set_do (o : set_op) (set : block_set T) : B (block_set T) :=
  match o with
  | AddRange r => block_set_add_range set r
  | RemoveRange r => block_set_remove_range set r
  | AddBlock b => block_set_add_block set b
  | RemoveBlock b => block_set_remove_block set b
  end.
Fixpoint set_run (ops : list set_op) (set : block_set T) : B (block_set T) :=
  match ops with [] => mret set | o :: ops' => set' ← set_do o set; set_run ops' set' end.

Lemma set_do_range o set : 0 <= br_start (op_range o) -> br_end (op_range o) < 2 ^ 64 ->
  set_do o set = if op_adds o then block_set_add_range set (op_range o) else block_set_remove_range set (op_range o).
Proof. intros H1 H2. destruct o; cbn in *; try done; unfold block_set_add_block, block_set_remove_block, block_range_init_single; by rewrite Z.mod_small by lia. Qed.

Lemma set_do_wp min max o set X s : 1 <= min -> max < 2 ^ 64 -> set_inv min max set s -> (ts_failed s = false -> forall x, in_blocks set x <-> X x) -> op_allowed min max X o ->
  wp (set_do o set) (fun set' s' => set_inv min max set' s' /\ (ts_failed s' = false -> forall x, in_blocks set' x <-> spec_op o X x)) s.
Proof.
  intros Hmin Hmax Hinv HX [Hr Hal]. pose proof Hr as [Hr1 Hr2]. rewrite set_do_range by lia. unfold spec_op. destruct (op_adds o).
  - eapply wp_mono; [apply set_add_wp; [exact Hinv|done|]|].
    + intros Hf x Hx. rewrite HX by done. by apply Hal.
    + intros set' s' [[Hi _] Hn]. split; [done|]. intros Hf x. destruct (Hn Hf) as [Hf0 ->]. by rewrite HX.
  - eapply wp_mono; [apply set_remove_wp; [exact Hinv|done|]|].
    + intros Hf x Hx. rewrite HX by done. by apply Hal.
    + intros set' s' [[Hi _] Hn]. split; [done|]. intros Hf x. destruct (Hn Hf) as [Hf0 ->]. by rewrite HX.
Qed.

Lemma set_run_wp min max ops : 1 <= min -> max < 2 ^ 64 -> forall set X s, set_inv min max set s -> (ts_failed s = false -> forall x, in_blocks set x <-> X x) -> run_allowed min max ops X ->
  wp (set_run ops set) (fun set' s' => set_inv min max set' s' /\ (ts_failed s' = false -> forall x, in_blocks set' x <-> spec_run ops X x)) s.
Proof.
  intros Hmin Hmax. induction ops as [|o ops IH]; intros set X s Hinv HX Hal; [by apply wp_ret|]. destruct Hal as [Ho Hal]. cbn [set_run]. apply wp_bind. eapply wp_mono; [by apply set_do_wp|].
  intros set1 s1 [Hinv1 HX1]. by apply (IH set1 (spec_op o X)).
Qed.

Lemma init_inv min max s : 1 <= min -> max < 2 ^ 64 -> set_inv min max block_set_init s.
Proof. intros H1 H2. split; [done|]. right. split; [|done]. split; [done|done| |by left]. cbn. by rewrite (proj1 bl_empty). Qed.

Lemma init_blocks x : in_blocks block_set_init x <-> False.
Proof. rewrite blocks_tree by done. cbn. rewrite (proj1 bl_empty). split; [apply in_entries_nil|done]. Qed.
End runs.

(** ** Runs in which no access fails

    A routine over a state with a transaction in it is calm when it does not fail the
    transaction of itself, but only where an access to a tree fails. *)

Definition quiet (t : tstate) : Prop := Forall (eq true) (ts_answers t).

Section calm.
Context {S : Type} (pr : S -> tstate).
Definition calm {A} (m : M S A) : Prop := forall s, quiet (pr s) -> wlp m (fun _ s' => quiet (pr s') /\ ts_failed (pr s') = ts_failed (pr s)) s.

Lemma calm_ret {A} (a : A) : calm (mret a).
Proof. intros s Hs. unfold wlp. by cbn. Qed.
Lemma calm_raise {A} f : calm (A := A) (raise f).
Proof. by intros s Hs. Qed.
Lemma calm_assert b : calm (assert_ b).
Proof. destruct b; [apply calm_ret|apply calm_raise]. Qed.
Lemma calm_deref {A} f (o : option A) : calm (deref f o).
Proof. destruct o; [apply calm_ret|apply calm_raise]. Qed.
Lemma calm_get : calm get.
Proof. intros s Hs. unfold wlp. by cbn. Qed.
Lemma calm_gets {A} (f : S -> A) : calm (gets f).
Proof. intros s Hs. unfold wlp. by cbn. Qed.
Lemma calm_modify f : (forall s, pr (f s) = pr s) -> calm (modify f).
Proof. intros Hf s Hs. unfold wlp. cbn. by rewrite Hf. Qed.
Lemma calm_bind {A C} (m : M S A) (k : A -> M S C) : calm m -> (forall a, calm (k a)) -> calm (m ≫= k).
Proof.
  intros Hm Hk s Hs. specialize (Hm s Hs). unfold wlp, mbind, M_bind in *. destruct (m s) as [a s'|]; [|done]. destruct Hm as [Hs' E]. specialize (Hk a s' Hs'). unfold wlp in Hk. destruct (k a s'); [|done]. rewrite <- E. done.
Qed.
Lemma calm_when b m : calm m -> calm (when b m).
Proof. intros Hm. destruct b; [done|apply calm_ret]. Qed.
Lemma calm_run {A} (m : M S A) s a s' : calm m -> quiet (pr s) -> m s = Ret a s' -> quiet (pr s') /\ ts_failed (pr s') = ts_failed (pr s).
Proof. intros Hm Hs E. specialize (Hm s Hs). unfold wlp in Hm. by rewrite E in Hm. Qed.
End calm.

Create HintDb calm.
#[export] Hint Resolve calm_ret calm_raise calm_assert calm_deref calm_get calm_gets : calm.

(** Follow the code of a routine, with what is known of those that it calls. *)
Ltac calm :=
  repeat (cbn beta iota zeta; intros;
    match goal with
    | |- calm _ (mbind _ _) => apply calm_bind
    | |- calm _ (when _ _) => apply calm_when
    | |- calm _ (match ?x with _ => _ end) => destruct x
    | |- calm _ _ => solve [eauto with calm nocore]
    end).

Section calm_ranges.
Context {S : Type} (pr : S -> tstate).
Lemma calm_empty r : calm pr (block_range_empty r).
Proof. unfold block_range_empty. calm. Qed.
Lemma calm_in_range r b : calm pr (block_in_range r b).
Proof. unfold block_in_range, block_range_empty. calm. Qed.
End calm_ranges.
#[export] Hint Resolve calm_empty calm_in_range : calm.
Lemma calm_overlap {S} (pr : S -> tstate) a b : calm pr (block_range_overlap a b).
Proof. unfold block_range_overlap. calm. Qed.
Lemma calm_sub_range {S} (pr : S -> tstate) a b : calm pr (block_range_is_sub_range a b).
Proof. unfold block_range_is_sub_range. calm. Qed.
Lemma calm_before {S} (pr : S -> tstate) a b : calm pr (block_range_before a b).
Proof. unfold block_range_before. calm. Qed.
#[export] Hint Resolve calm_overlap calm_sub_range calm_before : calm.

Section calm_sets.
Context {T : Type} {bt : block_tree T}.
Abbreviation calmB := (calm (fun t => t)).

Lemma calm_access : calmB access.
Proof. intros [f l] Hs. unfold wlp, access. cbn. destruct l as [|[] l]; cbn in *; [done| |by inversion Hs]. split; [by inversion Hs|done]. Qed.
Lemma calm_failed : calmB failed.
Proof. apply calm_gets. Qed.
#[local] Hint Resolve calm_access calm_failed : calm.
Lemma calm_next p : calmB (block_tree_path_next p).
Proof. unfold block_tree_path_next. calm. Qed.
Lemma calm_walk (t : T) k : calmB (block_tree_walk t k).
Proof. unfold block_tree_walk. calm. Qed.
Lemma calm_changed (t t' : T) : calmB (changed t t').
Proof. unfold changed. calm. Qed.
#[local] Hint Resolve calm_next calm_walk calm_changed : calm.
Lemma calm_tree_insert (t : T) k d : calmB (block_tree_insert t k d).
Proof. unfold block_tree_insert. calm. Qed.
Lemma calm_tree_remove (t : T) k d : calmB (block_tree_remove t k d).
Proof. unfold block_tree_remove. calm. Qed.
Lemma calm_tree_update (t : T) k d k' d' : calmB (block_tree_update t k d k' d').
Proof. unfold block_tree_update. calm. Qed.
Lemma calm_from_path p : calmB (block_range_init_from_path p).
Proof. unfold block_range_init_from_path. calm. Qed.
#[local] Hint Resolve calm_tree_insert calm_tree_remove calm_tree_update calm_from_path : calm.
Lemma calm_extend r a : calmB (block_range_extend r a).
Proof. unfold block_range_extend. calm. Qed.
Lemma calm_shrink r a : calmB (block_range_shrink r a).
Proof. unfold block_range_shrink. calm. Qed.
Lemma calm_find (set : block_set T) m b : calmB (block_set_find_next_block set m b).
Proof. unfold block_set_find_next_block. calm. Qed.
#[local] Hint Resolve calm_extend calm_shrink calm_find : calm.
Lemma calm_find_range (set : block_set T) m : calmB (block_set_find_next_range set m).
Proof. unfold block_set_find_next_range. calm. Qed.
Lemma calm_in_set (set : block_set T) b : calmB (block_set_block_in_set set b).
Proof. unfold block_set_block_in_set. calm. Qed.
Lemma calm_add (set : block_set T) r : calmB (block_set_add_range set r).
Proof. unfold block_set_add_range, block_set_range_not_in_set, add_to_tree, add_at, extend_entry. calm. Qed.
Lemma calm_remove (set : block_set T) r : calmB (block_set_remove_range set r).
Proof. unfold block_set_remove_range, block_set_range_in_set, remove_from_tree. calm. Qed.
#[local] Hint Resolve calm_find_range calm_add calm_remove : calm.
Lemma calm_overlap_sets (a b : block_set T) : calmB (block_set_overlap a b).
Proof. unfold block_set_overlap. generalize (2 + length (bt_entries (bs_tree b)))%nat, (BlockRange 0 0). intros fuel. induction fuel as [|fuel IH]; intros r; cbn [overlap_loop]; calm. Qed.
Lemma calm_set_run ops : forall set : block_set T, calmB (set_run ops set).
Proof. induction ops as [|o ops IH]; intros set; cbn [set_run]; calm. destruct o; cbn [set_do]; unfold block_set_add_block, block_set_remove_block; calm. Qed.
End calm_sets.
#[export] Hint Resolve calm_access calm_failed calm_find calm_find_range calm_in_set calm_add calm_remove : calm.

(** A copy of a committed set, which of a new file system is only its initial range,
    holds the same blocks and can be changed. *)
Lemma block_set_copy_same {T} {bt : block_tree T} {laws : block_tree_laws T} min max (src : block_set T) s : set_ok min max src -> ts_failed s = false ->
  (bt_valid (bs_tree src) = true <-> bs_initial src = block_range_clear) ->
  wp (block_set_copy src) (fun dest s' => (set_inv min max dest s' /\ (ts_failed s' = false -> bt_valid (bs_tree dest) = true)) /\ (ts_failed s' = false -> forall x, in_blocks dest x <-> in_blocks src x)) s.
Proof.
  intros Hok Hf Hv. pose proof Hok as [Hmin Hmax Hr Hi]. unfold block_set_copy. cbn [bs_tree]. destruct (bt_valid (bs_tree src)) eqn:Ev; cbn [negb].
  - destruct Hv as [Hv _]. specialize (Hv eq_refl). apply wp_bind, wp_empty; [by rewrite Hv|]. rewrite Hv. apply wp_bind, wp_assert; [done|]. apply wp_ret. split.
    + split; [|done]. split; [done|]. right. split; [|done]. split; try done. by left.
    + intros _ x. by rewrite !blocks_tree by done.
  - destruct Hi as [Hi|[E Hi]]; [by apply Hv in Hi|]. apply wp_bind, wp_empty; [lia|]. destruct (Z.eqb_spec (br_start (bs_initial src)) (br_end (bs_initial src))) as [|Hne]; [lia|]. apply wp_bind, wp_assert; [done|].
    assert (forall x, in_blocks (BlockSet (bs_tree src) block_range_clear false) x <-> False) as Hemp by (intros x; rewrite blocks_tree by done; cbn; rewrite E; split; [apply in_entries_nil|done]).
    eapply wp_mono; [apply (set_add_wp min max)|].
    + split; [done|]. right. split; [|done]. split; try done. by left.
    + split; [lia|]. lia.
    + intros _ x _. intros Hin. by apply Hemp in Hin.
    + intros dest s' [H1 H2]. split; [done|]. intros Hf' x. destruct (H2 Hf') as [_ ->]. rewrite Hemp. unfold in_blocks, set_ranges. rewrite E. destruct (Z.eqb_spec (br_start (bs_initial src)) (br_end (bs_initial src))); [done|].
      cbn [app]. rewrite in_entries_cons. split; [intros [?|?]; [done|by left]|intros [?|?%in_entries_nil]; [by right|done]].
Qed.

(** C21: A block set is a set of blocks.  Over any tree that keeps its laws, from an
    empty set and through any sequence of additions of ranges and blocks that are not
    in it and removals of ones that are, with any access to the tree failing: no
    assertion of the set or of the tree fails; and unless the transaction has failed
    the set holds just the blocks it should, in ranges that are sorted, apart and not
    adjacent, and a search returns the first block in (or not in) the set from where
    it starts, or 0 when there is none.  The transaction does not fail but by an access
    that does. *)
Theorem block_set_refines {T} {bt : block_tree T} {laws : block_tree_laws T} min max ops s :
  1 <= min -> max < 2 ^ 64 -> run_allowed min max ops (fun _ => False) ->
  exists set' s', set_run ops (block_set_init (bt := bt)) s = Ret set' s' /\ (quiet s -> ts_failed s' = ts_failed s) /\
    (ts_failed s' = false ->
      ranges_ok min max (bt_entries (bs_tree set')) /\ (forall x, in_blocks set' x <-> spec_run ops (fun _ => False) x) /\
      forall m in_set, 0 <= m -> exists r s'', block_set_find_next_block set' m in_set s' = Ret r s'' /\ (quiet s' -> ts_failed s'' = false) /\ (ts_failed s'' = false -> next_block in_set (spec_run ops (fun _ => False)) m r)).
Proof.
  intros Hmin Hmax Hal. pose proof (set_run_wp min max ops Hmin Hmax block_set_init (fun _ => False) s (init_inv _ _ _ Hmin Hmax) (fun _ => init_blocks) Hal) as H. unfold wp in H.
  destruct (set_run ops block_set_init s) as [set' s'|] eqn:E; [|done]. destruct H as [[Ei Hok] HX]. exists set', s'. split; [done|]. split; [intros Hq; by apply (calm_run _ _ _ _ _ (calm_set_run ops _) Hq E)|]. intros Hf. specialize (HX Hf). destruct Hok as [|[Hok _]]; [congruence|].
  split; [apply Hok|]. split; [done|]. intros m in_set Hm. pose proof (find_wp min max set' m in_set s' Hok Hm) as Hfind. unfold wp in Hfind.
  destruct (block_set_find_next_block set' m in_set s') as [r s''|] eqn:E'; [|done]. exists r, s''. split; [done|]. split; [intros Hq; rewrite <- Hf; by apply (calm_run _ _ _ _ _ (calm_find set' m in_set) Hq E')|]. intros Hf''. apply (next_block_proper in_set (in_blocks set') _ HX m m eq_refl r r eq_refl). destruct Hfind as [[_ ?]|[? _]]; [done|congruence].
Qed.

(** C25: The test for overlap ends and is right.  On two sets in order, [block_set_overlap]
    fails no assertion and ends within as many rounds as the second set has ranges, and
    two more; it answers yes only when a block is in both, and no only when none is or
    the transaction has failed, which it does not but by an access that does. *)
Theorem block_set_overlap_decides {T} {bt : block_tree T} {laws : block_tree_laws T} min max (set_a set_b : block_set T) s :
  set_ok min max set_a -> set_ok min max set_b ->
  exists r s', block_set_overlap set_a set_b s = Ret r s' /\ (quiet s -> ts_failed s' = ts_failed s) /\
    (r = true -> exists x, in_blocks set_a x /\ in_blocks set_b x) /\ (r = false -> ts_failed s' = false -> forall x, ~ (in_blocks set_a x /\ in_blocks set_b x)).
Proof.
  intros Ha Hb. pose proof (overlap_wp min max set_a set_b s Ha Hb) as H. unfold wp in H. destruct (block_set_overlap set_a set_b s) as [r s'|] eqn:E; [|done]. exists r, s'. split; [done|]. split; [intros Hq; by apply (calm_run _ _ _ _ _ (calm_overlap_sets set_a set_b) Hq E)|].
  unfold overlaps in H. destruct r; split; try done. intros _ Hf. destruct H as [?|H]; [congruence|done].
Qed.

(** ** A list as a tree *)

Definition list_tree : Type := (bool * list (Z * Z))%type.

#[export] Instance list_block_tree : block_tree list_tree := {|
  bt_empty := (false, []);
  bt_valid := fst;
  bt_entries t := if fst t then snd t else [];
  bt_walk t k := walk_from k (if fst t then snd t else []);
  bt_insert e t := (true, insert_entry e (if fst t then snd t else []));
  bt_update e e' t := (true, (fun x => if decide (x = e) then e' else x) <$> (if fst t then snd t else []));
  bt_remove e t := (true, filter (fun x => x <> e) (if fst t then snd t else []));
  bt_broken t := (false, []);
|}.

Lemma sorted_apart l1 (e : Z * Z) l2 : keys_sorted (l1 ++ e :: l2) -> e ∉ l1 /\ e ∉ l2.
Proof. intros H. apply sorted_middle in H as [A B]. rewrite Forall_forall in A, B. split; intros Hin; [specialize (A e Hin)|specialize (B e Hin)]; lia. Qed.

#[export] Instance list_tree_laws : block_tree_laws list_tree.
Proof.
  assert (forall (e e' : Z * Z) (l : list (Z * Z)), e ∉ l -> (fun x => if decide (x = e) then e' else x) <$> l = l) as Hup.
  { intros e e' l. induction l as [|x l IH]; [done|]. rewrite not_elem_of_cons. intros [Hx Hl]. cbn. rewrite decide_False by done. f_equal. by apply IH. }
  assert (forall (e : Z * Z) (l : list (Z * Z)), e ∉ l -> filter (fun x => x <> e) l = l) as Hrm.
  { intros e l. induction l as [|x l IH]; [done|]. rewrite not_elem_of_cons. intros [Hx Hl]. rewrite filter_cons_True by done. f_equal. by apply IH. }
  split; cbn.
  - done.
  - intros t ->. done.
  - done.
  - done.
  - intros t l1 e e' l2 -> Hs _. apply sorted_apart in Hs as [H1 H2]. split; [|done]. rewrite fmap_app. cbn. by rewrite decide_True, !Hup.
  - intros t l1 e l2 -> Hs. apply sorted_apart in Hs as [H1 H2]. split; [|done]. rewrite filter_app, filter_cons_False by (by intros []). by rewrite !Hrm.
Qed.

Definition demo_ops : list set_op :=
  [AddBlock 5; AddRange (BlockRange 8 20); AddBlock 7; AddBlock 6; RemoveRange (BlockRange 10 12); RemoveBlock 5].

(** Three additions that are joined into one range, which a removal splits. *)
Example demo_set : match set_run demo_ops (block_set_init (bt := list_block_tree)) (TS false []) with Ret set' _ => Some (bt_entries (bs_tree set')) | _ => None end = Some [(6, 10); (12, 20)].
Proof. reflexivity. Qed.

Lemma block_set_refines_witness : exists set' s', set_run demo_ops (block_set_init (bt := list_block_tree)) (TS false [true; true; true]) = Ret set' s' /\ (quiet (TS false [true; true; true]) -> ts_failed s' = false) /\
  (ts_failed s' = false ->
    ranges_ok 1 100 (bt_entries (bs_tree set')) /\ (forall x, in_blocks set' x <-> spec_run demo_ops (fun _ => False) x) /\
    forall m in_set, 0 <= m -> exists r s'', block_set_find_next_block set' m in_set s' = Ret r s'' /\ (quiet s' -> ts_failed s'' = false) /\ (ts_failed s'' = false -> next_block in_set (spec_run demo_ops (fun _ => False)) m r)).
Proof.
  apply block_set_refines; [lia|lia|]. repeat (split; [split; [cbn; unfold range_ok; cbn; lia|intros x; unfold op_blocks; cbn; unfold spec_op, op_blocks; cbn; lia]|]). exact I.
Defined.

Definition demo_a : block_set list_tree := BlockSet (true, [(2, 5); (9, 12)]) block_range_clear false.
Definition demo_b : block_set list_tree := BlockSet (true, [(5, 9); (11, 13)]) block_range_clear false.

Lemma block_set_overlap_decides_witness : exists r s', block_set_overlap demo_a demo_b (TS false []) = Ret r s' /\ (quiet (TS false []) -> ts_failed s' = ts_failed (TS false [])) /\
  (r = true -> exists x, in_blocks demo_a x /\ in_blocks demo_b x) /\ (r = false -> ts_failed s' = false -> forall x, ~ (in_blocks demo_a x /\ in_blocks demo_b x)).
Proof. apply (block_set_overlap_decides 1 100); (split; [lia|lia|cbn; lia|by left]). Defined.

Example demo_overlap : block_set_overlap demo_a demo_b (TS false []) = Ret true (TS false []).
Proof. reflexivity. Qed.
Example demo_apart : block_set_overlap demo_a (BlockSet (true, [(5, 9); (12, 13)]) block_range_clear false) (TS false []) = Ret false (TS false []).
Proof. reflexivity. Qed.

(** A range on the disk that ends before it starts is not reported, it fails the
    assertion of [block_range_empty]. *)
Example check_reversed_range : block_set_check_ranges 1 100 (BlockSet (true, [(2, 5); (9, 7)]) block_range_clear false) (TS false []) = Fault AssertFailed.
Proof. reflexivity. Qed.
