(* ===== verification/Alloc.v ===== *)
(** * Allocation of blocks (app/storage/block_allocator.c, transaction.c)

    A free block is one of the committed free set that no active transaction has taken:
    [find_free_block] goes back and forth between the free set, the sets of the active
    transactions and the queue of changes that are not in the sets yet.  Allocated and
    freed blocks are queued and put into the sets of the transaction from there; at the
    commit [transaction_merge_free_sets] makes the new free set.

    The trees below are those of [BlockSet]; the blocks that the trees themselves take
    while they change are not part of the model, nor is the cache: [clean] tells which
    blocks it holds no changes of. *)

From stdpp Require Import base tactics list sets relations.
From Stdlib Require Import ZArith Lia.
From S2P Require Import Prelude Super BlockSet.

Definition BLOCK_SET_MAX_DEPTH : Z := 9.
Definition BLOCK_ALLOCATOR_QUEUE_LEN : nat := 324.

(** [struct block_allocator_queue_entry] and [struct block_allocator_queue] *)
Record queue_entry := QE { qe_block : Z; qe_tmp : bool; qe_free : bool; qe_removed : bool }.
Record queue := Queue { q_entry : list queue_entry; q_head : nat; q_tail : nat; q_updating : bool }.

Definition q_next (i : nat) : nat := ((i + 1) mod BLOCK_ALLOCATOR_QUEUE_LEN)%nat.

Section allocator.
Context {T : Type} {bt : block_tree T} (clean : Z -> bool).

(** Of [struct fs] and [struct transaction]: the committed free set; the sets on the list
    of the allocated ones, before and after those of this transaction; its own sets; the
    new free set while it commits; where it searches; the size of the device; the
    queue. *)
Record astate := AS {
  a_free : block_set T;
  a_before : list (block_set T);
  a_after : list (block_set T);
  a_allocated : block_set T;
  a_tmp : block_set T;
  a_freed : block_set T;
  a_new_free : option (block_set T);
  a_min_free : Z;
  a_last_free : Z;
  a_last_tmp : Z;
  a_count : Z;
  a_queue : queue;
  a_t : tstate;
}.

Definition set_t (t : tstate) (s : astate) : astate := AS (a_free s) (a_before s) (a_after s) (a_allocated s) (a_tmp s) (a_freed s) (a_new_free s) (a_min_free s) (a_last_free s) (a_last_tmp s) (a_count s) (a_queue s) t.
Definition set_queue (q : queue) (s : astate) : astate := AS (a_free s) (a_before s) (a_after s) (a_allocated s) (a_tmp s) (a_freed s) (a_new_free s) (a_min_free s) (a_last_free s) (a_last_tmp s) (a_count s) q (a_t s).
Definition set_allocated (b : block_set T) (s : astate) : astate := AS (a_free s) (a_before s) (a_after s) b (a_tmp s) (a_freed s) (a_new_free s) (a_min_free s) (a_last_free s) (a_last_tmp s) (a_count s) (a_queue s) (a_t s).
Definition set_tmp (b : block_set T) (s : astate) : astate := AS (a_free s) (a_before s) (a_after s) (a_allocated s) b (a_freed s) (a_new_free s) (a_min_free s) (a_last_free s) (a_last_tmp s) (a_count s) (a_queue s) (a_t s).
Definition set_freed (b : block_set T) (s : astate) : astate := AS (a_free s) (a_before s) (a_after s) (a_allocated s) (a_tmp s) b (a_new_free s) (a_min_free s) (a_last_free s) (a_last_tmp s) (a_count s) (a_queue s) (a_t s).
Definition set_new_free (b : block_set T) (s : astate) : astate := AS (a_free s) (a_before s) (a_after s) (a_allocated s) (a_tmp s) (a_freed s) (Some b) (a_min_free s) (a_last_free s) (a_last_tmp s) (a_count s) (a_queue s) (a_t s).
Definition set_min_free (z : Z) (s : astate) : astate := AS (a_free s) (a_before s) (a_after s) (a_allocated s) (a_tmp s) (a_freed s) (a_new_free s) z (a_last_free s) (a_last_tmp s) (a_count s) (a_queue s) (a_t s).
Definition set_last (free tmp : Z) (s : astate) : astate := AS (a_free s) (a_before s) (a_after s) (a_allocated s) (a_tmp s) (a_freed s) (a_new_free s) (a_min_free s) free tmp (a_count s) (a_queue s) (a_t s).

Abbreviation K := (M astate).

(** An operation of a set. *)
Definition lift {A} (m : B A) : K A := fun s => match m (a_t s) with Ret a t => Ret a (set_t t s) | Fault f => Fault f end.
Definition tr_failed : K bool := lift failed.
Definition tr_fail : K unit := modify (fun s => set_t (set_failed true (a_t s)) s).

(** ** The queue *)

Definition queue_ok (q : queue) : K unit :=
  assert_ (q_head q <? BLOCK_ALLOCATOR_QUEUE_LEN)%nat;; assert_ (q_tail q <? BLOCK_ALLOCATOR_QUEUE_LEN)%nat.

Definition block_allocator_queue_empty : K bool :=
  s ← get;
  queue_ok (a_queue s);;
  mret (q_head (a_queue s) =? q_tail (a_queue s))%nat.

Definition entry_at (q : queue) (i : nat) : K queue_entry := deref BadPointer (q_entry q !! i).

Fixpoint queue_find_loop (fuel : nat) (q : queue) (i : nat) (block : Z) : K (option nat) :=
  match fuel with
  | O => raise OutOfFuel
  | S fuel' =>
      if (i =? q_tail q)%nat then mret None
      else
        e ← entry_at q i;
        if negb (qe_removed e) && (block =? qe_block e) then mret (Some i) else queue_find_loop fuel' q (q_next i) block
  end.

(** [None] is -1. *)
Definition block_allocator_queue_find (block : Z) : K (option nat) :=
  s ← get;
  queue_ok (a_queue s);;
  queue_find_loop (S BLOCK_ALLOCATOR_QUEUE_LEN) (a_queue s) (q_head (a_queue s)) block.

Definition put_entry (i : nat) (e : queue_entry) (q : queue) : queue := Queue (<[i := e]> (q_entry q)) (q_head q) (q_tail q) (q_updating q).
Definition put_tail (tail : nat) (q : queue) : queue := Queue (q_entry q) (q_head q) tail (q_updating q).
Definition put_head (head : nat) (q : queue) : queue := Queue (q_entry q) head (q_tail q) (q_updating q).
Definition put_updating (u : bool) (q : queue) : queue := Queue (q_entry q) (q_head q) (q_tail q) u.

Definition block_allocator_queue_add_dummy : K unit :=
  e ← block_allocator_queue_empty;
  assert_ e;;
  s ← get;
  let q := a_queue s in
  old ← entry_at q (q_tail q);
  modify (set_queue (put_tail (q_next (q_tail q)) (put_entry (q_tail q) (QE (qe_block old) (qe_tmp old) (qe_free old) true) q))).

Definition queue_append (block : Z) (is_tmp is_free : bool) : K unit :=
  s ← get;
  let q := a_queue s in
  let new_tail := q_next (q_tail q) in
  queue_ok q;;
  assert_ (new_tail <? BLOCK_ALLOCATOR_QUEUE_LEN)%nat;;
  assert_ (negb (new_tail =? q_head q)%nat);;
  modify (set_queue (put_tail new_tail (put_entry (q_tail q) (QE block is_tmp is_free false) q))).

Definition block_allocator_queue_add (block : Z) (is_tmp is_free : bool) : K unit :=
  ret ← block_allocator_queue_find block;
  match ret with
  | Some index =>
      s ← get;
      let q := a_queue s in
      e ← entry_at q index;
      assert_ (Bool.eqb (qe_tmp e) is_tmp);;
      assert_ (negb (Bool.eqb (qe_free e) is_free));;
      modify (set_queue (put_entry index (QE (qe_block e) (qe_tmp e) (qe_free e) true) q));;
      if negb (index =? q_head q)%nat || negb (q_updating q) then mret tt else queue_append block is_tmp is_free
  | None => queue_append block is_tmp is_free
  end.

Definition block_allocator_queue_peek_head : K queue_entry :=
  e ← block_allocator_queue_empty;
  assert_ (negb e);;
  s ← get;
  entry_at (a_queue s) (q_head (a_queue s)).

Definition block_allocator_queue_remove_head (entry : queue_entry) : K unit :=
  e ← block_allocator_queue_peek_head;
  assert_ (qe_block e =? qe_block entry);;
  modify (fun s => set_queue (put_head (q_next (q_head (a_queue s))) (a_queue s)) s).

Fixpoint queue_free_loop (fuel : nat) (block : Z) : K Z :=
  match fuel with
  | O => raise OutOfFuel
  | S fuel' =>
      index ← block_allocator_queue_find block;
      match index with
      | None => mret block
      | Some index =>
          s ← get;
          e ← entry_at (a_queue s) index;
          if qe_free e then mret block else queue_free_loop fuel' (u64 (block + 1))
      end
  end.

(** Every round meets another entry of the queue. *)
Definition block_allocator_queue_find_free_block (block : Z) : K Z := queue_free_loop (S BLOCK_ALLOCATOR_QUEUE_LEN) block.

Definition block_allocator_allocation_queued (block : Z) (is_tmp : bool) : K bool :=
  index ← block_allocator_queue_find block;
  match index with
  | None => mret false
  | Some index =>
      s ← get;
      e ← entry_at (a_queue s) index;
      mret (Bool.eqb (qe_tmp e) is_tmp && negb (qe_free e))
  end.

(** ** The search for a free block *)

(** [fs->allocated] *)
Definition active_sets (s : astate) : list (block_set T) := a_before s ++ [a_allocated s; a_tmp s] ++ a_after s.

(** [None]: the transaction has failed. *)
Fixpoint skip_allocated (sets : list (block_set T)) (min_block block : Z) : K (option Z) :=
  match sets with
  | [] => mret (Some block)
  | set :: sets' =>
      block' ← lift (block_set_find_next_block set block false);
      f ← tr_failed;
      if f : bool then mret None
      else assert_ (block' >=? min_block);; skip_allocated sets' min_block block'
  end.

Fixpoint find_free_loop (fuel : nat) (min_block block : Z) : K Z :=
  match fuel with
  | O => raise OutOfFuel
  | S fuel' =>
      s ← get;
      block ← lift (block_set_find_next_block (a_free s) block true);
      f ← tr_failed;
      if f : bool then mret 0
      else if block <? min_block then assert_ (block =? 0);; mret 0
      else
        let min_block := block in
        r ← skip_allocated (active_sets s) min_block block;
        match r with
        | None => mret 0
        | Some block =>
            block ← block_allocator_queue_find_free_block block;
            if negb (block =? min_block) then find_free_loop fuel' min_block block else mret block
        end
  end.

(** Every round starts at a later block of the device. *)
Definition find_free_block (min_block_in : Z) : K Z :=
  s ← get; find_free_loop (S (S (Z.to_nat (a_count s)))) min_block_in min_block_in.

(** ** Changes of the sets *)

Definition block_allocator_add_allocated (block : Z) (is_tmp : bool) : K unit :=
  s ← get;
  if is_tmp then
    set' ← lift (block_set_add_block (a_tmp s) block);
    modify (set_tmp set');;
    modify (fun s => set_last (a_last_free s) (u64 (block + 1)) s)
  else
    set' ← lift (block_set_add_block (a_allocated s) block);
    modify (set_allocated set');;
    if block <? a_min_free s then
      new_free ← deref AssertFailed (a_new_free s);
      set' ← lift (block_set_remove_block new_free block);
      modify (set_new_free set');;
      modify (fun s => set_last (u64 (block + 1)) (a_last_tmp s) s)
    else mret tt.

(** Add to the new free set, which there is when [min_free_block] is set. *)
Definition add_new_free (block : Z) : K unit :=
  s ← get;
  new_free ← deref AssertFailed (a_new_free s);
  set' ← lift (block_set_add_block new_free block);
  modify (set_new_free set').

Definition block_allocator_add_free (block : Z) (is_tmp : bool) : K unit :=
  assert_ (clean block);;
  s ← get;
  if is_tmp then
    x ← lift (block_set_block_in_set (a_allocated s) block);
    assert_ (negb x);;
    x ← lift (block_set_block_in_set (a_freed s) block);
    assert_ (negb x);;
    set' ← lift (block_set_remove_block (a_tmp s) block);
    modify (set_tmp set')
  else
    x ← lift (block_set_block_in_set (a_tmp s) block);
    assert_ (negb x);;
    x ← lift (block_set_block_in_set (a_allocated s) block);
    if x : bool then
      set' ← lift (block_set_remove_block (a_allocated s) block);
      modify (set_allocated set');;
      if block <? a_min_free s then add_new_free block else mret tt
    else if block <? a_min_free s then add_new_free block
    else
      set' ← lift (block_set_add_block (a_freed s) block);
      modify (set_freed set').

(** An [int] made of the 64-bit size of the device. *)
Definition loop_limit (block_count : Z) : Z := s32 (u64 (BLOCK_SET_MAX_DEPTH * BLOCK_SET_MAX_DEPTH * BLOCK_SET_MAX_DEPTH + block_count)).

(** The loop asserts that it has rounds left. *)
Fixpoint process_loop (limit : nat) : K unit :=
  e ← block_allocator_queue_empty;
  if e : bool then mret tt
  else
    match limit with
    | O => raise AssertFailed
    | S limit' =>
        entry ← block_allocator_queue_peek_head;
        (if qe_removed entry then mret tt
         else if qe_free entry then block_allocator_add_free (qe_block entry) (qe_tmp entry)
         else block_allocator_add_allocated (qe_block entry) (qe_tmp entry));;
        block_allocator_queue_remove_head entry;;
        process_loop limit'
    end.

Definition block_allocator_process_queue : K unit :=
  s ← get;
  assert_ (negb (q_updating (a_queue s)));;
  modify (fun s => set_queue (put_updating true (a_queue s)) s);;
  process_loop (Z.to_nat (loop_limit (a_count s)));;
  modify (fun s => set_queue (put_updating false (a_queue s)) s).

Definition block_allocator_suspend_set_updates : K unit := block_allocator_queue_add_dummy.

(** ** Allocating and freeing *)

Definition block_allocate_etc (is_tmp : bool) : K Z :=
  f ← tr_failed;
  if f : bool then mret 0
  else
    update_sets ← block_allocator_queue_empty;
    when update_sets (modify (fun s => set_last 0 (a_count s / 4 * 3) s));;
    s ← get;
    let min_block := if is_tmp then a_last_tmp s else a_last_free s in
    block ← find_free_block min_block;
    block ← (if block =? 0 then find_free_block 0 else mret block : K Z);
    if block =? 0 then
      f ← tr_failed;
      when (negb f) tr_fail;;
      mret 0
    else
      block_allocator_queue_add block is_tmp false;;
      when update_sets block_allocator_process_queue;;
      f ← tr_failed;
      mret (if f : bool then 0 else block).

Definition block_free_etc (block : Z) (is_tmp : bool) : K unit :=
  update_sets ← block_allocator_queue_empty;
  assert_ (clean block);;
  block_allocator_queue_add block is_tmp true;;
  when update_sets block_allocator_process_queue.

(** ** The commit (transaction.c) *)

(** Every round moves past a range of the set. *)
Fixpoint check_free_loop (fuel : nat) (set : block_set T) (min_free next_block : Z) : K bool :=
  match fuel with
  | O => raise OutOfFuel
  | S fuel' =>
      free_range ← lift (block_set_find_next_range set next_block);
      e ← block_range_empty free_range;
      if e : bool then mret false
      else
        let count := br_end free_range - br_start free_range in
        if count >=? min_free then mret true else check_free_loop fuel' set (min_free - count) (br_end free_range)
  end.
Definition transaction_check_free (set : block_set T) (min_free : Z) : K bool := check_free_loop (2 + length (bt_entries (bs_tree set))) set min_free 0.

Definition new_free_set : K (block_set T) := s ← get; deref NullDeref (a_new_free s).

(** A change of the new free set with the updates of the others suspended. *)
Definition new_free_op (op : block_set T -> B (block_set T)) (next : Z) : K Z :=
  block_allocator_suspend_set_updates;;
  new_set ← new_free_set;
  new_set ← lift (op new_set);
  modify (set_new_free new_set);;
  block_allocator_process_queue;;
  mret next.

Fixpoint merge_loop (fuel : nat) (set_d set_a : block_set T) (next_block : Z) : K unit :=
  match fuel with
  | O => raise OutOfFuel
  | S fuel' =>
      if next_block =? 0 then mret tt
      else
        modify (set_min_free next_block);;
        delete_range ← lift (block_set_find_next_range set_d next_block);
        add_range ← lift (block_set_find_next_range set_a next_block);
        o ← block_range_overlap delete_range add_range;
        assert_ (negb o);;
        before ← block_range_before delete_range add_range;
        next ← (if before : bool then
            assert_ (br_start delete_range >=? next_block);;
            modify (set_min_free (br_end delete_range));;
            new_free_op (fun new_set => block_set_remove_range new_set delete_range) (br_end delete_range)
          else
            ea ← block_range_empty add_range;
            if negb ea then
              assert_ (br_start add_range >=? next_block);;
              modify (set_min_free (br_end add_range));;
              new_free_op (fun new_set => block_set_add_range new_set add_range) (br_end add_range)
            else
              ed ← block_range_empty delete_range;
              assert_ ed;;
              mret 0 : K Z);
        f ← tr_failed;
        if f : bool then mret tt else merge_loop fuel' set_d set_a next
  end.

(** Every round moves past a range of one of the two sets. *)
Definition transaction_merge_free_sets (set_d set_a : block_set T) : K unit :=
  merge_loop (4 + length (bt_entries (bs_tree set_d)) + length (bt_entries (bs_tree set_a))) set_d set_a 1.
End allocator.
Arguments astate T : clear implicits.

(** ** Runs in which no access fails *)

Section calm_alloc.
Context {T : Type} {bt : block_tree T} (clean : Z -> bool).
Abbreviation calmK := (calm (a_t (T := T))).

Lemma calm_lift {A} (m : M tstate A) : calm (fun t => t) m -> calmK (lift m).
Proof. intros Hm s Hs. specialize (Hm (a_t s) Hs). unfold wlp, lift in *. by destruct (m (a_t s)). Qed.
Lemma calm_tr_failed : calmK tr_failed.
Proof. apply calm_lift, calm_failed. Qed.
#[local] Hint Resolve calm_lift calm_tr_failed : calm.
#[local] Hint Extern 1 (calm _ (modify _)) => (apply calm_modify; done) : calm.

Lemma calm_queue_ok q : calmK (queue_ok q).
Proof. unfold queue_ok. calm. Qed.
#[local] Hint Resolve calm_queue_ok : calm.
Lemma calm_queue_empty : calmK block_allocator_queue_empty.
Proof. unfold block_allocator_queue_empty. calm. Qed.
Lemma calm_entry_at q i : calmK (entry_at q i).
Proof. unfold entry_at. calm. Qed.
#[local] Hint Resolve calm_queue_empty calm_entry_at : calm.
Lemma calm_find_loop fuel q block : forall i, calmK (queue_find_loop fuel q i block).
Proof. induction fuel as [|fuel IH]; intros i; cbn [queue_find_loop]; calm. Qed.
#[local] Hint Resolve calm_find_loop : calm.
Lemma calm_queue_find block : calmK (block_allocator_queue_find block).
Proof. unfold block_allocator_queue_find. calm. Qed.
#[local] Hint Resolve calm_queue_find : calm.
Lemma calm_queue_add block is_tmp is_free : calmK (block_allocator_queue_add block is_tmp is_free).
Proof. unfold block_allocator_queue_add, queue_append. calm. Qed.
Lemma calm_free_loop fuel : forall block, calmK (queue_free_loop fuel block).
Proof. induction fuel as [|fuel IH]; intros block; cbn [queue_free_loop]; calm. Qed.
Lemma calm_skip sets m : forall b, calmK (skip_allocated sets m b).
Proof. induction sets as [|set sets IH]; intros b; cbn [skip_allocated]; calm. Qed.
#[local] Hint Resolve calm_free_loop calm_skip : calm.
Lemma calm_find_free_loop fuel : forall m b, calmK (find_free_loop fuel m b).
Proof. induction fuel as [|fuel IH]; intros m b; cbn [find_free_loop]; unfold block_allocator_queue_find_free_block; calm. Qed.
#[local] Hint Resolve calm_find_free_loop : calm.
Lemma calm_find_free m : calmK (find_free_block m).
Proof. unfold find_free_block. calm. Qed.
Lemma calm_add_allocated block is_tmp : calmK (block_allocator_add_allocated block is_tmp).
Proof. unfold block_allocator_add_allocated, block_set_add_block, block_set_remove_block. calm. Qed.
Lemma calm_add_free block is_tmp : calmK (block_allocator_add_free clean block is_tmp).
Proof. unfold block_allocator_add_free, add_new_free, block_set_add_block, block_set_remove_block. calm. Qed.
#[local] Hint Resolve calm_add_allocated calm_add_free : calm.
Lemma calm_process_loop limit : calmK (process_loop clean limit).
Proof. induction limit as [|limit IH]; cbn [process_loop]; unfold block_allocator_queue_remove_head, block_allocator_queue_peek_head; calm. Qed.
#[local] Hint Resolve calm_process_loop : calm.
Lemma calm_process : calmK (block_allocator_process_queue clean).
Proof. unfold block_allocator_process_queue. calm. Qed.
#[local] Hint Resolve calm_process : calm.
Lemma calm_new_free_op op next : (forall set, calm (fun t => t) (op set)) -> calmK (new_free_op clean op next).
Proof. intros Hop. unfold new_free_op, block_allocator_suspend_set_updates, block_allocator_queue_add_dummy, new_free_set. calm. Qed.
#[local] Hint Resolve calm_new_free_op : calm.
Lemma calm_merge fuel set_d set_a : forall next, calmK (merge_loop clean fuel set_d set_a next).
Proof. induction fuel as [|fuel IH]; intros next; cbn [merge_loop]; calm. Qed.

Lemma calm_wlp_bind {A C} (m : M (astate T) A) (k : A -> M (astate T) C) P (Q : C -> astate T -> Prop) s : calmK m -> quiet (a_t s) -> wlp m P s ->
  (forall a s', P a s' -> quiet (a_t s') -> ts_failed (a_t s') = ts_failed (a_t s) -> wlp (k a) Q s') -> wlp (m ≫= k) Q s.
Proof.
  intros Hm Hs HP Hk. specialize (Hm s Hs). unfold wlp, mbind, M_bind in *. destruct (m s) as [a s'|]; [|done]. destruct Hm as [H1 H2]. by apply Hk.
Qed.
End calm_alloc.
#[export] Hint Resolve calm_tr_failed calm_queue_empty calm_queue_add calm_find_free calm_process : calm.

(** ** The queue *)

Definition queue_wf (q : queue) : Prop := length (q_entry q) = BLOCK_ALLOCATOR_QUEUE_LEN /\ (q_head q < BLOCK_ALLOCATOR_QUEUE_LEN)%nat /\ (q_tail q < BLOCK_ALLOCATOR_QUEUE_LEN)%nat.
(** Between requests. *)
Definition queue_idle (q : queue) : Prop := queue_wf q /\ q_updating q = false /\ q_head q = q_tail q.

(** The sizes of a device with which the limit of the loop does not overflow. *)
Definition small_count (block_count : Z) : Prop := 0 <= block_count < 2 ^ 31 - 729.
Lemma small_limit block_count : small_count block_count -> 0 < loop_limit block_count.
Proof. unfold small_count, loop_limit, s32, u64, BLOCK_SET_MAX_DEPTH. intros H. rewrite (Z.mod_small (9 * 9 * 9 + _)) by lia. rewrite Z.mod_small by lia. lia. Qed.
Lemma small_nonneg block_count : small_count block_count -> 0 <= block_count.
Proof. by intros []. Qed.

Lemma q_next_lt i : (q_next i < BLOCK_ALLOCATOR_QUEUE_LEN)%nat.
Proof. unfold q_next. apply Nat.mod_upper_bound. done. Qed.
Lemma q_next_ne i : (i < BLOCK_ALLOCATOR_QUEUE_LEN)%nat -> q_next i <> i.
Proof. unfold q_next, BLOCK_ALLOCATOR_QUEUE_LEN. intros H. destruct (decide (i + 1 < 324)%nat); [rewrite Nat.mod_small; lia|]. replace (i + 1)%nat with 324%nat by lia. cbn. lia. Qed.

Section commit.
Context {T : Type} {bt : block_tree T} {laws : block_tree_laws T} (clean : Z -> bool) (min max : Z).
Implicit Types (s : astate T) (set : block_set T).

Lemma wp_lift {A} (m : B A) (Q : A -> astate T -> Prop) s : wp m (fun a t => Q a (set_t t s)) (a_t s) -> wp (lift m) Q s.
Proof. unfold wp, lift. by destruct (m (a_t s)). Qed.

Lemma wp_tr_failed (Q : bool -> astate T -> Prop) s : Q (ts_failed (a_t s)) s -> wp tr_failed Q s.
Proof. intros H. apply wp_lift, wp_failed. by destruct s. Qed.

Lemma wp_queue_ok q (Q : unit -> astate T -> Prop) s : queue_wf q -> Q tt s -> wp (queue_ok q) Q s.
Proof. intros (_ & H1 & H2) HQ. unfold queue_ok. apply wp_bind, wp_assert; [by apply Nat.ltb_lt|]. apply wp_assert; [by apply Nat.ltb_lt|done]. Qed.

Lemma wp_queue_empty (Q : bool -> astate T -> Prop) s : queue_wf (a_queue s) -> Q (q_head (a_queue s) =? q_tail (a_queue s))%nat s -> wp block_allocator_queue_empty Q s.
Proof. intros Hq HQ. unfold block_allocator_queue_empty. apply wp_bind, wp_get. apply wp_bind, wp_queue_ok; [done|]. by apply wp_ret. Qed.

Lemma wp_entry q i (Q : queue_entry -> astate T -> Prop) s : queue_wf q -> (i < BLOCK_ALLOCATOR_QUEUE_LEN)%nat -> (forall e, q_entry q !! i = Some e -> Q e s) -> wp (entry_at q i) Q s.
Proof. intros (Hl & _) Hi HQ. destruct (lookup_lt_is_Some_2 (q_entry q) i) as [e E]; [lia|]. unfold entry_at. rewrite E. by apply wp_ret, HQ. Qed.

(** What a change of the new free set leaves alone. *)
Definition apart s s' : Prop := a_free s' = a_free s /\ a_allocated s' = a_allocated s /\ a_tmp s' = a_tmp s /\ a_freed s' = a_freed s /\ a_before s' = a_before s /\ a_after s' = a_after s /\ a_count s' = a_count s.

Lemma apart_trans s1 s2 s3 : apart s1 s2 -> apart s2 s3 -> apart s1 s3.
Proof. unfold apart. intros (? & ? & ? & ? & ? & ? & ?) (? & ? & ? & ? & ? & ? & ?). split_and!; congruence. Qed.

(** What the queue does with an entry. *)
Definition process_entry (entry : queue_entry) : M (astate T) unit :=
  if qe_removed entry then mret tt
  else if qe_free entry then block_allocator_add_free clean (qe_block entry) (qe_tmp entry)
  else block_allocator_add_allocated (qe_block entry) (qe_tmp entry).

Lemma peek_wp entry (Q : queue_entry -> astate T -> Prop) s : queue_wf (a_queue s) -> q_head (a_queue s) <> q_tail (a_queue s) -> q_entry (a_queue s) !! q_head (a_queue s) = Some entry -> Q entry s ->
  wp block_allocator_queue_peek_head Q s.
Proof.
  intros Hwf Hne E HQ. unfold block_allocator_queue_peek_head. apply wp_bind, wp_queue_empty; [done|]. apply Nat.eqb_neq in Hne. rewrite Hne. apply wp_bind, wp_assert; [done|]. apply wp_bind, wp_get.
  apply wp_entry; [done|apply Hwf|]. intros e1 E1. rewrite E in E1. by injection E1 as <-.
Qed.

(** A queue with one entry is processed in one round and is idle then. *)
Lemma process_one_wp entry (Q : unit -> astate T -> Prop) s : queue_wf (a_queue s) -> q_updating (a_queue s) = false -> q_tail (a_queue s) = q_next (q_head (a_queue s)) ->
  q_entry (a_queue s) !! q_head (a_queue s) = Some entry -> small_count (a_count s) ->
  wp (process_entry entry) (fun _ s' => a_queue s' = put_updating true (a_queue s) /\ forall q, queue_idle q -> Q tt (set_queue q s')) (set_queue (put_updating true (a_queue s)) s) ->
  wp (block_allocator_process_queue clean) Q s.
Proof.
  intros Hwf Hu Htl He Hc Hact. pose proof Hwf as (Hl & Hh & Ht). unfold block_allocator_process_queue. apply wp_bind, wp_get. apply wp_bind, wp_assert; [by rewrite Hu|]. apply wp_bind, wp_modify.
  destruct (Z.to_nat (loop_limit (a_count s))) as [|limit] eqn:El; [pose proof (small_limit (a_count s)); intuition lia|]. cbn [process_loop]. set (s1 := set_queue _ s) in *. assert (q_head (a_queue s) <> q_tail (a_queue s)) as Hne by (rewrite Htl; intros Hx; symmetry in Hx; by apply q_next_ne in Hx).
  apply wp_bind, wp_bind, wp_queue_empty; [done|]. assert ((q_head (a_queue s1) =? q_tail (a_queue s1))%nat = false) as -> by (by apply Nat.eqb_neq). apply wp_bind, (peek_wp entry); [done|done|done|].
  apply wp_bind. eapply wp_mono; [exact Hact|]. intros ? s2 [Eq HQ]. unfold block_allocator_queue_remove_head. apply wp_bind, wp_bind. apply (peek_wp entry); [by rewrite Eq|by rewrite Eq|by rewrite Eq|].
  apply wp_bind, wp_assert; [apply Z.eqb_refl|]. apply wp_modify. set (s3 := set_queue _ s2). assert (queue_wf (a_queue s3)) as Hwf3 by (unfold s3; cbn; rewrite Eq; split; [done|]; split; [apply q_next_lt|done]).
  assert ((q_head (a_queue s3) =? q_tail (a_queue s3))%nat = true) as Heq by (apply Nat.eqb_eq; cbn; by rewrite Eq). destruct limit; cbn [process_loop]; (apply wp_bind, wp_queue_empty; [done|]; rewrite Heq; apply wp_ret, wp_modify;
    apply (HQ (put_updating false (a_queue s3))); split; [done|]; split; [done|by apply Nat.eqb_eq]).
Qed.

Lemma new_free_op_wp op e set (P : block_set T -> tstate -> Prop) s : a_new_free s = Some set -> queue_idle (a_queue s) -> small_count (a_count s) -> wp (op set) P (a_t s) ->
  wp (new_free_op clean op e) (fun r s' => r = e /\ apart s s' /\ queue_idle (a_queue s') /\ exists set', a_new_free s' = Some set' /\ P set' (a_t s')) s.
Proof.
  intros En (Hwf & Hu & He) Hc Hop. pose proof Hwf as (Hl & Hh & Ht). unfold new_free_op, block_allocator_suspend_set_updates, block_allocator_queue_add_dummy.
  apply wp_bind, wp_bind, wp_queue_empty; [done|]. rewrite He, Nat.eqb_refl. apply wp_bind, wp_assert; [done|]. apply wp_bind, wp_get. apply wp_bind, wp_entry; [done|done|]. intros old Eold. apply wp_modify.
  set (s1 := set_queue _ s). unfold new_free_set. apply wp_bind, wp_bind, wp_get. change (a_new_free s1) with (a_new_free s). rewrite En. apply wp_ret. apply wp_bind, wp_lift. eapply wp_mono; [exact Hop|]. intros set' t' HP.
  apply wp_bind, wp_modify. apply wp_bind. apply (process_one_wp (QE (qe_block old) (qe_tmp old) (qe_free old) true)); [|done|cbn; by rewrite He|cbn; rewrite He; apply list_lookup_insert_eq; lia|done|].
  - split; [cbn; by rewrite length_insert|]. split; [done|apply q_next_lt].
  - apply wp_ret. split; [done|]. intros q Hq. apply wp_ret. split; [done|]. split; [done|]. split; [done|]. by exists set'.
Qed.

(** ** The new free set *)

Context (set_d set_a : block_set T) (I : Z -> Prop) (Hd : set_ok min max set_d) (Ha : set_ok min max set_a)
  (Hsub : forall x, in_blocks set_d x -> I x) (Hout : forall x, in_blocks set_a x -> ~ I x) (si : astate T) (V : Prop).

(** What it should hold once everything below [next] is done. *)
Definition merged (next x : Z) : Prop := if decide (x < next) then (I x /\ ~ in_blocks set_d x) \/ in_blocks set_a x else I x.

Record merge_inv (next : Z) s : Prop := {
  mi_idle : queue_idle (a_queue s);
  mi_count : small_count (a_count s);
  mi_apart : apart si s;
  mi_set : exists set, a_new_free s = Some set /\ (set_inv min max set (a_t s) /\ (ts_failed (a_t s) = false -> V -> bt_valid (bs_tree set) = true)) /\ (ts_failed (a_t s) = false -> forall x, in_blocks set x <-> merged next x);
}.

(** The ranges the round looks at: whole ones, or none. *)
Definition seen set (next : Z) (r : block_range) (t : tstate) : Prop :=
  (br_start r = br_end r /\ (br_start r = 0 \/ in_blocks set (br_start r)) /\ (ts_failed t = true \/ forall x, next <= x -> ~ in_blocks set x)) \/ whole (set_ranges set) next r.

Lemma seen_order set next r t : seen set next r t -> 0 <= next -> br_start r <= br_end r /\ (br_start r < br_end r -> 0 < br_start r).
Proof. intros [(E & _)|(H1 & H2 & _)] Hn; lia. Qed.

Lemma ranges_apart next r r' t t' : 0 < next -> seen set_d next r t -> seen set_a next r' t' -> forall x, br_start r <= x < br_end r -> x <> br_start r' \/ br_start r' = 0.
Proof.
  intros Hn Hr Hr' x Hx. destruct (Z.eq_dec x (br_start r')) as [->|]; [|by left]. right. destruct (Z.eq_dec (br_start r') 0); [done|]. exfalso.
  assert (in_blocks set_d (br_start r')) as H1 by (destruct Hr as [(? & _)|(_ & _ & H & _)]; [lia|by apply H]).
  assert (in_blocks set_a (br_start r')) as H2 by (destruct Hr' as [(_ & [?|?] & _)|(_ & ? & H & _)]; [done|done|apply H; lia]). by apply (Hout _ H2), Hsub.
Qed.
Lemma ranges_apart' next r r' t t' : 0 < next -> seen set_d next r t -> seen set_a next r' t' -> forall x, br_start r' <= x < br_end r' -> x <> br_start r \/ br_start r = 0.
Proof.
  intros Hn Hr Hr' x Hx. destruct (Z.eq_dec x (br_start r)) as [->|]; [|by left]. right. destruct (Z.eq_dec (br_start r) 0); [done|]. exfalso.
  assert (in_blocks set_a (br_start r)) as H2 by (destruct Hr' as [(? & _)|(_ & _ & H & _)]; [lia|by apply H]).
  assert (in_blocks set_d (br_start r)) as H1 by (destruct Hr as [(_ & [?|?] & _)|(_ & ? & H & _)]; [done|done|apply H; lia]). by apply (Hout _ H2), Hsub.
Qed.

Lemma merge_overlap_wp next r r' t t' (Q : bool -> astate T -> Prop) s : 0 < next -> seen set_d next r t -> seen set_a next r' t' -> Q false s -> wp (block_range_overlap r r') Q s.
Proof.
  intros Hn Hr Hr' HQ. destruct (seen_order _ _ _ _ Hr ltac:(lia)) as [O1 O2], (seen_order _ _ _ _ Hr' ltac:(lia)) as [O1' O2'].
  pose proof (ranges_apart _ _ _ _ _ Hn Hr Hr') as A1. pose proof (ranges_apart' _ _ _ _ _ Hn Hr Hr') as A2. unfold block_range_overlap. apply wp_bind, wp_in_range; [done|].
  assert ((br_start r' >=? br_start r) && (br_start r' <? br_end r) = false) as ->.
  { rewrite Z.geb_leb. destruct (Z.leb_spec (br_start r) (br_start r')), (Z.ltb_spec (br_start r') (br_end r)); try done. destruct (A1 (br_start r')); lia. }
  apply wp_in_range; [done|]. assert ((br_start r >=? br_start r') && (br_start r <? br_end r') = false) as ->; [|done].
  rewrite Z.geb_leb. destruct (Z.leb_spec (br_start r') (br_start r)), (Z.ltb_spec (br_start r) (br_end r')); try done. destruct (A2 (br_start r)); lia.
Qed.

Lemma before_wp r r' (Q : bool -> astate T -> Prop) s : br_start r <= br_end r -> br_start r' <= br_end r' ->
  Q (negb (br_start r =? br_end r) && ((br_start r' =? br_end r') || (br_start r <? br_start r'))) s -> wp (block_range_before r r') Q s.
Proof.
  intros H H' HQ. unfold block_range_before. apply wp_bind, wp_empty; [done|]. destruct (br_start r =? br_end r); [by apply wp_ret|]. apply wp_bind, wp_empty; [done|]. destruct (br_start r' =? br_end r'); by apply wp_ret.
Qed.

Lemma merge_inv_t next s t : merge_inv next s -> (ts_failed (a_t s) = true -> ts_failed t = true) -> merge_inv next (set_t t s).
Proof.
  intros [H1 H2 H3 (set & E & [[Hi Hs] Hv] & HX)] Hf. split; [done|done|done|]. exists set. split; [done|]. cbn [set_t a_t]. destruct (ts_failed t) eqn:Ht; [split; [split; [split; [done|by left]|done]|done]|].
  destruct (ts_failed (a_t s)); [by specialize (Hf eq_refl)|]. split; [|intros _; by apply HX]. split; [|intros _; by apply Hv]. split; [done|]. right. by destruct Hs.
Qed.

Lemma merge_delete_wp next r s : merge_inv next s -> whole (set_ranges set_d) next r -> (ts_failed (a_t s) = false -> forall x, next <= x < br_end r -> ~ in_blocks set_a x) ->
  wp (new_free_op clean (fun new_set => block_set_remove_range new_set r) (br_end r)) (fun e s' => e = br_end r /\ merge_inv (br_end r) s' /\ (ts_failed (a_t s) = true -> ts_failed (a_t s') = true)) s.
Proof.
  intros [H1 H2 H3 (set & E & [Hinv Hv] & HX)] Hr Hna. pose proof Hr as (R1 & R2 & R3 & R4 & R5). eapply wp_mono.
  - eapply (new_free_op_wp _ _ set _ s E H1 H2). apply (set_remove_wp min max); [exact Hinv|eapply whole_bounds; [exact Hd|exact Hr]|]. intros Hf x Hx. apply HX; [done|]. unfold merged. rewrite decide_False by lia. by apply Hsub, R3.
  - cbn. intros e s' (-> & Hap & Hidle & set' & E' & [Hinv' Hv'] & HX'). split; [done|]. split; [|intros Hf; destruct (ts_failed (a_t s')) eqn:Hf'; [done|]; destruct (HX' eq_refl); congruence].
    split; [done|destruct Hap as (_ & _ & _ & _ & _ & _ & ->); done|by eapply apart_trans|]. exists set'. split; [done|]. split; [split; [done|intros Hf _; by apply Hv']|]. intros Hf x. destruct (HX' Hf) as [Hf0 HX2]. rewrite HX2, HX by done. unfold merged.
    specialize (Hna Hf0 x). specialize (R3 x). specialize (R4 x). specialize (Hsub x). specialize (Hout x). destruct (Z.lt_ge_cases x next), (Z.lt_ge_cases x (br_start r)), (Z.lt_ge_cases x (br_end r)); repeat case_decide; try (exfalso; lia); unfold in_blocks in *; intuition lia.
Qed.

Lemma merge_add_wp next r s : merge_inv next s -> whole (set_ranges set_a) next r -> (ts_failed (a_t s) = false -> forall x, next <= x < br_end r -> ~ in_blocks set_d x) ->
  wp (new_free_op clean (fun new_set => block_set_add_range new_set r) (br_end r)) (fun e s' => e = br_end r /\ merge_inv (br_end r) s' /\ (ts_failed (a_t s) = true -> ts_failed (a_t s') = true)) s.
Proof.
  intros [H1 H2 H3 (set & E & [Hinv Hv] & HX)] Hr Hnd. pose proof Hr as (R1 & R2 & R3 & R4 & R5). eapply wp_mono.
  - eapply (new_free_op_wp _ _ set _ s E H1 H2). apply (set_add_wp min max); [exact Hinv|eapply whole_bounds; [exact Ha|exact Hr]|]. intros Hf x Hx Hin. apply HX in Hin; [|done]. unfold merged in Hin. rewrite decide_False in Hin by lia. by apply (Hout x (R3 x Hx)).
  - cbn. intros e s' (-> & Hap & Hidle & set' & E' & [Hinv' Hv'] & HX'). split; [done|]. split; [|intros Hf; destruct (ts_failed (a_t s')) eqn:Hf'; [done|]; destruct (HX' eq_refl); congruence].
    split; [done|destruct Hap as (_ & _ & _ & _ & _ & _ & ->); done|by eapply apart_trans|]. exists set'. split; [done|]. split; [split; [done|intros Hf _; by apply Hv']|]. intros Hf x. destruct (HX' Hf) as [Hf0 HX2]. rewrite HX2, HX by done. unfold merged.
    specialize (Hnd Hf0 x). specialize (R3 x). specialize (R4 x). specialize (Hsub x). specialize (Hout x). destruct (Z.lt_ge_cases x next), (Z.lt_ge_cases x (br_start r)), (Z.lt_ge_cases x (br_end r)); repeat case_decide; try (exfalso; lia); unfold in_blocks in *; intuition lia.
Qed.

(** What is left to look at. *)
Definition todo (next : Z) : nat := left_after (set_ranges set_d) next + left_after (set_ranges set_a) next.

Lemma todo_lt set next r : set = set_d \/ set = set_a -> whole (set_ranges set) next r -> (todo (br_end r) < todo next)%nat.
Proof.
  intros Hset Hw. pose proof Hw as (R1 & R2 & _). pose proof (left_after_lt _ _ _ (br_end r) Hw ltac:(lia)). unfold todo.
  pose proof (left_after_mono (set_ranges set_d) next (br_start r) R1). pose proof (left_after_mono (set_ranges set_a) next (br_start r) R1).
  pose proof (left_after_mono (set_ranges set_d) next (br_end r) ltac:(lia)). pose proof (left_after_mono (set_ranges set_a) next (br_end r) ltac:(lia)). destruct Hset as [->| ->]; lia.
Qed.

Definition merge_done s : Prop := queue_idle (a_queue s) /\ apart si s /\
  (ts_failed (a_t s) = false -> exists set, a_new_free s = Some set /\ (set_ok min max set /\ bs_initial set = block_range_clear /\ (V -> bt_valid (bs_tree set) = true)) /\ forall x, in_blocks set x <-> (I x /\ ~ in_blocks set_d x) \/ in_blocks set_a x).

Lemma merge_failed next s : merge_inv next s -> ts_failed (a_t s) = true -> merge_done s.
Proof. intros [H1 _ H3 _] Hf. split; [done|]. split; [done|]. congruence. Qed.

(** No range in either set: what is merged is all there is. *)
Lemma merge_all next s : merge_inv next s -> ts_failed (a_t s) = false -> (forall x, next <= x -> ~ in_blocks set_d x) -> (forall x, next <= x -> ~ in_blocks set_a x) -> merge_done s.
Proof.
  intros [H1 _ H3 (set & E & [[Hi Hs] Hv] & HX)] Hf Hnd Hna. split; [done|]. split; [done|]. intros _. exists set. split; [done|]. destruct Hs as [|[Hok _]]; [congruence|]. split; [split; [done|]; split; [done|by apply Hv]|]. intros x. rewrite HX by done. unfold merged.
  specialize (Hnd x). specialize (Hna x). case_decide; [done|]. assert (next <= x) by lia. tauto.
Qed.

Lemma merge_loop_wp fuel : forall next s, (todo next + 1 < fuel)%nat -> 0 < next -> ts_failed (a_t s) = false -> merge_inv next s -> wp (merge_loop clean fuel set_d set_a next) (fun _ s' => merge_done s') s.
Proof.
  induction fuel as [|fuel IH]; intros next s Hfuel Hn Hf Hinv; [lia|]. cbn [merge_loop]. destruct (Z.eqb_spec next 0); [lia|]. apply wp_bind, wp_modify.
  set (s0 := set_min_free next s). assert (merge_inv next s0) as Hinv0 by (destruct Hinv; by split).
  apply wp_bind, wp_lift. eapply wp_mono; [eapply next_range_wp; [exact Hd|lia]|]. intros rd t1 [Hm1 Hrd]. fold (seen set_d next rd t1) in Hrd.
  apply wp_bind, wp_lift. eapply wp_mono; [eapply next_range_wp; [exact Ha|lia]|]. intros ra t2 [Hm2 Hra]. fold (seen set_a next ra t2) in Hra. cbn [set_t a_t] in Hm2, Hra |- *.
  apply (merge_inv_t _ _ t1) in Hinv0; [|done]. apply (merge_inv_t _ _ t2) in Hinv0; [|done]. set (s1 := set_t t2 _) in *. change (ts_failed t2) with (ts_failed (a_t s1)) in Hm2.
  destruct (seen_order _ _ _ _ Hrd ltac:(lia)) as [O1 O2], (seen_order _ _ _ _ Hra ltac:(lia)) as [O1' O2'].
  apply wp_bind. eapply merge_overlap_wp; [exact Hn|exact Hrd|exact Hra|]. apply wp_bind, wp_assert; [done|]. apply wp_bind, before_wp; [done|done|].
  (* the end of the round *)
  assert (forall e s', 0 < e -> (todo e < todo next)%nat -> merge_inv e s' -> wp (f ← tr_failed; if f : bool then mret tt else merge_loop clean fuel set_d set_a e) (fun _ s' => merge_done s') s') as Hend.
  { intros e s' He Ht Hi. apply wp_bind, wp_tr_failed. destruct (ts_failed (a_t s')) eqn:Hf'; [apply wp_ret; by eapply merge_failed|]. apply IH; try done. lia. }
  apply wp_bind. destruct (Z.eqb_spec (br_start rd) (br_end rd)) as [Ed|Ed]; cbn [negb andb].
  - apply wp_bind, wp_empty; [done|]. destruct (Z.eqb_spec (br_start ra) (br_end ra)) as [Ea|Ea]; cbn [negb].
    + apply wp_bind, wp_empty; [done|]. rewrite Ed, Z.eqb_refl. apply wp_bind, wp_assert; [done|]. apply wp_ret. apply wp_bind, wp_tr_failed. destruct (ts_failed (a_t s1)) eqn:Hf1; [apply wp_ret; by eapply merge_failed|].
      destruct fuel as [|fuel]; [lia|]. cbn [merge_loop Z.eqb]. apply wp_ret. eapply merge_all; [exact Hinv0|done| |].
      * destruct Hrd as [(_ & _ & [Hx|?])|(_ & ? & _)]; [|done|lia]. specialize (Hm2 Hx). congruence.
      * destruct Hra as [(_ & _ & [Hx|?])|(_ & ? & _)]; [|done|lia]. change (ts_failed (a_t s1) = true) in Hx. congruence.
    + destruct Hra as [(? & _)|Hra]; [done|]. pose proof Hra as (R1 & R2 & _). apply wp_bind, wp_assert; [apply Z.geb_le; lia|]. apply wp_bind, wp_modify. set (s2 := set_min_free _ s1).
      eapply wp_mono; [apply (merge_add_wp next ra s2); [destruct Hinv0; by split|done|]|].
      * intros Hf2 x Hx. destruct Hrd as [(_ & _ & [Hy|Hy])|(_ & ? & _)]; [|apply Hy; lia|lia]. specialize (Hm2 Hy). change (ts_failed (a_t s1) = false) in Hf2. congruence.
      * intros e s' (-> & Hi & _). apply Hend; [lia|by eapply (todo_lt set_a); [right|]|done].
  - destruct Hrd as [(? & _)|Hrd]; [done|]. pose proof Hrd as (R1 & R2 & R3 & R4 & _). destruct ((br_start ra =? br_end ra) || (br_start rd <? br_start ra)) eqn:Eb.
    + apply wp_bind, wp_assert; [apply Z.geb_le; lia|]. apply wp_bind, wp_modify. set (s2 := set_min_free _ s1). eapply wp_mono; [apply (merge_delete_wp next rd s2); [destruct Hinv0; by split|done|]|].
      * intros Hf2 x Hx Hin. assert (next <= x < br_start rd \/ br_start rd <= x < br_end rd) as [Hlt|Hge] by lia; [|by apply (Hout _ Hin), Hsub, R3]. destruct Hra as [(_ & _ & [Hy|Hy])|(_ & ? & _ & Hy & _)].
        -- change (ts_failed (a_t s1) = true) in Hy. change (ts_failed (a_t s1) = false) in Hf2. congruence.
        -- apply (Hy x); [lia|done].
        -- apply orb_true_iff in Eb as [?%Z.eqb_eq|?%Z.ltb_lt]; [lia|]. apply (Hy x); [lia|done].
      * intros e s' (-> & Hi & _). apply Hend; [lia|by eapply (todo_lt set_d); [left|]|done].
    + apply orb_false_iff in Eb as [Ea%Z.eqb_neq Eb%Z.ltb_ge]. apply wp_bind, wp_empty; [done|]. destruct (Z.eqb_spec (br_start ra) (br_end ra)); [done|]. cbn [negb]. destruct Hra as [(? & _)|Hra]; [done|]. pose proof Hra as (A1 & A2 & A3 & _).
      apply wp_bind, wp_assert; [apply Z.geb_le; lia|]. apply wp_bind, wp_modify. set (s2 := set_min_free _ s1). eapply wp_mono; [apply (merge_add_wp next ra s2); [destruct Hinv0; by split|done|]|].
      * intros Hf2 x Hx Hin. assert (next <= x < br_start ra \/ br_start ra <= x < br_end ra) as [Hlt|Hge] by lia; [apply (R4 x); [lia|done]|]. by apply (Hout x (A3 x Hge)), Hsub.
      * intros e s' (-> & Hi & _). apply Hend; [lia|by eapply (todo_lt set_a); [right|]|done].
Qed.
End commit.

(** A copy [set_i] of the free set is made the new one. *)
Lemma merge_wp {T} {bt : block_tree T} {laws : block_tree_laws T} clean min max (set_i set_d set_a : block_set T) (V : Prop) (s : astate T) :
  set_inv min max set_i (a_t s) -> set_ok min max set_d -> set_ok min max set_a -> (forall x, in_blocks set_d x -> in_blocks set_i x) -> (forall x, in_blocks set_a x -> ~ in_blocks set_i x) ->
  a_new_free s = Some set_i -> queue_idle (a_queue s) -> small_count (a_count s) -> ts_failed (a_t s) = false -> (V -> bt_valid (bs_tree set_i) = true) ->
  wp (transaction_merge_free_sets clean set_d set_a) (fun _ s' => merge_done min max set_d set_a (in_blocks set_i) s V s') s.
Proof.
  intros Hi Hd Ha Hsub Hout En Hq Hc Hf Hv.
  assert (forall set, (left_after (set_ranges set) 1 <= S (length (bt_entries (bs_tree set))))%nat) as Hleft.
  { intros set. unfold left_after. etransitivity; [apply length_filter|]. unfold set_ranges. rewrite length_app. case_match; cbn; lia. }
  pose proof (Hleft set_d). pose proof (Hleft set_a). unfold transaction_merge_free_sets. apply merge_loop_wp; try done; [unfold todo; lia|].
  split; [done|done|by split_and!|]. exists set_i. split; [done|]. split; [done|]. intros _ x. unfold merged. case_decide; [|done]. destruct Hi as [_ [?|[Hok _]]]; [congruence|].
  pose proof (so_min _ _ _ Hok). split; [intros Hx; pose proof (in_blocks_bounds _ _ _ _ Hok Hx); lia|]. intros [[? _]|Hx]; [done|]. pose proof (in_blocks_bounds _ _ _ _ Ha Hx). lia.
Qed.

(** ** The search *)

Section search.
Context {T : Type} {bt : block_tree T} {laws : block_tree_laws T} (clean : Z -> bool) (min max : Z).
Implicit Types (s : astate T) (set : block_set T).

(** A block that can be taken. *)
Definition usable s (x : Z) : Prop := in_blocks (a_free s) x /\ Forall (fun set => ~ in_blocks set x) (active_sets s).

(** The search for one of [sets] changes nothing but the transaction. *)
Definition searched s s' : Prop := s' = set_t (a_t s') s.

Lemma searched_set_t t s : searched s (set_t t s).
Proof. done. Qed.
#[export] Instance searched_preorder : PreOrder searched.
Proof. split; [by intros []|]. intros s1 s2 s3 H1 H2. unfold searched in *. rewrite H2, H1. reflexivity. Qed.
Lemma searched_usable s s' x : searched s s' -> usable s' x <-> usable s x.
Proof. intros ->. done. Qed.

Lemma skip_wp sets : Forall (set_ok min max) sets -> forall min_block block s, 0 <= min_block <= block -> wp (skip_allocated sets min_block block)
  (fun r s' => searched s s' /\ match r with
    | None => ts_failed (a_t s') = true
    | Some b => (sets = [] \/ ts_failed (a_t s') = false) /\ ts_failed (a_t s') = ts_failed (a_t s) /\ block <= b /\ (b = block -> Forall (fun set => ~ in_blocks set b) sets) /\ forall x, block <= x < b -> Exists (fun set => in_blocks set x) sets
    end) s.
Proof.
  induction 1 as [|set sets Hok Hsets IH]; intros min_block block s Hb; cbn [skip_allocated].
  { apply wp_ret. split; [done|]. split; [by left|]. split; [done|]. split; [lia|]. split; [constructor|lia]. }
  apply wp_bind, wp_lift. eapply wp_mono; [eapply find_wp; [exact Hok|lia]|]. intros b t Hf. apply wp_bind, wp_tr_failed. cbn [set_t a_t]. destruct (ts_failed t) eqn:Ht; [apply wp_ret; done|].
  destruct Hf as [[Hsame (H1 & H2 & H3)]|[? _]]; [|congruence]. apply wp_bind, wp_assert; [apply Z.geb_le; lia|]. eapply wp_mono; [apply IH; lia|]. intros r s' [Hs' Hr].
  split; [by transitivity (set_t t s)|]. destruct r as [b'|]; [|done]. destruct Hr as (_ & R1 & R2 & R3 & R4). cbn [set_t a_t] in R1. split; [right; congruence|]. split; [congruence|]. split; [lia|]. split.
  - intros ->. assert (b = block) as -> by lia. constructor; [done|by apply R3].
  - intros x Hx. destruct (Z.lt_ge_cases x b); [left; apply H3; lia|right; apply R4; lia].
Qed.

Lemma queue_free_idle block (Q : Z -> astate T -> Prop) s : queue_idle (a_queue s) -> Q block s -> wp (block_allocator_queue_find_free_block block) Q s.
Proof.
  intros (Hwf & _ & He) HQ. unfold block_allocator_queue_find_free_block. cbn [queue_free_loop]. unfold block_allocator_queue_find. apply wp_bind, wp_bind, wp_get. apply wp_bind, wp_queue_ok; [done|].
  cbn [queue_find_loop]. rewrite He, Nat.eqb_refl. apply wp_ret. by apply wp_ret.
Qed.

(** The outcome of a search from [m]: the first block that can be taken, 0 when there is
    none, or the transaction has failed. *)
Definition free_found s (m r : Z) s' : Prop :=
  searched s s' /\ (ts_failed (a_t s') = true /\ r = 0 \/
    ts_failed (a_t s') = false /\ (r = 0 /\ (forall x, m <= x -> ~ usable s x) \/ 0 < r /\ m <= r /\ usable s r /\ forall x, m <= x < r -> ~ usable s x)).

Record sets_ok s : Prop := {
  sk_free : set_ok min max (a_free s);
  sk_active : Forall (set_ok min max) (active_sets s);
  sk_idle : queue_idle (a_queue s);
  sk_count : max <= a_count s;
}.

Lemma find_free_wp fuel : forall min_block block s0 s m, sets_ok s0 -> searched s0 s -> 0 <= m <= min_block -> min_block <= block -> (Z.to_nat (max - block) < fuel)%nat ->
  ts_failed (a_t s) = false -> (forall x, m <= x < block -> ~ usable s0 x) -> wp (find_free_loop fuel min_block block) (fun r s' => free_found s0 m r s') s.
Proof.
  induction fuel as [|fuel IH]; intros min_block block s0 s m Hok Hs Hm Hmb Hfuel Hf Hno; [lia|]. pose proof Hok as [Hfree Hact Hidle Hcnt]. cbn [find_free_loop]. apply wp_bind, wp_get. rewrite Hs. cbn [set_t a_free].
  apply wp_bind, wp_lift. eapply wp_mono; [eapply find_wp; [exact Hfree|lia]|]. intros b t Hb. cbn [set_t a_t] in Hb |- *. apply wp_bind, wp_tr_failed. cbn [set_t a_t].
  assert (searched s0 (set_t t (set_t (a_t s) s0))) as Hs1 by done. destruct (ts_failed t) eqn:Ht; [apply wp_ret; split; [done|]; left; done|].
  assert (next_in (in_blocks (a_free s0)) block b) as Hn by (destruct Hb as [[_ ?]|[? _]]; [done|congruence]).
  assert (b = 0 -> forall x, m <= x -> ~ usable s0 x) as Hnone.
  { intros -> x Hx [Hx1 Hx2]. destruct Hn as [[_ Hn]|[? _]]; [|lia]. destruct (Z.lt_ge_cases x block); [apply (Hno x); [lia|by split]|by apply (Hn x)]. }
  destruct (Z.ltb_spec b min_block) as [Hlt|Hge].
  { assert (b = 0) as -> by (destruct Hn as [[? _]|(_ & ? & _)]; lia). apply wp_bind, wp_assert; [done|]. apply wp_ret. split; [done|]. right. split; [done|]. left. split; [done|]. by apply Hnone. }
  assert (0 <= b) as Hb0 by (destruct Hn as [[? _]|(? & _)]; lia).
  apply wp_bind. eapply wp_mono; [apply (skip_wp (active_sets s0) Hact b b); lia|]. intros r s2 [Hs2 Hr]. assert (searched s0 s2) as Hs02 by (etransitivity; [exact Hs1|exact Hs2]).
  destruct r as [b'|]; [|apply wp_ret; split; [done|]; by left]. destruct Hr as (_ & R1 & R2 & R3 & R4). cbn [set_t a_t] in R1. rewrite Ht in R1. apply wp_bind, queue_free_idle; [rewrite Hs02; done|].
  assert (forall x, m <= x < b -> ~ usable s0 x) as Hno1.
  { intros x Hx [Hx1 Hx2]. destruct (Z.lt_ge_cases x block); [apply (Hno x); [lia|by split]|]. destruct Hn as [[-> _]|(_ & _ & _ & Hn)]; [lia|]. apply (Hn x); [lia|done]. }
  destruct (Z.eqb_spec b' b) as [->|Hne]; cbn [negb].
  - apply wp_ret. split; [done|]. right. split; [done|]. destruct (Z.eq_dec b 0) as [->|Hb1]; [left; split; [done|by apply Hnone]|]. right. destruct Hn as [[? _]|(_ & Hle & Hin & _)]; [done|].
    split; [lia|]. split; [lia|]. split; [split; [done|by apply R3]|done].
  - destruct Hn as [[-> _]|(Hpos & Hle & Hin & _)].
    + exfalso. assert (Exists (fun set => in_blocks set 0) (active_sets s0)) as Hex by (apply R4; lia). apply Exists_exists in Hex as (set & Hset & Hin). rewrite Forall_forall in Hact. pose proof (in_blocks_bounds _ _ _ _ (Hact _ Hset) Hin). pose proof (so_min _ _ _ Hfree). lia.
    + pose proof (in_blocks_bounds _ _ _ _ Hfree Hin). apply IH; [done|done|lia|lia|lia|done|]. intros x Hx. destruct (Z.lt_ge_cases x b); [apply Hno1; lia|]. intros [_ Hall].
      assert (Exists (fun set => in_blocks set x) (active_sets s0)) as Hex by (apply R4; lia). apply Exists_exists in Hex as (set & Hset & Hin'). rewrite Forall_forall in Hall. by apply (Hall set).
Qed.
End search.

(** ** Allocating and freeing *)

Section requests.
Context {T : Type} {bt : block_tree T} {laws : block_tree_laws T} (clean : Z -> bool) (min max : Z).
Implicit Types (s : astate T) (set : block_set T).

Lemma wp_bind_assoc {A C D} (m : M (astate T) A) (n : M (astate T) C) (k : M (astate T) D) Q s : wp ((m;; n);; k) Q s -> wp (m;; n;; k) Q s.
Proof. unfold wp, mbind, M_bind. by destruct (m s). Qed.

(** A request on an idle queue is put into the sets at once. *)
Lemma add_process_wp block is_tmp is_free (Q : unit -> astate T -> Prop) s : queue_idle (a_queue s) -> small_count (a_count s) ->
  (forall q, wp (process_entry clean (QE block is_tmp is_free false)) (fun _ s' => a_queue s' = q /\ forall q', queue_idle q' -> Q tt (set_queue q' s')) (set_queue q s)) ->
  wp (block_allocator_queue_add block is_tmp is_free;; block_allocator_process_queue clean) Q s.
Proof.
  intros (Hwf & Hu & He) Hc Hact. pose proof Hwf as (Hl & Hh & Ht). unfold block_allocator_queue_add, block_allocator_queue_find. apply wp_bind, wp_bind, wp_bind, wp_get. apply wp_bind, wp_queue_ok; [done|].
  cbn [queue_find_loop]. rewrite He, Nat.eqb_refl. apply wp_ret. unfold queue_append. apply wp_bind, wp_get. apply wp_bind, wp_queue_ok; [done|]. apply wp_bind, wp_assert; [apply Nat.ltb_lt, q_next_lt|].
  apply wp_bind, wp_assert; [apply negb_true_iff, Nat.eqb_neq; rewrite He; by apply q_next_ne|]. apply wp_modify. apply (process_one_wp clean (QE block is_tmp is_free false)); [|done|cbn; by rewrite He|cbn; rewrite He; apply list_lookup_insert_eq; lia|done|].
  - split; [cbn; by rewrite length_insert|]. split; [done|apply q_next_lt].
  - apply Hact.
Qed.

Lemma set_inv_t set t t' : set_inv min max set t -> (ts_failed t = true -> ts_failed t' = true) -> set_inv min max set t'.
Proof. intros [Hi [Hf|H]] Ht; split; try done; [left; by apply Ht|by right]. Qed.

Lemma add_block_wp set b t : set_inv min max set t -> 1 <= min -> max < 2 ^ 64 -> min <= b < max -> (ts_failed t = false -> ~ in_blocks set b) ->
  wp (block_set_add_block set b) (fun set' t' => set_inv min max set' t' /\ (ts_failed t' = false -> ts_failed t = false /\ forall x, in_blocks set' x <-> in_blocks set x \/ x = b)) t.
Proof.
  intros Hinv H1 H2 Hb Hn. unfold block_set_add_block, block_range_init_single. rewrite Z.mod_small by lia. eapply wp_mono; [apply (set_add_wp min max); [exact Hinv|split; cbn; lia|]|].
  - cbn. intros Hf x Hx. assert (x = b) as -> by lia. by apply Hn.
  - cbn. intros set' t' [[Hi _] HX]. split; [done|]. intros Hf. destruct (HX Hf) as [Hf0 HX']. split; [done|]. intros x. rewrite HX'. assert (b <= x < b + 1 <-> x = b) as -> by lia. done.
Qed.
Lemma remove_block_wp set b t : set_inv min max set t -> 1 <= min -> max < 2 ^ 64 -> min <= b < max -> (ts_failed t = false -> in_blocks set b) ->
  wp (block_set_remove_block set b) (fun set' t' => set_inv min max set' t' /\ (ts_failed t' = false -> ts_failed t = false /\ forall x, in_blocks set' x <-> in_blocks set x /\ x <> b)) t.
Proof.
  intros Hinv H1 H2 Hb Hn. unfold block_set_remove_block, block_range_init_single. rewrite Z.mod_small by lia. eapply wp_mono; [apply (set_remove_wp min max); [exact Hinv|split; cbn; lia|]|].
  - cbn. intros Hf x Hx. assert (x = b) as -> by lia. by apply Hn.
  - cbn. intros set' t' [[Hi _] HX]. split; [done|]. intros Hf. destruct (HX Hf) as [Hf0 HX']. split; [done|]. intros x. rewrite HX'. assert (b <= x < b + 1 <-> x = b) as -> by lia. done.
Qed.

Lemma in_set_wp set b t : set_ok min max set -> 1 <= b -> wp (block_set_block_in_set set b)
  (fun x t' => (ts_failed t = true -> ts_failed t' = true) /\ (x = true -> in_blocks set b) /\ (x = false -> ts_failed t' = true \/ ~ in_blocks set b)) t.
Proof.
  intros Hok Hb. unfold block_set_block_in_set. apply wp_bind. eapply wp_mono; [eapply find_wp; [exact Hok|lia]|]. intros r t' Hr. apply wp_ret.
  assert (next_in (in_blocks set) b r \/ (r = 0 /\ ts_failed t' = true)) as Hr' by (destruct Hr as [[_ ?]|[? [?|[_ ?]]]]; tauto).
  split; [intros Hf; destruct Hr as [[? _]|[? _]]; congruence|]. destruct (Z.eqb_spec r b) as [->|Hne]; split; try done; intros _.
  - destruct Hr' as [[[? _]|(_ & _ & ? & _)]|[? _]]; [lia|done|lia].
  - destruct Hr' as [[[_ Hno]|(_ & ? & _ & Hno)]|[_ ?]]; [right; apply Hno; lia|right; apply Hno; lia|by left].
Qed.

(** Between the requests of a transaction: the sets are in order; what is allocated is
    of the committed free set and only once; what is freed is not of it. *)
Record alloc_inv s : Prop := {
  ai_min : 1 <= min;
  ai_max : max < 2 ^ 64;
  ai_free : set_ok min max (a_free s);
  ai_others : Forall (set_ok min max) (a_before s ++ a_after s);
  ai_allocated : set_inv min max (a_allocated s) (a_t s);
  ai_tmp : set_inv min max (a_tmp s) (a_t s);
  ai_freed : set_inv min max (a_freed s) (a_t s);
  ai_idle : queue_idle (a_queue s);
  ai_count : small_count (a_count s) /\ max <= a_count s;
  ai_min_free : a_min_free s = 0;
  ai_apart : ts_failed (a_t s) = false -> forall x,
    (in_blocks (a_allocated s) x -> in_blocks (a_free s) x /\ ~ in_blocks (a_tmp s) x) /\ (in_blocks (a_tmp s) x -> in_blocks (a_free s) x) /\ (in_blocks (a_freed s) x -> ~ in_blocks (a_free s) x);
}.

(** What no request changes. *)
Definition steady s s' : Prop := a_free s' = a_free s /\ a_before s' = a_before s /\ a_after s' = a_after s.

Lemma inv_sets_ok s : alloc_inv s -> ts_failed (a_t s) = false -> sets_ok min max s.
Proof.
  intros [] Hf. split; [done| |done|lia]. unfold active_sets. apply Forall_app in ai_others0 as [H1 H2]. destruct ai_allocated0 as [_ [?|[Ha _]]]; [congruence|]. destruct ai_tmp0 as [_ [?|[Ht _]]]; [congruence|].
  apply Forall_app. split; [done|]. constructor; [done|]. constructor; [done|]. done.
Qed.

(** A failed transaction keeps the invariant. *)
Lemma inv_failed s t : alloc_inv s -> ts_failed t = true -> alloc_inv (set_t t s).
Proof. intros [] Hf. split; try done; cbn; try (eapply set_inv_t; [done|]; done). congruence. Qed.

Lemma inv_failed' s s' : alloc_inv s -> searched s s' -> ts_failed (a_t s') = true -> alloc_inv s'.
Proof. intros H -> Hf. by apply inv_failed. Qed.

Lemma inv_searched s s' : alloc_inv s -> searched s s' -> ts_failed (a_t s) = false -> alloc_inv s'.
Proof.
  intros [] -> Hf. assert (ts_failed (a_t s) = true -> ts_failed (a_t s') = true) as Hm by congruence. split; try done; cbn; try (eapply set_inv_t; [eassumption|done]). intros _. by apply ai_apart0.
Qed.

Lemma find_free_block_wp m s : alloc_inv s -> ts_failed (a_t s) = false -> 0 <= m -> wp (find_free_block m) (fun r s' => free_found s m r s') s.
Proof.
  intros Hinv Hf Hm. unfold find_free_block. apply wp_bind, wp_get. apply (find_free_wp min max); [by apply inv_sets_ok|by destruct s|lia|lia| |done|lia]. destruct Hinv. lia.
Qed.

Lemma find_free_failed m s : alloc_inv s -> ts_failed (a_t s) = true -> 0 <= m -> wp (find_free_block m) (fun r s' => r = 0 /\ searched s s' /\ ts_failed (a_t s') = true) s.
Proof.
  intros Hinv Hf Hm. unfold find_free_block. apply wp_bind, wp_get. cbn [find_free_loop]. apply wp_bind, wp_get. apply wp_bind, wp_lift. eapply wp_mono; [eapply find_wp; [by apply Hinv|done]|]. intros b t Hb.
  apply wp_bind, wp_tr_failed. cbn [set_t a_t]. assert (ts_failed t = true) as -> by (destruct Hb as [[? _]|[? _]]; congruence). apply wp_ret. split; [done|]. split; [done|]. cbn. destruct Hb as [[? _]|[? _]]; congruence.
Qed.

(** A set of this transaction takes part in the invariant through its blocks only. *)
Lemma inv_set_last a b s : alloc_inv s -> alloc_inv (set_last a b s).
Proof. intros []. by split. Qed.

Lemma put_allocated_wp block is_tmp s : alloc_inv s -> ts_failed (a_t s) = false -> usable s block -> forall q,
  wp (process_entry clean (QE block is_tmp false false)) (fun _ s' => a_queue s' = q /\ forall q', queue_idle q' -> alloc_inv (set_queue q' s') /\ steady s s' /\
    (ts_failed (a_t s') = false -> forall x, in_blocks (a_allocated s') x <-> in_blocks (a_allocated s) x \/ (x = block /\ is_tmp = false)) /\
    (ts_failed (a_t s') = false -> forall x, in_blocks (a_tmp s') x <-> in_blocks (a_tmp s) x \/ (x = block /\ is_tmp = true))) (set_queue q s).
Proof.
  intros [Hmin Hmax Hfr Hot Hal Htm Hfd Hid Hct Hmf Hap] Hf [Hin Hno] q. specialize (Hap Hf). unfold active_sets in Hno. apply Forall_app in Hno as [Hno1 Hno2]. inversion Hno2 as [|? ? Hna Hno3]. inversion Hno3 as [|? ? Hnt Hno4]. subst.
  pose proof (in_blocks_bounds _ _ _ _ Hfr Hin) as Hbd. unfold process_entry, block_allocator_add_allocated. cbn [qe_removed qe_free qe_block qe_tmp]. apply wp_bind, wp_get. destruct is_tmp.
  - apply wp_bind, wp_lift. cbn [set_queue a_tmp a_t]. eapply wp_mono; [by apply add_block_wp|]. intros set' t' [Hi HX]. apply wp_bind, wp_modify, wp_modify. split; [done|]. intros q' Hq'.
    assert (ts_failed (a_t s) = true -> ts_failed t' = true) as Hmono by congruence. split; [|split; [done|]; split; intros Hf'; destruct (HX Hf') as [_ HX']; intros x; [|rewrite HX']; cbn; intuition congruence].
    split; cbn; try done; try (by eapply set_inv_t). intros Hf' x. destruct (HX Hf') as [_ HX']. rewrite !HX'. specialize (Hap x). destruct (Z.eq_dec x block) as [->|]; tauto.
  - apply wp_bind, wp_lift. cbn [set_queue a_allocated a_t]. eapply wp_mono; [by apply add_block_wp|]. intros set' t' [Hi HX]. apply wp_bind, wp_modify. cbn [set_queue a_min_free]. rewrite Hmf. destruct (Z.ltb_spec block 0); [lia|]. apply wp_ret.
    split; [done|]. intros q' Hq'. assert (ts_failed (a_t s) = true -> ts_failed t' = true) as Hmono by congruence. split; [|split; [done|]; split; intros Hf'; destruct (HX Hf') as [_ HX']; intros x; [rewrite HX'|]; cbn; intuition congruence].
    split; cbn; try done; try (by eapply set_inv_t). intros Hf' x. destruct (HX Hf') as [_ HX']. rewrite !HX'. specialize (Hap x). destruct (Z.eq_dec x block) as [->|]; tauto.
Qed.

(** What an allocation returns: a block that could be taken, which is in the set of this
    transaction then; or 0, and the transaction has failed. *)
Definition allocated (is_tmp : bool) s (r : Z) s' : Prop :=
  alloc_inv s' /\ steady s s' /\
  ((r = 0 /\ ts_failed (a_t s') = true) \/
   (0 < r /\ ts_failed (a_t s') = false /\ usable s r /\ forall x, in_blocks (a_allocated s') x \/ in_blocks (a_tmp s') x <-> (in_blocks (a_allocated s) x \/ in_blocks (a_tmp s) x) \/ x = r)).

Lemma allocate_wp is_tmp s : alloc_inv s -> wp (block_allocate_etc clean is_tmp) (fun r s' => allocated is_tmp s r s') s.
Proof.
  intros Hinv. unfold block_allocate_etc. apply wp_bind, wp_tr_failed. destruct (ts_failed (a_t s)) eqn:Hf; [apply wp_ret; split; [done|]; split; [done|]; by left|].
  pose proof (ai_idle _ Hinv) as (Hwf & Hu & He). apply wp_bind, wp_queue_empty; [done|]. rewrite He, Nat.eqb_refl. cbn [when]. apply wp_bind, wp_modify. set (s1 := set_last _ _ s). assert (alloc_inv s1) as Hinv1 by (by apply inv_set_last).
  apply wp_bind, wp_get. pose proof (ai_count _ Hinv) as [Hc%small_nonneg _]. assert (0 <= (if is_tmp then a_last_tmp s1 else a_last_free s1)) as Hmb by (destruct is_tmp; cbn; [|done]; pose proof (Z.div_pos (a_count s) 4 Hc ltac:(lia)); lia).
  apply wp_bind. eapply wp_mono; [by apply find_free_block_wp|]. intros r1 s2 [Hs2 Hr1]. apply wp_bind.
  (* no block: the search from 0, and the end when that finds none *)
  apply (wp_mono _ (fun r s3 => searched s1 s3 /\ (ts_failed (a_t s3) = true /\ r = 0 \/ ts_failed (a_t s3) = false /\ (r = 0 \/ (0 < r /\ usable s1 r))))).
  { destruct (Z.eqb_spec r1 0) as [->|Hne].
    - assert (ts_failed (a_t s2) = true \/ ts_failed (a_t s2) = false) as [Hf2|Hf2] by (destruct (ts_failed (a_t s2)); auto).
      + eapply wp_mono; [apply find_free_failed; [by eapply inv_failed'|done|done]|]. intros r s3 (-> & Hs3 & Hf3). split; [by etransitivity|]. by left.
      + assert (alloc_inv s2) as Hinv2 by (by eapply inv_searched).
        eapply wp_mono; [by apply find_free_block_wp|]. intros r s3 [Hs3 Hr]. split; [by etransitivity|]. destruct Hr as [?|[? [[? _]|(? & _ & Hus & _)]]]; [by left|right; tauto|right]. split; [done|]. right. split; [done|]. by apply (searched_usable s1 s2) in Hus.
    - apply wp_ret. split; [done|]. destruct Hr1 as [[_ ?]|[? [[? _]|(? & _ & ? & _)]]]; [done|done|]. right. split; [done|]. right. done. }
  intros r s3 [Hs3 Hr]. destruct (Z.eqb_spec r 0) as [->|Hne].
  { apply wp_bind, wp_tr_failed. apply wp_bind, wp_when.
    - intros _. apply wp_modify, wp_ret. rewrite Hs3. split; [by apply (inv_failed s1)|]. split; [done|]. by left.
    - intros Hx. apply negb_false_iff in Hx. apply wp_ret. split; [by eapply inv_failed'|]. split; [by rewrite Hs3|]. by left. }
  destruct Hr as [[_ ?]|(Hf3 & [?|[Hpos Hus]])]; [done|done|]. assert (alloc_inv s3) as Hinv3 by (by eapply inv_searched).
  rewrite <- (searched_usable s1 s3) in Hus by done. assert (steady s s3) as Hst3 by (by rewrite Hs3).
  apply wp_bind_assoc, wp_bind. apply add_process_wp; [by apply Hinv3|by apply Hinv3|]. intros q. eapply wp_mono; [by apply put_allocated_wp|]. intros ? s4 [Eq Hs4]. split; [done|]. intros q' Hq'. destruct (Hs4 q' Hq') as (Hinv4 & Hst4 & HA & HT).
  apply wp_bind, wp_tr_failed, wp_ret. split; [done|]. split; [destruct Hst3 as (A1 & A2 & A3), Hst4 as (B1 & B2 & B3); repeat split; cbn; congruence|]. cbn [set_queue a_t a_allocated a_tmp]. destruct (ts_failed (a_t s4)) eqn:Hf4; [by left|]. right.
  split; [done|]. split; [done|]. split; [by apply (searched_usable s1 s3) in Hus|]. intros x. rewrite HA, HT by done. assert (a_allocated s3 = a_allocated s /\ a_tmp s3 = a_tmp s) as [-> ->] by (by rewrite Hs3). destruct is_tmp; intuition congruence.
Qed.

(** Without failing accesses an allocation fails only when there is no block left. *)
Lemma allocate_quiet is_tmp s x : alloc_inv s -> quiet (a_t s) -> ts_failed (a_t s) = false -> usable s x -> wlp (block_allocate_etc clean is_tmp) (fun _ s' => ts_failed (a_t s') = false) s.
Proof.
  intros Hinv Hq Hf Hx. unfold block_allocate_etc. apply (calm_wlp_bind _ _ (fun a s' => a = false /\ s' = s)); [apply calm_tr_failed|done|by unfold wlp, tr_failed, lift; cbn; rewrite Hf; destruct s|]. intros ? ? [-> ->] _ _.
  pose proof (ai_idle _ Hinv) as (Hwf & _ & He). apply (calm_wlp_bind _ _ (fun a s' => a = true /\ s' = s)); [apply calm_queue_empty|done|apply wp_wlp, wp_queue_empty; [done|]; by rewrite He, Nat.eqb_refl|]. intros ? ? [-> ->] _ _. cbn [when].
  set (upd := fun s => set_last 0 (a_count s / 4 * 3) s). apply (calm_wlp_bind _ _ (fun _ s' => s' = upd s)); [by apply calm_modify|done|done|]. intros _ ? -> Hq1 Hf1. assert (alloc_inv (upd s)) as Hinv1 by (by apply inv_set_last).
  apply (calm_wlp_bind _ _ (fun a s' => a = upd s /\ s' = upd s)); [apply calm_get|done|done|]. intros ? ? [-> ->] _ _. set (m := if is_tmp then _ else _). assert (0 <= m) as Hm. { pose proof (ai_count _ Hinv) as [Hc%small_nonneg _]. pose proof (Z.div_pos (a_count s) 4 Hc ltac:(lia)). unfold m. destruct is_tmp; cbn; lia. }
  rewrite Hf in Hf1. apply (calm_wlp_bind _ _ _ _ _ (calm_find_free m) Hq1 (wp_wlp _ _ _ (find_free_block_wp m _ Hinv1 Hf1 Hm))). intros r1 s2 [Hs2 Hr1] Hq2 Hf2. rewrite Hf1 in Hf2. assert (alloc_inv s2) as Hinv2 by (by eapply inv_searched).
  apply (calm_wlp_bind _ _ (fun r s' => ts_failed (a_t s') = false -> r <> 0)); [destruct (r1 =? 0); [apply calm_find_free|apply calm_ret]|done| |].
  { destruct (Z.eqb_spec r1 0) as [_|Hne]; [|unfold wlp; cbn; by intros _]. apply wp_wlp. eapply wp_mono; [by apply find_free_block_wp|]. intros r s3 [_ Hr] Hf3 ->. destruct Hr as [[? _]|[_ [[_ Hno]|[? _]]]]; [congruence|apply (Hno x)|lia].
    - destruct Hx as [Hin _]. pose proof (in_blocks_bounds _ _ _ _ (ai_free _ Hinv) Hin). pose proof (ai_min _ Hinv). lia.
    - rewrite (searched_usable _ _ x Hs2). done. }
  intros r s3 Hr Hq3 Hf3. rewrite Hf2 in Hf3. destruct (Z.eqb_spec r 0) as [->|_]; [by specialize (Hr Hf3)|]. assert (calm (a_t (T := T)) (block_allocator_queue_add r is_tmp false;; block_allocator_process_queue clean;; f ← tr_failed; mret (if f : bool then 0 else r))) as Hcalm by calm.
  specialize (Hcalm s3 Hq3). unfold wlp in Hcalm |- *. case_match; [|done]. destruct Hcalm as [_ ->]. done.
Qed.

(** What may be freed: a block that this transaction has allocated, as it has allocated
    it; or one that is in use since an earlier commit, once. *)
Definition may_free s (block : Z) (is_tmp : bool) : Prop :=
  clean block = true /\ min <= block < max /\ ts_failed (a_t s) = false /\
  if is_tmp then in_blocks (a_tmp s) block else in_blocks (a_allocated s) block \/ (~ in_blocks (a_free s) block /\ ~ in_blocks (a_freed s) block).

(** The blocks of this transaction are fewer by one, or one more is to be freed. *)
Definition freed (block : Z) s s' : Prop :=
  ts_failed (a_t s') = false -> forall x,
    (in_blocks (a_allocated s') x <-> in_blocks (a_allocated s) x /\ x <> block) /\ (in_blocks (a_tmp s') x <-> in_blocks (a_tmp s) x /\ x <> block) /\
    (in_blocks (a_freed s') x <-> in_blocks (a_freed s) x \/ (x = block /\ ~ in_blocks (a_free s) block)).

Lemma put_freed_wp block is_tmp s : alloc_inv s -> may_free s block is_tmp -> forall q,
  wp (process_entry clean (QE block is_tmp true false)) (fun _ s' => a_queue s' = q /\ forall q', queue_idle q' -> alloc_inv (set_queue q' s') /\ steady s s' /\ freed block s s') (set_queue q s).
Proof.
  intros [Hmin Hmax Hfr Hot Hal Htm Hfd Hid Hct Hmf Hap] (Hcl & Hbd & Hf & Hmay) q. specialize (Hap Hf). pose proof (Hap block) as Hapb. unfold process_entry, block_allocator_add_free. cbn [qe_removed qe_free qe_block qe_tmp].
  assert (set_ok min max (a_allocated s)) as Hal' by (destruct Hal as [_ [?|[? _]]]; [congruence|done]). assert (set_ok min max (a_tmp s)) as Htm' by (destruct Htm as [_ [?|[? _]]]; [congruence|done]).
  assert (set_ok min max (a_freed s)) as Hfd' by (destruct Hfd as [_ [?|[? _]]]; [congruence|done]).
  assert (forall t, set_inv min max (a_allocated s) t /\ set_inv min max (a_tmp s) t /\ set_inv min max (a_freed s) t) as Hinvs by (intros t; split_and!; eapply set_inv_t; try done; congruence).
  apply wp_bind, wp_assert; [done|]. apply wp_bind, wp_get. destruct is_tmp.
  - apply wp_bind, wp_lift. eapply wp_mono; [apply in_set_wp; [exact Hal'|lia]|]. intros x1 t1 (_ & H1 & _). apply wp_bind, wp_assert; [destruct x1; [exfalso; apply H1 in Hmay || (specialize (H1 eq_refl); tauto)|done]|].
    apply wp_bind, wp_lift. eapply wp_mono; [apply in_set_wp; [exact Hfd'|lia]|]. intros x2 t2 (_ & H2 & _). apply wp_bind, wp_assert; [destruct x2; [exfalso; specialize (H2 eq_refl); tauto|done]|].
    apply wp_bind, wp_lift. eapply wp_mono; [apply remove_block_wp; [apply (Hinvs t2)|done|done|done|intros _; exact Hmay]|]. intros set' t' [Hi HX]. apply wp_modify. split; [done|]. intros q' Hq'. destruct (Hinvs t') as (I1 & I2 & I3).
    split; [split; cbn; try done; intros Hf' x; destruct (HX Hf') as [_ HX']; rewrite !HX'; specialize (Hap x); tauto|]. split; [done|]. intros Hf' x. cbn. destruct (HX Hf') as [_ HX']. rewrite HX'. specialize (Hap x).
    destruct (Z.eq_dec x block) as [->|Hne]; tauto.
  - apply wp_bind, wp_lift. eapply wp_mono; [apply in_set_wp; [exact Htm'|lia]|]. intros x1 t1 (_ & H1 & _). apply wp_bind, wp_assert; [destruct x1; [exfalso; specialize (H1 eq_refl); tauto|done]|].
    apply wp_bind, wp_lift. eapply wp_mono; [apply in_set_wp; [exact Hal'|lia]|]. intros x2 t2 (Hm2 & H2 & H2'). cbn [set_queue set_t a_min_free]. rewrite Hmf. destruct x2.
    + specialize (H2 eq_refl). apply wp_bind, wp_lift. eapply wp_mono; [apply remove_block_wp; [apply (Hinvs t2)|done|done|done|intros _; exact H2]|]. intros set' t' [Hi HX]. apply wp_bind, wp_modify. destruct (Z.ltb_spec block 0); [lia|]. apply wp_ret.
      split; [done|]. intros q' Hq'. destruct (Hinvs t') as (I1 & I2 & I3). split; [split; cbn; try done; intros Hf' x; destruct (HX Hf') as [_ HX']; rewrite !HX'; specialize (Hap x); tauto|]. split; [done|].
      intros Hf' x. cbn. destruct (HX Hf') as [_ HX']. rewrite HX'. specialize (Hap x). destruct (Z.eq_dec x block) as [->|Hne]; tauto.
    + destruct (Z.ltb_spec block 0); [lia|]. apply wp_bind, wp_lift. eapply wp_mono; [apply add_block_wp; [apply (Hinvs t2)|done|done|done|]|].
      * cbn. intros Hf2. destruct (H2' eq_refl) as [?|Hna]; [congruence|]. tauto.
      * intros set' t' [Hi HX]. apply wp_modify. split; [done|]. intros q' Hq'. destruct (Hinvs t') as (I1 & I2 & I3). assert (ts_failed t' = false -> ~ in_blocks (a_free s) block /\ ~ in_blocks (a_allocated s) block /\ ~ in_blocks (a_tmp s) block) as Hnb.
        { intros Hf'. destruct (HX Hf') as [Hf2 _]. cbn in Hf2. destruct (H2' eq_refl) as [?|Hna]; [congruence|]. tauto. }
        split; [split; cbn; try done; intros Hf' x; destruct (HX Hf') as [_ HX']; rewrite !HX'; specialize (Hap x); specialize (Hnb Hf'); destruct (Z.eq_dec x block) as [->|Hne]; tauto|]. split; [done|].
        intros Hf' x. cbn. destruct (HX Hf') as [_ HX']. rewrite HX'. specialize (Hap x). specialize (Hnb Hf'). destruct (Z.eq_dec x block) as [->|Hne]; tauto.
Qed.

Lemma free_wp block is_tmp s : alloc_inv s -> may_free s block is_tmp -> wp (block_free_etc clean block is_tmp) (fun _ s' => alloc_inv s' /\ steady s s' /\ freed block s s') s.
Proof.
  intros Hinv Hmay. unfold block_free_etc. pose proof (ai_idle _ Hinv) as (Hwf & Hu & He). apply wp_bind, wp_queue_empty; [done|]. rewrite He, Nat.eqb_refl. apply wp_bind, wp_assert; [by apply Hmay|]. cbn [when].
  apply add_process_wp; [by apply Hinv|by apply Hinv|]. intros q. eapply wp_mono; [by apply put_freed_wp|]. intros ? s' [Eq H]. split; [done|]. intros q' Hq'. by apply H.
Qed.
End requests.

(** ** A transaction *)

Section transaction.
Context {T : Type} {bt : block_tree T} {laws : block_tree_laws T} (clean : Z -> bool) (min max : Z).

(** An active transaction on a file system with other active transactions. *)
Record alloc_start (s : astate T) : Prop := {
  as_min : 1 <= min;
  as_max : max < 2 ^ 64;
  as_free : set_ok min max (a_free s);
  as_others : Forall (set_ok min max) (a_before s ++ a_after s);
  as_own : a_allocated s = block_set_init /\ a_tmp s = block_set_init /\ a_freed s = block_set_init;
  as_queue : queue_idle (a_queue s);
  as_count : small_count (a_count s) /\ max <= a_count s;
  as_min_free : a_min_free s = 0;
}.

Inductive alloc_step : astate T -> astate T -> Prop :=
| step_alloc is_tmp r s s' : block_allocate_etc clean is_tmp s = Ret r s' -> alloc_step s s'
| step_free block is_tmp s s' : may_free clean min max s block is_tmp -> block_free_etc clean block is_tmp s = Ret tt s' -> alloc_step s s'.

Lemma start_inv s : alloc_start s -> alloc_inv min max s.
Proof.
  intros [H1 H2 H3 H4 (E1 & E2 & E3) H6 H7 H8]. split; try done; rewrite ?E1, ?E2, ?E3; try (by apply init_inv). intros _ x. rewrite !init_blocks. tauto.
Qed.

Lemma step_inv s s' : alloc_step s s' -> alloc_inv min max s -> alloc_inv min max s' /\ steady s s'.
Proof.
  intros Hstep Hinv. destruct Hstep as [is_tmp r s s' E|block is_tmp s s' Hmay E].
  - pose proof (allocate_wp clean min max is_tmp s Hinv) as H. unfold wp in H. rewrite E in H. destruct H as (H1 & H2 & _). done.
  - pose proof (free_wp clean min max block is_tmp s Hinv Hmay) as H. unfold wp in H. rewrite E in H. destruct H as (H1 & H2 & _). done.
Qed.

Lemma steps_inv s0 s : alloc_start s0 -> rtc alloc_step s0 s -> alloc_inv min max s.
Proof. intros Hs H. apply start_inv in Hs. induction H as [|s1 s2 s3 Hstep _ IH]; [done|]. apply IH. by apply (step_inv s1). Qed.

Lemma steps_free s0 s : alloc_start s0 -> rtc alloc_step s0 s -> a_free s = a_free s0.
Proof.
  intros Hs H. apply start_inv in Hs. induction H as [|s1 s2 s3 Hstep _ IH]; [done|]. pose proof (step_inv s1 s2 Hstep Hs) as [H1 [H2 _]]. rewrite (IH H1). exact H2.
Qed.
End transaction.


(** The new free set of a commit is the old one without the blocks that the
    transaction has allocated and with those it has freed: over sets in order, where the
    allocated blocks are in the old free set and the freed ones are not,
    [transaction_merge_free_sets] ends, fails no assertion and makes just that set,
    sorted, apart and not adjacent again, unless the transaction has failed, which it
    does not but by an access to a tree that does. *)
Theorem merge_free_sets_spec {T} {bt : block_tree T} {laws : block_tree_laws T} clean min max (set_i set_d set_a : block_set T) (s : astate T) :
  set_inv min max set_i (a_t s) -> set_ok min max set_d -> set_ok min max set_a -> (forall x, in_blocks set_d x -> in_blocks set_i x) -> (forall x, in_blocks set_a x -> ~ in_blocks set_i x) ->
  a_new_free s = Some set_i -> queue_idle (a_queue s) -> small_count (a_count s) -> ts_failed (a_t s) = false ->
  exists s', transaction_merge_free_sets clean set_d set_a s = Ret tt s' /\ (quiet (a_t s) -> ts_failed (a_t s') = false) /\
    (ts_failed (a_t s') = false -> exists set', a_new_free s' = Some set' /\ set_ok min max set' /\ forall x, in_blocks set' x <-> (in_blocks set_i x /\ ~ in_blocks set_d x) \/ in_blocks set_a x).
Proof.
  intros Hi Hd Ha Hsub Hout En Hq Hc Hf. pose proof (merge_wp clean min max set_i set_d set_a False s Hi Hd Ha Hsub Hout En Hq Hc Hf ltac:(done)) as H. unfold wp in H.
  destruct (transaction_merge_free_sets clean set_d set_a s) as [[] s'|] eqn:E; [|done]. destruct H as (_ & _ & H). exists s'. split; [done|].
  split; [intros Hqt; rewrite <- Hf; by apply (calm_run _ _ _ _ _ (calm_merge clean _ set_d set_a 1) Hqt E)|]. intros Hf'. destruct (H Hf') as (set' & E' & (Hok & _) & HX). by exists set'.
Qed.

Module AllocDemo.
Definition set (l : list (Z * Z)) : block_set list_tree := BlockSet (true, l) block_range_clear false.
Definition idle : queue := Queue (replicate BLOCK_ALLOCATOR_QUEUE_LEN (QE 0 false false false)) 7 7 false.

(** A device of 40 blocks of which 10 to 29 are free; another transaction has taken 10
    and 12. *)
Definition start : astate list_tree := AS (set [(10, 30)]) [set [(10, 11); (12, 13)]; set []] [] block_set_init block_set_init block_set_init None 0 0 0 40 idle (TS false []).

Definition after (m : M (astate list_tree) Z) (s : astate list_tree) : astate list_tree := match m s with Ret _ s' => s' | _ => s end.
Definition once : astate list_tree := after (block_allocate_etc (fun _ => true) false) start.

Example allocations : match (a ← block_allocate_etc (fun _ => true) false; b ← block_allocate_etc (fun _ => true) false; c ← block_allocate_etc (fun _ => true) true; mret [a; b; c]) start with
  | Ret l s => Some (l, bt_entries (bs_tree (a_allocated s)), bt_entries (bs_tree (a_tmp s))) | _ => None end = Some ([11; 13; 14], [(11, 12); (13, 14)], [(14, 15)]).
Proof. vm_compute. reflexivity. Qed.

Lemma idle_idle : queue_idle idle.
Proof. split; [|done]. split; [reflexivity|]. unfold BLOCK_ALLOCATOR_QUEUE_LEN. cbn [idle q_head q_tail]. lia. Qed.

Lemma set_ok_small l : ranges_ok 1 40 l -> set_ok 1 40 (set l).
Proof. intros H. split; [lia|lia|done|by left]. Qed.

Lemma alloc_demo_start : alloc_start 1 40 start.
Proof.
  split; try done; try lia.
  - apply set_ok_small. cbn. lia.
  - constructor; [apply set_ok_small; cbn; lia|]. constructor; [apply set_ok_small; done|]. constructor.
  - apply idle_idle.
Qed.
End AllocDemo.


Lemma merge_free_sets_spec_witness : exists s', transaction_merge_free_sets (fun _ => true) (AllocDemo.set [(11, 14)]) (AllocDemo.set [(5, 8); (31, 32)]) (set_new_free (AllocDemo.set [(10, 30)]) AllocDemo.start) = Ret tt s' /\ (quiet (a_t (set_new_free (AllocDemo.set [(10, 30)]) AllocDemo.start)) -> ts_failed (a_t s') = false) /\
  (ts_failed (a_t s') = false -> exists set', a_new_free s' = Some set' /\ set_ok 1 40 set' /\
    forall x, in_blocks set' x <-> (in_blocks (AllocDemo.set [(10, 30)]) x /\ ~ in_blocks (AllocDemo.set [(11, 14)]) x) \/ in_blocks (AllocDemo.set [(5, 8); (31, 32)]) x).
Proof.
  apply (merge_free_sets_spec (fun _ => true) 1 40).
  - split; [done|]. right. split; [apply AllocDemo.set_ok_small; cbn; lia|done].
  - apply AllocDemo.set_ok_small. cbn. lia.
  - apply AllocDemo.set_ok_small. cbn. lia.
  - intros x. rewrite !blocks_tree by done. cbn. rewrite !in_entries_cons. intros [H|H]; [left; lia|by right].
  - intros x. rewrite !blocks_tree by done. cbn. rewrite !in_entries_cons. intros [H|[H|H]] [H'|H']; try lia; try (by apply in_entries_nil in H); by apply in_entries_nil in H'.
  - done.
  - apply AllocDemo.idle_idle.
  - done.
  - done.
Defined.

Example merged_sets : match transaction_merge_free_sets (fun _ => true) (AllocDemo.set [(11, 14)]) (AllocDemo.set [(5, 8); (30, 32)]) (set_new_free (AllocDemo.set [(10, 30)]) AllocDemo.start) with
  | Ret _ s => (fun set => bt_entries (bs_tree set)) <$> a_new_free s | _ => None end = Some [(5, 8); (10, 11); (14, 32)].
Proof. vm_compute. reflexivity. Qed.

(** On a device that is too large for an [int] the limit is negative, and the first entry
    of the queue fails the assertion. *)
Example loop_limit_overflows : loop_limit (2 ^ 31) < 0.
Proof. reflexivity. Qed.
