(* ===== verification/Commit.v ===== *)
(** * Transactions of the file system (app/storage/transaction.c)

    Transactions that run next to each other on one file system: each takes free blocks
    and gives up old ones, and commits or fails.  The allocator is that of [Alloc], the
    view that one transaction has of the system is an [astate]; here the views are put
    together and [transaction_complete] makes a new free set the committed one.

    The file layer is a parameter: at a commit it works on the blocks of the transaction
    through the allocator ([work]) and names the transactions that lose a conflict about
    a file.  The trees' own blocks, and with them [check_free_tree], and the cache are not
    part of the model; the super block is that of [Super] and here only its outcome. *)

From stdpp Require Import base tactics list sets gmap relations.
From Stdlib Require Import ZArith Lia.
From S2P Require Import Prelude Super BlockSet Alloc.

Section model.
Context {T : Type} {bt : block_tree T} (clean : Z -> bool).

(** [struct transaction] *)
Record tr := Tr {
  t_failed : bool;
  t_complete : bool;
  t_min_free : Z;
  t_last_free : Z;
  t_last_tmp : Z;
  t_allocated : block_set T;
  t_tmp : block_set T;
  t_freed : block_set T;
}.

(** [struct fs]: the committed free set; the transactions by their addresses; the lists
    [fs->transactions] and [fs->allocated], the latter with an entry for the two sets of
    a transaction; the size of the device; the queue of the allocator; and which of the
    accesses to come succeed. *)
Record fsys := Fsys {
  f_free : block_set T;
  f_trs : gmap nat tr;
  f_list : list nat;
  f_active : list nat;
  f_count : Z;
  f_queue : queue;
  f_answers : list bool;
}.

Definition set_trs (m : gmap nat tr) (s : fsys) : fsys := Fsys (f_free s) m (f_list s) (f_active s) (f_count s) (f_queue s) (f_answers s).
Definition set_list (l : list nat) (s : fsys) : fsys := Fsys (f_free s) (f_trs s) l (f_active s) (f_count s) (f_queue s) (f_answers s).
Definition set_active (l : list nat) (s : fsys) : fsys := Fsys (f_free s) (f_trs s) (f_list s) l (f_count s) (f_queue s) (f_answers s).
Definition set_free (b : block_set T) (s : fsys) : fsys := Fsys b (f_trs s) (f_list s) (f_active s) (f_count s) (f_queue s) (f_answers s).

Definition tr_set_failed (b : bool) (t : tr) : tr := Tr b (t_complete t) (t_min_free t) (t_last_free t) (t_last_tmp t) (t_allocated t) (t_tmp t) (t_freed t).
Definition tr_set_complete (b : bool) (t : tr) : tr := Tr (t_failed t) b (t_min_free t) (t_last_free t) (t_last_tmp t) (t_allocated t) (t_tmp t) (t_freed t).

Abbreviation F := (M fsys).

Definition get_tr (id : nat) : F tr := s ← get; deref NullDeref (f_trs s !! id).
Definition put_tr (id : nat) (t : tr) : F unit := modify (fun s => set_trs (<[id := t]> (f_trs s)) s).

Definition transaction_is_active (id : nat) : F bool := s ← get; mret (bool_decide (id ∈ f_active s)).

(** ** What one transaction sees *)

Fixpoint before (id : nat) (l : list nat) : list nat := match l with [] => [] | j :: l' => if decide (j = id) then [] else j :: before id l' end.
Fixpoint after (id : nat) (l : list nat) : list nat := match l with [] => [] | j :: l' => if decide (j = id) then l' else after id l' end.

Definition sets_of (s : fsys) (id : nat) : list (block_set T) := match f_trs s !! id with Some t => [t_allocated t; t_tmp t] | None => [] end.

Definition view (id : nat) (t : tr) (s : fsys) : astate T :=
  AS (f_free s) (before id (f_active s) ≫= sets_of s) (after id (f_active s) ≫= sets_of s) (t_allocated t) (t_tmp t) (t_freed t) None
    (t_min_free t) (t_last_free t) (t_last_tmp t) (f_count s) (f_queue s) (TS (t_failed t) (f_answers s)).

(** The transaction as it is then; one that an access has failed is not active any more
    ([transaction_fail]). *)
Definition put_view (id : nat) (t : tr) (v : astate T) (s : fsys) : fsys :=
  let t' := Tr (ts_failed (a_t v)) (t_complete t) (a_min_free v) (a_last_free v) (a_last_tmp v) (a_allocated v) (a_tmp v) (a_freed v) in
  Fsys (f_free s) (<[id := t']> (f_trs s)) (f_list s) (if ts_failed (a_t v) then filter (fun j => j <> id) (f_active s) else f_active s) (f_count s) (a_queue v) (ts_answers (a_t v)).

Definition on_tr {A} (id : nat) (m : M (astate T) A) : F A := fun s =>
  match f_trs s !! id with
  | None => Fault NullDeref
  | Some t => match m (view id t s) with Ret a v => Ret a (put_view id t v s) | Fault f => Fault f end
  end.

(** ** Transactions *)

Definition transaction_delete_active (id : nat) : F unit :=
  a ← transaction_is_active id;
  assert_ a;;
  modify (fun s => set_active (filter (fun j => j <> id) (f_active s)) s).

Definition transaction_fail (id : nat) : F unit :=
  t ← get_tr id;
  assert_ (negb (t_failed t));;
  put_tr id (tr_set_failed true t);;
  if t_complete t then mret tt else transaction_delete_active id.

Definition transaction_activate (id : nat) : F unit :=
  t ← get_tr id;
  a ← transaction_is_active id;
  assert_ (negb a);;
  put_tr id (Tr false false 0 0 0 block_set_init block_set_init block_set_init);;
  modify (fun s => set_active (f_active s ++ [id]) s).

Definition transaction_init (id : nat) (activate : bool) : F unit :=
  put_tr id (Tr false false 0 0 0 (BlockSet bt_empty block_range_clear false) (BlockSet bt_empty block_range_clear false) (BlockSet bt_empty block_range_clear false));;
  modify (fun s => set_list (f_list s ++ [id]) s);;
  when activate (transaction_activate id).

(** The memory of the transaction is the caller's to use again; that its files are closed
    is the matter of the file layer. *)
Definition transaction_free (id : nat) : F unit :=
  a ← transaction_is_active id;
  assert_ (negb a);;
  s ← get;
  assert_ (bool_decide (id ∈ f_list s));;
  modify (fun s => set_trs (delete id (f_trs s)) (set_list (filter (fun j => j <> id) (f_list s)) s)).

Definition tr_allocate (id : nat) (is_tmp : bool) : F Z :=
  t ← get_tr id;
  a ← transaction_is_active id;
  assert_ (t_failed t || a);;
  on_tr id (block_allocate_etc clean is_tmp).

Definition tr_free (id : nat) (block : Z) (is_tmp : bool) : F unit := on_tr id (block_free_etc clean block is_tmp).

(** Whether a block that is to be written has to be copied first. *)
Definition transaction_block_need_copy (block : Z) : M (astate T) bool :=
  assert_ (negb (block =? 0));;
  s ← get;
  x ← lift (block_set_block_in_set (a_tmp s) block);
  assert_ (negb x);;
  y ← block_allocator_allocation_queued block true;
  assert_ (negb y);;
  x ← lift (block_set_block_in_set (a_allocated s) block);
  if x : bool then mret false
  else
    y ← block_allocator_allocation_queued block false;
    mret (negb y).

(** ** The commit *)

Section complete.
(** What [file_transaction_complete] does, and [fs->reserved_count]. *)
Context (file_complete : M (astate T) unit) (reserved : Z).

(** From the copy of the free set to the super block.  [super]: whether
    [update_super_block] could start, and whether the block was written; if not it is not
    known what is on the disk, and an assertion stops the program.  The access is
    [block_cache_clean_transaction], which writes the blocks of the transaction. *)
Definition commit_sets (new_free : block_set T) (super : option bool) : M (astate T) (option (block_set T)) :=
  file_complete;;
  f ← tr_failed;
  if f : bool then mret None
  else
    modify (set_new_free new_free);;
    s ← get;
    transaction_merge_free_sets clean (a_allocated s) (a_freed s);;
    f ← tr_failed;
    if f : bool then mret None
    else
      new_free ← new_free_set;
      ok ← transaction_check_free new_free reserved;
      if negb ok then f ← tr_failed; when (negb f) tr_fail;; mret None
      else
        f ← tr_failed;
        if f : bool then mret None
        else
          lift access;;
          f ← tr_failed;
          if f : bool then mret None
          else
            e ← block_range_empty (bs_initial new_free);
            assert_ e;;
            match super with
            | None => tr_fail;; mret None
            | Some written => assert_ written;; mret (Some new_free)
            end.

Fixpoint fail_conflicting (id : nat) (l : list nat) : F unit :=
  match l with
  | [] => mret tt
  | j :: l' =>
      t ← get_tr id;
      if t_failed t then mret tt
      else
        a ← transaction_is_active j;
        if negb a then fail_conflicting id l'
        else
          other ← get_tr j;
          o ← on_tr id (lift (block_set_overlap (t_freed t) (t_freed other)));
          when o (transaction_fail j);;
          fail_conflicting id l'
  end.

Definition fail_active (l : list nat) : F unit := mfor (fun j => a ← transaction_is_active j; when a (transaction_fail j)) l.

(** [losers]: the transactions that [file_transaction_success] fails. *)
Definition transaction_complete (id : nat) (super : option bool) (losers : list nat) : F unit :=
  t ← get_tr id;
  assert_ (negb (t_complete t));;
  new_free ← on_tr id (v ← get; lift (block_set_copy (a_free v)));
  t ← get_tr id;
  if t_failed t then mret tt
  else
    a ← transaction_is_active id;
    assert_ a;;
    r ← on_tr id (commit_sets new_free super);
    match r with
    | None => mret tt
    | Some new_free =>
        modify (fun s => set_free (BlockSet (bs_tree new_free) block_range_clear (bs_updating (f_free s))) s);;
        transaction_delete_active id;;
        t ← get_tr id;
        put_tr id (tr_set_complete true t);;
        mfor transaction_fail losers;;
        t ← get_tr id;
        assert_ (negb (t_failed t));;
        s ← get;
        fail_conflicting id (f_list s);;
        t ← get_tr id;
        when (t_failed t) (put_tr id (tr_set_failed false t);; s ← get; fail_active (f_list s));;
        t ← get_tr id;
        assert_ (negb (t_failed t))
    end.
End complete.
End model.
Arguments tr T : clear implicits.
Arguments fsys T : clear implicits.

Lemma wp_mono_run {S A} (m : M S A) (P Q : A -> S -> Prop) s : wp m P s -> (forall a s', m s = Ret a s' -> P a s' -> Q a s') -> wp m Q s.
Proof. unfold wp. intros H HQ. destruct (m s) as [a s'|]; [by apply HQ|done]. Qed.

(** A calm routine, where [H] says that it is one. *)
Lemma wp_calm {S A} (pr : S -> tstate) (H : Prop) (m : M S A) (P : A -> S -> Prop) s : (H -> calm pr m) -> wp m P s ->
  wp m (fun a s' => P a s' /\ (H -> quiet (pr s) -> quiet (pr s') /\ ts_failed (pr s') = ts_failed (pr s))) s.
Proof. intros Hm HP. eapply wp_mono_run; [exact HP|]. intros a s' E HPa. split; [done|]. intros HH Hq. exact (calm_run pr m s a s' (Hm HH) Hq E). Qed.

Lemma calm_copy {T} {bt : block_tree T} (src : block_set T) : calm (fun t => t) (block_set_copy src).
Proof. unfold block_set_copy. calm. Qed.
Lemma calm_check_free {T} {bt : block_tree T} (set : block_set T) n : calm (a_t (T := T)) (transaction_check_free set n).
Proof.
  unfold transaction_check_free. generalize (2 + length (bt_entries (bs_tree set)))%nat, 0, n. intros fuel. induction fuel as [|fuel IH]; intros m n'; cbn [check_free_loop]; calm. apply calm_lift, calm_find_range.
Qed.

(** ** Enough free blocks *)

Section check_free.
Context {T : Type} {bt : block_tree T} {laws : block_tree_laws T} (min max : Z).
Implicit Types (s : astate T) (set : block_set T).

(** [n] different blocks of the set from [m] on. *)
Definition enough set (m n : Z) : Prop := exists l, NoDup l /\ Forall (fun x => m <= x /\ in_blocks set x) l /\ n <= Z.of_nat (length l).

(** The same of a set of blocks as such. *)
Definition enough_in (P : Z -> Prop) (n : Z) : Prop := exists l, NoDup l /\ Forall P l /\ n <= Z.of_nat (length l).

Lemma enough_in_set set (P : Z -> Prop) n : set_ok min max set -> (forall x, in_blocks set x <-> P x) -> enough_in P n -> enough set 0 n.
Proof.
  intros Hok HP (l & H1 & H2 & H3). exists l. split; [done|]. split; [|done]. eapply Forall_impl; [exact H2|]. intros x Hx%HP. split; [|done]. pose proof (in_blocks_bounds _ _ _ _ Hok Hx). pose proof (so_min _ _ _ Hok). lia.
Qed.

Lemma enough_range set m n r : whole (set_ranges set) m r -> n <= br_end r - br_start r -> enough set m n.
Proof.
  intros (R1 & R2 & R3 & _) Hn. exists (seqZ (br_start r) (br_end r - br_start r)). split; [apply NoDup_seqZ|]. split; [|rewrite length_seqZ; lia].
  apply Forall_forall. intros x Hx. apply elem_of_seqZ in Hx. split; [lia|]. apply R3. lia.
Qed.

Lemma enough_more set m n r : whole (set_ranges set) m r -> enough set m n <-> br_end r - br_start r >= n \/ enough set (br_end r) (n - (br_end r - br_start r)).
Proof.
  intros Hw. pose proof Hw as (R1 & R2 & R3 & R4 & _). set (c := br_end r - br_start r). split.
  - intros (l & Hd & Hl & Hn). right. exists (filter (fun x => br_end r <= x) l). split; [by apply NoDup_filter|]. split.
    + apply Forall_forall. intros x Hx. apply list_elem_of_filter in Hx as [Hx1 Hx2]. rewrite Forall_forall in Hl. split; [done|]. by apply Hl.
    + assert (length (filter (fun x => ~ (br_end r <= x)%Z) l) <= length (seqZ (br_start r) c))%nat as Hlen.
      { apply submseteq_length, NoDup_submseteq; [by apply NoDup_filter|]. intros x Hx. apply list_elem_of_filter in Hx as [Hx1 Hx2]. rewrite Forall_forall in Hl. destruct (Hl x Hx2) as [H1 H2].
        apply elem_of_seqZ. destruct (Z.lt_ge_cases x (br_start r)); [exfalso; by apply (R4 x); [lia|]|unfold c; lia]. }
      rewrite length_seqZ in Hlen. pose proof (Permutation_length (filter_app_complement (fun x => br_end r <= x) l)) as Hp. rewrite length_app in Hp. unfold c in *. lia.
  - intros [Hc|(l & Hd & Hl & Hn)]; [eapply enough_range; [done|unfold c in *; lia]|]. exists (seqZ (br_start r) c ++ l). split; [|split].
    + apply NoDup_app. split; [apply NoDup_seqZ|]. split; [|done]. intros x Hx Hx'. apply elem_of_seqZ in Hx. rewrite Forall_forall in Hl. destruct (Hl x Hx'). unfold c in *. lia.
    + apply Forall_app. split; apply Forall_forall; intros x Hx; [apply elem_of_seqZ in Hx; split; [lia|]; apply R3; unfold c in *; lia|]. rewrite Forall_forall in Hl. destruct (Hl x Hx). split; [lia|done].
    + rewrite length_app, length_seqZ. unfold c in *. lia.
Qed.

Lemma check_free_loop_wp fuel set : set_ok min max set -> forall m n s, 0 <= m -> (left_after (set_ranges set) m < fuel)%nat ->
  wp (check_free_loop fuel set n m) (fun r s' => searched s s' /\ (ts_failed (a_t s) = true -> ts_failed (a_t s') = true) /\ if r : bool then enough set m n else ts_failed (a_t s') = true \/ (0 < n -> ~ enough set m n)) s.
Proof.
  intros Hok. induction fuel as [|fuel IH]; intros m n s Hm Hfuel; [lia|]. cbn [check_free_loop]. apply wp_bind, wp_lift. eapply wp_mono; [by eapply next_range_wp|]. intros r t [Hmono Hr]. cbn [set_t a_t] in *.
  assert (br_start r <= br_end r) as Hle by (destruct Hr as [(-> & _)|(_ & ? & _)]; lia). apply wp_bind, wp_empty; [done|]. destruct (Z.eqb_spec (br_start r) (br_end r)) as [E|E].
  - apply wp_ret. split; [done|]. split; [done|]. destruct Hr as [(_ & _ & [Hf|Hno])|(_ & ? & _)]; [by left|right|lia]. intros Hn (l & _ & Hl & Hlen). destruct l as [|x l]; [cbn in Hlen; lia|]. inversion Hl as [|? ? [H1 H2] _]. subst. by apply (Hno x).
  - destruct Hr as [(? & _)|Hw]; [done|]. pose proof Hw as (R1 & R2 & _). rewrite Z.geb_leb. destruct (Z.leb_spec n (br_end r - br_start r)) as [Hc|Hc].
    + apply wp_ret. split; [done|]. split; [done|]. by eapply enough_range.
    + eapply wp_mono; [apply IH; [lia|]|].
      * pose proof (left_after_lt _ _ _ (br_end r) Hw ltac:(lia)). pose proof (left_after_mono (set_ranges set) m (br_start r) R1). lia.
      * cbn [set_t a_t]. intros b s' (Hs & Hmono' & Hb). split; [by etransitivity; [apply searched_set_t|exact Hs]|]. split; [auto|]. destruct b; [by apply (enough_more _ _ _ _ Hw); right|]. destruct Hb as [?|Hb]; [by left|right].
        intros Hn [?|He]%(enough_more _ _ _ _ Hw); [lia|]. apply Hb; [lia|done].
Qed.

Lemma check_free_wp set n s : set_ok min max set ->
  wp (transaction_check_free set n) (fun r s' => searched s s' /\ (ts_failed (a_t s) = true -> ts_failed (a_t s') = true) /\ if r : bool then enough set 0 n else ts_failed (a_t s') = true \/ (0 < n -> ~ enough set 0 n)) s.
Proof.
  intros Hok. unfold transaction_check_free. apply check_free_loop_wp; [done|lia|]. unfold left_after. eapply Nat.le_lt_trans; [apply length_filter|]. unfold set_ranges. rewrite length_app. case_match; cbn; lia.
Qed.
End check_free.

(** ** One transaction *)

Section one.
Context {T : Type} {bt : block_tree T} {laws : block_tree_laws T} (clean : Z -> bool) (min max : Z).
Implicit Types (v : astate T) (set : block_set T).

(** The other active transactions hold none of its blocks. *)
Definition foreign v : Prop := ts_failed (a_t v) = false -> forall set x, set ∈ a_before v ++ a_after v -> in_blocks set x -> ~ in_blocks (a_allocated v) x /\ ~ in_blocks (a_tmp v) x.

(** What a transaction keeps up. *)
Definition own v : Prop := alloc_inv min max v /\ foreign v.

Lemma allocate_failed is_tmp v : ts_failed (a_t v) = true -> block_allocate_etc clean is_tmp v = Ret 0 v.
Proof. intros Hf. unfold block_allocate_etc, tr_failed, lift, failed, mbind, M_bind. cbn. rewrite Hf. by destruct v. Qed.

Lemma allocate_own is_tmp v : own v -> wp (block_allocate_etc clean is_tmp) (fun _ v' => own v' /\ steady v v') v.
Proof.
  intros [Hinv Hfor]. eapply wp_mono_run; [by apply allocate_wp|]. intros r v' E (Hinv' & Hst & Hr). split; [|done]. split; [done|]. intros Hf' set x Hset Hx. pose proof Hst as (_ & Eb & Ea). rewrite Eb, Ea in Hset.
  destruct (ts_failed (a_t v)) eqn:Hf; [rewrite allocate_failed in E by done; injection E as <- <-; congruence|]. destruct Hr as [[_ ?]|(_ & _ & [_ Hu] & HX)]; [congruence|].
  destruct (Hfor Hf set x Hset Hx) as [H1 H2]. assert (x <> r) as Hne. { intros ->. rewrite Forall_forall in Hu. apply (Hu set); [|done]. unfold active_sets. set_solver. }
  specialize (HX x). tauto.
Qed.

Lemma free_own block is_tmp v : own v -> may_free clean min max v block is_tmp -> wp (block_free_etc clean block is_tmp) (fun _ v' => own v' /\ steady v v') v.
Proof.
  intros [Hinv Hfor] Hmay. eapply wp_mono; [by apply free_wp|]. intros _ v' (Hinv' & Hst & Hfr). split; [|done]. split; [done|]. intros Hf' set x Hset Hx. pose proof Hst as (_ & Eb & Ea). rewrite Eb, Ea in Hset.
  destruct (Hfor (proj1 (proj2 (proj2 Hmay))) set x Hset Hx) as [H1 H2]. destruct (Hfr Hf' x) as (-> & -> & _). tauto.
Qed.

Lemma steady_trans v1 v2 v3 : steady v1 v2 -> steady v2 v3 -> steady v1 v3.
Proof. unfold steady. intros (? & ? & ?) (? & ? & ?). split_and!; congruence. Qed.

Lemma step_own v v' : own v -> alloc_step clean min max v v' -> own v' /\ steady v v'.
Proof.
  intros Hown Hstep. destruct Hstep as [is_tmp r v v' E|block is_tmp v v' Hmay E].
  - pose proof (allocate_own is_tmp v Hown) as H. unfold wp in H. by rewrite E in H.
  - pose proof (free_own block is_tmp v Hown Hmay) as H. unfold wp in H. by rewrite E in H.
Qed.

(** The work of the file layer at a commit: allocations and frees; and it may fail the
    transaction where a file that it adds is there already. *)
Definition work v v' : Prop := exists vm, rtc (alloc_step clean min max) v vm /\ (v' = vm \/ v' = set_t (set_failed true (a_t vm)) vm).

Lemma work_own v v' : own v -> work v v' -> own v' /\ steady v v'.
Proof.
  intros Hown (vm & Hr & Hv').
  assert (own vm /\ steady v vm) as [Hm Hst]. { clear Hv'. induction Hr as [|v1 v2 v3 Hstep _ IH]; [done|]. destruct (step_own _ _ Hown Hstep) as [H1 H2]. destruct (IH H1) as [H3 H4]. split; [done|]. by eapply steady_trans. }
  destruct Hv' as [->| ->]; [done|]. split; [|done]. destruct Hm as [Hm _]. split; [by apply inv_failed|]. by intros Hf.
Qed.

(** ** What a commit makes of the sets *)

Section commit.
Context (file_complete : M (astate T) unit) (reserved : Z) (file_work : forall v, own v -> ts_failed (a_t v) = false -> wp file_complete (fun _ v' => work v v') v).

Definition committed v (new : block_set T) v' : Prop :=
  exists vm, own vm /\ steady v vm /\ ts_failed (a_t vm) = false /\ apart vm v' /\ ts_failed (a_t v') = false /\
    (set_ok min max new /\ bs_initial new = block_range_clear /\ bt_valid (bs_tree new) = true) /\ enough new 0 reserved /\
    forall x, in_blocks new x <-> (in_blocks (a_free v) x /\ ~ in_blocks (a_allocated vm) x) \/ in_blocks (a_freed vm) x.

Lemma searched_queue v v' : searched v v' -> a_queue v' = a_queue v.
Proof. by intros ->. Qed.
Lemma searched_apart v v' : searched v v' -> apart v v' /\ a_new_free v' = a_new_free v.
Proof. by intros ->. Qed.

Lemma set_inv_ok set t : set_inv min max set t -> ts_failed t = false -> set_ok min max set /\ bs_updating set = false /\ bs_initial set = block_range_clear.
Proof. intros [Hi [?|[? ?]]] Hf; [congruence|done]. Qed.

(** Nothing goes wrong on the way: the file layer is calm, the accesses succeed and the
    super block is written. *)
Definition smooth (super : option bool) (tst : tstate) : Prop := calm (a_t (T := T)) file_complete /\ quiet tst /\ super = Some true.

(** Then there is but one reason for a commit to fail. *)
Definition too_full (super : option bool) v v' : Prop :=
  smooth super (a_t v) -> 0 < reserved -> ~ enough_in (fun x => (in_blocks (a_free v) x /\ ~ in_blocks (a_allocated v') x) \/ in_blocks (a_freed v') x) reserved.

Lemma commit_sets_wp new_free super v : own v -> ts_failed (a_t v) = false -> set_inv min max new_free (a_t v) -> bt_valid (bs_tree new_free) = true -> (forall x, in_blocks new_free x <-> in_blocks (a_free v) x) -> super <> Some false ->
  wp (commit_sets clean file_complete reserved new_free super) (fun r v' => queue_idle (a_queue v') /\ match r with None => ts_failed (a_t v') = true /\ too_full super v v' | Some new => committed v new v' end) v.
Proof.
  intros Hown Hf Hnew Hval Hsame Hsup. unfold commit_sets. set (H := calm (a_t (T := T)) file_complete).
  apply wp_bind. eapply wp_mono; [apply (wp_calm a_t H); [done|by apply file_work]|]. intros u v1 [Hw HQ1]. cbn beta in Hw. destruct (work_own _ _ Hown Hw) as [Hown1 Hst]. pose proof Hown1 as [Hinv1 _].
  apply wp_bind, wp_tr_failed. destruct (ts_failed (a_t v1)) eqn:Hf1; [apply wp_ret; split; [by apply Hinv1|]; split; [done|]; intros (HH & Hqt & _); destruct (HQ1 HH Hqt); congruence|].
  apply wp_bind, wp_modify, wp_bind, wp_get. cbn [set_new_free a_allocated a_freed].
  destruct (set_inv_ok _ _ (ai_allocated _ _ _ Hinv1) Hf1) as (Ha & _), (set_inv_ok _ _ (ai_freed _ _ _ Hinv1) Hf1) as (Hfr & _). pose proof Hst as (Ef & _). pose proof (ai_apart _ _ _ Hinv1 Hf1) as Hap.
  apply wp_bind. eapply wp_mono; [apply (wp_calm a_t True); [intros _; apply calm_merge|apply (merge_wp clean min max new_free _ _ True); try done]|].
  - by eapply set_inv_t; [exact Hnew|congruence].
  - intros x Hx. apply Hsame. rewrite <- Ef. specialize (Hap x). tauto.
  - intros x Hx Hin. apply Hsame in Hin. rewrite <- Ef in Hin. specialize (Hap x). tauto.
  - apply Hinv1.
  - apply Hinv1.
  - intros u2 v2 [(Hq2 & Hap2 & Hdone) HQ2]. cbn [set_new_free a_t] in HQ2. apply wp_bind, wp_tr_failed.
    destruct (ts_failed (a_t v2)) eqn:Hf2; [apply wp_ret; split; [done|]; split; [done|]; intros (HH & Hqt & _); destruct (HQ1 HH Hqt) as [Hqt1 _], (HQ2 I Hqt1); congruence|]. destruct (Hdone eq_refl) as (new & En & (Hok & Hi & Hv) & HX). specialize (Hv I).
    unfold new_free_set. apply wp_bind, wp_bind, wp_get. rewrite En. apply wp_ret. apply wp_bind. eapply wp_mono; [apply (wp_calm a_t True); [intros _; apply calm_check_free|by apply (check_free_wp min max)]|]. intros ok v3 [(Hs3 & _ & Hck) HQ3].
    assert (smooth super (a_t v) -> quiet (a_t v3) /\ ts_failed (a_t v3) = false) as HQ by (intros (HH & Hqt & _); destruct (HQ1 HH Hqt) as [Hqt1 _], (HQ2 I Hqt1) as [Hqt2 _], (HQ3 I Hqt2) as [Hqt3 E3]; split; [done|congruence]). pose proof (searched_queue _ _ Hs3) as Eq3. rewrite <- Eq3 in Hq2.
    destruct ok; cbn [negb].
    2:{ assert (apart v1 v3) as (_ & A2 & _ & A4 & _) by (rewrite Hs3; exact Hap2).
        assert (too_full super v v3) as Hfull. { intros Hsm Hpos He. destruct Hck as [Hx|Hck]; [destruct (HQ Hsm); congruence|]. apply (Hck Hpos). eapply (enough_in_set min max); [exact Hok| |exact He]. intros x. cbn beta. rewrite HX, A2, A4. cbn. by rewrite Hsame. }
        apply wp_bind, wp_tr_failed. apply wp_bind, wp_when; [intros _; by apply wp_modify, wp_ret|]. intros Hx%negb_false_iff. by apply wp_ret. }
    apply wp_bind, wp_tr_failed. destruct (ts_failed (a_t v3)) eqn:Hf3; [apply wp_ret; split; [done|]; split; [done|]; intros Hsm; destruct (HQ Hsm); congruence|].
    apply wp_bind, wp_lift. eapply wp_mono; [apply (wp_calm (fun t => t) True); [intros _; apply calm_access|apply (wp_access (fun _ _ => True)); done]|]. intros ok t4 [_ HQ4]. apply wp_bind, wp_tr_failed. cbn [set_t a_t].
    destruct (ts_failed t4) eqn:Ht4; [apply wp_ret; split; [done|]; split; [done|]; intros Hsm; destruct (HQ Hsm) as [Hqt3 E3]; destruct (HQ4 I Hqt3); congruence|]. apply wp_bind, wp_empty; [by rewrite Hi|]. rewrite Hi. apply wp_bind, wp_assert; [done|]. destruct super as [[]|]; [| done |].
    + apply wp_bind, wp_assert; [done|]. apply wp_ret. split; [done|]. exists v1. split; [done|]. split; [done|]. split; [done|]. split; [by rewrite Hs3|]. split; [cbn; congruence|]. split; [done|]. split; [done|]. intros x. rewrite HX. cbn. by rewrite Hsame.
    + apply wp_bind, wp_modify, wp_ret. split; [done|]. split; [done|]. by intros (_ & _ & ?).
Qed.
End commit.

(** Copy-on-write: a block is copied unless this transaction has allocated it. *)
Lemma queued_idle block is_tmp (Q : bool -> astate T -> Prop) v : queue_idle (a_queue v) -> Q false v -> wp (block_allocator_allocation_queued block is_tmp) Q v.
Proof.
  intros (Hwf & _ & He) HQ. unfold block_allocator_allocation_queued, block_allocator_queue_find. apply wp_bind, wp_bind, wp_get. apply wp_bind, wp_queue_ok; [done|]. cbn [queue_find_loop]. rewrite He, Nat.eqb_refl. by apply wp_ret, wp_ret.
Qed.

Lemma need_copy_wp block v : alloc_inv min max v -> ts_failed (a_t v) = false -> 1 <= block -> ~ in_blocks (a_tmp v) block ->
  wp (transaction_block_need_copy block) (fun r v' => searched v v' /\ (ts_failed (a_t v') = true \/ (r = true <-> ~ in_blocks (a_allocated v) block))) v.
Proof.
  intros Hinv Hf Hb Hn. destruct (set_inv_ok _ _ (ai_allocated _ _ _ Hinv) Hf) as (Ha & _), (set_inv_ok _ _ (ai_tmp _ _ _ Hinv) Hf) as (Ht & _). unfold transaction_block_need_copy. apply wp_bind, wp_assert; [apply negb_true_iff, Z.eqb_neq; lia|].
  apply wp_bind, wp_get. apply wp_bind, wp_lift. eapply wp_mono; [by apply (in_set_wp clean min max)|]. intros x t1 (_ & H1 & _). apply wp_bind, wp_assert; [destruct x; [by destruct (Hn (H1 eq_refl))|done]|]. apply wp_bind, queued_idle; [apply Hinv|]. apply wp_bind, wp_assert; [done|].
  apply wp_bind, wp_lift. eapply wp_mono; [by apply (in_set_wp clean min max)|]. intros y t2 (_ & H2 & H3). cbn [set_t a_allocated] in *. destruct y.
  - apply wp_ret. split; [done|]. right. specialize (H2 eq_refl). split; [done|]. intros Hx. by destruct Hx.
  - apply wp_bind, queued_idle; [apply Hinv|]. apply wp_ret. split; [done|]. destruct (H3 eq_refl) as [?|H]; [by left|]. right. done.
Qed.
End one.

(** ** The system *)

Section lists.
Lemma before_elem id l j : j ∈ before id l -> j ∈ l /\ j <> id.
Proof. induction l as [|k l IH]; cbn; [by intros ?%elem_of_nil|]. case_decide as Hd; [by intros ?%elem_of_nil|]. rewrite !elem_of_cons. intros [->|Hin]; [by split; [left|]|]. destruct (IH Hin). split; [by right|done]. Qed.
Lemma after_elem id l j : NoDup l -> j ∈ after id l -> j ∈ l /\ j <> id.
Proof.
  intros Hd. induction Hd as [|k l Hk Hd IH]; cbn; [by intros ?%elem_of_nil|]. case_decide as E; rewrite ?elem_of_cons; intros Hin; [subst; split; [by right|by intros ->]|]. destruct (IH Hin). split; [by right|done].
Qed.
Lemma others_elem id l j : j ∈ l -> j <> id -> j ∈ before id l \/ j ∈ after id l.
Proof. induction l as [|k l IH]; cbn; [by intros ?%elem_of_nil|]. rewrite elem_of_cons. intros [->|Hin] Hne; case_decide as Hd; subst; try done; [left; by left|by right|]. destruct (IH Hin Hne); [left; by right|by right]. Qed.
End lists.

Section system.
Context {T : Type} {bt : block_tree T} {laws : block_tree_laws T} (clean : Z -> bool) (min max : Z).
Implicit Types (s : fsys T) (t : tr T).

Definition good (set : block_set T) : Prop := set_ok min max set /\ bs_updating set = false /\ bs_initial set = block_range_clear.
Definition holds t (x : Z) : Prop := in_blocks (t_allocated t) x \/ in_blocks (t_tmp t) x.

Record tr_ok t : Prop := {
  ok_failed : t_failed t = false;
  ok_complete : t_complete t = false;
  ok_min_free : t_min_free t = 0;
  ok_allocated : good (t_allocated t);
  ok_tmp : good (t_tmp t);
  ok_freed : good (t_freed t);
}.

(** What a transaction holds is of the committed free set, and only once; what it has
    freed is not of it, but for the blocks of [E]. *)
Definition tr_apart (free : block_set T) t (E : Z -> Prop) : Prop := forall x,
  (in_blocks (t_allocated t) x -> in_blocks free x /\ ~ in_blocks (t_tmp t) x) /\ (in_blocks (t_tmp t) x -> in_blocks free x) /\ (in_blocks (t_freed t) x -> in_blocks free x -> E x).

Record fs_gen (E : nat -> Z -> Prop) s : Prop := {
  fg_min : 1 <= min;
  fg_max : max < 2 ^ 64;
  fg_free : set_ok min max (f_free s);
  fg_root : bt_valid (bs_tree (f_free s)) = true <-> bs_initial (f_free s) = block_range_clear;
  fg_queue : queue_idle (f_queue s);
  fg_count : small_count (f_count s) /\ max <= f_count s;
  fg_nodup : NoDup (f_active s);
  fg_list : forall j, j ∈ f_active s -> j ∈ f_list s;
  fg_known : forall j, j ∈ f_list s -> is_Some (f_trs s !! j);
  fg_tr : forall j t, j ∈ f_active s -> f_trs s !! j = Some t -> tr_ok t /\ tr_apart (f_free s) t (E j);
  fg_disj : forall i j ti tj x, i ∈ f_active s -> j ∈ f_active s -> i <> j -> f_trs s !! i = Some ti -> f_trs s !! j = Some tj -> holds ti x -> ~ holds tj x;
}.

(** Between the steps of the transactions. *)
Definition fs_inv : fsys T -> Prop := fs_gen (fun _ _ => False).

Lemma active_tr E s j : fs_gen E s -> j ∈ f_active s -> exists t, f_trs s !! j = Some t /\ tr_ok t /\ tr_apart (f_free s) t (E j).
Proof. intros H Hj. destruct (fg_known _ _ H j (fg_list _ _ H j Hj)) as [t Ht]. exists t. split; [done|]. by apply (fg_tr _ _ H). Qed.

(** Fewer active transactions. *)
Lemma gen_less E E' s s' : fs_gen E s -> f_free s' = f_free s -> f_count s' = f_count s -> f_list s' = f_list s -> queue_idle (f_queue s') -> NoDup (f_active s') ->
  (forall j, j ∈ f_list s -> is_Some (f_trs s' !! j)) -> (forall j, j ∈ f_active s' -> j ∈ f_active s /\ f_trs s' !! j = f_trs s !! j) ->
  (forall j t x, j ∈ f_active s' -> f_trs s !! j = Some t -> in_blocks (t_freed t) x -> E j x -> E' j x) -> fs_gen E' s'.
Proof.
  intros [] Ef Ec El Hq Hn Hk Ha HE. split; try done; rewrite ?Ef, ?Ec, ?El; try done.
  - intros j Hj. apply fg_list0. by apply Ha.
  - intros j t Hj Ht. destruct (Ha j Hj) as [Hj' E0]. rewrite E0 in Ht. destruct (fg_tr0 j t Hj' Ht) as [H1 H2]. split; [done|]. intros x. destruct (H2 x) as (A & B & C). split; [done|]. split; [done|]. intros Hx Hfx. eapply HE; eauto.
  - intros i j ti tj x Hi Hj Hne Hti Htj. destruct (Ha i Hi) as [Hi' Ei], (Ha j Hj) as [Hj' Ej]. rewrite Ei in Hti. rewrite Ej in Htj. by apply (fg_disj0 i j).
Qed.

Lemma sets_elem s id set : set ∈ (before id (f_active s) ≫= sets_of s) ++ (after id (f_active s) ≫= sets_of s) -> NoDup (f_active s) ->
  exists j t, j ∈ f_active s /\ j <> id /\ f_trs s !! j = Some t /\ (set = t_allocated t \/ set = t_tmp t).
Proof.
  intros H Hd. assert (exists j, (j ∈ f_active s /\ j <> id) /\ set ∈ sets_of s j) as (j & [H1 H2] & H3).
  { apply elem_of_app in H as [H|H]; apply list_elem_of_bind in H as (j & H1 & H2); exists j; (split; [|done]); [by apply before_elem|by apply after_elem]. }
  unfold sets_of in H3. destruct (f_trs s !! j) as [t|] eqn:Et; [|by apply elem_of_nil in H3]. exists j, t. rewrite !elem_of_cons, elem_of_nil in H3. tauto.
Qed.
Lemma elem_sets s id j t set : j ∈ f_active s -> j <> id -> f_trs s !! j = Some t -> (set = t_allocated t \/ set = t_tmp t) -> set ∈ (before id (f_active s) ≫= sets_of s) ++ (after id (f_active s) ≫= sets_of s).
Proof.
  intros Hj Hne Ht Hs. assert (set ∈ sets_of s j) as Hin by (unfold sets_of; rewrite Ht, !elem_of_cons; tauto). apply elem_of_app. rewrite !list_elem_of_bind. destruct (others_elem _ _ _ Hj Hne); [left|right]; by exists j.
Qed.

Lemma good_inv set tst : good set -> set_inv min max set tst.
Proof. intros (H1 & H2 & H3). split; [done|]. by right. Qed.

(** The view of an active transaction. *)
Lemma view_own s id t : fs_inv s -> id ∈ f_active s -> f_trs s !! id = Some t -> own min max (view id t s).
Proof.
  intros Hs Hid Ht. pose proof Hs as []. destruct (fg_tr0 id t Hid Ht) as [[] Hap]. split.
  - split; cbn; try done; try (by apply good_inv).
    apply Forall_forall. intros set Hset. apply sets_elem in Hset as (j & tj & Hj & _ & Htj & Hset); [|done]. destruct (fg_tr0 j tj Hj Htj) as [[] _]. destruct Hset as [->| ->]; [apply ok_allocated1|apply ok_tmp1].
  - intros _ set x Hset Hx. cbn in Hset. apply sets_elem in Hset as (j & tj & Hj & Hne & Htj & Hset); [|done]. assert (holds tj x) as Hh by (destruct Hset as [->| ->]; [by left|by right]).
    pose proof (fg_disj0 j id tj t x Hj Hid Hne Htj Ht Hh) as Hno. unfold holds in Hno. cbn. tauto.
Qed.

Lemma put_failed E s id t (v : astate T) : fs_gen E s -> f_trs s !! id = Some t -> queue_idle (a_queue v) -> ts_failed (a_t v) = true -> fs_gen E (put_view id t v s).
Proof.
  intros Hs Ht Hq Hf. pose proof Hs as []. eapply gen_less; [exact Hs|..]; cbn; rewrite ?Hf; try done.
  - by apply NoDup_filter.
  - intros j Hj. destruct (decide (j = id)) as [->|]; [rewrite lookup_insert_eq; eauto|rewrite lookup_insert_ne by done; auto].
  - intros j [Hne Hj]%list_elem_of_filter. split; [done|]. by rewrite lookup_insert_ne.
Qed.

Lemma put_own s id t (v : astate T) : fs_inv s -> id ∈ f_active s -> f_trs s !! id = Some t -> own min max v -> steady (view id t s) v -> fs_inv (put_view id t v s).
Proof.
  intros Hs Hid Ht [Hinv Hfor] (Ef & Eb & Ea). destruct (ts_failed (a_t v)) eqn:Hf; [by apply put_failed; [..|apply Hinv|]|]. cbn in Ef, Eb, Ea. specialize (Hfor Hf). rewrite Eb, Ea in Hfor.
  pose proof Hs as []. pose proof (fg_tr0 id t Hid Ht) as [[] _]. pose proof (ai_apart _ _ _ Hinv Hf) as Hown. rewrite Ef in Hown. pose proof Hinv as [].
  assert (forall set, set_inv min max set (a_t v) -> good set) as Hgood by (intros set Hset; by apply (set_inv_ok min max set (a_t v))).
  assert (forall j tj x, j ∈ f_active s -> j <> id -> f_trs s !! j = Some tj -> holds tj x -> ~ in_blocks (a_allocated v) x /\ ~ in_blocks (a_tmp v) x) as Hapart.
  { intros j tj x Hj Hne Htj [Hx|Hx]; (eapply Hfor; [|exact Hx]); (eapply elem_sets; [exact Hj|done|done|]); [by left|by right]. }
  split; cbn; rewrite ?Hf; try done.
  - intros j Hj. destruct (decide (j = id)) as [->|]; [rewrite lookup_insert_eq; eauto|rewrite lookup_insert_ne by done; auto].
  - intros j tj Hj Htj. destruct (decide (j = id)) as [->|Hne].
    + rewrite lookup_insert_eq in Htj. injection Htj as <-. split; [split; cbn; auto|]. intros x. destruct (Hown x) as (A & B & C). split; [done|]. split; [done|]. intros H1 H2. by apply C.
    + rewrite lookup_insert_ne in Htj by done. by eapply fg_tr0.
  - intros i j ti tj x Hi Hj Hne Hti Htj Hx Hy. destruct (decide (i = id)) as [->|Hni], (decide (j = id)) as [->|Hnj]; try done.
    + rewrite lookup_insert_eq in Hti. rewrite lookup_insert_ne in Htj by done. injection Hti as <-. destruct (Hapart j tj x Hj Hnj Htj Hy). unfold holds in Hx. cbn in Hx. tauto.
    + rewrite lookup_insert_eq in Htj. rewrite lookup_insert_ne in Hti by done. injection Htj as <-. destruct (Hapart i ti x Hi Hni Hti Hx). unfold holds in Hy. cbn in Hy. tauto.
    + rewrite lookup_insert_ne in Hti, Htj by done. by apply (fg_disj0 i j ti tj x).
Qed.

(** *** The calls *)

Lemma wp_get_tr id t (Q : tr T -> fsys T -> Prop) s : f_trs s !! id = Some t -> Q t s -> wp (get_tr id) Q s.
Proof. intros E HQ. unfold get_tr. apply wp_bind, wp_get. rewrite E. by apply wp_ret. Qed.
Lemma wp_active id (Q : bool -> fsys T -> Prop) s : Q (bool_decide (id ∈ f_active s)) s -> wp (transaction_is_active id) Q s.
Proof. intros HQ. unfold transaction_is_active. by apply wp_bind, wp_get, wp_ret. Qed.
Lemma wp_on_tr {A} id t (m : M (astate T) A) (Q : A -> fsys T -> Prop) s : f_trs s !! id = Some t -> wp m (fun a v => Q a (put_view id t v s)) (view id t s) -> wp (on_tr id m) Q s.
Proof. intros E H. unfold wp, on_tr in *. rewrite E. by destruct (m (view id t s)). Qed.

(** What fails transactions and leaves the others alone, [id] among them. *)
Definition less (id : nat) s s' : Prop :=
  f_free s' = f_free s /\ f_list s' = f_list s /\ (forall j, j ∈ f_active s' -> j ∈ f_active s /\ f_trs s' !! j = f_trs s !! j) /\ f_trs s' !! id = f_trs s !! id.
Lemma less_refl id s : less id s s.
Proof. split_and!; try done. Qed.
Lemma less_trans id s1 s2 s3 : less id s1 s2 -> less id s2 s3 -> less id s1 s3.
Proof.
  intros (A1 & A2 & A3 & A4) (B1 & B2 & B3 & B4). split; [congruence|]. split; [congruence|]. split; [|congruence]. intros j Hj. destruct (B3 j Hj) as [H1 E1]. destruct (A3 j H1) as [H2 E2]. split; [done|congruence].
Qed.

Lemma fail_wp E s j : fs_gen E s -> j ∈ f_active s ->
  wp (transaction_fail j) (fun _ s' => fs_gen E s' /\ f_active s' = filter (fun k => k <> j) (f_active s) /\ forall id, id <> j -> less id s s') s.
Proof.
  intros Hs Hj. destruct (active_tr _ _ _ Hs Hj) as (t & Ht & [Hf Hc _ _ _ _] & _). unfold transaction_fail. apply wp_bind, (wp_get_tr j t); [done|]. rewrite Hf, Hc. apply wp_bind, wp_assert; [done|].
  unfold put_tr. apply wp_bind, wp_modify. unfold transaction_delete_active. apply wp_bind, wp_active. cbn [set_trs f_active]. rewrite bool_decide_true by done. apply wp_bind, wp_assert; [done|]. apply wp_modify. cbn [set_active set_trs f_active].
  assert (forall k, k ∈ filter (fun k => k <> j) (f_active s) -> k ∈ f_active s /\ <[j:=tr_set_failed true t]> (f_trs s) !! k = f_trs s !! k) as Hless.
  { intros k [Hne Hk]%list_elem_of_filter. split; [done|]. by rewrite lookup_insert_ne. }
  split; [|split; [done|]].
  - pose proof Hs as []. eapply gen_less; [exact Hs|..]; cbn; try done; [by apply NoDup_filter|]. intros k Hk. destruct (decide (k = j)) as [->|]; [rewrite lookup_insert_eq; eauto|rewrite lookup_insert_ne by done; auto].
  - intros id Hid. split; [done|]. split; [done|]. split; [done|]. cbn. by rewrite lookup_insert_ne.
Qed.

Lemma activate_wp s id : fs_inv s -> id ∈ f_list s -> id ∉ f_active s -> wp (transaction_activate id) (fun _ s' => fs_inv s' /\ f_free s' = f_free s) s.
Proof.
  intros Hs Hl Ha. pose proof Hs as []. destruct (fg_known0 id Hl) as [t Ht]. unfold transaction_activate. apply wp_bind, (wp_get_tr id t); [done|]. apply wp_bind, wp_active. rewrite bool_decide_false by done. apply wp_bind, wp_assert; [done|].
  unfold put_tr. apply wp_bind, wp_modify, wp_modify. split; [|done]. assert (good block_set_init) as Hgood by (split; [|done]; by apply (set_inv_ok min max block_set_init (TS false [])); [apply init_inv|]).
  assert (forall j, j ∈ f_active s -> j <> id) as Hne by (by intros j Hj ->).
  split; cbn; try done.
  - apply NoDup_app. split; [done|]. split; [|apply NoDup_singleton]. intros j Hj Hj'%list_elem_of_singleton. by subst.
  - intros j [Hj|Hj%list_elem_of_singleton]%elem_of_app; [auto|by subst].
  - intros j Hj. destruct (decide (j = id)) as [->|]; [rewrite lookup_insert_eq; eauto|rewrite lookup_insert_ne by done; auto].
  - intros j tj Hj Htj. destruct (decide (j = id)) as [->|Hn].
    + rewrite lookup_insert_eq in Htj. injection Htj as <-. split; [by split|]. intros x. cbn. rewrite !init_blocks. tauto.
    + rewrite lookup_insert_ne in Htj by done. apply elem_of_app in Hj as [Hj|Hj%list_elem_of_singleton]; [by eapply fg_tr0|done].
  - intros i j ti tj x Hi Hj Hn Hti Htj Hx Hy. assert (forall k tk y, <[id:=Tr false false 0 0 0 block_set_init block_set_init block_set_init]> (f_trs s) !! k = Some tk -> k ∈ f_active s ++ [id] -> holds tk y -> k ∈ f_active s /\ f_trs s !! k = Some tk) as Hold.
    { intros k tk y Hk Hka Hh. destruct (decide (k = id)) as [->|Hkn]; [rewrite lookup_insert_eq in Hk; injection Hk as <-; unfold holds in Hh; cbn in Hh; rewrite !init_blocks in Hh; tauto|].
      rewrite lookup_insert_ne in Hk by done. apply elem_of_app in Hka as [?|?%list_elem_of_singleton]; done. }
    destruct (Hold i ti x Hti Hi Hx) as [Hi' Hti'], (Hold j tj x Htj Hj Hy) as [Hj' Htj']. by apply (fg_disj0 i j ti tj x).
Qed.

Lemma init_wp s id activate : fs_inv s -> id ∉ f_list s -> wp (transaction_init id activate) (fun _ s' => fs_inv s' /\ f_free s' = f_free s) s.
Proof.
  intros Hs Hl. assert (id ∉ f_active s) as Ha by (intros Hx; by apply Hl, (fg_list _ _ Hs)). unfold transaction_init, put_tr. set (t0 := Tr _ _ _ _ _ _ _ _). apply wp_bind, wp_modify. apply wp_bind, wp_modify. set (s1 := set_list _ _).
  assert (fs_inv s1) as Hs1.
  { pose proof Hs as []. assert (forall j, j ∈ f_active s -> <[id:=t0]> (f_trs s) !! j = f_trs s !! j) as Hsame by (intros j Hj; rewrite lookup_insert_ne; [done|by intros <-]). split; cbn; try done.
    - intros j Hj. apply elem_of_app. left. auto.
    - intros j [Hj|Hj%list_elem_of_singleton]%elem_of_app; [|subst; rewrite lookup_insert_eq; eauto]. rewrite lookup_insert_ne by (by intros <-). auto.
    - intros j tj Hj. rewrite Hsame by done. exact (fg_tr0 j tj Hj).
    - intros i j ti tj x Hi Hj Hn. rewrite !Hsame by done. eauto. }
  apply wp_when; [|intros _; done]. intros _. eapply wp_mono; [apply activate_wp; [done|cbn; apply elem_of_app; right; by apply list_elem_of_singleton|done]|]. by intros ? s' [H1 ->].
Qed.

Lemma free_tr_wp s id : fs_inv s -> id ∈ f_list s -> id ∉ f_active s -> wp (transaction_free id) (fun _ s' => fs_inv s' /\ f_free s' = f_free s) s.
Proof.
  intros Hs Hl Ha. pose proof Hs as []. unfold transaction_free. apply wp_bind, wp_active. rewrite bool_decide_false by done. apply wp_bind, wp_assert; [done|]. apply wp_bind, wp_get. rewrite bool_decide_true by done. apply wp_bind, wp_assert; [done|]. apply wp_modify.
  split; [|done]. assert (forall j, j ∈ f_active s -> delete id (f_trs s) !! j = f_trs s !! j) as Hsame by (intros j Hj; rewrite lookup_delete_ne; [done|by intros <-]). split; cbn; try done.
  - intros j Hj. apply list_elem_of_filter. split; [by intros ->|auto].
  - intros j [Hne Hj]%list_elem_of_filter. rewrite lookup_delete_ne by done. auto.
  - intros j tj Hj. rewrite Hsame by done. exact (fg_tr0 j tj Hj).
  - intros i j ti tj x Hi Hj Hn. rewrite !Hsame by done. eauto.
Qed.

Lemma tr_allocate_wp s id is_tmp : fs_inv s -> id ∈ f_active s -> wp (tr_allocate clean id is_tmp) (fun _ s' => fs_inv s' /\ f_free s' = f_free s) s.
Proof.
  intros Hs Hid. destruct (active_tr _ _ _ Hs Hid) as (t & Ht & _). unfold tr_allocate. apply wp_bind, (wp_get_tr id t); [done|]. apply wp_bind, wp_active. rewrite bool_decide_true by done. apply wp_bind, wp_assert; [apply orb_true_r|].
  apply (wp_on_tr id t); [done|]. eapply wp_mono; [apply (allocate_own clean min max); by apply view_own|]. intros r v [Hown Hst]. split; [by apply put_own|done].
Qed.

Lemma tr_free_wp s id t block is_tmp : fs_inv s -> id ∈ f_active s -> f_trs s !! id = Some t -> may_free clean min max (view id t s) block is_tmp -> wp (tr_free clean id block is_tmp) (fun _ s' => fs_inv s' /\ f_free s' = f_free s) s.
Proof.
  intros Hs Hid Ht Hmay. unfold tr_free. apply (wp_on_tr id t); [done|]. eapply wp_mono; [apply (free_own clean min max); [by apply view_own|done]|]. intros r v [Hown Hst]. split; [by apply put_own|done].
Qed.

(** *** The commit *)

Lemma gen_weaken E E' s : fs_gen E s -> (forall j t x, j ∈ f_active s -> f_trs s !! j = Some t -> in_blocks (t_freed t) x -> E j x -> E' j x) -> fs_gen E' s.
Proof. intros Hs HE. pose proof Hs as []. by eapply gen_less; [exact Hs|..]. Qed.

Lemma losers_wp E id l : forall s, NoDup l -> Forall (fun j => j ∈ f_active s /\ j <> id) l -> fs_gen E s -> wp (mfor transaction_fail l) (fun _ s' => fs_gen E s' /\ less id s s') s.
Proof.
  induction l as [|j l IH]; intros s Hd Hl Hs; cbn [mfor]; [by apply wp_ret|]. apply NoDup_cons in Hd as [Hj Hd]. inversion Hl as [|? ? [Hja Hne] Hl']. subst. apply wp_bind. eapply wp_mono; [by apply fail_wp|]. intros u s1 (Hs1 & Ea & Hless).
  eapply wp_mono; [apply IH; [done| |done]|].
  - rewrite Ea. apply Forall_forall. intros k Hk. rewrite Forall_forall in Hl'. destruct (Hl' k Hk). split; [|done]. apply list_elem_of_filter. split; [by intros ->|done].
  - intros u' s2 [Hs2 Hl2]. split; [done|]. eapply less_trans; [by apply Hless|done].
Qed.

Lemma fail_active_wp E id l : forall s, fs_gen E s -> id ∉ f_active s -> wp (fail_active l) (fun _ s' => fs_gen E s' /\ less id s s' /\ forall j, j ∈ f_active s' -> j ∉ l) s.
Proof.
  unfold fail_active. induction l as [|j l IH]; intros s Hs Hid; cbn [mfor]; [apply wp_ret; split; [done|]; split; [apply less_refl|]; intros j _ ?%elem_of_nil; done|]. apply wp_bind, wp_bind, wp_active. apply wp_when.
  - intros Hj%bool_decide_eq_true. eapply wp_mono; [by apply fail_wp|]. intros u s1 (Hs1 & Ea & Hless). assert (id <> j) as Hne by (by intros ->). specialize (Hless id Hne).
    eapply wp_mono; [apply IH; [done|rewrite Ea; by intros [_ ?]%list_elem_of_filter]|]. intros u' s2 (Hs2 & Hl2 & Hno). split; [done|]. split; [by eapply less_trans|]. intros k Hk [->|?]%elem_of_cons; [|by apply (Hno k)].
    destruct Hl2 as (_ & _ & Hl2 & _). destruct (Hl2 j Hk) as [Hx _]. rewrite Ea in Hx. by apply list_elem_of_filter in Hx as [? _].
  - intros Hj%bool_decide_eq_false. eapply wp_mono; [by apply IH|]. intros u' s2 (Hs2 & Hl2 & Hno). split; [done|]. split; [done|]. intros k Hk [->|?]%elem_of_cons; [|by apply (Hno k)]. destruct Hl2 as (_ & _ & Hl2 & _). by destruct (Hl2 j Hk).
Qed.

(** The transaction that has committed keeps its sets. *)
Definition same_sets t t' : Prop := t_complete t' = t_complete t /\ t_allocated t' = t_allocated t /\ t_tmp t' = t_tmp t /\ t_freed t' = t_freed t.

Lemma conflict_wp id l : forall s t, f_trs s !! id = Some t -> id ∉ f_active s -> good (t_freed t) -> fs_gen (fun j x => (j ∈ l /\ in_blocks (t_freed t) x) \/ t_failed t = true) s ->
  wp (fail_conflicting id l) (fun _ s' => exists t', f_trs s' !! id = Some t' /\ same_sets t t' /\ id ∉ f_active s' /\ f_free s' = f_free s /\ fs_gen (fun _ _ => t_failed t' = true) s') s.
Proof.
  induction l as [|j l IH]; intros s t Ht Hid Hgood Hs; cbn [fail_conflicting].
  { apply wp_ret. exists t. split_and!; try done. eapply gen_weaken; [exact Hs|]. intros k tk x _ _ _ [[?%elem_of_nil _]|?]; done. }
  apply wp_bind, (wp_get_tr id t); [done|]. destruct (t_failed t) eqn:Hf. { apply wp_ret. exists t. split_and!; try done. eapply gen_weaken; [exact Hs|]. auto. }
  apply wp_bind, wp_active. case_bool_decide as Hj; cbn [negb].
  2:{ apply IH; try done. eapply gen_weaken; [exact Hs|]. intros k tk x Hk _ _ [[[->|Hkl]%elem_of_cons Hx]|?]; [done|left; done|done]. }
  assert (id <> j) as Hne by (by intros ->). destruct (active_tr _ _ _ Hs Hj) as (tj & Htj & [_ _ _ _ _ Hgj] & _). apply wp_bind, (wp_get_tr j tj); [done|]. apply wp_bind, (wp_on_tr id t); [done|].
  apply wp_lift. eapply wp_mono; [apply (overlap_wp min max); [apply Hgood|apply Hgj]|]. intros o tst Ho. set (s1 := put_view _ _ _ _).
  set (t1 := Tr (ts_failed tst) (t_complete t) (t_min_free t) (t_last_free t) (t_last_tmp t) (t_allocated t) (t_tmp t) (t_freed t)). assert (f_trs s1 !! id = Some t1) as Ht1 by apply lookup_insert_eq.
  assert (forall k, k ∈ f_active s1 <-> k ∈ f_active s) as Hact. { intros k. unfold s1, put_view. cbn. case_match; [|done]. rewrite list_elem_of_filter. split; [tauto|]. intros Hk. split; [by intros ->|done]. }
  assert (forall E, fs_gen E s -> fs_gen E s1) as Hgen1.
  { intros E HE. pose proof HE as []. eapply gen_less; [exact HE|..]; try done.
    - unfold s1, put_view. cbn. case_match; [by apply NoDup_filter|done].
    - intros k Hk. cbn. destruct (decide (k = id)) as [->|]; [rewrite lookup_insert_eq; eauto|rewrite lookup_insert_ne by done; auto].
    - intros k Hk%Hact. split; [done|]. cbn. rewrite lookup_insert_ne; [done|by intros ->]. }
  assert (forall s2, fs_gen (fun k x => (k ∈ l /\ in_blocks (t_freed t1) x) \/ t_failed t1 = true) s2 -> less id s1 s2 -> wp (fail_conflicting id l)
    (fun _ s' => exists t', f_trs s' !! id = Some t' /\ same_sets t t' /\ id ∉ f_active s' /\ f_free s' = f_free s /\ fs_gen (fun _ _ => t_failed t' = true) s') s2) as Hnext.
  { intros s2 Hs2 (L1 & _ & L3 & L4). eapply wp_mono; [apply (IH s2 t1); [congruence| |done|done]|].
    - intros Hx. destruct (L3 _ Hx) as [Hx' _]. by apply Hact in Hx'.
    - intros u s' (t' & H1 & H2 & H3 & H4 & H5). exists t'. split; [done|]. split; [done|]. split; [done|]. split; [by rewrite H4, L1|done]. }
  apply wp_bind. apply wp_when; intros Eo; subst o.
  - eapply wp_mono; [apply (fail_wp (fun k x => (k ∈ j :: l /\ in_blocks (t_freed t) x) \/ false = true)); [by apply Hgen1|by apply Hact]|]. intros u s2 (Hs2 & Ea & Hless). apply Hnext; [|by apply Hless].
    eapply gen_weaken; [exact Hs2|]. intros k tk x Hk _ _ [[[->|Hkl]%elem_of_cons Hx]|?]; [|by left|done]. rewrite Ea in Hk. by apply list_elem_of_filter in Hk as [? _].
  - apply Hnext; [|apply less_refl]. apply Hgen1. eapply gen_weaken; [exact Hs|]. intros k tk x Hk Htk Hx [[[->|Hkl]%elem_of_cons Hx']|?]; [|by left|done]. right. cbn. destruct Ho as [?|Hno]; [done|]. exfalso. apply (Hno x). rewrite Htj in Htk. injection Htk as <-. by split.
Qed.

Context (file_complete : M (astate T) unit) (reserved : Z) (file_work : forall v, own min max v -> ts_failed (a_t v) = false -> wp file_complete (fun _ v' => work clean min max v v') v).

(** A commit: it fails and the free set stays, or what the transaction has allocated is
    taken from the free set, what it has freed is added, enough is left, and no active
    transaction goes on that has freed one of those blocks too. *)
Definition completed (id : nat) (super : option bool) s s' : Prop := exists t', f_trs s' !! id = Some t' /\ id ∉ f_active s' /\
  ((t_failed t' = true /\ f_free s' = f_free s /\
    (smooth file_complete super (TS false (f_answers s)) -> 0 < reserved -> ~ enough_in (fun x => (in_blocks (f_free s) x /\ ~ in_blocks (t_allocated t') x) \/ in_blocks (t_freed t') x) reserved)) \/
   (t_failed t' = false /\ t_complete t' = true /\ enough (f_free s') 0 reserved /\
    (forall x, in_blocks (f_free s') x <-> (in_blocks (f_free s) x /\ ~ in_blocks (t_allocated t') x) \/ in_blocks (t_freed t') x) /\
    forall j tj x, j ∈ f_active s' -> f_trs s' !! j = Some tj -> in_blocks (t_freed t') x -> ~ in_blocks (t_freed tj) x)).

(** The state with the new free set, before the others are looked at. *)
Definition swapped (id : nat) (new : block_set T) t s : fsys T :=
  set_trs (<[id := tr_set_complete true t]> (f_trs s)) (set_active (filter (fun j => j <> id) (f_active s)) (set_free (BlockSet (bs_tree new) block_range_clear (bs_updating (f_free s))) s)).

Lemma new_blocks (new : block_set T) u x : bs_initial new = block_range_clear -> in_blocks (BlockSet (bs_tree new) block_range_clear u) x <-> in_blocks new x.
Proof. intros Hi. by rewrite !blocks_tree. Qed.

Lemma enough_ext (set set' : block_set T) m n : (forall x, in_blocks set x <-> in_blocks set' x) -> enough set m n -> enough set' m n.
Proof. intros HX (l & H1 & H2 & H3). exists l. split; [done|]. split; [|done]. eapply Forall_impl; [exact H2|]. intros x [? ?]. split; [done|by apply HX]. Qed.

Lemma swap_gen s id t v new t2 : fs_inv s -> id ∈ f_active s -> f_trs s !! id = Some t -> committed min max reserved (view id t s) new v -> queue_idle (a_queue v) -> t_allocated t2 = a_allocated v -> t_freed t2 = a_freed v ->
  let s2 := put_view id t v s in
  good (t_freed t2) /\ enough (f_free (swapped id new t2 s2)) 0 reserved /\
  (forall x, in_blocks (f_free (swapped id new t2 s2)) x <-> (in_blocks (f_free s) x /\ ~ in_blocks (t_allocated t2) x) \/ in_blocks (t_freed t2) x) /\
  fs_gen (fun j x => (j ∈ f_list s2 /\ in_blocks (t_freed t2) x) \/ false = true) (swapped id new t2 s2).
Proof.
  intros Hs Hid Ht (vm & [Hinv Hfor] & (_ & Eb & Ea) & Hfm & (_ & Aa & _ & Af & _) & Hf & (Hok & Hi & Hv) & Hen & HX) Hq E1 E2 s2. rewrite Aa in E1. rewrite Af in E2.
  assert (forall x, in_blocks (f_free (swapped id new t2 s2)) x <-> (in_blocks (f_free s) x /\ ~ in_blocks (t_allocated t2) x) \/ in_blocks (t_freed t2) x) as HF by (intros x; cbn; rewrite new_blocks by done; rewrite HX, E1, E2; done).
  assert (good (t_freed t2)) as Hg by (rewrite E2; by apply (set_inv_ok min max _ (a_t vm)); [apply Hinv|]). split; [done|]. split; [|split; [done|]].
  { eapply enough_ext; [|exact Hen]. intros x. cbn. by rewrite new_blocks. }
  pose proof Hs as []. assert (forall j tj x, j ∈ f_active s -> j <> id -> f_trs s !! j = Some tj -> holds tj x -> ~ in_blocks (t_allocated t2) x) as Hap.
  { intros j tj x Hj Hne Htj Hh. specialize (Hfor Hfm). rewrite Eb, Ea in Hfor. rewrite E1. destruct Hh as [Hx|Hx]; (eapply Hfor; [|exact Hx]); (eapply elem_sets; [exact Hj|done|done|]); [by left|by right]. }
  assert (forall j, j ∈ f_active (swapped id new t2 s2) -> j ∈ f_active s /\ j <> id /\ f_trs (swapped id new t2 s2) !! j = f_trs s !! j) as Hold.
  { intros j Hj. unfold s2, put_view in Hj. cbn in Hj. rewrite Hf in Hj. apply list_elem_of_filter in Hj as [Hne Hj]. split; [done|]. split; [done|]. cbn. by rewrite !lookup_insert_ne. }
  split; try done.
  - split; [done|done|apply Hok|by left].
  - unfold s2, put_view. cbn. rewrite Hf. by apply NoDup_filter.
  - intros j Hj. destruct (Hold j Hj) as (H1 & _). by apply fg_list0.
  - intros j Hj. cbn. destruct (decide (j = id)) as [->|]; [rewrite lookup_insert_eq; eauto|rewrite !lookup_insert_ne by done; by apply fg_known0].
  - intros j tj Hj. destruct (Hold j Hj) as (Hja & Hne & ->). intros Htj. destruct (fg_tr0 j tj Hja Htj) as [H1 H2]. split; [done|]. intros x. rewrite HF. destruct (H2 x) as (A & B & C). specialize (Hap j tj x Hja Hne Htj). unfold holds in Hap.
    split; [intros Hx; destruct (A Hx); tauto|]. split; [intros Hx; specialize (B Hx); tauto|]. intros Hx [[Hx' _]|Hx']; [by destruct (C Hx Hx')|]. left. split; [by apply fg_list0|done].
  - intros i j ti tj x Hi' Hj Hne. destruct (Hold i Hi') as (Hia & _ & ->), (Hold j Hj) as (Hja & _ & ->). by apply fg_disj0.
Qed.

(** After the swap, everyone who is in conflict is out. *)
Lemma others_wp s id t losers : f_trs s !! id = Some t -> id ∉ f_active s -> good (t_freed t) -> t_failed t = false -> NoDup losers -> Forall (fun j => j ∈ f_active s /\ j <> id) losers ->
  fs_gen (fun j x => (j ∈ f_list s /\ in_blocks (t_freed t) x) \/ false = true) s ->
  wp (mfor transaction_fail losers;; t ← get_tr id; assert_ (negb (t_failed t));; s ← get; fail_conflicting id (f_list s);; t ← get_tr id; when (t_failed t) (put_tr id (tr_set_failed false t);; s ← get; fail_active (f_list s));; t ← get_tr id; assert_ (negb (t_failed t)))
    (fun _ s' => fs_inv s' /\ f_free s' = f_free s /\ exists t', f_trs s' !! id = Some t' /\ same_sets t t' /\ id ∉ f_active s' /\ t_failed t' = false) s.
Proof.
  intros Ht Hid Hg Hf Hnd Hl Hs. apply wp_bind. eapply wp_mono; [eapply (losers_wp _ id); [exact Hnd|exact Hl|exact Hs]|]. intros u s1 [Hs1 (L1 & L2 & L3 & L4)]. apply wp_bind, (wp_get_tr id t); [congruence|]. apply wp_bind, wp_assert; [by rewrite Hf|]. apply wp_bind, wp_get. rewrite L2. apply wp_bind. eapply wp_mono; [apply (conflict_wp id (f_list s) s1 t); [congruence|intros Hx; by destruct (L3 _ Hx)|done|by rewrite Hf]|].
  intros u2 s2 (t2 & Ht2 & Hsame & Hid2 & Ef2 & Hs2). apply wp_bind, (wp_get_tr id t2); [done|]. apply wp_bind, wp_when.
  - intros Hf2. unfold put_tr. apply wp_bind, wp_modify, wp_bind, wp_get. set (s3 := set_trs _ s2). assert (fs_gen (fun _ _ => t_failed t2 = true) s3) as Hs3.
    { pose proof Hs2 as []. eapply gen_less; [exact Hs2|..]; try done; cbn.
      - intros j Hj. destruct (decide (j = id)) as [->|]; [rewrite lookup_insert_eq; eauto|rewrite lookup_insert_ne by done; auto].
      - intros j Hj. split; [done|]. rewrite lookup_insert_ne; [done|by intros ->]. }
    eapply wp_mono; [eapply (fail_active_wp _ id); [exact Hs3|done]|]. intros u4 s4 (Hs4 & (K1 & K2 & K3 & K4) & Hno). cbn in K4. rewrite lookup_insert_eq in K4. apply wp_bind, (wp_get_tr id (tr_set_failed false t2)); [done|]. apply wp_assert; [done|].
    assert (forall j, j ∉ f_active s4) as Hnone. { intros j Hj. apply (Hno j Hj). rewrite <- K2. by apply (fg_list _ _ Hs4). }
    split; [|split; [by rewrite K1; cbn; rewrite Ef2|]].
    + eapply gen_weaken; [exact Hs4|]. intros j tj x Hj. by destruct (Hnone j).
    + exists (tr_set_failed false t2). split; [done|]. split; [done|]. split; [apply Hnone|done].
  - intros Hf2. apply wp_bind, (wp_get_tr id t2); [done|]. rewrite Hf2. apply wp_assert; [done|]. split; [|split; [congruence|]].
    + eapply gen_weaken; [exact Hs2|]. intros j tj x _ _ _ Hx. congruence.
    + exists t2. done.
Qed.

Lemma tr_complete_wp s id super losers : fs_inv s -> id ∈ f_active s -> super <> Some false -> NoDup losers -> Forall (fun j => j ∈ f_active s /\ j <> id) losers ->
  wp (transaction_complete clean file_complete reserved id super losers) (fun _ s' => fs_inv s' /\ completed id super s s') s.
Proof.
  intros Hs Hid Hsup Hnd Hl. destruct (active_tr _ _ _ Hs Hid) as (t & Ht & [Hf Hc _ _ _ _] & _). pose proof (view_own s id t Hs Hid Ht) as [Hinv Hfor]. unfold transaction_complete. apply wp_bind, (wp_get_tr id t); [done|]. rewrite Hc. apply wp_bind, wp_assert; [done|].
  apply wp_bind, (wp_on_tr id t); [done|]. apply wp_bind, wp_get, wp_lift.
  eapply wp_mono; [apply (wp_calm (fun tst : tstate => tst) True); [intros _; apply calm_copy|apply (block_set_copy_same min max); [apply Hs|done|apply Hs]]|]. intros new tst [[[Hnew Hval] Hsame] HQ]. cbn [view a_t] in HQ. rewrite Hf in HQ. set (v1 := set_t tst (view id t s)). set (s1 := put_view id t v1 s).
  set (t1 := Tr (ts_failed tst) (t_complete t) (t_min_free t) (t_last_free t) (t_last_tmp t) (t_allocated t) (t_tmp t) (t_freed t)). assert (f_trs s1 !! id = Some t1) as Ht1 by apply lookup_insert_eq.
  apply wp_bind, (wp_get_tr id t1); [done|]. cbn [t1 t_failed]. destruct (ts_failed tst) eqn:Hft.
  { apply wp_ret. assert (fs_inv s1) as Hs1 by (apply put_failed; [done|done|apply Hs|done]). split; [done|]. exists t1. split; [done|]. split; [cbn; rewrite Hft; by intros [? _]%list_elem_of_filter|]. left. split; [done|]. split; [done|]. intros (_ & Hqt & _). destruct (HQ I Hqt) as [_ E]. cbn in E. congruence. }
  assert (f_active s1 = f_active s) as Ea by (cbn; by rewrite Hft). assert (fs_inv s1) as Hs1.
  { apply put_own; try done. split; [eapply inv_searched; [exact Hinv|done|done]|]. intros _. by apply Hfor. }
  apply wp_bind, wp_active. rewrite Ea, bool_decide_true by done. apply wp_bind, wp_assert; [done|]. assert (id ∈ f_active s1) as Hid1 by (by rewrite Ea). apply wp_bind, (wp_on_tr id t1); [done|]. specialize (Hval eq_refl). specialize (Hsame eq_refl).
  eapply wp_mono; [apply (commit_sets_wp clean min max file_complete reserved file_work new super (view id t1 s1)); [by apply view_own|done| |done|done|done]|].
  { eapply set_inv_t; [exact Hnew|]. congruence. }
  intros r v2 [Hq Hr]. destruct r as [new'|].
  2:{ destruct Hr as [Hr Hfull]. apply wp_ret. split; [by apply put_failed|]. eexists. split; [apply lookup_insert_eq|]. split; [cbn; rewrite Hr; by intros [? _]%list_elem_of_filter|]. left. split; [done|]. split; [done|].
      intros (HH & Hqt & Es). apply Hfull. split; [done|]. split; [|done]. by destruct (HQ I Hqt). }
  set (s2 := put_view id t1 v2 s1). set (t2 := Tr (ts_failed (a_t v2)) (t_complete t1) (a_min_free v2) (a_last_free v2) (a_last_tmp v2) (a_allocated v2) (a_tmp v2) (a_freed v2)).
  assert (f_trs s2 !! id = Some t2) as Ht2 by apply lookup_insert_eq. assert (ts_failed (a_t v2) = false) as Hf2 by (by destruct Hr as (? & _ & _ & _ & _ & ? & _)).
  destruct (swap_gen s1 id t1 v2 new' t2 Hs1 Hid1 Ht1 Hr Hq eq_refl eq_refl) as (Hg & Hen & HF & Hgen). fold s2 in Hen, HF, Hgen.
  apply wp_bind, wp_modify. unfold transaction_delete_active. apply wp_bind, wp_bind, wp_active. cbn [set_free f_active]. rewrite bool_decide_true by (unfold s2, put_view; cbn [f_active]; by rewrite Hf2). apply wp_bind, wp_assert; [done|]. apply wp_modify.
  apply wp_bind, (wp_get_tr id t2); [done|]. unfold put_tr. apply wp_bind, wp_modify. match goal with |- wp _ _ ?x => change x with (swapped id new' t2 s2) end. set (s3 := swapped id new' t2 s2) in *.
  eapply wp_mono; [apply (others_wp s3 id (tr_set_complete true t2) losers); try done|].
  - apply lookup_insert_eq.
  - cbn. by intros [? _]%list_elem_of_filter.
  - eapply Forall_impl; [exact Hl|]. intros j [Hj Hne]. split; [|done]. cbn. rewrite Hf2, Hft. by apply list_elem_of_filter.
  - intros u s' (Hs' & Ef & t' & Ht' & (S1 & S2 & S3 & S4) & Hid' & Hf'). split; [done|]. exists t'. split; [done|]. split; [done|]. right. split; [done|]. split; [done|]. rewrite Ef, S2, S4. split; [done|]. split; [done|].
    intros j tj x Hj Htj Hx Hx'. destruct (fg_tr _ _ Hs' j tj Hj Htj) as [_ Hap]. destruct (Hap x) as (_ & _ & C). apply (C Hx'). rewrite Ef. apply HF. by right.
Qed.

(** *** Runs *)

Inductive fs_op :=
| OpInit (id : nat) (activate : bool)
| OpActivate (id : nat)
| OpAllocate (id : nat) (is_tmp : bool)
| OpFree (id : nat) (block : Z) (is_tmp : bool)
| OpFail (id : nat)
| OpComplete (id : nat) (super : option bool) (losers : list nat)
| OpEnd (id : nat).

Definition fs_do (o : fs_op) : M (fsys T) unit :=
  match o with
  | OpInit id activate => transaction_init id activate
  | OpActivate id => transaction_activate id
  | OpAllocate id is_tmp => _ ← tr_allocate clean id is_tmp; mret tt
  | OpFree id block is_tmp => tr_free clean id block is_tmp
  | OpFail id => transaction_fail id
  | OpComplete id super losers => transaction_complete clean file_complete reserved id super losers
  | OpEnd id => transaction_free id
  end.

(** What the callers keep to. *)
Definition fs_allowed (o : fs_op) s : Prop :=
  match o with
  | OpInit id _ => id ∉ f_list s
  | OpActivate id | OpEnd id => id ∈ f_list s /\ id ∉ f_active s
  | OpAllocate id _ | OpFail id => id ∈ f_active s
  | OpFree id block is_tmp => id ∈ f_active s /\ forall t, f_trs s !! id = Some t -> may_free clean min max (view id t s) block is_tmp
  | OpComplete id super losers => id ∈ f_active s /\ super <> Some false /\ NoDup losers /\ Forall (fun j => j ∈ f_active s /\ j <> id) losers
  end.

Definition op_result (o : fs_op) s s' : Prop := match o with OpComplete id super _ => completed id super s s' | _ => f_free s' = f_free s end.

Lemma fs_do_wp o s : fs_inv s -> fs_allowed o s -> wp (fs_do o) (fun _ s' => fs_inv s' /\ op_result o s s') s.
Proof.
  intros Hs Hal. destruct o as [id activate|id|id is_tmp|id block is_tmp|id|id super losers|id]; cbn [fs_do fs_allowed op_result] in *.
  - by apply init_wp.
  - destruct Hal. by apply activate_wp.
  - apply wp_bind. eapply wp_mono; [by apply tr_allocate_wp|]. intros r s' H. by apply wp_ret.
  - destruct Hal as [Hid Hmay]. destruct (active_tr _ _ _ Hs Hid) as (t & Ht & _). eapply tr_free_wp; eauto.
  - eapply wp_mono; [by apply fail_wp|]. intros u s' (H1 & _ & H2). split; [done|]. by apply (H2 (S id) (Nat.neq_succ_diag_l id)).
  - destruct Hal as (H1 & H2 & H3 & H4). by apply tr_complete_wp.
  - destruct Hal. by apply free_tr_wp.
Qed.

Definition fs_step s s' : Prop := exists o, fs_allowed o s /\ fs_do o s = Ret tt s'.

Lemma steps_fs s0 s : fs_inv s0 -> rtc fs_step s0 s -> fs_inv s.
Proof.
  intros Hs H. induction H as [|s1 s2 s3 (o & Hal & E) _ IH]; [done|]. apply IH. pose proof (fs_do_wp o s1 Hs Hal) as Hw. unfold wp in Hw. rewrite E in Hw. apply Hw.
Qed.

(** A file system without transactions. *)
Record fs_start s : Prop := {
  fs_min : 1 <= min;
  fs_max : max < 2 ^ 64;
  fs_free : set_ok min max (f_free s);
  fs_root : bt_valid (bs_tree (f_free s)) = true <-> bs_initial (f_free s) = block_range_clear;
  fs_queue : queue_idle (f_queue s);
  fs_count : small_count (f_count s) /\ max <= f_count s;
  fs_none : f_list s = [] /\ f_active s = [];
}.
Lemma start_fs s : fs_start s -> fs_inv s.
Proof.
  intros [H1 H2 H3 H4 H5 H6 [E1 E2]]. split; try done; rewrite ?E1, ?E2.
  - apply NoDup_nil_2.
  - by intros j ?%elem_of_nil.
  - by intros j ?%elem_of_nil.
  - by intros j t ?%elem_of_nil.
  - by intros i j ti tj x ?%elem_of_nil.
Qed.
End system.



Module CommitDemo.
Definition all_clean (_ : Z) : bool := true.

(** A file layer that takes a block for the tree of the files. *)
Definition one_block : M (astate list_tree) unit := _ ← block_allocate_etc all_clean false; mret tt.

Lemma one_block_work : forall v : astate list_tree, own 1 40 v -> ts_failed (a_t v) = false -> wp one_block (fun _ v' => work all_clean 1 40 v v') v.
Proof.
  intros v Hv Hf. unfold one_block. apply wp_bind. eapply wp_mono_run; [by apply (allocate_own all_clean 1 40 false)|]. intros r v' E _. apply wp_ret. exists v'. split; [|by left]. eapply rtc_l; [|apply rtc_refl]. by apply (step_alloc _ _ _ false r).
Qed.

(** 40 blocks, of which 10 to 29 are free. *)
Definition start : fsys list_tree := Fsys (AllocDemo.set [(10, 30)]) ∅ [] [] 40 AllocDemo.idle [].

Lemma demo_start_ok : fs_start 1 40 start.
Proof. split; try done; try lia; [apply AllocDemo.set_ok_small; cbn; lia|apply AllocDemo.idle_idle]. Qed.

Definition do_all (l : list fs_op) (s : fsys list_tree) : fsys list_tree :=
  foldl (fun s o => match fs_do all_clean one_block 5 o s with Ret _ s' => s' | Fault _ => s end) s l.

(** Two transactions have a block each; the first has freed block 3 as well. *)
Definition ops : list fs_op := [OpInit 0 true; OpInit 1 true; OpAllocate 0 false; OpAllocate 1 false; OpFree 0 3 false].
Definition busy : fsys list_tree := do_all ops start.

Lemma busy_reached : rtc (fs_step all_clean 1 40 one_block 5) start busy.
Proof.
  eapply rtc_l; [exists (OpInit 0 true); split; [cbn; set_solver|vm_compute; reflexivity]|]. eapply rtc_l; [exists (OpInit 1 true); split; [cbn; set_solver|vm_compute; reflexivity]|].
  eapply rtc_l; [exists (OpAllocate 0 false); split; [cbn; set_solver|vm_compute; reflexivity]|]. eapply rtc_l; [exists (OpAllocate 1 false); split; [cbn; set_solver|vm_compute; reflexivity]|].
  eapply rtc_l; [exists (OpFree 0 3 false); split; [|vm_compute; reflexivity]|apply rtc_refl].
  split; [cbn; set_solver|]. intros t [= <-]. split; [done|]. split; [lia|]. split; [done|]. right. rewrite !blocks_tree by done. cbn. rewrite !in_entries_cons. split; intros H; [destruct H as [?|H]; [lia|]|]; by apply in_entries_nil in H.
Qed.

Lemma both_active : (0%nat ∈ f_active busy) /\ (1%nat ∈ f_active busy).
Proof. vm_compute. set_solver. Qed.

(** The first one commits: it has allocated 10, and 12 at the commit. *)
Example first_commits : let s := do_all [OpComplete 0 (Some true) []] busy in
  bt_entries (bs_tree (f_free s)) = [(3, 4); (11, 12); (13, 30)] /\ f_active s = [1%nat] /\ t_complete <$> f_trs s !! 0%nat = Some true.
Proof. vm_compute. done. Qed.

(** Both have freed block 3: the commit of the first fails the second. *)
Example second_fails : let s := do_all [OpFree 1 3 false; OpComplete 0 (Some true) []] busy in f_active s = [] /\ t_failed <$> f_trs s !! 1%nat = Some true.
Proof. vm_compute. done. Qed.
End CommitDemo.


